(* ===== verification/_CoqProject ===== *)
-Q . S2P
Prelude.v
TimeWheel.v
MinHeap.v
MemPool.v
BTree.v
Deadlock.v
CMem.v
RingBuf.v
Reactor.v
NtyReactor.v
WebSocket.v
Http.v
Dns.v
ThreadPool.v
SkipList.v
NetStack.v
SingleWheel.v
RbTree.v
RbTimer.v
NtyCo.v
NtySocket.v
TryCatch.v
LockFree.v
RedisAdapter.v
MemLeak.v
EpollKernel.v
SweepReactor.v
MulReactor.v
TcpServer.v
Kcp.v
KcpWire.v
KcpLink.v
KcpEcho.v
