(* ===== verification/Prelude.v ===== *)
(** * Verification of the C components of cpp_track_1

    The repository collects server-side components written for a course: timers,
    containers, allocators, event-driven servers, protocols and debugging aids.  They are
    separate programs that share designs; this library models the C ones that have
    logic of their own, function by function, and proves what makes them correct,
    or, where the code falls short of that, what it does instead.

    ** How programs are modelled

    A function of the source is a Rocq function of the same name on an explicit
    state; a comment above a definition says what it leaves out.  [res] is the
    result of code that may go wrong: a value, or the first [fault]: null or dangling pointers, array
    bounds, failed assertions, overflow of signed sums, locking one's own lock, a node taken out of a structure
    that does not hold it.  Memory is a finite map
    from addresses to records, or a list for an array whose bounds are checked ([aget],
    [aset], [memcpy]); freed storage is removed from the map, so that
    reading it is a fault.  Integers are [Z] with the wrap-around written out ([u8], [u16],
    [u32], [u64], [i32]).  What the kernel or the C library answers ([malloc],
    [read], [accept], [epoll_wait], [rand], the clock) is an argument, most often a list consumed
    in order; what the program sends, prints or calls is recorded.  Third-party functions (SHA-1, base64) are
    parameters of a section with hypotheses from their documentation.  Code of a client of a library (the function of a
    coroutine, the hooks hiredis calls, what stands between Try and Catch) is data: the calls it makes.

    Loops with a bound known beforehand are [for_up] and [for_down]; others take a
    fuel argument, and [OutOfFuel] is a fault like the others.  The functions modelled choose the
    fuel themselves (the size of the store for a walk along pointers, the number of bytes left for a
    write, the number of entries of a heap), and the theorems, which give the result of the
    function without assuming that it returns, show that it suffices.  Where the code does not
    terminate that is a theorem as well: every amount of fuel runs out.

    ** Files

    - Prelude: this file; results, integers, C arrays and loops, null-terminated chains of records
      in a store, tactics and hints.
    - CMem: byte arrays, [memcpy], the string functions.
    - TimeWheel: the hierarchical timing wheel of 7.2timers/timers/timewheel.c.  Its slots are lists of node pointers;
      [LinkList] refines them to the head, tail and next pointers of the source.  Every timer of the near wheel is
      called exactly at its tick, a timer that [add_timer] puts where the shifts
      reach it fires on time, and one in slot 0 of an upper level is lost.
    - MinHeap: minheap.c and mh-timer.h.  The heap order and the index kept in every entry are invariants; erase, pop and
      push have their functional specification; [expire_timer] calls the due timers in order.
    - SkipList: skiplist.c and skl-timer.c.  All lanes of the list are described by one list of entries; every operation refines one
      on sorted lists.  Deletion goes by score, and expired nodes leak.
    - RbTree: rbtree.c on a store of nodes with parent pointers and a shared sentinel.  A tree with a focus is an inductive tree below a path of frames;
      insertion and deletion keep the red-black invariant and the order, and the way down is logarithmic.
    - RbTimer: rbt-timer.h on top of it, which refines a list of timers by expiry in a window of 32-bit time.
    - SingleWheel: single_tw.c, a wheel of heartbeats.  A connection is cut when its last timer goes off.
    - MemPool: 6.2mem_pool/mmpool.c on a heap of address ranges.  Allocations are disjoint and inside
      their blocks, destruction gives everything back; a wrapped subtraction hands out
      storage beyond the block.
    - BTree: 1.1rbtree/btree.c on a store of nodes.  Insertion keeps the B-tree invariant and the multiset of keys, so that
      traversal sorts; deletion goes wrong in the ways stated.
    - Deadlock: 7.4deadlock_detect/deadlock_success.c: the lock table kept by the hooks and the search of the waits-for graph, which
      finds every cycle, and reports none falsely when each thread waits for one lock.
    - ThreadPool: 6.1thread_pool/thread_pool.c, workers and clients as interleaved steps under a mutex and a condition
      variable, every access to the shared lists a step of its own.  Jobs are run at most once, the mutex excludes workers and
      clients, no wake-up is lost; shutting down reads freed workers.
    - RingBuf, Reactor: ringbuf.h, reactor.h and main.c of 4.2net_from_nginx_redis_memcached/reactor.  The
      ring buffer refines a queue of bytes; [flush_socket] sends a prefix of the output in order.
    - NtyReactor, WebSocket, Http: the event-block reactor of 4.1websocket/websocket_server.c, which
      3.4http_server/webserver.c shares, against the class [Protocol] with the laws [ProtocolLaws]: the reactor's invariant is proved
      for every protocol that satisfies them (as long as [malloc] does not fail for ever, when its search for an event never ends), and the WebSocket and HTTP
      files give the two instances and prove the laws.  Replies go out as far as the kernel takes them.
    - Dns: 6.3async/async/async_dns_client_noblock.c: questions, names (also compressed), responses and the queries in flight.
    - NetStack: 5.3coroutine_tcpip/icmp_arp_udp_success.c: packed headers, checksum, and
      the replies to ARP, ICMP and UDP frames.
    - NtyCo: the coroutine scheduler of 5.2coroutine_impl/NtyCo/NtyCo/core.  The queue, the two trees, epoll's set and the
      memory of the coroutines agree in every round; rounds switch to the coroutines in the order stated, runs free them all, and end when
      their code does.  Sleeping for a time breaks the invariant, as do the other uses stated.
    - NtySocket: the socket calls of nty_socket.c as clients of that scheduler: what its theorems ask of a client is proved
      for all of them, and sending is complete and in order.
    - TryCatch: the exceptions of 7.1cas/trycatch_finally.c.  The macros are executed on a stack of frames with jumps; that is
      equivalent to a compositional meaning of try, catch and finally, and an analysis of the exceptions raised is sound for it.
    - LockFree: the array queue of 7.3cas_queue, any number of threads access by access; it refines a bounded queue.
    - RedisAdapter: reactor.h and adapter.h of 6.4mysql_connect_pool/connect_pool/redis-async, the events registered for a client of hiredis.
    - MemLeak: the hooks of 7.5mem_leak_detect/memleak.c.
    - EpollKernel: descriptors, the epoll set and the answers of the calls, as the small servers use them.
    - MulReactor: 3.2reactor/reactor_mulcb.c, the reactor with a callback per event: every message is answered in full before
      the next, by attempts that each begin at its start; failed sends are tried for ever.
    - TcpServer: the epoll branch of 3.1net_io/tcpserver.c, which answers each message at once and ignores what send returns.
    - SweepReactor: 3.2reactor/reactor_singlecb.c, a reactor with a fixed table and a sweep for idle connections.  The
      table and epoll agree and messages go back in turn; the sweep closes the listening socket too.
    - Kcp, KcpWire, KcpLink: the reliable transport of 4.4udp/kcp-20211120/ikcp.c; its operations, its datagrams, and two
      ends over a network that loses, repeats and reorders.  Messages come out in order and none is lost, for fewer than
      2^30 segments, connections of less than 2^28 milliseconds, whatever the clocks show, and message mode.
    - KcpEcho: the programs server.c, client.c and delay.c over them, as programs in a state monad over an end.  The
      composition is the echo it should be: replies are the objects sent, in order; they may be read too late or never,
      in the ways stated.

    ** What the theorems show

    Invariants: [BTree.btree_insert_correct], [RbTree.ngx_rbtree_insert_correct], [RbTree.ngx_rbtree_delete_correct], [MinHeap.push_correct], [NtyReactor.reactor_safe], [SweepReactor.reactor_stays_sound], [MulReactor.answers_every_message], [TcpServer.echo_server_sound],
    [SingleWheel.check_cuts_last], [Deadlock.lock_before_records_wait], [MemLeak.leaks_exact].  Refinement of an abstract
    specification: [RingBuf.ring_refines_queue] (a queue of bytes), [SkipList.timers_refine] and
    [RbTimer.rbt_timers_refine] (sorted lists), [NtyReactor.ntyreactor_idx_array] (an array without bound),
    [LockFree.queue_refines_fifo] (a queue shared by threads).  Equivalence with a reference semantics:
    [TryCatch.exec_implements_exceptions], for which [TryCatch.raises_sound] is a typing of exceptions.  Functional behaviour: [TimeWheel.expire_timer_exact], [MinHeap.erase_pop_correct], [Reactor.flush_socket_fifo],
    [WebSocket.handshark_accepts], [Http.http_get_served], [Dns.dns_parse_response_correct], [NetStack.echo_reply],
    [NtyCo.nty_round_correct], [RedisAdapter.hook_interest], [KcpEcho.rtt_measured].  Safety of
    memory: [MemPool.mp_alloc_safe], [MemPool.mp_destory_pool_correct], [ThreadPool.pool_jobs_once], [NtyCo.nty_run_frees_all],
    [NtySocket.socket_clients_freed], [KcpWire.input_reads_inside], [KcpLink.delivers_in_order], [KcpLink.nothing_lost], [KcpEcho.replies_in_order].  Progress and termination:
    [Deadlock.check_finds_every_cycle], [ThreadPool.pool_progress], [TimeWheel.add_timer_fires_on_time], [NtyCo.nty_run_ends],
    [NtyCo.sleepdown_correct], [NtySocket.nty_send_correct], [LockFree.next_commit_owned], [SweepReactor.listener_times_out], [KcpLink.resent_until_received].  Round
    trips: [Dns.dns_name_roundtrip], [KcpWire.datagram_roundtrip], [WebSocket.transmission_unmasks], [NetStack.str2mac_print_mac].  Bounds
    and errors: [RbTree.ngx_rbtree_search_cost], [KcpWire.flush_fits], and where inputs break the code [MemPool.mp_alloc_overrun],
    [BTree.btree_merge_full_overflows], [KcpEcho.reply_never_comes], [NetStack.udp_length_trusted], [Dns.dns_parse_name_loops] and others; each
    is stated of the definitions that translate the code, with the exact condition.

    Each theorem with hypotheses is applied to a concrete input at the end of its file.

    ** What is not modelled

    Of NtyCo the switch of stacks, madvise and the hooks of the C library's names, of 5.3coroutine_tcpip the
    calls of netmap.  Left aside are third-party code (hiredis, cJSON,
    RapidJSON, protobuf, loggers, ZeroMQ's queues and the queue over C++ memory orders), the unfinished tree of 1.1rbtree/rbtree.c, the samples of NtyCo, C++ wrappers and language samples, programs that are sequences of
    system calls, and earlier copies of code modelled here.  Within the files modelled, [printf] output
    is kept only where a theorem speaks of it, or where what is printed may have no end; C's [int] counters that would need 2^31 steps to
    overflow are unbounded unless a theorem is about the overflow. *)

From stdpp Require Export base list gmap strings numbers fin_maps sorting.
From Stdlib Require Export ZArith Lia.

Declare Scope cmodel_scope.
Delimit Scope cmodel_scope with cm.
Open Scope Z_scope.

(** ** Results of C code: a value, or the first undefined behaviour / abort met. *)

Inductive fault : Type :=
  | NullDeref        (* a null pointer is dereferenced *)
  | OutOfBounds      (* an array is indexed outside its allocation *)
  | UseAfterFree     (* freed (or never allocated) storage is accessed *)
  | SelfDeadlock     (* a non-recursive lock is taken by its holder *)
  | AssertFailed     (* assert() fires *)
  | SignedOverflow   (* the result of signed arithmetic does not fit *)
  | BadLink          (* a node is taken out of a structure that does not hold it *)
  | OutOfFuel.       (* the model's recursion bound is exhausted *)

#[export] Instance fault_eq_dec : EqDecision fault.
Proof. solve_decision. Defined.

Inductive res (A : Type) : Type :=
  | Ok (a : A)
  | Err (f : fault).
Arguments Ok {A} _.
Arguments Err {A} _.

#[export] Instance res_ret : MRet res := @Ok.
#[export] Instance res_bind : MBind res :=
  fun A B f m => match m with Ok a => f a | Err e => Err e end.
#[export] Instance res_fmap : FMap res :=
  fun A B f m => match m with Ok a => Ok (f a) | Err e => Err e end.

(** The value of an option, or a fault when there is none. *)
Definition get_or {A} (f : fault) (o : option A) : res A :=
  match o with Some a => Ok a | None => Err f end.

Lemma ok_bind {A B} (a : A) (f : A → res B) : (Ok a ≫= f) = f a.
Proof. done. Qed.

Lemma bind_ok {A B} (m : res A) (k : A → res B) b :
  (m ≫= k) = Ok b ↔ ∃ a, m = Ok a ∧ k a = Ok b.
Proof. destruct m; simpl; split; [eauto|naive_solver|discriminate|naive_solver]. Qed.

Lemma get_or_ok {A} f (o : option A) a : get_or f o = Ok a ↔ o = Some a.
Proof. destruct o; simpl; naive_solver. Qed.

(** ** Fixed-width integers: values are [Z], the wrap-around is explicit. *)

Definition u8 (z : Z) : Z := z mod 2 ^ 8.
Definition u16 (z : Z) : Z := z mod 2 ^ 16.
Definition u32 (z : Z) : Z := z mod 2 ^ 32.
Definition u64 (z : Z) : Z := z mod 2 ^ 64.
(** Conversion of an unsigned pattern to the signed type of the same width. *)
Definition i32 (z : Z) : Z := (z + 2 ^ 31) mod 2 ^ 32 - 2 ^ 31.

Lemma u32_range z : 0 ≤ u32 z < 2 ^ 32.
Proof. unfold u32. apply Z.mod_pos_bound. lia. Qed.
Lemma u64_range z : 0 ≤ u64 z < 2 ^ 64.
Proof. unfold u64. apply Z.mod_pos_bound. lia. Qed.
Lemma u32_small z : 0 ≤ z < 2 ^ 32 → u32 z = z.
Proof. intros. unfold u32. apply Z.mod_small. lia. Qed.
Lemma u64_small z : 0 ≤ z < 2 ^ 64 → u64 z = z.
Proof. intros. unfold u64. apply Z.mod_small. lia. Qed.
Lemma i32_small z : - 2 ^ 31 ≤ z < 2 ^ 31 → i32 z = z.
Proof. intros. unfold i32. rewrite Z.mod_small; lia. Qed.

(** Masking with [2^n - 1] and shifting, as remainder and quotient. *)
Lemma land_mask z n : 0 ≤ n → Z.land z (2 ^ n - 1) = z mod 2 ^ n.
Proof. intros. rewrite <-Z.land_ones by done. f_equal. rewrite Z.ones_equiv. lia. Qed.

Lemma shiftr_div z n : 0 ≤ n → Z.shiftr z n = z / 2 ^ n.
Proof. apply Z.shiftr_div_pow2. Qed.

(** ** Lists *)

Lemma default_replicate_nil {A} n k : default [] (replicate n (@nil A) !! k) = [].
Proof.
  destruct (replicate n _ !! k) eqn:E; [|done]. by apply lookup_replicate in E as [-> _].
Qed.

Lemma filter_none {A} (P : A → Prop) `{∀ x, Decision (P x)} (l : list A) :
  (∀ x, x ∈ l → ¬ P x) → filter P l = [].
Proof.
  induction l as [|x l IH]; intros Hl; [done|].
  rewrite filter_cons_False by (apply Hl; set_solver). apply IH. set_solver.
Qed.

Lemma filter_keeps_all {A} (P : A → Prop) `{∀ x, Decision (P x)} (l : list A) :
  (∀ x, x ∈ l → P x) → filter P l = l.
Proof.
  induction l as [|x l IH]; intros Hl; [done|]. rewrite filter_cons_True by (apply Hl; left). f_equal. apply IH.
  intros y Hy. apply Hl. by right.
Qed.

(** Replacing the [i]-th element exchanges it for the new one. *)
Lemma insert_Permutation {A} (l : list A) i x y : l !! i = Some y →
  y :: <[i := x]> l ≡ₚ x :: l.
Proof.
  revert i. induction l as [|z l IH]; intros [|i] Hi; simplify_eq/=.
  - apply perm_swap.
  - rewrite perm_swap, (perm_swap z x). by rewrite (IH i Hi).
Qed.

(** Exchanging two elements is a permutation. *)
Lemma swap_Permutation {A} (l : list A) i j x y : l !! i = Some x → l !! j = Some y →
  <[j := x]> (<[i := y]> l) ≡ₚ l.
Proof.
  intros Hi Hj. destruct (decide (i = j)) as [->|Hne].
  - simplify_eq. by rewrite list_insert_insert_eq, list_insert_id.
  - apply (Permutation_cons_inv (a := y)).
    rewrite (insert_Permutation (<[i := y]> l) j x y) by (by rewrite list_lookup_insert_ne).
    by apply insert_Permutation.
Qed.

Lemma elem_of_concat {A} (x : A) (ls : list (list A)) : x ∈ concat ls ↔ ∃ l, x ∈ l ∧ l ∈ ls.
Proof.
  induction ls as [|l ls IH]; simpl.
  - split; [by intros ?%elem_of_nil|by intros (? & _ & ?%elem_of_nil)].
  - rewrite elem_of_app, IH. setoid_rewrite elem_of_cons. naive_solver.
Qed.

Lemma Forall2_impl_in {A B} (P Q : A → B → Prop) l k : Forall2 P l k →
  (∀ x y, x ∈ l → P x y → Q x y) → Forall2 Q l k.
Proof.
  induction 1 as [|x y l k Hxy _ IH]; intros HQ; constructor.
  - apply HQ; [by left|done].
  - apply IH. intros a b Ha. apply HQ. by right.
Qed.

(** Rows of the same length, one after the other. *)
Lemma concat_length_rows {A} (k : nat) (ls : list (list A)) : Forall (λ l, length l = k) ls →
  length (concat ls) = (length ls * k)%nat.
Proof. induction 1 as [|l ls Hl _ IH]; simpl; [done|]. rewrite length_app. lia. Qed.

Lemma concat_lookup_rows {A} (k : nat) (ls : list (list A)) : Forall (λ l, length l = k) ls →
  ∀ i j l, ls !! i = Some l → (j < k)%nat → concat ls !! (i * k + j)%nat = l !! j.
Proof.
  induction 1 as [|l0 ls Hl _ IH]; intros [|i] j l Hi Hj; simplify_eq/=.
  - by rewrite lookup_app_l by lia.
  - rewrite lookup_app_r by lia. rewrite <-(IH i j l Hi Hj). f_equal. lia.
Qed.

Lemma concat_insert_rows {A} (k : nat) (ls : list (list A)) x : Forall (λ l, length l = k) ls →
  ∀ i j l, ls !! i = Some l → (j < k)%nat → concat (<[i := <[j := x]> l]> ls) = <[(i * k + j)%nat := x]> (concat ls).
Proof.
  induction 1 as [|l0 ls Hl _ IH]; intros [|i] j l Hi Hj; simplify_eq/=.
  - by rewrite insert_app_l by lia.
  - rewrite (IH i j l Hi Hj), insert_app_r_alt by lia. do 2 f_equal. lia.
Qed.

(** ** C arrays: checked access, loops, and what the common loops compute *)

Definition aget {A} (l : list A) (i : Z) : res A :=
  if 0 <=? i then get_or OutOfBounds (l !! Z.to_nat i) else Err OutOfBounds.
Definition aset {A} (l : list A) (i : Z) (x : A) : res (list A) :=
  if (0 <=? i) && (i <? Z.of_nat (length l)) then Ok (<[Z.to_nat i := x]> l) else Err OutOfBounds.

(** [for (j = i; n times; j++) body] and [for (j = i; n times; j--) body]. *)
Fixpoint for_up {S} (n : nat) (i : Z) (body : Z → S → res S) (s : S) : res S :=
  match n with O => Ok s | Datatypes.S n => s ← body i s; for_up n (i + 1) body s end.
Fixpoint for_down {S} (n : nat) (i : Z) (body : Z → S → res S) (s : S) : res S :=
  match n with O => Ok s | Datatypes.S n => s ← body i s; for_down n (i - 1) body s end.

Lemma for_up_app {S} n m (body : Z → S → res S) : ∀ i s,
  for_up (n + m) i body s = (s ← for_up n i body s; for_up m (i + Z.of_nat n) body s).
Proof.
  induction n as [|n IH]; intros i s; simpl; [by rewrite Z.add_0_r|].
  destruct (body i s) as [s'|]; simpl; [|done]. rewrite IH. do 2 f_equal. lia.
Qed.

Lemma for_up_skip {S} n (body : Z → S → res S) s : ∀ i,
  (∀ j, i ≤ j < i + Z.of_nat n → body j s = Ok s) → for_up n i body s = Ok s.
Proof.
  induction n as [|n IH]; intros i Hb; simpl; [done|]. rewrite (Hb i) by lia. simpl.
  apply IH. intros j Hj. apply Hb. lia.
Qed.

(** What every iteration keeps, the loop keeps; and a fault of the loop is one of its body. *)
Lemma for_up_inv {S} (P : S → Prop) (body : Z → S → res S) n : ∀ i s s',
  (∀ i s s', P s → body i s = Ok s' → P s') → P s → for_up n i body s = Ok s' → P s'.
Proof.
  induction n as [|n IH]; intros i s s' HP Hs Hf; simpl in Hf; [by injection Hf as <-|].
  destruct (body i s) as [s1|] eqn:Hb; [|done]. eapply IH; [exact HP| |exact Hf]. by eapply HP.
Qed.

Lemma for_up_fault {S} (Q : fault → Prop) (body : Z → S → res S) n : ∀ i s x,
  (∀ i s x, body i s = Err x → Q x) → for_up n i body s = Err x → Q x.
Proof.
  induction n as [|n IH]; intros i s x HQ Hf; simpl in Hf; [done|].
  destruct (body i s) as [s1|y] eqn:Hb; [by eapply IH|]. injection Hf as <-. by eapply HQ.
Qed.

(** A loop every iteration of which succeeds, with the invariant [P]. *)
Lemma for_up_total {S} (P : nat → S → Prop) (body : Z → S → res S) n : ∀ i s, P i s →
  (∀ j s, (i ≤ j < i + n)%nat → P j s → ∃ s', body (Z.of_nat j) s = Ok s' ∧ P (j + 1)%nat s') →
  ∃ s', for_up n (Z.of_nat i) body s = Ok s' ∧ P (i + n)%nat s'.
Proof.
  induction n as [|n IH]; intros i s Hs Hb; simpl; [exists s; by rewrite Nat.add_0_r|].
  destruct (Hb i s) as (s1 & -> & H1); [lia|done|]. rewrite ok_bind.
  replace (Z.of_nat i + 1) with (Z.of_nat (i + 1)) by lia.
  destruct (IH (i + 1)%nat s1 H1) as (s2 & -> & H2); [intros j s' Hj; apply Hb; lia|].
  exists s2. split; [done|]. by replace (i + Datatypes.S n)%nat with (i + 1 + n)%nat by lia.
Qed.

Lemma for_down_total {S} (P : nat → S → Prop) (body : Z → S → res S) n : ∀ s, P n s →
  (∀ j s, (j < n)%nat → P (j + 1)%nat s → ∃ s', body (Z.of_nat j) s = Ok s' ∧ P j s') →
  ∃ s', for_down n (Z.of_nat n - 1) body s = Ok s' ∧ P O s'.
Proof.
  induction n as [|n IH]; intros s Hs Hb; cbn [for_down]; [by exists s|].
  replace (Z.of_nat (Datatypes.S n) - 1) with (Z.of_nat n) by lia.
  destruct (Hb n s) as (s1 & -> & H1); [lia|by rewrite Nat.add_1_r|]. rewrite ok_bind.
  destruct (IH s1 H1) as (s2 & -> & H2); [intros j s' Hj; apply Hb; lia|]. by exists s2.
Qed.

(** A sequence leaves the bounds of an array when one of its parts does, and has no
    other fault when they have none. *)
Lemma bind_oob {A B} (m : res A) (k : A → res B) x : (m ≫= k) = Err x →
  (∀ y, m = Err y → y = OutOfBounds) → (∀ a, m = Ok a → k a = Err x → x = OutOfBounds) → x = OutOfBounds.
Proof. destruct m as [a|y]; simpl; [eauto|]. intros [= ->]. eauto. Qed.

Lemma aget_ok {A} (l : list A) i x : l !! i = Some x → aget l (Z.of_nat i) = Ok x.
Proof. intros Hx. unfold aget. rewrite (proj2 (Z.leb_le _ _)) by lia. by rewrite Nat2Z.id, Hx. Qed.

Lemma aget_mid {A} (a b : list A) x i : i = Z.of_nat (length a) → aget (a ++ x :: b) i = Ok x.
Proof. intros ->. apply aget_ok. by apply list_lookup_middle. Qed.

Lemma aget_past {A} (l : list A) i : Z.of_nat (length l) ≤ i → aget l i = Err OutOfBounds.
Proof.
  intros Hi. unfold aget. rewrite (proj2 (Z.leb_le _ _)) by lia.
  by rewrite lookup_ge_None_2 by lia.
Qed.

Lemma aset_mid {A} (a b : list A) x y i : i = Z.of_nat (length a) → aset (a ++ x :: b) i y = Ok (a ++ y :: b).
Proof.
  intros ->. unfold aset. rewrite length_app. simpl.
  rewrite (proj2 (Z.leb_le _ _)), (proj2 (Z.ltb_lt _ _)) by lia. simpl.
  by rewrite Nat2Z.id, insert_app_r_alt, Nat.sub_diag by lia.
Qed.

Lemma aset_nat {A} (l : list A) i x : (i < length l)%nat → aset l (Z.of_nat i) x = Ok (<[i := x]> l).
Proof. intros Hi. unfold aset. by rewrite (proj2 (Z.leb_le _ _)), (proj2 (Z.ltb_lt _ _)), Nat2Z.id by lia. Qed.

Lemma aset_past {A} (l : list A) i x : Z.of_nat (length l) ≤ i → aset l i x = Err OutOfBounds.
Proof. intros Hi. unfold aset. rewrite (proj2 (Z.ltb_ge _ _)) by lia. by rewrite andb_false_r. Qed.

Lemma aset_length {A} (l : list A) i x l' : aset l i x = Ok l' → length l' = length l.
Proof. unfold aset. destruct (_ && _); [|done]. intros [= <-]. apply length_insert. Qed.

(** [d[j] = src[j + off]] for the first [n] cells. *)
Lemma copy_loop {A} (b a c : list A) : ∀ (d0 d1 d2 : list A) i off, length d1 = length b →
  i = Z.of_nat (length d0) → i + off = Z.of_nat (length a) →
  for_up (length b) i (λ j d, v ← aget (a ++ b ++ c) (j + off); aset d j v) (d0 ++ d1 ++ d2) =
    Ok (d0 ++ b ++ d2).
Proof.
  revert a. induction b as [|x b IH]; intros a d0 [|y d1] d2 i off Hl -> Ho; simplify_eq/=; [done|].
  rewrite aget_mid by done. simpl. rewrite aset_mid by done. simpl.
  specialize (IH (a ++ [x]) (d0 ++ [x]) d1 d2 (Z.of_nat (length d0) + 1) off).
  rewrite <-!app_assoc in IH. simpl in IH. apply IH; rewrite ?length_app; simpl; lia.
Qed.

(** [d[j + 1] = d[j]] downwards: the cells [b] move up by one. *)
Lemma shift_up_loop {A} (b a c : list A) x i : i = Z.of_nat (length a + length b) - 1 →
  ∃ y, for_down (length b) i (λ j d, v ← aget d j; aset d (j + 1) v) (a ++ b ++ x :: c) =
    Ok (a ++ y :: b ++ c).
Proof.
  revert c x i. induction b as [|z b IH] using rev_ind; intros c x i ->; [by exists x|].
  rewrite length_app, Nat.add_comm. simpl. rewrite <-!app_assoc. simpl. rewrite (app_assoc a b).
  rewrite aget_mid by (rewrite length_app; lia). simpl.
  rewrite (cons_middle z (a ++ b)), (app_assoc (a ++ b) [z]).
  rewrite aset_mid by (rewrite !length_app; simpl; lia). simpl.
  rewrite <-!app_assoc. simpl. destruct (IH (z :: c) z (Z.of_nat (length a + length b) - 1) eq_refl) as (y & Hy).
  exists y. rewrite <-Hy. f_equal. lia.
Qed.

(** [d[j] = d[j + 1]] upwards: the cells [b] move down by one. *)
Lemma shift_down_loop {A} (b : list A) : ∀ (a c : list A) x i, i = Z.of_nat (length a) →
  ∃ y, for_up (length b) i (λ j d, v ← aget d (j + 1); aset d j v) (a ++ x :: b ++ c) =
    Ok (a ++ b ++ y :: c).
Proof.
  induction b as [|z b IH]; intros a c x i ->; [by exists x|]. simpl.
  rewrite (cons_middle x), app_assoc, aget_mid by (rewrite length_app; simpl; lia). simpl.
  rewrite <-app_assoc. simpl. rewrite aset_mid by done. simpl.
  destruct (IH (a ++ [z]) c z (Z.of_nat (length a) + 1)) as (y & Hy); [rewrite length_app; simpl; lia|].
  rewrite <-!app_assoc in Hy. simpl in Hy. exists y. exact Hy.
Qed.

(** ** Null-terminated lists of records in a store

    [chain nx h a l]: following [nx] from address [a] visits exactly [l] and ends
    at the null address. *)

Fixpoint chain {A} (nx : A → Z) (h : gmap Z A) (a : Z) (l : list Z) : Prop :=
  match l with
  | [] => a = 0
  | x :: t => a = x ∧ x ≠ 0 ∧ ∃ v, h !! x = Some v ∧ chain nx h (nx v) t
  end.

Lemma chain_ext {A} (nx : A → Z) h h' a l :
  (∀ x, x ∈ l → nx <$> h' !! x = nx <$> h !! x) → chain nx h a l → chain nx h' a l.
Proof.
  revert a. induction l as [|x t IH]; intros a Hx; [done|]. intros (-> & H0 & v & Hv & Ht).
  split_and!; try done. pose proof (Hx x ltac:(left)) as E. rewrite Hv in E.
  destruct (h' !! x) as [v'|]; simplify_eq/=. exists v'. split; [done|]. rewrite E.
  apply IH; [|done]. intros y Hy. apply Hx. by right.
Qed.

Lemma chain_functional {A} (nx : A → Z) h a l l' : chain nx h a l → chain nx h a l' → l = l'.
Proof.
  revert a l'. induction l as [|x t IH]; intros a [|y t']; simpl; naive_solver.
Qed.

Lemma chain_suffix {A} (nx : A → Z) h a l x : chain nx h a l → x ∈ l →
  ∃ l1 l2, l = l1 ++ x :: l2 ∧ chain nx h x (x :: l2).
Proof.
  revert a. induction l as [|y t IH]; intros a Hc Hx; [by apply elem_of_nil in Hx|].
  apply elem_of_cons in Hx as [->|Hx].
  - exists [], t. split; [done|]. by destruct Hc as (_ & ?).
  - destruct Hc as (-> & _ & v & _ & Hc). destruct (IH _ Hc Hx) as (l1 & l2 & -> & ?).
    by exists (y :: l1), l2.
Qed.

Lemma chain_NoDup {A} (nx : A → Z) h a l : chain nx h a l → NoDup l.
Proof.
  revert a. induction l as [|x t IH]; intros a Hc; [constructor|].
  pose proof Hc as (-> & _ & v & Hv & Ht). constructor; [|by eapply IH].
  intros Hx. destruct (chain_suffix _ _ _ _ _ Ht Hx) as (l1 & l2 & -> & Hc').
  pose proof (chain_functional _ _ _ _ _ Hc Hc') as E%(f_equal length).
  simpl in E. rewrite length_app in E. simpl in E. lia.
Qed.

Lemma chain_dom {A} (nx : A → Z) h a l x : chain nx h a l → x ∈ l → x ≠ 0 ∧ is_Some (h !! x).
Proof.
  intros Hc Hx. destruct (chain_suffix _ _ _ _ _ Hc Hx) as (l1 & l2 & _ & _ & H0 & v & Hv & _). eauto.
Qed.

(** A chain is no longer than its store is large. *)
Lemma chain_length {A} (nx : A → Z) h a l : chain nx h a l → (length l ≤ size h)%nat.
Proof.
  intros Hc. rewrite <-(size_dom (D := gset Z)), <-(size_list_to_set (C := gset Z) l)
    by by eapply chain_NoDup.
  apply subseteq_size. intros x Hx%elem_of_list_to_set. apply elem_of_dom.
  by eapply chain_dom.
Qed.

(** A record linked after the last one of a chain. *)
Lemma chain_snoc {A} (nx : A → Z) h h' a l z w v v' : chain nx h a (l ++ [z]) →
  (∀ x, x ∈ l → nx <$> h' !! x = nx <$> h !! x) →
  h' !! z = Some v → nx v = w → w ≠ 0 → h' !! w = Some v' → nx v' = 0 →
  chain nx h' a (l ++ [z; w]).
Proof.
  revert a. induction l as [|x t IH]; intros a Hc Hx Hz Hw Hw0 Hw' H0.
  - destruct Hc as (-> & Hz0 & _). simpl. naive_solver.
  - destruct Hc as (-> & Hx0 & u & Hu & Hc). pose proof (Hx x ltac:(left)) as E. rewrite Hu in E.
    simpl. destruct (h' !! x) as [u'|] eqn:Hu'; simplify_eq/=. split_and!; [done|done|].
    exists u'. split; [done|]. rewrite E. apply IH; try done. intros y Hy. apply Hx. by right.
Qed.

(** A record linked into a chain after [p], and taken out of it. *)
Lemma chain_insert {A} (nx : A → Z) h h' p x Q P : ∀ a, chain nx h a (P ++ p :: Q) →
  (∀ y, y ∈ P ++ Q → nx <$> h' !! y = nx <$> h !! y) → nx <$> h' !! p = Some x → x ≠ 0 →
  nx <$> h' !! x = nx <$> h !! p → chain nx h' a (P ++ p :: x :: Q).
Proof.
  induction P as [|y P IH]; intros a (-> & H0 & v & Hv & Hc) Hs Hp Hx Hn; simpl.
  - rewrite Hv in Hn. apply fmap_Some in Hp as (vp & Hvp & ->), Hn as (vx & Hvx & Hn).
    split; [done|]. split; [done|]. exists vp. split; [done|]. split; [done|]. split; [done|]. exists vx.
    split; [done|]. rewrite <-Hn. by eapply chain_ext; [|exact Hc].
  - split; [done|]. split; [done|]. pose proof (Hs y ltac:(left)) as E. rewrite Hv in E.
    apply fmap_Some in E as (v' & Hv' & E). exists v'. split; [done|]. rewrite <-E. apply IH; try done.
    intros z Hz. apply Hs. by right.
Qed.

Lemma chain_remove {A} (nx : A → Z) h h' p x Q P : ∀ a, chain nx h a (P ++ p :: x :: Q) →
  (∀ y, y ∈ P ++ Q → nx <$> h' !! y = nx <$> h !! y) → nx <$> h' !! p = nx <$> h !! x →
  chain nx h' a (P ++ p :: Q).
Proof.
  induction P as [|y P IH]; intros a (-> & H0 & v & Hv & Hc) Hs Hp; simpl.
  - destruct Hc as (E & Hx & w & Hw & Hc). rewrite Hw in Hp. apply fmap_Some in Hp as (vp & Hvp & Hp).
    split; [done|]. split; [done|]. exists vp. split; [done|]. rewrite <-Hp. by eapply chain_ext; [|exact Hc].
  - split; [done|]. split; [done|]. pose proof (Hs y ltac:(left)) as E. rewrite Hv in E.
    apply fmap_Some in E as (v' & Hv' & E). exists v'. split; [done|]. rewrite <-E. apply IH; try done.
    intros z Hz. apply Hs. by right.
Qed.

(** What follows a record in a chain. *)
Lemma chain_next {A} (nx : A → Z) h a P p Q : chain nx h a (P ++ p :: Q) → nx <$> h !! p = Some (default 0 (head Q)).
Proof.
  revert a. induction P as [|y P IH]; intros a (-> & H0 & v & Hv & Hc); simpl; [|by eapply IH].
  rewrite Hv. simpl. destruct Q as [|q Q]; simpl in *; [by rewrite Hc|]. by destruct Hc as (-> & _).
Qed.

Lemma chain_from {A} (nx : A → Z) h a P p Q : chain nx h a (P ++ p :: Q) → chain nx h p (p :: Q).
Proof. revert a. induction P as [|y P IH]; intros a (-> & H0 & v & Hv & Hc); simpl; [eauto|by eapply IH]. Qed.

(** ** Proof automation *)

(** Turns [/] and [mod] by constants into linear constraints, then [lia]. *)
Ltac zdiv := Z.div_mod_to_equations; lia.

(** Destructs every boolean comparison of integers in the goal. *)
Ltac case_cmp :=
  repeat match goal with
  | |- context [Z.ltb ?a ?b] => destruct (Z.ltb_spec a b)
  | |- context [Z.leb ?a ?b] => destruct (Z.leb_spec a b)
  | |- context [Z.eqb ?a ?b] => destruct (Z.eqb_spec a b)
  end.

(** Inverts a successful monadic computation, one bind at a time. *)
Ltac inv_ok :=
  repeat match goal with
  | H : (_ ≫= _) = Ok _ |- _ => apply bind_ok in H as (? & ? & ?)
  | H : get_or _ _ = Ok _ |- _ => apply get_or_ok in H
  | H : Ok _ = Ok _ |- _ => injection H as H; subst
  | H : Err _ = Ok _ |- _ => discriminate H
  end.

(** Membership in concatenations of lists, as propositional logic. *)
Ltac in_list :=
  repeat first [rewrite elem_of_cons in * | rewrite elem_of_app in *]; tauto.

Create HintDb cmodel.
#[export] Hint Resolve u32_range u64_range : cmodel.
