(* ===== verification/TimeWheel.v ===== *)
(** * The hierarchical timing wheel: 7.2timers/timers/timewheel.c, timewheel.h

    [near] holds the timers of the next 256 ticks, [t] four levels of 64 slots
    of width 2^8, 2^14, 2^20 and 2^26 ticks.  A slot is the list of the node
    pointers the intrusive [link_list_t] chains from [head.next] to [tail];
    [Module LinkList] refines that view to the head/tail/next pointers.  Nodes
    live in [heap]: [free] removes them, so an access to a freed node is an
    error value.  The callbacks of the program print or set a flag, so a call
    is recorded as an event. *)

From S2P Require Import Prelude.

(** ** Data *)

(* src: 7.2timers/timers/timewheel.h:6-6 TIME_NEAR_SHIFT *)
Definition TIME_NEAR_SHIFT : Z := 8.
(* src: 7.2timers/timers/timewheel.h:7-7 TIME_NEAR *)
Definition TIME_NEAR : Z := Z.shiftl 1 TIME_NEAR_SHIFT.
(* src: 7.2timers/timers/timewheel.h:8-8 TIME_LEVEL_SHIFT *)
Definition TIME_LEVEL_SHIFT : Z := 6.
(* src: 7.2timers/timers/timewheel.h:9-9 TIME_LEVEL *)
Definition TIME_LEVEL : Z := Z.shiftl 1 TIME_LEVEL_SHIFT.
(* src: 7.2timers/timers/timewheel.h:10-10 TIME_NEAR_MASK *)
Definition TIME_NEAR_MASK : Z := TIME_NEAR - 1.
(* src: 7.2timers/timers/timewheel.h:11-11 TIME_LEVEL_MASK *)
Definition TIME_LEVEL_MASK : Z := TIME_LEVEL - 1.

Abbreviation ptr := positive (only parsing).

(** [handler_pt]: which function the node calls; [id] is its argument. *)
(* src: 7.2timers/timers/timewheel.h:13-22 timer_node *)
Record timer_node : Type := TimerNode {
  expire : Z;      (* uint32_t *)
  callback : nat;  (* handler_pt *)
  cancel : Z;      (* uint8_t *)
  node_id : Z      (* int *)
}.

(* src: 7.2timers/timers/timewheel.c:21-28 s_timer_t *)
Record s_timer_t : Type := STimer {
  near : list (list ptr);
  t : list (list (list ptr));
  lock : Z;
  time : Z;            (* uint32_t *)
  current : Z;         (* uint64_t *)
  current_point : Z;   (* uint64_t *)
  heap : gmap ptr timer_node
}.

Definition set_near (T : s_timer_t) n := STimer n (t T) (lock T) (time T) (current T) (current_point T) (heap T).
Definition set_t (T : s_timer_t) l := STimer (near T) l (lock T) (time T) (current T) (current_point T) (heap T).
Definition set_lock (T : s_timer_t) l := STimer (near T) (t T) l (time T) (current T) (current_point T) (heap T).
Definition set_time (T : s_timer_t) c := STimer (near T) (t T) (lock T) c (current T) (current_point T) (heap T).
Definition set_point (T : s_timer_t) c := STimer (near T) (t T) (lock T) (time T) (current T) c (heap T).
Definition set_heap (T : s_timer_t) h := STimer (near T) (t T) (lock T) (time T) (current T) (current_point T) h.

(** ** spinlock.h: the holder is the one thread of the model, so a second
    acquisition by it never returns. *)

(* src: 7.2timers/timers/spinlock.h:12-14 spinlock_lock *)
Definition spinlock_lock (T : s_timer_t) : res s_timer_t :=
  if Z.eqb (lock T) 0 then Ok (set_lock T 1) else Err SelfDeadlock.

(* src: 7.2timers/timers/spinlock.h:20-22 spinlock_unlock *)
Definition spinlock_unlock (T : s_timer_t) : s_timer_t := set_lock T 0.

(** ** The slots of the wheel *)

Inductive slot : Type :=
  | Near (k : nat)
  | Lvl (i k : nat).

#[export] Instance slot_eq_dec : EqDecision slot.
Proof. solve_decision. Defined.

(** [&T->near[k]] and [&T->t[i][k]]. *)
Definition get_slot (T : s_timer_t) (s : slot) : list ptr :=
  match s with
  | Near k => default [] (near T !! k)
  | Lvl i k => default [] (t T !! i ≫= (.!! k))
  end.

Definition upd_slot (f : list ptr → list ptr) (T : s_timer_t) (s : slot) : s_timer_t :=
  match s with
  | Near k => set_near T (alter f k (near T))
  | Lvl i k => set_t T (alter (alter f k) i (t T))
  end.

(** [link(list, node)] appends at the tail. *)
(* src: 7.2timers/timers/timewheel.c:41-46 link *)
Definition link (T : s_timer_t) (s : slot) (node : ptr) : s_timer_t :=
  upd_slot (λ l, l ++ [node]) T s.

(** [link_clear(list)] returns the chain and leaves the list empty. *)
(* src: 7.2timers/timers/timewheel.c:32-39 link_clear *)
Definition link_clear (T : s_timer_t) (s : slot) : list ptr * s_timer_t :=
  (get_slot T s, upd_slot (λ _, []) T s).

(** The slot [add_node] picks for a node expiring at [time_] when the wheel
    stands at [current_time]; both are [uint32_t], so the difference wraps. *)
(* src: 7.2timers/timers/timewheel.c:48-64 add_node *)
Definition slot_of (current_time time_ : Z) : slot :=
  let msec := u32 (time_ - current_time) in
  if msec <? TIME_NEAR then Near (Z.to_nat (Z.land time_ TIME_NEAR_MASK))
  else if msec <? Z.shiftl 1 (TIME_NEAR_SHIFT + TIME_LEVEL_SHIFT) then
    Lvl 0 (Z.to_nat (Z.land (Z.shiftr time_ TIME_NEAR_SHIFT) TIME_LEVEL_MASK))
  else if msec <? Z.shiftl 1 (TIME_NEAR_SHIFT + 2 * TIME_LEVEL_SHIFT) then
    Lvl 1 (Z.to_nat (Z.land (Z.shiftr time_ (TIME_NEAR_SHIFT + TIME_LEVEL_SHIFT)) TIME_LEVEL_MASK))
  else if msec <? Z.shiftl 1 (TIME_NEAR_SHIFT + 3 * TIME_LEVEL_SHIFT) then
    Lvl 2 (Z.to_nat (Z.land (Z.shiftr time_ (TIME_NEAR_SHIFT + 2 * TIME_LEVEL_SHIFT)) TIME_LEVEL_MASK))
  else
    Lvl 3 (Z.to_nat (Z.land (Z.shiftr time_ (TIME_NEAR_SHIFT + 3 * TIME_LEVEL_SHIFT)) TIME_LEVEL_MASK)).

(* src: 7.2timers/timers/timewheel.c:48-64 add_node *)
Definition add_node (T : s_timer_t) (node : ptr) : res s_timer_t :=
  n ← get_or UseAfterFree (heap T !! node);
  Ok (link T (slot_of (time T) (expire n)) node).

(** A call of a node's handler, with the fields the handler can read. *)
Record event : Type := Fired { ev_node : ptr; ev_callback : nat; ev_id : Z; ev_expire : Z }.

(** [add_timer(time, func, threadid)]: [node] is the address [malloc] returns, if any,
    and [junk] the byte it leaves in [cancel], which the function never sets. *)
(* src: 7.2timers/timers/timewheel.c:67-83 add_timer *)
Definition add_timer (TI : s_timer_t) (node : option ptr) (junk : Z) (time_ : Z) (func : nat) (threadid : Z)
  : res (s_timer_t * option ptr * list event) :=
  TI ← spinlock_lock TI;
  node ← get_or NullDeref node;
  let n := TimerNode (u32 (time_ + time TI)) func junk threadid in
  let TI := set_heap TI (<[node := n]> (heap TI)) in
  if time_ <=? 0 then
    let ev := [Fired node func threadid (expire n)] in
    let TI := spinlock_unlock TI in
    Ok (set_heap TI (delete node (heap TI)), None, ev)
  else
    TI ← add_node TI node;
    Ok (spinlock_unlock TI, Some node, []).

(** The [while (current)] loop of [move_list], over the detached chain. *)
Fixpoint add_nodes (T : s_timer_t) (current : list ptr) : res s_timer_t :=
  match current with
  | [] => Ok T
  | p :: rest => T ← add_node T p; add_nodes T rest
  end.

(** [T->t[level][idx]] is out of bounds from level 4 on. *)
(* src: 7.2timers/timers/timewheel.c:85-93 move_list *)
Definition move_list (T : s_timer_t) (level idx : nat) : res s_timer_t :=
  if (level <? 4)%nat && (idx <? 64)%nat then
    let '(chain, T) := link_clear T (Lvl level idx) in add_nodes T chain
  else Err OutOfBounds.

(** The [while ((ct & (mask-1))==0)] loop: [i] counts the levels. *)
(* src: 7.2timers/timers/timewheel.c:103-115 timer_shift *)
Fixpoint shift_loop (fuel : nat) (T : s_timer_t) (ct mask time_ : Z) (i : nat) : res s_timer_t :=
  match fuel with
  | O => Err OutOfFuel
  | S fuel =>
      if Z.eqb (Z.land ct (mask - 1)) 0 then
        let idx := Z.land time_ TIME_LEVEL_MASK in
        if Z.eqb idx 0 then
          shift_loop fuel T ct (i32 (Z.shiftl mask TIME_LEVEL_SHIFT)) (Z.shiftr time_ TIME_LEVEL_SHIFT) (S i)
        else move_list T i (Z.to_nat idx)
      else Ok T
  end.

(* src: 7.2timers/timers/timewheel.c:95-117 timer_shift *)
Definition timer_shift (T : s_timer_t) : res s_timer_t :=
  let T := set_time T (u32 (time T + 1)) in
  let ct := time T in
  if Z.eqb ct 0 then move_list T 3 0
  else shift_loop 5 T ct TIME_NEAR (Z.shiftr ct TIME_NEAR_SHIFT) 0.

(* src: 7.2timers/timers/timewheel.c:119-128 dispatch_list *)
Fixpoint dispatch_list (h : gmap ptr timer_node) (current : list ptr)
  : res (gmap ptr timer_node * list event) :=
  match current with
  | [] => Ok (h, [])
  | temp :: rest =>
      n ← get_or UseAfterFree (h !! temp);
      let ev := if Z.eqb (cancel n) 0
                then [Fired temp (callback n) (node_id n) (expire n)] else [] in
      '(h, evs) ← dispatch_list (delete temp h) rest;
      Ok (h, ev ++ evs)
  end.

(** The lock is released around the callbacks and taken again. *)
(* src: 7.2timers/timers/timewheel.c:130-140 timer_execute *)
Fixpoint timer_execute (fuel : nat) (T : s_timer_t) : res (s_timer_t * list event) :=
  match fuel with
  | O => Err OutOfFuel
  | S fuel =>
      let idx := Near (Z.to_nat (Z.land (time T) TIME_NEAR_MASK)) in
      match get_slot T idx with
      | [] => Ok (T, [])
      | _ =>
          let '(chain, T) := link_clear T idx in
          let T := spinlock_unlock T in
          '(h, evs) ← dispatch_list (heap T) chain;
          T ← spinlock_lock (set_heap T h);
          '(T, evs') ← timer_execute fuel T;
          Ok (T, evs ++ evs')
      end
  end.

(** Nothing refills the slot during a run, so two iterations are enough. *)
(* src: 7.2timers/timers/timewheel.c:142-149 timer_update *)
Definition timer_update (T : s_timer_t) : res (s_timer_t * list event) :=
  T ← spinlock_lock T;
  '(T, ev1) ← timer_execute 2 T;
  T ← timer_shift T;
  '(T, ev2) ← timer_execute 2 T;
  Ok (spinlock_unlock T, ev1 ++ ev2).

(* src: 7.2timers/timers/timewheel.c:151-154 del_timer *)
Definition del_timer (T : s_timer_t) (node : ptr) : res s_timer_t :=
  n ← get_or UseAfterFree (heap T !! node);
  Ok (set_heap T (<[node := TimerNode (expire n) (callback n) 1 (node_id n)]> (heap T))).

(* src: 7.2timers/timers/timewheel.c:156-172 timer_create_timer *)
Definition timer_create_timer : s_timer_t :=
  STimer (replicate 256 []) (replicate 4 (replicate 64 [])) 0 0 0 0 ∅.

(** [n] calls of [timer_update], the events in order. *)
Fixpoint timer_updates (n : nat) (T : s_timer_t) : res (s_timer_t * list event) :=
  match n with
  | O => Ok (T, [])
  | S n =>
      '(T, ev) ← timer_update T;
      '(T, evs) ← timer_updates n T;
      Ok (T, ev ++ evs)
  end.

(** [gettime()] is the clock, in 10 ms units: its value is an argument. *)
(* src: 7.2timers/timers/timewheel.c:191-202 expire_timer *)
Definition expire_timer (TI : s_timer_t) (cp : Z) : res (s_timer_t * list event) :=
  if Z.eqb cp (current_point TI) then Ok (TI, [])
  else
    let diff := u32 (cp - current_point TI) in
    timer_updates (Z.to_nat diff) (set_point TI cp).

(* src: 7.2timers/timers/timewheel.c:204-208 init_timer *)
Definition init_timer (now : Z) : s_timer_t := set_point timer_create_timer now.

(** [free] of every node of a chain. *)
Fixpoint free_chain (h : gmap ptr timer_node) (chain : list ptr) : res (gmap ptr timer_node) :=
  match chain with
  | [] => Ok h
  | p :: rest => _ ← get_or UseAfterFree (h !! p); free_chain (delete p h) rest
  end.

Fixpoint free_slots (T : s_timer_t) (ss : list slot) : res s_timer_t :=
  match ss with
  | [] => Ok T
  | s :: rest =>
      h ← free_chain (heap T) (get_slot T s);
      let '(_, T) := link_clear (set_heap T h) s in free_slots T rest
  end.

Definition all_slots : list slot :=
  (Near <$> seq 0 256) ++ (i ← seq 0 4; Lvl i <$> seq 0 64).

(* src: 7.2timers/timers/timewheel.c:210-235 clear_timer *)
Definition clear_timer (TI : s_timer_t) : res s_timer_t := free_slots TI all_slots.

(** ** The slots as a map *)

Definition valid_slot (s : slot) : Prop :=
  match s with Near k => (k < 256)%nat | Lvl i k => (i < 4)%nat ∧ (k < 64)%nat end.

Record shape (T : s_timer_t) : Prop := Shape {
  shape_near : length (near T) = 256%nat;
  shape_t : length (t T) = 4%nat;
  shape_level : ∀ i l, t T !! i = Some l → length l = 64%nat
}.

Lemma get_upd_slot f T s s' : shape T → valid_slot s →
  get_slot (upd_slot f T s) s' = if decide (s' = s) then f (get_slot T s) else get_slot T s'.
Proof.
  intros [Hn Ht Hl] Hv. destruct (decide (s' = s)) as [->|Hne].
  - destruct s as [k|i k]; simpl in *.
    + destruct (lookup_lt_is_Some_2 (near T) k) as [x Hx]; [lia|].
      by rewrite list_lookup_alter_eq, Hx.
    + destruct (lookup_lt_is_Some_2 (t T) i) as [l Hli]; [lia|].
      destruct (lookup_lt_is_Some_2 l k) as [x Hx]; [erewrite Hl by done; lia|].
      rewrite list_lookup_alter_eq, Hli. simpl. by rewrite list_lookup_alter_eq, Hx.
  - destruct s as [k|i k], s' as [k'|i' k']; simpl in *; try done.
    + by rewrite list_lookup_alter_ne by congruence.
    + destruct (decide (i' = i)) as [->|Hi].
      * rewrite list_lookup_alter_eq. destruct (t T !! i); [|done]. simpl.
        by rewrite list_lookup_alter_ne by congruence.
      * by rewrite list_lookup_alter_ne by congruence.
Qed.

Lemma shape_upd f T s : shape T → shape (upd_slot f T s).
Proof.
  intros [Hn Ht Hl]. destruct s as [k|i k]; split; simpl; rewrite ?length_alter; try done.
  intros j l. destruct (decide (j = i)) as [->|Hne].
  - rewrite list_lookup_alter_eq. destruct (t T !! i) eqn:E; simpl; [|done].
    intros [= <-]. rewrite length_alter. eauto.
  - rewrite list_lookup_alter_ne by congruence. eauto.
Qed.

Lemma get_link T s p s' : shape T → valid_slot s →
  get_slot (link T s p) s' = get_slot T s' ++ (if decide (s' = s) then [p] else []).
Proof.
  intros. unfold link. rewrite get_upd_slot by done.
  case_decide; subst; [done|by rewrite app_nil_r].
Qed.

Lemma upd_slot_fields f T s :
  time (upd_slot f T s) = time T ∧ heap (upd_slot f T s) = heap T ∧ lock (upd_slot f T s) = lock T.
Proof. by destruct s. Qed.

Lemma link_fields T s p :
  time (link T s p) = time T ∧ heap (link T s p) = heap T ∧ lock (link T s p) = lock T.
Proof. apply upd_slot_fields. Qed.

Lemma get_set_heap T h s : get_slot (set_heap T h) s = get_slot T s.
Proof. by destruct s. Qed.
Lemma get_set_lock T l s : get_slot (set_lock T l) s = get_slot T s.
Proof. by destruct s. Qed.
Lemma get_set_time T c s : get_slot (set_time T c) s = get_slot T s.
Proof. by destruct s. Qed.
Create Rewrite HintDb wheel.
#[export] Hint Rewrite get_set_heap get_set_lock get_set_time : wheel.

Lemma shape_set_heap T h : shape T → shape (set_heap T h).
Proof. by intros []; split. Qed.
Lemma shape_set_lock T l : shape T → shape (set_lock T l).
Proof. by intros []; split. Qed.
Lemma shape_set_time T l : shape T → shape (set_time T l).
Proof. by intros []; split. Qed.
#[export] Hint Resolve shape_upd shape_set_heap shape_set_lock shape_set_time : cmodel.

(** ** The arithmetic of the slots *)

(** Ticks one slot of a level spans; level 4 stands for the whole clock. *)
Definition width (i : nat) : Z :=
  match i with O => 2 ^ 8 | 1%nat => 2 ^ 14 | 2%nat => 2 ^ 20 | 3%nat => 2 ^ 26 | _ => 2 ^ 32 end.

Lemma width_pos i : 0 < width i.
Proof. destruct i as [|[|[|[|]]]]; simpl; lia. Qed.

(** Ticks until [e], on the wrapping clock. *)
Definition dist (now e : Z) : Z := u32 (e - now).

(** The slot index a node of expiry [e] has at each level. *)
Definition idx_near (e : Z) : nat := Z.to_nat (e mod 2 ^ 8).
Definition idx_lvl (i : nat) (e : Z) : nat := Z.to_nat (e / width i mod 64).

Lemma slot_of_eq now e :
  slot_of now e =
    let d := dist now e in
    if d <? width 0 then Near (idx_near e)
    else if d <? width 1 then Lvl 0 (idx_lvl 0 e)
    else if d <? width 2 then Lvl 1 (idx_lvl 1 e)
    else if d <? width 3 then Lvl 2 (idx_lvl 2 e)
    else Lvl 3 (idx_lvl 3 e).
Proof.
  unfold slot_of, dist, idx_near, idx_lvl.
  change TIME_NEAR_MASK with (2 ^ 8 - 1). change TIME_LEVEL_MASK with (2 ^ 6 - 1).
  rewrite !land_mask, !shiftr_div by (vm_compute; congruence). reflexivity.
Qed.

Lemma valid_slot_of now e : valid_slot (slot_of now e).
Proof.
  rewrite slot_of_eq. cbv zeta. unfold idx_near, idx_lvl.
  case_cmp; cbn [valid_slot]; repeat split; try lia;
    match goal with |- context [?a mod ?b] => pose proof (Z.mod_pos_bound a b ltac:(lia)); lia end.
Qed.

Lemma dist_step now e : 0 ≤ now < 2 ^ 32 → 1 ≤ dist now e →
  dist (u32 (now + 1)) e = dist now e - 1.
Proof. unfold dist, u32. intros. zdiv. Qed.

Lemma dist_zero now e : 0 ≤ now < 2 ^ 32 → 0 ≤ e < 2 ^ 32 → dist now e = 0 ↔ e = now.
Proof. unfold dist, u32. intros. zdiv. Qed.

(** The slot, if any, that [timer_shift] redistributes when the clock reads [ct]. *)
Definition shift_target (ct : Z) : option (nat * nat) :=
  if Z.eqb ct 0 then Some (3%nat, 0%nat)
  else if Z.eqb (ct mod width 0) 0 then
    if Z.eqb (ct / width 0 mod 64) 0 then
      if Z.eqb (ct / width 1 mod 64) 0 then
        if Z.eqb (ct / width 2 mod 64) 0 then Some (3%nat, idx_lvl 3 ct)
        else Some (2%nat, idx_lvl 2 ct)
      else Some (1%nat, idx_lvl 1 ct)
    else Some (0%nat, idx_lvl 0 ct)
  else None.

Lemma shift_loop_step fuel T ct i : (i < 3)%nat →
  shift_loop (S fuel) T ct (width i) (ct / width i) i =
    if ct mod width i =? 0 then
      if ct / width i mod 64 =? 0
      then shift_loop fuel T ct (width (S i)) (ct / width (S i)) (S i)
      else move_list T i (idx_lvl i ct)
    else Ok T.
Proof.
  intros Hi. unfold shift_loop; fold shift_loop.
  change TIME_LEVEL_MASK with (2 ^ 6 - 1). change TIME_LEVEL_SHIFT with 6.
  rewrite (land_mask _ 6), (shiftr_div _ 6) by lia.
  replace (i32 (width i ≪ 6)) with (width (S i)) by (destruct i as [|[|[|]]]; try lia; done).
  replace (ct / width i / 2 ^ 6) with (ct / width (S i))
    by (rewrite Z.div_div by (destruct i as [|[|[|]]]; simpl; lia);
        destruct i as [|[|[|]]]; try lia; done).
  replace (Z.land ct (width i - 1)) with (ct mod width i); [done|].
  destruct i as [|[|[|]]]; try lia; symmetry; by apply (land_mask ct).
Qed.

Lemma timer_shift_eq T : 0 ≤ time T < 2 ^ 32 →
  let ct := u32 (time T + 1) in
  timer_shift T =
    match shift_target ct with
    | Some (i, k) => move_list (set_time T ct) i k
    | None => Ok (set_time T ct)
    end.
Proof.
  intros Ht ct. unfold timer_shift, shift_target. simpl time. fold ct.
  assert (Hct : 0 ≤ ct < 2 ^ 32) by apply u32_range.
  destruct (Z.eqb_spec ct 0) as [|Hnz]; [done|].
  change TIME_NEAR_SHIFT with 8. rewrite shiftr_div by lia.
  change TIME_NEAR with (width 0). change (2 ^ 8) with (width 0).
  rewrite shift_loop_step by lia.
  destruct (Z.eqb_spec (ct mod width 0) 0) as [E0|]; [|done].
  destruct (Z.eqb_spec (ct / width 0 mod 64) 0) as [E1|]; [|done].
  assert (F1 : ct mod width 1 = 0) by (simpl in *; zdiv).
  rewrite shift_loop_step, F1, Z.eqb_refl by lia.
  destruct (Z.eqb_spec (ct / width 1 mod 64) 0) as [E2|]; [|done].
  assert (F2 : ct mod width 2 = 0) by (simpl in *; zdiv).
  rewrite shift_loop_step, F2, Z.eqb_refl by lia.
  destruct (Z.eqb_spec (ct / width 2 mod 64) 0) as [E3|]; [|done].
  assert (F3 : Z.land ct (width 3 - 1) = 0).
  { change (width 3 - 1) with (2 ^ 26 - 1). rewrite land_mask by lia. simpl in *; zdiv. }
  assert (F4 : ct / width 3 mod 64 ≠ 0) by (simpl in *; zdiv).
  unfold shift_loop. rewrite F3, Z.eqb_refl.
  change TIME_LEVEL_MASK with (2 ^ 6 - 1). rewrite land_mask by lia.
  change (2 ^ 6) with 64. by rewrite (proj2 (Z.eqb_neq _ _) F4).
Qed.

(** Slot 0 of levels 0 to 2: [timer_shift] skips it ([if (idx != 0)]). *)
Definition lost (s : slot) : bool :=
  match s with Lvl i O => (i <? 3)%nat | _ => false end.

(** A node of expiry [e] in slot [s] is on time: it is ahead of the clock, in the
    slot of its expiry, and the tick that visits the slot is still to come. *)
Definition due (now e : Z) (s : slot) : Prop :=
  1 ≤ dist now e ∧
  match s with
  | Near k => k = idx_near e ∧ dist now e < width 0
  | Lvl i k => (i < 4)%nat ∧ k = idx_lvl i e ∧ e mod width i < dist now e < width (S i)
  end.

Ltac level_cases i := destruct i as [|[|[|[|i]]]]; try lia; simpl width in *; simpl lost in *.
Ltac wheel_arith := unfold dist, idx_near, idx_lvl, u32 in *; simpl width in *; zdiv.

Lemma slot_of_due now e : 0 ≤ now < 2 ^ 32 → 0 ≤ e < 2 ^ 32 → 1 ≤ dist now e →
  due now e (slot_of now e).
Proof.
  intros Hn He Hd. assert (dist now e < 2 ^ 32) by apply u32_range.
  rewrite slot_of_eq. cbv zeta.
  case_cmp; (split; [done|]); (split; [done||lia|]); try done;
    (split; [done|]); simpl width in *; zdiv.
Qed.

Lemma slot_of_now e : slot_of e e = Near (idx_near e).
Proof. rewrite slot_of_eq. unfold dist. by rewrite Z.sub_diag. Qed.

Lemma due_near_past now e : 0 ≤ now < 2 ^ 32 → 0 ≤ e < 2 ^ 32 →
  ¬ due now e (Near (idx_near now)).
Proof. intros Hn He (Hd & Hk & Hw). wheel_arith. Qed.

(** The slot visited at [ct] is the one of index [ct / width i] at a level whose
    boundary [ct] is. *)
Lemma shift_target_spec ct i : 0 ≤ ct < 2 ^ 32 → (i < 4)%nat → ct mod width i = 0 →
  (ct / width i mod 64 ≠ 0 ∨ i = 3%nat) → shift_target ct = Some (i, idx_lvl i ct).
Proof.
  intros Hc Hi Hm Hz. unfold shift_target.
  destruct (Z.eqb_spec ct 0) as [->|Hnz].
  { level_cases i; destruct Hz as [Hz|Hz]; try lia; try done; by destruct Hz. }
  level_cases i; destruct Hz as [Hz|Hz]; try lia;
    repeat match goal with
    | |- context [Z.eqb ?a ?b] => destruct (Z.eqb_spec a b); try done; try (exfalso; zdiv)
    end.
Qed.

Lemma shift_target_inv ct i k : 0 ≤ ct < 2 ^ 32 → shift_target ct = Some (i, k) →
  (i < 4)%nat ∧ k = idx_lvl i ct ∧ ct mod width i = 0 ∧ lost (Lvl i k) = false.
Proof.
  intros Hc. unfold shift_target.
  repeat match goal with
  | |- context [Z.eqb ?a ?b] => destruct (Z.eqb_spec a b)
  end; intros [= <- <-]; subst.
  1: by repeat split; try lia.
  all: simpl width in *; repeat split; try lia; try zdiv; unfold idx_lvl; simpl.
  all: try destruct (Z.to_nat _) eqn:E; try done; exfalso; zdiv.
Qed.

Lemma lost_idx i e : (i < 4)%nat → lost (Lvl i (idx_lvl i e)) = false →
  e / width i mod 64 ≠ 0 ∨ i = 3%nat.
Proof.
  intros Hi Hl. destruct (decide (i = 3%nat)); [by right|left]. intros E.
  unfold idx_lvl in Hl. rewrite E in Hl. change ((i <? 3)%nat = false) in Hl. apply Nat.ltb_ge in Hl. lia.
Qed.

(** One tick of the clock: a node stays on time, or it expires at the new time in
    the [near] slot about to run, or its slot is the one redistributed. *)
Lemma due_step now e s : 0 ≤ now < 2 ^ 32 → 0 ≤ e < 2 ^ 32 → due now e s → lost s = false →
  let ct := u32 (now + 1) in
  due ct e s ∨ (e = ct ∧ s = Near (idx_near ct)) ∨
  (∃ i k, s = Lvl i k ∧ shift_target ct = Some (i, k)).
Proof.
  intros Hn He [Hd Hs] Hl ct. pose proof (dist_step now e Hn Hd) as Hstep. fold ct in Hstep.
  assert (Hct : 0 ≤ ct < 2 ^ 32) by apply u32_range.
  destruct (decide (e = ct)) as [->|Hne].
  - destruct s as [k|i k].
    + right; left. by destruct Hs as [-> _].
    + right; right. exists i, k. split; [done|]. destruct Hs as (Hi & -> & Hm & _).
      assert (dist ct ct = 0) by (by apply dist_zero). assert (ct mod width i = 0).
      { assert (0 ≤ ct mod width i) by (apply Z.mod_pos_bound, width_pos). lia. }
      apply shift_target_spec; auto using lost_idx.
  - assert (1 ≤ dist ct e).
    { assert (dist ct e ≠ 0) by (rewrite dist_zero by done; congruence). lia. }
    destruct s as [k|i k].
    + left. destruct Hs as [-> Hw]. repeat split; try done. lia.
    + destruct Hs as (Hi & -> & Hm & Hw).
      destruct (decide (e mod width i = dist ct e)) as [E|E];
        [|left; repeat split; try done; lia].
      right; right. exists i, (idx_lvl i e). split; [done|].
      assert (ct mod width i = 0 ∧ idx_lvl i e = idx_lvl i ct) as [Hm0 Hix].
      { clear Hl. unfold idx_lvl, dist, u32 in *. level_cases i; zdiv. }
      rewrite Hix in *. apply shift_target_spec; auto using lost_idx.
Qed.

(** A node of the redistributed slot goes to a slot that is visited on time. *)
Lemma due_moved now e i k : 0 ≤ now < 2 ^ 32 → 0 ≤ e < 2 ^ 32 →
  let ct := u32 (now + 1) in
  due now e (Lvl i k) → shift_target ct = Some (i, k) →
  lost (slot_of ct e) = false ∧ (e = ct ∨ due ct e (slot_of ct e)) ∧ slot_of ct e ≠ Lvl i k.
Proof.
  intros Hn He ct [Hd (Hi & Hk & Hm & Hw)] Ht.
  assert (Hct : 0 ≤ ct < 2 ^ 32) by apply u32_range.
  pose proof (dist_step now e Hn Hd) as Hstep. fold ct in Hstep.
  destruct (shift_target_inv _ _ _ Hct Ht) as (_ & Hk' & Hm' & _).
  assert (Hlt : dist ct e < width i).
  { clear Ht. clearbody ct. rewrite Hk in Hk'. unfold idx_lvl, dist, u32 in *. level_cases i; zdiv. }
  split; [|split].
  - rewrite slot_of_eq. cbv zeta. unfold idx_lvl. clear Ht.
    case_cmp; try done; simpl lost; destruct (Z.to_nat _) eqn:E; try done; exfalso;
      unfold dist, u32 in *; level_cases i; zdiv.
  - destruct (decide (e = ct)) as [->|Hne]; [by left|right]. apply slot_of_due; try done.
    assert (dist ct e ≠ 0) by (rewrite dist_zero by done; congruence). lia.
  - rewrite slot_of_eq. cbv zeta. case_cmp; try done; intros [= <- ?]; simpl width in *; lia.
Qed.

(** ** What the loops do to the slots *)

(** Nodes, clock and lock are the same in both states. *)
Definition same_nodes (T T' : s_timer_t) : Prop :=
  time T' = time T ∧ heap T' = heap T ∧ lock T' = lock T.

Definition slot_at (T : s_timer_t) (p : ptr) : option slot :=
  (λ n, slot_of (time T) (expire n)) <$> heap T !! p.

Lemma add_nodes_spec chain : ∀ T, shape T → (∀ p, p ∈ chain → is_Some (heap T !! p)) →
  ∃ T', add_nodes T chain = Ok T' ∧ same_nodes T T' ∧ shape T' ∧
    ∀ s, get_slot T' s = get_slot T s ++ filter (λ p, slot_at T p = Some s) chain.
Proof.
  induction chain as [|p chain IH]; intros T HT Hh; simpl.
  { exists T. repeat split; try apply HT. intros s. by rewrite app_nil_r. }
  destruct (Hh p) as [n Hn]; [set_solver|].
  unfold add_node. rewrite Hn. simpl.
  set (T1 := link T _ p).
  assert (same_nodes T T1) as (Ht & Hheap & Hlock) by apply upd_slot_fields.
  destruct (IH T1) as (T' & -> & (Ht' & Hh' & Hl') & HS & Hget);
    [apply shape_upd, HT|rewrite Hheap; set_solver|].
  exists T'. split; [done|]. split; [repeat split; congruence|]. split; [done|].
  intros s. rewrite Hget. unfold T1 at 1. rewrite get_link by auto using valid_slot_of.
  assert (Hat : slot_at T p = Some (slot_of (time T) (expire n))) by (unfold slot_at; by rewrite Hn).
  rewrite filter_cons, <-app_assoc, Hat. f_equal.
  replace (slot_at T1) with (slot_at T) by (unfold slot_at; by rewrite Ht, Hheap).
  repeat case_decide; subst; simplify_eq; done.
Qed.

Lemma move_list_spec T i k : shape T → (i < 4)%nat → (k < 64)%nat →
  (∀ p, p ∈ get_slot T (Lvl i k) → is_Some (heap T !! p)) →
  ∃ T', move_list T i k = Ok T' ∧ same_nodes T T' ∧ shape T' ∧
    ∀ s, get_slot T' s = (if decide (s = Lvl i k) then [] else get_slot T s) ++
                         filter (λ p, slot_at T p = Some s) (get_slot T (Lvl i k)).
Proof.
  intros HT Hi Hk Hh. unfold move_list.
  rewrite (proj2 (Nat.ltb_lt i 4) Hi), (proj2 (Nat.ltb_lt k 64) Hk). simpl andb. cbv iota.
  unfold link_clear. set (T1 := upd_slot _ T _).
  assert (same_nodes T T1) as (Ht & Hheap & Hlock) by apply upd_slot_fields.
  destruct (add_nodes_spec (get_slot T (Lvl i k)) T1) as (T' & -> & (Ht' & Hh' & Hl') & HS & Hget);
    [apply shape_upd, HT|by rewrite Hheap|].
  exists T'. split; [done|]. split; [repeat split; congruence|]. split; [done|].
  intros s. rewrite Hget. unfold T1 at 1. rewrite get_upd_slot by done.
  unfold slot_at. by rewrite Ht, Hheap.
Qed.

(** The event of a node, unless it is cancelled. *)
Definition fire (h : gmap ptr timer_node) (p : ptr) : option event :=
  n ← h !! p;
  if Z.eqb (cancel n) 0 then Some (Fired p (callback n) (node_id n) (expire n)) else None.

Lemma fire_node h p n : h !! p = Some n →
  fire h p = if Z.eqb (cancel n) 0 then Some (Fired p (callback n) (node_id n) (expire n)) else None.
Proof. unfold fire. by intros ->. Qed.

Lemma dispatch_list_spec chain : ∀ h, NoDup chain → (∀ p, p ∈ chain → is_Some (h !! p)) →
  ∃ h', dispatch_list h chain = Ok (h', omap (fire h) chain) ∧
    ∀ q, h' !! q = if decide (q ∈ chain) then None else h !! q.
Proof.
  induction chain as [|p chain IH]; intros h Hnd Hh; cbn [dispatch_list].
  { exists h. split; [done|]. intros q. by rewrite decide_False by set_solver. }
  apply NoDup_cons in Hnd as [Hp Hnd]. destruct (Hh p) as [n Hn]; [set_solver|].
  destruct (IH (delete p h)) as (h' & Hd & Hh'); [done| |].
  { intros q Hq. rewrite lookup_delete_ne by set_solver. apply Hh. set_solver. }
  assert (Hom : omap (fire (delete p h)) chain = omap (fire h) chain).
  { apply list_omap_ext, Forall2_same_length_lookup. split; [done|]. intros i x y Hx Hy.
    simplify_eq. unfold fire. rewrite lookup_delete_ne; [done|]. intros ->.
    apply Hp. by eapply list_elem_of_lookup_2. }
  exists h'. rewrite Hn. cbn. rewrite Hd. cbn.
  rewrite (fire_node h p n), Hom by done. split.
  - by destruct (cancel n =? 0).
  - intros q. rewrite Hh'. destruct (decide (q = p)) as [->|Hne].
    + rewrite (decide_False _ _ Hp), lookup_delete_eq. by rewrite decide_True by set_solver.
    + rewrite lookup_delete_ne by done. apply decide_ext; set_solver.
Qed.

(** ** The invariant *)

(** Every chained node is allocated once, in one slot, and satisfies [Q] there. *)
Record wheel_inv (Q : slot → timer_node → Prop) (T : s_timer_t) : Prop := WheelInv {
  inv_shape : shape T;
  inv_time : 0 ≤ time T < 2 ^ 32;
  inv_node : ∀ s p, p ∈ get_slot T s →
    ∃ n, heap T !! p = Some n ∧ 0 ≤ expire n < 2 ^ 32 ∧ Q s n;
  inv_nodup : ∀ s, NoDup (get_slot T s);
  inv_disj : ∀ s s' p, p ∈ get_slot T s → p ∈ get_slot T s' → s = s'
}.

Definition on_time (now : Z) (s : slot) (n : timer_node) : Prop :=
  lost s = false → due now (expire n) s.

(** The state between two operations: the lock is free, the timers are on time. *)
Definition Inv (T : s_timer_t) : Prop := wheel_inv (on_time (time T)) T ∧ lock T = 0.

(** A timer waiting in a slot that the clock visits; one in a slot it skips. *)
Definition pending (T : s_timer_t) (p : ptr) (n : timer_node) : Prop :=
  ∃ s, lost s = false ∧ p ∈ get_slot T s ∧ heap T !! p = Some n.
Definition stranded (T : s_timer_t) (p : ptr) (n : timer_node) : Prop :=
  ∃ s, lost s = true ∧ p ∈ get_slot T s ∧ heap T !! p = Some n.

Lemma idx_near_mask e : Z.to_nat (Z.land e TIME_NEAR_MASK) = idx_near e.
Proof. unfold idx_near. f_equal. change TIME_NEAR_MASK with (2 ^ 8 - 1). by apply land_mask. Qed.

Lemma valid_near e : valid_slot (Near (idx_near e)).
Proof. simpl. unfold idx_near. pose proof (Z.mod_pos_bound e (2 ^ 8) ltac:(lia)). lia. Qed.

Lemma timer_execute_spec Q T : wheel_inv Q T → lock T = 1 →
  let k := Near (idx_near (time T)) in
  ∃ T', timer_execute 2 T = Ok (T', omap (fire (heap T)) (get_slot T k)) ∧
    time T' = time T ∧ lock T' = 1 ∧ shape T' ∧
    (∀ s, get_slot T' s = if decide (s = k) then [] else get_slot T s) ∧
    (∀ q, heap T' !! q = if decide (q ∈ get_slot T k) then None else heap T !! q).
Proof.
  intros [HS Ht Hn Hnd Hdj] Hlock k.
  cbn [timer_execute]. rewrite idx_near_mask. fold k.
  destruct (get_slot T k) as [|p0 rest] eqn:Ek.
  { exists T. split_and!; try done. intros s. case_decide; by subst. }
  cbv iota. unfold link_clear. rewrite Ek.
  set (T1 := spinlock_unlock (upd_slot (λ _, []) T k)).
  assert (HT1 : time T1 = time T ∧ heap T1 = heap T) by (unfold T1; by destruct k).
  destruct HT1 as [Ht1 Hh1].
  destruct (dispatch_list_spec (p0 :: rest) (heap T1)) as (h' & Hd & Hh').
  { rewrite <-Ek. apply Hnd. }
  { intros p Hp. rewrite <-Ek in Hp. destruct (Hn k p Hp) as (n & E & _). rewrite Hh1. eauto. }
  rewrite Hd. cbn [mbind res_bind].
  set (T2 := set_lock (set_heap T1 h') 1).
  change (spinlock_lock (set_heap T1 h')) with (Ok T2). cbn [mbind res_bind].
  assert (Hget : ∀ s, get_slot T2 s = if decide (s = k) then [] else get_slot T s).
  { intros s. unfold T2, T1, spinlock_unlock. autorewrite with wheel.
    rewrite get_upd_slot; [done|done|]. apply valid_near. }
  assert (Hk2 : Near (Z.to_nat (Z.land (time T2) TIME_NEAR_MASK)) = k).
  { rewrite idx_near_mask. change (time T2) with (time T1). by rewrite Ht1. }
  rewrite Hk2, Hget, decide_True by done. cbn [mbind res_bind].
  exists T2. rewrite app_nil_r, Hh1. split_and!; try done.
  unfold T2, T1, spinlock_unlock. eauto with cmodel.
Qed.

(** What the node of a slot satisfies between [timer_shift] and the second run. *)
Definition shifted (ct : Z) (s : slot) (n : timer_node) : Prop :=
  lost s = false → due ct (expire n) s ∨ (expire n = ct ∧ s = Near (idx_near ct)).

Lemma valid_target ct i k : 0 ≤ ct < 2 ^ 32 → shift_target ct = Some (i, k) → (i < 4)%nat ∧ (k < 64)%nat.
Proof.
  intros Hc Ht. destruct (shift_target_inv _ _ _ Hc Ht) as (? & -> & _). split; [done|].
  unfold idx_lvl. pose proof (Z.mod_pos_bound (ct / width i) 64 ltac:(lia)). lia.
Qed.

Lemma wheel_inv_impl (Q Q' : slot → timer_node → Prop) T :
  wheel_inv Q T → (∀ s n, 0 ≤ expire n < 2 ^ 32 → Q s n → Q' s n) → wheel_inv Q' T.
Proof.
  intros [HS Ht Hn Hnd Hdj] HQ. split; try done.
  intros s p Hp. destruct (Hn s p Hp) as (n & E & Hr & Hq). eauto 10.
Qed.

Lemma wheel_inv_time Q T c : wheel_inv Q T → 0 ≤ c < 2 ^ 32 → wheel_inv Q (set_time T c).
Proof.
  intros [HS Ht Hn Hnd Hdj] Hc. split; intros *; autorewrite with wheel; eauto with cmodel.
Qed.

Lemma wheel_inv_lock Q T l : wheel_inv Q T → wheel_inv Q (set_lock T l).
Proof.
  intros [HS Ht Hn Hnd Hdj]. split; intros *; autorewrite with wheel; eauto with cmodel.
Qed.

(** Redistributing a slot: the nodes it held satisfy [Q'] where [add_node] puts
    them, the others where they were. *)
Lemma wheel_inv_move (Q Q' : slot → timer_node → Prop) T i k :
  wheel_inv Q T → (i < 4)%nat → (k < 64)%nat →
  (∀ s n, 0 ≤ expire n < 2 ^ 32 → s ≠ Lvl i k → Q s n → Q' s n) →
  (∀ n, 0 ≤ expire n < 2 ^ 32 → Q (Lvl i k) n → Q' (slot_of (time T) (expire n)) n) →
  ∃ T', move_list T i k = Ok T' ∧ same_nodes T T' ∧ wheel_inv Q' T' ∧
    ∀ s p, p ∈ get_slot T' s ↔ (s ≠ Lvl i k ∧ p ∈ get_slot T s) ∨
                               (p ∈ get_slot T (Lvl i k) ∧ slot_at T p = Some s).
Proof.
  intros [HS Ht Hn Hnd Hdj] Hi Hk Hstay Hmove.
  destruct (move_list_spec T i k HS Hi Hk) as (T' & Hok & Hsame & HS' & Hget).
  { intros p Hp. destruct (Hn _ _ Hp) as (n & E & _). eauto. }
  assert (Hin : ∀ s p, p ∈ get_slot T' s ↔ (s ≠ Lvl i k ∧ p ∈ get_slot T s) ∨
                 (p ∈ get_slot T (Lvl i k) ∧ slot_at T p = Some s)).
  { intros s p. rewrite Hget, elem_of_app, list_elem_of_filter. case_decide; set_solver. }
  exists T'. split; [done|]. split; [done|]. split; [|done].
  destruct Hsame as (Ht' & Hh' & _).
  split; [done|by rewrite Ht'| | |].
  - intros s p [[Hs Hp]|[Hp Hat]]%Hin; rewrite Hh'; destruct (Hn _ _ Hp) as (n & E & Hr & Hq); eauto.
    exists n. split_and!; try done; try lia. unfold slot_at in Hat. rewrite E in Hat. simplify_eq/=. auto.
  - intros s. rewrite Hget. apply NoDup_app. split_and!.
    + case_decide; [constructor|apply Hnd].
    + intros p Hp Hf. apply list_elem_of_filter in Hf as [_ Hp'].
      case_decide; [set_solver|]. by pose proof (Hdj _ _ _ Hp Hp').
    + apply NoDup_filter, Hnd.
  - intros s s' p [[Hs Hp]|[Hp Hat]]%Hin [[Hs' Hp']|[Hp' Hat']]%Hin; eauto.
    + by pose proof (Hdj _ _ _ Hp Hp').
    + by pose proof (Hdj _ _ _ Hp Hp').
    + congruence.
Qed.

(** [timer_shift] keeps every timer, none becomes lost, and those that expire at
    the new time are in the [near] slot of that time. *)
Lemma timer_shift_spec T : wheel_inv (on_time (time T)) T →
  let ct := u32 (time T + 1) in
  ∃ T', timer_shift T = Ok T' ∧ time T' = ct ∧ heap T' = heap T ∧ lock T' = lock T ∧
    wheel_inv (shifted ct) T' ∧
    (∀ p, (∃ s, lost s = false ∧ p ∈ get_slot T' s) ↔ (∃ s, lost s = false ∧ p ∈ get_slot T s)) ∧
    (∀ p s, lost s = true → p ∈ get_slot T' s ↔ p ∈ get_slot T s).
Proof.
  intros Hinv ct. pose proof (inv_time _ _ Hinv) as Ht.
  assert (Hct : 0 ≤ ct < 2 ^ 32) by apply u32_range.
  rewrite timer_shift_eq by done. fold ct.
  destruct (shift_target ct) as [[i k]|] eqn:Etgt; last first.
  { exists (set_time T ct). split; [done|]. split_and!; try done.
    apply wheel_inv_time; [|done]. eapply wheel_inv_impl; [done|].
    intros s n Hr Hq Hl.
    destruct (due_step (time T) (expire n) s) as [?|[?|(i&k&_&E)]]; auto.
    fold ct in E. congruence. }
  destruct (valid_target ct i k Hct Etgt) as [Hi Hk].
  destruct (shift_target_inv ct i k Hct Etgt) as (_ & _ & _ & Hlost).
  destruct (wheel_inv_move (on_time (time T)) (shifted ct) (set_time T ct) i k)
    as (T' & Hok & (Ht' & Hh' & Hl') & Hinv' & Hin); try done.
  { by apply wheel_inv_time. }
  { intros s n Hr Hs Hq Hl. destruct (due_step (time T) (expire n) s) as [?|[?|(i'&k'&->&E)]]; auto.
    fold ct in E. congruence. }
  { intros n Hr Hq _. simpl.
    destruct (due_moved (time T) (expire n) i k) as (_ & [->|?] & _); auto.
    right. split; [done|]. apply slot_of_now. }
  exists T'. split; [done|]. split_and!; try done; clear Hinv'.
  - intros p. setoid_rewrite Hin. setoid_rewrite get_set_time. split.
    + intros (s & Hl & [[Hs Hp]|[Hp Hat]]); eauto.
    + intros (s & Hl & Hp). destruct (decide (s = Lvl i k)) as [->|Hne]; [|eauto].
      destruct (inv_node _ _ Hinv _ _ Hp) as (n & E & Hr & Hq).
      exists (slot_of ct (expire n)).
      destruct (due_moved (time T) (expire n) i k) as (Hl'' & _); auto.
      split; [done|]. right. split; [done|]. unfold slot_at. simpl. by rewrite E.
  - intros p s Hl. rewrite Hin, get_set_time. split.
    + intros [[_ Hp]|[Hp Hat]]; [done|]. autorewrite with wheel in Hp.
      destruct (inv_node _ _ Hinv _ _ Hp) as (n & E & Hr & Hq).
      unfold slot_at in Hat. simpl in Hat. rewrite E in Hat. simplify_eq/=.
      destruct (due_moved (time T) (expire n) i k) as (Hl'' & _); auto; congruence.
    + intros Hp. left. split; [|done]. congruence.
Qed.

(** ** Exact expiry *)

Lemma elem_of_fire h (l : list ptr) (ev : event) : ev ∈ omap (fire h) l ↔
  ∃ n, ev_node ev ∈ l ∧ h !! ev_node ev = Some n ∧ cancel n = 0 ∧
       ev = Fired (ev_node ev) (callback n) (node_id n) (expire n).
Proof.
  rewrite list_elem_of_omap. split.
  - intros (p & Hp & Hf). unfold fire in Hf. destruct (h !! p) as [n|] eqn:E; [|done].
    simpl in Hf. destruct (Z.eqb_spec (cancel n) 0); [|done]. simplify_eq. simpl. eauto.
  - intros (n & Hp & Hh & Hc & ->). exists (ev_node ev). split; [done|].
    rewrite (fire_node _ _ n) by done. by rewrite Hc.
Qed.

Lemma NoDup_fire h (l : list ptr) : NoDup l → NoDup (ev_node <$> omap (fire h) l).
Proof.
  induction 1 as [|p l Hp Hnd IH]; [constructor|]. simpl.
  destruct (fire h p) as [ev|] eqn:E; [|done]. simpl. apply NoDup_cons. split; [|done].
  assert (ev_node ev = p) as ->.
  { unfold fire in E. destruct (h !! p); [|done]. simpl in E. by case_match; simplify_eq. }
  intros Hin. apply list_elem_of_fmap in Hin as (ev' & -> & Hin). apply elem_of_fire in Hin as (n & ? & _). done.
Qed.

(** The first [timer_execute] of an update finds its slot empty. *)
Lemma timer_execute_idle T : wheel_inv (on_time (time T)) T → timer_execute 2 T = Ok (T, []).
Proof.
  intros [HS Ht Hn _ _]. cbn [timer_execute]. rewrite idx_near_mask.
  destruct (get_slot T _) as [|p l] eqn:E; [done|].
  destruct (Hn (Near (idx_near (time T))) p) as (n & _ & Hr & Hq); [rewrite E; set_solver|].
  exfalso. eapply (due_near_past (time T) (expire n)); [done|done|]. by apply Hq.
Qed.

(** The events of a node list in a given heap, as the spec states them. *)
Definition fired_at (T : s_timer_t) (ct : Z) (ev : event) : Prop :=
  ∃ n, pending T (ev_node ev) n ∧ expire n = ct ∧ cancel n = 0 ∧
       ev = Fired (ev_node ev) (callback n) (node_id n) (expire n).

Section shifted_state.
Context (T1 : s_timer_t) (ct : Z) (Hct : 0 ≤ ct < 2 ^ 32).
Context (Hinv1 : wheel_inv (shifted ct) T1).
Let k := Near (idx_near ct).

Lemma shifted_now p n : p ∈ get_slot T1 k → heap T1 !! p = Some n → expire n = ct.
Proof.
  intros Hp Hh. destruct (inv_node _ _ Hinv1 _ _ Hp) as (n' & Hh' & Hr & Hq). simplify_eq.
  destruct (Hq eq_refl) as [Hd|[? _]]; [|done]. exfalso. by apply (due_near_past ct (expire n)) in Hd.
Qed.

Lemma shifted_later s p n : s ≠ k → p ∈ get_slot T1 s → heap T1 !! p = Some n →
  lost s = false → due ct (expire n) s ∧ expire n ≠ ct.
Proof.
  intros Hs Hp Hh Hl. destruct (inv_node _ _ Hinv1 _ _ Hp) as (n' & Hh' & Hr & Hq).
  simplify_eq. destruct (Hq Hl) as [Hd|[_ ?]]; [|done]. split; [done|].
  intros E. destruct Hd as [Hd _]. rewrite E in Hd. unfold dist in Hd. by rewrite Z.sub_diag in Hd.
Qed.

Lemma shifted_disj s p : s ≠ k → p ∈ get_slot T1 s → p ∉ get_slot T1 k.
Proof. intros Hs Hp Hp'. by apply Hs, (inv_disj _ _ Hinv1 _ _ p). Qed.

(** The state after the run of the slot [k]. *)
Context (T2 : s_timer_t) (Ht2 : time T2 = ct) (HS2 : shape T2).
Context (Hget : ∀ s, get_slot T2 s = if decide (s = k) then [] else get_slot T1 s).
Context (Hheap : ∀ q, heap T2 !! q = if decide (q ∈ get_slot T1 k) then None else heap T1 !! q).

Lemma executed_in s p n : (p ∈ get_slot T2 s ∧ heap T2 !! p = Some n) ↔
  s ≠ k ∧ p ∈ get_slot T1 s ∧ heap T1 !! p = Some n.
Proof.
  rewrite Hget, Hheap. case_decide as Hs; [set_solver|]. split.
  - intros [Hp Hh]. rewrite decide_False in Hh; eauto using shifted_disj.
  - intros (_ & Hp & Hh). rewrite decide_False; eauto using shifted_disj.
Qed.

Lemma executed_inv : wheel_inv (on_time ct) T2.
Proof.
  split; [done|by rewrite Ht2| | |].
  - intros s p Hp. assert (Hp1 := Hp). rewrite Hget in Hp1. case_decide as Hs; [set_solver|].
    destruct (inv_node _ _ Hinv1 _ _ Hp1) as (n & Hh & Hr & _).
    exists n. split_and!; try done; try lia.
    + by apply (executed_in s).
    + intros Hl. by eapply shifted_later.
  - intros s. rewrite Hget. case_decide; [constructor|apply (inv_nodup _ _ Hinv1)].
  - intros s s' p. rewrite !Hget. repeat case_decide; try set_solver. apply (inv_disj _ _ Hinv1).
Qed.

Lemma executed_pending p n : pending T2 p n ↔ pending T1 p n ∧ expire n ≠ ct.
Proof.
  unfold pending. setoid_rewrite executed_in. split.
  - intros (s & Hl & Hs & Hp & Hh). split; [by exists s|]. by eapply shifted_later.
  - intros [(s & Hl & Hp & Hh) He]. exists s. split_and!; try done.
    intros ->. eauto using shifted_now.
Qed.

Lemma executed_stranded p n : stranded T2 p n ↔ stranded T1 p n.
Proof.
  unfold stranded. setoid_rewrite executed_in. split.
  - intros (s & Hl & Hs & Hp & Hh). by exists s.
  - intros (s & Hl & Hp & Hh). exists s. split_and!; try done. by intros ->.
Qed.

Lemma executed_events ev : ev ∈ omap (fire (heap T1)) (get_slot T1 k) ↔ fired_at T1 ct ev.
Proof.
  rewrite elem_of_fire. split.
  - intros (n & Hp & Hh & Hc & Hev). exists n. split; [by exists k|]. eauto using shifted_now.
  - intros (n & (s & Hl & Hp & Hh) & He & Hc & Hev). exists n. split; [|done].
    destruct (decide (s = k)) as [<-|Hs]; [done|]. exfalso. by eapply shifted_later.
Qed.
End shifted_state.

(** The events of one update, and what is left of each timer. *)
Lemma timer_update_spec T : Inv T →
  let ct := u32 (time T + 1) in
  ∃ T' evs, timer_update T = Ok (T', evs) ∧ Inv T' ∧ time T' = ct ∧
    (∀ p n, pending T' p n ↔ pending T p n ∧ expire n ≠ ct) ∧
    (∀ p n, stranded T' p n ↔ stranded T p n) ∧
    (∀ ev, ev ∈ evs ↔ fired_at T ct ev) ∧
    NoDup (ev_node <$> evs).
Proof.
  intros [Hinv Hlock] ct. unfold timer_update, spinlock_lock. rewrite Hlock. cbn [Z.eqb mbind res_bind].
  set (T0 := set_lock T 1).
  assert (Hinv0 : wheel_inv (on_time (time T0)) T0) by by apply wheel_inv_lock.
  rewrite timer_execute_idle by done. cbn [mbind res_bind].
  destruct (timer_shift_spec T0 Hinv0) as (T1 & -> & Ht1 & Hh1 & Hl1 & Hinv1 & Hlive & Hdead).
  change (u32 (time T0 + 1)) with ct in *. cbn [mbind res_bind].
  destruct (timer_execute_spec _ T1 Hinv1) as (T2 & -> & Ht2 & Hl2 & HS2 & Hget & Hheap); [done|].
  cbn [mbind res_bind]. rewrite Ht1 in *.
  assert (Hct : 0 ≤ ct < 2 ^ 32) by apply u32_range.
  assert (Hpend : ∀ p n, pending T1 p n ↔ pending T p n).
  { intros p n. unfold pending. rewrite Hh1. split.
    - intros (s & Hl & Hp & Hh). destruct (Hlive p) as [(s' & Hl' & Hp') _]; [by exists s|]. by exists s'.
    - intros (s & Hl & Hp & Hh). destruct (Hlive p) as [_ (s' & Hl' & Hp')]; [by exists s|]. by exists s'. }
  assert (Hstr : ∀ p n, stranded T1 p n ↔ stranded T p n).
  { intros p n. unfold stranded. rewrite Hh1.
    by split; intros (s & Hl & Hp & Hh); exists s; rewrite (Hdead p s Hl) in *. }
  exists (spinlock_unlock T2). eexists. split; [done|]. split_and!.
  - split; [|done]. apply wheel_inv_lock. simpl. rewrite Ht2. by apply (executed_inv T1).
  - done.
  - intros p n. rewrite <-Hpend. exact (executed_pending T1 ct Hct Hinv1 T2 Ht2 HS2 Hget Hheap p n).
  - intros p n. rewrite <-Hstr. exact (executed_stranded T1 ct Hct Hinv1 T2 Ht2 HS2 Hget Hheap p n).
  - intros ev. simpl. rewrite (executed_events T1 ct) by done.
    unfold fired_at. by setoid_rewrite Hpend.
  - apply NoDup_fire, (inv_nodup _ _ Hinv1 (Near (idx_near ct))).
Qed.

(** ** Adding a timer *)

(** Chaining a fresh node where it satisfies [Q]. *)
Lemma link_fresh Q T p n s : wheel_inv Q T → heap T !! p = None → valid_slot s →
  0 ≤ expire n < 2 ^ 32 → Q s n →
  let T' := link (set_heap T (<[p := n]> (heap T))) s p in
  wheel_inv Q T' ∧ (∀ s' q, q ∈ get_slot T' s' ↔ q ∈ get_slot T s' ∨ (q = p ∧ s' = s)).
Proof.
  intros [HS Ht Hn Hnd Hdj] Hp Hv Hr HQ T'. set (T1 := set_heap T _) in T'.
  assert (HT1 : shape T1) by by apply shape_set_heap.
  destruct (link_fields T1 s p) as (Ht2 & Hh2 & _). fold T' in Ht2, Hh2.
  assert (Hfresh : ∀ s', p ∉ get_slot T s').
  { intros s' Hin. destruct (Hn _ _ Hin) as (n' & E & _). congruence. }
  assert (Hget : ∀ s', get_slot T' s' = get_slot T s' ++ if decide (s' = s) then [p] else []).
  { intros s'. unfold T'. rewrite get_link by done. unfold T1. by autorewrite with wheel. }
  assert (Hin : ∀ s' q, q ∈ get_slot T' s' ↔ q ∈ get_slot T s' ∨ (q = p ∧ s' = s)).
  { intros s' q. rewrite Hget, elem_of_app. case_decide; set_solver. }
  split; [|done]. split.
  - by apply shape_upd.
  - by rewrite Ht2.
  - intros s' q Hq. rewrite Hh2. simpl. apply Hin in Hq as [Hq|[-> ->]].
    + destruct (Hn _ _ Hq) as (n' & E & ? & ?). exists n'.
      rewrite lookup_insert_ne by congruence. split_and!; try done; lia.
    + exists n. rewrite lookup_insert_eq. split_and!; try done; lia.
  - intros s'. rewrite Hget. apply NoDup_app. split_and!; [done| |].
    + intros q Hq. case_decide; [|set_solver]. intros ->%list_elem_of_singleton. by eapply Hfresh.
    + case_decide; [apply NoDup_singleton|constructor].
  - intros s1 s2 q [Hq|[-> ->]]%Hin [Hq'|[? ->]]%Hin; subst; eauto; exfalso; by eapply Hfresh.
Qed.

Lemma add_timer_spec T p junk tm func id :
  Inv T → heap T !! p = None → 1 ≤ tm < 2 ^ 31 →
  let n := TimerNode (u32 (tm + time T)) func junk id in
  let s := slot_of (time T) (expire n) in
  ∃ T', add_timer T (Some p) junk tm func id = Ok (T', Some p, []) ∧ Inv T' ∧ time T' = time T ∧
    heap T' = <[p := n]> (heap T) ∧
    ∀ s' q, q ∈ get_slot T' s' ↔ q ∈ get_slot T s' ∨ (q = p ∧ s' = s).
Proof.
  intros [Hinv Hlock] Hp Htm n s. unfold add_timer, spinlock_lock.
  rewrite Hlock. cbn [Z.eqb mbind res_bind get_or]. fold n.
  rewrite (proj2 (Z.leb_gt tm 0)) by lia.
  unfold add_node. simpl heap. rewrite lookup_insert_eq. cbn [mbind res_bind get_or].
  set (T1 := set_heap (set_lock T 1) (<[p := n]> (heap T))). simpl time. fold s.
  assert (Hr : 0 ≤ expire n < 2 ^ 32) by apply u32_range.
  pose proof (inv_time _ _ Hinv) as Ht.
  destruct (link_fresh (on_time (time T)) (set_lock T 1) p n s) as [Hinv' Hin]; try done.
  { by apply wheel_inv_lock. }
  { apply valid_slot_of. }
  { intros _. apply slot_of_due; try done. unfold dist, n, u32. simpl. unfold u32. zdiv. }
  fold T1 in Hinv', Hin.
  destruct (link_fields T1 s p) as (Ht2 & Hh2 & _).
  exists (spinlock_unlock (link T1 s p)). split_and!; try done.
  split; [|done]. apply wheel_inv_lock. simpl. by rewrite Ht2.
Qed.

Lemma timer_create_inv now : 0 ≤ now < 2 ^ 32 → Inv (set_time (init_timer 0) now).
Proof.
  intros Hnow. split; [|done].
  assert (Hempty : ∀ s, get_slot (set_time (init_timer 0) now) s = []).
  { intros [k|i k]; cbn [get_slot set_time set_point init_timer timer_create_timer near t].
    - apply default_replicate_nil.
    - destruct (replicate 4 (replicate 64 (@nil ptr)) !! i) as [l|] eqn:E; [|done]. apply lookup_replicate in E as [-> _].
      apply (default_replicate_nil 64). }
  split; try (intros *; rewrite !Hempty); try set_solver; try done.
  - split; simpl; try done. intros i l E. apply (lookup_replicate 4) in E as [-> _]. done.
  - constructor.
Qed.

(** ** Many ticks *)

Lemma pending_dist T p n : Inv T → pending T p n → 1 ≤ dist (time T) (expire n) ∧ 0 ≤ expire n < 2 ^ 32.
Proof.
  intros [Hinv _] (s & Hl & Hp & Hh).
  destruct (inv_node _ _ Hinv _ _ Hp) as (n' & Hh' & Hr & Hq). simplify_eq. by destruct (Hq Hl).
Qed.

Lemma pending_unique T p n n' : pending T p n → pending T p n' → n = n'.
Proof. intros (?&_&_&?) (?&_&_&?). congruence. Qed.

(** The events due within [k] ticks. *)
Definition fired_within (T : s_timer_t) (k : Z) (ev : event) : Prop :=
  ∃ n, pending T (ev_node ev) n ∧ dist (time T) (expire n) ≤ k ∧ cancel n = 0 ∧
       ev = Fired (ev_node ev) (callback n) (node_id n) (expire n).

Lemma expire_next T p n : Inv T → pending T p n →
  expire n = u32 (time T + 1) ↔ dist (time T) (expire n) = 1.
Proof.
  intros HT Hp. destruct (pending_dist T p n HT Hp) as [Hd Hr].
  pose proof (inv_time _ _ (proj1 HT)) as Ht. pose proof (dist_step _ _ Ht Hd) as Hs.
  rewrite <-(dist_zero (u32 (time T + 1)) (expire n)); [lia|apply u32_range|done].
Qed.

Lemma timer_updates_spec k : ∀ T, Inv T →
  ∃ T' evs, timer_updates k T = Ok (T', evs) ∧ Inv T' ∧ time T' = u32 (time T + Z.of_nat k) ∧
    (∀ p n, pending T' p n ↔ pending T p n ∧ Z.of_nat k < dist (time T) (expire n)) ∧
    (∀ p n, stranded T' p n ↔ stranded T p n) ∧
    (∀ ev, ev ∈ evs ↔ fired_within T (Z.of_nat k) ev) ∧
    NoDup (ev_node <$> evs).
Proof.
  induction k as [|k IH]; intros T HT.
  { exists T, []. split; [done|]. split; [done|]. split_and!; try done.
    - rewrite Z.add_0_r, u32_small; [done|]. apply (inv_time _ _ (proj1 HT)).
    - intros p n. split; [|by intros []]. intros Hp. split; [done|].
      destruct (pending_dist _ _ _ HT Hp). lia.
    - intros ev. split; [set_solver|]. intros (n & Hp & Hd & _).
      destruct (pending_dist _ _ _ HT Hp). lia.
    - constructor. }
  cbn [timer_updates].
  destruct (timer_update_spec T HT) as (T1 & ev1 & -> & HT1 & Ht1 & Hp1 & Hs1 & He1 & Hnd1).
  cbn [mbind res_bind].
  destruct (IH T1 HT1) as (T2 & ev2 & -> & HT2 & Ht2 & Hp2 & Hs2 & He2 & Hnd2).
  cbn [mbind res_bind].
  assert (Hstep : ∀ p n, pending T1 p n → dist (time T1) (expire n) = dist (time T) (expire n) - 1).
  { intros p n Hp. apply Hp1 in Hp as [Hp _]. rewrite Ht1. apply dist_step.
    - apply (inv_time _ _ (proj1 HT)).
    - by destruct (pending_dist _ _ _ HT Hp). }
  exists T2, (ev1 ++ ev2). split; [done|]. split; [done|]. split_and!.
  - rewrite Ht2, Ht1. unfold u32. rewrite Z.add_mod_idemp_l by lia. f_equal. lia.
  - intros p n. rewrite Hp2. split.
    + intros [Hp Hd]. rewrite (Hstep _ _ Hp) in Hd. apply Hp1 in Hp as [Hp _]. split; [done|lia].
    + intros [Hp Hd]. assert (pending T1 p n) as Hp'.
      { apply Hp1. split; [done|]. rewrite (expire_next T p n) by done. lia. }
      split; [done|]. rewrite (Hstep _ _ Hp'). lia.
  - intros p n. by rewrite Hs2.
  - intros ev. rewrite elem_of_app, He1, He2. split.
    + intros [(n & Hp & He & Hc & E)|(n & Hp & Hd & Hc & E)]; exists n.
      * rewrite (expire_next T _ n) in He by done. split_and!; [done|lia|done|done].
      * rewrite (Hstep _ _ Hp) in Hd. apply Hp1 in Hp as [Hp _]. split_and!; [done|lia|done|done].
    + intros (n & Hp & Hd & Hc & E). destruct (decide (expire n = u32 (time T + 1))) as [He|He].
      * left. by exists n.
      * right. exists n. assert (pending T1 (ev_node ev) n) as Hp' by by apply Hp1.
        rewrite (Hstep _ _ Hp'). split_and!; [done|lia|done|done].
  - rewrite fmap_app. apply NoDup_app. split_and!; [done| |done].
    intros p Hp1' Hp2'. apply list_elem_of_fmap in Hp1' as (e1 & -> & H1).
    apply list_elem_of_fmap in Hp2' as (e2 & E & H2).
    apply He1 in H1 as (n1 & P1 & X1 & _). apply He2 in H2 as (n2 & P2 & _).
    apply Hp1 in P2 as [P2 X2]. rewrite <-E in P2. by rewrite (pending_unique _ _ _ _ P2 P1) in X2.
Qed.

Lemma add_timer_pending T p junk tm func id :
  Inv T → heap T !! p = None → 1 ≤ tm < 2 ^ 31 →
  let n := TimerNode (u32 (tm + time T)) func junk id in
  let s := slot_of (time T) (expire n) in
  ∃ T', add_timer T (Some p) junk tm func id = Ok (T', Some p, []) ∧ Inv T' ∧
    dist (time T') (expire n) = tm ∧
    (lost s = false → pending T' p n) ∧ (lost s = true → stranded T' p n).
Proof.
  intros HT Hp Htm n s.
  destruct (add_timer_spec T p junk tm func id HT Hp Htm) as (T' & Hok & HT' & Ht' & Hh' & Hin).
  pose proof (inv_time _ _ (proj1 HT)) as Ht.
  assert (heap T' !! p = Some n) by (rewrite Hh'; apply lookup_insert_eq).
  assert (p ∈ get_slot T' s) by (apply Hin; by right).
  exists T'. split_and!; try done.
  - rewrite Ht'. unfold dist, n, u32. simpl. unfold u32. zdiv.
  - intros Hl. by exists s.
  - intros Hl. by exists s.
Qed.

Lemma filter_fired (evs : list event) ev : NoDup (ev_node <$> evs) → ev ∈ evs →
  filter (λ e, ev_node e = ev_node ev) evs = [ev].
Proof.
  intros Hnd Hin. induction evs as [|e evs IH]; [set_solver|].
  apply NoDup_cons in Hnd as [Hne Hnd]. rewrite filter_cons. case_decide as He.
  - assert (e = ev) as ->.
    { apply elem_of_cons in Hin as [->|Hin]; [done|]. exfalso. apply Hne. rewrite He.
      by apply list_elem_of_fmap_2. }
    f_equal. apply filter_none. intros e' He' E. apply Hne.
    rewrite <-E. by apply list_elem_of_fmap_2.
  - apply IH; [done|]. set_solver.
Qed.

Lemma filter_unfired (evs : list event) p : p ∉ (ev_node <$> evs) →
  filter (λ e, ev_node e = p) evs = [].
Proof.
  intros Hp. apply filter_none. intros e He E. apply Hp.
  rewrite <-E. by apply list_elem_of_fmap_2.
Qed.

(** ** clear_timer *)

Lemma elem_of_all_slots s : s ∈ all_slots ↔ valid_slot s.
Proof.
  unfold all_slots. rewrite elem_of_app, list_elem_of_bind.
  setoid_rewrite list_elem_of_fmap. setoid_rewrite elem_of_seq.
  destruct s as [k|i k]; simpl; split; intros H.
  - destruct H as [(k' & [= ->] & ?)|(i & (k' & ? & _) & _)]; [lia|done].
  - left. exists k. split; [done|lia].
  - destruct H as [(k' & ? & _)|(i' & (k' & [= -> ->] & ?) & ?)]; [done|lia].
  - right. exists i. split; [|lia]. exists k. split; [done|lia].
Qed.

Lemma NoDup_all_slots : NoDup all_slots.
Proof. apply (bool_decide_unpack _). by vm_compute. Qed.

Lemma free_chain_spec chain : ∀ h, NoDup chain → (∀ p, p ∈ chain → is_Some (h !! p)) →
  ∃ h', free_chain h chain = Ok h' ∧ ∀ q, h' !! q = if decide (q ∈ chain) then None else h !! q.
Proof.
  induction chain as [|p chain IH]; intros h Hnd Hh; cbn [free_chain].
  { exists h. split; [done|]. intros q. by rewrite decide_False by set_solver. }
  apply NoDup_cons in Hnd as [Hp Hnd]. destruct (Hh p) as [n Hn]; [set_solver|].
  rewrite Hn. cbn [mbind res_bind get_or].
  destruct (IH (delete p h)) as (h' & -> & Hh'); [done| |].
  { intros q Hq. rewrite lookup_delete_ne by set_solver. apply Hh. set_solver. }
  exists h'. split; [done|]. intros q. rewrite Hh'.
  destruct (decide (q = p)) as [->|Hne].
  - rewrite (decide_False _ _ Hp), lookup_delete_eq. by rewrite decide_True by set_solver.
  - rewrite lookup_delete_ne by done. apply decide_ext; set_solver.
Qed.

Lemma free_slots_spec Q ss : ∀ T, wheel_inv Q T → NoDup ss → (∀ s, s ∈ ss → valid_slot s) →
  ∃ T', free_slots T ss = Ok T' ∧ shape T' ∧
    (∀ s, get_slot T' s = if decide (s ∈ ss) then [] else get_slot T s) ∧
    (∀ q, is_Some (heap T' !! q) → is_Some (heap T !! q) ∧ ∀ s, s ∈ ss → q ∉ get_slot T s).
Proof.
  induction ss as [|s ss IH]; intros T HT Hnd Hv; cbn [free_slots].
  { exists T. split; [done|]. split_and!; [apply HT| |].
    - intros s. by rewrite decide_False by set_solver.
    - intros q Hq. split; [done|]. set_solver. }
  apply NoDup_cons in Hnd as [Hs Hnd].
  destruct (free_chain_spec (get_slot T s) (heap T)) as (h' & -> & Hh'); [apply HT| |].
  { intros p Hp. destruct (inv_node _ _ HT _ _ Hp) as (n & -> & _). eauto. }
  cbn [mbind res_bind]. unfold link_clear. set (T1 := upd_slot _ (set_heap T h') s).
  assert (Hget : ∀ s', get_slot T1 s' = if decide (s' = s) then [] else get_slot T s').
  { intros s'. unfold T1. rewrite get_upd_slot; [by autorewrite with wheel| |set_solver].
    apply shape_set_heap, HT. }
  assert (heap T1 = h') as Hh1 by (unfold T1; by destruct s).
  destruct (IH T1) as (T' & -> & HS' & Hget' & Hheap'); [|done|set_solver|].
  { split.
    - apply shape_upd, shape_set_heap, HT.
    - replace (time T1) with (time T) by (unfold T1; by destruct s). apply HT.
    - intros s' p. rewrite Hget. case_decide as Hss; [set_solver|]. intros Hp.
      rewrite Hh1, Hh', decide_False; [by apply HT|]. intros Hp'. by apply Hss, (inv_disj _ _ HT _ _ p).
    - intros s'. rewrite Hget. case_decide; [constructor|apply HT].
    - intros s1 s2 p. rewrite !Hget. case_decide; [by intros ?%elem_of_nil|].
      case_decide; [by intros _ ?%elem_of_nil|]. apply HT. }
  exists T'. split; [done|]. split; [done|]. split.
  - intros s'. rewrite Hget', Hget. destruct (decide (s' = s)) as [->|Hne].
    + rewrite (decide_False _ _ Hs). by rewrite decide_True by (by left).
    + apply decide_ext. rewrite elem_of_cons. naive_solver.
  - intros q Hq. apply Hheap' in Hq as [Hq Hnot]. rewrite Hh1, Hh' in Hq.
    case_decide as Hin; [by destruct Hq|]. split; [done|].
    intros s' [->|Hs']%elem_of_cons; [done|]. specialize (Hnot s' Hs'). rewrite Hget in Hnot.
    rewrite decide_False in Hnot; [done|]. by intros ->.
Qed.

(** ** The intrusive list *)

Module LinkList.

(** Where a [next] field lives: in the list head, or in a node. *)
Inductive loc : Type := Head | Node (p : ptr).

(** [link_list_t]: the embedded head's [next], the tail pointer, and the [next]
    fields of the nodes. *)
(* src: 7.2timers/timers/timewheel.c:16-19 link_list_t *)
Record link_list_t : Type := LinkListT {
  head_next : option ptr;
  tail : loc;
  next : gmap ptr (option ptr)
}.

Definition set_next (l : link_list_t) (c : loc) (v : option ptr) : link_list_t :=
  match c with
  | Head => LinkListT v (tail l) (next l)
  | Node p => LinkListT (head_next l) (tail l) (<[p := v]> (next l))
  end.

(* src: 7.2timers/timers/timewheel.c:41-46 link *)
Definition ll_link (l : link_list_t) (node : ptr) : link_list_t :=
  let l := set_next l (tail l) (Some node) in
  let l := LinkListT (head_next l) (Node node) (next l) in
  set_next l (Node node) None.

(* src: 7.2timers/timers/timewheel.c:32-39 link_clear *)
Definition ll_clear (l : link_list_t) : option ptr * link_list_t :=
  let ret := head_next l in
  let l := set_next l Head None in
  (ret, LinkListT (head_next l) Head (next l)).

(** [chain nx o xs]: following [next] from [o] visits [xs] and stops at null. *)
Fixpoint chain (nx : gmap ptr (option ptr)) (o : option ptr) (xs : list ptr) : Prop :=
  match xs with
  | [] => o = None
  | x :: xs => o = Some x ∧ ∃ o', nx !! x = Some o' ∧ chain nx o' xs
  end.

Definition repr (l : link_list_t) (xs : list ptr) : Prop :=
  NoDup xs ∧ chain (next l) (head_next l) xs ∧
  tail l = match last xs with Some x => Node x | None => Head end.

Lemma chain_frame nx o xs p v : p ∉ xs → chain nx o xs → chain (<[p := v]> nx) o xs.
Proof.
  revert o. induction xs as [|x xs IH]; intros o Hp; simpl; [done|].
  intros (-> & o' & Hx & Hc). split; [done|]. exists o'.
  rewrite lookup_insert_ne by set_solver. split; [done|]. apply IH; set_solver.
Qed.

Lemma walk_snoc nx o xs x p : x ∉ xs → p ∉ xs → p ≠ x → chain nx o (xs ++ [x]) →
  chain (<[p := None]> (<[x := Some p]> nx)) o (xs ++ [x; p]).
Proof.
  revert o. induction xs as [|y xs IH]; intros o Hx Hp Hne; simpl.
  - intros (-> & o' & Ho & ->). split; [done|]. exists (Some p).
    rewrite lookup_insert_ne by done. rewrite lookup_insert_eq. split; [done|].
    split; [done|]. exists None. by rewrite lookup_insert_eq.
  - intros (-> & o' & Ho & Hc). split; [done|]. exists o'.
    rewrite !lookup_insert_ne by set_solver. split; [done|]. apply IH; set_solver.
Qed.

Lemma ll_link_repr l xs p : repr l xs → p ∉ xs → repr (ll_link l p) (xs ++ [p]).
Proof.
  intros (Hnd & Hc & Ht) Hp. split; [|split].
  - apply NoDup_app. split_and!; [done| |apply NoDup_singleton]. set_solver.
  - unfold ll_link. destruct xs as [|x xs _] using rev_ind.
    + simpl in *. rewrite Ht. simpl. split; [done|]. exists None. by rewrite lookup_insert_eq.
    + rewrite last_snoc in Ht. rewrite Ht. simpl. rewrite <-app_assoc.
      apply NoDup_app in Hnd as (_ & Hx & _). apply walk_snoc; set_solver.
  - rewrite last_snoc. by destruct (tail l) eqn:E; unfold ll_link; rewrite E.
Qed.

Lemma ll_clear_repr l xs : repr l xs →
  fst (ll_clear l) = head xs ∧ chain (next (snd (ll_clear l))) (fst (ll_clear l)) xs ∧
  repr (snd (ll_clear l)) [].
Proof.
  intros (Hnd & Hc & Ht). simpl. split; [|split; [done|]].
  - destruct xs; simpl in *; [done|]. by destruct Hc as [-> _].
  - split; [constructor|]. by split.
Qed.

End LinkList.

(** ** Properties *)

(** C1: expire_timer makes up for every tick since the last call, for handlers that do
    not use the wheel themselves. Of the timers in slots that the clock visits it calls the
    handler of exactly those that were due in that time and are not cancelled, each
    once, and keeps the others waiting; a timer in a slot that [timer_shift] skips (slot 0 of
    the levels 0 to 2) is never called and stays where it is. No freed node, no index
    outside the wheel and not the lock it already holds is touched. *)
Theorem expire_timer_exact T cp : Inv T → cp ≠ current_point T →
  let d := u32 (cp - current_point T) in
  ∃ T' evs, expire_timer T cp = Ok (T', evs) ∧ Inv T' ∧ time T' = u32 (time T + d) ∧
    (∀ p n, pending T' p n ↔ pending T p n ∧ d < dist (time T) (expire n)) ∧
    (∀ p n, stranded T' p n ↔ stranded T p n) ∧
    (∀ ev, ev ∈ evs ↔ fired_within T d ev) ∧ NoDup (ev_node <$> evs).
Proof.
  intros HT Hcp d. unfold expire_timer. rewrite (proj2 (Z.eqb_neq _ _) Hcp). fold d.
  assert (HT1 : Inv (set_point T cp)) by (by destruct HT as [[[] ? ? ? ?] ?]).
  destruct (timer_updates_spec (Z.to_nat d) _ HT1) as (T' & evs & Hok & HT' & Ht' & Hp & Hs & He & Hnd).
  assert (0 ≤ d) by apply u32_range. rewrite Z2Nat.id in * by done.
  exists T', evs. by split_and!.
Qed.

Definition demo_wheel : s_timer_t :=
  match add_timer (init_timer 0) (Some 1%positive) 0 300 7%nat 42 with
  | Ok (T, _, _) => T
  | Err _ => init_timer 0
  end.

Lemma demo_wheel_inv : Inv demo_wheel.
Proof.
  destruct (add_timer_spec (init_timer 0) 1%positive 0 300 7%nat 42) as (T' & E & HT' & _).
  - apply (timer_create_inv 0). lia.
  - done.
  - lia.
  - unfold demo_wheel. by rewrite E.
Defined.

Lemma expire_timer_exact_witness :
  ∃ T' evs, expire_timer demo_wheel 300 = Ok (T', evs) ∧ Fired 1%positive 7%nat 42 300 ∈ evs.
Proof.
  destruct (expire_timer_exact demo_wheel 300 demo_wheel_inv ltac:(vm_compute; discriminate))
    as (T' & evs & Hok & _ & _ & _ & _ & He & _).
  exists T', evs. split; [exact Hok|]. apply He.
  exists (TimerNode 300 7 0 42). split_and!; [|vm_compute; discriminate|reflexivity|reflexivity].
  exists (Lvl 0 1). split_and!; [reflexivity| |vm_compute; reflexivity].
  vm_compute. constructor.
Defined.

(** C33: a timer added [tm] ticks ahead in a slot the clock visits is called by
    the [tm]-th update and by no earlier one, once, with its own id; if [malloc]
    left a non-zero byte in the [cancel] field it is discarded silently. *)
Theorem add_timer_fires_on_time T p junk tm func id :
  Inv T → heap T !! p = None → 1 ≤ tm < 2 ^ 31 →
  lost (slot_of (time T) (u32 (tm + time T))) = false →
  ∃ T1, add_timer T (Some p) junk tm func id = Ok (T1, Some p, []) ∧
  ∀ k : nat, ∃ T2 evs, timer_updates k T1 = Ok (T2, evs) ∧
    filter (λ ev, ev_node ev = p) evs =
      (if (tm <=? Z.of_nat k) && (junk =? 0) then [Fired p func id (u32 (tm + time T))] else []) ∧
    ((∃ n, pending T2 p n) ↔ Z.of_nat k < tm).
Proof.
  intros HT Hp Htm Hl. set (n := TimerNode (u32 (tm + time T)) func junk id).
  destruct (add_timer_pending T p junk tm func id HT Hp Htm) as (T1 & Hok & HT1 & Hd & Hpend & _).
  specialize (Hpend Hl). fold n in Hpend, Hd. exists T1. split; [done|]. intros k.
  destruct (timer_updates_spec k T1 HT1) as (T2 & evs & Hok2 & _ & _ & Hp2 & _ & He & Hnd).
  exists T2, evs. split; [done|].
  assert (Hn : ∀ n', pending T1 p n' → n' = n) by (intros; by eapply pending_unique).
  split; last first.
  { split.
    - intros [n' [Hp' Hlt]%Hp2]. rewrite (Hn _ Hp') in Hlt. lia.
    - intros Hlt. exists n. apply Hp2. split; [done|lia]. }
  destruct ((tm <=? Z.of_nat k) && (junk =? 0)) eqn:E.
  - apply andb_true_iff in E as [E1%Z.leb_le E2%Z.eqb_eq].
    apply (filter_fired _ (Fired p func id (u32 (tm + time T)))); [done|].
    apply He. exists n. split_and!; try done. lia.
  - apply filter_unfired. intros (ev & -> & Hev)%list_elem_of_fmap.
    apply He in Hev as (n' & Hp' & Hdn & Hc & _). rewrite (Hn _ Hp') in Hdn, Hc.
    simpl in Hc. apply andb_false_iff in E as [E%Z.leb_gt|E%Z.eqb_neq]; [lia|done].
Qed.

Lemma add_timer_fires_on_time_witness :
  ∃ T1 T2 evs, add_timer (init_timer 0) (Some 1%positive) 0 6000 7%nat 100 = Ok (T1, Some 1%positive, []) ∧
    timer_updates 6000 T1 = Ok (T2, evs) ∧
    filter (λ ev, ev_node ev = 1%positive) evs = [Fired 1%positive 7%nat 100 6000].
Proof.
  destruct (add_timer_fires_on_time (init_timer 0) 1%positive 0 6000 7%nat 100) as (T1 & Hok & H).
  - apply (timer_create_inv 0). lia.
  - reflexivity.
  - lia.
  - vm_compute. reflexivity.
  - destruct (H 6000%nat) as (T2 & evs & Hok2 & Hf & _). exists T1, T2, evs.
    split; [exact Hok|]. split; [exact Hok2|]. exact Hf.
Defined.

(** Without memory [add_timer] stores through the null pointer, with the lock held. *)
Lemma add_timer_no_memory T junk tm func id : lock T = 0 → add_timer T None junk tm func id = Err NullDeref.
Proof. intros Hl. unfold add_timer, spinlock_lock. by rewrite Hl. Qed.

(** a timer whose slot has index 0 on one of the levels 0 to 2 is never
    called: however long the wheel runs, it stays in a slot that [timer_shift]
    skips, and its node is never freed by the updates. *)
Theorem add_timer_lost T p junk tm func id :
  Inv T → heap T !! p = None → 1 ≤ tm < 2 ^ 31 →
  lost (slot_of (time T) (u32 (tm + time T))) = true →
  ∃ T1, add_timer T (Some p) junk tm func id = Ok (T1, Some p, []) ∧
  ∀ k : nat, ∃ T2 evs, timer_updates k T1 = Ok (T2, evs) ∧
    p ∉ (ev_node <$> evs) ∧ stranded T2 p (TimerNode (u32 (tm + time T)) func junk id).
Proof.
  intros HT Hp Htm Hl.
  destruct (add_timer_pending T p junk tm func id HT Hp Htm) as (T1 & Hok & HT1 & Hd & _ & Hstr).
  specialize (Hstr Hl). exists T1. split; [done|]. intros k.
  destruct (timer_updates_spec k T1 HT1) as (T2 & evs & Hok2 & _ & _ & Hp2 & Hs2 & He & Hnd).
  exists T2, evs. split; [done|]. split; [|by apply Hs2].
  intros (ev & -> & Hev)%list_elem_of_fmap.
  apply He in Hev as (n' & (s & Hl' & Hin & _) & _).
  destruct Hstr as (s' & Hl'' & Hin' & _).
  rewrite (inv_disj _ _ (proj1 HT1) _ _ _ Hin Hin') in Hl'. congruence.
Qed.

(** 400 ticks (4 s) from time 16000 is enough: the slot of 16400 at level 0 is 0. *)
Lemma add_timer_lost_witness :
  ∃ T1, add_timer (set_time (init_timer 0) 16000) (Some 1%positive) 0 400 7%nat 100 = Ok (T1, Some 1%positive, []) ∧
  ∀ k : nat, ∃ T2 evs, timer_updates k T1 = Ok (T2, evs) ∧ 1%positive ∉ (ev_node <$> evs).
Proof.
  destruct (add_timer_lost (set_time (init_timer 0) 16000) 1%positive 0 400 7%nat 100) as (T1 & Hok & H).
  - apply timer_create_inv. lia.
  - reflexivity.
  - lia.
  - vm_compute. reflexivity.
  - exists T1. split; [exact Hok|]. intros k. destruct (H k) as (T2 & evs & Hok2 & Hn & _).
    exists T2, evs. split; [exact Hok2|exact Hn].
Defined.

(** when every allocated node is on the wheel, [clear_timer] frees all of them,
    each exactly once, and leaves every slot empty. *)
Theorem clear_timer_frees T : Inv T →
  (∀ p, is_Some (heap T !! p) → ∃ s, p ∈ get_slot T s) →
  ∃ T', clear_timer T = Ok T' ∧ heap T' = ∅ ∧ ∀ s, valid_slot s → get_slot T' s = [].
Proof.
  intros [HT _] Hall.
  destruct (free_slots_spec _ all_slots T HT NoDup_all_slots) as (T' & Hok & HS & Hget & Hheap).
  { intros s. apply elem_of_all_slots. }
  exists T'. split; [done|]. split.
  - apply map_empty. intros q. destruct (heap T' !! q) eqn:E; [|done]. exfalso.
    destruct (Hheap q) as [Hq Hn]; [eauto|]. destruct (Hall q Hq) as [s Hs].
    eapply Hn, Hs. apply elem_of_all_slots. destruct s as [k|i k]; simpl in Hs |- *.
    + destruct (near T !! k) eqn:Ek; [|by apply elem_of_nil in Hs].
      apply lookup_lt_Some in Ek. by rewrite (shape_near _ (inv_shape _ _ HT)) in Ek.
    + destruct (t T !! i) as [l|] eqn:Ei; [|by apply elem_of_nil in Hs]. simpl in Hs.
      destruct (l !! k) eqn:Ek; [|by apply elem_of_nil in Hs].
      rewrite <-(shape_level _ (inv_shape _ _ HT) _ _ Ei).
      rewrite <-(shape_t _ (inv_shape _ _ HT)). eauto using lookup_lt_Some.
  - intros s Hs. rewrite Hget, decide_True; [done|]. by apply elem_of_all_slots.
Qed.

Lemma clear_timer_frees_witness : ∃ T', clear_timer demo_wheel = Ok T' ∧ heap T' = ∅.
Proof.
  destruct (clear_timer_frees demo_wheel demo_wheel_inv) as (T' & Hok & Hh & _).
  - intros p [n Hn]. exists (Lvl 0 1).
    assert (p = 1%positive) as ->.
    { change (heap demo_wheel) with ({[ 1%positive := TimerNode 300 7 0 42 ]} : gmap ptr timer_node) in Hn.
      by apply lookup_singleton_Some in Hn as [<- _]. }
    vm_compute. constructor.
  - exists T'. split; [exact Hok|exact Hh].
Defined.

(** the pointer manipulations of [link] and [link_clear] implement appending
    to a list of nodes and taking the whole list: the [next] chain from the head
    is the list, and [tail] is its last node or the head itself. *)
Theorem link_list_refines (l : LinkList.link_list_t) (xs : list ptr) (p : ptr) :
  LinkList.repr l xs → p ∉ xs →
  LinkList.repr (LinkList.ll_link l p) (xs ++ [p]) ∧
  fst (LinkList.ll_clear l) = head xs ∧
  LinkList.chain (LinkList.next (snd (LinkList.ll_clear l))) (fst (LinkList.ll_clear l)) xs ∧
  LinkList.repr (snd (LinkList.ll_clear l)) [].
Proof.
  intros Hr Hp. split; [by apply LinkList.ll_link_repr|]. by apply LinkList.ll_clear_repr.
Qed.

Lemma link_list_refines_witness :
  LinkList.repr (LinkList.ll_link (LinkList.LinkListT None LinkList.Head ∅) 1%positive) [1%positive].
Proof.
  apply (link_list_refines (LinkList.LinkListT None LinkList.Head ∅) [] 1%positive).
  - split; [constructor|]. split; reflexivity.
  - apply not_elem_of_nil.
Defined.
