(* ===== verification/MinHeap.v ===== *)
(** * The binary min-heap of timers: 7.2timers/timers/minheap.c, minheap.h, mh-timer.h

    The heap is an array of entry pointers whose entries carry their own index,
    so an entry can be erased or moved wherever it is.  [p] is the allocated
    array (its length is the capacity [a]; the cells from [n] on are whatever
    [realloc] or earlier operations left there) and [ents] the allocated
    entries.  [realloc] and the clock are arguments. *)

From S2P Require Import Prelude.

Module MinHeap.

Abbreviation ptr := positive (only parsing).

(* src: 7.2timers/timers/minheap.h:10-15 timer_entry_s *)
Record timer_entry : Type := Entry {
  etime : Z;          (* uint32_t time *)
  min_heap_idx : Z;   (* uint32_t *)
  handler : nat;
  privdata : Z
}.

(* src: 7.2timers/timers/minheap.h:17-20 min_heap *)
Record min_heap_t : Type := MinHeapT {
  p : list ptr;
  n : Z;   (* uint32_t *)
  a : Z;   (* uint32_t *)
  ents : gmap ptr timer_entry
}.

Definition set_p (s : min_heap_t) l := MinHeapT l (n s) (a s) (ents s).
Definition set_n (s : min_heap_t) k := MinHeapT (p s) k (a s) (ents s).
Definition set_ents (s : min_heap_t) h := MinHeapT (p s) (n s) (a s) h.

(** The index of an entry that is in no heap: [-1] as a [uint32_t]. *)
Definition NOIDX : Z := 2 ^ 32 - 1.

Definition with_idx (e : timer_entry) (i : Z) : timer_entry :=
  Entry (etime e) i (handler e) (privdata e).

(** [e->min_heap_idx = i] *)
Definition set_idx (s : min_heap_t) (e : ptr) (i : Z) : res min_heap_t :=
  en ← get_or UseAfterFree (ents s !! e);
  Ok (set_ents s (<[e := with_idx en i]> (ents s))).

Definition get_ent (s : min_heap_t) (e : ptr) : res timer_entry := get_or UseAfterFree (ents s !! e).

(** [s->p[i]] *)
Definition rd (s : min_heap_t) (i : Z) : res ptr := get_or OutOfBounds (p s !! Z.to_nat i).

(** [(s->p[i] = e)->min_heap_idx = i] *)
Definition put (s : min_heap_t) (i : Z) (e : ptr) : res min_heap_t :=
  if (Z.to_nat i <? length (p s))%nat
  then set_idx (set_p s (<[Z.to_nat i := e]> (p s))) e i
  else Err OutOfBounds.

(* src: 7.2timers/timers/minheap.c:3-4 min_heap_elem_greater *)
Definition min_heap_elem_greater (s : min_heap_t) (x y : ptr) : res bool :=
  ex ← get_ent s x; ey ← get_ent s y; Ok (etime ey <? etime ex).

(* src: 7.2timers/timers/minheap.c:6-6 min_heap_ctor_ *)
Definition min_heap_ctor_ (h : gmap ptr timer_entry) : min_heap_t := MinHeapT [] 0 0 h.

(* src: 7.2timers/timers/minheap.c:8-8 min_heap_elem_init_ *)
Definition min_heap_elem_init_ (s : min_heap_t) (e : ptr) : res min_heap_t := set_idx s e NOIDX.

(* src: 7.2timers/timers/minheap.c:9-9 min_heap_empty_ *)
Definition min_heap_empty_ (s : min_heap_t) : bool := 0 =? n s.
(* src: 7.2timers/timers/minheap.c:10-10 min_heap_size_ *)
Definition min_heap_size_ (s : min_heap_t) : Z := n s.
(* src: 7.2timers/timers/minheap.c:11-11 min_heap_top_ *)
Definition min_heap_top_ (s : min_heap_t) : res (option ptr) :=
  if n s =? 0 then Ok None else e ← rd s 0; Ok (Some e).

(* src: 7.2timers/timers/minheap.c:103-113 min_heap_shift_up_ *)
Fixpoint min_heap_shift_up_ (fuel : nat) (s : min_heap_t) (hole_index : Z) (e : ptr) : res min_heap_t :=
  match fuel with
  | O => Err OutOfFuel
  | S fuel =>
      let parent := u32 (hole_index - 1) / 2 in
      if hole_index =? 0 then put s hole_index e
      else
        q ← rd s parent;
        g ← min_heap_elem_greater s q e;
        if (g : bool) then s ← put s hole_index q; min_heap_shift_up_ fuel s parent e
        else put s hole_index e
  end.

(** The first round of the [do] loop; the rest is the loop of [min_heap_shift_up_]. *)
(* src: 7.2timers/timers/minheap.c:91-101 min_heap_shift_up_unconditional_ *)
Definition min_heap_shift_up_unconditional_ (s : min_heap_t) (hole_index : Z) (e : ptr) : res min_heap_t :=
  let parent := u32 (hole_index - 1) / 2 in
  q ← rd s parent;
  s ← put s hole_index q;
  min_heap_shift_up_ (S (Z.to_nat parent)) s parent e.

(* src: 7.2timers/timers/minheap.c:115-128 min_heap_shift_down_ *)
Fixpoint min_heap_shift_down_ (fuel : nat) (s : min_heap_t) (hole_index : Z) (e : ptr) : res min_heap_t :=
  match fuel with
  | O => Err OutOfFuel
  | S fuel =>
      let min_child := u32 (2 * u32 (hole_index + 1)) in
      if min_child <=? n s then
        dec ← (if min_child =? n s then Ok true
               else x ← rd s min_child; y ← rd s (min_child - 1); min_heap_elem_greater s x y);
        let min_child := if (dec : bool) then min_child - 1 else min_child in
        q ← rd s min_child;
        g ← min_heap_elem_greater s e q;
        if (g : bool) then s ← put s hole_index q; min_heap_shift_down_ fuel s min_child e
        else put s hole_index e
      else put s hole_index e
  end.

(** [realloc_ok] tells whether [realloc] grants that many cells; [junk] fills
    the cells it adds. *)
(* src: 7.2timers/timers/minheap.c:75-89 min_heap_reserve_ *)
Definition min_heap_reserve_ (realloc_ok : Z → bool) (junk : ptr) (s : min_heap_t) (k : Z)
  : Z * min_heap_t :=
  if a s <? k then
    let a' := if a s =? 0 then 8 else u32 (a s * 2) in
    let a' := if a' <? k then k else a' in
    if realloc_ok a' then
      (0, MinHeapT (resize (Z.to_nat a') junk (p s)) (n s) a' (ents s))
    else (-1, s)
  else (0, s).

(* src: 7.2timers/timers/minheap.c:13-19 min_heap_push_ *)
Definition min_heap_push_ (realloc_ok : Z → bool) (junk : ptr) (s : min_heap_t) (e : ptr)
  : res (Z * min_heap_t) :=
  let '(r, s) := min_heap_reserve_ realloc_ok junk s (u32 (n s + 1)) in
  if r =? 0 then
    let hole := n s in
    s ← min_heap_shift_up_ (S (Z.to_nat hole)) (set_n s (u32 (n s + 1))) hole e;
    Ok (0, s)
  else Ok (-1, s).

(* src: 7.2timers/timers/minheap.c:21-31 min_heap_pop_ *)
Definition min_heap_pop_ (s : min_heap_t) : res (option ptr * min_heap_t) :=
  if n s =? 0 then Ok (None, s)
  else
    e ← rd s 0;
    let s := set_n s (n s - 1) in
    last ← rd s (n s);
    s ← min_heap_shift_down_ (S (Z.to_nat (n s))) s 0 last;
    s ← set_idx s e NOIDX;
    Ok (Some e, s).

(* src: 7.2timers/timers/minheap.c:33-36 min_heap_elt_is_top_ *)
Definition min_heap_elt_is_top_ (s : min_heap_t) (e : ptr) : res bool :=
  en ← get_ent s e; Ok (min_heap_idx en =? 0).

(** Shift [x] up from the index of [e], or down when the parent is not greater. *)
Definition reseat (s : min_heap_t) (i : Z) (x : ptr) : res min_heap_t :=
  let parent := u32 (i - 1) / 2 in
  up ← (if 0 <? i then q ← rd s parent; min_heap_elem_greater s q x else Ok false);
  if (up : bool) then min_heap_shift_up_unconditional_ s i x
  else min_heap_shift_down_ (S (Z.to_nat (n s))) s i x.

(* src: 7.2timers/timers/minheap.c:38-57 min_heap_erase_ *)
Definition min_heap_erase_ (s : min_heap_t) (e : ptr) : res (Z * min_heap_t) :=
  en ← get_ent s e;
  if min_heap_idx en =? NOIDX then Ok (-1, s)
  else
    let s := set_n s (u32 (n s - 1)) in
    last ← rd s (n s);
    s ← reseat s (min_heap_idx en) last;
    s ← set_idx s e NOIDX;
    Ok (0, s).

(* src: 7.2timers/timers/minheap.c:59-73 min_heap_adjust_ *)
Definition min_heap_adjust_ (realloc_ok : Z → bool) (junk : ptr) (s : min_heap_t) (e : ptr)
  : res (Z * min_heap_t) :=
  en ← get_ent s e;
  if min_heap_idx en =? NOIDX then min_heap_push_ realloc_ok junk s e
  else s ← reseat s (min_heap_idx en) e; Ok (0, s).

(** ** mh-timer.h *)

(** [add_timer(msec, callback)]: [te] is the address [malloc] returns, if any,
    and [now] the clock in milliseconds. *)
(* src: 7.2timers/timers/mh-timer.h:44-60 add_timer *)
Definition add_timer (realloc_ok : Z → bool) (junk : ptr) (s : min_heap_t)
    (te : option ptr) (now msec : Z) (callback : nat) : res (option ptr * min_heap_t) :=
  match te with
  | None => Ok (None, s)
  | Some te =>
      let s := set_ents s (<[te := Entry (u32 (now + msec)) 0 callback 0]> (ents s)) in
      '(r, s) ← min_heap_push_ realloc_ok junk s te;
      if r =? 0 then Ok (Some te, s)
      else Ok (None, set_ents s (delete te (ents s)))
  end.

(* src: 7.2timers/timers/mh-timer.h:62-64 del_timer *)
Definition del_timer (s : min_heap_t) (e : ptr) : res (bool * min_heap_t) :=
  '(r, s) ← min_heap_erase_ s e; Ok (0 =? r, s).

(** The two conversions [(int)] and the [int] subtraction. *)
(* src: 7.2timers/timers/mh-timer.h:66-71 find_nearest_expire_timer *)
Definition find_nearest_expire_timer (s : min_heap_t) (now : Z) : res Z :=
  te ← min_heap_top_ s;
  match te with
  | None => Ok (-1)
  | Some te =>
      en ← get_ent s te;
      let diff := i32 (i32 (etime en) - i32 now) in
      Ok (if 0 <? diff then diff else 0)
  end.

(** Runs the loop of [expire_timer]; the handlers called are recorded in order. *)
(* src: 7.2timers/timers/mh-timer.h:73-83 expire_timer *)
Fixpoint expire_timer (fuel : nat) (s : min_heap_t) (cur : Z) : res (min_heap_t * list (ptr * timer_entry)) :=
  match fuel with
  | O => Err OutOfFuel
  | S fuel =>
      te ← min_heap_top_ s;
      match te with
      | None => Ok (s, [])
      | Some te =>
          en ← get_ent s te;
          if cur <? etime en then Ok (s, [])
          else
            '(_, s) ← min_heap_pop_ s;
            let s := set_ents s (delete te (ents s)) in
            '(s, evs) ← expire_timer fuel s cur;
            Ok (s, (te, en) :: evs)
      end
  end.

(** ** Heap order on a list of entries *)

Section order.
Context (tm : ptr → Z).

Definition val (V : list ptr) (i : nat) : Z := from_option tm 0 (V !! i).
Definition par (j : nat) : nat := (j - 1) / 2.

Definition heap_ord (V : list ptr) : Prop :=
  ∀ j, (0 < j < length V)%nat → val V (par j) ≤ val V j.

(** Order everywhere but between [h] and its parent, or its children. *)
Definition up_ord (V : list ptr) (h : nat) : Prop :=
  (∀ j, (0 < j < length V)%nat → j ≠ h → val V (par j) ≤ val V j) ∧
  (∀ j, (0 < h)%nat → (0 < j < length V)%nat → par j = h → val V (par h) ≤ val V j).
Definition down_ord (V : list ptr) (h : nat) : Prop :=
  (∀ j, (0 < j < length V)%nat → par j ≠ h → val V (par j) ≤ val V j) ∧
  (∀ j, (0 < h)%nat → (0 < j < length V)%nat → par j = h → val V (par h) ≤ val V j).

Definition swap (V : list ptr) (h c : nat) (e q : ptr) : list ptr := <[c := e]> (<[h := q]> V).

Lemma par_lt j : (0 < j)%nat → (par j < j)%nat.
Proof. unfold par. intros. apply Nat.Div0.div_lt_upper_bound. lia. Qed.

Lemma length_swap V h c e q : length (swap V h c e q) = length V.
Proof. unfold swap. by rewrite !length_insert. Qed.

Lemma lookup_swap V h c e q k : (h < length V)%nat → (c < length V)%nat →
  swap V h c e q !! k = if decide (k = c) then Some e else if decide (k = h) then Some q else V !! k.
Proof.
  intros Hh Hc. unfold swap. repeat case_decide; subst.
  - apply list_lookup_insert_eq. by rewrite length_insert.
  - rewrite list_lookup_insert_ne by done. by apply list_lookup_insert_eq.
  - by rewrite !list_lookup_insert_ne by done.
Qed.

Lemma val_swap V h c e q k : (h < length V)%nat → (c < length V)%nat →
  val (swap V h c e q) k = if decide (k = c) then tm e else if decide (k = h) then tm q else val V k.
Proof. intros. unfold val. rewrite lookup_swap by done. by repeat case_decide. Qed.

Lemma val_eq V i x : V !! i = Some x → val V i = tm x.
Proof. unfold val. by intros ->. Qed.

Lemma up_ord_step V h e q : (0 < h < length V)%nat → V !! h = Some e → V !! par h = Some q →
  tm e < tm q → up_ord V h → up_ord (swap V h (par h) e q) (par h).
Proof.
  intros Hh He Hq Hlt [H1 H2]. pose proof (par_lt h ltac:(lia)) as Hp.
  pose proof (val_eq _ _ _ He) as Ee. pose proof (val_eq _ _ _ Hq) as Eq.
  split; rewrite length_swap.
  - intros j Hj Hne. pose proof (par_lt j ltac:(lia)). rewrite !val_swap by lia.
    specialize (H1 j Hj). specialize (H2 j ltac:(lia) Hj).
    destruct (decide (j = par h)) as [|Ej]; [lia|].
    destruct (decide (par j = par h)) as [E3|E3].
    + rewrite E3 in H1. case_decide as Ejh; [lia|]. specialize (H1 Ejh). lia.
    + destruct (decide (par j = h)) as [E4|E4].
      * specialize (H2 E4). rewrite decide_False by lia. lia.
      * rewrite decide_False by (intros ->; done). apply H1. intros ->. done.
  - intros j Hp0 Hj Hpj. pose proof (par_lt (par h) Hp0). rewrite !val_swap by lia.
    pose proof (H1 (par h) ltac:(lia) ltac:(lia)). specialize (H1 j Hj). rewrite Hpj in H1.
    repeat case_decide; subst; lia.
Qed.

Lemma up_ord_exit V h : (h < length V)%nat → up_ord V h →
  (h = 0%nat ∨ val V (par h) ≤ val V h) → heap_ord V.
Proof.
  intros Hh [H1 _] Hx j Hj. destruct (decide (j = h)) as [->|Hne]; [|by apply H1].
  destruct Hx; lia.
Qed.

Lemma down_ord_step V h c e q : (c < length V)%nat → (0 < c)%nat → par c = h → V !! h = Some e →
  V !! c = Some q → tm q < tm e →
  (∀ j, (0 < j < length V)%nat → par j = h → tm q ≤ val V j) →
  down_ord V h → down_ord (swap V h c e q) c.
Proof.
  intros Hc H0c Hpc He Hq Hlt Hmin [H1 H2]. pose proof (par_lt c ltac:(lia)) as Hp.
  pose proof (val_eq _ _ _ He) as Ee. pose proof (val_eq _ _ _ Hq) as Eq.
  split; rewrite length_swap.
  - intros j Hj Hne. pose proof (par_lt j ltac:(lia)). rewrite !val_swap by lia.
    specialize (H1 j Hj). specialize (Hmin j Hj).
    repeat case_decide; subst; try lia.
    specialize (H2 c ltac:(lia) ltac:(lia) eq_refl). lia.
  - intros j _ Hj Hpj. pose proof (par_lt j ltac:(lia)). rewrite !val_swap by lia.
    specialize (H1 j Hj). repeat case_decide; subst; lia.
Qed.

Lemma down_ord_exit V h : (h < length V)%nat → down_ord V h →
  (∀ j, (0 < j < length V)%nat → par j = h → val V h ≤ val V j) → heap_ord V.
Proof.
  intros Hh [H1 _] Hx j Hj. destruct (decide (par j = h)) as [E|Hne]; [|by apply H1].
  rewrite E. by apply Hx.
Qed.

(** The root is a minimum. *)
Lemma heap_ord_min V : heap_ord V → ∀ j, (j < length V)%nat → val V 0 ≤ val V j.
Proof.
  intros HV j. induction (lt_wf j) as [j _ IH]. intros Hj.
  destruct (decide (j = 0%nat)) as [->|Hne]; [lia|].
  pose proof (par_lt j ltac:(lia)). specialize (IH (par j) ltac:(lia) ltac:(lia)).
  specialize (HV j ltac:(lia)). lia.
Qed.
End order.

(** ** The loops *)

(** The time an entry has; the loops change only indices. *)
Definition tm (h : gmap ptr timer_entry) (x : ptr) : Z := from_option etime 0 (h !! x).

(** Entries keep everything but their index. *)
Definition same_entries (h h' : gmap ptr timer_entry) : Prop :=
  ∀ q, (λ en, with_idx en 0) <$> h' !! q = (λ en, with_idx en 0) <$> h !! q.

(** Largest heap the 32-bit index arithmetic [2 * (hole + 1)] is right for. *)
Definition max_n : Z := 2 ^ 31 - 2.

(** The array with [e] about to be stored at [h] is [V]; every other entry of [V]
    knows its index. *)
Record hole_ok (s : min_heap_t) (V : list ptr) (h : nat) (e : ptr) : Prop := HoleOk {
  hole_len : Z.of_nat (length V) = n s;
  hole_max : n s ≤ max_n;
  hole_cap : (length V ≤ length (p s))%nat;
  hole_lt : (h < length V)%nat;
  hole_e : V !! h = Some e;
  hole_nodup : NoDup V;
  hole_ent : is_Some (ents s !! e);
  hole_rest : ∀ i q, i ≠ h → V !! i = Some q →
    p s !! i = Some q ∧ ∃ en, ents s !! q = Some en ∧ min_heap_idx en = Z.of_nat i
}.

(** The array holds the entries [V], each with its index. *)
Record stored (s : min_heap_t) (V : list ptr) : Prop := Stored {
  st_len : Z.of_nat (length V) = n s;
  st_cap : (length V ≤ length (p s))%nat;
  st_nodup : NoDup V;
  st_ent : ∀ i q, V !! i = Some q →
    p s !! i = Some q ∧ ∃ en, ents s !! q = Some en ∧ min_heap_idx en = Z.of_nat i
}.

Lemma same_entries_refl h : same_entries h h.
Proof. done. Qed.
Lemma same_entries_trans h1 h2 h3 : same_entries h1 h2 → same_entries h2 h3 → same_entries h1 h3.
Proof. unfold same_entries. congruence. Qed.
#[export] Instance same_entries_po : PreOrder same_entries.
Proof. split; [exact same_entries_refl|exact same_entries_trans]. Qed.

Lemma same_entries_tm h h' x : same_entries h h' → tm h' x = tm h x.
Proof.
  intros H. specialize (H x). unfold tm.
  destruct (h' !! x), (h !! x); simplify_eq/=; done.
Qed.

Lemma same_entries_is_Some h h' x : same_entries h h' → is_Some (h' !! x) ↔ is_Some (h !! x).
Proof.
  intros H. specialize (H x).
  destruct (h' !! x), (h !! x); simplify_eq/=; split; eauto; by intros [].
Qed.

Lemma same_entries_idx h x en i : h !! x = Some en → same_entries h (<[x := with_idx en i]> h).
Proof.
  intros Hx q. destruct (decide (q = x)) as [->|Hne].
  - by rewrite lookup_insert_eq, Hx.
  - by rewrite lookup_insert_ne.
Qed.

Lemma same_entries_val h h' V i : same_entries h h' → val (tm h') V i = val (tm h) V i.
Proof. intros H. unfold val. destruct (V !! i); simpl; [by apply same_entries_tm|done]. Qed.

Lemma put_spec s i q en : (i < length (p s))%nat → ents s !! q = Some en →
  put s (Z.of_nat i) q =
    Ok (MinHeapT (<[i := q]> (p s)) (n s) (a s) (<[q := with_idx en (Z.of_nat i)]> (ents s))).
Proof.
  intros Hi Hq. unfold put, set_idx. rewrite Nat2Z.id.
  rewrite (proj2 (Nat.ltb_lt _ _) Hi). simpl. by rewrite Hq.
Qed.

(** Storing [e] in the hole. *)
Lemma put_hole s V h e : hole_ok s V h e →
  ∃ s', put s (Z.of_nat h) e = Ok s' ∧ stored s' V ∧ same_entries (ents s) (ents s') ∧
    n s' = n s ∧ a s' = a s ∧ length (p s') = length (p s).
Proof.
  intros [Hl Hm Hc Hh He Hnd [en Hen] Hr].
  rewrite (put_spec s h e en) by (done || lia). eexists. split; [done|].
  split_and!; simpl; try done; [|by apply same_entries_idx|by rewrite length_insert].
  split; simpl; try done; [by rewrite length_insert|].
  intros i q Hq. destruct (decide (i = h)) as [->|Hne].
  - simplify_eq. rewrite list_lookup_insert_eq by lia. split; [done|].
    rewrite lookup_insert_eq. eauto.
  - destruct (Hr i q Hne Hq) as (Hp & en' & Hen' & Hi).
    rewrite list_lookup_insert_ne by done. split; [done|].
    rewrite lookup_insert_ne; [eauto|]. intros ->. by apply Hne, (NoDup_lookup V i h q).
Qed.

(** Moving the entry at [c] into the hole moves the hole to [c]. *)
Lemma put_move s V h c e q : hole_ok s V h e → c ≠ h → V !! c = Some q →
  ∃ s', put s (Z.of_nat h) q = Ok s' ∧ hole_ok s' (swap V h c e q) c e ∧
    same_entries (ents s) (ents s') ∧ n s' = n s ∧ a s' = a s ∧ length (p s') = length (p s).
Proof.
  intros [Hl Hm Hc Hh He Hnd Hen Hr] Hne Hq.
  destruct (Hr c q Hne Hq) as (Hp & en & Henq & Hi).
  assert (Hcl : (c < length V)%nat) by by apply lookup_lt_Some in Hq.
  assert (Hqe : q ≠ e) by (intros ->; by apply Hne, (NoDup_lookup V c h e)).
  rewrite (put_spec s h q en) by (done || lia). eexists. split; [done|].
  split_and!; simpl; try done; [|by apply same_entries_idx|by rewrite length_insert].
  split; simpl; rewrite ?length_swap, ?length_insert; try done.
  - rewrite lookup_swap by done. by rewrite decide_True.
  - unfold swap. by rewrite (swap_Permutation V h c e q).
  - by rewrite lookup_insert_ne.
  - intros i x Hic. rewrite lookup_swap by done. rewrite decide_False by done. intros Hx.
    destruct (decide (i = h)) as [->|Hih].
    + simplify_eq. rewrite list_lookup_insert_eq by lia. split; [done|].
      rewrite lookup_insert_eq. eauto.
    + destruct (Hr i x Hih Hx) as (Hpx & enx & Henx & Hix).
      rewrite list_lookup_insert_ne by done. split; [done|].
      rewrite lookup_insert_ne; [eauto|]. intros ->. by apply Hic, (NoDup_lookup V i c x).
Qed.

Lemma greater_spec s x y : is_Some (ents s !! x) → is_Some (ents s !! y) →
  min_heap_elem_greater s x y = Ok (tm (ents s) y <? tm (ents s) x).
Proof.
  intros [ex Hx] [ey Hy]. unfold min_heap_elem_greater, get_ent, tm. by rewrite Hx, Hy.
Qed.

Lemma parent_Z h : (0 < h)%nat → Z.of_nat h < 2 ^ 32 → u32 (Z.of_nat h - 1) / 2 = Z.of_nat (par h).
Proof.
  intros H0 Hh. rewrite u32_small by lia. unfold par.
  rewrite Nat2Z.inj_div, Nat2Z.inj_sub by lia. done.
Qed.

(** [s'] is [s] with the entries [V] rearranged into heap order. *)
Definition seated (s s' : min_heap_t) (V : list ptr) : Prop :=
  ∃ V', stored s' V' ∧ V' ≡ₚ V ∧ heap_ord (tm (ents s')) V' ∧
    same_entries (ents s) (ents s') ∧ n s' = n s ∧ a s' = a s ∧ length (p s') = length (p s).

Lemma heap_ord_same h h' V : same_entries h h' → heap_ord (tm h) V → heap_ord (tm h') V.
Proof. intros Hs HV j Hj. rewrite !(same_entries_val h h') by done. by apply HV. Qed.

Lemma seated_put s V h e : hole_ok s V h e → heap_ord (tm (ents s)) V →
  ∃ s', put s (Z.of_nat h) e = Ok s' ∧ seated s s' V.
Proof.
  intros Hh HV. destruct (put_hole s V h e Hh) as (s' & Hok & Hst & Hsame & Hn & Ha & Hl).
  exists s'. split; [done|]. exists V. split_and!; try done. by eapply heap_ord_same.
Qed.

Lemma seated_trans s s1 s2 V V1 : V1 ≡ₚ V → same_entries (ents s) (ents s1) →
  n s1 = n s → a s1 = a s → length (p s1) = length (p s) → seated s1 s2 V1 → seated s s2 V.
Proof.
  intros HV Hs Hn Ha Hp (V' & Hst & HV' & Ho & Hs' & Hn' & Ha' & Hp').
  exists V'. split_and!; try congruence; [by rewrite HV'|done].
Qed.

Lemma hole_ent_of s V h e i q : hole_ok s V h e → V !! i = Some q → is_Some (ents s !! q).
Proof.
  intros Hh Hq. destruct (decide (i = h)) as [->|Hne].
  - rewrite (hole_e _ _ _ _ Hh) in Hq. simplify_eq. apply Hh.
  - destruct (hole_rest _ _ _ _ Hh i q Hne Hq) as (_ & en & -> & _). eauto.
Qed.

Lemma rd_hole s V h e i q : hole_ok s V h e → i ≠ h → V !! i = Some q → rd s (Z.of_nat i) = Ok q.
Proof.
  intros Hh Hne Hq. destruct (hole_rest _ _ _ _ Hh i q Hne Hq) as (Hp & _).
  unfold rd. by rewrite Nat2Z.id, Hp.
Qed.

Lemma hole_small s V h e i : hole_ok s V h e → (i < length V)%nat → Z.of_nat i < 2 ^ 31 - 2.
Proof. intros Hh Hi. pose proof (hole_len _ _ _ _ Hh). pose proof (hole_max _ _ _ _ Hh). unfold max_n in *. lia. Qed.

Lemma up_ord_same h h' V i : same_entries h h' → up_ord (tm h) V i → up_ord (tm h') V i.
Proof.
  intros Hs [H1 H2]. split; intros j; rewrite !(same_entries_val h h') by done; auto.
Qed.
Lemma down_ord_same h h' V i : same_entries h h' → down_ord (tm h) V i → down_ord (tm h') V i.
Proof.
  intros Hs [H1 H2]. split; intros j; rewrite !(same_entries_val h h') by done; auto.
Qed.

(** The hole moves to [c]: the loops' common step. *)
Lemma move_seated s V h c e q : hole_ok s V h e → c ≠ h → V !! c = Some q →
  ∃ s1, put s (Z.of_nat h) q = Ok s1 ∧ hole_ok s1 (swap V h c e q) c e ∧
    same_entries (ents s) (ents s1) ∧ n s1 = n s ∧
    ∀ s2, seated s1 s2 (swap V h c e q) → seated s s2 V.
Proof.
  intros Hh Hne Hq. destruct (put_move s V h c e q Hh Hne Hq) as (s1 & Hok & Hh1 & Hs & Hn & Ha & Hl).
  exists s1. split_and!; try done. intros s2. apply seated_trans; try done.
  apply swap_Permutation; [apply Hh|done].
Qed.

Lemma shift_up_spec fuel : ∀ h s V e, hole_ok s V h e → up_ord (tm (ents s)) V h → (h < fuel)%nat →
  ∃ s', min_heap_shift_up_ fuel s (Z.of_nat h) e = Ok s' ∧ seated s s' V.
Proof.
  induction fuel as [|fuel IH]; intros h s V e Hh Ho Hf; [lia|]. cbn [min_heap_shift_up_].
  pose proof (hole_lt _ _ _ _ Hh) as Hlt. pose proof (hole_small _ _ _ _ h Hh Hlt) as Hsm.
  destruct (Z.eqb_spec (Z.of_nat h) 0) as [E|E].
  { apply seated_put; [done|]. eapply up_ord_exit; eauto. left. lia. }
  rewrite parent_Z by lia. pose proof (par_lt h ltac:(lia)) as Hp.
  destruct (lookup_lt_is_Some_2 V (par h)) as [q Hq]; [lia|].
  rewrite (rd_hole s V h e (par h) q) by (done || lia). cbn [mbind res_bind].
  rewrite greater_spec by (eauto using hole_ent_of, hole_ent). cbn [mbind res_bind].
  pose proof (hole_e _ _ _ _ Hh) as He.
  destruct (Z.ltb_spec (tm (ents s) e) (tm (ents s) q)) as [Hg|Hg].
  - destruct (move_seated s V h (par h) e q) as (s1 & -> & Hh1 & Hs & _ & Hback); [done|lia|done|].
    cbn [mbind res_bind].
    destruct (IH (par h) s1 (swap V h (par h) e q) e Hh1) as (s' & -> & Hst); [|lia|eauto].
    apply (up_ord_same _ _ _ _ Hs). apply up_ord_step; try done. lia.
  - apply seated_put; [done|]. eapply up_ord_exit; eauto. right.
    by rewrite (val_eq _ _ _ _ Hq), (val_eq _ _ _ _ He).
Qed.

Lemma par_children h j : (0 < j)%nat → par j = h ↔ j = (2 * h + 1)%nat ∨ j = (2 * h + 2)%nat.
Proof.
  unfold par. intros. pose proof (Nat.div_mod_eq (j - 1) 2).
  pose proof (Nat.mod_upper_bound (j - 1) 2 ltac:(done)). lia.
Qed.

(** Which child the loop of [shift_down] compares with: the lesser one. *)
Lemma min_child_spec s V h e : hole_ok s V h e → (2 * h + 1 < length V)%nat →
  let mc := Z.of_nat (2 * h + 2) in
  ∃ b : bool, (if mc =? n s then Ok true
     else x ← rd s mc; y ← rd s (mc - 1); min_heap_elem_greater s x y) = Ok b ∧
  ∃ c q, (if b then mc - 1 else mc) = Z.of_nat c ∧ V !! c = Some q ∧ (0 < c)%nat ∧ par c = h ∧
    ∀ j, (0 < j < length V)%nat → par j = h → tm (ents s) q ≤ val (tm (ents s)) V j.
Proof.
  intros Hh Hc mc. pose proof (hole_len _ _ _ _ Hh) as Hlen.
  destruct (lookup_lt_is_Some_2 V (2 * h + 1)) as [x1 Hx1]; [lia|].
  destruct (Z.eqb_spec mc (n s)) as [E|E].
  - exists true. split; [done|]. exists (2 * h + 1)%nat, x1. split_and!; [lia|done|lia| |].
    + apply par_children; lia.
    + intros j Hj Hpj. apply par_children in Hpj as [->| ->]; [|lia|lia].
      by rewrite (val_eq _ _ _ _ Hx1).
  - destruct (lookup_lt_is_Some_2 V (2 * h + 2)) as [x2 Hx2]; [lia|].
    unfold mc. rewrite (rd_hole s V h e (2 * h + 2) x2) by (done || lia). cbn [mbind res_bind].
    replace (Z.of_nat (2 * h + 2) - 1) with (Z.of_nat (2 * h + 1)) by lia.
    rewrite (rd_hole s V h e (2 * h + 1) x1) by (done || lia). cbn [mbind res_bind].
    rewrite greater_spec by (eauto using hole_ent_of). eexists. split; [done|].
    destruct (Z.ltb_spec (tm (ents s) x1) (tm (ents s) x2)) as [Hg|Hg];
      [exists (2 * h + 1)%nat, x1|exists (2 * h + 2)%nat, x2]; (split_and!; [done|done|lia| |]);
      try (apply par_children; lia);
      intros j Hj Hpj; (apply par_children in Hpj as [->| ->]; [| |lia]);
      rewrite ?(val_eq _ _ _ _ Hx1), ?(val_eq _ _ _ _ Hx2); lia.
Qed.

Lemma shift_down_spec fuel : ∀ h s V e, hole_ok s V h e → down_ord (tm (ents s)) V h →
  (length V - h < fuel)%nat →
  ∃ s', min_heap_shift_down_ fuel s (Z.of_nat h) e = Ok s' ∧ seated s s' V.
Proof.
  induction fuel as [|fuel IH]; intros h s V e Hh Ho Hf; [lia|]. cbn [min_heap_shift_down_].
  pose proof (hole_lt _ _ _ _ Hh) as Hlt. pose proof (hole_small _ _ _ _ h Hh Hlt) as Hsm.
  pose proof (hole_len _ _ _ _ Hh) as Hlen. pose proof (hole_e _ _ _ _ Hh) as He.
  replace (u32 (2 * u32 (Z.of_nat h + 1))) with (Z.of_nat (2 * h + 2))
    by (rewrite (u32_small (Z.of_nat h + 1)), u32_small by lia; lia).
  destruct (Z.leb_spec (Z.of_nat (2 * h + 2)) (n s)) as [Hle|Hgt]; last first.
  { apply seated_put; [done|]. eapply down_ord_exit; eauto.
    intros j Hj Hpj. apply par_children in Hpj; lia. }
  destruct (min_child_spec s V h e Hh ltac:(lia)) as (b & -> & c & q & Hb & Hq & H0 & Hpc & Hmin).
  cbn [mbind res_bind]. rewrite Hb. pose proof (par_lt c H0) as Hcl.
  assert (Hclt : (c < length V)%nat) by by apply lookup_lt_Some in Hq.
  rewrite (rd_hole s V h e c q) by (done || lia). cbn [mbind res_bind].
  rewrite greater_spec by (eauto using hole_ent_of, hole_ent). cbn [mbind res_bind].
  destruct (Z.ltb_spec (tm (ents s) q) (tm (ents s) e)) as [Hg|Hg].
  - destruct (move_seated s V h c e q) as (s1 & -> & Hh1 & Hs & _ & Hback); [done|lia|done|].
    cbn [mbind res_bind].
    destruct (IH c s1 (swap V h c e q) e Hh1) as (s' & -> & Hst); [|rewrite length_swap; lia|eauto].
    apply (down_ord_same _ _ _ _ Hs). by apply (down_ord_step _ _ h).
  - apply seated_put; [done|]. apply (down_ord_exit _ _ h); [done|done|]. intros j Hj Hpj.
    rewrite (val_eq _ _ _ _ He). specialize (Hmin j Hj Hpj). lia.
Qed.

(** ** The invariant between operations *)

(** [V] is the content of the array, in heap order, each entry knowing its place. *)
Record heap_inv (s : min_heap_t) (V : list ptr) : Prop := HeapInv {
  hi_stored : stored s V;
  hi_max : n s ≤ max_n;
  hi_cap : Z.of_nat (length (p s)) = a s;
  hi_ord : heap_ord (tm (ents s)) V
}.

(** Order everywhere but around [h], whose neighbours are ordered. *)
Definition any_ord (f : ptr → Z) (V : list ptr) (h : nat) : Prop :=
  (∀ j, (0 < j < length V)%nat → j ≠ h → par j ≠ h → val f V (par j) ≤ val f V j) ∧
  (∀ j, (0 < h)%nat → (0 < j < length V)%nat → par j = h → val f V (par h) ≤ val f V j).

Lemma shift_up_uncond_spec s V h e : hole_ok s V h e → (0 < h)%nat → up_ord (tm (ents s)) V h →
  tm (ents s) e < val (tm (ents s)) V (par h) →
  ∃ s', min_heap_shift_up_unconditional_ s (Z.of_nat h) e = Ok s' ∧ seated s s' V.
Proof.
  intros Hh H0 Ho Hlt. unfold min_heap_shift_up_unconditional_.
  pose proof (hole_lt _ _ _ _ Hh) as Hl. pose proof (hole_small _ _ _ _ h Hh Hl) as Hsm.
  rewrite parent_Z by lia. pose proof (par_lt h H0) as Hp.
  destruct (lookup_lt_is_Some_2 V (par h)) as [q Hq]; [lia|].
  rewrite (val_eq _ _ _ _ Hq) in Hlt.
  rewrite (rd_hole s V h e (par h) q) by (done || lia). cbn [mbind res_bind].
  destruct (move_seated s V h (par h) e q) as (s1 & -> & Hh1 & Hs & _ & Hback); [done|lia|done|].
  cbn [mbind res_bind].
  destruct (shift_up_spec (S (Z.to_nat (Z.of_nat (par h)))) (par h) s1 (swap V h (par h) e q) e Hh1)
    as (s' & -> & Hst); [|lia|eauto].
  apply (up_ord_same _ _ _ _ Hs). apply up_ord_step; try done; apply Hh.
Qed.

Lemma reseat_spec s V h e : hole_ok s V h e → any_ord (tm (ents s)) V h →
  ∃ s', reseat s (Z.of_nat h) e = Ok s' ∧ seated s s' V.
Proof.
  intros Hh [H1 H2]. unfold reseat. pose proof (hole_e _ _ _ _ Hh) as He.
  pose proof (hole_lt _ _ _ _ Hh) as Hl. pose proof (hole_small _ _ _ _ h Hh Hl) as Hsm.
  pose proof (hole_len _ _ _ _ Hh) as Hlen.
  assert (Hdown : ((0 < h)%nat → val (tm (ents s)) V (par h) ≤ tm (ents s) e) →
    ∃ s', min_heap_shift_down_ (S (Z.to_nat (n s))) s (Z.of_nat h) e = Ok s' ∧ seated s s' V).
  { intros Hle. apply shift_down_spec; [done| |lia]. split; [|done]. intros j Hj Hpj.
    destruct (decide (j = h)) as [->|Hne]; [|by apply H1].
    rewrite (val_eq _ _ _ _ He). apply Hle. lia. }
  destruct (Z.ltb_spec 0 (Z.of_nat h)) as [H0|H0]; [|apply Hdown; lia].
  rewrite parent_Z by lia. pose proof (par_lt h ltac:(lia)) as Hp.
  destruct (lookup_lt_is_Some_2 V (par h)) as [q Hq]; [lia|].
  rewrite (rd_hole s V h e (par h) q) by (done || lia). cbn [mbind res_bind].
  rewrite greater_spec by (eauto using hole_ent_of, hole_ent). cbn [mbind res_bind].
  rewrite (val_eq _ _ _ _ Hq) in Hdown.
  destruct (Z.ltb_spec (tm (ents s) e) (tm (ents s) q)) as [Hg|Hg]; [|apply Hdown; lia].
  apply shift_up_uncond_spec; [done|lia| |by rewrite (val_eq _ _ _ _ Hq)].
  split; [|done]. intros j Hj Hne. destruct (decide (par j = h)) as [E|E]; [|by apply H1].
  rewrite E, (val_eq _ _ _ _ He). specialize (H2 j ltac:(lia) Hj E).
  rewrite (val_eq _ _ _ _ Hq) in H2. lia.
Qed.

Lemma reserve_spec realloc_ok junk s V k : heap_inv s V →
  (∃ s', min_heap_reserve_ realloc_ok junk s k = (0, s') ∧ heap_inv s' V ∧ n s' = n s ∧
     ents s' = ents s ∧ k ≤ a s') ∨
  (min_heap_reserve_ realloc_ok junk s k = (-1, s) ∧ a s < k).
Proof.
  intros [[Hl Hc Hnd He] Hm Hcap Ho]. unfold min_heap_reserve_.
  destruct (Z.ltb_spec (a s) k) as [Hlt|Hge].
  - set (a0 := if a s =? 0 then 8 else u32 (a s * 2)). set (a' := if a0 <? k then k else a0).
    assert (k ≤ a') by (unfold a'; case_cmp; lia).
    destruct (realloc_ok a'); [left|by right].
    eexists. split; [done|]. split_and!; try done. split; simpl; try done.
    + split; simpl; try done; [rewrite length_resize; lia|].
      intros i q Hq. destruct (He i q Hq) as [Hp Hi]. split; [|done].
      pose proof (lookup_lt_Some _ _ _ Hp). by rewrite lookup_resize by lia.
    + rewrite length_resize. lia.
  - left. exists s. by split_and!.
Qed.

Lemma heap_inv_seated s s' V : seated s s' V →
  n s ≤ max_n → Z.of_nat (length (p s)) = a s → ∃ V', V' ≡ₚ V ∧ heap_inv s' V' ∧ same_entries (ents s) (ents s').
Proof.
  intros (V' & Hst & HV & Ho & Hs & Hn & Ha & Hp) Hm Hc.
  exists V'. split_and!; try done. split; try done; congruence.
Qed.

(** ** The operations *)

Lemma push_spec realloc_ok junk s V e : heap_inv s V → n s < max_n → e ∉ V → is_Some (ents s !! e) →
  ∃ r s', min_heap_push_ realloc_ok junk s e = Ok (r, s') ∧
    ((r = 0 ∧ same_entries (ents s) (ents s') ∧ ∃ V', V' ≡ₚ e :: V ∧ heap_inv s' V') ∨
     (r = -1 ∧ s' = s ∧ a s < n s + 1)).
Proof.
  intros Hi Hn He Hen. unfold min_heap_push_.
  pose proof (st_len _ _ (hi_stored _ _ Hi)) as Hlen. unfold max_n in *.
  rewrite (u32_small (n s + 1)) by lia.
  destruct (reserve_spec realloc_ok junk s V (n s + 1) Hi) as [(s1 & -> & Hi1 & Hn1 & He1 & Ha1)|[-> Hlt]];
    cbn [Z.eqb]; [|by eauto 10].
  rewrite Hn1, u32_small by lia. destruct Hi1 as [[Hl Hc Hnd Hst] Hm Hcap Ho].
  set (s2 := set_n s1 (n s + 1)).
  assert (Hh : hole_ok s2 (V ++ [e]) (length V) e).
  { split; simpl; rewrite ?length_app; simpl; unfold max_n; try lia.
    - rewrite list_lookup_middle; done.
    - apply NoDup_app. split_and!; [done|set_solver|apply NoDup_singleton].
    - by rewrite He1.
    - intros i q Hne Hq. apply lookup_app_Some in Hq as [Hq|[Hge Hq]]; [by apply Hst|].
      apply list_lookup_singleton_Some in Hq as [? _]. lia. }
  destruct (shift_up_spec (S (Z.to_nat (n s))) (length V) s2 (V ++ [e]) e Hh) as (s' & Hok & Hseat).
  { assert (Hv : ∀ j, (j < length V)%nat → val (tm (ents s2)) (V ++ [e]) j = val (tm (ents s1)) V j).
    { intros j Hj. unfold val. by rewrite lookup_app_l. }
    split; rewrite length_app; simpl; intros j.
    - intros Hj Hne. pose proof (par_lt j ltac:(lia)). rewrite !Hv by lia. apply Ho. lia.
    - intros _ Hj Hpj. pose proof (par_lt j ltac:(lia)). lia. }
  { lia. }
  replace (Z.of_nat (length V)) with (n s) in Hok by lia. rewrite Hok. cbn [mbind res_bind].
  destruct (heap_inv_seated s2 s' (V ++ [e]) Hseat) as (V' & HV & Hi' & Hs');
    simpl; unfold max_n; try lia.
  exists 0, s'. split; [done|]. left. split; [done|]. split; [by rewrite <-He1|].
  exists V'. split; [|done]. rewrite HV. symmetry. apply Permutation_cons_append.
Qed.

Lemma take_last {A} (V : list A) (x : A) : V !! (length V - 1)%nat = Some x →
  V = take (length V - 1) V ++ [x].
Proof.
  intros Hx. pose proof (lookup_lt_Some _ _ _ Hx). rewrite <-(take_drop (length V - 1) V) at 1.
  f_equal. rewrite (drop_S V x) by done. f_equal. apply drop_ge. lia.
Qed.

(** Taking the entry of index [i] out: the last entry is seated in its place. *)
Lemma detach_hole s V i e last : heap_inv s V → V !! i = Some e →
  V !! (length V - 1)%nat = Some last → (i < length V - 1)%nat →
  let V1 := <[i := last]> (take (length V - 1) V) in
  let s1 := set_n s (n s - 1) in
  hole_ok s1 V1 i last ∧ e :: V1 ≡ₚ V ∧ any_ord (tm (ents s1)) V1 i.
Proof.
  intros [[Hl Hc Hnd Hst] Hm Hcap Ho] Hi Hlast Hlt V1 s1.
  pose proof (lookup_lt_Some _ _ _ Hlast) as Hlen.
  set (T := take (length V - 1) V) in *.
  assert (HT : length T = (length V - 1)%nat) by (unfold T; rewrite length_take; lia).
  assert (HVT : V = T ++ [last]).
  { by apply take_last. }
  assert (HTi : ∀ j, (j < length V - 1)%nat → T !! j = V !! j) by (intros; unfold T; by apply lookup_take_lt).
  assert (Hperm : e :: V1 ≡ₚ V).
  { unfold V1. rewrite (insert_Permutation T i last e) by by rewrite HTi.
    rewrite HVT. apply Permutation_cons_append. }
  assert (HV1 : ∀ j, j ≠ i → (j < length V - 1)%nat → V1 !! j = V !! j).
  { intros j Hne Hj. unfold V1. rewrite list_lookup_insert_ne by done. by apply HTi. }
  assert (HlV1 : length V1 = (length V - 1)%nat) by (unfold V1; by rewrite length_insert).
  split; [|split; [done|]].
  - split; simpl; rewrite ?HlV1; try lia.
    + unfold V1. apply list_lookup_insert_eq. lia.
    + assert (NoDup (e :: V1)) as Hnd' by by rewrite Hperm. by apply NoDup_cons in Hnd' as [_ ?].
    + destruct (Hst _ _ Hlast) as (_ & en & -> & _). eauto.
    + intros j q Hne Hq. pose proof (lookup_lt_Some _ _ _ Hq). rewrite HV1 in Hq by (done || lia).
      by apply Hst.
  - assert (Hv : ∀ j, j ≠ i → (j < length V - 1)%nat → val (tm (ents s1)) V1 j = val (tm (ents s)) V j).
    { intros j Hne Hj. unfold val. by rewrite HV1. }
    split; rewrite HlV1; intros j.
    + intros Hj Hne Hpj. pose proof (par_lt j ltac:(lia)). rewrite !Hv by lia. apply Ho. lia.
    + intros H0 Hj Hpj. pose proof (par_lt j ltac:(lia)). pose proof (par_lt i ltac:(lia)).
      rewrite !Hv by lia. pose proof (Ho i ltac:(lia)). pose proof (Ho j ltac:(lia)) as H3.
      rewrite Hpj in H3. lia.
Qed.

(** Changing entries outside the array keeps the heap. *)
Lemma heap_inv_ents s V h' : heap_inv s V → (∀ q, q ∈ V → h' !! q = ents s !! q) →
  heap_inv (set_ents s h') V.
Proof.
  intros [[Hl Hc Hnd Hst] Hm Hcap Ho] Hh. split; simpl; try done.
  - split; simpl; try done. intros i q Hq. rewrite Hh by by eapply list_elem_of_lookup_2.
    by apply Hst.
  - intros j Hj. assert (Hv : ∀ k, val (tm h') V k = val (tm (ents s)) V k).
    { intros k. unfold val. destruct (V !! k) eqn:E; [|done]. simpl. unfold tm.
      by rewrite Hh by by eapply list_elem_of_lookup_2. }
    rewrite !Hv. by apply Ho.
Qed.

Lemma set_idx_out s V e : heap_inv s V → e ∉ V → is_Some (ents s !! e) →
  ∃ s' en, set_idx s e NOIDX = Ok s' ∧ heap_inv s' V ∧ same_entries (ents s) (ents s') ∧
    n s' = n s ∧ ents s' !! e = Some en ∧ min_heap_idx en = NOIDX.
Proof.
  intros Hi He [en Hen]. unfold set_idx. rewrite Hen. cbn [mbind res_bind get_or].
  eexists _, _. split; [done|]. split_and!; simpl.
  - apply heap_inv_ents; [done|]. intros q Hq. rewrite lookup_insert_ne; set_solver.
  - by apply same_entries_idx.
  - done.
  - apply lookup_insert_eq.
  - done.
Qed.

(** The last entry put back where it is, just outside the shortened array. *)
Lemma reseat_last s V e : heap_inv s V → V !! (length V - 1)%nat = Some e →
  let s1 := set_n s (n s - 1) in
  ∃ s2, reseat s1 (Z.of_nat (length V - 1)) e = Ok s2 ∧
    heap_inv s2 (take (length V - 1) V) ∧ same_entries (ents s) (ents s2).
Proof.
  intros [[Hl Hc Hnd Hst] Hm Hcap Ho] He s1. pose proof (lookup_lt_Some _ _ _ He) as Hlen.
  set (i := (length V - 1)%nat) in *. unfold max_n in *.
  destruct (Hst i e He) as (Hpi & en & Hen & Hidx).
  assert (Hput : min_heap_shift_down_ (S (Z.to_nat (n s1))) s1 (Z.of_nat i) e = put s1 (Z.of_nat i) e).
  { cbn [min_heap_shift_down_]. rewrite (u32_small (Z.of_nat i + 1)), u32_small by lia.
    rewrite (proj2 (Z.leb_gt _ _)); [done|]. simpl. lia. }
  assert (Hre : reseat s1 (Z.of_nat i) e = put s1 (Z.of_nat i) e).
  { unfold reseat. destruct (Z.ltb_spec 0 (Z.of_nat i)) as [H0|H0]; [|done].
    rewrite parent_Z by lia. pose proof (par_lt i ltac:(lia)).
    destruct (lookup_lt_is_Some_2 V (par i)) as [q Hq]; [lia|].
    destruct (Hst _ _ Hq) as (Hpq & enq & Henq & _).
    unfold rd. rewrite Nat2Z.id. simpl p. rewrite Hpq. cbn [mbind res_bind get_or].
    rewrite greater_spec by (simpl; eauto). cbn [mbind res_bind]. simpl ents.
    pose proof (Ho i ltac:(lia)) as Hle. rewrite (val_eq _ _ _ _ Hq), (val_eq _ _ _ _ He) in Hle.
    rewrite (proj2 (Z.ltb_ge _ _)) by lia. done. }
  rewrite Hre, (put_spec s1 i e en) by (done || simpl; lia). eexists. split; [done|].
  simpl. rewrite list_insert_id by done.
  replace (<[e := with_idx en (Z.of_nat i)]> (ents s)) with (ents s).
  2: { symmetry. apply insert_id. rewrite Hen, <-Hidx. by destruct en. }
  split; [|done]. assert (HT : length (take i V) = i) by (rewrite length_take; lia).
  split; simpl; unfold max_n; try lia; try done.
  - split; simpl; rewrite ?HT; try lia.
    + rewrite <-(take_drop i V) in Hnd. by apply NoDup_app in Hnd as [? _].
    + intros j q Hq. apply Hst. rewrite lookup_take_lt in Hq; [done|].
      apply lookup_lt_Some in Hq. lia.
  - intros j. rewrite HT. intros Hj. pose proof (par_lt j ltac:(lia)).
    unfold val. rewrite !lookup_take_lt by lia. apply Ho. lia.
Qed.

(** Taking any entry out. *)
Lemma detach_spec s V i e : heap_inv s V → V !! i = Some e →
  let s1 := set_n s (n s - 1) in
  ∃ last s2 s3 en V', rd s1 (n s1) = Ok last ∧ reseat s1 (Z.of_nat i) last = Ok s2 ∧
    set_idx s2 e NOIDX = Ok s3 ∧ e :: V' ≡ₚ V ∧ heap_inv s3 V' ∧
    same_entries (ents s) (ents s3) ∧ ents s3 !! e = Some en ∧ min_heap_idx en = NOIDX.
Proof.
  intros Hi He s1. pose proof Hi as [[Hl Hc Hnd Hst] Hm Hcap Ho].
  pose proof (lookup_lt_Some _ _ _ He) as Hlen.
  destruct (lookup_lt_is_Some_2 V (length V - 1)) as [last Hlast]; [lia|].
  destruct (Hst _ _ He) as (_ & en & Hen & _).
  assert (Hrd : rd s1 (n s1) = Ok last).
  { unfold rd, s1. simpl. replace (Z.to_nat (n s - 1)) with (length V - 1)%nat by lia.
    by destruct (Hst _ _ Hlast) as [-> _]. }
  assert (∃ s2 V', reseat s1 (Z.of_nat i) last = Ok s2 ∧ e :: V' ≡ₚ V ∧ heap_inv s2 V' ∧
            same_entries (ents s) (ents s2)) as (s2 & V' & Hok & Hperm & Hi2 & Hs2).
  { destruct (decide (i = (length V - 1)%nat)) as [->|Hne].
    - assert (last = e) as -> by congruence.
      destruct (reseat_last s V e Hi Hlast) as (s2 & Hok & Hi2 & Hs2).
      exists s2, (take (length V - 1) V). split_and!; try done.
      etrans; [apply Permutation_cons_append|]. by rewrite <-take_last.
    - destruct (detach_hole s V i e last Hi He Hlast ltac:(lia)) as (Hh & Hperm & Ho1).
      destruct (reseat_spec _ _ _ _ Hh Ho1) as (s2 & Hok & Hseat).
      destruct (heap_inv_seated _ _ _ Hseat) as (V' & HV & Hi2 & Hs2); simpl; try lia.
      exists s2, V'. split_and!; try done. by rewrite HV. }
  assert (Hne : e ∉ V').
  { assert (NoDup (e :: V')) as Hnd' by by rewrite Hperm. by apply NoDup_cons in Hnd' as [? _]. }
  destruct (set_idx_out s2 V' e Hi2 Hne) as (s3 & en' & Hok3 & Hi3 & Hs3 & _ & He3 & Hn3).
  { apply (same_entries_is_Some _ _ _ Hs2). eauto. }
  exists last, s2, s3, en', V'. split_and!; try done. by etrans.
Qed.

Lemma top_empty s V : heap_inv s V → n s = 0 → V = [] ∧ min_heap_top_ s = Ok None.
Proof.
  intros Hi Hn. pose proof (st_len _ _ (hi_stored _ _ Hi)). split.
  - destruct V; [done|]. simpl in *. lia.
  - unfold min_heap_top_. by rewrite Hn.
Qed.

(** The entry on top is a least one. *)
Lemma top_spec s V : heap_inv s V → n s ≠ 0 →
  ∃ e, min_heap_top_ s = Ok (Some e) ∧ rd s 0 = Ok e ∧ V !! 0%nat = Some e ∧ is_Some (ents s !! e) ∧
    ∀ q, q ∈ V → tm (ents s) e ≤ tm (ents s) q.
Proof.
  intros [[Hl Hc Hnd Hst] Hm Hcap Ho] Hn.
  destruct (lookup_lt_is_Some_2 V 0) as [e He]; [lia|]. exists e.
  destruct (Hst _ _ He) as (Hp & en & Hen & _).
  assert (Hrd : rd s 0 = Ok e) by (unfold rd; change (Z.to_nat 0) with 0%nat; by rewrite Hp).
  split_and!; try done.
  - unfold min_heap_top_. rewrite (proj2 (Z.eqb_neq _ _) Hn), Hrd. done.
  - intros q [j Hj]%list_elem_of_lookup. pose proof (lookup_lt_Some _ _ _ Hj).
    rewrite <-(val_eq (tm (ents s)) _ _ _ He), <-(val_eq (tm (ents s)) _ _ _ Hj).
    by apply heap_ord_min.
Qed.

(** Seating at the root never shifts up. *)
Lemma reseat_root s x : reseat s (Z.of_nat 0) x = min_heap_shift_down_ (S (Z.to_nat (n s))) s 0 x.
Proof. done. Qed.

Lemma pop_spec s V e : heap_inv s V → V !! 0%nat = Some e → ∃ s' en V',
  min_heap_pop_ s = Ok (Some e, s') ∧ e :: V' ≡ₚ V ∧ heap_inv s' V' ∧
  same_entries (ents s) (ents s') ∧ ents s' !! e = Some en ∧ min_heap_idx en = NOIDX.
Proof.
  intros Hi He. pose proof (st_len _ _ (hi_stored _ _ Hi)) as Hl.
  pose proof (lookup_lt_Some _ _ _ He).
  destruct (top_spec s V Hi ltac:(lia)) as (e' & _ & Hrd & He' & _). simplify_eq.
  destruct (detach_spec s V 0 e Hi He) as (last & s2 & s3 & en & V' & Hlast & Hre & Hset & Hrest).
  exists s3, en, V'. split; [|done]. unfold min_heap_pop_.
  rewrite (proj2 (Z.eqb_neq _ _)) by lia. rewrite Hrd. cbn [mbind res_bind].
  rewrite Hlast. cbn [mbind res_bind].
  rewrite reseat_root in Hre. rewrite Hre. cbn [mbind res_bind]. by rewrite Hset.
Qed.

Lemma erase_spec s V e : heap_inv s V → e ∈ V → ∃ s' en V',
  min_heap_erase_ s e = Ok (0, s') ∧ e :: V' ≡ₚ V ∧ heap_inv s' V' ∧
  same_entries (ents s) (ents s') ∧ ents s' !! e = Some en ∧ min_heap_idx en = NOIDX.
Proof.
  intros Hi [i He]%list_elem_of_lookup. pose proof (st_len _ _ (hi_stored _ _ Hi)) as Hl.
  pose proof (hi_max _ _ Hi) as Hm. unfold max_n in Hm.
  pose proof (lookup_lt_Some _ _ _ He).
  destruct (st_ent _ _ (hi_stored _ _ Hi) _ _ He) as (_ & en & Hen & Hidx).
  destruct (detach_spec s V i e Hi He) as (last & s2 & s3 & en' & V' & Hlast & Hre & Hset & Hrest).
  exists s3, en', V'. split; [|done]. unfold min_heap_erase_, get_ent.
  rewrite Hen. cbn [mbind res_bind get_or]. rewrite Hidx, (proj2 (Z.eqb_neq _ _)) by (unfold NOIDX; lia).
  rewrite u32_small by lia. rewrite Hlast. cbn [mbind res_bind].
  rewrite Hre. cbn [mbind res_bind]. by rewrite Hset.
Qed.

(** Popping leaves the state that erasing the top leaves. *)
Lemma pop_erase s V e s' : heap_inv s V → V !! 0%nat = Some e → min_heap_pop_ s = Ok (Some e, s') →
  min_heap_erase_ s e = Ok (0, s').
Proof.
  intros Hi He Hpop. pose proof (st_len _ _ (hi_stored _ _ Hi)) as Hl.
  pose proof (hi_max _ _ Hi) as Hm. unfold max_n in Hm. pose proof (lookup_lt_Some _ _ _ He) as Hlt.
  destruct (st_ent _ _ (hi_stored _ _ Hi) _ _ He) as (_ & en & Hen & Hidx).
  destruct (top_spec s V Hi ltac:(lia)) as (e' & _ & Hrd & He' & _). simplify_eq.
  unfold min_heap_pop_ in Hpop. rewrite (proj2 (Z.eqb_neq _ _)), Hrd, ok_bind in Hpop by lia. cbv zeta in Hpop.
  unfold min_heap_erase_, get_ent. rewrite Hen. cbn [get_or]. rewrite ok_bind, Hidx.
  rewrite (proj2 (Z.eqb_neq _ _)) by (unfold NOIDX; lia). rewrite u32_small by lia.
  cbv zeta. destruct (rd (set_n s (n s - 1)) (n (set_n s (n s - 1)))) as [x|]; [|done]. cbn [mbind res_bind] in Hpop |- *.
  rewrite reseat_root. destruct (min_heap_shift_down_ _ _ _ _) as [s1|]; [|done]. cbn [mbind res_bind] in Hpop |- *.
  destruct (set_idx s1 e NOIDX) as [s2|]; [|done]. cbn [mbind res_bind] in Hpop |- *. by injection Hpop as <-.
Qed.

(** The time of [e] becomes [t]. *)
Definition set_time (s : min_heap_t) (e : ptr) (t : Z) : min_heap_t :=
  set_ents s (alter (λ en, Entry t (min_heap_idx en) (handler en) (privdata en)) e (ents s)).

(** After a change of the time of an entry in the heap, the order holds but around it. *)
Lemma set_time_hole s V i e t : heap_inv s V → V !! i = Some e →
  hole_ok (set_time s e t) V i e ∧ any_ord (tm (ents (set_time s e t))) V i.
Proof.
  intros [[Hl Hc Hnd Hst] Hm Hcap Ho] He. pose proof (lookup_lt_Some _ _ _ He).
  destruct (Hst _ _ He) as (_ & en & Hen & _).
  assert (Hne : ∀ j q, V !! j = Some q → j ≠ i → q ≠ e)
    by (intros j q Hq Hj ->; by apply Hj, (NoDup_lookup V j i e)).
  split.
  - split; simpl; try done.
    + rewrite lookup_alter_eq, Hen. eauto.
    + intros j q Hj Hq. rewrite lookup_alter_ne by (intros <-; by apply (Hne j e)). by apply Hst.
  - set (f := tm _). assert (Hv : ∀ j, j ≠ i → val f V j = val (tm (ents s)) V j).
    { intros j Hj. unfold val. destruct (V !! j) as [q|] eqn:Hq; [|done]. simpl. unfold f, tm. simpl.
      by rewrite lookup_alter_ne by (intros <-; by apply (Hne j e)). }
    split; intros j.
    + intros Hj Hji Hpj. rewrite !Hv by done. by apply Ho.
    + intros H0 Hj Hpj. pose proof (par_lt i H0). pose proof (par_lt j ltac:(lia)).
      rewrite !Hv by lia. pose proof (Ho i ltac:(lia)). pose proof (Ho j Hj) as Hoj.
      rewrite Hpj in Hoj. lia.
Qed.

Lemma adjust_spec realloc_ok junk s V e t : heap_inv s V → e ∈ V → ∃ s' V',
  min_heap_adjust_ realloc_ok junk (set_time s e t) e = Ok (0, s') ∧ V' ≡ₚ V ∧ heap_inv s' V' ∧
  same_entries (ents (set_time s e t)) (ents s').
Proof.
  intros Hi [i He]%list_elem_of_lookup. pose proof (st_len _ _ (hi_stored _ _ Hi)) as Hl.
  pose proof (hi_max _ _ Hi) as Hm. pose proof (lookup_lt_Some _ _ _ He).
  destruct (st_ent _ _ (hi_stored _ _ Hi) _ _ He) as (_ & en & Hen & Hidx).
  destruct (set_time_hole s V i e t Hi He) as [Hh Ho].
  destruct (reseat_spec _ _ _ _ Hh Ho) as (s' & Hok & Hseat).
  destruct (heap_inv_seated _ _ _ Hseat) as (V' & HV & Hi' & Hs'); [done|apply Hi|].
  exists s', V'. split; [|done]. unfold min_heap_adjust_, get_ent. simpl ents.
  rewrite lookup_alter_eq, Hen. cbn [mbind res_bind get_or fmap option_fmap option_map min_heap_idx].
  unfold max_n in *. rewrite Hidx, (proj2 (Z.eqb_neq _ _)) by (unfold NOIDX; lia). by rewrite Hok.
Qed.

Lemma heap_inv_delete s V e : heap_inv s V → e ∉ V → heap_inv (set_ents s (delete e (ents s))) V.
Proof.
  intros Hi He. apply heap_inv_ents; [done|]. intros q Hq. by rewrite lookup_delete_ne by (intros ->; done).
Qed.

(** What the expiry loop does, from any heap. *)
Lemma expire_run fuel cur : ∀ s V, heap_inv s V → (length V < fuel)%nat →
  ∃ s' evs V', expire_timer fuel s cur = Ok (s', evs) ∧ heap_inv s' V' ∧ evs.*1 ++ V' ≡ₚ V ∧
    Forall (λ ev, tm (ents s) ev.1 = etime ev.2 ∧ etime ev.2 ≤ cur ∧ ents s' !! ev.1 = None) evs ∧
    Sorted (λ x y, etime x.2 ≤ etime y.2) evs ∧
    (∀ q, q ∈ V' → cur < tm (ents s) q) ∧
    (∀ q, q ∉ V → ents s !! q = None → ents s' !! q = None) ∧
    (∀ q, q ∉ evs.*1 → tm (ents s') q = tm (ents s) q).
Proof.
  induction fuel as [|fuel IH]; intros s V Hi Hf; [lia|]. cbn [expire_timer].
  destruct (decide (n s = 0)) as [Hn|Hn].
  { destruct (top_empty s V Hi Hn) as [-> ->]. exists s, [], []. split_and!; try done; set_solver. }
  destruct (top_spec s V Hi Hn) as (e & -> & _ & He & [en Hen] & Hmin).
  cbn [mbind res_bind]. unfold get_ent. rewrite Hen. cbn [mbind res_bind get_or].
  assert (Ht : tm (ents s) e = etime en) by (unfold tm; by rewrite Hen).
  destruct (Z.ltb_spec cur (etime en)) as [Hlt|Hge].
  { exists s, [], V. split_and!; try done.
    intros q Hq. specialize (Hmin q Hq). lia. }
  destruct (pop_spec s V e Hi He) as (s1 & en1 & V1 & -> & HV1 & Hi1 & Hs1 & Hen1 & _).
  cbn [mbind res_bind].
  assert (Hnd : NoDup (e :: V1)) by (rewrite HV1; apply (hi_stored _ _ Hi)).
  apply NoDup_cons in Hnd as [He1 Hnd1].
  destruct (IH (set_ents s1 (delete e (ents s1))) V1) as
    (s' & evs & V' & -> & Hi' & Hperm & Hevs & Hsort & Hrest & Hfree & Htm).
  { by apply heap_inv_delete. }
  { apply Permutation_length in HV1. simpl in HV1. lia. }
  cbn [mbind res_bind]. simpl ents in *.
  assert (Hd : ∀ q, q ≠ e → tm (delete e (ents s1)) q = tm (ents s) q).
  { intros q Hq. rewrite <-(same_entries_tm (ents s) (ents s1)) by done. unfold tm.
    by rewrite lookup_delete_ne. }
  assert (Hin : ∀ q, q ∈ evs.*1 ∨ q ∈ V' → q ∈ V1 ∧ q ≠ e).
  { intros q Hq. assert (q ∈ V1) by (rewrite <-Hperm; apply elem_of_app; done). split; [done|].
    intros ->. done. }
  assert (Hev1 : ∀ ev, ev ∈ evs → ev.1 ∈ V1 ∧ ev.1 ≠ e).
  { intros ev Hev. apply Hin. left. apply list_elem_of_fmap. eauto. }
  exists s', ((e, en) :: evs), V'. split_and!; try done.
  - simpl. by rewrite Hperm.
  - constructor; simpl; [split_and!; [done|done|]|].
    + apply Hfree; [done|]. apply lookup_delete_eq.
    + rewrite Forall_forall in Hevs |- *. intros ev Hev. destruct (Hevs ev Hev) as (E1 & E2 & E3).
      split_and!; [|done|done]. rewrite <-E1. symmetry. apply Hd, Hev1, Hev.
  - constructor; [done|]. destruct evs as [|ev evs]; constructor. simpl.
    apply Forall_cons in Hevs as [(E1 & _ & _) _]. destruct (Hev1 ev ltac:(left)) as [Hin1 Hne].
    rewrite <-E1, (Hd _ Hne), <-Ht. apply Hmin. rewrite <-HV1. by right.
  - intros q Hq. rewrite <-Hd by (apply Hin; by right). by apply Hrest.
  - intros q Hq HN. apply Hfree; [intros Hq1; apply Hq; rewrite <-HV1; by right|].
    rewrite lookup_delete_None. right. specialize (Hs1 q). rewrite HN in Hs1.
    by destruct (ents s1 !! q).
  - simpl. intros q Hq. rewrite Htm by set_solver. apply Hd. set_solver.
Qed.

(** ** Properties *)

(** pushing an allocated entry that is not in the heap either stores it with
    everything that was there, in heap order with each entry's index right, or,
    when [realloc] refuses, reports -1 and changes nothing. *)
Theorem push_correct realloc_ok junk s V e : heap_inv s V → n s < max_n → e ∉ V →
  is_Some (ents s !! e) →
  ∃ r s', min_heap_push_ realloc_ok junk s e = Ok (r, s') ∧
    ((r = 0 ∧ same_entries (ents s) (ents s') ∧ ∃ V', V' ≡ₚ e :: V ∧ heap_inv s' V') ∨
     (r = -1 ∧ s' = s ∧ a s < n s + 1)).
Proof. apply push_spec. Qed.

(** C11: removing any entry of the heap through its own index removes exactly that
    entry, marks it as being in no heap, and leaves the others in heap order with
    right indices; the top is always a least entry, and popping returns it and leaves
    the heap that erasing it leaves, the mark included. *)
Theorem erase_pop_correct s V e : heap_inv s V → e ∈ V →
  (∃ s' en V', min_heap_erase_ s e = Ok (0, s') ∧ e :: V' ≡ₚ V ∧ heap_inv s' V' ∧
     same_entries (ents s) (ents s') ∧ ents s' !! e = Some en ∧ min_heap_idx en = NOIDX ∧
     min_heap_erase_ s' e = Ok (-1, s')) ∧
  (∃ top s' V', min_heap_top_ s = Ok (Some top) ∧ (∀ q, q ∈ V → tm (ents s) top ≤ tm (ents s) q) ∧
     min_heap_pop_ s = Ok (Some top, s') ∧ min_heap_erase_ s top = Ok (0, s') ∧ top :: V' ≡ₚ V ∧ heap_inv s' V' ∧
     same_entries (ents s) (ents s') ∧ min_heap_idx <$> ents s' !! top = Some NOIDX).
Proof.
  intros Hi He. split.
  - destruct (erase_spec s V e Hi He) as (s' & en & V' & Hok & HV & Hi' & Hs & Hen & Hidx).
    exists s', en, V'. split_and!; try done. unfold min_heap_erase_, get_ent.
    rewrite Hen. cbn [mbind res_bind get_or]. by rewrite Hidx.
  - pose proof (st_len _ _ (hi_stored _ _ Hi)) as Hl.
    assert (Hn : n s ≠ 0) by (destruct V; simpl in *; [by apply elem_of_nil in He|lia]).
    destruct (top_spec s V Hi Hn) as (top & Htop & _ & HV0 & _ & Hmin).
    destruct (pop_spec s V top Hi HV0) as (s' & en & V' & Hok & HV & Hi' & Hs & Hen & Hidx).
    exists top, s', V'. split_and!; try done; [by rewrite <-(pop_erase s V top)|by rewrite Hen, <-Hidx].
Qed.

(** after the time of an entry of the heap is changed to anything,
    [min_heap_adjust_] restores the heap order and loses nothing. *)
Theorem adjust_correct realloc_ok junk s V e t : heap_inv s V → e ∈ V → ∃ s' V',
  min_heap_adjust_ realloc_ok junk (set_time s e t) e = Ok (0, s') ∧ V' ≡ₚ V ∧ heap_inv s' V' ∧
  same_entries (ents (set_time s e t)) (ents s').
Proof. apply adjust_spec. Qed.

(** the expiry loop calls exactly the timers whose expiry (as the 32-bit number
    stored) is at most the clock's, in the order of their expiry, frees them, and
    leaves the others in the heap; it terminates within the heap's size. *)
Theorem expire_timer_correct s V cur : heap_inv s V →
  ∃ s' evs V', expire_timer (S (length V)) s cur = Ok (s', evs) ∧ heap_inv s' V' ∧
    evs.*1 ++ V' ≡ₚ V ∧
    Forall (λ ev, tm (ents s) ev.1 = etime ev.2 ∧ etime ev.2 ≤ cur ∧ ents s' !! ev.1 = None) evs ∧
    Sorted (λ x y, etime x.2 ≤ etime y.2) evs ∧
    (∀ q, q ∈ V' → cur < tm (ents s') q).
Proof.
  intros Hi. destruct (expire_run (S (length V)) cur s V Hi ltac:(lia)) as
    (s' & evs & V' & Hok & Hi' & HV & Hevs & Hsort & Hrest & _ & Htm).
  exists s', evs, V'. split_and!; try done. intros q Hq. rewrite Htm; [by apply Hrest|].
  intros Hin. assert (NoDup (evs.*1 ++ V')) as Hnd by (rewrite HV; apply (hi_stored _ _ Hi)).
  apply NoDup_app in Hnd as (_ & Hd & _). by apply (Hd q).
Qed.

(** ** A heap of three timers *)

Definition ex_ents : gmap ptr timer_entry :=
  list_to_map [(1%positive, Entry 10 0 1 0); (2%positive, Entry 30 1 2 0); (3%positive, Entry 20 2 3 0)].
Definition ex_heap : min_heap_t := MinHeapT [1; 2; 3]%positive 3 3 ex_ents.

Lemma ex_heap_inv : heap_inv ex_heap [1; 2; 3]%positive.
Proof.
  split; [split|..]; try done.
  - by apply (bool_decide_eq_true_1 (NoDup _)); vm_compute.
  - intros [|[|[|i]]] q Hq; simplify_eq/=; (split; [done|]); eexists; (split; [reflexivity|done]).
  - intros [|[|[|j]]] Hj; simpl in Hj; try lia; by vm_compute.
Qed.

(** With a fourth entry allocated. *)
Definition ex_heap4 : min_heap_t := set_ents ex_heap (<[4%positive := Entry 5 0 4 0]> ex_ents).

Example push_correct_witness : ∃ r s',
  min_heap_push_ (λ _, true) 1%positive ex_heap4 4%positive = Ok (r, s') ∧
    ((r = 0 ∧ same_entries (ents ex_heap4) (ents s') ∧
      ∃ V', V' ≡ₚ [4; 1; 2; 3]%positive ∧ heap_inv s' V') ∨
     (r = -1 ∧ s' = ex_heap4 ∧ a ex_heap4 < n ex_heap4 + 1)).
Proof.
  apply push_correct.
  - apply heap_inv_ents; [exact ex_heap_inv|]. intros q Hq. rewrite lookup_insert_ne; [done|].
    intros <-. by apply (bool_decide_eq_true_2 _) in Hq.
  - by vm_compute.
  - intros Hq. by apply (bool_decide_eq_true_2 _) in Hq.
  - by eexists.
Defined.

Example erase_pop_correct_witness :
  (∃ s' en V', min_heap_erase_ ex_heap 2%positive = Ok (0, s') ∧ 2%positive :: V' ≡ₚ [1; 2; 3]%positive ∧
     heap_inv s' V' ∧ same_entries ex_ents (ents s') ∧ ents s' !! 2%positive = Some en ∧
     min_heap_idx en = NOIDX ∧ min_heap_erase_ s' 2%positive = Ok (-1, s')) ∧
  (∃ top s' V', min_heap_top_ ex_heap = Ok (Some top) ∧
     (∀ q, q ∈ [1; 2; 3]%positive → tm ex_ents top ≤ tm ex_ents q) ∧
     min_heap_pop_ ex_heap = Ok (Some top, s') ∧ min_heap_erase_ ex_heap top = Ok (0, s') ∧
     top :: V' ≡ₚ [1; 2; 3]%positive ∧ heap_inv s' V' ∧
     same_entries ex_ents (ents s') ∧ min_heap_idx <$> ents s' !! top = Some NOIDX).
Proof. apply (erase_pop_correct ex_heap); [exact ex_heap_inv|right; left]. Defined.

Example adjust_correct_witness : ∃ s' V',
  min_heap_adjust_ (λ _, false) 1%positive (set_time ex_heap 1%positive 99) 1%positive = Ok (0, s') ∧
  V' ≡ₚ [1; 2; 3]%positive ∧ heap_inv s' V' ∧
  same_entries (ents (set_time ex_heap 1%positive 99)) (ents s').
Proof. apply adjust_correct; [exact ex_heap_inv|left]. Defined.

Example expire_timer_correct_witness :
  ∃ s' evs V', expire_timer 4 ex_heap 20 = Ok (s', evs) ∧ heap_inv s' V' ∧
    evs.*1 ++ V' ≡ₚ [1; 2; 3]%positive ∧
    Forall (λ ev, tm ex_ents ev.1 = etime ev.2 ∧ etime ev.2 ≤ 20 ∧ ents s' !! ev.1 = None) evs ∧
    Sorted (λ x y, etime x.2 ≤ etime y.2) evs ∧
    (∀ q, q ∈ V' → 20 < tm (ents s') q).
Proof. apply (expire_timer_correct ex_heap [1; 2; 3]%positive 20 ex_heap_inv). Defined.

(** A timer asked for 10 ms when the 32-bit clock is about to wrap is stored with a
    small expiry and so called by the next [expire_timer], at once. *)
Example add_timer_wraps :
  match add_timer (λ _, true) 1%positive (min_heap_ctor_ ∅) (Some 1%positive) (2 ^ 32 - 4) 10 7 with
  | Ok (_, s) => match expire_timer 2 s (2 ^ 32 - 4) with
                 | Ok (_, evs) => map (λ ev, handler ev.2) evs = [7%nat]
                 | Err _ => False end
  | Err _ => False
  end.
Proof. by vm_compute. Qed.

End MinHeap.
