(* ===== verification/MemPool.v ===== *)
(** * The memory pool of 6.2mem_pool/mmpool.c

    The heap is described by the blocks [posix_memalign] and [malloc] have given
    and [free] has not taken back (start address and size), and by the pool's
    records stored in them: block headers ([mp_node_s]), large-block headers
    ([mp_large_s]) and the pool itself.  Addresses are integers, sizes the
    64-bit [size_t] and [sizeof] that of an LP64 machine.  The two allocators
    are parameters. *)

From S2P Require Import Prelude.

Module MemPool.

(** ** Data *)

(* src: 6.2mem_pool/mmpool.c:13-15 MP_ALIGNMENT *)
Definition MP_ALIGNMENT : Z := 32.
Definition MP_PAGE_SIZE : Z := 4096.
Definition MP_MAX_ALLOC_FROM_POOL : Z := MP_PAGE_SIZE - 1.

(* src: 6.2mem_pool/mmpool.c:18-18 mp_align_ptr *)
Definition mp_align_ptr (p alignment : Z) : Z :=
  Z.land (u64 (p + (alignment - 1))) (Z.lnot (alignment - 1)).

(* src: 6.2mem_pool/mmpool.c:24-27 mp_large_s *)
Record mp_large_s : Type := Large { lnext : Z; lalloc : Z }.

(* src: 6.2mem_pool/mmpool.c:29-36 mp_node_s *)
Record mp_node_s : Type := Node { last : Z; end_ : Z; next : Z; failed : Z }.

(* src: 6.2mem_pool/mmpool.c:38-47 mp_pool_s *)
Record mp_pool_s : Type := Pool { max : Z; current : Z; large : Z }.

Definition sizeof_pool : Z := 24.
Definition sizeof_node : Z := 32.
Definition sizeof_large : Z := 16.

(** The heap with the pool at address [self]. *)
Record mem : Type := Mem {
  blocks : gmap Z Z;
  nodes : gmap Z mp_node_s;
  larges : gmap Z mp_large_s;
  self : Z;
  pool : mp_pool_s
}.

Definition head (st : mem) : Z := self st + sizeof_pool.

Definition set_blocks st b := Mem b (nodes st) (larges st) (self st) (pool st).
Definition set_nodes st ns := Mem (blocks st) ns (larges st) (self st) (pool st).
Definition set_larges st ls := Mem (blocks st) (nodes st) ls (self st) (pool st).
Definition set_pool st p := Mem (blocks st) (nodes st) (larges st) (self st) p.
Definition set_current st c := set_pool st (Pool (max (pool st)) c (large (pool st))).
Definition set_large st l := set_pool st (Pool (max (pool st)) (current (pool st)) l).

Definition node (st : mem) (p : Z) : res mp_node_s := get_or UseAfterFree (nodes st !! p).
Definition large_at (st : mem) (l : Z) : res mp_large_s := get_or UseAfterFree (larges st !! l).

(** [free(a)]: nothing on null, a fault on what is not an allocated block. *)
Definition free (b : gmap Z Z) (a : Z) : res (gmap Z Z) :=
  if a =? 0 then Ok b else _ ← get_or UseAfterFree (b !! a); Ok (delete a b).

Section pool.
(** [alloc b alignment size] is the address the C library's allocators return in
    the heap [b], or none. *)
Context (alloc : gmap Z Z → Z → Z → option Z).

(** ** Operations *)

(** [junk] is what the fresh memory holds at [head->next], which is not set. *)
(* src: 6.2mem_pool/mmpool.c:58-77 mp_create_pool *)
Definition mp_create_pool (b : gmap Z Z) (junk : Z) (size : Z) : option mem :=
  let total := u64 (u64 (size + sizeof_pool) + sizeof_node) in
  match alloc b MP_ALIGNMENT total with
  | None => None
  | Some p =>
      let mx := if size <? MP_MAX_ALLOC_FROM_POOL then size else MP_MAX_ALLOC_FROM_POOL in
      let h := p + sizeof_pool in
      let la := p + sizeof_pool + sizeof_node in
      Some (Mem (<[p := total]> b) {[ h := Node la (la + size) junk 0 ]} ∅ p (Pool mx h 0))
  end.

(** The loop freeing the [alloc] of every large header. *)
Fixpoint free_larges (fuel : nat) (st : mem) (l : Z) : res mem :=
  match fuel with
  | O => Err OutOfFuel
  | S fuel =>
      if l =? 0 then Ok st
      else
        lg ← large_at st l;
        b ← (if lalloc lg =? 0 then Ok (blocks st) else free (blocks st) (lalloc lg));
        free_larges fuel (set_blocks st b) (lnext lg)
  end.

Fixpoint free_nodes (fuel : nat) (st : mem) (h : Z) : res mem :=
  match fuel with
  | O => Err OutOfFuel
  | S fuel =>
      if h =? 0 then Ok st
      else
        nd ← node st h;
        b ← free (blocks st) h;
        free_nodes fuel (Mem b (delete h (nodes st)) (larges st) (self st) (pool st)) (next nd)
  end.

(** Fuel for every list of the heap. *)
Definition list_fuel (st : mem) : nat := S (size (nodes st) + size (larges st)).

(* src: 6.2mem_pool/mmpool.c:79-100 mp_destory_pool *)
Definition mp_destory_pool (st : mem) : res (gmap Z Z) :=
  st ← free_larges (list_fuel st) st (large (pool st));
  hd ← node st (head st);
  st ← free_nodes (list_fuel st) st (next hd);
  free (blocks st) (self st).

Fixpoint reset_nodes (fuel : nat) (st : mem) (h : Z) : res mem :=
  match fuel with
  | O => Err OutOfFuel
  | S fuel =>
      if h =? 0 then Ok st
      else
        nd ← node st h;
        reset_nodes fuel (set_nodes st (<[h := Node (h + sizeof_node) (end_ nd) (next nd) (failed nd)]> (nodes st)))
          (next nd)
  end.

(* src: 6.2mem_pool/mmpool.c:102-119 mp_reset_pool *)
Definition mp_reset_pool (st : mem) : res mem :=
  st ← free_larges (list_fuel st) st (large (pool st));
  let st := set_large st 0 in
  reset_nodes (list_fuel st) st (head st).

(** [for (p = current; p->next; p = p->next) if (p->failed++ > 4) current = p->next;] *)
Fixpoint last_node (fuel : nat) (ns : gmap Z mp_node_s) (p cur : Z) : res (gmap Z mp_node_s * Z * Z) :=
  match fuel with
  | O => Err OutOfFuel
  | S fuel =>
      nd ← get_or UseAfterFree (ns !! p);
      if next nd =? 0 then Ok (ns, p, cur)
      else last_node fuel (<[p := Node (last nd) (end_ nd) (next nd) (u64 (failed nd + 1))]> ns) (next nd)
             (if 4 <? failed nd then next nd else cur)
  end.

(* src: 6.2mem_pool/mmpool.c:121-154 mp_alloc_block *)
Definition mp_alloc_block (st : mem) (size : Z) : res (option Z * mem) :=
  h ← node st (head st);
  let psize := u64 (end_ h - head st) in
  match alloc (blocks st) MP_ALIGNMENT psize with
  | None => Ok (None, st)
  | Some new_node =>
      let st := set_blocks st (<[new_node := psize]> (blocks st)) in
      let m := mp_align_ptr (new_node + sizeof_node) MP_ALIGNMENT in
      let ns := <[new_node := Node (m + size) (new_node + psize) 0 0]> (nodes st) in
      '(ns, p, cur) ← last_node (list_fuel st) ns (current (pool st)) (current (pool st));
      pn ← get_or UseAfterFree (ns !! p);
      let ns := <[p := Node (last pn) (end_ pn) new_node (failed pn)]> ns in
      Ok (Some m, set_current (set_nodes st ns) (if cur =? 0 then new_node else cur))
  end.

(** The [do] loop of [mp_alloc] and [mp_nalloc], which differ in [align]. *)
Fixpoint alloc_from (align : Z → Z) (fuel : nat) (st : mem) (p size : Z) : res (option Z * mem) :=
  match fuel with
  | O => Err OutOfFuel
  | S fuel =>
      nd ← node st p;
      let m := align (last nd) in
      if size <=? u64 (end_ nd - m) then
        Ok (Some m, set_nodes st (<[p := Node (m + size) (end_ nd) (next nd) (failed nd)]> (nodes st)))
      else if next nd =? 0 then Ok (None, st)
      else alloc_from align fuel st (next nd) size
  end.

Definition alloc_small (align : Z → Z) (st : mem) (size : Z) : res (option Z * mem) :=
  '(r, st) ← alloc_from align (list_fuel st) st (current (pool st)) size;
  match r with
  | Some m => Ok (Some m, st)
  | None => mp_alloc_block st size
  end.

(** The search for a header whose block was freed, among the first five. *)
Fixpoint reusable (fuel : nat) (st : mem) (l n : Z) : res (option Z) :=
  match fuel with
  | O => Err OutOfFuel
  | S fuel =>
      if l =? 0 then Ok None
      else
        lg ← large_at st l;
        if lalloc lg =? 0 then Ok (Some l)
        else if 3 <? n then Ok None
        else reusable fuel st (lnext lg) (u64 (n + 1))
  end.

(** The header for the block [p], from the function [header] that allocates one. *)
Definition push_large (header : mem → Z → res (option Z * mem)) (st : mem) (p : Z) : res (option Z * mem) :=
  '(r, st) ← header st sizeof_large;
  match r with
  | None => b ← free (blocks st) p; Ok (None, set_blocks st b)
  | Some l =>
      let st := set_larges st (<[l := Large (large (pool st)) p]> (larges st)) in
      Ok (Some p, set_large st l)
  end.

(** [mp_alloc] is the function this one calls back for its header. *)
(* src: 6.2mem_pool/mmpool.c:156-182 mp_alloc_large *)
Definition mp_alloc_large (mp_alloc : mem → Z → res (option Z * mem)) (st : mem) (size : Z)
  : res (option Z * mem) :=
  match alloc (blocks st) 16 size with
  | None => Ok (None, st)
  | Some p =>
      let st := set_blocks st (<[p := size]> (blocks st)) in
      o ← reusable (list_fuel st) st (large (pool st)) 0;
      match o with
      | Some l =>
          lg ← large_at st l;
          Ok (Some p, set_larges st (<[l := Large (lnext lg) p]> (larges st)))
      | None => push_large mp_alloc st p
      end
  end.

(** [fuel] bounds the nesting of [mp_alloc] in itself through [mp_alloc_large]. *)
(* src: 6.2mem_pool/mmpool.c:209-233 mp_alloc *)
Fixpoint mp_alloc (fuel : nat) (st : mem) (size : Z) : res (option Z * mem) :=
  match fuel with
  | O => Err OutOfFuel
  | S fuel =>
      if size <=? max (pool st) then alloc_small (λ p, mp_align_ptr p MP_ALIGNMENT) st size
      else mp_alloc_large (mp_alloc fuel) st size
  end.

(* src: 6.2mem_pool/mmpool.c:184-204 mp_memalign *)
Definition mp_memalign (st : mem) (size alignment : Z) : res (option Z * mem) :=
  match alloc (blocks st) alignment size with
  | None => Ok (None, st)
  | Some p => push_large (mp_alloc 2) (set_blocks st (<[p := size]> (blocks st))) p
  end.

(* src: 6.2mem_pool/mmpool.c:236-258 mp_nalloc *)
Definition mp_nalloc (st : mem) (size : Z) : res (option Z * mem) :=
  if size <=? max (pool st) then alloc_small (λ p, p) st size
  else mp_alloc_large (mp_alloc 2) st size.

(** The third component is the range [memset] fills with zeros. *)
(* src: 6.2mem_pool/mmpool.c:260-269 mp_calloc *)
Definition mp_calloc (st : mem) (size : Z) : res (option Z * mem * option (Z * Z)) :=
  '(r, st) ← mp_alloc 2 st size;
  Ok (r, st, option_map (λ p, (p, size)) r).

Fixpoint free_large (fuel : nat) (st : mem) (l p : Z) : res mem :=
  match fuel with
  | O => Err OutOfFuel
  | S fuel =>
      if l =? 0 then Ok st
      else
        lg ← large_at st l;
        if p =? lalloc lg then
          b ← free (blocks st) (lalloc lg);
          Ok (set_larges (set_blocks st b) (<[l := Large (lnext lg) 0]> (larges st)))
        else free_large fuel st (lnext lg) p
  end.

(* src: 6.2mem_pool/mmpool.c:271-283 mp_free *)
Definition mp_free (st : mem) (p : Z) : res mem := free_large (list_fuel st) st (large (pool st)) p.

(** ** What a pool is *)

(** What the C library promises: an aligned block of its own, below the middle of
    the address space. *)
Definition alloc_ok : Prop := ∀ b al sz a, 0 < al → 0 ≤ sz → alloc b al sz = Some a →
  0 < a ∧ a mod al = 0 ∧ a + sz < 2 ^ 63 ∧ b !! a = None ∧
  ∀ c k, b !! c = Some k → a + sz ≤ c ∨ c + k ≤ a.

Definition disj (r1 r2 : Z * Z) : Prop := r1.1 + r1.2 ≤ r2.1 ∨ r2.1 + r2.2 ≤ r1.1.

Fixpoint pairwise_disj (L : list (Z * Z)) : Prop :=
  match L with [] => True | r :: L => Forall (disj r) L ∧ pairwise_disj L end.

Definition blocks_ok (b : gmap Z Z) : Prop :=
  (∀ a n, b !! a = Some n → 0 < a ∧ 0 ≤ n ∧ a + n < 2 ^ 63) ∧
  ∀ a n c k, b !! a = Some n → b !! c = Some k → a ≠ c → disj (a, n) (c, k).

(** The start of the heap block a node lies in. *)
Definition block_of (st : mem) (h : Z) : Z := if decide (h = head st) then self st else h.
Definition alloc_of (st : mem) (l : Z) : Z := from_option lalloc 0 (larges st !! l).

(** The heap blocks that belong to the pool. *)
Definition owned (st : mem) (ns ls : list Z) : list Z :=
  (block_of st <$> ns) ++ filter (λ a, a ≠ 0) (alloc_of st <$> ls).

(** A region handed out from a node: after its header, below [last]. *)
Definition in_node (st : mem) (ns : list Z) (r : Z * Z) : Prop :=
  ∃ h nd, h ∈ ns ∧ nodes st !! h = Some nd ∧ h + sizeof_node ≤ r.1 ∧ r.1 + r.2 ≤ last nd.
Definition in_large (st : mem) (ls : list Z) (r : Z * Z) : Prop :=
  ∃ l, l ∈ ls ∧ alloc_of st l = r.1 ∧ r.1 ≠ 0 ∧ blocks st !! r.1 = Some r.2.

Definition node_ok (st : mem) (sz : Z) (h : Z) : Prop :=
  ∃ nd n, nodes st !! h = Some nd ∧ blocks st !! block_of st h = Some n ∧
    h + sizeof_node ≤ last nd ∧ last nd ≤ end_ nd ∧
    end_ nd = block_of st h + n ∧ end_ nd = h + sizeof_node + sz ∧ block_of st h mod MP_ALIGNMENT = 0.

(** A pool made for nodes of [sz] bytes, with nodes [ns], large headers [ls] and
    the regions [L] in use. *)
Record wf (st : mem) (sz : Z) (ns ls : list Z) (L : list (Z * Z)) : Prop := Wf {
  wf_blocks : blocks_ok (blocks st);
  wf_max : 0 ≤ max (pool st) ≤ sz;
  wf_nodes : chain next (nodes st) (head st) ns;
  wf_larges : chain lnext (larges st) (large (pool st)) ls;
  wf_current : current (pool st) ∈ ns;
  wf_node : ∀ h, h ∈ ns → node_ok st sz h;
  wf_header : ∀ l, l ∈ ls → (l, sizeof_large) ∈ L;
  wf_alloc : ∀ l, l ∈ ls → alloc_of st l ≠ 0 → is_Some (blocks st !! alloc_of st l);
  wf_owned : NoDup (owned st ns ls);
  wf_region : ∀ r, r ∈ L → in_node st ns r ∨ in_large st ls r;
  wf_size : ∀ r, r ∈ L → 0 ≤ r.2;
  wf_disj : pairwise_disj L
}.

(** ** Arithmetic *)

Lemma align_ptr_spec p : 0 ≤ p < 2 ^ 63 →
  p ≤ mp_align_ptr p MP_ALIGNMENT < p + 32 ∧ mp_align_ptr p MP_ALIGNMENT mod 32 = 0.
Proof.
  intros Hp. unfold mp_align_ptr, MP_ALIGNMENT. rewrite u64_small by lia.
  rewrite <-Z.ldiff_land. change (32 - 1) with (Z.ones 5).
  rewrite Z.ldiff_ones_r, Z.shiftr_div_pow2, Z.shiftl_mul_pow2 by lia. change (2 ^ 5) with 32. change (Z.ones 5) with 31. zdiv.
Qed.

Lemma alignment_pos : 0 < MP_ALIGNMENT.
Proof. done. Qed.

Lemma align_ptr_id p : 0 ≤ p < 2 ^ 63 → p mod 32 = 0 → mp_align_ptr p MP_ALIGNMENT = p.
Proof. intros Hp H0. destruct (align_ptr_spec p Hp) as [H1 H2]. zdiv. Qed.

Lemma u64_sub e m : 0 ≤ e - m < 2 ^ 64 → u64 (e - m) = e - m.
Proof. apply u64_small. Qed.

(** ** Regions *)

Lemma disj_sym r1 r2 : disj r1 r2 → disj r2 r1.
Proof. unfold disj. lia. Qed.

(** A region in use lies inside one block the pool owns. *)
Lemma region_block st sz ns ls L r : wf st sz ns ls L → in_node st ns r ∨ in_large st ls r →
  ∃ b n, b ∈ owned st ns ls ∧ blocks st !! b = Some n ∧ b ≤ r.1 ∧ r.1 + r.2 ≤ b + n.
Proof.
  intros Hwf [(h & nd & Hh & Hnd & Hlo & Hhi)|(l & Hl & Ha & H0 & Hb)].
  - destruct (wf_node _ _ _ _ _ Hwf h Hh) as (nd' & n & Hnd' & Hb & H1 & H2 & H3 & H4 & H5).
    simplify_eq. exists (block_of st h), n. split_and!; [|done| |lia].
    + apply elem_of_app. left. by apply list_elem_of_fmap_2.
    + unfold block_of, head, sizeof_node, sizeof_pool in *. case_decide; lia.
  - exists r.1, r.2. split_and!; [|done|lia|lia].
    apply elem_of_app. right. apply list_elem_of_filter. split; [lia|].
    rewrite <-Ha. by apply list_elem_of_fmap_2.
Qed.

(** A block the pool does not own is apart from every region in use. *)
Lemma region_fresh st sz ns ls L r c k : wf st sz ns ls L → r ∈ L → c ∉ owned st ns ls →
  blocks st !! c = Some k → disj (c, k) r.
Proof.
  intros Hwf Hr Hc Hk.
  destruct (region_block _ _ _ _ _ _ Hwf (wf_region _ _ _ _ _ Hwf r Hr)) as (b & n & Hb & Hn & Hlo & Hhi).
  destruct (wf_blocks _ _ _ _ _ Hwf) as [_ Hd].
  specialize (Hd c k b n Hk Hn ltac:(by intros ->)). unfold disj in *. simpl in *. lia.
Qed.

(** Space above [last] in a node is apart from every region in use. *)
Lemma region_above st sz ns ls L r h nd m size : wf st sz ns ls L → r ∈ L → h ∈ ns →
  nodes st !! h = Some nd → last nd ≤ m → m + size ≤ end_ nd → 0 ≤ size → disj (m, size) r.
Proof.
  intros Hwf Hr Hh Hnd Hm Hs H0.
  destruct (wf_node _ _ _ _ _ Hwf h Hh) as (nd' & n & Hnd' & Hb & H1 & H2 & H3 & _). simplify_eq.
  assert (Hbm : block_of st h ≤ h) by (unfold block_of, head, sizeof_pool in *; case_decide; lia).
  assert (Hcase : ∀ b k, b ≠ block_of st h → blocks st !! b = Some k → b ≤ r.1 → r.1 + r.2 ≤ b + k →
    disj (m, size) r).
  { intros b k Hne Hk Hlo Hhi. destruct (wf_blocks _ _ _ _ _ Hwf) as [_ Hd].
    specialize (Hd b k _ n Hk Hb Hne). unfold disj, sizeof_node in *. simpl in *. lia. }
  pose proof (wf_owned _ _ _ _ _ Hwf) as Hown. apply NoDup_app in Hown as (Hndn & Hdis & _).
  destruct (wf_region _ _ _ _ _ Hwf r Hr) as [(h' & nd2 & Hh' & Hnd2 & Hlo & Hhi)|(l & Hl & Ha & Hr0 & Hbl)].
  - destruct (decide (h' = h)) as [->|Hne].
    { simplify_eq. unfold disj. simpl. lia. }
    destruct (wf_node _ _ _ _ _ Hwf h' Hh') as (nd3 & n' & Hnd3 & Hb' & H1' & H2' & H3' & _). simplify_eq.
    apply (Hcase (block_of st h') n'); [|done| |lia].
    + intros E. apply Hne.
      apply list_elem_of_lookup in Hh as [i Hi]. apply list_elem_of_lookup in Hh' as [j Hj].
      assert (j = i) as ->; [|congruence].
      apply (NoDup_lookup (block_of st <$> ns) _ _ (block_of st h) Hndn); rewrite list_lookup_fmap.
      * by rewrite Hj, <-E.
      * by rewrite Hi.
    + unfold block_of, head, sizeof_node, sizeof_pool in *. case_decide; lia.
  - apply (Hcase r.1 r.2); [|done|lia|lia]. intros E.
    apply (Hdis (block_of st h)); [by apply list_elem_of_fmap_2|].
    apply list_elem_of_filter. rewrite <-E. split; [done|]. rewrite <-Ha. by apply list_elem_of_fmap_2.
Qed.

(** ** Allocation from a node *)

(** Changing [last] and [failed] of the nodes, upwards. *)
Definition grown (ns ns' : gmap Z mp_node_s) : Prop := ∀ h nd, ns !! h = Some nd →
  ∃ nd', ns' !! h = Some nd' ∧ last nd ≤ last nd' ∧ end_ nd' = end_ nd ∧ next nd' = next nd.

Lemma bump_wf st sz ns ls L h nd m size : wf st sz ns ls L → h ∈ ns → nodes st !! h = Some nd →
  last nd ≤ m → m + size ≤ end_ nd → 0 ≤ size →
  wf (set_nodes st (<[h := Node (m + size) (end_ nd) (next nd) (failed nd)]> (nodes st))) sz ns ls
     ((m, size) :: L).
Proof.
  intros Hwf Hh Hnd Hm Hs H0.
  destruct (wf_node _ _ _ _ _ Hwf h Hh) as (nd' & n & Hnd' & Hb & H1 & H2 & H3 & H4 & H5). simplify_eq.
  set (nd2 := Node _ _ _ _). set (st' := set_nodes _ _).
  assert (Hlk : ∀ x v, nodes st !! x = Some v → ∃ v', nodes st' !! x = Some v' ∧ last v ≤ last v' ∧
    end_ v' = end_ v ∧ next v' = next v ∧ (last v' ≤ end_ v ∨ last v' = last v)).
  { intros x v Hx. simpl. destruct (decide (x = h)) as [->|Hne].
    - simplify_eq. rewrite lookup_insert_eq. eexists. split_and!; [done|simpl; lia..|]. simpl. lia.
    - rewrite lookup_insert_ne by done. eexists. split_and!; try done; lia. }
  pose proof Hwf as [Wb Wm Wn Wl Wc Wnode Wh Wa Wo Wr Ws Wd].
  split; try done.
  - eapply chain_ext; [|done]. intros x _. destruct (nodes st !! x) as [v|] eqn:Hx.
    + destruct (Hlk x v Hx) as (v' & -> & _ & _ & E & _). simpl. by rewrite E.
    + simpl. rewrite lookup_insert_ne by congruence. by rewrite Hx.
  - intros x Hx. destruct (Wnode x Hx) as (v & k & Hv & Hk & A1 & A2 & A3 & A4 & A5).
    destruct (Hlk x v Hv) as (v' & Hv' & B1 & B2 & B3 & B4). exists v', k.
    change (block_of st' x) with (block_of st x). split_and!; try done; lia.
  - intros l Hl. right. by apply Wh.
  - intros r [->|Hr]%elem_of_cons.
    + left. exists h, nd2. simpl nodes. rewrite lookup_insert_eq. split_and!; try done; simpl; lia.
    + destruct (Wr r Hr) as [(x & v & Hx & Hv & Hlo & Hhi)|Hlarge]; [left|by right].
      destruct (Hlk x v Hv) as (v' & Hv' & B1 & _). exists x, v'. split_and!; try done. lia.
  - intros r [->|Hr]%elem_of_cons; [done|by apply Ws].
  - split; [|done]. apply Forall_forall. intros r Hr. by apply (region_above st sz ns ls L r h nd).
Qed.

Lemma chain_fuel {A} (nx : A → Z) (h : gmap Z A) a l1 l2 : chain nx h a (l1 ++ l2) →
  (length l2 ≤ size h)%nat.
Proof. intros Hc%chain_length. rewrite length_app in Hc. lia. Qed.

(** The search for room visits the nodes from [p] on. *)
Lemma alloc_from_spec align st size fuel : ∀ p l, chain next (nodes st) p l → p ≠ 0 →
  (length l < fuel)%nat →
  (alloc_from align fuel st p size = Ok (None, st)) ∨
  (∃ h nd, h ∈ l ∧ nodes st !! h = Some nd ∧ size ≤ u64 (end_ nd - align (last nd)) ∧
    alloc_from align fuel st p size =
      Ok (Some (align (last nd)),
          set_nodes st (<[h := Node (align (last nd) + size) (end_ nd) (next nd) (failed nd)]> (nodes st)))).
Proof.
  induction fuel as [|fuel IH]; intros p l Hc Hp Hf; [lia|].
  destruct l as [|x t]; [done|]. destruct Hc as (<- & _ & nd & Hnd & Hc). simpl.
  unfold node. rewrite Hnd. cbn [mbind res_bind get_or].
  destruct (Z.leb_spec size (u64 (end_ nd - align (last nd)))) as [Hle|Hgt].
  { right. exists p, nd. split_and!; try done. left. }
  destruct (Z.eqb_spec (next nd) 0) as [|Hn0]; [by left|].
  destruct (IH (next nd) t Hc Hn0) as [?|(h & nd' & Hh & ?)]; [simpl in *; lia|by left|].
  right. exists h, nd'. split; [by right|done].
Qed.

(** Same links and space, whatever the failure counts. *)
Definition same_but_failed (ns ns' : gmap Z mp_node_s) : Prop := ∀ x,
  (λ nd, Node (last nd) (end_ nd) (next nd) 0) <$> ns' !! x =
  (λ nd, Node (last nd) (end_ nd) (next nd) 0) <$> ns !! x.

Lemma same_but_failed_lookup ns ns' x nd : same_but_failed ns ns' → ns !! x = Some nd →
  ∃ k, ns' !! x = Some (Node (last nd) (end_ nd) (next nd) k).
Proof.
  intros H Hx. specialize (H x). rewrite Hx in H. destruct (ns' !! x) as [[]|]; simplify_eq/=. eauto.
Qed.

Lemma last_node_spec fuel : ∀ ns p cur l z, chain next ns p (l ++ [z]) → (length l < fuel)%nat →
  ∃ ns' cur', last_node fuel ns p cur = Ok (ns', z, cur') ∧ same_but_failed ns ns' ∧
    (cur' = cur ∨ cur' ∈ l ++ [z]).
Proof.
  induction fuel as [|fuel IH]; intros ns p cur l z Hc Hf; [lia|]. simpl.
  destruct l as [|x t].
  - destruct Hc as (-> & Hz & nd & Hnd & H0). simpl in H0. rewrite Hnd. simpl. rewrite H0. simpl.
    exists ns, cur. split_and!; [done|done|by left].
  - destruct Hc as (-> & Hx & nd & Hnd & Hc). rewrite Hnd. simpl.
    assert (Hn0 : next nd ≠ 0) by (destruct t; destruct Hc as (-> & ? & _); done).
    rewrite (proj2 (Z.eqb_neq _ _) Hn0). set (nd' := Node _ _ _ _).
    assert (Hs : same_but_failed ns (<[x := nd']> ns)).
    { intros y. destruct (decide (y = x)) as [->|Hne]; [by rewrite lookup_insert_eq, Hnd|].
      by rewrite lookup_insert_ne. }
    destruct (IH (<[x := nd']> ns) (next nd) (if 4 <? failed nd then next nd else cur) t z)
      as (ns' & cur' & -> & Hs' & Hcur); [|simpl in *; lia|].
    + eapply chain_ext; [|done]. intros y _. specialize (Hs y).
      destruct (<[x := nd']> ns !! y), (ns !! y); simplify_eq/=; congruence.
    + exists ns', cur'. split_and!; [done| |].
      * intros y. by rewrite Hs'.
      * destruct Hcur as [->|Hcur]; [|right; by right]. case_match; [|by left]. right.
        destruct t; destruct Hc as (-> & _); right; left.
Qed.

(** Every block the pool owns is a block of the heap. *)
Lemma owned_blocks st sz ns ls L a : wf st sz ns ls L → a ∈ owned st ns ls → is_Some (blocks st !! a).
Proof.
  intros Hwf [Ha|Ha]%elem_of_app.
  - apply list_elem_of_fmap in Ha as (h & -> & Hh).
    destruct (wf_node _ _ _ _ _ Hwf h Hh) as (nd & n & _ & Hb & _). eauto.
  - apply list_elem_of_filter in Ha as [H0 Ha]. apply list_elem_of_fmap in Ha as (l & -> & Hl).
    by eapply wf_alloc.
Qed.

Lemma fresh_block st sz ns ls L al psize nw : alloc_ok → wf st sz ns ls L → 0 < al →
  0 ≤ psize → alloc (blocks st) al psize = Some nw →
  nw ∉ owned st ns ls ∧ blocks_ok (<[nw := psize]> (blocks st)) ∧
  (∀ c k, blocks st !! c = Some k → <[nw := psize]> (blocks st) !! c = Some k) ∧
  ∀ r, r ∈ L → disj (nw, psize) r.
Proof.
  intros Hal Hwf H32 Hps Hnw. destruct (Hal _ _ _ _ H32 Hps Hnw) as (H0 & _ & H63 & Hnone & Hdis).
  assert (Hown : nw ∉ owned st ns ls).
  { intros Hin. destruct (owned_blocks _ _ _ _ _ _ Hwf Hin). congruence. }
  assert (Hkeep : ∀ c k, blocks st !! c = Some k → <[nw := psize]> (blocks st) !! c = Some k).
  { intros c k Hc. rewrite lookup_insert_ne; [done|congruence]. }
  destruct (wf_blocks _ _ _ _ _ Hwf) as [B1 B2]. split_and!; [done| |done|].
  - split.
    + intros a n [[<- <-]|[_ Ha]]%lookup_insert_Some; [lia|by apply B1].
    + intros a n c k [[<- <-]|[Hna Ha]]%lookup_insert_Some [[<- <-]|[Hnc Hc]]%lookup_insert_Some Hne; [done| | |by eapply B2].
      * apply Hdis in Hc. unfold disj. simpl. lia.
      * apply Hdis in Ha. unfold disj. simpl. lia.
  - intros r Hr.
    destruct (region_block _ _ _ _ _ _ Hwf (wf_region _ _ _ _ _ Hwf r Hr)) as (b & n & _ & Hn & Hlo & Hhi).
    apply Hdis in Hn. unfold disj. simpl. lia.
Qed.

(** A new block is no node's. *)
Lemma fresh_not_node st sz ns ls L psize nw : alloc_ok → wf st sz ns ls L →
  0 ≤ psize → alloc (blocks st) MP_ALIGNMENT psize = Some nw → head st ∈ ns → nw ∉ ns ∧ nw ≠ head st.
Proof.
  intros Hal Hwf Hps Hnw Hhd. destruct (fresh_block _ _ _ _ _ _ _ _ Hal Hwf alignment_pos Hps Hnw) as (Hown & _ & _ & _).
  assert (Hne : nw ≠ head st).
  { destruct (wf_node _ _ _ _ _ Hwf _ Hhd) as (nd & n & _ & Hb & H1 & H2 & H3 & _).
    destruct (Hal _ _ _ _ alignment_pos Hps Hnw) as (_ & _ & _ & _ & Hdis). apply Hdis in Hb.
    destruct (wf_blocks _ _ _ _ _ Hwf) as [B1 _].
    unfold block_of, head, sizeof_node, sizeof_pool in *. rewrite decide_True in * by done. lia. }
  split; [|done]. intros Hin. apply Hown, elem_of_app. left.
  apply list_elem_of_fmap. exists nw. split; [|done]. unfold block_of. by rewrite decide_False.
Qed.

(** The new block, linked last, with its first allocation. *)
Lemma block_wf st sz ns ls L cur ns0 z nw size new psize : alloc_ok → wf st sz ns ls L →
  ns = ns0 ++ [z] → psize = sizeof_node + sz → 0 ≤ size ≤ max (pool st) →
  alloc (blocks st) MP_ALIGNMENT psize = Some nw → cur ∈ ns ++ [nw] →
  (∃ k, new !! nw = Some (Node (nw + sizeof_node + size) (nw + psize) 0 k)) →
  (∀ x nd, x ∈ ns0 → nodes st !! x = Some nd → ∃ k, new !! x = Some (Node (last nd) (end_ nd) (next nd) k)) →
  (∀ nd, nodes st !! z = Some nd → ∃ k, new !! z = Some (Node (last nd) (end_ nd) nw k)) →
  wf (Mem (<[nw := psize]> (blocks st)) new (larges st) (self st) (Pool (max (pool st)) cur (large (pool st))))
     sz (ns ++ [nw]) ls ((nw + sizeof_node, size) :: L).
Proof.
  intros Hal Hwf Ens Eps Hsize Hnw Hcur [kn Hnew] Hold Hz. set (st' := Mem _ _ _ _ _).
  pose proof Hwf as [Wb Wm Wn Wl Wc Wnode Wh Wa Wo Wr Ws Wd].
  assert (Hps : 0 ≤ psize) by (unfold sizeof_node in *; lia).
  destruct (fresh_block _ _ _ _ _ _ _ _ Hal Hwf alignment_pos Hps Hnw) as (Hown & Hbok & Hkeep & Hdis).
  assert (Hhd : head st ∈ ns) by (rewrite Ens in Wn |- *; destruct ns0; destruct Wn as (-> & _); left).
  destruct (fresh_not_node _ _ _ _ _ _ _ Hal Hwf Hps Hnw Hhd) as [Hns Hnh].
  destruct (Hal _ _ _ _ alignment_pos Hps Hnw) as (Hnw0 & Hmod & _ & _ & _).
  assert (Hnodes : ∀ x nd, x ∈ ns → nodes st !! x = Some nd →
    ∃ nd', new !! x = Some nd' ∧ last nd' = last nd ∧ end_ nd' = end_ nd).
  { intros x nd Hx Hnd. rewrite Ens in Hx. apply elem_of_app in Hx as [Hx| ->%list_elem_of_singleton].
    - destruct (Hold x nd Hx Hnd) as [k ->]. by eexists.
    - destruct (Hz nd Hnd) as [k ->]. by eexists. }
  assert (Hbo : block_of st' nw = nw) by (unfold block_of; by rewrite decide_False).
  split; simpl blocks; simpl nodes; simpl larges; simpl pool; simpl; try done.
  - rewrite Ens, <-app_assoc. rewrite Ens in Wn. change (head st') with (head st).
    destruct (chain_dom _ _ _ _ z Wn) as (Hz0 & nz & Hnz); [apply elem_of_app; right; left|].
    destruct (Hz nz Hnz) as [k Hk]. eapply (chain_snoc next (nodes st)); [done| |done|done|lia|done|done].
    intros x Hx. destruct (chain_dom _ _ _ _ x Wn) as (_ & v & Hv); [by apply elem_of_app; left|].
    destruct (Hold x v Hx Hv) as [j ->]. by rewrite Hv.
  - intros h [Hh| ->%list_elem_of_singleton]%elem_of_app.
    + destruct (Wnode h Hh) as (nd & n & Hnd & Hb & H1 & H2 & H3 & H4 & H5).
      destruct (Hnodes h nd Hh Hnd) as (nd' & Hnd' & E1 & E2). exists nd', n.
      rewrite E1, E2. change (block_of st' h) with (block_of st h). split_and!; try done. by apply Hkeep.
    + eexists _, psize. rewrite Hbo. split; [exact Hnew|]. simpl. rewrite lookup_insert_eq.
      split_and!; try done; lia.
  - intros l Hl. right. by apply Wh.
  - intros l Hl Hne. destruct (Wa l Hl Hne) as [k Hk]. exists k. by apply Hkeep.
  - unfold owned. rewrite fmap_app. simpl. rewrite Hbo, <-app_assoc.
    simpl. rewrite <-Permutation_middle. by constructor.
  - intros r [->|Hr]%elem_of_cons.
    + left. eexists nw, _. split; [apply elem_of_app; right; left|]. split; [exact Hnew|]. simpl. lia.
    + destruct (Wr r Hr) as [(h & nd & Hh & Hnd & Hlo & Hhi)|(l & Hl & Hla & Hr0 & Hlb)].
      * left. destruct (Hnodes h nd Hh Hnd) as (nd' & Hnd' & E1 & E2). exists h, nd'.
        rewrite E1. split_and!; try done. apply elem_of_app. by left.
      * right. exists l. split_and!; try done. by apply Hkeep.
  - intros r [->|Hr]%elem_of_cons; [simpl; lia|by apply Ws].
  - split; [|done]. apply Forall_forall. intros r Hr. specialize (Hdis r Hr).
    unfold disj, sizeof_node in *. simpl in *. lia.
Qed.

(** What the small-allocation paths leave alone. *)
Definition kept (st st' : mem) : Prop :=
  self st' = self st ∧ larges st' = larges st ∧ large (pool st') = large (pool st) ∧
  max (pool st') = max (pool st) ∧ blocks st ⊆ blocks st'.

(** A pool comes to own only blocks it has just allocated. *)
Definition owns_new (st st' : mem) (ns ns' ls : list Z) : Prop :=
  ∀ a, a ∈ owned st' ns' ls → a ∈ owned st ns ls ∨ blocks st !! a = None.

Lemma current_suffix st sz ns ls L : wf st sz ns ls L → ∃ l1 l2,
  ns = l1 ++ l2 ∧ chain next (nodes st) (current (pool st)) l2 ∧ current (pool st) ≠ 0 ∧
  (length l2 < list_fuel st)%nat.
Proof.
  intros Hwf. pose proof (wf_nodes _ _ _ _ _ Hwf) as Hn.
  destruct (chain_suffix _ _ _ _ _ Hn (wf_current _ _ _ _ _ Hwf)) as (l1 & l2 & E & Hc).
  exists l1, (current (pool st) :: l2). split_and!; [done|done|by destruct Hc as (_ & ? & _)|].
  rewrite E in Hn. apply chain_fuel in Hn. unfold list_fuel. lia.
Qed.

Lemma head_node st sz ns ls L : wf st sz ns ls L → head st ∈ ns ∧ ∃ nd,
  nodes st !! head st = Some nd ∧ end_ nd = head st + sizeof_node + sz ∧
  0 < head st ∧ end_ nd < 2 ^ 63 ∧ self st mod 32 = 0.
Proof.
  intros Hwf. pose proof (wf_nodes _ _ _ _ _ Hwf) as Hn. pose proof (wf_current _ _ _ _ _ Hwf) as Hc.
  assert (Hhd : head st ∈ ns) by (destruct ns; [by apply elem_of_nil in Hc|destruct Hn as (-> & _); left]).
  split; [done|]. destruct (wf_node _ _ _ _ _ Hwf _ Hhd) as (nd & n & Hnd & Hb & H1 & H2 & H3 & H4 & H5).
  destruct (wf_blocks _ _ _ _ _ Hwf) as [B _]. destruct (B _ _ Hb) as (B1 & B2 & B3).
  unfold block_of in *. rewrite decide_True in * by done.
  exists nd. unfold head, sizeof_pool in *. split_and!; try done; lia.
Qed.

Lemma alloc_block_spec st sz ns ls L size : alloc_ok → wf st sz ns ls L → 0 ≤ size ≤ max (pool st) →
  ∃ r st', mp_alloc_block st size = Ok (r, st') ∧ kept st st' ∧
    ((r = None ∧ st' = st) ∨
     ∃ m ns', r = Some m ∧ wf st' sz ns' ls ((m, size) :: L) ∧ owns_new st st' ns ns' ls ∧ 0 < m ∧ m mod 32 = 0).
Proof.
  intros Hal Hwf Hsize. unfold mp_alloc_block, node.
  destruct (head_node _ _ _ _ _ Hwf) as (Hhd & hd & Hhdn & Hend & Hpos & H63 & _).
  pose proof (wf_max _ _ _ _ _ Hwf) as Hmax.
  rewrite Hhdn. cbn [mbind res_bind get_or].
  replace (u64 (end_ hd - head st)) with (sizeof_node + sz) by (rewrite u64_small; unfold sizeof_node in *; lia).
  destruct (alloc (blocks st) MP_ALIGNMENT (sizeof_node + sz)) as [nw|] eqn:Hnw;
    [|exists None, st; split_and!; [done|done|by left]].
  assert (Hps : 0 ≤ sizeof_node + sz) by (unfold sizeof_node; lia).
  destruct (fresh_not_node _ _ _ _ _ _ _ Hal Hwf Hps Hnw Hhd) as [Hns Hnh].
  destruct (Hal _ _ _ _ alignment_pos Hps Hnw) as (Hnw0 & Hmod & Hnw63 & Hnone & _).
  rewrite align_ptr_id by (unfold sizeof_node, MP_ALIGNMENT in *; zdiv || lia).
  destruct (current_suffix _ _ _ _ _ Hwf) as (l1 & l2 & E & Hc & Hc0 & Hf).
  destruct l2 as [|z l2 _] using rev_ind; [by simpl in Hc|].
  set (ns1 := <[nw := Node (nw + sizeof_node + size) (nw + (sizeof_node + sz)) 0 0]> (nodes st)).
  destruct (last_node_spec (list_fuel st) ns1 (current (pool st)) (current (pool st)) l2 z)
    as (ns2 & cur & Hln & Hs & Hcur).
  { eapply chain_ext; [|done]. intros x Hx. unfold ns1. rewrite lookup_insert_ne; [done|].
    intros ->. apply Hns. rewrite E. by apply elem_of_app; right. }
  { rewrite length_app in Hf. lia. }
  cbn [set_blocks nodes pool larges]. fold ns1.
  change (list_fuel (set_blocks st _)) with (list_fuel st). rewrite Hln.
  cbn [mbind res_bind get_or]. clear Hln.
  assert (Hz : z ∈ ns) by (rewrite E; apply elem_of_app; right; apply elem_of_app; right; left).
  assert (Hl : ∀ x nd, x ∈ ns → nodes st !! x = Some nd → ∃ k, ns2 !! x = Some (Node (last nd) (end_ nd) (next nd) k)).
  { intros x nd Hx Hnd. apply (same_but_failed_lookup ns1); [done|]. unfold ns1.
    rewrite lookup_insert_ne; [done|]. by intros ->. }
  destruct (wf_node _ _ _ _ _ Hwf z Hz) as (zn & _ & Hzn & _).
  destruct (Hl z zn Hz Hzn) as [kz Hkz]. rewrite Hkz. cbn [mbind res_bind get_or last end_ failed].
  assert (Hcin : cur ∈ ns).
  { destruct Hcur as [->|Hcur]; [by eapply wf_current|]. rewrite E. by apply elem_of_app; right. }
  destruct (chain_dom _ _ _ _ _ (wf_nodes _ _ _ _ _ Hwf) Hcin) as [Hcur0 _].
  rewrite (proj2 (Z.eqb_neq _ _) Hcur0).
  assert (Hzw : z ≠ nw) by (intros ->; done).
  assert (Hnd := chain_NoDup _ _ _ _ (wf_nodes _ _ _ _ _ Hwf)). rewrite E, app_assoc in Hnd.
  apply NoDup_app in Hnd as (_ & Hnd & _).
  eexists _, _. split; [done|]. split.
  { unfold kept. split_and!; try done. simpl. by apply insert_subseteq. }
  right. eexists _, (ns ++ [nw]). split; [done|].
  match goal with |- wf ?S _ _ _ _ ∧ _ => assert (Hwf' : wf S sz (ns ++ [nw]) ls ((nw + sizeof_node, size) :: L)) end.
  { eapply (block_wf st sz ns ls L cur (l1 ++ l2) z nw size); try done.
    - by rewrite E, app_assoc.
    - apply elem_of_app. by left.
    - simpl nodes. rewrite lookup_insert_ne by done.
      exact (same_but_failed_lookup ns1 ns2 nw _ Hs (lookup_insert_eq _ _ _)).
    - intros x nd Hx Hxn. simpl nodes. rewrite lookup_insert_ne by (intros <-; apply (Hnd z); [done|left]).
      apply Hl; [|done]. rewrite E, app_assoc. by apply elem_of_app; left.
    - intros nd Hnz. simpl nodes. rewrite lookup_insert_eq. simplify_eq. eauto. }
  split; [done|]. split; [|unfold sizeof_node, MP_ALIGNMENT in *; split; [lia|zdiv]].
  intros a. unfold owned. rewrite fmap_app, !elem_of_app. intros [[Ha|Ha]|Ha];
    [left; by left| |left; by right].
  right. apply list_elem_of_fmap in Ha as (h & -> & ->%list_elem_of_singleton).
  unfold block_of. by rewrite decide_False.
Qed.

(** Every node has room up to the aligned [last]. *)
Definition room (align : Z → Z) (st : mem) (ns : list Z) : Prop :=
  ∀ h nd, h ∈ ns → nodes st !! h = Some nd → last nd ≤ align (last nd) ≤ end_ nd.

Lemma alloc_small_spec align st sz ns ls L size : alloc_ok → wf st sz ns ls L →
  0 ≤ size ≤ max (pool st) → room align st ns →
  ∃ r st', alloc_small align st size = Ok (r, st') ∧ kept st st' ∧
    ((r = None ∧ st' = st) ∨
     ∃ m ns', r = Some m ∧ wf st' sz ns' ls ((m, size) :: L) ∧ owns_new st st' ns ns' ls ∧ 0 < m ∧
       ((∃ x, 0 ≤ x < 2 ^ 63 ∧ m = align x) ∨ m mod 32 = 0)).
Proof.
  intros Hal Hwf Hsize Hroom. unfold alloc_small.
  destruct (current_suffix _ _ _ _ _ Hwf) as (l1 & l2 & E & Hc & Hc0 & Hf).
  destruct (alloc_from_spec align st size (list_fuel st) _ _ Hc Hc0 Hf) as [->|(h & nd & Hh & Hnd & Hle & ->)];
    cbn [mbind res_bind].
  - destruct (alloc_block_spec st sz ns ls L size Hal Hwf Hsize) as
      (r & st' & Hok & Hk & Hres). exists r, st'. split; [done|]. split; [done|].
    destruct Hres as [?|(m & ns' & ? & ? & ? & ? & ?)]; [by left|right].
    exists m, ns'. split_and!; try done. by right.
  - assert (Hhn : h ∈ ns) by (rewrite E; by apply elem_of_app; right).
    destruct (Hroom h nd Hhn Hnd) as [Hr1 Hr2].
    destruct (wf_node _ _ _ _ _ Hwf h Hhn) as (nd' & n & Hnd' & Hb & H1 & H2 & H3 & H4 & H5).
    assert (nd' = nd) as -> by congruence.
    destruct (wf_blocks _ _ _ _ _ Hwf) as [B _]. destruct (B _ _ Hb) as (B1 & B2 & B3).
    assert (Hbh : block_of st h ≤ h) by (unfold block_of, head, sizeof_pool; case_decide; lia).
    unfold sizeof_node in *. rewrite u64_small in Hle by lia.
    eexists _, _. split; [done|]. split; [by unfold kept|]. right. eexists _, ns. split; [done|].
    split; [by apply bump_wf; try done; lia|]. split.
    + intros b Hb'. by left.
    + split; [lia|]. left. exists (last nd). split; [lia|done].
Qed.

(** ** Large blocks *)

Lemma reusable_spec st fuel : ∀ l n ls, chain lnext (larges st) l ls → (length ls < fuel)%nat →
  ∃ o, reusable fuel st l n = Ok o ∧ ∀ x, o = Some x → x ∈ ls ∧ alloc_of st x = 0 ∧ is_Some (larges st !! x).
Proof.
  induction fuel as [|fuel IH]; intros l n ls Hc Hf; [lia|]. simpl.
  destruct (Z.eqb_spec l 0) as [->|Hl]; [by exists None|].
  destruct ls as [|x t]; [done|]. destruct Hc as (<- & _ & lg & Hlg & Hc).
  unfold large_at. rewrite Hlg. cbn [mbind res_bind get_or].
  destruct (Z.eqb_spec (lalloc lg) 0) as [H0|H0].
  { exists (Some l). split; [done|]. intros ? [= <-]. unfold alloc_of. rewrite Hlg. split_and!; [left|done|eauto]. }
  case_match; [by exists None|].
  destruct (IH (lnext lg) (u64 (n + 1)) t Hc) as (o & -> & Ho); [simpl in *; lia|].
  exists o. split; [done|]. intros y Hy. destruct (Ho y Hy) as (? & ? & ?). split_and!; [by right|done|done].
Qed.

(** Giving one header of the list a block: the blocks owned grow by it. *)
Lemma filter_alloc_cons (f f' : Z → Z) ls l p : NoDup ls → l ∈ ls → f l = 0 → f' l = p → p ≠ 0 →
  (∀ x, x ∈ ls → x ≠ l → f' x = f x) →
  filter (λ a, a ≠ 0) (f' <$> ls) ≡ₚ p :: filter (λ a, a ≠ 0) (f <$> ls).
Proof.
  intros Hnd Hl Hf Hf' Hp Hx. induction ls as [|y t IH]; [by apply elem_of_nil in Hl|].
  apply NoDup_cons in Hnd as [Hy Hnd]. rewrite !fmap_cons, !filter_cons.
  destruct (decide (y = l)) as [->|Hne].
  - rewrite Hf', Hf, decide_True, decide_False by (done || lia). f_equiv.
    rewrite (list_fmap_ext f' f t); [done|]. intros i x Hi. apply Hx.
    + right. by eapply list_elem_of_lookup_2.
    + intros ->. apply Hy. by eapply list_elem_of_lookup_2.
  - apply elem_of_cons in Hl as [->|Hl]; [done|]. rewrite (Hx y ltac:(left) Hne).
    assert (E := IH Hnd Hl ltac:(intros; apply Hx; [by right|done])).
    case_decide; [|done]. rewrite E. apply Permutation_swap.
Qed.

Lemma extra_block st sz ns ls L p k : wf st sz ns ls L → blocks_ok (<[p := k]> (blocks st)) →
  (∀ c n, blocks st !! c = Some n → <[p := k]> (blocks st) !! c = Some n) →
  wf (set_blocks st (<[p := k]> (blocks st))) sz ns ls L.
Proof.
  intros [Wb Wm Wn Wl Wc Wnode Wh Wa Wo Wr Ws Wd] Hok Hkeep. split; try done.
  - intros h Hh. destruct (Wnode h Hh) as (nd & n & H1 & H2 & H3). exists nd, n. split; [done|].
    split; [by apply Hkeep|done].
  - intros l Hl H0. destruct (Wa l Hl H0) as [n Hn]. exists n. by apply Hkeep.
  - intros r Hr. destruct (Wr r Hr) as [?|(l & Hl & H1 & H2 & H3)]; [by left|right].
    exists l. split_and!; try done. by apply Hkeep.
Qed.

(** A header of the list, free or new, takes the block [p], which is nobody's. *)
Lemma take_block st sz ns ls L lgs l p k ls' hd : wf st sz ns ls L →
  chain lnext lgs hd ls' → NoDup ls' → (l, sizeof_large) ∈ L →
  (∀ x, x ∈ ls' ↔ x = l ∨ x ∈ ls) → (l ∈ ls → alloc_of st l = 0) →
  lalloc <$> lgs !! l = Some p → (∀ x, x ≠ l → lalloc <$> lgs !! x = lalloc <$> larges st !! x) →
  (filter (λ a, a ≠ 0) (alloc_of (set_larges st lgs) <$> ls') ≡ₚ
     p :: filter (λ a, a ≠ 0) (alloc_of st <$> ls)) →
  blocks st !! p = Some k → p ≠ 0 → p ∉ owned st ns ls →
  wf (set_large (set_larges st lgs) hd) sz ns ls' ((p, k) :: L).
Proof.
  intros Hwf Hc Hnd Hhdr Hls Hl0 Hlp Hlx Hfil Hp Hp0 Hown. set (st' := set_large _ _).
  pose proof Hwf as [Wb Wm Wn Wl Wc Wnode Wh Wa Wo Wr Ws Wd].
  assert (Hal : alloc_of st' l = p).
  { unfold alloc_of. simpl. destruct (lgs !! l) as [lg|]; by simplify_eq/=. }
  assert (Hax : ∀ x, x ≠ l → alloc_of st' x = alloc_of st x).
  { intros x Hx. unfold alloc_of. simpl. specialize (Hlx x Hx).
    destruct (lgs !! x), (larges st !! x); simplify_eq/=; congruence. }
  assert (Hk0 : 0 ≤ k) by (destruct Wb as [B _]; destruct (B _ _ Hp); lia).
  split; try done.
  - intros x [->|Hx]%Hls; right; [done|by apply Wh].
  - intros x Hx. destruct (decide (x = l)) as [->|Hne]; [rewrite Hal; eauto|].
    rewrite (Hax x Hne). apply Hls in Hx as [|Hx]; [done|by apply Wa].
  - unfold owned. change (alloc_of st') with (alloc_of (set_larges st lgs)). rewrite Hfil.
    rewrite <-Permutation_middle. by constructor.
  - intros r [->|Hr]%elem_of_cons.
    + right. exists l. simpl. split_and!; try done. apply Hls. by left.
    + destruct (Wr r Hr) as [?|(x & Hx & H1 & H2 & H3)]; [by left|right].
      destruct (decide (x = l)) as [->|Hne]; [rewrite Hl0 in H1 by done; congruence|].
      exists x. rewrite (Hax x Hne). split_and!; try done. apply Hls. by right.
  - intros r [->|Hr]%elem_of_cons; [done|by apply Ws].
  - split; [|done]. apply Forall_forall. intros r Hr. by eapply region_fresh.
Qed.

(** The result of a large allocation: a block of its own with a header, possibly
    a new one, in the pool. *)
Definition large_result (st : mem) (sz : Z) (L : list (Z * Z)) (size : Z) (r : option Z) (st' : mem) : Prop :=
  (r = None ∧ st' = st) ∨
  ∃ p ns' ls' L', r = Some p ∧ wf st' sz ns' ls' ((p, size) :: L') ∧ p mod 16 = 0 ∧
    (L' = L ∨ ∃ l, L' = (l, sizeof_large) :: L).

Definition align32 (p : Z) : Z := mp_align_ptr p MP_ALIGNMENT.

Lemma room_kept align st st' ns : nodes st' = nodes st → room align st ns → room align st' ns.
Proof. unfold room. by intros ->. Qed.

Lemma push_large_spec fuel st sz ns ls L size al p : alloc_ok → wf st sz ns ls L →
  sizeof_large ≤ max (pool st) → 0 ≤ size → room align32 st ns → 0 < al → al mod 16 = 0 →
  alloc (blocks st) al size = Some p →
  ∃ r st', push_large (mp_alloc (S fuel)) (set_blocks st (<[p := size]> (blocks st))) p = Ok (r, st') ∧
    large_result st sz L size r st'.
Proof.
  intros Hal Hwf H16 Hsize Hroom Hal0 Hal16 Hp. unfold push_large, large_result.
  set (st1 := set_blocks st _).
  destruct (fresh_block _ _ _ _ _ _ _ _ Hal Hwf Hal0 Hsize Hp) as (Hown & Hbok & Hkeep & _).
  destruct (Hal _ _ _ _ Hal0 Hsize Hp) as (Hp0 & Hpm & _ & Hnone & _).
  pose proof (extra_block _ _ _ _ _ _ _ Hwf Hbok Hkeep) as Hwf1. fold st1 in Hwf1.
  cbn [mp_alloc]. change (max (pool st1)) with (max (pool st)). fold align32. rewrite (proj2 (Z.leb_le _ _) H16).
  destruct (alloc_small_spec align32 st1 sz ns ls L sizeof_large Hal Hwf1)
    as (r & st2 & -> & (Kself & Klg & Klarge & Kmax & Kb) & Hres); [by unfold sizeof_large in *; simpl; lia|by eapply room_kept|].
  assert (Hp1 : blocks st1 !! p = Some size) by apply lookup_insert_eq.
  cbn [mbind res_bind].
  destruct Hres as [[-> ->]|(l & ns' & -> & Hwf2 & Hnew & Hl0 & _)].
  { unfold free. rewrite (proj2 (Z.eqb_neq _ _)), Hp1 by lia. simpl.
    eexists _, _. split; [done|]. left. split; [done|]. unfold set_blocks. simpl.
    rewrite delete_insert_id by done. by destruct st. }
  pose proof (wf_disj _ _ _ _ _ Hwf2) as [Hd _].
  assert (Hl : l ∉ ls).
  { intros Hl. apply (wf_header _ _ _ _ _ Hwf) in Hl. rewrite Forall_forall in Hd.
    specialize (Hd _ Hl). unfold disj, sizeof_large in Hd. simpl in Hd. lia. }
  assert (Hlx : ∀ x, x ≠ l → <[l := Large (large (pool st2)) p]> (larges st2) !! x = larges st2 !! x)
    by (intros; by apply lookup_insert_ne).
  eexists _, _. split; [done|]. right. exists p, ns', (l :: ls), ((l, sizeof_large) :: L).
  split_and!; [done| |zdiv|right; by exists l].
  pose proof (chain_NoDup _ _ _ _ (wf_larges _ _ _ _ _ Hwf2)) as Hnd.
  assert (Halx : ∀ x, x ≠ l → alloc_of (set_larges st2 (<[l := Large (large (pool st2)) p]> (larges st2))) x =
    alloc_of st2 x) by (intros x Hx; unfold alloc_of; simpl larges; by rewrite Hlx).
  apply (take_block st2 sz ns' ls _ _ l); try done.
  - split; [done|]. split; [lia|]. eexists. rewrite lookup_insert_eq. split; [done|]. simpl.
    eapply chain_ext; [|apply (wf_larges _ _ _ _ _ Hwf2)]. intros x Hx. rewrite Hlx; [done|]. by intros ->.
  - by constructor.
  - left.
  - intros x. apply elem_of_cons.
  - by rewrite lookup_insert_eq.
  - intros x Hx. by rewrite Hlx.
  - rewrite fmap_cons, filter_cons_True; [|unfold alloc_of; simpl; rewrite lookup_insert_eq; simpl; lia].
    rewrite (list_fmap_ext _ (alloc_of st2) ls).
    + unfold alloc_of at 1. simpl. by rewrite lookup_insert_eq.
    + intros i x Hi. apply Halx. intros ->. apply Hl. by eapply list_elem_of_lookup_2.
  - eapply lookup_weaken; [exact Hp1|done].
  - lia.
  - intros [?|?]%Hnew; [done|congruence].
Qed.

Lemma alloc_large_spec fuel st sz ns ls L size : alloc_ok → wf st sz ns ls L →
  sizeof_large ≤ max (pool st) → 0 ≤ size → room align32 st ns →
  ∃ r st', mp_alloc_large (mp_alloc (S fuel)) st size = Ok (r, st') ∧ large_result st sz L size r st'.
Proof.
  intros Hal Hwf H16 Hsize Hroom. unfold mp_alloc_large.
  destruct (alloc (blocks st) 16 size) as [p|] eqn:Hp; [|exists None, st; split; [done|by left]].
  destruct (fresh_block _ _ _ _ _ 16 _ _ Hal Hwf ltac:(done) Hsize Hp) as (Hown & Hbok & Hkeep & _).
  destruct (Hal _ _ _ _ (eq_refl : 0 < 16) Hsize Hp) as (Hp0 & Hpm & _ & Hnone & _).
  pose proof (extra_block _ _ _ _ _ _ _ Hwf Hbok Hkeep) as Hwf1. set (st1 := set_blocks st _) in *.
  pose proof (wf_larges _ _ _ _ _ Hwf1) as Hlc.
  destruct (reusable_spec st1 (list_fuel st1) (large (pool st1)) 0 ls Hlc) as (o & -> & Ho).
  { apply chain_length in Hlc. unfold list_fuel. lia. }
  cbn [mbind res_bind]. destruct o as [l|]; [|by apply (push_large_spec fuel st sz ns ls L size 16 p)].
  destruct (Ho l eq_refl) as (Hl & Ha & [lg Hlg]). unfold large_at. rewrite Hlg. cbn [mbind res_bind get_or].
  eexists _, _. split; [done|]. right. exists p, ns, ls, L. split_and!; [done| |done|by left].
  set (lgs := <[l := Large (lnext lg) p]> (larges st1)).
  assert (Hlx : ∀ x, x ≠ l → lgs !! x = larges st1 !! x) by (intros; by apply lookup_insert_ne).
  replace (set_larges st1 lgs) with (set_large (set_larges st1 lgs) (large (pool st1)))
    by (unfold set_large, set_pool, set_larges; simpl; by destruct (pool st)).
  apply (take_block st1 sz ns ls L lgs l); try done.
  - eapply chain_ext; [|done]. intros x _. destruct (decide (x = l)) as [->|Hne].
    + unfold lgs. by rewrite lookup_insert_eq, Hlg.
    + by rewrite Hlx.
  - by eapply chain_NoDup.
  - by eapply wf_header.
  - intros x. split; [by right|]. by intros [->|?].
  - unfold lgs. by rewrite lookup_insert_eq.
  - intros x Hx. by rewrite Hlx.
  - apply (filter_alloc_cons _ _ _ l); try done; [by eapply chain_NoDup| |lia|].
    + unfold alloc_of, lgs. simpl. by rewrite lookup_insert_eq.
    + intros x _ Hx. unfold alloc_of. simpl larges. by rewrite Hlx.
  - apply lookup_insert_eq.
  - lia.
Qed.

Lemma create_wf b size st : alloc_ok → blocks_ok b → 0 ≤ size < 2 ^ 62 →
  mp_create_pool b 0 size = Some st →
  wf st size [head st] [] [] ∧ ∃ n, blocks st = <[self st := n]> b ∧ b !! self st = None.
Proof.
  intros Hal [B1 B2] Hs. unfold mp_create_pool, sizeof_pool, sizeof_node.
  rewrite (u64_small (size + 24)), u64_small by lia. destruct (alloc _ _ _) as [p|] eqn:Hp; [|done].
  intros [= <-]. destruct (Hal b MP_ALIGNMENT (size + 24 + 32) p alignment_pos ltac:(lia) Hp) as (Hp0 & Hpm & Hp63 & Hnone & Hdis).
  split; [|eauto]. unfold head, sizeof_pool. simpl. split; simpl; try done.
  - split.
    + intros a n [[<- <-]|[_ Ha]]%lookup_insert_Some; [lia|by apply B1].
    + intros a n c k [[<- <-]|[Hna Ha]]%lookup_insert_Some [[<- <-]|[Hnc Hc]]%lookup_insert_Some Hne;
        [done| | |by eapply B2].
      * apply Hdis in Hc. unfold disj. simpl. lia.
      * apply Hdis in Ha. unfold disj. simpl. lia.
  - unfold MP_MAX_ALLOC_FROM_POOL, MP_PAGE_SIZE. case_cmp; lia.
  - split_and!; [done|lia|]. eexists. rewrite lookup_singleton_eq. done.
  - left.
  - intros h ->%list_elem_of_singleton. unfold node_ok, block_of, head, sizeof_pool, sizeof_node. simpl.
    rewrite lookup_singleton_eq, decide_True, lookup_insert_eq by done.
    eexists _, _. split_and!; try done; simpl; lia.
  - intros l Hl. by apply elem_of_nil in Hl.
  - constructor; [by apply not_elem_of_nil|constructor].
  - intros r Hr. by apply elem_of_nil in Hr.
  - intros r Hr. by apply elem_of_nil in Hr.
Qed.

(** ** Properties *)

(** a pool is created empty and well formed, of one node, when the memory at
    [head->next] happens to be null. *)
Theorem mp_create_pool_wf b size st : alloc_ok → blocks_ok b → 0 ≤ size < 2 ^ 62 →
  mp_create_pool b 0 size = Some st →
  wf st size [head st] [] [] ∧ ∃ n, blocks st = <[self st := n]> b ∧ b !! self st = None.
Proof. apply create_wf. Qed.

(** C5: [mp_alloc] on a well-formed pool of at least 16 bytes whose nodes have room
    up to their aligned [last] returns, without unbounded recursion, either null
    with the heap unchanged or an aligned region inside a block of the pool that
    overlaps neither a region in use nor any of the pool's records, and the pool
    stays well formed. *)
Theorem mp_alloc_safe st sz ns ls L size : alloc_ok → wf st sz ns ls L → sizeof_large ≤ max (pool st) →
  0 ≤ size → room align32 st ns →
  ∃ r st', mp_alloc 2 st size = Ok (r, st') ∧
    ((r = None ∧ st' = st) ∨
     ∃ m ns' ls' L', r = Some m ∧ wf st' sz ns' ls' ((m, size) :: L') ∧ Forall (disj (m, size)) L ∧
       (if size <=? max (pool st) then m mod 32 = 0 ∧ L' = L
        else m mod 16 = 0 ∧ (L' = L ∨ ∃ l, L' = (l, sizeof_large) :: L))).
Proof.
  intros Hal Hwf H16 Hsize Hroom.
  change (mp_alloc 2 st size) with
    (if size <=? max (pool st) then alloc_small align32 st size else mp_alloc_large (mp_alloc 1) st size).
  destruct (Z.leb_spec size (max (pool st))) as [Hle|Hgt].
  - destruct (alloc_small_spec align32 st sz ns ls L size Hal Hwf ltac:(lia) Hroom)
      as (r & st' & -> & _ & [?|(m & ns' & -> & Hwf' & _ & _ & Hm)]); [exists r, st'; split; [done|by left]|].
    exists (Some m), st'. split; [done|]. right. exists m, ns', ls, L. split_and!; try done.
    + by destruct (wf_disj _ _ _ _ _ Hwf').
    + destruct Hm as [(x & Hx & ->)|?]; [by apply align_ptr_spec|done].
  - destruct (alloc_large_spec 0 st sz ns ls L size Hal Hwf H16 Hsize Hroom) as
      (r & st' & -> & [?|(p & ns' & ls' & L' & -> & Hwf' & Hm & HL)]); [exists r, st'; split; [done|by left]|].
    exists (Some p), st'. split; [done|]. right. exists p, ns', ls', L'. split_and!; try done.
    destruct (wf_disj _ _ _ _ _ Hwf') as [Hd _].
    destruct HL as [->|[l ->]]; [done|]. by apply Forall_cons in Hd as [_ ?].
Qed.

(** [mp_nalloc] of a small size is safe on every well-formed pool. *)
Theorem mp_nalloc_safe st sz ns ls L size : alloc_ok → wf st sz ns ls L → 0 ≤ size ≤ max (pool st) →
  ∃ r st', mp_nalloc st size = Ok (r, st') ∧
    ((r = None ∧ st' = st) ∨
     ∃ m ns', r = Some m ∧ wf st' sz ns' ls ((m, size) :: L) ∧ Forall (disj (m, size)) L).
Proof.
  intros Hal Hwf Hsize. unfold mp_nalloc. rewrite (proj2 (Z.leb_le _ _)) by lia.
  destruct (alloc_small_spec (λ p, p) st sz ns ls L size Hal Hwf Hsize) as
    (r & st' & -> & _ & [?|(m & ns' & -> & Hwf' & _)]).
  - intros h nd Hh Hnd. destruct (wf_node _ _ _ _ _ Hwf h Hh) as (nd' & n & ? & ? & ? & ? & _).
    simplify_eq. lia.
  - exists r, st'. split; [done|by left].
  - exists (Some m), st'. split; [done|]. right. exists m, ns'. split_and!; try done.
    by destruct (wf_disj _ _ _ _ _ Hwf').
Qed.

(** when less than the padding is left in the current node, the unsigned
    difference [end - m] wraps and [mp_alloc] returns, for every small size, an
    address beyond the end of the block. *)
Theorem mp_alloc_overrun st sz ns ls L size nd : wf st sz ns ls L → 0 ≤ size ≤ max (pool st) →
  nodes st !! current (pool st) = Some nd → end_ nd < align32 (last nd) →
  ∃ st', mp_alloc 2 st size = Ok (Some (align32 (last nd)), st') ∧
    ∃ b n, blocks st !! b = Some n ∧ b ≤ last nd ∧ b + n < align32 (last nd).
Proof.
  intros Hwf Hsize Hnd Hend. cbn [mp_alloc]. rewrite (proj2 (Z.leb_le _ _)) by lia.
  pose proof (wf_current _ _ _ _ _ Hwf) as Hcur. pose proof (wf_max _ _ _ _ _ Hwf) as Hmax.
  destruct (wf_node _ _ _ _ _ Hwf _ Hcur) as (nd' & n & Hnd' & Hb & H1 & H2 & H3 & H4 & _).
  assert (nd' = nd) as -> by congruence.
  destruct (wf_blocks _ _ _ _ _ Hwf) as [B _]. destruct (B _ _ Hb) as (B1 & B2 & B3).
  assert (Hbc : block_of st (current (pool st)) ≤ current (pool st))
    by (unfold block_of, head, sizeof_pool; case_decide; lia).
  unfold sizeof_node in *. destruct (align_ptr_spec (last nd)) as [[A1 A2] _]; [lia|].
  unfold alloc_small, list_fuel. cbn [alloc_from]. unfold node. rewrite Hnd. cbn [mbind res_bind get_or].
  fold align32 in A1, A2. fold align32. unfold align32 in *.
  assert (Hu : u64 (end_ nd - mp_align_ptr (last nd) MP_ALIGNMENT) =
    end_ nd - mp_align_ptr (last nd) MP_ALIGNMENT + 2 ^ 64).
  { unfold u64. symmetry. apply (Z.mod_unique _ _ (-1)); [left|]; lia. }
  rewrite Hu, (proj2 (Z.leb_le _ _)) by lia. cbn [mbind res_bind].
  eexists. split; [done|]. exists (block_of st (current (pool st))), n. split_and!; [done|lia|lia].
Qed.

End pool.

(** ** Freeing *)

(** [b'] is [b] without the blocks [l]. *)
Definition freed (b : gmap Z Z) (l : list Z) (b' : gmap Z Z) : Prop :=
  ∀ a, b' !! a = if decide (a ∈ l) then None else b !! a.

Lemma freed_nil b : freed b [] b.
Proof. intros a. by rewrite decide_False by apply not_elem_of_nil. Qed.

Lemma freed_cons b a l b' : freed (delete a b) l b' → freed b (a :: l) b'.
Proof.
  intros H c. rewrite H. destruct (decide (c = a)) as [->|Hne].
  - rewrite lookup_delete_eq, (decide_True (P := a ∈ a :: l)) by left. by case_decide.
  - rewrite lookup_delete_ne by done. apply decide_ext. rewrite elem_of_cons. naive_solver.
Qed.

Lemma freed_app b b1 b2 l1 l2 : freed b l1 b1 → freed b1 l2 b2 → freed b (l1 ++ l2) b2.
Proof.
  intros H1 H2 c. rewrite H2, H1. repeat case_decide; try done; rewrite elem_of_app in *; naive_solver.
Qed.

Lemma free_ok b a : a ≠ 0 → is_Some (b !! a) → free b a = Ok (delete a b).
Proof. intros H0 [n Hn]. unfold free. by rewrite (proj2 (Z.eqb_neq _ _) H0), Hn. Qed.

Definition allocs (lgs : gmap Z mp_large_s) (ls : list Z) : list Z :=
  filter (λ a, a ≠ 0) ((λ l, from_option lalloc 0 (lgs !! l)) <$> ls).

Lemma free_larges_spec fuel : ∀ st l ls, chain lnext (larges st) l ls → (length ls < fuel)%nat →
  NoDup (allocs (larges st) ls) → (∀ a, a ∈ allocs (larges st) ls → is_Some (blocks st !! a)) →
  ∃ b, free_larges fuel st l = Ok (set_blocks st b) ∧ freed (blocks st) (allocs (larges st) ls) b.
Proof.
  induction fuel as [|fuel IH]; intros st l ls Hc Hf Hnd Hin; [lia|]. simpl.
  destruct ls as [|x t].
  { simpl in Hc. subst l. exists (blocks st). split; [by destruct st|apply freed_nil]. }
  destruct Hc as (-> & Hx0 & lg & Hlg & Hc). rewrite (proj2 (Z.eqb_neq _ _) Hx0).
  unfold large_at. rewrite Hlg. cbn [mbind res_bind get_or].
  unfold allocs in *. rewrite fmap_cons, filter_cons, Hlg in *. simpl in *.
  destruct (Z.eqb_spec (lalloc lg) 0) as [H0|H0]; case_decide; try done; cbn [mbind res_bind].
  - destruct (IH (set_blocks st (blocks st)) (lnext lg) t Hc) as (b & -> & Hb); [lia|done|done|].
    by exists b.
  - apply NoDup_cons in Hnd as [Hni Hnd].
    rewrite free_ok by (done || apply Hin; left). cbn [mbind res_bind].
    destruct (IH (set_blocks st (delete (lalloc lg) (blocks st))) (lnext lg) t Hc) as (b & -> & Hb);
      [lia|done| |].
    + intros a Ha. simpl. rewrite lookup_delete_ne by (intros <-; done). apply Hin. by right.
    + exists b. split; [done|]. by apply freed_cons.
Qed.

Lemma free_nodes_spec fuel : ∀ st h ns, chain next (nodes st) h ns → (length ns < fuel)%nat →
  (∀ a, a ∈ ns → is_Some (blocks st !! a)) →
  ∃ st', free_nodes fuel st h = Ok st' ∧ self st' = self st ∧ freed (blocks st) ns (blocks st').
Proof.
  induction fuel as [|fuel IH]; intros st h ns Hc Hf Hin; [lia|]. simpl.
  destruct ns as [|x t].
  { simpl in Hc. subst h. exists st. split_and!; [done|done|apply freed_nil]. }
  pose proof (chain_NoDup _ _ _ _ Hc) as [Hni Hnd]%NoDup_cons.
  destruct Hc as (-> & Hx0 & nd & Hn & Hc). rewrite (proj2 (Z.eqb_neq _ _) Hx0).
  unfold node. rewrite Hn. cbn [mbind res_bind get_or].
  rewrite free_ok by (done || apply Hin; left). cbn [mbind res_bind].
  destruct (IH (Mem (delete x (blocks st)) (delete x (nodes st)) (larges st) (self st) (pool st)) (next nd) t)
    as (st' & -> & Hs & Hb); simpl in *; [|lia| |].
  - eapply chain_ext; [|done]. intros y Hy. by rewrite lookup_delete_ne by (intros ->; done).
  - intros a Ha. rewrite lookup_delete_ne by (intros ->; done). apply Hin. by right.
  - exists st'. split_and!; [done|done|]. by apply freed_cons.
Qed.

Lemma reset_nodes_spec fuel : ∀ st h ns, chain next (nodes st) h ns → (length ns < fuel)%nat →
  ∃ nn, reset_nodes fuel st h = Ok (set_nodes st nn) ∧
    ∀ x, nn !! x = if decide (x ∈ ns) then
        (λ nd, Node (x + sizeof_node) (end_ nd) (next nd) (failed nd)) <$> nodes st !! x
      else nodes st !! x.
Proof.
  induction fuel as [|fuel IH]; intros st h ns Hc Hf; [lia|]. simpl.
  destruct ns as [|y t].
  { simpl in Hc. subst h. exists (nodes st). split; [by destruct st|]. intros x.
    by rewrite decide_False by apply not_elem_of_nil. }
  pose proof (chain_NoDup _ _ _ _ Hc) as [Hni Hnd]%NoDup_cons.
  destruct Hc as (-> & Hx0 & nd & Hn & Hc). rewrite (proj2 (Z.eqb_neq _ _) Hx0).
  unfold node. rewrite Hn. cbn [mbind res_bind get_or]. set (nd' := Node _ _ _ _).
  destruct (IH (set_nodes st (<[y := nd']> (nodes st))) (next nd) t) as (nn & -> & Hnn); simpl in *; [|lia|].
  - eapply chain_ext; [|done]. intros x Hx. by rewrite lookup_insert_ne by (intros ->; done).
  - exists nn. split; [done|]. intros x. rewrite Hnn. destruct (decide (x = y)) as [->|Hne].
    + rewrite decide_False, decide_True, lookup_insert_eq, Hn by (done || left). done.
    + rewrite lookup_insert_ne by done. apply decide_ext. rewrite elem_of_cons. naive_solver.
Qed.

Lemma free_large_spec fuel p : ∀ st l ls, chain lnext (larges st) l ls → (length ls < fuel)%nat →
  p ≠ 0 → is_Some (blocks st !! p) → (∃ x, x ∈ ls ∧ alloc_of st x = p) →
  ∃ x lg, x ∈ ls ∧ larges st !! x = Some lg ∧ lalloc lg = p ∧
    free_large fuel st l p =
      Ok (set_larges (set_blocks st (delete p (blocks st))) (<[x := Large (lnext lg) 0]> (larges st))).
Proof.
  induction fuel as [|fuel IH]; intros st l ls Hc Hf Hp0 Hp (x & Hx & Ha); [lia|]. simpl.
  destruct ls as [|y t]; [by apply elem_of_nil in Hx|].
  destruct Hc as (-> & Hy0 & lg & Hlg & Hc). rewrite (proj2 (Z.eqb_neq _ _) Hy0).
  unfold large_at. rewrite Hlg. cbn [mbind res_bind get_or].
  destruct (Z.eqb_spec p (lalloc lg)) as [E|E].
  - rewrite <-E, free_ok by done. cbn [mbind res_bind]. exists y, lg. split_and!; try done. left.
  - destruct (IH st (lnext lg) t Hc) as (z & lg' & Hz & H1 & H2 & ->); [simpl in *; lia|done|done| |].
    + exists x. split; [|done]. apply elem_of_cons in Hx as [->|Hx]; [|done].
      unfold alloc_of in Ha. rewrite Hlg in Ha. simpl in Ha. congruence.
    + exists z, lg'. split_and!; try done. by right.
Qed.

Lemma owned_split st sz ns ls L : wf st sz ns ls L → ∃ t,
  ns = head st :: t ∧ owned st ns ls = self st :: t ++ allocs (larges st) ls.
Proof.
  intros Hwf. destruct (head_node _ _ _ _ _ Hwf) as [Hhd _].
  pose proof (wf_nodes _ _ _ _ _ Hwf) as Hn. pose proof (chain_NoDup _ _ _ _ Hn) as Hnd.
  destruct ns as [|x t]; [by apply elem_of_nil in Hhd|]. destruct Hn as (<- & _). exists t. split; [done|].
  apply NoDup_cons in Hnd as [Hni _]. unfold owned. rewrite fmap_cons.
  unfold block_of at 1. rewrite decide_True by done. simpl. f_equal. f_equal.
  rewrite <-(list_fmap_id t) at 2. apply list_fmap_ext. intros i y Hy. simpl.
  unfold block_of. rewrite decide_False; [done|]. intros ->. apply Hni. by eapply list_elem_of_lookup_2.
Qed.

Lemma list_fuel_larges st sz ns ls L : wf st sz ns ls L → (length ls < list_fuel st)%nat.
Proof. intros Hwf. pose proof (wf_larges _ _ _ _ _ Hwf) as Hc%chain_length. unfold list_fuel. lia. Qed.
Lemma list_fuel_nodes st sz ns ls L : wf st sz ns ls L → (length ns < list_fuel st)%nat.
Proof. intros Hwf. pose proof (wf_nodes _ _ _ _ _ Hwf) as Hc%chain_length. unfold list_fuel. lia. Qed.

Lemma owned_is_block st sz ns ls L t : wf st sz ns ls L →
  owned st ns ls = self st :: t ++ allocs (larges st) ls →
  NoDup (allocs (larges st) ls) ∧ (∀ a, a ∈ allocs (larges st) ls → is_Some (blocks st !! a)).
Proof.
  intros Hwf E. pose proof (wf_owned _ _ _ _ _ Hwf) as Hnd. rewrite E in Hnd.
  apply NoDup_cons in Hnd as [_ Hnd]. apply NoDup_app in Hnd as (_ & _ & Hnd).
  split; [done|]. intros a Ha. eapply owned_blocks; [done|]. rewrite E. right. apply elem_of_app. by right.
Qed.

Lemma freed_blocks_ok b l b' : blocks_ok b → freed b l b' → blocks_ok b'.
Proof.
  intros [B1 B2] Hf. assert (Hsub : ∀ a n, b' !! a = Some n → b !! a = Some n).
  { intros a n Ha. rewrite Hf in Ha. by case_decide. }
  split; eauto.
Qed.

(** freeing a large block gives exactly it back, and leaves its header for reuse. *)
Theorem mp_free_correct st sz ns ls L p n : wf st sz ns ls ((p, n) :: L) → 0 < n →
  in_large st ls (p, n) → p ∉ ls →
  ∃ st', mp_free st p = Ok st' ∧ wf st' sz ns ls L ∧ blocks st' = delete p (blocks st).
Proof.
  intros Hwf Hn (l0 & Hl0 & Ha0 & Hp0 & Hpb) Hpl. simpl in *. unfold mp_free.
  pose proof Hwf as [Wb Wm Wn Wl Wc Wnode Wh Wa Wo Wr Ws [Wd1 Wd]].
  destruct (free_large_spec (list_fuel st) p st _ ls Wl) as (x & lg & Hx & Hlg & Hlp & ->);
    [by eapply list_fuel_larges|done|by eexists|by exists l0|].
  eexists. split; [done|]. split; [|done]. set (lgs := <[x := Large (lnext lg) 0]> (larges st)).
  set (st' := set_larges _ _).
  assert (Hax : alloc_of st x = p) by (unfold alloc_of; rewrite Hlg; done).
  assert (Hax' : alloc_of st' x = 0) by (unfold alloc_of; simpl; unfold lgs; by rewrite lookup_insert_eq).
  assert (Hne : ∀ y, y ≠ x → alloc_of st' y = alloc_of st y)
    by (intros y Hy; unfold alloc_of; simpl; unfold lgs; by rewrite lookup_insert_ne).
  pose proof (chain_NoDup _ _ _ _ Wl) as Hndl.
  pose proof (filter_alloc_cons (alloc_of st') (alloc_of st) ls x p Hndl Hx Hax' Hax Hp0
    (λ y _ Hy, eq_sym (Hne y Hy))) as Hfil.
  unfold owned in Wo. rewrite Hfil, <-Permutation_middle in Wo. apply NoDup_cons in Wo as [Hpo Wo].
  assert (Hkeep : ∀ c k, c ≠ p → blocks st !! c = Some k → blocks st' !! c = Some k)
    by (intros c k Hc Hk; simpl; by rewrite lookup_delete_ne).
  split; try done.
  - eapply freed_blocks_ok; [exact Wb|]. apply freed_cons, freed_nil.
  - eapply chain_ext; [|done]. intros y _. simpl. unfold lgs. destruct (decide (y = x)) as [->|Hy].
    + by rewrite lookup_insert_eq, Hlg.
    + by rewrite lookup_insert_ne.
  - intros h Hh. destruct (Wnode h Hh) as (nd & k & H1 & H2 & H3). exists nd, k. split; [done|].
    split; [|done]. apply Hkeep; [|done]. intros E. apply Hpo, elem_of_app. left. rewrite <-E.
    by apply list_elem_of_fmap_2.
  - intros y Hy. pose proof (Wh y Hy) as [[= E _]|?]%elem_of_cons; [by subst|done].
  - intros y Hy. destruct (decide (y = x)) as [->|Hyx]; [done|]. rewrite (Hne y Hyx). intros Hy0.
    destruct (Wa y Hy Hy0) as [k Hk]. exists k. apply Hkeep; [|done]. intros E.
    apply Hpo, elem_of_app. right. apply list_elem_of_filter. split; [done|].
    rewrite <-E, <-(Hne y Hyx). by apply list_elem_of_fmap_2.
  - intros r Hr. destruct (Wr r ltac:(by right)) as [?|(y & Hy & H1 & H2 & H3)]; [by left|right].
    assert (r.1 ≠ p) as Hrp.
    { intros E. rewrite Forall_forall in Wd1. specialize (Wd1 r Hr). rewrite E in H3. simplify_eq.
      unfold disj in Wd1. simpl in Wd1. lia. }
    exists y. split_and!; [done| |done|by apply Hkeep].
    rewrite Hne; [done|]. intros ->. congruence.
  - intros r Hr. apply Ws. by right.
Qed.

(** resetting frees every large block, and gives every node's space back. *)
Theorem mp_reset_pool_correct st sz ns ls L : wf st sz ns ls L →
  ∃ st', mp_reset_pool st = Ok st' ∧ wf st' sz ns [] [] ∧
    freed (blocks st) (allocs (larges st) ls) (blocks st') ∧
    ∀ h, h ∈ ns → last <$> nodes st' !! h = Some (h + sizeof_node).
Proof.
  intros Hwf. destruct (owned_split _ _ _ _ _ Hwf) as (t & Ens & Eo).
  destruct (owned_is_block _ _ _ _ _ _ Hwf Eo) as [Hnda Hina].
  pose proof (wf_owned _ _ _ _ _ Hwf) as Hnd. unfold owned in Hnd.
  apply NoDup_app in Hnd as (Hnd & Hdis & _).
  pose proof Hwf as [Wb Wm Wn Wl Wc Wnode Wh Wa Wo Wr Ws Wd].
  unfold mp_reset_pool.
  destruct (free_larges_spec (list_fuel st) st _ ls Wl) as (b & -> & Hb);
    [by eapply list_fuel_larges|done|done|]. cbn [mbind res_bind].
  destruct (reset_nodes_spec (list_fuel st) (set_large (set_blocks st b) 0) (head st) ns Wn) as (nn & Hr & Hnn);
    [by eapply list_fuel_nodes|].
  eexists. split; [exact Hr|]. simpl in Hnn.
  assert (Hin : ∀ h nd, h ∈ ns → nodes st !! h = Some nd →
    nn !! h = Some (Node (h + sizeof_node) (end_ nd) (next nd) (failed nd))).
  { intros h nd Hh Hh'. rewrite Hnn, decide_True, Hh' by done. done. }
  split; [|split; [done|]].
  - split; simpl; try done.
    + by eapply freed_blocks_ok.
    + eapply chain_ext; [|done]. intros x Hx. destruct (chain_dom _ _ _ _ x Wn Hx) as (_ & nd & Hx').
      by rewrite (Hin x nd Hx Hx'), Hx'.
    + intros h Hh. destruct (Wnode h Hh) as (nd & n & H1 & H2 & H3 & H4 & H5 & H6 & H7).
      exists (Node (h + sizeof_node) (end_ nd) (next nd) (failed nd)), n. split; [by apply Hin|].
      simpl. split; [|split_and!; try done; lia]. rewrite Hb. rewrite decide_False; [done|].
      intros Hbad. apply (Hdis (block_of st h)); [by apply list_elem_of_fmap_2|done].
    + intros l Hl. by apply elem_of_nil in Hl.
    + intros l Hl. by apply elem_of_nil in Hl.
    + unfold owned. by rewrite app_nil_r.
    + intros r Hr'. by apply elem_of_nil in Hr'.
    + intros r Hr'. by apply elem_of_nil in Hr'.
  - intros h Hh. destruct (chain_dom _ _ _ _ h Wn Hh) as (_ & nd & Hh'). simpl. by rewrite (Hin h nd).
Qed.

(** destroying a pool frees exactly the blocks it owns, each once. *)
Theorem mp_destory_pool_correct st sz ns ls L : wf st sz ns ls L →
  ∃ b, mp_destory_pool st = Ok b ∧ freed (blocks st) (owned st ns ls) b.
Proof.
  intros Hwf. destruct (owned_split _ _ _ _ _ Hwf) as (t & Ens & Eo).
  destruct (owned_is_block _ _ _ _ _ _ Hwf Eo) as [Hnda Hina].
  pose proof (wf_owned _ _ _ _ _ Hwf) as Hnd. rewrite Eo in Hnd.
  apply NoDup_cons in Hnd as [Hself Hnd]. apply NoDup_app in Hnd as (_ & Hdis & _).
  pose proof (λ a, owned_blocks _ _ _ _ _ a Hwf) as Hblk. rewrite Eo in Hblk.
  pose proof (wf_nodes _ _ _ _ _ Hwf) as Hn. unfold mp_destory_pool.
  destruct (free_larges_spec (list_fuel st) st _ ls (wf_larges _ _ _ _ _ Hwf)) as (b & -> & Hb);
    [by eapply list_fuel_larges|done|done|]. cbn [mbind res_bind].
  pose proof (list_fuel_nodes _ _ _ _ _ Hwf) as Hf. rewrite Ens in Hn, Hf.
  destruct Hn as (_ & Hh0 & hd & Hhd & Hn).
  unfold node. change (nodes (set_blocks st b)) with (nodes st). change (head (set_blocks st b)) with (head st).
  rewrite Hhd. cbn [mbind res_bind get_or].
  destruct (free_nodes_spec (list_fuel (set_blocks st b)) (set_blocks st b) (next hd) t Hn) as (st' & -> & Hs & Hb').
  - unfold list_fuel in *. simpl in *. lia.
  - intros a Ha. simpl. rewrite Hb, decide_False by (by apply Hdis). apply Hblk. right. apply elem_of_app. by left.
  - simpl in Hs, Hb'. cbn [mbind res_bind]. rewrite Hs.
    pose proof (freed_app _ _ _ _ _ Hb Hb') as Hfr.
    rewrite free_ok.
    + eexists. split; [done|]. rewrite Eo. intros c.
      destruct (decide (c = self st)) as [->|Hc].
      * rewrite lookup_delete_eq, decide_True by left. done.
      * rewrite lookup_delete_ne, Hfr by done. apply decide_ext. rewrite elem_of_cons, !elem_of_app. naive_solver.
    + destruct (wf_blocks _ _ _ _ _ Hwf) as [B _]. destruct (Hblk (self st) ltac:(left)) as [k Hk].
      destruct (B _ _ Hk). lia.
    + rewrite Hfr, decide_False; [apply Hblk; left|]. intros Hin. apply Hself.
      rewrite elem_of_app in *. naive_solver.
Qed.

(** ** A concrete allocator and pools *)

(** The first aligned address above every block. *)
Definition heap_end (b : gmap Z Z) : Z := map_fold (λ a n m, Z.max (a + Z.max n 1) m) 4096 b.
Definition ex_alloc (b : gmap Z Z) (al sz : Z) : option Z :=
  let a := (heap_end b + (al - 1)) / al * al in if a + sz <? 2 ^ 63 then Some a else None.

Lemma heap_end_above b : 4096 ≤ heap_end b ∧ ∀ c k, b !! c = Some k → c + Z.max k 1 ≤ heap_end b.
Proof.
  unfold heap_end. apply (map_fold_weak_ind (λ r m, 4096 ≤ r ∧ ∀ c k, m !! c = Some k → c + Z.max k 1 ≤ r)).
  - split; [lia|]. intros c k Hc. by rewrite lookup_empty in Hc.
  - intros i x m r Hi [H1 H2]. split; [lia|].
    intros c k [[<- <-]|[_ Hc]]%lookup_insert_Some; [lia|]. specialize (H2 c k Hc). lia.
Qed.

Lemma ex_alloc_ok : alloc_ok ex_alloc.
Proof.
  intros b al sz a Hal Hsz. unfold ex_alloc. destruct (heap_end_above b) as [H1 H2].
  set (q := (heap_end b + (al - 1)) / al).
  assert (heap_end b ≤ q * al).
  { unfold q. pose proof (Z.div_mod (heap_end b + (al - 1)) al ltac:(lia)).
    pose proof (Z.mod_pos_bound (heap_end b + (al - 1)) al Hal). nia. }
  destruct (Z.ltb_spec (q * al + sz) (2 ^ 63)); [|done]. intros [= <-].
  split_and!; [lia|by apply Z.mod_mul; lia|lia| |].
  - destruct (b !! (q * al)) as [k|] eqn:E; [|done]. specialize (H2 _ _ E). lia.
  - intros c k Hc. specialize (H2 c k Hc). lia.
Qed.

Definition ex_st : mem := Mem {[4096 := 4152]} {[4120 := Node 4152 8248 0 0]} ∅ 4096 (Pool 4095 4120 0).
Lemma ex_create : mp_create_pool ex_alloc ∅ 0 4096 = Some ex_st.
Proof. by vm_compute. Qed.
Lemma blocks_ok_empty : blocks_ok ∅.
Proof. split; intros a n; [|intros c k]; intros H; by rewrite lookup_empty in H. Qed.
Lemma ex_wf : wf ex_st 4096 [4120] [] [].
Proof. apply (create_wf ex_alloc ∅ 4096 ex_st ex_alloc_ok blocks_ok_empty); [lia|exact ex_create]. Qed.

Example mp_create_pool_wf_witness : wf ex_st 4096 [4120] [] [] ∧
  ∃ n, blocks ex_st = <[self ex_st := n]> ∅ ∧ (∅ : gmap Z Z) !! self ex_st = None.
Proof. apply (mp_create_pool_wf ex_alloc ∅ 4096 ex_st ex_alloc_ok blocks_ok_empty); [lia|exact ex_create]. Defined.

Lemma ex_room : room align32 ex_st [4120].
Proof.
  intros h nd ->%list_elem_of_singleton. simpl. rewrite lookup_singleton_eq. intros [= <-]. by vm_compute.
Qed.

Example mp_alloc_safe_witness : ∃ r st', mp_alloc ex_alloc 2 ex_st 512 = Ok (r, st') ∧
    ((r = None ∧ st' = ex_st) ∨
     ∃ m ns' ls' L', r = Some m ∧ wf st' 4096 ns' ls' ((m, 512) :: L') ∧ Forall (disj (m, 512)) [] ∧
       (if 512 <=? max (pool ex_st) then m mod 32 = 0 ∧ L' = []
        else m mod 16 = 0 ∧ (L' = [] ∨ ∃ l, L' = [(l, sizeof_large)]))).
Proof. apply (mp_alloc_safe ex_alloc ex_st 4096 [4120] [] [] 512 ex_alloc_ok ex_wf); [done|done|exact ex_room]. Defined.

Example mp_nalloc_safe_witness : ∃ r st', mp_nalloc ex_alloc ex_st 100 = Ok (r, st') ∧
    ((r = None ∧ st' = ex_st) ∨
     ∃ m ns', r = Some m ∧ wf st' 4096 ns' [] [(m, 100)] ∧ Forall (disj (m, 100)) []).
Proof. apply (mp_nalloc_safe ex_alloc ex_st 4096 [4120] [] [] 100 ex_alloc_ok ex_wf). by vm_compute. Defined.

(** After an allocation of 4072 bytes, 16 are left, less than the padding. *)
Definition ex_full : mem := set_nodes ex_st (<[4120 := Node 8232 8248 0 0]> (nodes ex_st)).
Lemma ex_full_wf : wf ex_full 4096 [4120] [] [(4160, 4072)].
Proof. apply (bump_wf ex_st 4096 [4120] [] [] 4120 (Node 4152 8248 0 0) 4160 4072 ex_wf); [left|done|done|done|done]. Qed.

Example mp_alloc_overrun_witness :
  ∃ st', mp_alloc ex_alloc 2 ex_full 1 = Ok (Some (align32 8232), st') ∧
    ∃ b n, blocks ex_full !! b = Some n ∧ b ≤ 8232 ∧ b + n < align32 8232.
Proof.
  apply (mp_alloc_overrun ex_alloc ex_full 4096 [4120] [] [(4160, 4072)] 1 (Node 8232 8248 0 0) ex_full_wf);
    by vm_compute.
Defined.

(** A pool with one large block. *)
Definition ex_large : mem :=
  Mem (<[8256 := 5000]> {[4096 := 4152]}) {[4120 := Node 4176 8248 0 0]} {[4160 := Large 0 8256]}
      4096 (Pool 4095 4120 4160).
Lemma ex_large_alloc : mp_alloc ex_alloc 2 ex_st 5000 = Ok (Some 8256, ex_large).
Proof. by vm_compute. Qed.
Lemma ex_large_wf : wf ex_large 4096 [4120] [4160] [(8256, 5000); (4160, 16)].
Proof.
  split.
  - unfold ex_large. split; simpl blocks.
    + intros a n [[<- <-]|[_ [<- <-]%lookup_singleton_Some]]%lookup_insert_Some; lia.
    + intros a n c k [[<- <-]|[_ [<- <-]%lookup_singleton_Some]]%lookup_insert_Some
        [[<- <-]|[_ [<- <-]%lookup_singleton_Some]]%lookup_insert_Some Hne; unfold disj; simpl; lia.
  - by vm_compute.
  - split_and!; [done|done|]. by eexists.
  - split_and!; [done|done|]. by eexists.
  - left.
  - intros h ->%list_elem_of_singleton. eexists _, _. split_and!; by vm_compute.
  - intros l ->%list_elem_of_singleton. right; left.
  - intros l ->%list_elem_of_singleton _. by eexists.
  - by apply (bool_decide_eq_true_1 (NoDup _)); vm_compute.
  - intros r [->| ->%list_elem_of_singleton]%elem_of_cons.
    + right. exists 4160. split_and!; [left|done|done|done].
    + left. exists 4120, (Node 4176 8248 0 0). split_and!; [left|done|done|done].
  - intros r [->| ->%list_elem_of_singleton]%elem_of_cons; done.
  - split; [|by repeat constructor]. constructor; [|constructor]. unfold disj. simpl. lia.
Qed.

Example mp_free_correct_witness :
  ∃ st', mp_free ex_large 8256 = Ok st' ∧ wf st' 4096 [4120] [4160] [(4160, 16)] ∧
    blocks st' = delete 8256 (blocks ex_large).
Proof.
  apply (mp_free_correct ex_large 4096 [4120] [4160] [(4160, 16)] 8256 5000 ex_large_wf); [done| |].
  - exists 4160. split_and!; [left|done|done|done].
  - intros E%list_elem_of_singleton. done.
Defined.

Example mp_reset_pool_correct_witness :
  ∃ st', mp_reset_pool ex_large = Ok st' ∧ wf st' 4096 [4120] [] [] ∧
    freed (blocks ex_large) (allocs (larges ex_large) [4160]) (blocks st') ∧
    ∀ h, h ∈ [4120] → last <$> nodes st' !! h = Some (h + sizeof_node).
Proof. apply (mp_reset_pool_correct ex_large 4096 [4120] [4160] _ ex_large_wf). Defined.

Example mp_destory_pool_correct_witness :
  ∃ b, mp_destory_pool ex_large = Ok b ∧ freed (blocks ex_large) (owned ex_large [4120] [4160]) b.
Proof. apply (mp_destory_pool_correct ex_large 4096 [4120] [4160] _ ex_large_wf). Defined.

(** In a pool of less than 16 bytes the header of a large block is itself large:
    [mp_alloc] and [mp_alloc_large] call each other for ever (here until the fuel
    is gone). *)
Example mp_alloc_no_end :
  match mp_create_pool ex_alloc ∅ 0 8 with
  | Some st => mp_alloc ex_alloc 50 st 100 = Err OutOfFuel
  | None => False
  end.
Proof. by vm_compute. Qed.

End MemPool.
