(* ===== verification/BTree.v ===== *)
(** * The B-tree of 1.1rbtree/btree.c

    Nodes live in a store indexed by address; each has a key array of [2t - 1]
    cells and a child array of [2t] cells, of which the first [num] and
    [num + 1] mean something.  Address 0 is the null pointer.  [calloc] is a
    parameter: the address of a fresh node (with its two arrays), or none. *)

From S2P Require Import Prelude.

Module BTree.

(** ** Data *)

(* src: 1.1rbtree/btree.c:18-23 _btree_node *)
Record btree_node : Type := Node {
  keys : list Z;        (* KEY_VALUE * *)
  childrens : list Z;   (* btree_node ** *)
  num : Z;
  leaf : Z
}.

Abbreviation heap := (gmap Z btree_node).

(* src: 1.1rbtree/btree.c:25-28 _btree *)
Record btree : Type := BTree { root : Z; t : Z; mem : heap }.

Definition set_keys x ks := Node ks (childrens x) (num x) (leaf x).
Definition set_childrens x cs := Node (keys x) cs (num x) (leaf x).
Definition set_num x n := Node (keys x) (childrens x) n (leaf x).

(** A node is read through a pointer. *)
Definition rd (h : heap) (p : Z) : res btree_node :=
  if p =? 0 then Err NullDeref else get_or UseAfterFree (h !! p).

Section btree.
Context (calloc : heap → option Z).

(** ** Operations *)

(* src: 1.1rbtree/btree.c:31-42 btree_create_node *)
Definition btree_create_node (h : heap) (t leaf : Z) : res (Z * heap) :=
  match calloc h with
  | None => Err AssertFailed
  | Some p => Ok (p, <[p := Node (replicate (Z.to_nat (2 * t - 1)) 0) (replicate (Z.to_nat (2 * t)) 0) 0 leaf]> h)
  end.

(* src: 1.1rbtree/btree.c:44-52 btree_destroy_node *)
Definition btree_destroy_node (h : heap) (p : Z) : res heap :=
  if p =? 0 then Err AssertFailed else _ ← rd h p; Ok (delete p h).

(* src: 1.1rbtree/btree.c:55-61 btree_create *)
Definition btree_create (h : heap) (t : Z) : res btree :=
  '(x, h) ← btree_create_node h t 1; Ok (BTree x t h).

(** [d[j] = s[j + off]] for [j] from 0 to [n - 1]. *)
Definition copy_from {A} (n : Z) (s : list A) (off : Z) (d : list A) : res (list A) :=
  for_up (Z.to_nat n) 0 (λ j d, v ← aget s (j + off); aset d j v) d.
(** [d[j + 1] = d[j]] for [j] from [hi] down to [lo]. *)
Definition move_up {A} (hi lo : Z) (d : list A) : res (list A) :=
  for_down (Z.to_nat (hi - lo + 1)) hi (λ j d, v ← aget d j; aset d (j + 1) v) d.

(* src: 1.1rbtree/btree.c:64-95 btree_split_child *)
Definition btree_split_child (h : heap) (t : Z) (x i : Z) : res heap :=
  xn ← rd h x;
  y ← aget (childrens xn) i;
  yn ← rd h y;
  '(z, h) ← btree_create_node h t (leaf yn);
  zn ← rd h z;
  zk ← copy_from (t - 1) (keys yn) t (keys zn);
  zc ← (if leaf yn =? 0 then copy_from t (childrens yn) t (childrens zn) else Ok (childrens zn));
  let h := <[z := Node zk zc (t - 1) (leaf zn)]> h in
  let h := <[y := set_num yn (t - 1)]> h in
  xn ← rd h x;
  xc ← move_up (num xn) (i + 1) (childrens xn);
  xc ← aset xc (i + 1) z;
  xk ← move_up (num xn - 1) i (keys xn);
  k ← aget (keys yn) (t - 1);
  xk ← aset xk i k;
  Ok (<[x := Node xk xc (num xn + 1) (leaf xn)]> h).

(** [while (i >= 0 && x->keys[i] > k) { x->keys[i+1] = x->keys[i]; i--; }];
    the argument is [i + 1]. *)
Fixpoint shift_greater (n : nat) (ks : list Z) (k : Z) : res (list Z * Z) :=
  match n with
  | O => Ok (ks, -1)
  | S n' =>
      v ← aget ks (Z.of_nat n');
      if k <? v then ks ← aset ks (Z.of_nat n' + 1) v; shift_greater n' ks k
      else Ok (ks, Z.of_nat n')
  end.

(** [while (i >= 0 && x->keys[i] > k) i--;] *)
Fixpoint skip_greater (n : nat) (ks : list Z) (k : Z) : res Z :=
  match n with
  | O => Ok (-1)
  | S n' =>
      v ← aget ks (Z.of_nat n');
      if k <? v then skip_greater n' ks k else Ok (Z.of_nat n')
  end.

(* src: 1.1rbtree/btree.c:97-120 btree_insert_nonfull *)
Fixpoint btree_insert_nonfull (fuel : nat) (h : heap) (t : Z) (x k : Z) : res heap :=
  match fuel with
  | O => Err OutOfFuel
  | S fuel =>
      xn ← rd h x;
      if leaf xn =? 1 then
        '(ks, i) ← shift_greater (Z.to_nat (num xn)) (keys xn) k;
        ks ← aset ks (i + 1) k;
        Ok (<[x := Node ks (childrens xn) (num xn + 1) (leaf xn)]> h)
      else
        i ← skip_greater (Z.to_nat (num xn)) (keys xn) k;
        c ← aget (childrens xn) (i + 1);
        cn ← rd h c;
        '(h, i) ← (if num cn =? 2 * t - 1 then
                     h ← btree_split_child h t x (i + 1);
                     xn ← rd h x;
                     m ← aget (keys xn) (i + 1);
                     Ok (h, if m <? k then i + 1 else i)
                   else Ok (h, i));
        xn ← rd h x;
        c ← aget (childrens xn) (i + 1);
        btree_insert_nonfull fuel h t c k
  end.

(* src: 1.1rbtree/btree.c:122-142 btree_insert *)
Definition btree_insert (T : btree) (key : Z) : res btree :=
  let t := t T in
  let r := root T in
  rn ← rd (mem T) r;
  if num rn =? 2 * t - 1 then
    '(node, h) ← btree_create_node (mem T) t 0;
    nn ← rd h node;
    cs ← aset (childrens nn) 0 r;
    h ← btree_split_child (<[node := set_childrens nn cs]> h) t node 0;
    nn ← rd h node;
    k0 ← aget (keys nn) 0;
    c ← aget (childrens nn) (if k0 <? key then 1 else 0);
    h ← btree_insert_nonfull (S (size h)) h t c key;
    Ok (BTree node t h)
  else
    h ← btree_insert_nonfull (S (size (mem T))) (mem T) t r key;
    Ok (BTree r t h).

(** The keys printed, in order. *)
(* src: 1.1rbtree/btree.c:144-154 btree_traverse *)
Fixpoint btree_traverse (fuel : nat) (h : heap) (x : Z) : res (list Z) :=
  match fuel with
  | O => Err OutOfFuel
  | S fuel =>
      xn ← rd h x;
      let visit i := if leaf xn =? 0 then c ← aget (childrens xn) i; btree_traverse fuel h c else Ok [] in
      out ← for_up (Z.to_nat (num xn)) 0
              (λ i out, o ← visit i; k ← aget (keys xn) i; Ok (out ++ o ++ [k])) [];
      o ← visit (num xn);
      Ok (out ++ o)
  end.

(** A line per node: its layer, [leaf] flag and keys. *)
(* src: 1.1rbtree/btree.c:156-177 btree_print *)
Fixpoint btree_print (fuel : nat) (h : heap) (node layer : Z) : res (list (Z * Z * list Z)) :=
  match fuel with
  | O => Err OutOfFuel
  | S fuel =>
      if node =? 0 then Ok []
      else
        p ← rd h node;
        ks ← for_up (Z.to_nat (num p)) 0 (λ i out, k ← aget (keys p) i; Ok (out ++ [k])) [];
        for_up (Z.to_nat (num p + 1)) 0
          (λ i out, c ← aget (childrens p) i;
             if c =? 0 then Ok out else o ← btree_print fuel h c (layer + 1); Ok (out ++ o))
          [(layer, leaf p, ks)]
  end.

Fixpoint bin_search_loop (fuel : nat) (ks : list Z) (low high key : Z) : res Z :=
  match fuel with
  | O => Err OutOfFuel
  | S fuel =>
      if low <=? high then
        let mid := Z.quot (i32 (low + high)) 2 in
        v ← aget ks mid;
        if v <? key then bin_search_loop fuel ks (mid + 1) high key
        else bin_search_loop fuel ks low (mid - 1) key
      else Ok low
  end.

(* src: 1.1rbtree/btree.c:180-196 btree_bin_search *)
Definition btree_bin_search (node : btree_node) (low high key : Z) : res Z :=
  if (high <? low) || (low <? 0) || (high <? 0) then Ok (-1)
  else bin_search_loop (S (Z.to_nat (high - low + 1))) (keys node) low high key.

(** [d[off + j] = s[j]] for [j] from 0 to [n - 1]. *)
Definition append_at {A} (n : Z) (s : list A) (off : Z) (d : list A) : res (list A) :=
  for_up (Z.to_nat n) 0 (λ j d, v ← aget s j; aset d (off + j) v) d.

(** The result is the new root, if it changes. *)
(* src: 1.1rbtree/btree.c:200-234 btree_merge *)
Definition btree_merge (T : btree) (node idx : Z) : res btree :=
  let t := t T in
  nn ← rd (mem T) node;
  left ← aget (childrens nn) idx;
  right ← aget (childrens nn) (idx + 1);
  ln ← rd (mem T) left;
  rn ← rd (mem T) right;
  k ← aget (keys nn) idx;
  lk ← aset (keys ln) (t - 1) k;
  lk ← append_at (t - 1) (keys rn) t lk;
  lc ← (if leaf ln =? 0 then append_at t (childrens rn) t (childrens ln) else Ok (childrens ln));
  let h := <[left := Node lk lc (num ln + t) (leaf ln)]> (mem T) in
  h ← btree_destroy_node h right;
  '(nk, nc) ← for_up (Z.to_nat (num nn - (idx + 1))) (idx + 1)
      (λ i '(ks, cs), k ← aget ks i; ks ← aset ks (i - 1) k;
                      c ← aget cs (i + 1); cs ← aset cs i c; Ok (ks, cs))
      (keys nn, childrens nn);
  let i := Z.max (idx + 1) (num nn) in
  nc ← aset nc (i + 1) 0;
  let h := <[node := Node nk nc (num nn - 1) (leaf nn)]> h in
  if num nn - 1 =? 0 then h ← btree_destroy_node h node; Ok (BTree left t h)
  else Ok (BTree (root T) t h).

(** [while (idx < node->num && key > node->keys[idx]) idx++;] on the [n] keys from [idx] on. *)
Fixpoint find_idx (n : nat) (ks : list Z) (idx key : Z) : res Z :=
  match n with
  | O => Ok idx
  | S n => v ← aget ks idx; if v <? key then find_idx n ks (idx + 1) key else Ok idx
  end.

(** Deletion of [idx] from a leaf. *)
Definition remove_from_leaf (T : btree) (node : Z) (nn : btree_node) (idx : Z) : res btree :=
  ks ← for_up (Z.to_nat (num nn - 1 - idx)) idx (λ i d, v ← aget d (i + 1); aset d i v) (keys nn);
  ks ← aset ks (num nn - 1) 0;
  let h := <[node := Node ks (childrens nn) (num nn - 1) (leaf nn)]> (mem T) in
  if num nn - 1 =? 0 then Ok (BTree 0 (t T) (delete node h))
  else Ok (BTree (root T) (t T) h).

(** A key moves from the child [idx + 1] up, and the key [idx] down to the child [idx]. *)
Definition borrow_from_next (h : heap) (node idx : Z) (nn : btree_node) (child right : Z) : res heap :=
  cn ← rd h child;
  rn ← rd h right;
  k ← aget (keys nn) idx;
  ck ← aset (keys cn) (num cn) k;
  c0 ← aget (childrens rn) 0;
  cc ← aset (childrens cn) (num cn + 1) c0;
  k0 ← aget (keys rn) 0;
  nk ← aset (keys nn) idx k0;
  '(rk, rc) ← for_up (Z.to_nat (num rn - 1)) 0
      (λ i '(ks, cs), k ← aget ks (i + 1); ks ← aset ks i k;
                      c ← aget cs (i + 1); cs ← aset cs i c; Ok (ks, cs))
      (keys rn, childrens rn);
  rk ← aset rk (num rn - 1) 0;
  cl ← aget rc (num rn);
  rc ← aset rc (num rn - 1) cl;
  rc ← aset rc (num rn) 0;
  let h := <[child := Node ck cc (num cn + 1) (leaf cn)]> h in
  let h := <[node := set_keys nn nk]> h in
  Ok (<[right := Node rk rc (num rn - 1) (leaf rn)]> h).

Definition borrow_from_prev (h : heap) (node idx : Z) (nn : btree_node) (child left : Z) : res heap :=
  cn ← rd h child;
  ln ← rd h left;
  '(ck, cc) ← for_down (Z.to_nat (num cn)) (num cn)
      (λ i '(ks, cs), k ← aget ks (i - 1); ks ← aset ks i k;
                      c ← aget cs i; cs ← aset cs (i + 1) c; Ok (ks, cs))
      (keys cn, childrens cn);
  c0 ← aget cc 0;
  cc ← aset cc 1 c0;
  cl ← aget (childrens ln) (num ln);
  cc ← aset cc 0 cl;
  k ← aget (keys nn) (idx - 1);
  ck ← aset ck 0 k;
  kl ← aget (keys ln) (num ln - 1);
  nk ← aset (keys nn) (idx - 1) kl;
  lk ← aset (keys ln) (num ln - 1) 0;
  lc ← aset (childrens ln) (num ln) 0;
  let h := <[child := Node ck cc (num cn + 1) (leaf cn)]> h in
  let h := <[node := set_keys nn nk]> h in
  Ok (<[left := Node lk lc (num ln - 1) (leaf ln)]> h).

(** Makes the child to descend into have at least [t] keys, where a sibling allows it;
    the result is the child to go on with. *)
Definition fix_child (T : btree) (node idx : Z) (nn : btree_node) (child : Z) : res (btree * Z) :=
  let t := t T in
  cn ← rd (mem T) child;
  if num cn =? t - 1 then
    left ← (if 0 <=? idx - 1 then aget (childrens nn) (idx - 1) else Ok 0);
    right ← (if idx + 1 <=? num nn then aget (childrens nn) (idx + 1) else Ok 0);
    lnum ← (if left =? 0 then Ok None else n ← rd (mem T) left; Ok (Some (num n)));
    rnum ← (if right =? 0 then Ok None else n ← rd (mem T) right; Ok (Some (num n)));
    let ge o := match o with Some n => t <=? n | None => false end in
    let minimal o := match o with Some n => n =? t - 1 | None => false end in
    if ge lnum || ge rnum then
      let richR := match lnum, rnum with
                   | Some l, Some r => l <? r
                   | None, Some _ => true
                   | _, None => false
                   end in
      h ← (if ge rnum && richR then borrow_from_next (mem T) node idx nn child right
           else borrow_from_prev (mem T) node idx nn child left);
      Ok (BTree (root T) t h, child)
    else if (match lnum with None => true | Some n => n =? t - 1 end) &&
            (match rnum with None => true | Some n => n =? t - 1 end) then
      if minimal lnum then T ← btree_merge T node (idx - 1); Ok (T, left)
      else if minimal rnum then T ← btree_merge T node idx; Ok (T, child)
      else Ok (T, child)
    else Ok (T, child)
  else Ok (T, child).

(** [keys[i]] of the node at [p]: the argument of a recursive call. *)
Definition key_at (h : heap) (p i : Z) : res Z := n ← rd h p; aget (keys n) i.

(* src: 1.1rbtree/btree.c:236-358 btree_delete_key *)
Fixpoint btree_delete_key (fuel : nat) (T : btree) (node key : Z) : res btree :=
  match fuel with
  | O => Err OutOfFuel
  | S fuel =>
      if node =? 0 then Ok T
      else
        nn ← rd (mem T) node;
        idx ← find_idx (Z.to_nat (num nn)) (keys nn) 0 key;
        found ← (if idx <? num nn then v ← aget (keys nn) idx; Ok (key =? v) else Ok false);
        if (found : bool) then
          if negb (leaf nn =? 0) then remove_from_leaf T node nn idx
          else
            left ← aget (childrens nn) idx;
            ln ← rd (mem T) left;
            if t T <=? num ln then
              k ← aget (keys ln) (num ln - 1);
              nk ← aset (keys nn) idx k;
              let h := <[node := set_keys nn nk]> (mem T) in
              k ← key_at h left (num ln - 1);
              btree_delete_key fuel (BTree (root T) (t T) h) left k
            else
              right ← aget (childrens nn) (idx + 1);
              rn ← rd (mem T) right;
              if t T <=? num rn then
                k ← aget (keys rn) 0;
                nk ← aset (keys nn) idx k;
                let h := <[node := set_keys nn nk]> (mem T) in
                k ← key_at h right 0;
                btree_delete_key fuel (BTree (root T) (t T) h) right k
              else
                T ← btree_merge T node idx;
                nn ← rd (mem T) node;
                c ← aget (childrens nn) idx;
                btree_delete_key fuel T c key
        else
          child ← aget (childrens nn) idx;
          if child =? 0 then Ok T
          else
            '(T, child) ← fix_child T node idx nn child;
            btree_delete_key fuel T child key
  end.

(* src: 1.1rbtree/btree.c:361-366 btree_delete *)
Definition btree_delete (T : btree) (key : Z) : res (Z * btree) :=
  if root T =? 0 then Ok (-1, T)
  else T ← btree_delete_key (S (size (mem T))) T (root T) key; Ok (0, T).

(** ** Trees in the store *)

Definition calloc_ok : Prop := ∀ h, ∃ p, calloc h = Some p ∧ p ≠ 0 ∧ h !! p = None.

End btree.

(** A tree with the address of each node, its keys and its children. *)
Inductive tree : Type := Nd (a : Z) (ks : list Z) (cs : list tree).

Definition taddr (tr : tree) : Z := match tr with Nd a _ _ => a end.
Definition tkeys (tr : tree) : list Z := match tr with Nd _ ks _ => ks end.

(** The keys of a node between those of its children. *)
Definition before (l : list Z) (ls : list (list Z)) : list Z := concat (zip_with (λ c k, c ++ [k]) ls l).
Definition after (r : list Z) (ls : list (list Z)) : list Z := concat (zip_with cons r ls).
Definition weave (ks : list Z) (ls : list (list Z)) : list Z :=
  match ls with [] => [] | l :: ls => l ++ after ks ls end.

(** The keys in order, and the addresses, of a tree of depth [d] below its root. *)
Fixpoint inorder (d : nat) (tr : tree) : list Z :=
  match tr with Nd _ ks cs =>
    match d with O => ks | S d => weave ks (map (inorder d) cs) end end.
Fixpoint addrs (d : nat) (tr : tree) : list Z :=
  match tr with Nd a _ cs =>
    a :: match d with O => [] | S d => concat (map (addrs d) cs) end end.

(** [tr], of depth [d] below its root, is stored in [h]; the root has at least [lo]
    keys and the other nodes [t - 1]; no node has more than [2t - 1]. *)
Fixpoint rep (t : Z) (h : heap) (d : nat) (lo : Z) (tr : tree) : Prop :=
  match tr with Nd a ks cs =>
    a ≠ 0 ∧ lo ≤ Z.of_nat (length ks) ≤ 2 * t - 1 ∧
    (∃ kj cj, h !! a = Some (Node (ks ++ kj) (map taddr cs ++ cj) (Z.of_nat (length ks))
                                  (match d with O => 1 | _ => 0 end)) ∧
       Z.of_nat (length (ks ++ kj)) = 2 * t - 1 ∧ Z.of_nat (length (map taddr cs ++ cj)) = 2 * t) ∧
    match d with
    | O => cs = []
    | S d => length cs = S (length ks) ∧ Forall (rep t h d (t - 1)) cs
    end
  end.

(** ** Lists *)

Lemma before_length_nil ls : before [] ls = [].
Proof. by destruct ls. Qed.

Lemma weave_mid l r cl c cr : length cl = length l →
  weave (l ++ r) (cl ++ c :: cr) = before l cl ++ c ++ after r cr.
Proof.
  unfold before, after. revert l. induction cl as [|x cl IH]; intros [|k l] Hl; simplify_eq/=; [done|].
  specialize (IH l Hl). rewrite <-!app_assoc. simpl. f_equal. f_equal. rewrite <-IH.
  by destruct cl.
Qed.

Lemma weave_split kl m kr cl c cr : length cl = S (length kl) →
  weave (kl ++ m :: kr) (cl ++ c :: cr) = weave kl cl ++ m :: weave kr (c :: cr).
Proof.
  intros Hl. destruct cl as [|x cl] using rev_ind; [done|]. clear IHcl.
  rewrite length_app in Hl. simpl in Hl.
  rewrite <-app_assoc. simpl. rewrite weave_mid by lia.
  rewrite <-(app_nil_r kl) at 2. rewrite weave_mid by lia.
  unfold after. simpl. by rewrite !app_nil_r, <-!app_assoc.
Qed.

Lemma before_snoc l k cl c : length cl = length l → before (l ++ [k]) (cl ++ [c]) = (before l cl ++ c) ++ [k].
Proof.
  unfold before. intros Hl. rewrite zip_with_app by done. rewrite concat_app. simpl.
  by rewrite app_nil_r, app_assoc.
Qed.

Abbreviation sorted := (StronglySorted Z.le).

Lemma sorted_around l k m r : sorted (l ++ m :: r) →
  (m ≤ k → Forall (λ x, x ≤ k) (l ++ [m])) ∧ (k < m → Forall (λ x, k < x) (m :: r)).
Proof.
  intros Hs. split.
  - intros Hm. apply Forall_app. split; [|by constructor]. apply Forall_forall. intros x Hx.
    assert (x ≤ m); [|lia]. eapply (StronglySorted_app_1_elem_of Z.le); [exact Hs|done|left].
  - intros Hm. apply StronglySorted_app_1_r in Hs. apply StronglySorted_cons in Hs as [Hs _].
    constructor; [done|]. eapply Forall_impl; [exact Hs|]. simpl. lia.
Qed.

(** Inserting into the middle part of a sorted list. *)
Lemma sorted_splice A C C' B k : sorted (A ++ C ++ B) → C' ≡ₚ k :: C → sorted C' →
  Forall (λ x, x ≤ k) A → Forall (λ x, k ≤ x) B →
  sorted (A ++ C' ++ B) ∧ A ++ C' ++ B ≡ₚ k :: A ++ C ++ B.
Proof.
  rewrite !(StronglySorted_app Z.le). setoid_rewrite elem_of_app.
  intros (HA & HsA & HCB & HsC & HsB) HC HsC' FA FB. rewrite Forall_forall in FA, FB.
  assert (Hin : ∀ x, x ∈ C' → x = k ∨ x ∈ C) by (intros x; rewrite HC; apply elem_of_cons).
  split; [split_and!; try done|].
  - intros x y Hx [[->|?]%Hin|?]; eauto.
  - intros x y [->|?]%Hin Hy; eauto.
  - rewrite HC. simpl. apply Permutation_sym, Permutation_middle.
Qed.

(** A sorted list cut where [k] goes. *)
Lemma sorted_cut k l : sorted l → ∃ l1 l2, l = l1 ++ l2 ∧ Forall (λ x, x ≤ k) l1 ∧ Forall (λ x, k < x) l2.
Proof.
  induction l as [|x l IH]; intros Hs; [by exists [], []|].
  apply StronglySorted_cons in Hs as [Hx Hs].
  destruct (decide (x ≤ k)) as [Hle|Hgt].
  - destruct (IH Hs) as (l1 & l2 & -> & H1 & H2). exists (x :: l1), l2. split_and!; [done|by constructor|done].
  - exists [], (x :: l). split_and!; [done|constructor|]. constructor; [lia|].
    eapply Forall_impl; [exact Hx|]. simpl. lia.
Qed.

Lemma before_bound l cl k A : length cl = length l → sorted (before l cl ++ A) →
  Forall (λ x, x ≤ k) l → Forall (λ x, x ≤ k) (before l cl).
Proof.
  intros Hl Hs Hk. destruct l as [|m l _] using rev_ind; [rewrite before_length_nil; constructor|].
  destruct cl as [|c cl _] using rev_ind; [by rewrite length_app in Hl; simpl in Hl; lia|].
  rewrite !length_app in Hl. simpl in Hl. rewrite before_snoc in * by lia.
  apply Forall_app in Hk as [_ Hk]. apply Forall_cons in Hk as [Hk _].
  apply StronglySorted_app_1_l in Hs. by apply (sorted_around _ k m []) in Hs as [Hs _]; apply Hs.
Qed.

Lemma after_bound r cr k A : length cr = length r → sorted (A ++ after r cr) →
  Forall (λ x, k < x) r → Forall (λ x, k < x) (after r cr).
Proof.
  intros Hl Hs Hk. destruct r as [|m r]; [constructor|]. destruct cr as [|c cr]; [done|].
  apply Forall_cons in Hk as [Hk _].
  by apply (sorted_around _ k m) in Hs as [_ Hs]; apply Hs.
Qed.

(** ** The store *)

Lemma rep_frame t h h' d : ∀ lo tr, rep t h d lo tr → (∀ a, a ∈ addrs d tr → h' !! a = h !! a) →
  rep t h' d lo tr.
Proof.
  induction d as [|d IH]; intros lo [a ks cs] (Ha & Hl & (kj & cj & Hn & Hkl & Hcl) & Hc) Hf;
    simpl in *; (split; [done|split; [lia|split]]).
  - exists kj, cj. split; [|done]. rewrite Hf; [done|left].
  - done.
  - exists kj, cj. split; [|done]. rewrite Hf; [done|left].
  - destruct Hc as [Hlen Hc]. split; [done|]. rewrite Forall_forall in Hc |- *. intros c Hin.
    apply IH; [by apply Hc|]. intros b Hb. apply Hf. right. apply elem_of_concat.
    exists (addrs d c). split; [done|]. apply list_elem_of_fmap. eauto.
Qed.

Lemma rep_lo t h d lo lo' tr : rep t h d lo tr → lo' ≤ Z.of_nat (length (tkeys tr)) → rep t h d lo' tr.
Proof. destruct d, tr; simpl; intros (? & ? & ?) ?; (split; [done|split; [lia|tauto]]). Qed.

Lemma rep_root t h d lo tr : rep t h d lo tr → taddr tr ≠ 0 ∧ is_Some (h !! taddr tr).
Proof. destruct d, tr; simpl; intros (? & _ & (kj & cj & -> & _) & _); eauto. Qed.

Lemma rd_ok h p n : p ≠ 0 → h !! p = Some n → rd h p = Ok n.
Proof. intros Hp Hn. unfold rd. by rewrite (proj2 (Z.eqb_neq _ _) Hp), Hn. Qed.

Lemma taddr_addrs d tr : taddr tr ∈ addrs d tr.
Proof. destruct d, tr; left. Qed.

Lemma addrs_dom t h d : ∀ lo tr a, rep t h d lo tr → a ∈ addrs d tr → a ≠ 0 ∧ is_Some (h !! a).
Proof.
  induction d as [|d IH]; intros lo [b ks cs] a Hr Hin; pose proof (rep_root _ _ _ _ _ Hr) as Hroot;
    simpl in *; (apply elem_of_cons in Hin as [->|Hin]; [done|]).
  - by apply elem_of_nil in Hin.
  - destruct Hr as (_ & _ & _ & _ & Hc). rewrite Forall_forall in Hc.
    apply elem_of_concat in Hin as (l & Hal & Hl). apply list_elem_of_fmap in Hl as (c & -> & Hc').
    by eapply IH; [apply Hc|].
Qed.

Section proofs.
Context (calloc : heap → option Z) (Hcalloc : calloc_ok calloc).
Context (t : Z) (Ht : 2 ≤ t).

Lemma create_spec h lf : ∃ p, btree_create_node calloc h t lf =
    Ok (p, <[p := Node (replicate (Z.to_nat (2 * t - 1)) 0) (replicate (Z.to_nat (2 * t)) 0) 0 lf]> h) ∧
  p ≠ 0 ∧ h !! p = None.
Proof.
  unfold btree_create_node. destruct (Hcalloc h) as (p & -> & Hp & Hn). by exists p.
Qed.

Lemma copy_from_spec {A} (a b c d1 d2 : list A) n off : n = Z.of_nat (length b) →
  off = Z.of_nat (length a) → length d1 = length b →
  copy_from n (a ++ b ++ c) off (d1 ++ d2) = Ok (b ++ d2).
Proof.
  intros -> -> Hl. unfold copy_from. rewrite Nat2Z.id. by apply (copy_loop b a c []).
Qed.

(** Copying onto a fresh array, which leaves some junk after the [n] cells. *)
Lemma copy_from_fresh {A} (a b c : list A) d n off : n = Z.of_nat (length b) →
  off = Z.of_nat (length a) → (length b ≤ length d)%nat →
  ∃ j, copy_from n (a ++ b ++ c) off d = Ok (b ++ j) ∧ length (b ++ j) = length d.
Proof.
  intros Hn Ho Hd. exists (drop (length b) d). rewrite <-(take_drop (length b) d) at 1.
  split; [apply copy_from_spec; try done; rewrite length_take; lia|].
  rewrite length_app, length_drop. lia.
Qed.

Lemma move_up_set {A} (a b c : list A) x v hi lo : lo = Z.of_nat (length a) →
  hi = Z.of_nat (length a + length b) - 1 →
  (d ← move_up hi lo (a ++ b ++ x :: c); aset d lo v) = Ok (a ++ v :: b ++ c).
Proof.
  intros -> ->. unfold move_up.
  replace (Z.to_nat _) with (length b) by lia.
  destruct (shift_up_loop b a c x (Z.of_nat (length a + length b) - 1) eq_refl) as (y & Hy).
  rewrite Hy. cbn [mbind res_bind]. by apply aset_mid.
Qed.

Lemma move_up_ex {A} (a b c : list A) x v hi lo : lo = Z.of_nat (length a) →
  hi = Z.of_nat (length a + length b) - 1 →
  ∃ d, move_up hi lo (a ++ b ++ x :: c) = Ok d ∧ aset d lo v = Ok (a ++ v :: b ++ c).
Proof. intros Hlo Hhi. apply bind_ok. by apply (move_up_set a b c x). Qed.

Lemma forest_frame h h' d lo cs : Forall (rep t h d lo) cs →
  (∀ a, a ∈ concat (map (addrs d) cs) → h' !! a = h !! a) → Forall (rep t h' d lo) cs.
Proof.
  intros Hr Hf. rewrite Forall_forall in Hr |- *. intros c Hc. eapply rep_frame; [by apply Hr|].
  intros a Ha. apply Hf, elem_of_concat. exists (addrs d c). split; [done|]. apply list_elem_of_fmap. eauto.
Qed.

(** What splitting the full tree [y] around its middle key gives. *)
Lemma split_tree h d ya ks cs : rep t h d (t - 1) (Nd ya ks cs) → Z.of_nat (length ks) = 2 * t - 1 →
  ∃ kl m kr cl cr, ks = kl ++ m :: kr ∧ cs = cl ++ cr ∧
    Z.of_nat (length kl) = t - 1 ∧ Z.of_nat (length kr) = t - 1 ∧
    (if d is O then cl = [] ∧ cr = []
     else Z.of_nat (length cl) = t ∧ Z.of_nat (length cr) = t) ∧
    ∀ za, inorder d (Nd ya ks cs) = inorder d (Nd ya kl cl) ++ m :: inorder d (Nd za kr cr).
Proof.
  intros Hr Hl. destruct (lookup_lt_is_Some_2 ks (Z.to_nat (t - 1))) as [m Hm]; [lia|].
  pose proof (take_drop_middle _ _ _ Hm) as Hks. exists (take (Z.to_nat (t - 1)) ks), m, (drop (S (Z.to_nat (t - 1))) ks).
  destruct d as [|d].
  - destruct Hr as (_ & _ & _ & ->). exists [], []. rewrite length_take, length_drop.
    split_and!; [done|done|lia|lia|done|done|]. intros za. simpl. by rewrite Hks.
  - destruct Hr as (_ & _ & _ & Hlen & _). exists (take (Z.to_nat t) cs), (drop (Z.to_nat t) cs).
    rewrite !length_take, !length_drop. split_and!; [done|by rewrite take_drop|lia|lia|lia|lia|].
    intros za. simpl. rewrite <-Hks at 1. rewrite <-(take_drop (Z.to_nat t) cs) at 1. rewrite map_app.
    destruct (drop (Z.to_nat t) cs) as [|c cr] eqn:E.
    { apply (f_equal length) in E. rewrite length_drop in E. simpl in E. lia. }
    simpl. rewrite weave_split; [done|]. rewrite length_map, !length_take. lia.
Qed.

(** The store after a split. *)
Lemma split_run h x y l r k0 kj cl cr c0 cj lf kl m kr yc yl :
  x ≠ 0 → y ≠ 0 → x ≠ y →
  h !! x = Some (Node (l ++ r ++ k0 :: kj) (cl ++ y :: cr ++ c0 :: cj) (Z.of_nat (length l + length r)) lf) →
  length cl = length l → length cr = length r →
  h !! y = Some (Node (kl ++ m :: kr) yc (2 * t - 1) yl) →
  Z.of_nat (length kl) = t - 1 → Z.of_nat (length kr) = t - 1 → Z.of_nat (length yc) = 2 * t →
  ∃ z zkj zc, z ≠ 0 ∧ h !! z = None ∧
    btree_split_child calloc h t x (Z.of_nat (length l)) =
      Ok (<[x := Node (l ++ m :: r ++ kj) (cl ++ y :: z :: cr ++ cj) (Z.of_nat (length l + length r) + 1) lf]>
           (<[y := Node (kl ++ m :: kr) yc (t - 1) yl]> (<[z := Node (kr ++ zkj) zc (t - 1) yl]> h))) ∧
    Z.of_nat (length (kr ++ zkj)) = 2 * t - 1 ∧ Z.of_nat (length zc) = 2 * t ∧
    (yl = 0 → ∀ c1 c2, yc = c1 ++ c2 → Z.of_nat (length c1) = t → ∃ zcj, zc = c2 ++ zcj).
Proof.
  intros Hx0 Hy0 Hxy Hx Hcl Hcr Hy Hkl Hkr Hyc. unfold btree_split_child.
  rewrite (rd_ok h x _ Hx0 Hx). cbn [mbind res_bind childrens].
  rewrite aget_mid by lia. cbn [mbind res_bind]. rewrite (rd_ok h y _ Hy0 Hy). cbn [mbind res_bind leaf keys childrens].
  destruct (create_spec h yl) as (z & -> & Hz0 & Hz). cbn [mbind res_bind].
  assert (z ≠ x ∧ z ≠ y) as [Hzx Hzy] by (split; congruence).
  erewrite rd_ok by (done || apply lookup_insert_eq). cbn [mbind res_bind keys childrens leaf].
  destruct (copy_from_fresh (kl ++ [m]) kr [] (replicate (Z.to_nat (2 * t - 1)) 0) (t - 1) t)
    as (zkj & Hzk & Hzkl); [lia|rewrite length_app; simpl; lia|rewrite length_replicate; lia|].
  rewrite app_nil_r, <-app_assoc in Hzk. simpl in Hzk. rewrite Hzk. cbn [mbind res_bind].
  rewrite length_replicate in Hzkl.
  assert (∃ zc, (if yl =? 0 then copy_from t yc t (replicate (Z.to_nat (2 * t)) 0)
                 else Ok (replicate (Z.to_nat (2 * t)) 0)) = Ok zc ∧ Z.of_nat (length zc) = 2 * t ∧
    (yl = 0 → ∀ c1 c2, yc = c1 ++ c2 → Z.of_nat (length c1) = t → ∃ zcj, zc = c2 ++ zcj))
    as (zc & -> & Hzcl & Hzcs).
  { destruct (Z.eqb_spec yl 0) as [E|E].
    - destruct (copy_from_fresh (take (Z.to_nat t) yc) (drop (Z.to_nat t) yc) [] (replicate (Z.to_nat (2 * t)) 0) t t)
        as (j & Hj & Hjl); [rewrite length_drop; lia|rewrite length_take; lia|rewrite length_drop, length_replicate; lia|].
      rewrite app_nil_r, take_drop in Hj. rewrite length_replicate in Hjl. eexists. split; [exact Hj|].
      split; [lia|]. intros _ c1 c2 -> Hc1. exists j. by rewrite drop_app_length' by lia.
    - eexists. split; [done|]. rewrite length_replicate. split; [lia|done]. }
  cbn [mbind res_bind].
  erewrite rd_ok by (done || (rewrite !lookup_insert_ne by done; exact Hx)). cbn [mbind res_bind keys childrens num leaf].
  destruct (move_up_ex (cl ++ [y]) cr cj c0 z (Z.of_nat (length l + length r)) (Z.of_nat (length l) + 1))
    as (dc & Hdc & Hdc'); [rewrite length_app; simpl; lia..|].
  rewrite <-!app_assoc in Hdc, Hdc'. simpl in Hdc, Hdc'. rewrite Hdc. cbn [mbind res_bind].
  rewrite Hdc'. cbn [mbind res_bind].
  destruct (move_up_ex l r kj k0 m (Z.of_nat (length l + length r) - 1) (Z.of_nat (length l)))
    as (dk & Hdk & Hdk'); [done..|]. rewrite Hdk. cbn [mbind res_bind].
  rewrite aget_mid by lia. cbn [mbind res_bind]. rewrite Hdk'. cbn [mbind res_bind].
  exists z, zkj, zc. split_and!; try done; [|lia].
  unfold set_num. simpl. by rewrite insert_insert_eq.
Qed.

(** The two halves are trees. *)
Lemma split_spec h d x l r k0 kj cl y cr c0 cj lf :
  x ≠ 0 → h !! x = Some (Node (l ++ r ++ k0 :: kj) (cl ++ taddr y :: cr ++ c0 :: cj)
                               (Z.of_nat (length l + length r)) lf) →
  length cl = length l → length cr = length r →
  rep t h d (t - 1) y → Z.of_nat (length (tkeys y)) = 2 * t - 1 → x ∉ addrs d y → NoDup (addrs d y) →
  ∃ h' m y' z, btree_split_child calloc h t x (Z.of_nat (length l)) = Ok h' ∧
    h' !! x = Some (Node (l ++ m :: r ++ kj) (cl ++ taddr y :: taddr z :: cr ++ cj)
                         (Z.of_nat (length l + length r) + 1) lf) ∧
    rep t h' d (t - 1) y' ∧ rep t h' d (t - 1) z ∧ taddr y' = taddr y ∧
    Z.of_nat (length (tkeys y')) = t - 1 ∧ Z.of_nat (length (tkeys z)) = t - 1 ∧
    inorder d y = inorder d y' ++ m :: inorder d z ∧
    addrs d y' ++ addrs d z ≡ₚ taddr z :: addrs d y ∧ taddr z ≠ 0 ∧ h !! taddr z = None ∧
    (∀ a, a ≠ x → a ≠ taddr y → a ≠ taddr z → h' !! a = h !! a).
Proof.
  intros Hx0 Hx Hcl Hcr Hy Hfull Hxy Hnd. destruct y as [ya ks cs]. cbn [taddr tkeys] in *.
  destruct (split_tree h d ya ks cs Hy Hfull) as (kl & m & kr & tl & tr & -> & -> & Hkl & Hkr & Hd & Hino).
  pose proof (rep_root _ _ _ _ _ Hy) as [Hya0 _]. simpl in Hya0.
  assert (Hne : x ≠ ya) by (intros ->; apply Hxy; destruct d; left).
  assert (∃ yc, h !! ya = Some (Node (kl ++ m :: kr) yc (2 * t - 1) (match d with O => 1 | _ => 0 end)) ∧
    Z.of_nat (length yc) = 2 * t ∧ ∃ cj', yc = map taddr (tl ++ tr) ++ cj') as (yc & Hyn & Hyc & cj' & Eyc).
  { destruct d; destruct Hy as (_ & _ & (yj & cj' & Hn & Hj1 & Hj2) & _);
      (destruct yj; [|rewrite !length_app in Hj1; simpl in Hj1; lia]); rewrite app_nil_r, Hfull in Hn; eauto 10. }
  destruct (split_run h x ya l r k0 kj cl cr c0 cj lf kl m kr yc _ Hx0 Hya0 Hne Hx Hcl Hcr Hyn Hkl Hkr Hyc)
    as (za & zkj & zc & Hz0 & Hz & -> & Hzk & Hzc & Hzcs).
  assert (Hyz : ya ≠ za) by congruence. assert (Hxz : x ≠ za) by congruence.
  set (h' := <[x := _]> _).
  assert (Hfr : ∀ a, a ≠ x → a ≠ ya → a ≠ za → h' !! a = h !! a)
    by (intros; unfold h'; by rewrite !lookup_insert_ne).
  assert (Hy' : h' !! ya = Some (Node (kl ++ m :: kr) yc (t - 1) (match d with O => 1 | _ => 0 end)))
    by (unfold h'; by rewrite lookup_insert_ne, lookup_insert_eq).
  assert (Hz' : h' !! za = Some (Node (kr ++ zkj) zc (t - 1) (match d with O => 1 | _ => 0 end)))
    by (unfold h'; by rewrite lookup_insert_ne, lookup_insert_ne, lookup_insert_eq).
  exists h', m, (Nd ya kl tl), (Nd za kr tr). cbn [taddr tkeys].
  split; [done|]. split; [unfold h'; by rewrite lookup_insert_eq|].
  assert (Hkm : kl ++ m :: kr = kl ++ (m :: kr)) by done.
  assert (Hsz : Z.of_nat (length (kl ++ m :: kr)) = 2 * t - 1) by (rewrite length_app; simpl; lia).
  destruct d as [|d].
  - destruct Hd as [-> ->]. split; [|split]; [| |split_and!; try done; apply perm_swap].
    + split; [done|]. split; [lia|]. split; [|done]. exists (m :: kr), yc. rewrite Hkl. simpl. done.
    + split; [done|]. split; [lia|]. split; [|done]. exists zkj, zc. rewrite Hkr. simpl. done.
  - destruct Hd as [Hl Hr]. destruct Hy as (_ & _ & _ & Hlen & Hcs). apply Forall_app in Hcs as [Hc1 Hc2].
    simpl in Hnd. rewrite map_app, concat_app in Hnd. apply NoDup_cons in Hnd as [Hnya Hnd].
    assert (Hxa : ∀ a, a ∈ concat (map (addrs d) tl) ∨ a ∈ concat (map (addrs d) tr) → h' !! a = h !! a).
    { intros a Ha. rewrite <-elem_of_app in Ha. apply Hfr.
      - intros ->. apply Hxy. simpl. right. by rewrite map_app, concat_app.
      - by intros ->.
      - intros ->. rewrite <-concat_app, <-map_app, elem_of_concat in Ha. destruct Ha as (? & Ha & Hc).
        apply list_elem_of_fmap in Hc as (c & -> & Hc).
        assert (rep t h d (t - 1) c) as Hrc.
        { apply elem_of_app in Hc as [Hc|Hc]; [|]; eapply Forall_forall; [exact Hc1|done|exact Hc2|done]. }
        destruct (addrs_dom _ _ _ _ _ _ Hrc Ha) as [_ [? ?]]. congruence. }
    split; [|split].
    + split; [done|]. split; [lia|]. split.
      * exists (m :: kr), (map taddr tr ++ cj'). rewrite Hkl, app_assoc, <-map_app, <-Eyc. done.
      * split; [lia|]. eapply forest_frame; [exact Hc1|]. eauto.
    + split; [done|]. split; [lia|]. split.
      * destruct (Hzcs eq_refl (map taddr tl) (map taddr tr ++ cj')) as (zcj & ->);
          [by rewrite Eyc, map_app, app_assoc|rewrite length_map; lia|].
        assert (cj' = []) as ->.
        { apply length_zero_iff_nil. rewrite Eyc, length_app, length_map, length_app in Hyc. lia. }
        rewrite app_nil_r in *. exists zkj, zcj. rewrite Hkr. done.
      * split; [lia|]. eapply forest_frame; [exact Hc2|]. eauto.
    + split_and!; try done. simpl. rewrite map_app, concat_app.
      rewrite <-(Permutation_middle (concat (map (addrs d) tl)) _ za). apply perm_swap.
Qed.

(** ** Insertion *)

Lemma shift_greater_spec k l : ∀ r x c, Forall (λ v, v ≤ k) l → Forall (λ v, k < v) r →
  ∃ y, shift_greater (length l + length r) (l ++ r ++ x :: c) k =
    Ok (l ++ y :: r ++ c, Z.of_nat (length l) - 1).
Proof.
  intros r. induction r as [|v r IH] using rev_ind; intros x c Hl Hr.
  - rewrite Nat.add_0_r. simpl. exists x. destruct l as [|w l _] using rev_ind; [done|].
    apply Forall_app in Hl as [_ Hw]. apply Forall_cons in Hw as [Hw _].
    rewrite length_app, Nat.add_comm. simpl. rewrite <-app_assoc. simpl. rewrite aget_mid by done.
    simpl. rewrite (proj2 (Z.ltb_ge _ _)) by lia. do 2 f_equal. lia.
  - apply Forall_app in Hr as [Hr Hv]. apply Forall_cons in Hv as [Hv _].
    rewrite length_app. replace (length l + (length r + length [v]))%nat with (S (length l + length r)) by (simpl; lia).
    simpl. rewrite <-!app_assoc. simpl. rewrite (app_assoc l r), aget_mid by (rewrite length_app; lia). simpl.
    rewrite (proj2 (Z.ltb_lt _ _)) by lia.
    rewrite (cons_middle v (l ++ r)), (app_assoc (l ++ r) [v]), aset_mid by (rewrite !length_app; simpl; lia).
    simpl. rewrite <-!app_assoc. simpl. by apply IH.
Qed.

Lemma skip_greater_spec k l : ∀ r c, Forall (λ v, v ≤ k) l → Forall (λ v, k < v) r →
  skip_greater (length l + length r) (l ++ r ++ c) k = Ok (Z.of_nat (length l) - 1).
Proof.
  intros r. induction r as [|v r IH] using rev_ind; intros c Hl Hr.
  - rewrite Nat.add_0_r. simpl. destruct l as [|w l _] using rev_ind; [done|].
    apply Forall_app in Hl as [_ Hw]. apply Forall_cons in Hw as [Hw _].
    rewrite length_app, Nat.add_comm. simpl. rewrite <-app_assoc. simpl. rewrite aget_mid by done.
    simpl. rewrite (proj2 (Z.ltb_ge _ _)) by lia. f_equal. lia.
  - apply Forall_app in Hr as [Hr Hv]. apply Forall_cons in Hv as [Hv _].
    rewrite length_app. replace (length l + (length r + length [v]))%nat with (S (length l + length r)) by (simpl; lia).
    simpl. rewrite <-!app_assoc. simpl. rewrite (app_assoc l r), aget_mid by (rewrite length_app; lia). simpl.
    rewrite (proj2 (Z.ltb_lt _ _)) by lia. rewrite <-app_assoc. by apply IH.
Qed.

Lemma after_keys ks ls : length ls = length ks → Forall (λ k, k ∈ after ks ls) ks.
Proof.
  revert ls. induction ks as [|k ks IH]; intros [|l ls] Hl; simplify_eq/=; constructor.
  - left.
  - eapply Forall_impl; [by apply IH|]. unfold after. simpl. intros x Hx. right. apply elem_of_app. by right.
Qed.

Lemma after_sorted ks ls : length ls = length ks → sorted (after ks ls) → sorted ks.
Proof.
  revert ls. induction ks as [|k ks IH]; intros [|l ls] Hl; simplify_eq/=; [constructor|].
  unfold after. simpl. intros Hs. apply StronglySorted_cons in Hs as [Hk Hs]. constructor.
  - eapply IH; [done|]. by apply StronglySorted_app_1_r in Hs.
  - apply Forall_app in Hk as [_ Hk]. rewrite Forall_forall in Hk.
    eapply Forall_impl; [by apply after_keys|]. simpl. eauto.
Qed.

Lemma weave_sorted ks ls : length ls = S (length ks) → sorted (weave ks ls) → sorted ks.
Proof.
  destruct ls as [|l ls]; intros Hl; simplify_eq/=. intros Hs%StronglySorted_app_1_r. by eapply after_sorted.
Qed.

(** What inserting [k] into the tree [tr], stored in [h], gives. *)
Definition inserted (h h' : heap) (d : nat) (lo : Z) (tr tr' : tree) (k : Z) : Prop :=
  rep t h' d lo tr' ∧ taddr tr' = taddr tr ∧ NoDup (addrs d tr') ∧
  sorted (inorder d tr') ∧ inorder d tr' ≡ₚ k :: inorder d tr ∧
  (∀ a, a ∈ addrs d tr' → a ∈ addrs d tr ∨ h !! a = None) ∧
  (∀ a, is_Some (h !! a) → a ∉ addrs d tr → h' !! a = h !! a).

Definition insert_ok (d fuel : nat) : Prop := ∀ h lo tr k,
  rep t h d lo tr → Z.of_nat (length (tkeys tr)) < 2 * t - 1 → NoDup (addrs d tr) → sorted (inorder d tr) →
  ∃ h' tr', btree_insert_nonfull calloc fuel h t (taddr tr) k = Ok h' ∧ inserted h h' d lo tr tr' k.

Lemma insert_leaf fuel : insert_ok 0 (S fuel).
Proof.
  intros h lo [a ks cs] k Hr Hlt Hnd Hs. pose proof Hr as (Ha & Hl & (kj & cj & Hn & Hkj & Hcj) & ->).
  simpl in *. destruct (sorted_cut k ks Hs) as (l & r & -> & Fl & Fr).
  rewrite !length_app in *.
  destruct kj as [|x kj]; [simpl in Hkj; lia|]. rewrite (rd_ok h a _ Ha Hn). simpl. rewrite Nat2Z.id.
  destruct (shift_greater_spec k l r x kj Fl Fr) as (y & Hy). rewrite <-app_assoc, Hy. simpl.
  rewrite aset_mid by lia. simpl. eexists _, (Nd a (l ++ k :: r) []). split; [done|].
  assert (Hp : l ++ k :: r ≡ₚ k :: l ++ r) by apply Permutation_sym, Permutation_middle.
  split; [|split; [done|split; [done|split; [|split; [done|split]]]]].
  - split; [done|]. rewrite length_app. simpl. split; [lia|]. split; [|done].
    exists kj, cj. rewrite lookup_insert_eq. split; [|split; [|done]].
    + do 2 f_equal; [by rewrite <-!app_assoc|lia].
    + rewrite !length_app in *. simpl in *. lia.
  - simpl. apply (sorted_splice l [] [k] r k); [by simpl|done|by repeat constructor|done|].
    eapply Forall_impl; [exact Fr|]. simpl. lia.
  - by left.
  - intros b _ Hb. rewrite lookup_insert_ne; [done|]. intros ->. apply Hb. left.
Qed.

Lemma addrs_mid d a ks cl c cr : addrs (S d) (Nd a ks (cl ++ c :: cr)) =
  a :: concat (map (addrs d) cl) ++ addrs d c ++ concat (map (addrs d) cr).
Proof. simpl. rewrite map_app, concat_app. done. Qed.

Lemma inorder_mid d a l r cl c cr : length cl = length l →
  inorder (S d) (Nd a (l ++ r) (cl ++ c :: cr)) =
  before l (map (inorder d) cl) ++ inorder d c ++ after r (map (inorder d) cr).
Proof. intros Hl. simpl. rewrite map_app. simpl. apply weave_mid. by rewrite length_map. Qed.

(** Going down into the child between the keys at most and at least [k]. *)
Lemma child_step d fuel h lo a l r cl c cr k : insert_ok d fuel → length cl = length l →
  rep t h (S d) lo (Nd a (l ++ r) (cl ++ c :: cr)) → NoDup (addrs (S d) (Nd a (l ++ r) (cl ++ c :: cr))) →
  sorted (inorder (S d) (Nd a (l ++ r) (cl ++ c :: cr))) →
  Forall (λ x, x ≤ k) l → Forall (λ x, k ≤ x) (after r (map (inorder d) cr)) →
  Z.of_nat (length (tkeys c)) < 2 * t - 1 →
  ∃ h' c', btree_insert_nonfull calloc fuel h t (taddr c) k = Ok h' ∧
    inserted h h' (S d) lo (Nd a (l ++ r) (cl ++ c :: cr)) (Nd a (l ++ r) (cl ++ c' :: cr)) k.
Proof.
  intros IH Hcl Hr Hnd Hs Fl Fr Hc.
  rewrite inorder_mid in Hs by done. rewrite addrs_mid in Hnd.
  pose proof Hr as (Ha & Hlen & (kj & cj & Hn & Hkj & Hcj) & Hcs & Hall).
  apply Forall_app in Hall as [Hal Hall]. apply Forall_cons in Hall as [Hrc Har].
  apply NoDup_cons in Hnd as [Hni Hnd]. apply NoDup_app in Hnd as (Hnl & Hdl & Hnd).
  apply NoDup_app in Hnd as (Hnc & Hdr & Hnr).
  assert (Hsc : sorted (inorder d c)) by (apply StronglySorted_app_1_r in Hs; by apply StronglySorted_app_1_l in Hs).
  destruct (IH h (t - 1) c k Hrc Hc Hnc Hsc) as (h' & c' & Hok & Hr' & Hta & Hnd' & Hs' & Hp & Hin & Hfr).
  exists h', c'. split; [done|].
  assert (Hold : ∀ b, b ∈ a :: concat (map (addrs d) cl) ++ concat (map (addrs d) cr) →
    is_Some (h !! b) ∧ b ∉ addrs d c).
  { intros b Hb. split.
    - apply (addrs_dom t h (S d) lo _ b Hr). rewrite addrs_mid. in_list.
    - intros Hbc. apply elem_of_cons in Hb as [->|Hb]; [by apply Hni; in_list|].
      apply elem_of_app in Hb as [Hb|Hb]; [by apply (Hdl b Hb); in_list|by apply (Hdr b)]. }
  assert (Hnew : ∀ b, b ∈ addrs d c' → b ∉ a :: concat (map (addrs d) cl) ++ concat (map (addrs d) cr)).
  { intros b Hb Hb'. destruct (Hold b Hb') as [[? ?] ?]. destruct (Hin b Hb); [done|congruence]. }
  destruct (sorted_splice (before l (map (inorder d) cl)) (inorder d c) (inorder d c')
    (after r (map (inorder d) cr)) k Hs Hp Hs') as [Hss Hpp]; [|done|].
  { eapply before_bound; [by rewrite length_map|exact Hs|done]. }
  split; [|split_and!; try done].
  - split; [done|]. split; [done|]. split.
    + exists kj, cj. rewrite map_app in *. simpl in *. rewrite Hta. split; [|done]. rewrite <-Hn. apply Hfr; [by eauto|].
      intros Hac. apply Hni. in_list.
    + rewrite length_app in *. simpl in *. split; [done|].
      apply Forall_app. split; [|apply Forall_cons; split; [done|]]; (eapply forest_frame; [done|]);
        intros b Hb; apply Hfr; apply Hold; in_list.
  - rewrite addrs_mid. constructor.
    + intros Hac. apply elem_of_app in Hac as [?|Hac]; [by apply Hni; in_list|].
      apply elem_of_app in Hac as [Hac|?]; [|by apply Hni; in_list]. apply (Hnew a Hac). left.
    + apply NoDup_app. split; [done|]. split; [|apply NoDup_app; split_and!; try done].
      * intros b Hb [Hb'|Hb']%elem_of_app; [apply (Hnew b Hb')|apply (Hdl b Hb)]; in_list.
      * intros b Hb Hb'. apply (Hnew b Hb). in_list.
  - by rewrite inorder_mid.
  - by rewrite !inorder_mid.
  - intros b. rewrite !addrs_mid. intros [->|[Hb|[Hb|Hb]%elem_of_app]%elem_of_app]%elem_of_cons;
      [left; in_list|left; in_list| |left; in_list].
    destruct (Hin b Hb); [left; in_list|by right].
  - intros b Hb. rewrite addrs_mid. intros Hnb. apply Hfr; [done|]. in_list.
Qed.

(** The tree after a split of its child, seen as a tree again. *)
Lemma split_child_tree h d lo a l r cl y cr : length cl = length l → length cr = length r →
  rep t h (S d) lo (Nd a (l ++ r) (cl ++ y :: cr)) → Z.of_nat (length (l ++ r)) < 2 * t - 1 →
  Z.of_nat (length (tkeys y)) = 2 * t - 1 → NoDup (addrs (S d) (Nd a (l ++ r) (cl ++ y :: cr))) →
  ∃ h' m y' z, btree_split_child calloc h t a (Z.of_nat (length l)) = Ok h' ∧
    let tr' := Nd a (l ++ m :: r) (cl ++ y' :: z :: cr) in
    rep t h' (S d) lo tr' ∧ NoDup (addrs (S d) tr') ∧
    inorder (S d) tr' = inorder (S d) (Nd a (l ++ r) (cl ++ y :: cr)) ∧
    Z.of_nat (length (tkeys y')) = t - 1 ∧ Z.of_nat (length (tkeys z)) = t - 1 ∧
    (∀ b, b ∈ addrs (S d) tr' → b ∈ addrs (S d) (Nd a (l ++ r) (cl ++ y :: cr)) ∨ h !! b = None) ∧
    (∀ b, b ∈ addrs (S d) (Nd a (l ++ r) (cl ++ y :: cr)) → b ∈ addrs (S d) tr') ∧
    (∀ b, is_Some (h !! b) → b ∉ addrs (S d) (Nd a (l ++ r) (cl ++ y :: cr)) → h' !! b = h !! b) ∧
    (∀ b, is_Some (h !! b) → is_Some (h' !! b)).
Proof.
  intros Hcl Hcr Hr Hlt Hfull Hnd. pose proof Hr as (Ha & Hlen & (kj & cj & Hn & Hkj & Hcj) & Hcs & Hall).
  rewrite !length_app in *.
  destruct kj as [|k0 kj]; [simpl in *; lia|].
  destruct cj as [|c0 cj]; [rewrite length_map, length_app in Hcj; simpl in *; lia|].
  apply Forall_app in Hall as [Hal Hall]. apply Forall_cons in Hall as [Hry Har].
  rewrite addrs_mid in Hnd.
  rewrite map_app in Hn, Hcj. simpl in Hn, Hcj. rewrite <-!app_assoc in Hn. simpl in Hn.
  pose proof Hnd as Hnd0. apply NoDup_cons in Hnd0 as [Hni Hnd0]. apply NoDup_app in Hnd0 as (Hnl & Hdl & Hnd0).
  apply NoDup_app in Hnd0 as (Hny & Hdr & Hnr).
  destruct (split_spec h d a l r k0 kj (map taddr cl) y (map taddr cr) c0 cj 0 Ha Hn) as
    (h' & m & y' & z & Hok & Ha' & Hy' & Hz' & Hty & Hky & Hkz & Hino & Hperm & Hz0 & Hz & Hfr);
    [by rewrite length_map|by rewrite length_map|done|done|in_list|done|].
  exists h', m, y', z. split; [done|]. simpl.
  assert (Hzold : ∀ b, is_Some (h !! b) → b ≠ taddr z) by (intros b [? ?] ->; congruence).
  pose proof (taddr_addrs d y) as Hyin.
  assert (Hold : ∀ b, b ∈ concat (map (addrs d) cl) ∨ b ∈ concat (map (addrs d) cr) → h' !! b = h !! b).
  { intros b Hb. assert (b ∈ addrs (S d) (Nd a (l ++ r) (cl ++ y :: cr))) as Hb' by (rewrite addrs_mid; in_list).
    destruct (addrs_dom t h (S d) lo _ b Hr Hb') as [_ Hsome]. apply Hfr; [| |by apply Hzold].
    - intros ->. apply Hni. in_list.
    - intros ->. destruct Hb as [Hb|Hb]; [apply (Hdl _ Hb); in_list|by apply (Hdr _ Hyin)]. }
  assert (Had : addrs (S d) (Nd a (l ++ m :: r) (cl ++ y' :: z :: cr)) ≡ₚ
    taddr z :: addrs (S d) (Nd a (l ++ r) (cl ++ y :: cr))).
  { rewrite !addrs_mid. simpl. rewrite (app_assoc (addrs d y')), Hperm. simpl.
    rewrite <-Permutation_middle. apply perm_swap. }
  split; [|split; [|split_and!; try done]].
  - split; [done|]. rewrite !length_app. simpl. split; [lia|]. split.
    + exists kj, cj. rewrite Ha', map_app, <-!app_assoc. simpl. rewrite Hty. split; [do 2 f_equal; lia|].
      rewrite !length_app in *. simpl in *. rewrite !length_app in *. simpl in *. lia.
    + split; [rewrite length_app in *; simpl in *; lia|]. apply Forall_app.
      split; [eapply forest_frame; [done|]; eauto|]. constructor; [done|]. constructor; [done|].
      eapply forest_frame; [done|]. eauto.
  - rewrite Had. constructor; [|by rewrite addrs_mid].
    intros Hin. destruct (addrs_dom t h (S d) lo _ _ Hr Hin) as [_ [? ?]]. congruence.
  - rewrite !map_app. simpl. rewrite !weave_mid by by rewrite length_map. unfold after. simpl.
    rewrite Hino, <-app_assoc. done.
  - intros b. rewrite Had. intros [->|?]%elem_of_cons; [by right|by left].
  - intros b Hb. rewrite Had. by right.
  - intros b Hb. change (a :: concat (map (addrs d) (cl ++ y :: cr))) with
      (addrs (S d) (Nd a (l ++ r) (cl ++ y :: cr))). rewrite addrs_mid. intros Hnb.
    apply Hfr; [intros ->|intros ->|by apply Hzold]; apply Hnb; in_list.
  - intros b Hb. destruct (decide (b = a)) as [->|Hba]; [by eauto|].
    destruct (decide (b = taddr y)) as [->|Hby]; [rewrite <-Hty; by eapply rep_root|].
    by rewrite Hfr by (done || by apply Hzold).
Qed.

Lemma inserted_after h h1 h2 d lo tr tr1 tr2 k : inserted h1 h2 d lo tr1 tr2 k →
  taddr tr1 = taddr tr → inorder d tr1 = inorder d tr →
  (∀ b, b ∈ addrs d tr1 → b ∈ addrs d tr ∨ h !! b = None) →
  (∀ b, is_Some (h !! b) → b ∉ addrs d tr → h1 !! b = h !! b) →
  (∀ b, is_Some (h !! b) → is_Some (h1 !! b)) →
  inserted h h2 d lo tr tr2 k.
Proof.
  intros (Hr & Ht2 & Hnd & Hs & Hp & Hin & Hfr) Eta Eio Hin1 Hfr1 Hsome.
  split_and!; try done; [congruence|by rewrite Hp, Eio| |].
  - intros b Hb. destruct (Hin b Hb) as [?|Hn]; [by apply Hin1|]. right.
    destruct (h !! b) eqn:E; [|done]. destruct (Hsome b) as [? ?]; [eauto|congruence].
  - intros b Hb Hnb. rewrite Hfr, Hfr1; try done; [by apply Hsome|].
    intros Hb1. destruct (Hin1 b Hb1) as [?|E]; [done|]. destruct Hb. congruence.
Qed.

Lemma rep_node h d lo tr : rep t h d lo tr → ∃ n kj cj, rd h (taddr tr) = Ok n ∧
  keys n = tkeys tr ++ kj ∧ childrens n = map taddr (match tr with Nd _ _ cs => cs end) ++ cj ∧
  num n = Z.of_nat (length (tkeys tr)) ∧ leaf n = (match d with O => 1 | _ => 0 end).
Proof.
  destruct tr as [a ks cs]. intros Hr. assert (∃ kj cj, a ≠ 0 ∧ h !! a = Some
    (Node (ks ++ kj) (map taddr cs ++ cj) (Z.of_nat (length ks)) (match d with O => 1 | _ => 0 end)))
    as (kj & cj & Ha & Hn) by (destruct d, Hr as (? & _ & (? & ? & ? & _) & _); eauto).
  simpl. rewrite (rd_ok _ _ _ Ha Hn). eexists _, _, _. done.
Qed.

Lemma rep_bounds h d lo tr : rep t h d lo tr → lo ≤ Z.of_nat (length (tkeys tr)) ∧
  Z.of_nat (length (tkeys tr)) ≤ 2 * t - 1.
Proof. destruct tr, d; intros (_ & ? & _); simpl; lia. Qed.

Lemma child_key_sorted d a ks cs : sorted (inorder (S d) (Nd a ks cs)) →
  length cs = S (length ks) → sorted ks.
Proof. simpl. intros Hs Hl. eapply weave_sorted; [|exact Hs]. by rewrite length_map. Qed.

Lemma after_bound_mid d a l r cl c cr k : length cl = length l → length cr = length r →
  sorted (inorder (S d) (Nd a (l ++ r) (cl ++ c :: cr))) →
  Forall (λ x, k < x) r → Forall (λ x, k ≤ x) (after r (map (inorder d) cr)).
Proof.
  intros Hcl Hcr Hs Fr. rewrite inorder_mid, app_assoc in Hs by done.
  eapply Forall_impl; [eapply after_bound; [by rewrite length_map|exact Hs|exact Fr]|simpl; lia].
Qed.

(** Insertion below a node whose child on the way is full. *)
Lemma insert_split d fuel h lo a l r cl y cr k : insert_ok d fuel →
  length cl = length l → length cr = length r →
  rep t h (S d) lo (Nd a (l ++ r) (cl ++ y :: cr)) → Z.of_nat (length (l ++ r)) < 2 * t - 1 →
  Z.of_nat (length (tkeys y)) = 2 * t - 1 → NoDup (addrs (S d) (Nd a (l ++ r) (cl ++ y :: cr))) →
  sorted (inorder (S d) (Nd a (l ++ r) (cl ++ y :: cr))) →
  Forall (λ x, x ≤ k) l → Forall (λ x, k < x) r →
  ∃ h1 h' n m c tr', btree_split_child calloc h t a (Z.of_nat (length l)) = Ok h1 ∧
    rd h1 a = Ok n ∧ aget (keys n) (Z.of_nat (length l)) = Ok m ∧
    aget (childrens n) (if m <? k then Z.of_nat (length l) + 1 else Z.of_nat (length l)) = Ok c ∧
    btree_insert_nonfull calloc fuel h1 t c k = Ok h' ∧
    Z.of_nat (length (tkeys tr')) = Z.of_nat (length (l ++ r)) + 1 ∧
    inserted h h' (S d) lo (Nd a (l ++ r) (cl ++ y :: cr)) tr' k.
Proof.
  intros IH Hcl Hcr Hr Hlt Hfull Hnd Hs Fl Fr.
  destruct (split_child_tree h d lo a l r cl y cr Hcl Hcr Hr Hlt Hfull Hnd) as
    (h1 & m & y' & z & Hok & Hr1 & Hnd1 & Hino & Hky & Hkz & Hin & _ & Hfr & Hsome). cbv zeta in *.
  rewrite <-Hino in Hs. destruct (rep_node _ _ _ _ Hr1) as (n & kj & cj & Hn & Hk & Hc & _).
  cbn [taddr tkeys] in *. rewrite map_app, <-app_assoc in Hc. simpl in Hc. rewrite <-app_assoc in Hk. simpl in Hk.
  assert (Hm : aget (keys n) (Z.of_nat (length l)) = Ok m) by (rewrite Hk; by apply aget_mid).
  assert (Hlm : length (map taddr cl) = length l) by by rewrite length_map.
  destruct (Z.ltb_spec m k) as [Hmk|Hmk].
  - rewrite (cons_middle m l r), (app_assoc l [m] r), (cons_middle y' cl), (app_assoc cl [y']) in *.
    assert (length (cl ++ [y']) = length (l ++ [m])) as Hcl1 by (rewrite !length_app; simpl; lia).
    destruct (child_step d fuel h1 lo a (l ++ [m]) r (cl ++ [y']) z cr k IH Hcl1 Hr1 Hnd1 Hs) as (h' & c' & Hok' & Hins);
      [apply Forall_app; split; [done|constructor; [lia|constructor]]|by eapply after_bound_mid|lia|].
    exists h1, h', n, m, (taddr z), (Nd a ((l ++ [m]) ++ r) ((cl ++ [y']) ++ c' :: cr)).
    rewrite (proj2 (Z.ltb_lt _ _)) by lia. split_and!; try done.
    + rewrite Hc. rewrite (cons_middle (taddr y')), (app_assoc (map taddr cl)).
      apply aget_mid. rewrite length_app. simpl. lia.
    + cbn [tkeys]. rewrite !length_app. simpl. lia.
    + by eapply inserted_after.
  - destruct (child_step d fuel h1 lo a l (m :: r) cl y' (z :: cr) k IH Hcl Hr1 Hnd1 Hs) as (h' & c' & Hok' & Hins);
      [done| |lia|].
    + rewrite inorder_mid in Hs by done. do 2 apply StronglySorted_app_1_r in Hs.
      unfold after in *. simpl in *. apply StronglySorted_cons in Hs as [Hs _].
      constructor; [lia|]. eapply Forall_impl; [exact Hs|]. simpl. lia.
    + exists h1, h', n, m, (taddr y'), (Nd a (l ++ m :: r) (cl ++ c' :: z :: cr)).
      rewrite (proj2 (Z.ltb_ge _ _)) by lia. split_and!; try done.
      * rewrite Hc. by apply aget_mid; rewrite Hlm.
      * cbn [tkeys]. rewrite !length_app. simpl. lia.
      * by eapply inserted_after.
Qed.

Lemma list_pick {A} (cs : list A) p q : length cs = S (p + q) →
  ∃ cl c cr, cs = cl ++ c :: cr ∧ length cl = p ∧ length cr = q.
Proof.
  intros Hl. destruct (lookup_lt_is_Some_2 cs p) as [c Hc]; [lia|].
  exists (take p cs), c, (drop (S p) cs). rewrite take_drop_middle, length_take, length_drop by done. split_and!; [done|lia|lia].
Qed.

Lemma insert_node d : ∀ fuel, (d < fuel)%nat → insert_ok d fuel.
Proof.
  induction d as [|d IH]; intros [|fuel] Hf; try lia; [apply insert_leaf|]. specialize (IH fuel ltac:(lia)).
  intros h lo [a ks cs] k Hr Hlt Hnd Hs. cbn [tkeys taddr] in *.
  assert (length cs = S (length ks)) as Hcs by (by destruct Hr as (_ & _ & _ & ? & _)).
  destruct (sorted_cut k ks) as (l & r & -> & Fl & Fr); [by eapply child_key_sorted|].
  rewrite length_app in Hcs. destruct (list_pick cs (length l) (length r) Hcs) as (cl & c & cr & -> & Hcl & Hcr).
  pose proof Hr as (_ & _ & _ & _ & Hall). apply Forall_app in Hall as [_ Hall].
  apply Forall_cons in Hall as [Hrc _].
  destruct (rep_node _ _ _ _ Hr) as (n & kj & cj & Hn & Hk & Hch & Hnum & Hlf).
  destruct (rep_node _ _ _ _ Hrc) as (cn & _ & _ & Hcn & _ & _ & Hcnum & _).
  cbn [taddr tkeys] in *. cbn [btree_insert_nonfull]. rewrite Hn. cbn [mbind res_bind]. rewrite Hlf, Hnum, Nat2Z.id, Hk.
  cbn [Z.eqb]. rewrite length_app, <-app_assoc, skip_greater_spec by done. cbn [mbind res_bind].
  replace (Z.of_nat (length l) - 1 + 1) with (Z.of_nat (length l)) by lia.
  assert (Hget : aget (childrens n) (Z.of_nat (length l)) = Ok (taddr c)).
  { rewrite Hch, map_app, <-app_assoc. simpl. apply aget_mid. by rewrite length_map, Hcl. }
  rewrite Hget. cbn [mbind res_bind]. rewrite Hcn. cbn [mbind res_bind]. rewrite Hcnum.
  destruct (Z.eqb_spec (Z.of_nat (length (tkeys c))) (2 * t - 1)) as [Hfull|Hnf].
  - destruct (insert_split d fuel h lo a l r cl c cr k IH Hcl Hcr Hr Hlt Hfull Hnd Hs Fl Fr) as
      (h1 & h' & n1 & m & c1 & tr' & -> & Hn1 & Hm & Hc1 & Hok & _ & Hins). cbn [mbind res_bind].
    rewrite Hn1. cbn [mbind res_bind]. rewrite Hm. cbn [mbind res_bind]. rewrite Hn1. cbn [mbind res_bind].
    replace ((if m <? k then Z.of_nat (length l) else Z.of_nat (length l) - 1) + 1)
      with (if m <? k then Z.of_nat (length l) + 1 else Z.of_nat (length l)) by (destruct (m <? k); lia).
    rewrite Hc1. cbn [mbind res_bind]. eauto.
  - cbn [mbind res_bind]. rewrite Hn. cbn [mbind res_bind].
    replace (Z.of_nat (length l) - 1 + 1) with (Z.of_nat (length l)) by lia.
    rewrite Hget. cbn [mbind res_bind].
    destruct (rep_bounds _ _ _ _ Hrc) as [_ Hb].
    destruct (child_step d fuel h lo a l r cl c cr k IH Hcl Hr Hnd Hs Fl) as (h' & c' & Hok & Hins);
      [by apply (after_bound_mid d a l r cl c cr k)|lia|]. eauto.
Qed.

Lemma addrs_length h d : ∀ lo tr, rep t h d lo tr → (d < length (addrs d tr))%nat.
Proof.
  induction d as [|d IH]; intros lo [a ks cs] Hr; simpl; [lia|].
  destruct Hr as (_ & _ & _ & Hl & Hc). destruct cs as [|c cs]; [done|].
  apply Forall_cons in Hc as [Hc _]. apply IH in Hc. simpl. rewrite length_app. lia.
Qed.

(** A tree is no deeper than its store is large. *)
Lemma depth_fuel h d lo tr : rep t h d lo tr → NoDup (addrs d tr) → (d < size h)%nat.
Proof.
  intros Hr Hnd. pose proof (addrs_length _ _ _ _ Hr). enough (length (addrs d tr) ≤ size h)%nat by lia.
  rewrite <-(size_dom (D := gset Z)), <-(size_list_to_set (C := gset Z)) by exact Hnd.
  apply subseteq_size. intros a Ha%elem_of_list_to_set. apply elem_of_dom.
  by eapply addrs_dom.
Qed.

(** What a B-tree is: [tr], stored from the root on, with sorted keys, nodes of
    [t - 1] to [2t - 1] keys (the root may have fewer) and all leaves at depth [d]. *)
Record btree_ok (T : btree) (d : nat) (tr : tree) : Prop := BTreeOk {
  bo_t : BTree.t T = t;
  bo_root : root T = taddr tr;
  bo_rep : rep t (mem T) d (match d with O => 0 | _ => 1 end) tr;
  bo_nodup : NoDup (addrs d tr);
  bo_sorted : sorted (inorder d tr)
}.

Lemma create_ok h : ∃ T tr, btree_create calloc h t = Ok T ∧ btree_ok T 0 tr ∧ inorder 0 tr = [].
Proof.
  unfold btree_create. destruct (create_spec h 1) as (p & -> & Hp & Hn).
  eexists _, (Nd p [] []). split; [done|]. split; [|done]. split; try done; simpl.
  - split; [done|]. split; [lia|]. split; [|done]. eexists _, _. rewrite lookup_insert_eq. split; [done|].
    simpl. rewrite !length_replicate. lia.
  - by apply NoDup_singleton.
  - constructor.
Qed.

(** The root is full: a new root with the old one as only child. *)
Lemma new_root h d tr : rep t h d (t - 1) tr → NoDup (addrs d tr) → ∃ p h1,
  btree_create_node calloc h t 0 = Ok (p, h1) ∧
  ∃ n cs, rd h1 p = Ok n ∧ aset (childrens n) 0 (taddr tr) = Ok cs ∧
    let h2 := <[p := set_childrens n cs]> h1 in
    rep t h2 (S d) 0 (Nd p [] [tr]) ∧ NoDup (addrs (S d) (Nd p [] [tr])) ∧
    (∀ b, b ∈ addrs d tr → h2 !! b = h !! b).
Proof.
  intros Hr Hnd. destruct (create_spec h 0) as (p & Hok & Hp & Hn). eexists p, _. split; [exact Hok|].
  assert (Hpn : ∀ b, b ∈ addrs d tr → p ≠ b).
  { intros b Hb ->. destruct (addrs_dom _ _ _ _ _ _ Hr Hb) as [_ [? ?]]. congruence. }
  eexists _, (taddr tr :: replicate (Z.to_nat (2 * t) - 1) 0).
  split; [apply rd_ok; [done|apply lookup_insert_eq]|]. split.
  { simpl. destruct (Z.to_nat (2 * t)) as [|w] eqn:E; [lia|]. simpl. rewrite Nat.sub_0_r. by apply (aset_mid []). }
  assert (Hfr : ∀ b v, b ∈ addrs d tr → <[p:=v]> (<[p := Node (replicate (Z.to_nat (2 * t - 1)) 0)
    (replicate (Z.to_nat (2 * t)) 0) 0 0]> h) !! b = h !! b).
  { intros b v Hb. by rewrite !lookup_insert_ne by auto. }
  split; [|split; [|eauto]].
  - split; [done|]. split; [simpl; lia|]. split.
    + eexists _, _. rewrite lookup_insert_eq. split; [done|]. simpl. rewrite !length_replicate. lia.
    + split; [done|]. constructor; [|done]. eapply rep_frame; [done|]. eauto.
  - simpl. rewrite app_nil_r. constructor; [|done]. intros Hb. by apply (Hpn p).
Qed.

Lemma insert_spec T d tr k : btree_ok T d tr → ∃ T' d' tr',
  btree_insert calloc T k = Ok T' ∧ btree_ok T' d' tr' ∧ inorder d' tr' ≡ₚ k :: inorder d tr.
Proof.
  intros [Et Er Hr Hnd Hs]. unfold btree_insert. rewrite Et, Er.
  destruct (rep_node _ _ _ _ Hr) as (n & _ & _ & -> & _ & _ & Hnum & _). cbn [mbind res_bind]. rewrite Hnum.
  destruct (rep_bounds _ _ _ _ Hr) as [_ Hb].
  destruct (Z.eqb_spec (Z.of_nat (length (tkeys tr))) (2 * t - 1)) as [Hfull|Hnf].
  - assert (Hr' : rep t (mem T) d (t - 1) tr) by (eapply rep_lo; [exact Hr|lia]).
    destruct (new_root _ _ _ Hr' Hnd) as (p & h1 & -> & n1 & cs & Hn1 & Hcs & Hrep & Hnd2 & _).
    cbn [mbind res_bind]. rewrite Hn1. cbn [mbind res_bind]. rewrite Hcs. cbn [mbind res_bind].
    set (h2 := <[p := set_childrens n1 cs]> h1) in *. cbv zeta in *.
    destruct (split_child_tree h2 d 0 p [] [] [] tr []) as (h3 & m0 & y0 & z0 & Hsp & Hrep3 & Hnd3 & _);
      try done; [simpl; lia|].
    destruct (insert_split d (S (size h3)) h2 0 p [] [] [] tr [] k) as
      (h1' & h' & n' & m & c & tr' & Hsp' & Hn' & Hm & Hc & Hok & Hlk & Hrep' & Hta & Hnd' & Hs' & Hp & _); try done.
    + apply insert_node. apply (depth_fuel _ _ _ _ Hrep3) in Hnd3. lia.
    + simpl. lia.
    + simpl. rewrite app_nil_r. done.
    + change (Z.of_nat (length (@nil Z))) with 0 in *. rewrite Hsp in Hsp'. injection Hsp' as <-. rewrite Hsp. cbn [mbind res_bind].
      rewrite Hn'. cbn [mbind res_bind].
      rewrite Hm. cbn [mbind res_bind]. change (0 + 1) with 1 in Hc. rewrite Hc. cbn [mbind res_bind].
      rewrite Hok. cbn [mbind res_bind]. eexists _, (S d), tr'. split; [done|]. split; [split; try done|].
      * eapply rep_lo; [exact Hrep'|]. rewrite Hlk. simpl. lia.
      * rewrite Hp. simpl. by rewrite app_nil_r.
  - destruct (insert_node d (S (size (mem T)))) with (h := mem T) (tr := tr) (k := k)
      (lo := match d with O => 0 | _ => 1 end) as (h' & tr' & -> & Hrep' & Hta & Hnd' & Hs' & Hp & _);
      [pose proof (depth_fuel _ _ _ _ Hr Hnd); lia|done|lia|done|done|].
    cbn [mbind res_bind]. eexists _, d, tr'. split; [done|]. split; [split; done|done].
Qed.

(** ** Traversal *)

Lemma traverse_loop (visit : Z → res (list Z)) (f : tree → list Z) keys kj ks2 : ∀ ks1 cs2 i out,
  keys = ks1 ++ ks2 ++ kj → i = Z.of_nat (length ks1) → length cs2 = length ks2 →
  (∀ j c, cs2 !! j = Some c → visit (i + Z.of_nat j) = Ok (f c)) →
  for_up (length ks2) i (λ i out, o ← visit i; k ← aget keys i; Ok (out ++ o ++ [k])) out =
    Ok (out ++ before ks2 (map f cs2)).
Proof.
  induction ks2 as [|k ks2 IH]; intros ks1 [|c cs2] i out Hk Hi Hl Hv; simplify_eq/=.
  { by rewrite before_length_nil, app_nil_r. }
  pose proof (Hv 0%nat c eq_refl) as Hv0. rewrite Z.add_0_r in Hv0. rewrite Hv0. simpl.
  rewrite aget_mid by done. simpl.
  rewrite (IH (ks1 ++ [k]) cs2); [|by rewrite <-app_assoc|rewrite length_app; simpl; lia|lia|].
  - f_equal. unfold before. simpl. by rewrite <-!app_assoc.
  - intros j c' Hc'. rewrite <-(Hv (S j) c' Hc'). f_equal. lia.
Qed.

Lemma traverse_node d : ∀ fuel h lo tr, (d < fuel)%nat → rep t h d lo tr →
  btree_traverse fuel h (taddr tr) = Ok (inorder d tr).
Proof.
  induction d as [|d IH]; intros [|fuel] h lo [a ks cs] Hf Hr; try lia; cbn [btree_traverse];
    destruct (rep_node _ _ _ _ Hr) as (n & kj & cj & -> & Hk & Hc & Hnum & Hlf);
    cbn [mbind res_bind tkeys taddr] in *; rewrite Hlf, Hnum, Nat2Z.id; cbn [Z.eqb].
  - rewrite (traverse_loop _ (λ _, []) (keys n) kj ks [] (replicate (length ks) (Nd 0 [] [])));
      [|done|done|by rewrite length_replicate|done].
    simpl. rewrite app_nil_r. f_equal. clear. unfold before.
    induction ks as [|k ks IH]; [done|]. simpl. by rewrite IH.
  - destruct Hr as (_ & _ & _ & Hl & Hall). rewrite Forall_forall in Hall.
    destruct (list_pick cs (length ks) 0) as (cl & c & cr & -> & Hcl & Hcr); [lia|].
    destruct cr; [|done].
    assert (Hv : ∀ j x, (cl ++ [c]) !! j = Some x →
      (p ← aget (childrens n) (Z.of_nat j); btree_traverse fuel h p) = Ok (inorder d x)).
    { intros j x Hj. rewrite Hc, (aget_ok _ j (taddr x)).
      - cbn [mbind res_bind]. eapply IH; [lia|]. apply Hall. by eapply list_elem_of_lookup_2.
      - rewrite lookup_app_l by (rewrite length_map; by eapply lookup_lt_Some).
        change (map taddr (cl ++ [c])) with (taddr <$> (cl ++ [c])). by rewrite list_lookup_fmap, Hj. }
    rewrite (traverse_loop _ (inorder d) (keys n) kj ks [] cl); [|done|done|done|].
    + cbn [mbind res_bind]. rewrite <-Hcl, (Hv _ c) by by apply list_lookup_middle. cbn [mbind res_bind].
      simpl. rewrite map_app. simpl. rewrite <-(app_nil_r ks) at 2.
      rewrite weave_mid by (rewrite length_map; lia). by rewrite app_nil_r.
    + intros j x Hj. apply Hv. by rewrite lookup_app_l by by eapply lookup_lt_Some.
Qed.

Lemma traverse_spec T d tr : btree_ok T d tr →
  btree_traverse (S (size (mem T))) (mem T) (root T) = Ok (inorder d tr).
Proof.
  intros [Et Er Hr Hnd Hs]. rewrite Er. eapply traverse_node; [|exact Hr].
  pose proof (depth_fuel _ _ _ _ Hr Hnd). lia.
Qed.

(** Inserting the keys of a list, one after the other. *)
Definition insert_all (T : res btree) (l : list Z) : res btree :=
  foldl (λ r k, T ← r; btree_insert calloc T k) T l.

Lemma insert_all_spec l : ∀ T d tr, btree_ok T d tr → ∃ T' d' tr',
  insert_all (Ok T) l = Ok T' ∧ btree_ok T' d' tr' ∧ inorder d' tr' ≡ₚ l ++ inorder d tr.
Proof.
  induction l as [|k l IH]; intros T d tr Hok; [by exists T, d, tr|].
  destruct (insert_spec T d tr k Hok) as (T1 & d1 & tr1 & Hins & Hok1 & Hp1).
  destruct (IH T1 d1 tr1 Hok1) as (T2 & d2 & tr2 & Hall & Hok2 & Hp2).
  exists T2, d2, tr2. split; [simpl; by rewrite Hins|]. split; [done|].
  rewrite Hp2, Hp1. simpl. symmetry. apply Permutation_middle.
Qed.

(** ** Properties *)

(** C2: inserting a key into a B-tree of degree [t] at least 2 succeeds and gives a
    B-tree again (sorted, nodes within their bounds, all leaves at one depth, no node
    shared) whose keys are the old ones and the new one. *)
Theorem btree_insert_correct T d tr k : btree_ok T d tr → ∃ T' d' tr',
  btree_insert calloc T k = Ok T' ∧ btree_ok T' d' tr' ∧ inorder d' tr' ≡ₚ k :: inorder d tr.
Proof. apply insert_spec. Qed.

(** creating a tree, inserting any keys and traversing prints them all, sorted. *)
Theorem btree_sorts h l : ∃ T out, insert_all (btree_create calloc h t) l = Ok T ∧
  btree_traverse (S (size (mem T))) (mem T) (root T) = Ok out ∧ sorted out ∧ out ≡ₚ l.
Proof.
  destruct (create_ok h) as (T & tr & -> & Hok & Hnil).
  destruct (insert_all_spec l T 0 tr Hok) as (T' & d' & tr' & -> & Hok' & Hp).
  exists T', (inorder d' tr'). split; [done|]. split; [by apply traverse_spec|]. split; [apply Hok'|].
  by rewrite Hp, Hnil, app_nil_r.
Qed.

End proofs.

(** ** Binary search *)

Lemma bin_search_loop_spec ks key : sorted ks → Z.of_nat (length ks) < 2 ^ 30 →
  ∀ fuel low high, 0 ≤ low → low ≤ high + 1 → high < Z.of_nat (length ks) →
  (Z.to_nat (high - low + 1) < fuel)%nat →
  (∀ i x, Z.of_nat i < low → ks !! i = Some x → x < key) →
  (∀ i x, high < Z.of_nat i → ks !! i = Some x → key ≤ x ∨ Z.of_nat (length ks) ≤ Z.of_nat i) →
  ∃ r, bin_search_loop fuel ks low high key = Ok r ∧ low ≤ r ≤ high + 1 ∧
    (∀ i x, Z.of_nat i < r → ks !! i = Some x → x < key) ∧
    (∀ i x, r ≤ Z.of_nat i → ks !! i = Some x → key ≤ x).
Proof.
  intros Hs Hlen. induction fuel as [|fuel IH]; intros low high H0 Hlh Hh Hf Hlo Hhi; [lia|]. simpl.
  destruct (Z.leb_spec low high) as [Hle|Hgt].
  - rewrite i32_small by lia. rewrite Z.quot_div_nonneg by lia. set (mid := (low + high) / 2).
    assert (Hmid : low ≤ mid ≤ high) by (unfold mid; zdiv).
    destruct (lookup_lt_is_Some_2 ks (Z.to_nat mid)) as [v Hv]; [lia|].
    assert (Hg : aget ks mid = Ok v) by (unfold aget; rewrite (proj2 (Z.leb_le _ _)) by lia; by rewrite Hv).
    rewrite Hg. cbn [mbind res_bind].
    assert (Hord : ∀ i j x y, (i ≤ j)%nat → ks !! i = Some x → ks !! j = Some y → x ≤ y).
    { intros i j x y Hij Hx Hy. destruct (decide (i = j)) as [->|Hne]; [simplify_eq; lia|].
      rewrite <-(take_drop_middle _ _ _ Hy) in Hs. eapply (StronglySorted_app_1_elem_of Z.le); [exact Hs| |left].
      apply list_elem_of_lookup. exists i. by rewrite lookup_take_lt by lia. }
    destruct (Z.ltb_spec v key) as [Hlt|Hge].
    + destruct (IH (mid + 1) high) as (r & -> & Hr & H1 & H2); try lia; [|done|].
      * intros i x Hi Hx. assert (x ≤ v) by (apply (Hord i (Z.to_nat mid)); [lia|done|done]). lia.
      * exists r. split; [done|]. split; [lia|done].
    + destruct (IH low (mid - 1)) as (r & -> & Hr & H1 & H2); try lia; [done| |].
      * intros i x Hi Hx. left. assert (v ≤ x) by (apply (Hord (Z.to_nat mid) i); [lia|done|done]). lia.
      * exists r. split; [done|]. split; [lia|done].
  - exists low. split; [done|]. split; [lia|]. split; [done|]. intros i x Hi Hx.
    destruct (Hhi i x) as [?|Hge]; [lia|done|done|]. apply lookup_lt_Some in Hx. lia.
Qed.

(** on the sorted keys of a node, the binary search returns the first position
    whose key is at least the one looked for (the number of keys if there is none). *)
Theorem btree_bin_search_correct n key : sorted (keys n) → keys n ≠ [] →
  Z.of_nat (length (keys n)) < 2 ^ 30 →
  ∃ r, btree_bin_search n 0 (Z.of_nat (length (keys n)) - 1) key = Ok r ∧
    0 ≤ r ≤ Z.of_nat (length (keys n)) ∧
    (∀ i x, Z.of_nat i < r → keys n !! i = Some x → x < key) ∧
    (∀ i x, r ≤ Z.of_nat i → keys n !! i = Some x → key ≤ x).
Proof.
  intros Hs Hne Hlen. assert (0 < length (keys n))%nat by (destruct (keys n); simpl in *; [done|lia]).
  unfold btree_bin_search. rewrite (proj2 (Z.ltb_ge _ _)) by lia. rewrite (proj2 (Z.ltb_ge _ _)) by lia.
  cbn [orb].
  destruct (bin_search_loop_spec (keys n) key Hs Hlen
    (S (Z.to_nat (Z.of_nat (length (keys n)) - 1 - 0 + 1))) 0 (Z.of_nat (length (keys n)) - 1))
    as (r & -> & Hr & H1 & H2); [lia..|intros; lia| |].
  - intros i x Hi Hx. apply lookup_lt_Some in Hx. lia.
  - exists r. split; [done|]. split; [lia|done].
Qed.

(** ** Deletion *)

(** a merge below a full node writes past the end of its child array: the
    statement clearing [childrens[i + 1]] runs with [i] equal to [num], so with
    [num = 2t - 1] the index is [2t], one too many. *)
Theorem btree_merge_full_overflows T node idx nn : mem T !! node = Some nn →
  num nn = 2 * t T - 1 → 0 ≤ idx < num nn → Z.of_nat (length (childrens nn)) = 2 * t T →
  ∃ x, btree_merge T node idx = Err x.
Proof.
  intros Hn Hnum Hidx Hlen. destruct (btree_merge T node idx) as [T'|x] eqn:Hok; [exfalso|by exists x].
  unfold btree_merge in Hok.
  apply bind_ok in Hok as (n' & Hrd & Hok). unfold rd in Hrd. rewrite Hn in Hrd.
  destruct (node =? 0); [done|]. injection Hrd as <-.
  do 9 (apply bind_ok in Hok as (? & _ & Hok)).
  apply bind_ok in Hok as ([nk nc] & Hloop & Hok). apply bind_ok in Hok as (nc' & Hset & _).
  assert (Hl : length nc = length (childrens nn)).
  { apply (for_up_inv (λ st : list Z * list Z, length st.2 = length (childrens nn))) in Hloop; [done| |done].
    intros i [ks cs] [ks' cs'] Hs Hb. simpl in *.
    apply bind_ok in Hb as (k & _ & Hb). apply bind_ok in Hb as (ks1 & _ & Hb).
    apply bind_ok in Hb as (c & _ & Hb). apply bind_ok in Hb as (cs1 & Hc & Hb).
    injection Hb as <- <-. apply aset_length in Hc. lia. }
  rewrite aset_past in Hset; [done|]. rewrite Hl. lia.
Qed.

(** ** Concrete trees *)

(** The address after the greatest one used. *)
Definition ex_calloc (h : heap) : option Z := Some (1 + map_fold (λ a _ m, Z.max a m) 0 h).

Lemma ex_calloc_ok : calloc_ok ex_calloc.
Proof.
  intros h. eexists. split; [done|].
  assert (0 ≤ map_fold (λ a _ m, Z.max a m) 0 h ∧
    ∀ a x, h !! a = Some x → a ≤ map_fold (λ a _ m, Z.max a m) 0 h) as [H0 Hm].
  { apply (map_fold_weak_ind (λ r m, 0 ≤ r ∧ ∀ a (x : btree_node), m !! a = Some x → a ≤ r)).
    - split; [done|]. intros a x Ha. by rewrite lookup_empty in Ha.
    - intros i x m r Hi [H1 H2]. split; [lia|]. intros a y [[<- <-]|[_ Ha]]%lookup_insert_Some; [lia|].
      specialize (H2 a y Ha). lia. }
  split; [lia|]. destruct (h !! _) eqn:E; [|done]. apply Hm in E. lia.
Qed.

Definition ex_build (l : list Z) : res btree := insert_all ex_calloc (btree_create ex_calloc ∅ 3) l.
Definition ex_delete (T : res btree) (l : list Z) : res btree :=
  foldl (λ r k, T ← r; '(_, T) ← btree_delete T k; Ok T) T l.
Definition ex_keys (T : res btree) : res (list Z) := T ← T; btree_traverse 10 (mem T) (root T).

(** The letters [main] inserts, 'A' to 'Z'. *)
Definition letters : list Z := map Z.of_nat (seq 65 26).

Example btree_insert_correct_witness : ∃ T0 tr0, btree_ok 3 T0 0 tr0 ∧ ∃ T' d' tr',
  btree_insert ex_calloc T0 7 = Ok T' ∧ btree_ok 3 T' d' tr' ∧ inorder d' tr' ≡ₚ 7 :: inorder 0 tr0.
Proof.
  destruct (create_ok ex_calloc ex_calloc_ok 3 ltac:(lia) ∅) as (T & tr & _ & Hok & _).
  exists T, tr. split; [exact Hok|].
  apply (btree_insert_correct ex_calloc ex_calloc_ok 3 ltac:(lia) T 0 tr 7 Hok).
Defined.

Example btree_sorts_witness : ∃ T out, ex_build [5; 3; 8; 1; 9; 2; 7; 3] = Ok T ∧
  btree_traverse (S (size (mem T))) (mem T) (root T) = Ok out ∧ sorted out ∧
  out ≡ₚ [5; 3; 8; 1; 9; 2; 7; 3].
Proof. apply (btree_sorts ex_calloc ex_calloc_ok 3 ltac:(lia) ∅). Defined.

Example btree_bin_search_correct_witness :
  ∃ r, btree_bin_search (Node [2; 4; 6] [] 3 1) 0 2 5 = Ok r ∧ 0 ≤ r ≤ 3 ∧
    (∀ i x, Z.of_nat i < r → [2; 4; 6] !! i = Some x → x < 5) ∧
    (∀ i x, r ≤ Z.of_nat i → [2; 4; 6] !! i = Some x → 5 ≤ x).
Proof.
  apply (btree_bin_search_correct (Node [2; 4; 6] [] 3 1) 5); [|done|done].
  simpl. repeat constructor; lia.
Defined.

(** A full node over two leaves of two keys. *)
Definition ex_full : btree := BTree 1 3 (<[1 := Node [10; 20; 30; 40; 50] [2; 3; 4; 5; 6; 7] 5 0]>
  (<[2 := Node [1; 2; 0; 0; 0] [0; 0; 0; 0; 0; 0] 2 1]> {[3 := Node [11; 12; 0; 0; 0] [0; 0; 0; 0; 0; 0] 2 1]})).
Example btree_merge_full_overflows_witness : ∃ x, btree_merge ex_full 1 0 = Err x.
Proof.
  apply (btree_merge_full_overflows ex_full 1 0 (Node [10; 20; 30; 40; 50] [2; 3; 4; 5; 6; 7] 5 0));
    [reflexivity|reflexivity|split; [lia|reflexivity]|reflexivity].
Defined.

(** the test program itself goes out of bounds: after inserting 'A' to 'Z' it
    deletes from 'Z' down, and the tenth deletion merges below a full root. *)
Theorem btree_main_overflows :
  ex_keys (ex_delete (ex_build letters) (take 9 (reverse letters))) = Ok (take 17 letters) ∧
  ex_delete (ex_build letters) (take 10 (reverse letters)) = Err OutOfBounds.
Proof. by split; vm_compute. Qed.

(** deletion of a key of a node two levels above the leaves breaks the order: its
    successor is taken from the child node, not from the leaf it is in. *)
Theorem btree_delete_disorders : ∃ out, ex_keys (ex_delete (ex_build letters) [73]) = Ok out ∧
  ¬ sorted out.
Proof.
  eexists. split; [by vm_compute|]. intros Hs. do 8 apply StronglySorted_cons in Hs as [_ Hs].
  apply StronglySorted_cons in Hs as [Hs _]. apply Forall_cons in Hs as [Hs _]. lia.
Qed.

(** deleting the only key of the root, between two minimal leaves, merges the root
    away and then reads the freed root; deleting the last key of the tree leaves a null
    root, through which the next insertion goes. *)
Theorem btree_delete_root_faults :
  ex_delete (ex_build [1; 2; 3; 4; 5; 6]) [6; 3] = Err UseAfterFree ∧
  (T ← ex_delete (ex_build [1]) [1]; btree_insert ex_calloc T 2) = Err NullDeref.
Proof. by split; vm_compute. Qed.

End BTree.
