(* ===== verification/Deadlock.v ===== *)
(** * The deadlock detector of 7.4deadlock_detect/deadlock_success.c

    Hooks around [pthread_mutex_lock] and [pthread_mutex_unlock] keep a table of
    the locks held and a graph of which thread waits for which; a thread searches
    the graph for cycles.  The graph's arrays have [MAX] cells; an adjacency list
    (the chain of [next] pointers of an array cell) is a list.  What [printf]
    writes is recorded.  Fields the code leaves uninitialised are the argument
    [junk] of [start_check]. *)

From S2P Require Import Prelude.

Module Deadlock.

(** ** Data *)

Definition MAX : Z := 100.

(* src: 7.4deadlock_detect/deadlock_success.c:34-34 Type *)
Inductive vtype : Type := PROCESS | RESOURCE.

#[export] Instance vtype_eq_dec : EqDecision vtype.
Proof. solve_decision. Defined.

(* src: 7.4deadlock_detect/deadlock_success.c:36-43 source_type *)
Record source_type : Type := Source { id : Z; type : vtype; lock_id : Z; degress : Z }.

(* src: 7.4deadlock_detect/deadlock_success.c:45-50 vertex *)
Record vertex : Type := Vertex { s : source_type; next : list source_type }.

(* src: 7.4deadlock_detect/deadlock_success.c:52-61 task_graph *)
Record task_graph : Type := Graph {
  vlist : list vertex;          (* list[MAX] *)
  num : Z;
  locklist : list source_type;  (* locklist[MAX] *)
  lockidx : Z
}.

(** The globals of the search, and the lines printed. *)
(* src: 7.4deadlock_detect/deadlock_success.c:64-67 globals *)
Record globals : Type := Globals {
  path : list Z;      (* path[MAX+1] *)
  visited : list Z;   (* visited[MAX] *)
  k : Z;
  deadlock : Z;
  out : list (list Z)
}.

Definition set_vlist g l := Graph l (num g) (locklist g) (lockidx g).
Definition set_locklist g l := Graph (vlist g) (num g) l (lockidx g).
Definition set_k g n := Globals (path g) (visited g) n (deadlock g) (out g).

(** ** The graph *)

(* src: 7.4deadlock_detect/deadlock_success.c:69-78 create_vertex *)
Definition create_vertex (type : source_type) : vertex := Vertex type [].

Fixpoint search_vertex_from (n : nat) (l : list vertex) (i : Z) (t : source_type) : res Z :=
  match n with
  | O => Ok (-1)
  | S n =>
      v ← aget l i;
      if bool_decide (type (s v) = type t) && (id (s v) =? id t) then Ok i
      else search_vertex_from n l (i + 1) t
  end.

(* src: 7.4deadlock_detect/deadlock_success.c:81-94 search_vertex *)
Definition search_vertex (tg : task_graph) (t : source_type) : res Z :=
  search_vertex_from (Z.to_nat (num tg)) (vlist tg) 0 t.

(* src: 7.4deadlock_detect/deadlock_success.c:96-106 add_vertex *)
Definition add_vertex (tg : task_graph) (t : source_type) : res task_graph :=
  i ← search_vertex tg t;
  if i =? -1 then
    l ← aset (vlist tg) (num tg) (Vertex t []);
    Ok (Graph l (num tg + 1) (locklist tg) (lockidx tg))
  else Ok tg.

(** The new cell goes at the end of the chain. *)
(* src: 7.4deadlock_detect/deadlock_success.c:109-122 add_edge *)
Definition add_edge (tg : task_graph) (from to : source_type) : res task_graph :=
  tg ← add_vertex tg from;
  tg ← add_vertex tg to;
  i ← search_vertex tg from;
  v ← aget (vlist tg) i;
  l ← aset (vlist tg) i (Vertex (s v) (next v ++ [s (create_vertex to)]));
  Ok (set_vlist tg l).

(** The walk starts at the vertex itself. *)
(* src: 7.4deadlock_detect/deadlock_success.c:125-146 verify_edge *)
Definition verify_edge (tg : task_graph) (i j : source_type) : res bool :=
  if num tg =? 0 then Ok false
  else
    idx ← search_vertex tg i;
    if idx =? -1 then Ok false
    else v ← aget (vlist tg) idx; Ok (existsb (λ x, id x =? id j) (s v :: next v)).

(** Unlinks the first cell with that id. *)
Fixpoint unlink (l : list source_type) (to : source_type) : list source_type :=
  match l with
  | [] => []
  | x :: l => if id x =? id to then l else x :: unlink l to
  end.

(* src: 7.4deadlock_detect/deadlock_success.c:149-176 remove_edge *)
Definition remove_edge (tg : task_graph) (from to : source_type) : res task_graph :=
  idxi ← search_vertex tg from;
  idxj ← search_vertex tg to;
  if negb (idxi =? -1) && negb (idxj =? -1) then
    v ← aget (vlist tg) idxi;
    l ← aset (vlist tg) idxi (Vertex (s v) (unlink (next v) to));
    Ok (set_vlist tg l)
  else Ok tg.

(** ** The search *)

(** The identifiers of [path[0]] to [path[n - 1]]. *)
Fixpoint path_ids (n : nat) (tg : task_graph) (p : list Z) (i : Z) : res (list Z) :=
  match n with
  | O => Ok []
  | S n =>
      x ← aget p i; v ← aget (vlist tg) x;
      l ← path_ids n tg p (i + 1); Ok (id (s v) :: l)
  end.

(** The last identifier is printed even when [k] is below 1. *)
(* src: 7.4deadlock_detect/deadlock_success.c:179-192 print_deadlock *)
Definition print_deadlock (tg : task_graph) (g : globals) : res globals :=
  l ← path_ids (S (Z.to_nat (k g - 1))) tg (path g) 0;
  Ok (Globals (path g) (visited g) (k g) (deadlock g) (out g ++ [l])).

(** [f] on each element, [k] going down after each. *)
Fixpoint each_next (f : globals → source_type → res globals) (l : list source_type) (g : globals) : res globals :=
  match l with
  | [] => Ok g
  | x :: l => g ← f g x; each_next f l (set_k g (k g - 1))
  end.

(* src: 7.4deadlock_detect/deadlock_success.c:194-221 DFS *)
Fixpoint DFS (fuel : nat) (tg : task_graph) (g : globals) (idx : Z) : res globals :=
  match fuel with
  | O => Err OutOfFuel
  | S fuel =>
      ver ← aget (vlist tg) idx;
      b ← aget (visited g) idx;
      if b =? 1 then
        p ← aset (path g) (k g) idx;
        g ← print_deadlock tg (Globals p (visited g) (k g + 1) (deadlock g) (out g));
        Ok (Globals (path g) (visited g) (k g) 1 (out g))
      else
        vis ← aset (visited g) idx 1;
        p ← aset (path g) (k g) idx;
        each_next (λ g x, j ← search_vertex tg x; DFS fuel tg g j) (next ver)
          (Globals p vis (k g + 1) (deadlock g) (out g))
  end.

(** [for (i = 0; i < tg->num; i++) { if (i == idx) continue; visited[i] = 0; }] *)
Definition clear_visited (n idx : Z) (vis : list Z) : res (list Z) :=
  for_up (Z.to_nat n) 0 (λ i vis, if i =? idx then Ok vis else aset vis i 0) vis.

(** [for (i = 1; i <= MAX; i++) path[i] = -1;] *)
Definition clear_path (p : list Z) : res (list Z) := for_up (Z.to_nat MAX) 1 (λ i p, aset p i (-1)) p.

(** A call of [DFS] nests at most once per vertex, plus the one that finds a vertex visited. *)
Definition dfs_fuel (tg : task_graph) : nat := S (S (Z.to_nat (num tg))).

Fixpoint search_edges (l : list source_type) (tg : task_graph) (g : globals) (idx : Z) : res globals :=
  match l with
  | [] => Ok g
  | x :: l =>
      vis ← clear_visited (num tg) idx (visited g);
      p ← clear_path (path g);
      j ← search_vertex tg x;
      g ← DFS (dfs_fuel tg) tg (Globals p vis 1 (deadlock g) (out g)) j;
      search_edges l tg g idx
  end.

(* src: 7.4deadlock_detect/deadlock_success.c:224-251 search_for_cycle *)
Definition search_for_cycle (tg : task_graph) (g : globals) (idx : Z) : res globals :=
  ver ← aget (vlist tg) idx;
  vis ← aset (visited g) idx 1;
  p ← aset (path g) 0 idx;
  search_edges (next ver) tg (Globals p vis 1 (deadlock g) (out g)) idx.

Fixpoint check_from (n : nat) (tg : task_graph) (g : globals) (i : Z) : res globals :=
  match n with
  | O => Ok g
  | S n =>
      if deadlock g =? 1 then Ok g
      else g ← search_for_cycle tg g i; check_from n tg g (i + 1)
  end.

(** An empty line stands for "no deadlock". *)
(* src: 7.4deadlock_detect/deadlock_success.c:308-322 check_dead_lock *)
Definition check_dead_lock (tg : task_graph) (g : globals) : res globals :=
  g ← check_from (Z.to_nat (num tg)) tg (Globals (path g) (visited g) (k g) 0 (out g)) 0;
  if deadlock g =? 0 then Ok (Globals (path g) (visited g) (k g) (deadlock g) (out g ++ [[]])) else Ok g.

(** The graph as [malloc] leaves it, but for the two counters. *)
(* src: 7.4deadlock_detect/deadlock_success.c:337-347 start_check *)
Definition start_check (junk : source_type) : task_graph :=
  Graph (replicate (Z.to_nat MAX) (Vertex junk [])) 0 (replicate (Z.to_nat MAX) junk) 0.

Definition zero_globals : globals := Globals (replicate (Z.to_nat (MAX + 1)) 0) (replicate (Z.to_nat MAX) 0) 0 0 [].

(** ** The lock table *)

Fixpoint search_lock_from (n : nat) (l : list source_type) (i lock : Z) : res (option Z) :=
  match n with
  | O => Ok None
  | S n => e ← aget l i; if lock_id e =? lock then Ok (Some i) else search_lock_from n l (i + 1) lock
  end.

(* src: 7.4deadlock_detect/deadlock_success.c:352-364 search_lock *)
Definition search_lock (tg : task_graph) (lock : Z) : res Z :=
  o ← search_lock_from (Z.to_nat (lockidx tg)) (locklist tg) 0 lock; Ok (default (-1) o).

(* src: 7.4deadlock_detect/deadlock_success.c:366-379 search_empty_lock *)
Definition search_empty_lock (tg : task_graph) : res Z :=
  o ← search_lock_from (Z.to_nat (lockidx tg)) (locklist tg) 0 0; Ok (default (lockidx tg) o).

(** Returns the old value. *)
(* src: 7.4deadlock_detect/deadlock_success.c:383-395 inc *)
Definition inc (value add : Z) : Z * Z := (value, value + add).

(** A process vertex; the other fields stay uninitialised and are never read. *)
Definition process (tid : Z) : source_type := Source tid PROCESS 0 0.

(* src: 7.4deadlock_detect/deadlock_success.c:410-436 lock_before *)
Definition lock_before (tg : task_graph) (thread_id lockaddr : Z) : res task_graph :=
  for_up (Z.to_nat (lockidx tg)) 0
    (λ idx tg,
       e ← aget (locklist tg) idx;
       if lock_id e =? lockaddr then
         let from := process thread_id in
         tg ← add_vertex tg from;
         let to := process (id e) in
         ll ← aset (locklist tg) idx (Source (id e) (type e) (lock_id e) (i32 (degress e + 1)));
         tg ← add_vertex (set_locklist tg ll) to;
         b ← verify_edge tg from to;
         if (b : bool) then Ok tg else add_edge tg from to
       else Ok tg) tg.

(* src: 7.4deadlock_detect/deadlock_success.c:438-470 lock_after *)
Definition lock_after (tg : task_graph) (thread_id lockaddr : Z) : res task_graph :=
  idx ← search_lock tg lockaddr;
  if idx =? -1 then
    eidx ← search_empty_lock tg;
    e ← aget (locklist tg) eidx;
    ll ← aset (locklist tg) eidx (Source thread_id (type e) lockaddr (degress e));
    Ok (Graph (vlist tg) (num tg) ll (snd (inc (lockidx tg) 1)))
  else
    e ← aget (locklist tg) idx;
    let from := process thread_id in
    let to := process (id e) in
    ll ← aset (locklist tg) idx (Source (id e) (type e) (lock_id e) (i32 (degress e - 1)));
    let tg := set_locklist tg ll in
    b ← verify_edge tg from to;
    tg ← (if (b : bool) then remove_edge tg from to else Ok tg);
    e ← aget (locklist tg) idx;
    ll ← aset (locklist tg) idx (Source thread_id (type e) (lock_id e) (degress e));
    Ok (set_locklist tg ll).

(* src: 7.4deadlock_detect/deadlock_success.c:472-483 unlock_after *)
Definition unlock_after (tg : task_graph) (lockaddr : Z) : res task_graph :=
  idx ← search_lock tg lockaddr;
  e ← aget (locklist tg) idx;
  if degress e =? 0 then
    ll ← aset (locklist tg) idx (Source 0 (type e) 0 (degress e));
    Ok (set_locklist tg ll)
  else Ok tg.

(** The hooks; the real lock operation between the two halves does not touch the graph. *)
(* src: 7.4deadlock_detect/deadlock_success.c:487-495 pthread_mutex_lock *)
Definition pthread_mutex_lock (tg : task_graph) (selfid mutex : Z) : res task_graph :=
  tg ← lock_before tg selfid mutex; lock_after tg selfid mutex.

(* src: 7.4deadlock_detect/deadlock_success.c:497-506 pthread_mutex_unlock *)
Definition pthread_mutex_unlock (tg : task_graph) (selfid mutex : Z) : res task_graph :=
  unlock_after tg mutex.

(** ** The graph as a relation *)

(** Vertices are the first [num] cells; each adjacency list names vertices. *)
Record graph_ok (tg : task_graph) : Prop := GraphOk {
  go_len : Z.of_nat (length (vlist tg)) = MAX;
  go_num : 0 ≤ num tg ≤ MAX;
  go_closed : ∀ i v x, (i < Z.to_nat (num tg))%nat → vlist tg !! i = Some v → x ∈ next v →
    ∃ j, search_vertex tg x = Ok (Z.of_nat j) ∧ (j < Z.to_nat (num tg))%nat
}.

Section search.
Context (tg : task_graph) (Htg : graph_ok tg).
Abbreviation N := (Z.to_nat (num tg)).

Definition edge (i j : nat) : Prop := ∃ v x, (i < N)%nat ∧ vlist tg !! i = Some v ∧ x ∈ next v ∧
  search_vertex tg x = Ok (Z.of_nat j).

(** A cell of the graph visited by the search. *)
Definition vis (g : globals) (u : nat) : Prop := (u < N)%nat ∧ visited g !! u = Some 1.

(** [ps] is the path from the start of the search, all of it visited. *)
Record ginv (g : globals) (ps : list nat) : Prop := GInv {
  gi_vis : Z.of_nat (length (visited g)) = MAX;
  gi_path : Z.of_nat (length (path g)) = MAX + 1;
  gi_k : k g = Z.of_nat (length ps);
  gi_ne : ps ≠ [];
  gi_take : take (length ps) (path g) = map Z.of_nat ps;
  gi_nodup : NoDup ps;
  gi_ps : ∀ u, u ∈ ps → vis g u
}.

(** What a part of the search does to the globals, [dk] being the change of [k]. *)
Record went (g g' : globals) (ps : list nat) (dk : Z) : Prop := Went {
  we_vis_len : length (visited g') = length (visited g);
  we_path_len : length (path g') = length (path g);
  we_k : k g' = k g + dk;
  we_take : take (length ps) (path g') = take (length ps) (path g);
  we_mono : ∀ u, vis g u → vis g' u;
  we_flag : deadlock g' = 1 ∨ deadlock g' = deadlock g;
  we_closed : deadlock g' ≠ 1 → ∀ u v, vis g' u → ¬ vis g u → edge u v → vis g' v ∧ ¬ vis g v
}.

Lemma ginv_bound g ps : ginv g ps → (length ps ≤ N)%nat.
Proof.
  intros Hg. pose proof (gi_nodup _ _ Hg) as Hnd.
  rewrite <-(length_seq N 0). apply submseteq_length, NoDup_submseteq; [done|].
  intros u Hu. destruct (gi_ps _ _ Hg u Hu). apply elem_of_seq. lia.
Qed.

Lemma ginv_went g g' ps dk : ginv g ps → went g g' ps dk → ginv (set_k g' (Z.of_nat (length ps))) ps.
Proof.
  intros [H1 H2 H3 H4 H5 H6 H7] [W1 W2 W3 W4 W5 W6 W7]. split; simpl; try done; try congruence.
  intros u Hu. by apply W5, H7.
Qed.

Lemma went_trans g g1 g2 ps d1 d2 : went g g1 ps d1 → went g1 g2 ps d2 → went g g2 ps (d1 + d2).
Proof.
  intros [A1 A2 A3 A4 A5 A6 A7] [B1 B2 B3 B4 B5 B6 B7].
  split; [by rewrite B1|by rewrite B2|lia|by rewrite B4|auto|destruct B6 as [?| ->]; auto|].
  intros Hd u v Hu Hnu He.
  assert (Hd1 : deadlock g1 ≠ 1) by (intros E; destruct B6; congruence).
  destruct (decide (visited g1 !! u = Some 1)) as [Hv1|Hv1].
  - destruct (A7 Hd1 u v) as [Hv Hnv]; [by destruct Hu|done|done|]. eauto.
  - destruct (B7 Hd u v Hu) as [Hv Hnv]; [by intros []|done|]. split; [done|]. eauto.
Qed.

Lemma path_ids_ok n p i : (∀ j, i ≤ j < i + Z.of_nat n → ∃ x, aget p j = Ok x ∧ 0 ≤ x < num tg) → 0 ≤ i →
  ∃ l, path_ids n tg p i = Ok l.
Proof.
  revert i. induction n as [|n IH]; intros i Hp Hi; [by eexists|]. simpl.
  destruct (Hp i) as (x & -> & Hx); [lia|]. cbn [mbind res_bind].
  destruct (lookup_lt_is_Some_2 (vlist tg) (Z.to_nat x)) as [v Hv].
  { pose proof (go_len _ Htg). pose proof (go_num _ Htg). lia. }
  unfold aget. rewrite (proj2 (Z.leb_le _ _)), Hv by lia. cbn [mbind res_bind get_or].
  destruct (IH (i + 1)) as (l & Hl); [intros j Hj; apply Hp; lia|lia|].
  unfold aget in Hl. rewrite Hl. by eexists.
Qed.

Lemma take_snoc {A} (l : list A) n x : (n < length l)%nat → take (S n) (<[n := x]> l) = take n l ++ [x].
Proof.
  intros Hn. rewrite (take_S_r _ _ x) by by apply list_lookup_insert_eq.
  by rewrite take_insert_ge by done.
Qed.

Lemma map_of_nat_snoc l w : map Z.of_nat (l ++ [w]) = map Z.of_nat l ++ [Z.of_nat w].
Proof. by rewrite map_app. Qed.

(** The search meets a vertex already visited. *)
Lemma dfs_found g ps w : ginv g ps → vis g w → ∃ g',
  (p ← aset (path g) (k g) (Z.of_nat w);
   g ← print_deadlock tg (Globals p (visited g) (k g + 1) (deadlock g) (out g));
   Ok (Globals (path g) (visited g) (k g) 1 (out g))) = Ok g' ∧ went g g' ps 1 ∧ deadlock g' = 1.
Proof.
  intros Hg Hw. pose proof (ginv_bound _ _ Hg) as Hb. pose proof (go_num _ Htg) as Hnum.
  destruct Hg as [H1 H2 H3 H4 H5 H6 H7]. unfold aset at 1.
  rewrite (proj2 (Z.leb_le _ _)), (proj2 (Z.ltb_lt _ _)) by lia. cbn [andb mbind res_bind].
  unfold print_deadlock. cbn [k path]. rewrite H3, Nat2Z.id.
  replace (S (Z.to_nat (Z.of_nat (length ps) + 1 - 1))) with (S (length ps)) by lia.
  set (p := <[length ps := Z.of_nat w]> (path g)).
  assert (Hp : take (S (length ps)) p = map Z.of_nat (ps ++ [w])).
  { unfold p. rewrite take_snoc, H5 by lia. by rewrite map_of_nat_snoc. }
  destruct (path_ids_ok (S (length ps)) p 0) as (l & ->); [|lia|].
  { intros j Hj. destruct (lookup_lt_is_Some_2 (ps ++ [w]) (Z.to_nat j)) as [u Hu]; [rewrite length_app; simpl; lia|].
    exists (Z.of_nat u). unfold aget. rewrite (proj2 (Z.leb_le _ _)) by lia.
    rewrite <-(lookup_take_lt p (S (length ps))), Hp by lia. change (map Z.of_nat) with (fmap (M := list) Z.of_nat).
    rewrite list_lookup_fmap, Hu. split; [done|].
    apply list_elem_of_lookup_2, elem_of_app in Hu. destruct Hu as [Hu| ->%list_elem_of_singleton].
    - destruct (H7 u Hu). lia.
    - destruct Hw. lia. }
  cbn [mbind res_bind]. eexists. split; [done|]. split; [|done].
  split; simpl; try done; [unfold p; by rewrite length_insert|lia| |by left].
  unfold p. by rewrite take_insert_ge.
Qed.

(** The search enters a vertex. *)
Lemma dfs_enter g ps w : ginv g ps → (w < N)%nat → visited g !! w ≠ Some 1 → ∃ g1,
  aset (visited g) (Z.of_nat w) 1 = Ok (visited g1) ∧ aset (path g) (k g) (Z.of_nat w) = Ok (path g1) ∧
  g1 = Globals (path g1) (visited g1) (k g + 1) (deadlock g) (out g) ∧ ginv g1 (ps ++ [w]) ∧
  take (length ps) (path g1) = take (length ps) (path g) ∧
  length (visited g1) = length (visited g) ∧ length (path g1) = length (path g) ∧
  (∀ u, vis g1 u ↔ u = w ∨ vis g u) ∧ k g1 = k g + 1 ∧ deadlock g1 = deadlock g.
Proof.
  intros Hg Hw Hnv. pose proof (ginv_bound _ _ Hg) as Hb. pose proof (go_num _ Htg) as Hnum.
  destruct Hg as [H1 H2 H3 H4 H5 H6 H7].
  exists (Globals (<[length ps := Z.of_nat w]> (path g)) (<[w := 1]> (visited g)) (k g + 1) (deadlock g) (out g)).
  cbn [visited path k deadlock out]. unfold aset. rewrite H3, !Nat2Z.id.
  rewrite !(proj2 (Z.leb_le _ _)), !(proj2 (Z.ltb_lt _ _)) by lia. cbn [andb].
  assert (Hvis : ∀ u, vis (Globals (<[length ps := Z.of_nat w]> (path g)) (<[w := 1]> (visited g))
    (Z.of_nat (length ps) + 1) (deadlock g) (out g)) u ↔ u = w ∨ vis g u).
  { intros u. unfold vis. cbn [visited]. destruct (decide (u = w)) as [->|Hne].
    - rewrite list_lookup_insert_eq by lia. naive_solver.
    - rewrite list_lookup_insert_ne by done. naive_solver. }
  rewrite !length_insert. split_and!; try done; [|by rewrite take_insert_ge].
  split; cbn [visited path k].
  - by rewrite length_insert.
  - by rewrite length_insert.
  - rewrite length_app. simpl. lia.
  - by destruct ps.
  - rewrite length_app, Nat.add_comm, map_of_nat_snoc. simpl length. cbn [Nat.add].
    by rewrite take_snoc, H5 by lia.
  - apply NoDup_app. split; [done|]. split; [|apply NoDup_singleton].
    intros u Hu ->%list_elem_of_singleton. by destruct (H7 w Hu).
  - intros u Hu. apply Hvis. apply elem_of_app in Hu as [Hu| ->%list_elem_of_singleton]; [right; auto|by left].
Qed.

Lemma went_refl g ps : went g g ps 0.
Proof. split; try done; [lia|by right]. Qed.

Lemma went_set_k g g' ps d : went g g' ps d → went g (set_k g' (k g' - 1)) ps (d - 1).
Proof. intros [W1 W2 W3 W4 W5 W6 W7]. split; try done. simpl. lia. Qed.

Lemma each_next_spec (f : globals → source_type → res globals) ps l :
  (∀ g x, x ∈ l → ginv g ps → ∃ j g', search_vertex tg x = Ok (Z.of_nat j) ∧ f g x = Ok g' ∧ went g g' ps 1 ∧
     (deadlock g' ≠ 1 → vis g' j ∧ ¬ vis g j)) →
  ∀ g, ginv g ps → ∃ g', each_next f l g = Ok g' ∧ went g g' ps 0 ∧
    (deadlock g' ≠ 1 → ∀ x j, x ∈ l → search_vertex tg x = Ok (Z.of_nat j) → vis g' j ∧ ¬ vis g j).
Proof.
  induction l as [|x l IH]; intros Hf g Hg.
  { exists g. split; [done|]. split; [apply went_refl|]. intros _ x j Hx. by apply elem_of_nil in Hx. }
  simpl. destruct (Hf g x ltac:(left) Hg) as (j & g1 & Hj & -> & W1 & Hv1). cbn [mbind res_bind].
  pose proof (went_set_k _ _ _ _ W1) as W1'. change (1 - 1) with 0 in W1'.
  assert (Hk : k g1 - 1 = Z.of_nat (length ps)) by (rewrite (we_k _ _ _ _ W1), (gi_k _ _ Hg); lia).
  rewrite Hk in *. pose proof (ginv_went _ _ _ _ Hg W1) as Hg1.
  destruct (IH ltac:(intros; apply Hf; [by right|done]) _ Hg1) as (g' & -> & W2 & Hv2).
  exists g'. split; [done|]. split; [exact (went_trans _ _ _ _ _ _ W1' W2)|].
  intros Hd y i Hy Hi. pose proof (we_flag _ _ _ _ W2) as Hfl. simpl in Hfl.
  apply elem_of_cons in Hy as [->|Hy].
  - assert (i = j) as -> by (rewrite Hi in Hj; injection Hj; lia).
    destruct Hv1 as [Hv Hnv]; [intros E; destruct Hfl; congruence|]. split; [|done].
    by apply (we_mono _ _ _ _ W2).
  - destruct (Hv2 Hd y i Hy Hi) as [Hv Hnv]. split; [done|]. intros Hvi. apply Hnv.
    exact (we_mono _ _ _ _ W1 i Hvi).
Qed.

Lemma dfs_spec fuel : ∀ g ps w, ginv g ps → (w < N)%nat → (N + 2 ≤ fuel + length ps)%nat →
  ∃ g', DFS fuel tg g (Z.of_nat w) = Ok g' ∧ went g g' ps 1 ∧ (deadlock g' ≠ 1 → vis g' w ∧ ¬ vis g w).
Proof.
  induction fuel as [|fuel IH]; intros g ps w Hg Hw Hf; [pose proof (ginv_bound _ _ Hg); lia|].
  pose proof (go_num _ Htg) as Hnum. pose proof (go_len _ Htg) as Hlen. simpl.
  destruct (lookup_lt_is_Some_2 (vlist tg) w) as [ver Hver]; [lia|].
  rewrite (aget_ok _ _ _ Hver). cbn [mbind res_bind].
  destruct (lookup_lt_is_Some_2 (visited g) w) as [b Hb]; [pose proof (gi_vis _ _ Hg); lia|].
  rewrite (aget_ok _ _ _ Hb). cbn [mbind res_bind].
  destruct (Z.eqb_spec b 1) as [->|Hb1].
  { destruct (dfs_found g ps w Hg) as (g' & Hok & W & Hd); [by split|]. exists g'. by split_and!. }
  destruct (dfs_enter g ps w Hg Hw) as (g1 & -> & Hp & E1 & Hg1 & Htake & Hvl & Hpl & Hvis & Hk & Hd1); [congruence|].
  cbn [mbind res_bind]. rewrite Hp. cbn [mbind res_bind]. rewrite <-E1.
  destruct (each_next_spec (λ g x, j ← search_vertex tg x; DFS fuel tg g j) (ps ++ [w]) (next ver)) with (g := g1)
    as (g' & -> & W & Hv); [|done|].
  { intros g2 x Hx Hg2. destruct (go_closed _ Htg w ver x Hw Hver Hx) as (j & Hj & HjN).
    destruct (IH g2 (ps ++ [w]) j Hg2 HjN) as (g3 & Hok & W3 & Hv3); [rewrite length_app; simpl; lia|].
    exists j, g3. rewrite Hj. by split_and!. }
  exists g'. split; [done|]. destruct W as [W1 W2 W3 W4 W5 W6 W7].
  assert (Hnw : ¬ vis g w) by (intros [_ ?]; congruence).
  assert (Hmono : ∀ u, vis g u → vis g1 u) by (intros; apply Hvis; by right).
  split; [|intros _; split; [apply W5, Hvis; by left|done]].
  split; [congruence|congruence|lia| |auto|destruct W6; [by left|right; congruence]|].
  - apply (f_equal (take (length ps))) in W4. rewrite !take_take, length_app, !Nat.min_l in W4 by lia. congruence.
  - intros Hd u v Hu Hnu He. destruct (decide (u = w)) as [->|Hne].
    + destruct He as (v' & x & _ & Hv' & Hx & Hs). simplify_eq.
      destruct (Hv Hd x v Hx Hs) as [? Hn]. auto.
    + destruct (W7 Hd u v Hu) as [? Hn]; [rewrite Hvis; tauto|done|]. auto.
Qed.

Lemma aset_ok {A} (l : list A) i x : 0 ≤ i < Z.of_nat (length l) → aset l i x = Ok (<[Z.to_nat i := x]> l).
Proof. intros Hi. unfold aset. by rewrite (proj2 (Z.leb_le _ _)), (proj2 (Z.ltb_lt _ _)) by lia. Qed.

Lemma clear_visited_loop idx n : ∀ i vs, 0 ≤ i → i + Z.of_nat n ≤ Z.of_nat (length vs) → ∃ vs',
  for_up n i (λ i vis, if i =? idx then Ok vis else aset vis i 0) vs = Ok vs' ∧ length vs' = length vs ∧
  ∀ u, vs' !! u = if decide (i ≤ Z.of_nat u < i + Z.of_nat n ∧ Z.of_nat u ≠ idx) then Some 0 else vs !! u.
Proof.
  induction n as [|n IH]; intros i vs H0 Hb; simpl.
  { exists vs. split_and!; try done. intros u. rewrite decide_False by lia. done. }
  destruct (Z.eqb_spec i idx) as [E|E].
  - cbn [mbind res_bind]. destruct (IH (i + 1) vs) as (vs' & -> & Hl & Hu); [lia|lia|].
    exists vs'. split_and!; try done. intros u. rewrite Hu. apply decide_ext. lia.
  - rewrite aset_ok by lia. cbn [mbind res_bind].
    destruct (IH (i + 1) (<[Z.to_nat i := 0]> vs)) as (vs' & -> & Hl & Hu); [lia|rewrite length_insert; lia|].
    exists vs'. rewrite length_insert in Hl. split_and!; try done. intros u. rewrite Hu.
    destruct (decide (u = Z.to_nat i)) as [->|Hne].
    + rewrite decide_False, decide_True by lia. apply list_lookup_insert_eq. lia.
    + rewrite list_lookup_insert_ne by done. apply decide_ext. lia.
Qed.

Lemma clear_path_loop n : ∀ i p, 1 ≤ i → i + Z.of_nat n ≤ Z.of_nat (length p) → ∃ p',
  for_up n i (λ i p, aset p i (-1)) p = Ok p' ∧ length p' = length p ∧ take 1 p' = take 1 p.
Proof.
  induction n as [|n IH]; intros i p H0 Hb; simpl; [by exists p|].
  rewrite aset_ok by lia. cbn [mbind res_bind].
  destruct (IH (i + 1) (<[Z.to_nat i := -1]> p)) as (p' & -> & Hl & Hu); [lia|rewrite length_insert; lia|].
  exists p'. rewrite length_insert in Hl. split_and!; try done. rewrite Hu. apply take_insert_ge. lia.
Qed.

(** Between two searches: the arrays have their sizes. *)
Record sized (g : globals) : Prop := Sized {
  sz_vis : Z.of_nat (length (visited g)) = MAX;
  sz_path : Z.of_nat (length (path g)) = MAX + 1
}.

(** Preparing the search along one edge of [idx]. *)
Lemma clear_spec g idx : sized g → (idx < N)%nat → visited g !! idx = Some 1 →
  take 1 (path g) = [Z.of_nat idx] → ∃ vs p,
  clear_visited (num tg) (Z.of_nat idx) (visited g) = Ok vs ∧ clear_path (path g) = Ok p ∧
  let g0 := Globals p vs 1 (deadlock g) (out g) in ginv g0 [idx] ∧ ∀ u, vis g0 u ↔ u = idx.
Proof.
  intros [S1 S2] Hi Hv Hp. pose proof (go_num _ Htg).
  destruct (clear_visited_loop (Z.of_nat idx) N 0 (visited g)) as (vs & Hvs & Hvl & Hvu); [lia|lia|].
  destruct (clear_path_loop (Z.to_nat MAX) 1 (path g)) as (p & Hpp & Hpl & Hpt); [lia|unfold MAX in *; lia|].
  exists vs, p. split; [exact Hvs|]. split; [exact Hpp|].
  assert (Hvis : ∀ u, vis (Globals p vs 1 (deadlock g) (out g)) u ↔ u = idx).
  { intros u. unfold vis. cbn [visited]. rewrite Hvu. destruct (decide (u = idx)) as [->|Hne].
    - rewrite decide_False by lia. tauto.
    - case_decide as Hd; [|lia || (split; [|done]; intros [? ?]; lia)]. split; [by intros [_ ?]|done]. }
  split; [|done]. split; cbn [visited path k]; try done; [lia|lia|change (length [idx]) with 1%nat; by rewrite Hpt|by apply NoDup_singleton|].
  intros u ->%list_elem_of_singleton. by apply Hvis.
Qed.

(** A search that raises no alarm closes the set it visits. *)
Lemma no_alarm_path g g' ps : went g g' ps 1 → deadlock g' ≠ 1 → ∀ u v, rtc edge u v →
  vis g' u → ¬ vis g u → vis g' v ∧ ¬ vis g v.
Proof.
  intros W Hd u v Huv. induction Huv as [u|u w v He _ IH]; intros Hu Hnu; [done|].
  destruct (we_closed _ _ _ _ W Hd u w Hu Hnu He) as [Hw Hnw]. by apply IH.
Qed.

Lemma search_edges_spec idx l : (idx < N)%nat → (∀ x, x ∈ l → ∃ j, search_vertex tg x = Ok (Z.of_nat j) ∧ (j < N)%nat) →
  ∀ g, sized g → visited g !! idx = Some 1 → take 1 (path g) = [Z.of_nat idx] → ∃ g',
  search_edges l tg g (Z.of_nat idx) = Ok g' ∧ sized g' ∧ (deadlock g' = 1 ∨ deadlock g' = deadlock g) ∧
  (deadlock g' ≠ 1 → ∀ x j, x ∈ l → search_vertex tg x = Ok (Z.of_nat j) → ¬ rtc edge j idx).
Proof.
  intros Hidx. induction l as [|x l IH]; intros Hl g Hs Hv Hp.
  { exists g. split_and!; try done; [by right|]. intros _ x j Hx. by apply elem_of_nil in Hx. }
  cbn [search_edges]. destruct (clear_spec g idx Hs Hidx Hv Hp) as (vs & p & -> & -> & Hg0 & Hvis0). cbn [mbind res_bind].
  set (g0 := Globals p vs 1 (deadlock g) (out g)) in *.
  destruct (Hl x ltac:(left)) as (j & Hj & HjN). rewrite Hj. cbn [mbind res_bind].
  destruct (dfs_spec (dfs_fuel tg) g0 [idx] j Hg0 HjN) as (g1 & -> & W & Hj1); [unfold dfs_fuel; simpl; lia|].
  cbn [mbind res_bind].
  destruct (IH ltac:(intros; apply Hl; by right) g1) as (g' & -> & Hs' & Hfl & Hcl).
  - split; [rewrite (we_vis_len _ _ _ _ W); apply Hg0|rewrite (we_path_len _ _ _ _ W); apply Hg0].
  - apply (we_mono _ _ _ _ W). by apply Hvis0.
  - rewrite (we_take _ _ _ _ W : take 1 (path g1) = take 1 (path g0)). apply (gi_take _ _ Hg0).
  - exists g'. pose proof (we_flag _ _ _ _ W) as Hf1. simpl in Hf1. split_and!; try done.
    + destruct Hfl as [?| ->]; [by left|done].
    + intros Hd y i Hy Hi Hr. assert (Hd1 : deadlock g1 ≠ 1) by (intros E; destruct Hfl; congruence).
      apply elem_of_cons in Hy as [->|Hy]; [|by apply (Hcl Hd y i)].
      assert (i = j) as -> by (rewrite Hi in Hj; injection Hj; lia).
      destruct (Hj1 Hd1) as [Hv1 Hnv1]. destruct (no_alarm_path _ _ _ W Hd1 j idx Hr Hv1 Hnv1) as [_ Hn].
      by apply Hn, Hvis0.
Qed.

(** The state [search_for_cycle] starts its loop in. *)
Lemma cycle_start g idx v : sized g → (idx < N)%nat → vlist tg !! idx = Some v → ∃ vs p,
  (∀ idx', idx' = Z.of_nat idx → search_for_cycle tg g idx' =
     search_edges (next v) tg (Globals p vs 1 (deadlock g) (out g)) (Z.of_nat idx)) ∧
  sized (Globals p vs 1 (deadlock g) (out g)) ∧ vs !! idx = Some 1 ∧ take 1 p = [Z.of_nat idx].
Proof.
  intros [S1 S2] Hi Hv. pose proof (go_num _ Htg). unfold MAX in *.
  exists (<[idx := 1]> (visited g)), (<[0%nat := Z.of_nat idx]> (path g)). split; [|split; [|split]].
  - intros ? ->. unfold search_for_cycle. rewrite (aget_ok _ _ _ Hv). cbn [mbind res_bind].
    rewrite aset_ok by lia. cbn [mbind res_bind]. rewrite aset_ok by lia. cbn [mbind res_bind].
    by rewrite Nat2Z.id.
  - split; simpl; by rewrite length_insert.
  - apply list_lookup_insert_eq. lia.
  - destruct (path g); [simpl in *; lia|done].
Qed.

Lemma search_for_cycle_spec g idx : sized g → (idx < N)%nat → ∃ g',
  search_for_cycle tg g (Z.of_nat idx) = Ok g' ∧ sized g' ∧
  (deadlock g' = 1 ∨ deadlock g' = deadlock g) ∧ (deadlock g' ≠ 1 → ¬ tc edge idx idx).
Proof.
  intros Hs Hi. pose proof (go_len _ Htg) as Hlen. pose proof (go_num _ Htg) as Hnum.
  destruct (lookup_lt_is_Some_2 (vlist tg) idx) as [v Hv]; [lia|].
  destruct (cycle_start g idx v Hs Hi Hv) as (vs & p & -> & Hs0 & Hvs & Hp); [|done].
  destruct (search_edges_spec idx (next v) Hi ltac:(intros; by eapply (go_closed _ Htg)) _ Hs0 Hvs Hp)
    as (g' & -> & Hs' & Hfl & Hcl).
  exists g'. split_and!; try done. intros Hd Ht.
  assert (∃ j, edge idx j ∧ rtc edge j idx) as (j & (v' & x & _ & Hv' & Hx & Hj) & Hr).
  { inversion Ht as [? ? He|? j ? He Hj]; subst; [by exists idx|]. exists j. split; [done|by apply tc_rtc]. }
  simplify_eq. by apply (Hcl Hd x j).
Qed.

Lemma check_from_spec n : ∀ i g, sized g → (i + n = N)%nat → ∃ g',
  check_from n tg g (Z.of_nat i) = Ok g' ∧ sized g' ∧ (deadlock g' = 1 ∨ deadlock g' = deadlock g) ∧
  (deadlock g' ≠ 1 → ∀ c, (i ≤ c < N)%nat → ¬ tc edge c c).
Proof.
  induction n as [|n IH]; intros i g Hs Hn; cbn [check_from].
  { exists g. split_and!; try done; [by right|]. intros _ c Hc. lia. }
  destruct (Z.eqb_spec (deadlock g) 1) as [E|E]; [exists g; by split_and!; [..|left|]|].
  destruct (search_for_cycle_spec g i Hs ltac:(lia)) as (g1 & -> & Hs1 & Hf1 & Hc1). cbn [mbind res_bind].
  replace (Z.of_nat i + 1) with (Z.of_nat (S i)) by lia.
  destruct (IH (S i) g1 Hs1 ltac:(lia)) as (g' & -> & Hs' & Hf' & Hc').
  exists g'. split_and!; try done.
  - destruct Hf' as [?| ->]; [by left|done].
  - intros Hd c Hc. destruct (decide (c = i)) as [->|Hne]; [|apply Hc'; [done|lia]].
    apply Hc1. intros E1. destruct Hf'; congruence.
Qed.

(** ** When every thread waits for at most one other *)

Context (Hdeg : ∀ i v, vlist tg !! i = Some v → (length (next v) ≤ 1)%nat).

Lemma dfs_sound fuel : ∀ g w g', (w < N)%nat → DFS fuel tg g (Z.of_nat w) = Ok g' →
  deadlock g ≠ 1 → deadlock g' = 1 → (∀ u, vis g u → tc edge u w) → ∃ c, tc edge c c.
Proof.
  induction fuel as [|fuel IH]; intros g w g' Hw Hok Hd Hd' Hpre; [done|]. simpl in Hok.
  apply bind_ok in Hok as (ver & Hver & Hok). apply bind_ok in Hok as (b & Hb & Hok).
  assert (Hget : ∀ A (l : list A) y, aget l (Z.of_nat w) = Ok y → l !! w = Some y).
  { intros A l y Hy. unfold aget in Hy. rewrite (proj2 (Z.leb_le _ _)), Nat2Z.id in Hy by lia.
    by apply get_or_ok in Hy. }
  apply Hget in Hver, Hb. destruct (Z.eqb_spec b 1) as [->|Hb1]; [exists w; apply Hpre; by split|].
  apply bind_ok in Hok as (vs & Hvs & Hok). apply bind_ok in Hok as (p & Hp & Hok).
  pose proof (Hdeg _ _ Hver) as Hl. destruct (next ver) as [|x [|? ?]] eqn:En; simpl in Hl; [|  |lia].
  { simpl in Hok. injection Hok as <-. done. }
  simpl in Hok. apply bind_ok in Hok as (g1 & Hok & Hend). injection Hend as <-. simpl in Hd'.
  apply bind_ok in Hok as (j' & Hj' & Hok).
  destruct (go_closed _ Htg w ver x Hw Hver) as (j & Hj & HjN); [rewrite En; left|].
  rewrite Hj in Hj'. injection Hj' as <-.
  assert (He : edge w j) by (exists ver, x; split_and!; [done|done|rewrite En; left|done]).
  eapply (IH _ j g1 HjN Hok); [done|done|]. intros u [Hu Huv]. cbn [visited] in Huv.
  unfold aset in Hvs. case_match; [|done]. injection Hvs as <-. rewrite Nat2Z.id in Huv.
  destruct (decide (u = w)) as [->|Hne]; [by apply tc_once|]. rewrite list_lookup_insert_ne in Huv by done.
  eapply tc_r; [|exact He]. apply Hpre. by split.
Qed.

Lemma search_for_cycle_sound g idx g' : sized g → (idx < N)%nat →
  search_for_cycle tg g (Z.of_nat idx) = Ok g' → deadlock g ≠ 1 → deadlock g' = 1 → ∃ c, tc edge c c.
Proof.
  intros Hs Hi Hok Hd Hd'. pose proof (go_len _ Htg) as Hlen. pose proof (go_num _ Htg) as Hnum.
  destruct (lookup_lt_is_Some_2 (vlist tg) idx) as [v Hv]; [lia|].
  destruct (cycle_start g idx v Hs Hi Hv) as (vs & p & Heq & Hs0 & Hvs & Hp). rewrite Heq in Hok by done.
  pose proof (Hdeg _ _ Hv) as Hl. destruct (next v) as [|x [|? ?]] eqn:En; simpl in Hl; [| |lia].
  { simpl in Hok. injection Hok as <-. done. }
  cbn [search_edges] in Hok. destruct (clear_spec _ idx Hs0 Hi Hvs Hp) as (vs1 & p1 & Hc1 & Hc2 & Hg0 & Hvis0).
  rewrite Hc1 in Hok. cbn [mbind res_bind] in Hok. rewrite Hc2 in Hok. cbn [mbind res_bind] in Hok.
  destruct (go_closed _ Htg idx v x Hi Hv) as (j & Hj & HjN); [rewrite En; left|].
  rewrite Hj in Hok. cbn [mbind res_bind] in Hok. apply bind_ok in Hok as (g1 & Hok & Hend).
  injection Hend as <-. eapply (dfs_sound _ _ j _ HjN Hok); [done|done|].
  intros u Hu%Hvis0. subst u. apply tc_once. exists v, x. split_and!; [done|done|rewrite En; left|done].
Qed.

Lemma check_from_sound n : ∀ i g g', sized g → (i + n = N)%nat → check_from n tg g (Z.of_nat i) = Ok g' →
  deadlock g ≠ 1 → deadlock g' = 1 → ∃ c, tc edge c c.
Proof.
  induction n as [|n IH]; intros i g g' Hs Hn Hok Hd Hd'; cbn [check_from] in Hok; [by injection Hok as <-|].
  rewrite (proj2 (Z.eqb_neq _ _) Hd) in Hok.
  destruct (search_for_cycle_spec g i Hs ltac:(lia)) as (g1 & Hok1 & Hs1 & Hf1 & _). rewrite Hok1 in Hok.
  cbn [mbind res_bind] in Hok. replace (Z.of_nat i + 1) with (Z.of_nat (S i)) in Hok by lia.
  destruct (decide (deadlock g1 = 1)) as [E|E]; [by apply (search_for_cycle_sound g i g1 Hs ltac:(lia))|].
  apply (IH (S i) g1 g'); [done|lia|done|done|done].
Qed.

End search.

(** ** Growing the graph *)

Definition vkey (v : vertex) : vtype * Z := (type (s v), id (s v)).
Definition skey (x : source_type) : vtype * Z := (type x, id x).

Lemma vkey_test v t : bool_decide (type (s v) = type t) && (id (s v) =? id t) = bool_decide (vkey v = skey t).
Proof.
  unfold vkey, skey. destruct (decide (type (s v) = type t)) as [E1|E1], (Z.eqb_spec (id (s v)) (id t)) as [E2|E2].
  - rewrite !bool_decide_eq_true_2 by congruence. done.
  - rewrite andb_false_r, bool_decide_eq_false_2 by congruence. done.
  - rewrite !bool_decide_eq_false_2 by congruence. done.
  - rewrite !bool_decide_eq_false_2 by congruence. done.
Qed.

(** The search finds the first vertex of that name, or none. *)
Lemma search_from_spec t n : ∀ l i, (i + n ≤ length l)%nat → ∃ r,
  search_vertex_from n l (Z.of_nat i) t = Ok r ∧
  ((r = -1 ∧ ∀ j v, (i ≤ j < i + n)%nat → l !! j = Some v → vkey v ≠ skey t) ∨
   ∃ j v, r = Z.of_nat j ∧ (i ≤ j < i + n)%nat ∧ l !! j = Some v ∧ vkey v = skey t ∧
     ∀ j' v', (i ≤ j' < j)%nat → l !! j' = Some v' → vkey v' ≠ skey t).
Proof.
  induction n as [|n IH]; intros l i Hl; simpl.
  { exists (-1). split; [done|]. left. split; [done|]. lia. }
  destruct (lookup_lt_is_Some_2 l i) as [v Hv]; [lia|]. rewrite (aget_ok _ _ _ Hv). cbn [mbind res_bind].
  rewrite vkey_test. case_bool_decide as Hk.
  { exists (Z.of_nat i). split; [done|]. right. exists i, v. split_and!; try done; lia. }
  replace (Z.of_nat i + 1) with (Z.of_nat (S i)) by lia.
  destruct (IH l (S i) ltac:(lia)) as (r & -> & [[-> Hno]|(j & w & -> & Hj & Hw & Hkw & Hfirst)]).
  - exists (-1). split; [done|]. left. split; [done|]. intros j w Hj Hw.
    destruct (decide (j = i)) as [->|Hne]; [congruence|]. apply (Hno j w); [lia|done].
  - exists (Z.of_nat j). split; [done|]. right. exists j, w. split_and!; try done; try lia.
    intros j' v' Hj' Hv'. destruct (decide (j' = i)) as [->|Hne]; [congruence|]. apply (Hfirst j' v'); [lia|done].
Qed.

Lemma search_spec tg t : (Z.to_nat (num tg) ≤ length (vlist tg))%nat → ∃ r, search_vertex tg t = Ok r ∧
  ((r = -1 ∧ ∀ j v, (j < Z.to_nat (num tg))%nat → vlist tg !! j = Some v → vkey v ≠ skey t) ∨
   ∃ j v, r = Z.of_nat j ∧ (j < Z.to_nat (num tg))%nat ∧ vlist tg !! j = Some v ∧ vkey v = skey t).
Proof.
  intros Hl. destruct (search_from_spec t (Z.to_nat (num tg)) (vlist tg) 0 Hl) as (r & Hr & Hc).
  exists r. split; [exact Hr|]. destruct Hc as [[-> Hno]|(j & v & -> & Hj & Hv & Hk & _)].
  - left. split; [done|]. intros j v Hj. apply Hno. lia.
  - right. exists j, v. split_and!; try done. lia.
Qed.

(** A vertex found stays found when others are added behind it. *)
Lemma search_from_ext t n n' l l' i j : (i + n ≤ length l)%nat → (i + n' ≤ length l')%nat → (n ≤ n')%nat →
  (∀ m, (m < i + n)%nat → vkey <$> l' !! m = vkey <$> l !! m) →
  search_vertex_from n l (Z.of_nat i) t = Ok (Z.of_nat j) →
  search_vertex_from n' l' (Z.of_nat i) t = Ok (Z.of_nat j).
Proof.
  intros Hl Hl' Hn Hsame Hs.
  destruct (search_from_spec t n l i Hl) as (r & Hr & Hc). rewrite Hr in Hs. injection Hs as ->.
  destruct Hc as [[? _]|(j1 & v & Ej & Hj & Hv & Hk & Hfirst)]; [lia|].
  assert (j1 = j) as -> by lia. pose proof (Hsame j ltac:(lia)) as Hsj. rewrite Hv in Hsj.
  destruct (l' !! j) as [v2|] eqn:Hv2; [|done]. apply (inj Some) in Hsj.
  destruct (search_from_spec t n' l' i Hl') as (r & -> & [[-> Hno]|(j2 & v' & -> & Hj2 & Hv' & Hk' & Hfirst')]).
  - destruct (Hno j v2); [lia|done|congruence].
  - destruct (decide (j2 = j)) as [->|Hne]; [done|]. destruct (decide (j2 < j)%nat) as [Hlt|Hge].
    + pose proof (Hsame j2 ltac:(lia)) as Hs2. rewrite Hv' in Hs2.
      destruct (l !! j2) as [v3|] eqn:Hv3; [|done]. apply (inj Some) in Hs2.
      destruct (Hfirst j2 v3); [lia|done|congruence].
    + destruct (Hfirst' j v2); [lia|done|congruence].
Qed.

Definition named (tg : task_graph) (t : source_type) (j : nat) : Prop :=
  search_vertex tg t = Ok (Z.of_nat j) ∧ (j < Z.to_nat (num tg))%nat.

(** [tg'] is [tg] with more vertices, and edges of vertices it had. *)
Record extends (tg tg' : task_graph) : Prop := Extends {
  ex_num : num tg ≤ num tg';
  ex_key : ∀ m, (m < Z.to_nat (num tg))%nat → vkey <$> vlist tg' !! m = vkey <$> vlist tg !! m;
  ex_next : ∀ m v, (m < Z.to_nat (num tg))%nat → vlist tg !! m = Some v →
    ∃ v', vlist tg' !! m = Some v' ∧ next v ⊆ next v'
}.

Lemma named_extends tg tg' t j : graph_ok tg → graph_ok tg' → extends tg tg' → named tg t j → named tg' t j.
Proof.
  intros H1 H2 [E1 E2 E3] [Hs Hj]. pose proof (go_len _ H1). pose proof (go_len _ H2).
  pose proof (go_num _ H1). pose proof (go_num _ H2).
  split; [|lia]. unfold search_vertex in *. apply (search_from_ext t (Z.to_nat (num tg)) _ (vlist tg) _ 0); try lia; try done.
Qed.

#[export] Instance extends_po : PreOrder extends.
Proof.
  split.
  - intros tg. split; try done. intros m v _ Hv. by exists v.
  - intros a b c [A1 A2 A3] [B1 B2 B3]. split; [lia| |].
    + intros m Hm. rewrite B2, A2 by lia. done.
    + intros m v Hm Hv. destruct (A3 m v Hm Hv) as (v' & Hv' & Hin). destruct (B3 m v' ltac:(lia) Hv') as (w & Hw & Hin').
      exists w. split; [done|]. by etrans.
Qed.

Lemma search_named tg t : graph_ok tg → search_vertex tg t = Ok (-1) ∨ ∃ j, named tg t j.
Proof.
  intros H. pose proof (go_len _ H). pose proof (go_num _ H).
  destruct (search_from_spec t (Z.to_nat (num tg)) (vlist tg) 0) as (r & Hr & Hc); [lia|].
  destruct Hc as [[-> _]|(j & v & -> & Hj & _)]; [by left|]. right. exists j. split; [exact Hr|lia].
Qed.

Lemma add_vertex_spec tg t : graph_ok tg → num tg < MAX → ∃ tg', add_vertex tg t = Ok tg' ∧
  graph_ok tg' ∧ extends tg tg' ∧ num tg' ≤ num tg + 1 ∧ locklist tg' = locklist tg ∧ lockidx tg' = lockidx tg ∧
  ∃ j, named tg' t j.
Proof.
  intros H Hlt. pose proof (go_len _ H) as Hlen. pose proof (go_num _ H) as Hnum. unfold add_vertex.
  destruct (search_spec tg t) as (r & Hr & Hc); [lia|]. rewrite Hr. cbn [mbind res_bind].
  destruct Hc as [[-> Hno]|(j & v & -> & Hj & Hv & Hk)]; cbn [Z.eqb].
  2: { rewrite (proj2 (Z.eqb_neq _ _)) by lia. exists tg. split_and!; try done; [lia|].
       exists j. split; [exact Hr|lia]. }
  rewrite aset_ok by lia. cbn [mbind res_bind]. set (l := <[_ := _]> (vlist tg)).
  set (tg' := Graph l (num tg + 1) (locklist tg) (lockidx tg)).
  assert (Hlk : ∀ m, (m < Z.to_nat (num tg))%nat → l !! m = vlist tg !! m)
    by (intros m Hm; unfold l; rewrite list_lookup_insert_ne by lia; done).
  assert (Hnew : l !! Z.to_nat (num tg) = Some (Vertex t [])) by (apply list_lookup_insert_eq; lia).
  assert (Hext : ∀ x j, search_vertex tg x = Ok (Z.of_nat j) → search_vertex tg' x = Ok (Z.of_nat j)).
  { intros x j Hx. unfold search_vertex in *. apply (search_from_ext x (Z.to_nat (num tg)) _ (vlist tg) _ 0); simpl;
      unfold l; rewrite ?length_insert; try lia; [|done]. intros m Hm. fold l. by rewrite Hlk by lia. }
  exists tg'. split; [done|]. split; [|split; [|split_and!; try done; simpl; try lia]].
  - split; simpl; [unfold l; by rewrite length_insert|lia|]. intros i v x Hi Hv Hx.
    destruct (decide (i = Z.to_nat (num tg))) as [->|Hne].
    + rewrite Hnew in Hv. injection Hv as <-. by apply elem_of_nil in Hx.
    + rewrite Hlk in Hv by lia. destruct (go_closed _ H i v x) as (j & Hj & Hjn); [lia|done|done|].
      exists j. split; [by apply Hext|lia].
  - split; simpl; [lia| |].
    + intros m Hm. by rewrite Hlk.
    + intros m v Hm Hv. exists v. by rewrite Hlk.
  - exists (Z.to_nat (num tg)). split; [|simpl; lia].
    destruct (search_spec tg' t) as (r & -> & Hc); [simpl; unfold l; rewrite length_insert; lia|]. simpl in Hc.
    destruct Hc as [[-> Hno']|(j & v & -> & Hj & Hv & Hk)].
    + destruct (Hno' (Z.to_nat (num tg)) (Vertex t [])); [lia|done|done].
    + destruct (decide (j = Z.to_nat (num tg))) as [->|Hne]; [done|].
      rewrite Hlk in Hv by lia. by destruct (Hno j v ltac:(lia) Hv).
Qed.

Lemma add_vertex_named tg t j : named tg t j → add_vertex tg t = Ok tg.
Proof. intros [Hs Hj]. unfold add_vertex. rewrite Hs. simpl. by rewrite (proj2 (Z.eqb_neq _ _)) by lia. Qed.

(** Thread [t] waits for thread [o]. *)
Definition waits (tg : task_graph) (t o : Z) : Prop :=
  ∃ i v x, named tg (process t) i ∧ vlist tg !! i = Some v ∧ x ∈ next v ∧ id x = o.

Lemma add_edge_named tg t o i j : graph_ok tg → named tg (process t) i → named tg (process o) j →
  ∃ tg', add_edge tg (process t) (process o) = Ok tg' ∧ graph_ok tg' ∧ extends tg tg' ∧ waits tg' t o.
Proof.
  intros H Hi Hj. unfold add_edge. rewrite (add_vertex_named _ _ _ Hi). cbn [mbind res_bind].
  rewrite (add_vertex_named _ _ _ Hj). cbn [mbind res_bind]. pose proof Hi as [Hs Hin]. rewrite Hs. cbn [mbind res_bind].
  pose proof (go_len _ H) as Hlen. pose proof (go_num _ H) as Hnum.
  destruct (lookup_lt_is_Some_2 (vlist tg) i) as [v Hv]; [lia|]. rewrite (aget_ok _ _ _ Hv). cbn [mbind res_bind].
  rewrite aset_ok, Nat2Z.id by lia. cbn [mbind res_bind]. set (v' := Vertex _ _).
  set (tg' := set_vlist tg (<[i := v']> (vlist tg))).
  assert (Hkey : ∀ m, vkey <$> vlist tg' !! m = vkey <$> vlist tg !! m).
  { intros m. simpl. destruct (decide (m = i)) as [->|Hne].
    - by rewrite list_lookup_insert_eq, Hv by lia.
    - by rewrite list_lookup_insert_ne. }
  assert (Hsearch : ∀ x a, search_vertex tg x = Ok (Z.of_nat a) → search_vertex tg' x = Ok (Z.of_nat a)).
  { intros x a Hx. apply (search_from_ext x (Z.to_nat (num tg)) _ (vlist tg) _ 0); simpl;
      rewrite ?length_insert; try lia; [|done]. intros m _. apply Hkey. }
  assert (Hext : extends tg tg').
  { split; [simpl; lia|intros; apply Hkey|]. intros m w Hm Hw. simpl. destruct (decide (m = i)) as [->|Hne].
    - rewrite list_lookup_insert_eq by lia. simplify_eq. eexists. split; [done|]. simpl. intros y Hy. apply elem_of_app. by left.
    - rewrite list_lookup_insert_ne by done. by exists w. }
  exists tg'. split; [done|]. split; [|split; [done|]].
  - split; simpl; [by rewrite length_insert|done|]. intros m w x Hm Hw Hx.
    destruct (decide (m = i)) as [->|Hne].
    + rewrite list_lookup_insert_eq in Hw by lia. injection Hw as <-. simpl in Hx.
      apply elem_of_app in Hx as [Hx| ->%list_elem_of_singleton].
      * destruct (go_closed _ H i v x Hin Hv Hx) as (a & Ha & Han). exists a. split; [by apply Hsearch|done].
      * exists j. destruct Hj. split; [by apply Hsearch|done].
    + rewrite list_lookup_insert_ne in Hw by done. destruct (go_closed _ H m w x Hm Hw Hx) as (a & Ha & Han).
      exists a. split; [by apply Hsearch|done].
  - exists i, v', (process o). split; [split; [by apply Hsearch|done]|]. simpl.
    rewrite list_lookup_insert_eq by lia. split_and!; try done. apply elem_of_app. right. left.
Qed.

(** Lock [l] is in the table, once, held by [o]. *)
Definition holds (tg : task_graph) (l o : Z) (e : nat) : Prop :=
  (e < Z.to_nat (lockidx tg))%nat ∧ (Z.to_nat (lockidx tg) ≤ length (locklist tg))%nat ∧
  (∃ x, locklist tg !! e = Some x ∧ lock_id x = l ∧ id x = o) ∧
  ∀ e' x, e' ≠ e → (e' < Z.to_nat (lockidx tg))%nat → locklist tg !! e' = Some x → lock_id x ≠ l.

(** What the loop of [lock_before] does at the entry of the lock. *)
Lemma lock_before_entry tg t o e x : graph_ok tg → num tg + 2 ≤ MAX → t ≠ o →
  locklist tg !! e = Some x → id x = o → ∃ tg',
  (let from := process t in
   tg ← add_vertex tg from;
   let to := process (id x) in
   ll ← aset (locklist tg) (Z.of_nat e) (Source (id x) (type x) (lock_id x) (i32 (degress x + 1)));
   tg ← add_vertex (set_locklist tg ll) to;
   b ← verify_edge tg from to;
   if (b : bool) then Ok tg else add_edge tg from to) = Ok tg' ∧
  graph_ok tg' ∧ extends tg tg' ∧ waits tg' t o ∧ lockidx tg' = lockidx tg ∧
  ∃ y, locklist tg' = <[e := y]> (locklist tg).
Proof.
  intros H Hroom Hto Hx <-. pose proof (lookup_lt_Some _ _ _ Hx) as Hel. cbv zeta.
  destruct (add_vertex_spec tg (process t) H) as (tg1 & -> & H1 & E1 & N1 & L1 & I1 & i & Hi); [lia|].
  cbn [mbind res_bind]. rewrite L1, aset_ok, Nat2Z.id by lia. cbn [mbind res_bind]. set (ll := <[e := _]> (locklist tg)).
  assert (H1' : graph_ok (set_locklist tg1 ll)) by (destruct H1; by split).
  destruct (add_vertex_spec (set_locklist tg1 ll) (process (id x)) H1') as (tg2 & -> & H2 & E2 & N2 & L2 & I2 & j & Hj);
    [simpl; lia|]. cbn [mbind res_bind]. simpl in L2, I2, N2.
  assert (E12 : extends tg1 tg2) by (destruct E2; by split).
  pose proof (named_extends _ _ _ _ H1 H2 E12 Hi) as Hi2.
  assert (E02 : extends tg tg2) by (by etrans).
  unfold verify_edge. rewrite (proj2 (Z.eqb_neq (num tg2) 0)) by (destruct Hi2; lia).
  pose proof Hi2 as [Hs2 Hin2]. rewrite Hs2. cbn [mbind res_bind]. rewrite (proj2 (Z.eqb_neq _ _)) by lia.
  pose proof (go_len _ H2). pose proof (go_num _ H2).
  destruct (lookup_lt_is_Some_2 (vlist tg2) i) as [v Hv]; [lia|]. rewrite (aget_ok _ _ _ Hv). cbn [mbind res_bind].
  assert (Hidv : id (s v) = t).
  { destruct (search_spec tg2 (process t)) as (r & Hr & Hc); [lia|]. rewrite Hs2 in Hr. injection Hr as <-.
    destruct Hc as [[? _]|(a & w & Ea & Ha & Hw & Hkw)]; [lia|]. assert (a = i) as -> by lia.
    simplify_eq. unfold vkey, skey in Hkw. by simplify_eq/=. }
  destruct (existsb _ _) eqn:Eb.
  - exists tg2. split_and!; try done; [|congruence|eauto].
    apply existsb_exists in Eb as (y & [<-|Hy] & Hyo%Z.eqb_eq); [simpl in Hyo; congruence|].
    exists i, v, y. split_and!; try done. by apply list_elem_of_In.
  - destruct (add_edge_named tg2 t (id x) i j H2 Hi2 Hj) as (tg3 & Hok & Hg3 & E3 & W).
    exists tg3. split; [done|]. split; [done|]. split; [by etrans|]. split; [done|].
    unfold add_edge in Hok. rewrite (add_vertex_named _ _ _ Hi2) in Hok. cbn [mbind res_bind] in Hok.
    rewrite (add_vertex_named _ _ _ Hj) in Hok. cbn [mbind res_bind] in Hok. inv_ok.
    simpl. split; [congruence|]. rewrite L2. eauto.
Qed.

Lemma lock_before_spec tg t l o e : graph_ok tg → num tg + 2 ≤ MAX → holds tg l o e → t ≠ o →
  ∃ tg', lock_before tg t l = Ok tg' ∧ graph_ok tg' ∧ extends tg tg' ∧ waits tg' t o.
Proof.
  intros H Hroom (He & Hlen & (x & Hx & Hl & Ho) & Huniq) Hto. unfold lock_before.
  replace (Z.to_nat (lockidx tg)) with (e + S (Z.to_nat (lockidx tg) - S e))%nat by lia.
  rewrite for_up_app, for_up_skip; last first.
  { intros j Hj. destruct (lookup_lt_is_Some_2 (locklist tg) (Z.to_nat j)) as [y Hy]; [lia|].
    replace j with (Z.of_nat (Z.to_nat j)) by lia. rewrite (aget_ok _ _ _ Hy). cbn [mbind res_bind].
    rewrite (proj2 (Z.eqb_neq _ _)); [done|]. apply (Huniq (Z.to_nat j) y); [lia|lia|done]. }
  cbn [mbind res_bind for_up]. rewrite Z.add_0_l, (aget_ok _ _ _ Hx). cbn [mbind res_bind].
  rewrite (proj2 (Z.eqb_eq _ _) Hl).
  destruct (lock_before_entry tg t o e x H Hroom Hto Hx Ho) as (tg1 & Hok1 & H1 & E1 & W1 & I1 & y & L1).
  cbv zeta in Hok1 |- *. rewrite Hok1. cbn [mbind res_bind]. rewrite for_up_skip; [by eauto 10|].
  intros j Hj. rewrite L1.
  destruct (lookup_lt_is_Some_2 (locklist tg) (Z.to_nat j)) as [z Hz]; [lia|].
  replace j with (Z.of_nat (Z.to_nat j)) by lia. rewrite (aget_ok _ _ z); [|rewrite list_lookup_insert_ne by lia; done].
  cbn [mbind res_bind]. rewrite (proj2 (Z.eqb_neq _ _)); [done|]. apply (Huniq (Z.to_nat j) z); [lia|lia|done].
Qed.

(** ** Properties *)

(** C12: on every well-formed graph the check terminates without leaving its arrays,
    and raises the alarm whenever some vertex waits, directly or not, for itself. *)
Theorem check_finds_every_cycle tg g : graph_ok tg → sized g → ∃ g',
  check_dead_lock tg g = Ok g' ∧ sized g' ∧ ((∃ c, tc (edge tg) c c) → deadlock g' = 1).
Proof.
  intros Htg [S1 S2]. unfold check_dead_lock. set (g0 := Globals _ _ _ _ _).
  destruct (check_from_spec tg Htg (Z.to_nat (num tg)) 0 g0) as (g' & Hok & Hs & Hfl & Hc); [by split|lia|].
  change (Z.of_nat 0) with 0 in Hok. rewrite Hok. cbn [mbind res_bind].
  assert (Hcyc : (∃ c, tc (edge tg) c c) → deadlock g' = 1).
  { intros (c & Ht). destruct (decide (deadlock g' = 1)) as [|Hd]; [done|]. exfalso.
    apply (Hc Hd c); [|done]. inversion Ht as [? ? He|? ? ? He _]; subst; destruct He as (_ & _ & ? & _); lia. }
  destruct (Z.eqb_spec (deadlock g') 0) as [E|E]; (eexists; split; [done|]); split; try done.
  destruct Hs. by split.
Qed.

(** when every thread waits for at most one other, the alarm is raised only if
    there is a cycle. *)
Theorem check_sound_one_wait tg g g' : graph_ok tg → sized g →
  (∀ i v, vlist tg !! i = Some v → (length (next v) ≤ 1)%nat) →
  check_dead_lock tg g = Ok g' → deadlock g' = 1 → ∃ c, tc (edge tg) c c.
Proof.
  intros Htg [S1 S2] Hdeg Hok Hd. unfold check_dead_lock in Hok. apply bind_ok in Hok as (g1 & Hok & Hend).
  assert (Hd1 : deadlock g1 = 1) by (destruct (deadlock g1 =? 0); injection Hend as <-; done).
  eapply (check_from_sound tg Htg Hdeg (Z.to_nat (num tg)) 0 _ g1); [|lia|exact Hok|done|done]. by split.
Qed.

(** before a thread blocks on a lock that another holds, the graph gets the edge
    between them, whatever it had before. *)
Theorem lock_before_records_wait tg t l o e : graph_ok tg → num tg + 2 ≤ MAX → holds tg l o e → t ≠ o →
  ∃ tg', lock_before tg t l = Ok tg' ∧ graph_ok tg' ∧ extends tg tg' ∧ waits tg' t o.
Proof. apply lock_before_spec. Qed.

(** ** Concrete graphs *)

Definition ex_junk : source_type := Source 0 PROCESS 0 0.

(** The graph with these edges between processes. *)
Definition ex_graph (es : list (Z * Z)) : res task_graph :=
  foldl (λ r e, tg ← r; add_edge tg (process e.1) (process e.2)) (Ok (start_check ex_junk)) es.

(** Decides well-formedness. *)
Definition graph_okb (tg : task_graph) : bool :=
  (Z.of_nat (length (vlist tg)) =? MAX) && (0 <=? num tg) && (num tg <=? MAX) &&
  forallb (λ v, forallb (λ x, match search_vertex tg x with
                              | Ok j => (0 <=? j) && (j <? num tg)
                              | Err _ => false end) (next v)) (take (Z.to_nat (num tg)) (vlist tg)).

Lemma graph_okb_ok tg : graph_okb tg = true → graph_ok tg.
Proof.
  unfold graph_okb. rewrite !andb_true_iff, Z.eqb_eq, !Z.leb_le, forallb_forall.
  intros (((H1 & H2) & H3) & H4). split; [done|lia|]. intros i v x Hi Hv Hx.
  specialize (H4 v). rewrite forallb_forall in H4.
  assert (Hin : In v (take (Z.to_nat (num tg)) (vlist tg))).
  { apply list_elem_of_In, list_elem_of_lookup. exists i. by rewrite lookup_take_lt. }
  specialize (H4 Hin x ltac:(by apply list_elem_of_In)).
  destruct (search_vertex tg x) as [j|]; [|done]. apply andb_true_iff in H4 as [Hj0 Hj1].
  exists (Z.to_nat j). split; [f_equal; lia|lia].
Qed.

Definition ex_cycle : task_graph :=
  match ex_graph [(1, 2); (2, 3); (3, 1)] with Ok tg => tg | Err _ => start_check ex_junk end.
Lemma ex_cycle_ok : graph_ok ex_cycle.
Proof. apply graph_okb_ok. by vm_compute. Qed.
Lemma zero_sized : sized zero_globals.
Proof. by split. Qed.

Example check_finds_every_cycle_witness : ∃ g',
  check_dead_lock ex_cycle zero_globals = Ok g' ∧ sized g' ∧
  ((∃ c, tc (edge ex_cycle) c c) → deadlock g' = 1).
Proof. apply (check_finds_every_cycle ex_cycle zero_globals ex_cycle_ok zero_sized). Defined.

Example check_sound_one_wait_witness : ∃ g', check_dead_lock ex_cycle zero_globals = Ok g' ∧
  deadlock g' = 1 ∧ ∃ c, tc (edge ex_cycle) c c.
Proof.
  eexists. split; [vm_compute; reflexivity|]. split; [reflexivity|].
  eapply (check_sound_one_wait ex_cycle zero_globals _ ex_cycle_ok zero_sized); [|vm_compute; reflexivity|reflexivity].
  intros i v Hv. assert (Forall (λ v, (length (next v) ≤ 1)%nat) (vlist ex_cycle)) as HF.
  { apply (bool_decide_eq_true_1 (Forall _ _)). by vm_compute. }
  rewrite Forall_lookup in HF. by apply (HF i).
Defined.

(** Thread 1 holds lock 77. *)
Definition ex_held : task_graph :=
  match pthread_mutex_lock (start_check ex_junk) 1 77 with Ok tg => tg | Err _ => start_check ex_junk end.
Lemma ex_held_holds : holds ex_held 77 1 0.
Proof.
  split; [by vm_compute; lia|]. split; [by vm_compute; lia|]. split.
  - exists (Source 1 PROCESS 77 0). by vm_compute.
  - intros e' x Hne Hlt. vm_compute in Hlt. lia.
Qed.

Example lock_before_records_wait_witness : ∃ tg',
  lock_before ex_held 2 77 = Ok tg' ∧ graph_ok tg' ∧ extends ex_held tg' ∧ waits tg' 2 1.
Proof.
  apply (lock_before_records_wait ex_held 2 77 1 0); [|by vm_compute|exact ex_held_holds|done].
  apply graph_okb_ok. by vm_compute.
Defined.

(** Runs a sequence of hooks: [inl] before and [inr] after taking a lock. *)
Definition ex_hooks (l : list ((Z * Z) + (Z * Z))) : res task_graph :=
  foldl (λ r h, tg ← r; match h with inl (t, l) => lock_before tg t l | inr (t, l) => lock_after tg t l end)
    (Ok (start_check ex_junk)) l.
Definition ex_alarm (tg : res task_graph) : res Z :=
  tg ← tg; g ← check_dead_lock tg zero_globals; Ok (deadlock g).

(** two threads that each block on the lock the other holds are reported; a
    thread that blocks on a lock it holds itself is not, because [verify_edge] looks
    for the target from the vertex itself on and so [add_edge] is never called. *)
Theorem self_deadlock_missed :
  ex_alarm (ex_hooks [inl (1, 77); inr (1, 77); inl (2, 88); inr (2, 88); inl (1, 88); inl (2, 77)]) = Ok 1 ∧
  ex_alarm (ex_hooks [inl (1, 77); inr (1, 77); inl (1, 77)]) = Ok 0.
Proof. by split; vm_compute. Qed.

(** two paths to one vertex, without any cycle, raise the alarm: the search does
    not take a vertex off [visited] when it leaves it. *)
Theorem diamond_false_alarm :
  ex_alarm (ex_graph [(1, 2); (2, 3); (2, 4); (3, 5); (4, 5)]) = Ok 1.
Proof. by vm_compute. Qed.

(** A thread locks and unlocks one mutex, [n] times. *)
Fixpoint ex_cycles (n : nat) (tg : task_graph) : res task_graph :=
  match n with
  | O => Ok tg
  | S n => tg ← pthread_mutex_lock tg 1 77; tg ← pthread_mutex_unlock tg 1 77; ex_cycles n tg
  end.

(** [lockidx] counts every acquisition and is never lowered, even when the slot
    used is a free one; after 101 rounds of locking and unlocking one mutex the table
    is searched beyond its end. *)
Theorem lock_table_overflows :
  (tg ← ex_cycles 101 (start_check ex_junk); Ok (lockidx tg)) = Ok 101 ∧
  ex_cycles 102 (start_check ex_junk) = Err OutOfBounds.
Proof. by split; vm_compute. Qed.

End Deadlock.
