(* ===== verification/CMem.v ===== *)
(** * Byte arrays and C strings

    [memcpy] between arrays with checked bounds, and the string functions of
    string.h on null-terminated arrays of bytes.  Bytes are integers from 0 to 255. *)

From S2P Require Import Prelude.

(** ** memcpy *)

(** The [n] bytes from [off] on. *)
Definition slice (l : list Z) (off n : Z) : res (list Z) :=
  if (0 <=? off) && (0 <=? n) && (off + n <=? Z.of_nat (length l))
  then Ok (take (Z.to_nat n) (drop (Z.to_nat off) l)) else Err OutOfBounds.
(** [d] with the bytes [s] stored from [off] on. *)
Definition splice (d : list Z) (off : Z) (s : list Z) : res (list Z) :=
  if (0 <=? off) && (off + Z.of_nat (length s) <=? Z.of_nat (length d))
  then Ok (take (Z.to_nat off) d ++ s ++ drop (Z.to_nat off + length s) d) else Err OutOfBounds.
(** [memcpy(d + doff, s + soff, n)] *)
Definition memcpy (d : list Z) (doff : Z) (s : list Z) (soff n : Z) : res (list Z) :=
  x ← slice s soff n; splice d doff x.

(** ** Strings *)

(** The bytes of [l] before the first null one; reading on past the end of the array
    is a fault. *)
Fixpoint cstr (l : list Z) : res (list Z) :=
  match l with
  | [] => Err OutOfBounds
  | x :: l => if x =? 0 then Ok [] else s ← cstr l; Ok (x :: s)
  end.
Definition strlen (l : list Z) : res Z := s ← cstr l; Ok (Z.of_nat (length s)).
(** [strcpy(d + off, s)] for the string [s], terminator included. *)
Definition strput (d : list Z) (off : Z) (s : list Z) : res (list Z) := splice d off (s ++ [0]).
(** [strcat(d, s)] *)
Definition strcat (d s : list Z) : res (list Z) := n ← strlen d; strput d n s.

Fixpoint is_prefix (p l : list Z) : bool :=
  match p, l with
  | [], _ => true
  | x :: p, y :: l => (x =? y) && is_prefix p l
  | _, [] => false
  end.
(** Does [p] occur in [l]: the condition [strstr(l, p) != NULL]. *)
Fixpoint strstr (l p : list Z) : bool :=
  is_prefix p l || match l with [] => false | _ :: l => strstr l p end.

(** String literals. *)
Fixpoint bytes (s : String.string) : list Z :=
  match s with
  | String.EmptyString => []
  | String.String c s => Z.of_N (Ascii.N_of_ascii c) :: bytes s
  end.
Definition CR : Z := 13.
Definition LF : Z := 10.

(** Decimal digits, as printed by [%ld] for a number that is not negative. *)
Fixpoint digits (fuel : nat) (n : Z) : list Z :=
  match fuel with
  | O => []
  | S fuel => if n <? 10 then [48 + n] else digits fuel (n / 10) ++ [48 + n mod 10]
  end.
Definition decimal (n : Z) : list Z := digits 20 n.

(** ** Facts *)

Lemma slice_ok l off n : 0 ≤ off → 0 ≤ n → off + n ≤ Z.of_nat (length l) →
  slice l off n = Ok (take (Z.to_nat n) (drop (Z.to_nat off) l)).
Proof. intros. unfold slice. by rewrite !(proj2 (Z.leb_le _ _)) by lia. Qed.

Lemma memcpy_ok d doff s soff n : 0 ≤ doff → 0 ≤ soff → 0 ≤ n → doff + n ≤ Z.of_nat (length d) →
  soff + n ≤ Z.of_nat (length s) → ∃ d', memcpy d doff s soff n = Ok d' ∧ length d' = length d ∧
  ∀ p, d' !! p = if decide (doff ≤ Z.of_nat p < doff + n) then s !! Z.to_nat (soff + Z.of_nat p - doff) else d !! p.
Proof.
  intros H1 H2 H3 H4 H5. unfold memcpy. rewrite slice_ok by lia. cbn [mbind res_bind]. set (x := take _ _).
  assert (Hx : Z.of_nat (length x) = n) by (unfold x; rewrite length_take, length_drop; lia).
  unfold splice. rewrite !(proj2 (Z.leb_le _ _)) by lia. cbn [andb]. eexists. split; [done|].
  split; [rewrite !length_app, length_take, length_drop; lia|]. intros p.
  destruct (decide (Z.of_nat p < doff)).
  { rewrite decide_False by lia. rewrite lookup_app_l by (rewrite length_take; lia).
    by rewrite lookup_take_lt by lia. }
  rewrite lookup_app_r, length_take by (rewrite length_take; lia).
  destruct (decide (Z.of_nat p < doff + n)).
  - rewrite decide_True by lia. rewrite lookup_app_l by lia. unfold x.
    rewrite lookup_take_lt, lookup_drop by lia. f_equal. lia.
  - rewrite decide_False by lia. rewrite lookup_app_r, lookup_drop by lia. f_equal. lia.
Qed.


Lemma splice_mid (a b c s : list Z) off : off = Z.of_nat (length a) → length b = length s →
  splice (a ++ b ++ c) off s = Ok (a ++ s ++ c).
Proof.
  intros -> Hl. unfold splice. rewrite !length_app.
  rewrite !(proj2 (Z.leb_le _ _)) by lia. cbn [andb]. rewrite Nat2Z.id, <-Hl.
  rewrite take_app_length. do 3 f_equal.
  by rewrite <-length_app, (app_assoc a b c), drop_app_length.
Qed.

Lemma splice_front (b c s : list Z) : length b = length s → splice (b ++ c) 0 s = Ok (s ++ c).
Proof. apply (splice_mid []). done. Qed.

Lemma splice_over (d s : list Z) : (length s ≤ length d)%nat → splice d 0 s = Ok (s ++ drop (length s) d).
Proof.
  intros Hl. rewrite <-(take_drop (length s) d) at 1. apply splice_front. rewrite length_take. lia.
Qed.

Lemma splice_past d off s : Z.of_nat (length d) < off + Z.of_nat (length s) → splice d off s = Err OutOfBounds.
Proof. intros. unfold splice. rewrite (proj2 (Z.leb_gt (off + _) _)) by lia. by rewrite andb_false_r. Qed.

Lemma splice_length d off s d' : splice d off s = Ok d' → length d' = length d.
Proof.
  unfold splice. destruct (Z.leb_spec 0 off), (Z.leb_spec (off + Z.of_nat (length s)) (Z.of_nat (length d)));
    cbn [andb]; try done. intros [= <-]. rewrite !length_app, length_take, length_drop. lia.
Qed.

Lemma cstr_app s l : Forall (λ x, x ≠ 0) s → cstr (s ++ 0 :: l) = Ok s.
Proof.
  induction 1 as [|x s Hx _ IH]; simpl; [done|]. by rewrite (proj2 (Z.eqb_neq _ _) Hx), IH.
Qed.

Lemma cstr_has_nul l i : l !! i = Some 0 → ∃ s, cstr l = Ok s.
Proof.
  revert i. induction l as [|x l IH]; intros i Hi; [done|]. simpl. destruct (Z.eqb_spec x 0); [by eexists|].
  destruct i as [|i]; [by simplify_eq/=|]. destruct (IH i Hi) as (s & ->). by eexists.
Qed.

Lemma cstr_padded s n : Forall (λ x, x ≠ 0) s → (0 < n)%nat → cstr (s ++ replicate n 0) = Ok s.
Proof. destruct n; [lia|]. intros. by apply cstr_app. Qed.

Lemma cstr_ok l s : cstr l = Ok s → ∃ t, l = s ++ 0 :: t ∧ Forall (λ x, x ≠ 0) s.
Proof.
  revert s. induction l as [|x l IH]; intros s; simpl; [done|].
  destruct (Z.eqb_spec x 0) as [->|Hx]; [intros [= <-]; eauto|].
  intros H. inv_ok. destruct (IH _ ltac:(eassumption)) as (t & -> & ?). exists t. split; [done|]. by constructor.
Qed.

Lemma is_prefix_app p l : is_prefix p (p ++ l) = true.
Proof. induction p as [|x p IH]; simpl; [done|]. by rewrite Z.eqb_refl. Qed.

Lemma strstr_app a p l : strstr (a ++ p ++ l) p = true.
Proof.
  induction a as [|x a IH]; [|simpl; by rewrite IH, orb_true_r].
  simpl. destruct (p ++ l) eqn:E; simpl; rewrite <-E, is_prefix_app; done.
Qed.

(** The only fault of an array access is to leave its bounds. *)
Lemma slice_fault l off n x : slice l off n = Err x → x = OutOfBounds.
Proof. unfold slice. destruct (_ && _ && _); [done|]. by intros [= <-]. Qed.
Lemma splice_fault d off s x : splice d off s = Err x → x = OutOfBounds.
Proof. unfold splice. destruct (_ && _); [done|]. by intros [= <-]. Qed.
Lemma aset_fault {A} (l : list A) i v x : aset l i v = Err x → x = OutOfBounds.
Proof. unfold aset. destruct (_ && _); [done|]. by intros [= <-]. Qed.
Lemma aget_fault {A} (l : list A) i x : aget l i = Err x → x = OutOfBounds.
Proof. unfold aget. destruct (_ <=? _); [|by intros [= <-]]. destruct (_ !! _); [done|]. by intros [= <-]. Qed.
Lemma cstr_fault l x : cstr l = Err x → x = OutOfBounds.
Proof.
  induction l as [|y l IH]; simpl; [by intros [= <-]|]. destruct (y =? 0); [done|].
  destruct (cstr l); simpl; [done|]. by intros [= <-]; apply IH.
Qed.
