(* ===== verification/RingBuf.v ===== *)
(** * The ring buffer of 4.2net_from_nginx_redis_memcached/reactor/ringbuf.h

    Positions are free-running 32-bit counters; the index into the buffer is the
    position masked with [size - 1].  Bytes are integers; [None] is the null
    [buf]. *)

From S2P Require Import Prelude CMem.

Module RingBuf.

(** ** Data *)

(* src: 4.2net_from_nginx_redis_memcached/reactor/ringbuf.h:8-13 ringbuffer_s *)
Record ringbuffer : Type := RB {
  buf : option (list Z);
  size : Z;
  write_pos : Z;
  read_pos : Z
}.

Definition store (r : ringbuffer) : res (list Z) := get_or NullDeref (buf r).

(** ** Operations *)

(* src: 4.2net_from_nginx_redis_memcached/reactor/ringbuf.h:17-20 is_power_of_two *)
Definition is_power_of_two (num : Z) : bool :=
  if num <? 2 then false else Z.land num (num - 1) =? 0.

(** The number of bits of [num]. *)
Fixpoint bits_loop (fuel : nat) (num i : Z) : Z :=
  match fuel with
  | O => i
  | S fuel => if num =? 0 then i else bits_loop fuel (Z.shiftr num 1) (i + 1)
  end.

(** Shifting a 32-bit one by 32 is undefined. *)
(* src: 4.2net_from_nginx_redis_memcached/reactor/ringbuf.h:22-28 roundup_power_of_two *)
Definition roundup_power_of_two (num : Z) : res Z :=
  if num =? 0 then Ok 2
  else let i := bits_loop 33 num 0 in if i <? 32 then Ok (Z.shiftl 1 i) else Err OutOfBounds.

(** [junk] is what [malloc] leaves in the buffer. *)
(* src: 4.2net_from_nginx_redis_memcached/reactor/ringbuf.h:30-36 rb_init *)
Definition rb_init (junk : Z) (sz : Z) : res ringbuffer :=
  sz ← (if is_power_of_two sz then Ok sz else roundup_power_of_two sz);
  Ok (RB (Some (replicate (Z.to_nat sz) junk)) sz 0 0).

(* src: 4.2net_from_nginx_redis_memcached/reactor/ringbuf.h:38-40 rb_isempty *)
Definition rb_isempty (r : ringbuffer) : bool := read_pos r =? write_pos r.
(* src: 4.2net_from_nginx_redis_memcached/reactor/ringbuf.h:42-44 rb_isfull *)
Definition rb_isfull (r : ringbuffer) : bool := size r =? u32 (write_pos r - read_pos r).
(* src: 4.2net_from_nginx_redis_memcached/reactor/ringbuf.h:46-52 rb_free *)
Definition rb_free (r : ringbuffer) : ringbuffer := RB None 0 0 0.
(* src: 4.2net_from_nginx_redis_memcached/reactor/ringbuf.h:54-56 rb_clear *)
Definition rb_clear (r : ringbuffer) : ringbuffer := RB (buf r) (size r) 0 0.
(* src: 4.2net_from_nginx_redis_memcached/reactor/ringbuf.h:58-60 rb_len *)
Definition rb_len (r : ringbuffer) : Z := u32 (write_pos r - read_pos r).
(* src: 4.2net_from_nginx_redis_memcached/reactor/ringbuf.h:62-64 rb_remain *)
Definition rb_remain (r : ringbuffer) : Z := u32 (size r - write_pos r + read_pos r).

(** A position as an index of the buffer. *)
Definition real_pos (r : ringbuffer) (pos : Z) : Z := Z.land pos (u32 (size r - 1)).

(* src: 4.2net_from_nginx_redis_memcached/reactor/ringbuf.h:66-89 rb_write *)
Definition rb_write (r : ringbuffer) (data : list Z) (sz : Z) : res (Z * ringbuffer) :=
  if rb_remain r <? sz then Ok (0, r)
  else
    let off := real_pos r (write_pos r) in
    let i := Z.min sz (u32 (size r - off)) in
    b ← store r;
    b ← memcpy b off data 0 i;
    b ← memcpy b 0 data i (sz - i);
    Ok (sz, RB (Some b) (size r) (u32 (write_pos r + sz)) (read_pos r)).

(** [dst] is the caller's array. *)
(* src: 4.2net_from_nginx_redis_memcached/reactor/ringbuf.h:91-114 rb_read *)
Definition rb_read (r : ringbuffer) (dst : list Z) (sz : Z) : res (Z * list Z * ringbuffer) :=
  if rb_isempty r then Ok (0, dst, r)
  else
    let sz := Z.min sz (u32 (write_pos r - read_pos r)) in
    let off := real_pos r (read_pos r) in
    let i := Z.min sz (u32 (size r - off)) in
    b ← store r;
    dst ← memcpy dst 0 b off i;
    dst ← memcpy dst i b 0 (sz - i);
    Ok (sz, dst, RB (buf r) (size r) (write_pos r) (u32 (read_pos r + sz))).

Definition newline : Z := 10.

(** The loop, from [i] on: [i] is an [int] compared with unsigned numbers. *)
Fixpoint readline_loop (fuel : nat) (r : ringbuffer) (dst : list Z) (sz i : Z) : res (Z * list Z * ringbuffer) :=
  match fuel with
  | O => Err OutOfFuel
  | S fuel =>
      if (i <? rb_len r) || (i <=? sz) then
        b ← store r;
        c ← aget b (real_pos r (u32 (read_pos r + i)));
        dst ← aset dst i c;
        if c =? newline then
          Ok (i + 1, dst, RB (buf r) (size r) (write_pos r) (u32 (read_pos r + (i + 1))))
        else readline_loop fuel r dst sz (i + 1)
      else Ok (0, dst, r)
  end.

(** The destination's length bounds the loop: the store at its end is a fault. *)
(* src: 4.2net_from_nginx_redis_memcached/reactor/ringbuf.h:116-131 rb_readline *)
Definition rb_readline (r : ringbuffer) (dst : list Z) (sz : Z) : res (Z * list Z * ringbuffer) :=
  if rb_isempty r then Ok (0, dst, r)
  else readline_loop (S (length dst)) r dst sz 0.

(** ** What a ring buffer holds *)

(** The buffer has a power of two of cells and the positions are at most that far
    apart, modulo [2^32]. *)
Record rb_ok (r : ringbuffer) (b : list Z) (k : Z) : Prop := RbOk {
  ok_buf : buf r = Some b;
  ok_size : size r = 2 ^ k;
  ok_k : 0 ≤ k ≤ 31;
  ok_len : Z.of_nat (length b) = size r;
  ok_w : 0 ≤ write_pos r < 2 ^ 32;
  ok_r : 0 ≤ read_pos r < 2 ^ 32;
  ok_dist : u32 (write_pos r - read_pos r) ≤ size r
}.

(** The bytes between the positions, oldest first. *)
Definition at_pos (b : list Z) (n pos : Z) : Z := default 0 (b !! Z.to_nat (pos mod n)).
Definition contents (r : ringbuffer) : list Z :=
  match buf r with
  | None => []
  | Some b => map (λ j, at_pos b (size r) (read_pos r + Z.of_nat j)) (seq 0 (Z.to_nat (rb_len r)))
  end.

Lemma real_pos_mod r b k pos : rb_ok r b k → 0 ≤ pos → real_pos r pos = pos mod size r.
Proof.
  intros H Hp. pose proof (ok_k _ _ _ H). pose proof (ok_size _ _ _ H) as E. unfold real_pos. rewrite E.
  assert (1 ≤ 2 ^ k ≤ 2 ^ 31) by (split; [apply (Z.pow_le_mono_r 2 0); lia|apply Z.pow_le_mono_r; lia]).
  rewrite u32_small by lia. apply land_mask. lia.
Qed.

Lemma mod_u32 k z : 0 ≤ k ≤ 31 → u32 z mod 2 ^ k = z mod 2 ^ k.
Proof.
  intros Hk. unfold u32. replace (2 ^ 32) with (2 ^ k * 2 ^ (32 - k)) by (rewrite <-Z.pow_add_r by lia; f_equal; lia).
  assert (0 < 2 ^ k) by (apply Z.pow_pos_nonneg; lia). assert (0 < 2 ^ (32 - k)) by (apply Z.pow_pos_nonneg; lia).
  rewrite Z.rem_mul_r by lia. rewrite Z.mul_comm, Z.mod_add by lia. by rewrite Z.mod_mod by lia.
Qed.

Lemma pow_bound k : 0 ≤ k ≤ 31 → 1 ≤ 2 ^ k ≤ 2 ^ 31.
Proof. intros. split; [apply (Z.pow_le_mono_r 2 0); lia|apply Z.pow_le_mono_r; lia]. Qed.

(** The space left is what the length leaves of the size. *)
Lemma remain_len r b k : rb_ok r b k → rb_remain r = size r - rb_len r.
Proof.
  intros H. unfold rb_remain, rb_len. pose proof (ok_dist _ _ _ H). pose proof (pow_bound k (ok_k _ _ _ H)) as Hp.
  rewrite <-(ok_size _ _ _ H) in Hp. pose proof (u32_range (write_pos r - read_pos r)).
  replace (size r - write_pos r + read_pos r) with (size r - (write_pos r - read_pos r)) by lia.
  unfold u32 in *. symmetry. rewrite <-(Z.mod_small (size r - (write_pos r - read_pos r) mod 2 ^ 32) (2 ^ 32)) by lia.
  by rewrite Zminus_mod_idemp_r.
Qed.

(** ** Copying around the end of the buffer *)

(** Two copies that wrap around the end of the destination. *)
Lemma wrap_write b data n o sz : Z.of_nat (length b) = n → 0 ≤ o < n → 0 ≤ sz ≤ n →
  sz ≤ Z.of_nat (length data) → ∃ b',
  (let i := Z.min sz (n - o) in b ← memcpy b o data 0 i; memcpy b 0 data i (sz - i)) = Ok b' ∧
  length b' = length b ∧
  (∀ j, 0 ≤ j < sz → b' !! Z.to_nat ((o + j) mod n) = data !! Z.to_nat j) ∧
  (∀ p, 0 ≤ p < n → (∀ j, 0 ≤ j < sz → p ≠ (o + j) mod n) → b' !! Z.to_nat p = b !! Z.to_nat p).
Proof.
  intros Hb Ho Hsz Hd. cbv zeta. set (i := Z.min sz (n - o)).
  destruct (memcpy_ok b o data 0 i) as (b1 & -> & Hl1 & Hp1); try lia. cbn [mbind res_bind].
  destruct (memcpy_ok b1 0 data i (sz - i)) as (b2 & -> & Hl2 & Hp2); try lia.
  assert (Hmod : ∀ j, 0 ≤ j < sz → (o + j) mod n = if decide (o + j < n) then o + j else o + j - n).
  { intros j Hj. case_decide; [apply Z.mod_small; lia|]. symmetry. apply (Z.mod_unique _ _ 1); lia. }
  exists b2. split; [done|]. split; [lia|]. split.
  - intros j Hj. rewrite Hmod, Hp2 by done. destruct (decide (o + j < n)).
    + rewrite decide_False, Hp1, decide_True by lia. f_equal. lia.
    + rewrite decide_True by lia. f_equal. lia.
  - intros p Hp Hne. rewrite Hp2. case_decide as Hc.
    { destruct (Hne (p + n - o)); [lia|]. rewrite Hmod by lia. rewrite decide_False by lia. lia. }
    rewrite Hp1. case_decide as Hc'; [|done].
    destruct (Hne (p - o)); [lia|]. rewrite Hmod by lia. rewrite decide_True by lia. lia.
Qed.

(** Two copies from a source read around its end. *)
Lemma wrap_read b dst n o sz : Z.of_nat (length b) = n → 0 ≤ o < n → 0 ≤ sz ≤ n →
  sz ≤ Z.of_nat (length dst) → ∃ d,
  (let i := Z.min sz (n - o) in d ← memcpy dst 0 b o i; memcpy d i b 0 (sz - i)) = Ok d ∧
  length d = length dst ∧
  (∀ j, 0 ≤ j < sz → d !! Z.to_nat j = b !! Z.to_nat ((o + j) mod n)) ∧
  (∀ p, sz ≤ Z.of_nat p → d !! p = dst !! p).
Proof.
  intros Hb Ho Hsz Hd. cbv zeta. set (i := Z.min sz (n - o)).
  destruct (memcpy_ok dst 0 b o i) as (b1 & -> & Hl1 & Hp1); try lia. cbn [mbind res_bind].
  destruct (memcpy_ok b1 i b 0 (sz - i)) as (b2 & -> & Hl2 & Hp2); try lia.
  exists b2. split; [done|]. split; [lia|]. split.
  - intros j Hj. rewrite Hp2. destruct (decide (o + j < n)).
    + rewrite decide_False, Hp1, decide_True, Z.mod_small by lia. f_equal. lia.
    + rewrite decide_True by lia. rewrite <-(Z.mod_unique (o + j) n 1 (o + j - n)) by lia. f_equal. lia.
  - intros p Hp. rewrite Hp2, decide_False, Hp1, decide_False by lia. done.
Qed.

Lemma length_contents r b k : rb_ok r b k → Z.of_nat (length (contents r)) = rb_len r.
Proof.
  intros H. unfold contents. rewrite (ok_buf _ _ _ H), length_map, length_seq.
  pose proof (u32_range (write_pos r - read_pos r)). unfold rb_len. lia.
Qed.

Lemma contents_lookup r b k j : rb_ok r b k → (Z.of_nat j < rb_len r) →
  contents r !! j = Some (at_pos b (size r) (read_pos r + Z.of_nat j)).
Proof.
  intros H Hj. unfold contents. rewrite (ok_buf _ _ _ H).
  change (map ?f ?l) with (f <$> l). rewrite list_lookup_fmap, lookup_seq_lt by lia. done.
Qed.

(** Modulo the size, the writing position is the reading one plus the length. *)
Lemma write_read r b k j : rb_ok r b k → (write_pos r + j) mod size r = (read_pos r + rb_len r + j) mod size r.
Proof.
  intros H. pose proof (ok_k _ _ _ H) as Hk. rewrite (ok_size _ _ _ H). pose proof (pow_bound k Hk).
  assert (E : (read_pos r + rb_len r) mod 2 ^ k = write_pos r mod 2 ^ k).
  { rewrite <-Zplus_mod_idemp_r. unfold rb_len. rewrite mod_u32, Zplus_mod_idemp_r by lia. f_equal. lia. }
  by rewrite <-(Zplus_mod_idemp_l (read_pos r + rb_len r)), E, Zplus_mod_idemp_l.
Qed.

Lemma mod_eq_0 a n : 0 < n → a mod n = 0 → - n < a < n → a = 0.
Proof. intros Hn Hm Ha. apply Z.mod_divide in Hm as [q ->]; [|lia]. assert (q < 1) by nia. assert (-1 < q) by nia. lia. Qed.

Lemma mod_inj a b n : 0 < n → a mod n = b mod n → - n < a - b < n → a = b.
Proof.
  intros Hn E Hab. enough (a - b = 0) by lia. apply (mod_eq_0 _ n); [done| |done].
  rewrite Zminus_mod, E, Z.sub_diag. by apply Z.mod_0_l; lia.
Qed.

Lemma rb_write_spec r b k data sz : rb_ok r b k → sz = Z.of_nat (length data) →
  (sz ≤ size r - rb_len r ∧ ∃ r' b', rb_write r data sz = Ok (sz, r') ∧ rb_ok r' b' k ∧
     contents r' = contents r ++ data ∧ rb_len r' = rb_len r + sz ∧ size r' = size r) ∨
  (size r - rb_len r < sz ∧ rb_write r data sz = Ok (0, r)).
Proof.
  intros H Hsz. unfold rb_write. rewrite (remain_len _ _ _ H).
  destruct (Z.ltb_spec (size r - rb_len r) sz) as [Hlt|Hge]; [by right|]. left. split; [done|].
  pose proof (pow_bound k (ok_k _ _ _ H)) as Hp. pose proof (ok_size _ _ _ H) as Es. rewrite <-Es in Hp.
  pose proof (ok_w _ _ _ H) as Hw. pose proof (ok_r _ _ _ H) as Hr. pose proof (ok_dist _ _ _ H) as Hd.
  pose proof (u32_range (write_pos r - read_pos r)) as Hl0. fold (rb_len r) in Hd, Hl0.
  rewrite (real_pos_mod r b k) by (done || lia).
  pose proof (Z.mod_pos_bound (write_pos r) (size r) ltac:(lia)) as Ho. set (o := write_pos r mod size r) in *.
  rewrite (u32_small (size r - o)) by lia. unfold store. rewrite (ok_buf _ _ _ H). cbn [mbind res_bind get_or].
  destruct (wrap_write b data (size r) o sz (ok_len _ _ _ H) Ho ltac:(lia) ltac:(lia)) as (b' & Hok & Hbl & Hin & Hout).
  cbv zeta in Hok. apply bind_ok in Hok as (b1 & Hb1 & Hb2). rewrite Hb1. cbn [mbind res_bind]. rewrite Hb2.
  cbn [mbind res_bind]. eexists _, b'. split; [done|].
  assert (Hlen : rb_len (RB (Some b') (size r) (u32 (write_pos r + sz)) (read_pos r)) = rb_len r + sz).
  { unfold rb_len. cbn [write_pos read_pos]. unfold u32. rewrite Zminus_mod_idemp_l.
    replace (write_pos r + sz - read_pos r) with (write_pos r - read_pos r + sz) by lia.
    rewrite <-Zplus_mod_idemp_l. fold (u32 (write_pos r - read_pos r)). fold (rb_len r).
    apply Z.mod_small. lia. }
  assert (Hok' : rb_ok (RB (Some b') (size r) (u32 (write_pos r + sz)) (read_pos r)) b' k).
  { split; try done; simpl; [apply H|rewrite Hbl; apply H|apply u32_range|].
    unfold rb_len in Hlen. simpl in Hlen. rewrite Hlen. fold (rb_len r). lia. }
  split; [done|]. split; [|done].
  assert (Hwm : ∀ j, (o + j) mod size r = (read_pos r + rb_len r + j) mod size r).
  { intros j. unfold o. rewrite Zplus_mod_idemp_l. by eapply write_read. }
  apply list_eq. intros j. pose proof (length_contents _ _ _ H) as Hcl.
  destruct (decide (Z.of_nat j < rb_len r + sz)) as [Hj|Hj]; last first.
  { rewrite !lookup_ge_None_2; [done|rewrite length_app; lia|].
    pose proof (length_contents _ _ _ Hok'). lia. }
  rewrite (contents_lookup _ _ _ _ Hok') by lia. cbn [size read_pos]. unfold at_pos.
  destruct (decide (Z.of_nat j < rb_len r)) as [Hjl|Hjl].
  - rewrite lookup_app_l, (contents_lookup _ _ _ _ H) by lia. unfold at_pos. f_equal. f_equal.
    apply Hout; [apply Z.mod_pos_bound; lia|]. intros m Hm E. rewrite Hwm in E.
    apply mod_inj in E; lia.
  - rewrite lookup_app_r by lia. replace (read_pos r + Z.of_nat j) with (read_pos r + rb_len r + (Z.of_nat j - rb_len r)) by lia.
    rewrite <-Hwm, Hin by lia. replace (Z.to_nat (Z.of_nat j - rb_len r)) with (j - length (contents r))%nat by lia.
    destruct (lookup_lt_is_Some_2 data (j - length (contents r))) as [x Hx]; [lia|]. by rewrite Hx.
Qed.

Lemma rb_isempty_len r b k : rb_ok r b k → rb_isempty r = (rb_len r =? 0).
Proof.
  intros H. pose proof (ok_w _ _ _ H). pose proof (ok_r _ _ _ H). unfold rb_isempty, rb_len.
  destruct (Z.eqb_spec (read_pos r) (write_pos r)) as [E|E].
  - rewrite E, Z.sub_diag. done.
  - symmetry. apply Z.eqb_neq. intros E0. apply E. unfold u32 in E0. symmetry.
    apply (mod_inj _ _ (2 ^ 32)); [lia| |lia]. rewrite <-(Z.sub_add (read_pos r) (write_pos r)), <-Zplus_mod_idemp_l, E0.
    done.
Qed.

(** Moving the reading position forward drops the oldest bytes. *)
Lemma drop_contents r b k n : rb_ok r b k → 0 ≤ n ≤ rb_len r →
  let r' := RB (buf r) (size r) (write_pos r) (u32 (read_pos r + n)) in
  rb_ok r' b k ∧ contents r' = drop (Z.to_nat n) (contents r) ∧ rb_len r' = rb_len r - n.
Proof.
  intros H Hn r'. pose proof (pow_bound k (ok_k _ _ _ H)) as Hp. rewrite <-(ok_size _ _ _ H) in Hp.
  pose proof (ok_dist _ _ _ H) as Hd. pose proof (u32_range (write_pos r - read_pos r)) as Hl0.
  fold (rb_len r) in Hd, Hl0.
  assert (Hlen : rb_len r' = rb_len r - n).
  { unfold rb_len at 1. simpl. unfold u32. rewrite Zminus_mod_idemp_r.
    replace (write_pos r - (read_pos r + n)) with (write_pos r - read_pos r - n) by lia.
    rewrite <-Zminus_mod_idemp_l. fold (u32 (write_pos r - read_pos r)). fold (rb_len r).
    apply Z.mod_small. lia. }
  assert (Hok' : rb_ok r' b k).
  { destruct H. split; try done; simpl; [apply u32_range|]. unfold rb_len in Hlen. simpl in Hlen.
    rewrite Hlen. fold (rb_len r). lia. }
  split; [done|]. split; [|done].
  apply list_eq. intros j. rewrite lookup_drop. pose proof (length_contents _ _ _ H) as Hcl.
  destruct (decide (Z.of_nat j < rb_len r - n)) as [Hj|Hj]; last first.
  { pose proof (length_contents _ _ _ Hok'). rewrite !lookup_ge_None_2 by lia. done. }
  rewrite (contents_lookup _ _ _ _ Hok'), (contents_lookup _ _ _ _ H) by lia. simpl. unfold at_pos.
  do 2 f_equal. pose proof (ok_k _ _ _ H) as Hk. rewrite (ok_size _ _ _ H).
  rewrite <-(Zplus_mod_idemp_l (u32 (read_pos r + n))), mod_u32, Zplus_mod_idemp_l by lia.
  replace (read_pos r + n + Z.of_nat j) with (read_pos r + Z.of_nat (Z.to_nat n + j)) by lia. done.
Qed.

Lemma rb_read_spec r b k dst sz : rb_ok r b k → 0 ≤ sz ≤ Z.of_nat (length dst) →
  let n := Z.min sz (rb_len r) in ∃ dst' r',
  rb_read r dst sz = Ok (n, dst', r') ∧ rb_ok r' b k ∧ length dst' = length dst ∧
  take (Z.to_nat n) dst' = take (Z.to_nat n) (contents r) ∧ drop (Z.to_nat n) dst' = drop (Z.to_nat n) dst ∧
  contents r' = drop (Z.to_nat n) (contents r) ∧ size r' = size r.
Proof.
  intros H Hsz n. unfold rb_read. rewrite (rb_isempty_len _ _ _ H).
  pose proof (pow_bound k (ok_k _ _ _ H)) as Hp. rewrite <-(ok_size _ _ _ H) in Hp.
  pose proof (ok_dist _ _ _ H) as Hd. pose proof (u32_range (write_pos r - read_pos r)) as Hl0.
  fold (rb_len r) in Hd, Hl0. pose proof (length_contents _ _ _ H) as Hcl.
  destruct (Z.eqb_spec (rb_len r) 0) as [E|E].
  { exists dst, r. unfold n. rewrite E, Z.min_r by lia. split_and!; try done. }
  fold (rb_len r). fold n. pose proof (ok_r _ _ _ H) as Hr.
  rewrite (real_pos_mod r b k) by (done || lia).
  pose proof (Z.mod_pos_bound (read_pos r) (size r) ltac:(lia)) as Ho. set (o := read_pos r mod size r) in *.
  rewrite (u32_small (size r - o)) by lia. unfold store. rewrite (ok_buf _ _ _ H). cbn [mbind res_bind get_or].
  destruct (wrap_read b dst (size r) o n (ok_len _ _ _ H) Ho ltac:(lia) ltac:(lia)) as (d & Hok & Hdl & Hin & Hout).
  cbv zeta in Hok. apply bind_ok in Hok as (d1 & Hd1 & Hd2). rewrite Hd1. cbn [mbind res_bind]. rewrite Hd2.
  cbn [mbind res_bind]. rewrite <-(ok_buf _ _ _ H).
  destruct (drop_contents r b k n H ltac:(lia)) as (Hok' & Hc' & _).
  eexists _, _. split; [done|]. split; [done|]. split; [done|]. split; [|split; [|split; [exact Hc'|done]]].
  - apply list_eq. intros j. destruct (decide (Z.of_nat j < n)) as [Hj|Hj].
    + rewrite !lookup_take_lt, (contents_lookup _ _ _ _ H) by lia. unfold at_pos.
      pose proof (Hin (Z.of_nat j) ltac:(lia)) as Hj'. rewrite Nat2Z.id in Hj'. rewrite Hj'.
      unfold o. rewrite Zplus_mod_idemp_l.
      destruct (lookup_lt_is_Some_2 b (Z.to_nat ((read_pos r + Z.of_nat j) mod size r))) as [x Hx]; [|by rewrite Hx].
      pose proof (Z.mod_pos_bound (read_pos r + Z.of_nat j) (size r) ltac:(lia)). pose proof (ok_len _ _ _ H). lia.
    + rewrite !lookup_ge_None_2; [done| |]; rewrite length_take; lia.
  - apply list_eq. intros j. rewrite !lookup_drop. apply Hout. lia.
Qed.

(** ** Initialisation *)

Lemma power_of_two_spec z : 0 ≤ z < 2 ^ 32 → is_power_of_two z = true → ∃ k, 1 ≤ k ≤ 31 ∧ z = 2 ^ k.
Proof.
  intros Hz. unfold is_power_of_two. destruct (Z.ltb_spec z 2) as [|H2]; [done|]. intros H0%Z.eqb_eq.
  set (l := Z.log2 z). pose proof (Z.log2_spec z ltac:(lia)) as [Hl1 Hl2]. fold l in Hl1, Hl2.
  assert (1 ≤ l) by (apply (Z.log2_le_mono 2 z); lia).
  assert (l < 32) by (apply Z.log2_lt_pow2; lia).
  exists l. split; [lia|]. destruct (decide (z = 2 ^ l)) as [|Hne]; [done|]. exfalso.
  assert (Hl' : Z.log2 (z - 1) = l) by (apply Z.log2_unique; lia).
  assert (Ht : Z.testbit (Z.land z (z - 1)) l = true).
  { rewrite Z.land_spec. rewrite <-Hl' at 2. unfold l at 1. rewrite !Z.bit_log2 by lia. done. }
  by rewrite H0, Z.testbit_0_l in Ht.
Qed.

Lemma bits_loop_spec fuel : ∀ z i, 0 < z < 2 ^ Z.of_nat fuel → bits_loop (S fuel) z i = Z.log2 z + 1 + i.
Proof.
  induction fuel as [|fuel IH]; intros z i Hz; [simpl in Hz; lia|].
  cbn [bits_loop]. rewrite (proj2 (Z.eqb_neq z 0)) by lia.
  rewrite Z.shiftr_div_pow2 by lia. change (2 ^ 1) with 2.
  destruct (decide (z < 2)) as [|H2].
  { assert (z = 1) as -> by lia. change (1 / 2) with 0. cbn [bits_loop]. destruct fuel; simpl; lia. }
  rewrite Nat2Z.inj_succ, Z.pow_succ_r in Hz by lia.
  change (if z / 2 =? 0 then i + 1 else bits_loop fuel (Z.shiftr (z / 2) 1) (i + 1 + 1)) with (bits_loop (S fuel) (z / 2) (i + 1)).
  rewrite IH by zdiv. enough (Z.log2 z = Z.log2 (z / 2) + 1) by lia.
  pose proof (Z.log2_spec (z / 2) ltac:(zdiv)) as [H3 H4]. apply Z.log2_unique; [pose proof (Z.log2_nonneg (z / 2)); lia|].
  pose proof (Z.log2_nonneg (z / 2)). rewrite Z.add_1_r, !Z.pow_succ_r in * by lia. zdiv.
Qed.

Lemma rb_init_spec junk sz : 0 ≤ sz ≤ 2 ^ 31 → ∃ r k,
  rb_init junk sz = Ok r ∧ rb_ok r (replicate (Z.to_nat (2 ^ k)) junk) k ∧ 1 ≤ k ∧ sz ≤ size r ∧ contents r = [].
Proof.
  intros Hsz. unfold rb_init.
  assert (∃ k, 1 ≤ k ≤ 31 ∧ sz ≤ 2 ^ k ∧ (if is_power_of_two sz then Ok sz else roundup_power_of_two sz) = Ok (2 ^ k))
    as (k & Hk & Hle & ->).
  { destruct (is_power_of_two sz) eqn:E.
    - apply power_of_two_spec in E as (k & Hk & ->); [|lia]. by exists k.
    - unfold roundup_power_of_two. destruct (Z.eqb_spec sz 0) as [->|H0]; [exists 1; done|].
      change 33%nat with (S 32). rewrite bits_loop_spec by (simpl; lia).
      pose proof (Z.log2_nonneg sz). pose proof (Z.log2_spec sz ltac:(lia)) as [_ Hlt].
      assert (sz ≠ 2 ^ 31) by (intros ->; vm_compute in E; done).
      assert (Z.log2 sz < 31) by (apply Z.log2_lt_pow2; lia).
      rewrite (proj2 (Z.ltb_lt _ _)) by lia. exists (Z.log2 sz + 1 + 0). split; [lia|].
      rewrite Z.shiftl_1_l, Z.add_0_r, Z.add_1_r. split; [lia|done]. }
  cbn [mbind res_bind]. eexists _, k. split; [done|].
  pose proof (pow_bound k ltac:(lia)). split; [|split; [lia|split; [done|done]]].
  split; simpl; try done; try lia; [rewrite length_replicate; lia|].
  change (u32 (0 - 0)) with 0. lia.
Qed.

(** ** A bounded queue of bytes, and the ring buffer as one *)

Inductive op : Type := Write (data : list Z) | Read (n : nat).

(** The queue [q] of capacity [cap]: the result of an operation is the bytes read, or
    those accepted. *)
Definition queue_step (cap : Z) (q : list Z) (o : op) : list Z * list Z :=
  match o with
  | Write data => if Z.of_nat (length data) <=? cap - Z.of_nat (length q) then (q ++ data, data) else (q, [])
  | Read n => (drop n q, take n q)
  end.

Fixpoint queue_run (cap : Z) (q : list Z) (l : list op) : list Z * list (list Z) :=
  match l with
  | [] => (q, [])
  | o :: l => let '(q, x) := queue_step cap q o in let '(q, xs) := queue_run cap q l in (q, x :: xs)
  end.

(** The same operation on the ring buffer, reading into an array of [n] bytes. *)
Definition ring_step (r : ringbuffer) (o : op) : res (ringbuffer * list Z) :=
  match o with
  | Write data => '(n, r) ← rb_write r data (Z.of_nat (length data)); Ok (r, take (Z.to_nat n) data)
  | Read n => '(m, dst, r) ← rb_read r (replicate n 0) (Z.of_nat n); Ok (r, take (Z.to_nat m) dst)
  end.

Fixpoint ring_run (r : ringbuffer) (l : list op) : res (ringbuffer * list (list Z)) :=
  match l with
  | [] => Ok (r, [])
  | o :: l => '(r, x) ← ring_step r o; '(r, xs) ← ring_run r l; Ok (r, x :: xs)
  end.

Lemma ring_step_refines r b k o : rb_ok r b k → ∃ r' b' q x, ring_step r o = Ok (r', x) ∧ rb_ok r' b' k ∧
  queue_step (size r) (contents r) o = (q, x) ∧ contents r' = q ∧ size r' = size r.
Proof.
  intros H. pose proof (length_contents _ _ _ H) as Hl. destruct o as [data|n]; simpl.
  - destruct (rb_write_spec r b k data _ H eq_refl) as [(Hle & r' & b' & -> & Hok & Hc & _ & Hs)|[Hgt ->]];
      cbn [mbind res_bind]; rewrite Hl.
    + rewrite (proj2 (Z.leb_le _ _)) by lia. exists r', b', (contents r ++ data), data.
      rewrite Nat2Z.id, firstn_all. by split_and!.
    + rewrite (proj2 (Z.leb_gt _ _)) by lia. by exists r, b, (contents r), [].
  - destruct (rb_read_spec r b k (replicate n 0) (Z.of_nat n) H) as (dst & r' & -> & Hok & _ & Ht & _ & Hc & Hs);
      [rewrite length_replicate; lia|]. cbn [mbind res_bind]. rewrite Ht.
    exists r', b, (drop n (contents r)), (take n (contents r)).
    destruct (decide (Z.of_nat n ≤ rb_len r)) as [Hn|Hn].
    + rewrite Z.min_l, Nat2Z.id in * by lia. by split_and!.
    + rewrite Z.min_r in * by lia. rewrite (take_ge _ n), (drop_ge _ n) by lia.
      rewrite take_ge, drop_ge in * by lia. by split_and!.
Qed.

(** ** Properties *)

(** C13: a buffer of any size up to [2^31], made with [rb_init], is empty, holds at least
    that many bytes, and under any sequence of writes and reads, whatever the counters'
    wrap-around, accepts and returns exactly what a bounded queue of bytes does. *)
Theorem ring_refines_queue junk sz l : 0 ≤ sz ≤ 2 ^ 31 → ∃ r, rb_init junk sz = Ok r ∧ sz ≤ size r ∧
  ∃ r', ring_run r l = Ok (r', snd (queue_run (size r) [] l)) ∧
    contents r' = fst (queue_run (size r) [] l).
Proof.
  intros Hsz. destruct (rb_init_spec junk sz Hsz) as (r & k & -> & Hok & _ & Hle & Hc).
  exists r. split; [done|]. split; [done|]. rewrite <-Hc. clear Hc Hle Hsz.
  revert Hok. generalize (replicate (Z.to_nat (2 ^ k)) junk). revert r.
  induction l as [|o l IH]; intros r b Hok; [by exists r|].
  destruct (ring_step_refines r b k o Hok) as (r1 & b1 & q & x & Hr & Hok1 & Hq & Hc1 & Hs1).
  cbn [ring_run queue_run]. rewrite Hr, Hq. cbn [mbind res_bind].
  destruct (IH r1 b1 Hok1) as (r' & Hrun & Hc'). rewrite Hs1, Hc1 in Hrun, Hc'. rewrite Hrun.
  cbn [mbind res_bind]. destruct (queue_run (size r) q l) as [q' xs]. by exists r'.
Qed.

(** a line that is in the buffer, newline included, and fits the caller's array is
    returned whole and removed. *)
Theorem rb_readline_line r b k dst sz line rest : rb_ok r b k → contents r = line ++ newline :: rest →
  newline ∉ line → (length line < length dst)%nat → ∃ dst' r',
  rb_readline r dst sz = Ok (Z.of_nat (S (length line)), dst', r') ∧
  take (S (length line)) dst' = line ++ [newline] ∧ rb_ok r' b k ∧ contents r' = rest.
Proof.
  intros H Hc Hno Hdst. pose proof (length_contents _ _ _ H) as Hl. rewrite Hc, length_app in Hl. simpl in Hl.
  pose proof (ok_dist _ _ _ H) as Hd. fold (rb_len r) in Hd.
  pose proof (pow_bound k (ok_k _ _ _ H)) as Hp. rewrite <-(ok_size _ _ _ H) in Hp.
  unfold rb_readline. rewrite (rb_isempty_len _ _ _ H), (proj2 (Z.eqb_neq _ _)) by lia.
  assert (Hcell : ∀ i x, contents r !! i = Some x →
    (b ← store r; aget b (real_pos r (u32 (read_pos r + Z.of_nat i)))) = Ok x).
  { intros i x Hx. pose proof (lookup_lt_Some _ _ _ Hx) as Hi. rewrite Hc, length_app in Hi. simpl in Hi.
    rewrite (contents_lookup _ _ _ _ H) in Hx by lia. injection Hx as <-.
    unfold store. rewrite (ok_buf _ _ _ H). cbn [mbind res_bind get_or].
    rewrite (real_pos_mod r b k) by (done || apply u32_range). rewrite (ok_size _ _ _ H), mod_u32 by apply H.
    rewrite <-(ok_size _ _ _ H). unfold aget, at_pos.
    pose proof (Z.mod_pos_bound (read_pos r + Z.of_nat i) (size r) ltac:(lia)).
    rewrite (proj2 (Z.leb_le _ _)) by lia. pose proof (ok_len _ _ _ H).
    destruct (lookup_lt_is_Some_2 b (Z.to_nat ((read_pos r + Z.of_nat i) mod size r))) as [y ->]; [lia|done]. }
  assert (Hloop : ∀ n i dst, (i + n = length line)%nat → (length line < length dst)%nat →
    take i dst = take i line → ∀ fuel, (n < fuel)%nat → ∃ dst' r',
    readline_loop fuel r dst sz (Z.of_nat i) = Ok (Z.of_nat (S (length line)), dst', r') ∧
    take (S (length line)) dst' = line ++ [newline] ∧ rb_ok r' b k ∧ contents r' = rest).
  { induction n as [|n IH]; intros i d Hi Hdl Ht [|fuel] Hf; try lia; cbn [readline_loop];
      rewrite (proj2 (Z.ltb_lt (Z.of_nat i) (rb_len r))) by lia; cbn [orb].
    - assert (i = length line) as -> by lia.
      destruct (bind_ok (store r) (λ b, aget b (real_pos r (u32 (read_pos r + Z.of_nat (length line))))) newline)
        as [Hb _]. destruct Hb as (b' & -> & Hg); [apply Hcell; rewrite Hc; by apply list_lookup_middle|].
      cbn [mbind res_bind]. rewrite Hg. cbn [mbind res_bind]. unfold aset.
      rewrite (proj2 (Z.leb_le _ _)), (proj2 (Z.ltb_lt _ _)) by lia. cbn [andb mbind res_bind]. rewrite Z.eqb_refl.
      destruct (drop_contents r b k (Z.of_nat (length line) + 1) H ltac:(lia)) as (Hok' & Hc' & _).
      eexists _, _. split; [do 3 f_equal; lia|]. split; [|split; [done|]].
      + rewrite Nat2Z.id, (take_S_r _ _ newline) by (apply list_lookup_insert_eq; lia).
        rewrite take_insert_ge, Ht, firstn_all by done. done.
      + rewrite Hc', Hc. replace (Z.to_nat (Z.of_nat (length line) + 1)) with (length line + 1)%nat by lia.
        rewrite <-drop_drop, drop_app_length. done.
    - destruct (lookup_lt_is_Some_2 line i) as [x Hx]; [lia|].
      destruct (bind_ok (store r) (λ b, aget b (real_pos r (u32 (read_pos r + Z.of_nat i)))) x)
        as [Hb _]. destruct Hb as (b' & Hst & Hg); [apply Hcell; rewrite Hc, lookup_app_l by lia; done|].
      rewrite Hst. cbn [mbind res_bind]. rewrite Hg. cbn [mbind res_bind]. unfold aset.
      rewrite (proj2 (Z.leb_le _ _)), (proj2 (Z.ltb_lt _ _)) by lia. cbn [andb mbind res_bind].
      rewrite (proj2 (Z.eqb_neq _ _)) by (intros ->; apply Hno; by eapply list_elem_of_lookup_2).
      replace (Z.of_nat i + 1) with (Z.of_nat (S i)) by lia.
      apply IH; [lia|by rewrite length_insert| |lia].
      rewrite Nat2Z.id, (take_S_r _ _ x) by (apply list_lookup_insert_eq; lia).
      by rewrite take_insert_ge, Ht, <-take_S_r. }
  apply (Hloop (length line) 0%nat dst); [lia|done|done|lia].
Qed.

(** the loop of [rb_readline] goes on while [i < rb_len] or [i <= sz] (it should be
    "and"): with no newline among the bytes it meets, it stores one byte beyond a
    caller's array of [sz] bytes. *)
Theorem rb_readline_overruns r b k dst sz : rb_ok r b k → rb_len r ≠ 0 → sz = Z.of_nat (length dst) →
  (∀ i, 0 ≤ i ≤ sz → at_pos b (size r) (read_pos r + i) ≠ newline) →
  rb_readline r dst sz = Err OutOfBounds.
Proof.
  intros H Hne Hsz Hno. pose proof (pow_bound k (ok_k _ _ _ H)) as Hp. rewrite <-(ok_size _ _ _ H) in Hp.
  unfold rb_readline. rewrite (rb_isempty_len _ _ _ H), (proj2 (Z.eqb_neq _ _)) by lia.
  assert (Hloop : ∀ n i d, (i + n = length dst)%nat → length d = length dst → ∀ fuel, (n < fuel)%nat →
    readline_loop fuel r d sz (Z.of_nat i) = Err OutOfBounds); [|by apply (Hloop (length dst) 0%nat dst); [lia|done|lia]].
  induction n as [|n IH]; intros i d Hi Hd [|fuel] Hf; try lia; cbn [readline_loop];
    rewrite (proj2 (Z.leb_le (Z.of_nat i) sz)), orb_true_r by lia;
    unfold store; rewrite (ok_buf _ _ _ H); cbn [mbind res_bind get_or];
    rewrite (real_pos_mod r b k) by (done || apply u32_range);
    rewrite (ok_size _ _ _ H), mod_u32 by apply H; rewrite <-(ok_size _ _ _ H);
    pose proof (Z.mod_pos_bound (read_pos r + Z.of_nat i) (size r) ltac:(lia));
    pose proof (ok_len _ _ _ H) as Hbl;
    destruct (lookup_lt_is_Some_2 b (Z.to_nat ((read_pos r + Z.of_nat i) mod size r))) as [y Hy]; try lia;
    unfold aget; rewrite (proj2 (Z.leb_le _ _)), Hy by lia; cbn [mbind res_bind get_or].
  - rewrite aset_past by lia. done.
  - unfold aset. rewrite (proj2 (Z.leb_le _ _)), (proj2 (Z.ltb_lt _ _)) by lia. cbn [andb mbind res_bind].
    rewrite (proj2 (Z.eqb_neq _ _)).
    + replace (Z.of_nat i + 1) with (Z.of_nat (S i)) by lia. apply IH; [lia|by rewrite length_insert|lia].
    + specialize (Hno (Z.of_nat i) ltac:(lia)). unfold at_pos in Hno. by rewrite Hy in Hno.
Qed.

Example ring_refines_queue_witness : ∃ r, rb_init 0 5 = Ok r ∧ 5 ≤ size r ∧
  ∃ r', ring_run r [Write [1; 2; 3; 4; 5; 6]; Read 4; Write [7; 8; 9; 10; 11]; Read 9] =
      Ok (r', snd (queue_run (size r) [] [Write [1; 2; 3; 4; 5; 6]; Read 4; Write [7; 8; 9; 10; 11]; Read 9])) ∧
    contents r' = fst (queue_run (size r) [] [Write [1; 2; 3; 4; 5; 6]; Read 4; Write [7; 8; 9; 10; 11]; Read 9]).
Proof. apply (ring_refines_queue 0 5). split; [lia|done]. Defined.

(** Four bytes, "ab\n" and one more, wrapped around the end. *)
Definition ex_ring : ringbuffer := RB (Some [98; 10; 99; 97]) 4 7 3.
Lemma ex_ring_ok : rb_ok ex_ring [98; 10; 99; 97] 2.
Proof. split; try done; simpl; lia. Qed.

Example rb_readline_line_witness : ∃ dst' r',
  rb_readline ex_ring [0; 0; 0; 0; 0; 0] 6 = Ok (3, dst', r') ∧ take 3 dst' = [97; 98; 10] ∧
  rb_ok r' [98; 10; 99; 97] 2 ∧ contents r' = [99].
Proof.
  apply (rb_readline_line ex_ring _ _ [0; 0; 0; 0; 0; 0] 6 [97; 98] [99] ex_ring_ok); [reflexivity| |simpl; lia].
  by apply (bool_decide_eq_true_1 (newline ∉ [97; 98])).
Defined.

(** Eight bytes without a newline, of which two are in use. *)
Definition ex_noline : ringbuffer := RB (Some [1; 2; 3; 4; 5; 6; 7; 8]) 8 2 0.
Example rb_readline_overruns_witness : rb_readline ex_noline [0; 0; 0; 0] 4 = Err OutOfBounds.
Proof.
  apply (rb_readline_overruns ex_noline [1; 2; 3; 4; 5; 6; 7; 8] 3); [split; try done; simpl; lia|done|reflexivity|].
  intros i Hi. assert (i = 0 ∨ i = 1 ∨ i = 2 ∨ i = 3 ∨ i = 4) as [->|[->|[->|[->| ->]]]] by lia; by vm_compute.
Defined.

End RingBuf.
