(* ===== verification/Reactor.v ===== *)
(** * The reactor of 4.2net_from_nginx_redis_memcached/reactor: reactor.h, main.c

    A table of [MAX_CONN] events, each with an input and an output ring buffer, and
    callbacks dispatched on what [epoll_wait] reports.  The kernel is explicit: the
    results of [read], [write] and [accept] are lists consumed in order, the epoll
    set a map from descriptors, and what is sent and closed is recorded. *)

From S2P Require Import Prelude CMem RingBuf.

Module Reactor.

(** ** Data *)

(* src: 4.2net_from_nginx_redis_memcached/reactor/reactor.h:23-25 MAX_CONN *)
Definition MAX_CONN : Z := 2 ^ 16 - 1.
Definition EPOLLIN : Z := 1.
Definition EPOLLOUT : Z := 4.
Definition EPOLLERR : Z := 8.
Definition EPOLLHUP : Z := 16.

Inductive errno : Type := EINTR | EWOULDBLOCK | EOTHER.

(** The callbacks of main.c. *)
Inductive callback : Type := accept_cb_ | read_cb_ | write_cb_.

(* src: 4.2net_from_nginx_redis_memcached/reactor/reactor.h:40-48 event_s *)
Record event_t : Type := Event {
  fd : Z;
  in_ : RingBuf.ringbuffer;
  out : RingBuf.ringbuffer;
  read_fn : option callback;
  write_fn : option callback;
  error_fn : bool   (* error_cb is set *)
}.

(** The reactor, and the kernel it runs on. *)
(* src: 4.2net_from_nginx_redis_memcached/reactor/reactor.h:31-38 reactor_t *)
Record reactor_t : Type := Reactor {
  listenfd : Z;
  stop : Z;
  events : gmap Z event_t;     (* cells never used are all zeros *)
  iter : Z;
  epoll : gmap Z (Z * Z);      (* descriptor: interest and event *)
  rd : list (list Z + errno);  (* results of read, in order *)
  wr : list (Z + errno);       (* results of write *)
  acc : list Z;                (* results of accept *)
  sent : list (Z * list Z);    (* descriptor and bytes of each successful write *)
  closed : list Z;
  errors : list Z              (* descriptors error_cb was called for *)
}.

Definition zero_rb : RingBuf.ringbuffer := RingBuf.RB None 0 0 0.
Definition zero_event : event_t := Event 0 zero_rb zero_rb None None false.

Definition set_events R x := Reactor (listenfd R) (stop R) x (iter R) (epoll R) (rd R) (wr R) (acc R) (sent R) (closed R) (errors R).
Definition set_iter R x := Reactor (listenfd R) (stop R) (events R) x (epoll R) (rd R) (wr R) (acc R) (sent R) (closed R) (errors R).
Definition set_epoll R x := Reactor (listenfd R) (stop R) (events R) (iter R) x (rd R) (wr R) (acc R) (sent R) (closed R) (errors R).
Definition set_rd R x := Reactor (listenfd R) (stop R) (events R) (iter R) (epoll R) x (wr R) (acc R) (sent R) (closed R) (errors R).
Definition set_wr R x := Reactor (listenfd R) (stop R) (events R) (iter R) (epoll R) (rd R) x (acc R) (sent R) (closed R) (errors R).
Definition set_acc R x := Reactor (listenfd R) (stop R) (events R) (iter R) (epoll R) (rd R) (wr R) x (sent R) (closed R) (errors R).
Definition set_sent R x := Reactor (listenfd R) (stop R) (events R) (iter R) (epoll R) (rd R) (wr R) (acc R) x (closed R) (errors R).
Definition close_fd R f := Reactor (listenfd R) (stop R) (events R) (iter R) (epoll R) (rd R) (wr R) (acc R) (sent R) (closed R ++ [f]) (errors R).
Definition add_error R f := Reactor (listenfd R) (stop R) (events R) (iter R) (epoll R) (rd R) (wr R) (acc R) (sent R) (closed R) (errors R ++ [f]).
Definition set_listenfd R x := Reactor x (stop R) (events R) (iter R) (epoll R) (rd R) (wr R) (acc R) (sent R) (closed R) (errors R).

(** [r->events[i]] *)
Definition ev (R : reactor_t) (i : Z) : res event_t :=
  if (0 <=? i) && (i <? MAX_CONN) then Ok (default zero_event (events R !! i)) else Err OutOfBounds.
Definition put_ev (R : reactor_t) (i : Z) (e : event_t) : reactor_t := set_events R (<[i := e]> (events R)).
Definition set_out (e : event_t) (r : RingBuf.ringbuffer) : event_t := Event (fd e) (in_ e) r (read_fn e) (write_fn e) (error_fn e).
Definition set_in (e : event_t) (r : RingBuf.ringbuffer) : event_t := Event (fd e) r (out e) (read_fn e) (write_fn e) (error_fn e).

(** ** Events *)

(** The three lists are what the kernel will answer. *)
(* src: 4.2net_from_nginx_redis_memcached/reactor/reactor.h:50-60 create_reactor *)
Definition create_reactor (rd : list (list Z + errno)) (wr : list (Z + errno)) (acc : list Z) : reactor_t :=
  Reactor 0 0 ∅ 0 ∅ rd wr acc [] [] [].

(** The loop looks at the masked index and the result is the unmasked one. *)
Fixpoint get_event_loop (fuel : nat) (R : reactor_t) (i : Z) : res Z :=
  match fuel with
  | O => Err OutOfFuel
  | S fuel =>
      e ← ev R (Z.land i MAX_CONN);
      if 0 <? fd e then get_event_loop fuel R (i + 1) else Ok i
  end.

(* src: 4.2net_from_nginx_redis_memcached/reactor/reactor.h:68-74 _get_event_t *)
Definition _get_event_t (R : reactor_t) : res (Z * reactor_t) :=
  i ← get_event_loop (Z.to_nat MAX_CONN) R (iter R + 1);
  _ ← ev R i;
  Ok (i, set_iter R i).

(* src: 4.2net_from_nginx_redis_memcached/reactor/reactor.h:76-90 new_event *)
Definition new_event (R : reactor_t) (f : Z) (rdf wt : option callback) (err : bool) : res (Z * reactor_t) :=
  match rdf, wt, err with
  | None, None, false => Err AssertFailed
  | _, _, _ =>
      '(i, R) ← _get_event_t R;
      b ← RingBuf.rb_init 0 (1024 * 16);
      Ok (i, put_ev R i (Event f b b rdf wt err))
  end.

(* src: 4.2net_from_nginx_redis_memcached/reactor/reactor.h:92-96 free_event *)
Definition free_event (e : event_t) : event_t :=
  Event 0 (RingBuf.rb_free (in_ e)) (RingBuf.rb_free (out e)) (read_fn e) (write_fn e) (error_fn e).

(** [epoll_ctl] fails on adding a descriptor twice and on changing an unknown one. *)
(* src: 4.2net_from_nginx_redis_memcached/reactor/reactor.h:103-112 add_event *)
Definition add_event (R : reactor_t) (evs i : Z) : res (Z * reactor_t) :=
  e ← ev R i;
  match epoll R !! fd e with
  | Some _ => Ok (1, R)
  | None => Ok (0, set_epoll R (<[fd e := (evs, i)]> (epoll R)))
  end.

(* src: 4.2net_from_nginx_redis_memcached/reactor/reactor.h:114-118 del_event *)
Definition del_event (R : reactor_t) (i : Z) : res reactor_t :=
  e ← ev R i;
  Ok (put_ev (set_epoll R (delete (fd e) (epoll R))) i (free_event e)).

(* src: 4.2net_from_nginx_redis_memcached/reactor/reactor.h:120-128 enable_event *)
Definition enable_event (R : reactor_t) (i : Z) (readable writeable : bool) : res (Z * reactor_t) :=
  e ← ev R i;
  let evs := Z.lor (if readable then EPOLLIN else 0) (if writeable then EPOLLOUT else 0) in
  match epoll R !! fd e with
  | None => Ok (1, R)
  | Some _ => Ok (0, set_epoll R (<[fd e := (evs, i)]> (epoll R)))
  end.

(** ** Sockets *)

(** The results of [socket], and whether [setsockopt], [bind], [listen] and
    [fcntl] succeed. *)
(* src: 4.2net_from_nginx_redis_memcached/reactor/reactor.h:179-221 create_server *)
Definition create_server (R : reactor_t) (sock : Z) (reuse_ok bind_ok listen_ok nonblock_ok : bool)
    (func : callback) : res (Z * reactor_t) :=
  if sock <? 0 then Ok (-1, R)
  else if negb reuse_ok then Ok (-1, R)
  else if negb bind_ok then Ok (-1, R)
  else if negb listen_ok then Ok (-1, R)
  else if negb nonblock_ok then Ok (-1, R)
  else
    '(e, R) ← new_event (set_listenfd R sock) sock (Some func) None false;
    '(_, R) ← add_event R EPOLLIN e;
    Ok (0, R).

(** Ends the connection: the callback, the event and the descriptor [f]. *)
Definition fail_event (R : reactor_t) (i : Z) : res reactor_t :=
  e ← ev R i;
  let R := if error_fn e then add_error R (fd e) else R in
  del_event R i.

(** The loop consumes the results of [read]; no result left means that no data is
    there.  [f] is the descriptor, read before the loop. *)
Fixpoint read_loop (l : list (list Z + errno)) (R : reactor_t) (i f num : Z) : res (Z * reactor_t) :=
  match l with
  | [] => Ok (num, set_rd R [])
  | inl [] :: l => R ← fail_event (set_rd R l) i; Ok (0, close_fd R f)
  | inr EINTR :: l => read_loop l R i f num
  | inr EWOULDBLOCK :: l => Ok (num, set_rd R l)
  | inr EOTHER :: l => R ← fail_event (set_rd R l) i; Ok (0, close_fd R f)
  | inl data :: l =>
      let data := take 1024 data in
      e ← ev R i;
      '(_, r) ← RingBuf.rb_write (in_ e) data (Z.of_nat (length data));
      read_loop l (put_ev R i (set_in e r)) i f (num + Z.of_nat (length data))
  end.

(* src: 4.2net_from_nginx_redis_memcached/reactor/reactor.h:223-253 read_socket *)
Definition read_socket (R : reactor_t) (i : Z) : res (Z * reactor_t) :=
  e ← ev R i; read_loop (rd R) R i (fd e) 0.

(* src: 4.2net_from_nginx_redis_memcached/reactor/reactor.h:255-257 readline *)
Definition readline (R : reactor_t) (i : Z) (dst : list Z) (sz : Z) : res (Z * list Z * reactor_t) :=
  e ← ev R i;
  '(n, dst, r) ← RingBuf.rb_readline (in_ e) dst sz;
  Ok (n, dst, put_ev R i (set_in e r)).

(** [write] takes at most the bytes given.  After the event is freed its
    descriptor is 0. *)
Fixpoint write_loop (l : list (Z + errno)) (R : reactor_t) (i f : Z) (data : list Z) : res (Z * reactor_t) :=
  match l with
  | [] => Ok (0, set_wr R [])
  | inl n :: l =>
      let n := Z.min n (Z.of_nat (length data)) in
      Ok (n, set_sent (set_wr R l) (sent R ++ [(f, take (Z.to_nat n) data)]))
  | inr EINTR :: l => write_loop l R i f data
  | inr EWOULDBLOCK :: l => Ok (0, set_wr R l)
  | inr EOTHER :: l =>
      R ← fail_event (set_wr R l) i;
      e ← ev R i;
      Ok (-1, close_fd R (fd e))
  end.

(* src: 4.2net_from_nginx_redis_memcached/reactor/reactor.h:259-277 write_socket_ *)
Definition write_socket_ (R : reactor_t) (i : Z) (data : list Z) : res (Z * reactor_t) :=
  e ← ev R i; write_loop (wr R) R i (fd e) data.

(** [while (len > 0) { write; stop when it would block or fails; advance }]; the
    result is [None] when the loop ends with everything written. *)
Fixpoint flush_loop (fuel : nat) (R : reactor_t) (i len : Z) : res (option Z * reactor_t) :=
  match fuel with
  | O => Err OutOfFuel
  | S fuel =>
      if 0 <? len then
        e ← ev R i;
        let r := out e in
        b ← RingBuf.store r;
        data ← slice b (RingBuf.real_pos r (RingBuf.read_pos r)) len;
        '(n, R) ← write_socket_ R i data;
        if n =? 0 then '(_, R) ← enable_event R i true true; Ok (Some 0, R)
        else if n <? 0 then Ok (Some (-1), R)
        else
          e ← ev R i;
          let r := out e in
          let r := RingBuf.RB (RingBuf.buf r) (RingBuf.size r) (RingBuf.write_pos r) (u32 (RingBuf.read_pos r + n)) in
          flush_loop fuel (put_ev R i (set_out e r)) i (len - n)
      else Ok (None, R)
  end.

(* src: 4.2net_from_nginx_redis_memcached/reactor/reactor.h:282-327 flush_socket *)
Definition flush_socket (R : reactor_t) (i : Z) : res (Z * reactor_t) :=
  e ← ev R i;
  let r := out e in
  if RingBuf.rb_isempty r then Ok (0, R)
  else
    let len := RingBuf.rb_len r in
    let dis := u32 (RingBuf.size r - RingBuf.real_pos r (RingBuf.read_pos r)) in
    if len <=? dis then
      '(o, R) ← flush_loop (S (Z.to_nat len)) R i len;
      match o with
      | Some z => Ok (z, R)
      | None => '(_, R) ← enable_event R i true false; Ok (1, R)
      end
    else
      let remain := len - dis in
      '(o, R) ← flush_loop (S (Z.to_nat dis)) R i dis;
      match o with
      | Some z => Ok (z, R)
      | None =>
          '(o, R) ← flush_loop (S (Z.to_nat remain)) R i remain;
          match o with
          | Some z => Ok (z, R)
          | None => '(_, R) ← enable_event R i true false; Ok (1, R)
          end
      end.

(* src: 4.2net_from_nginx_redis_memcached/reactor/reactor.h:329-338 write_socket *)
Definition write_socket (R : reactor_t) (i : Z) (data : list Z) : res (Z * reactor_t) :=
  '(n, R) ← write_socket_ R i data;
  if (n =? 0) && (0 <? Z.of_nat (length data)) then
    e ← ev R i;
    '(_, r) ← RingBuf.rb_write (out e) data (Z.of_nat (length data));
    '(_, R) ← enable_event (put_ev R i (set_out e r)) i true true;
    Ok (n, R)
  else if 0 <? n then '(_, R) ← enable_event R i true false; Ok (n, R)
  else Ok (n, R).

(** ** main.c *)

(** [buf] is 1024 zero bytes; the bytes sent are the line and one more. *)
(* src: 4.2net_from_nginx_redis_memcached/reactor/main.c:6-16 read_cb *)
Definition read_cb (R : reactor_t) (i : Z) : res reactor_t :=
  '(k, R) ← read_socket R i;
  if 0 <? k then
    '(n, dst, R) ← readline R i (replicate 1024 0) 1024;
    if 0 <? n then
      data ← slice dst 0 (n + 1);
      '(_, R) ← write_socket R i data;
      Ok R
    else Ok R
  else Ok R.

(* src: 4.2net_from_nginx_redis_memcached/reactor/main.c:18-22 write_cb *)
Definition write_cb (R : reactor_t) (i : Z) : res reactor_t := '(_, R) ← flush_socket R i; Ok R.

(* src: 4.2net_from_nginx_redis_memcached/reactor/main.c:28-46 accept_cb *)
Definition accept_cb (R : reactor_t) (i : Z) : res reactor_t :=
  let '(clientfd, l) := match acc R with [] => (-1, []) | f :: l => (f, l) end in
  let R := set_acc R l in
  if clientfd <=? 0 then Ok R
  else
    '(ne, R) ← new_event R clientfd (Some read_cb_) (Some write_cb_) true;
    '(_, R) ← add_event R EPOLLIN ne;
    Ok R.

Definition run_cb (c : option callback) (R : reactor_t) (i : Z) : res reactor_t :=
  match c with
  | None => Ok R
  | Some accept_cb_ => accept_cb R i
  | Some read_cb_ => read_cb R i
  | Some write_cb_ => write_cb R i
  end.

(** [fire] is what [epoll_wait] reports: event and mask. *)
(* src: 4.2net_from_nginx_redis_memcached/reactor/reactor.h:131-164 eventloop_once *)
Fixpoint eventloop_once (fire : list (Z * Z)) (R : reactor_t) : res reactor_t :=
  match fire with
  | [] => Ok R
  | (i, m) :: fire =>
      let mask := if Z.land m EPOLLERR =? 0 then m else Z.lor m (Z.lor EPOLLIN EPOLLOUT) in
      let mask := if Z.land m EPOLLHUP =? 0 then mask else Z.lor mask (Z.lor EPOLLIN EPOLLOUT) in
      e ← ev R i;
      R ← (if Z.land mask EPOLLIN =? 0 then Ok R else run_cb (read_fn e) R i);
      e ← ev R i;
      R ← (if Z.land mask EPOLLOUT =? 0 then Ok R else run_cb (write_fn e) R i);
      eventloop_once fire R
  end.

(** One round per report; the timers of rbt-timer.h are not part of this model. *)
(* src: 4.2net_from_nginx_redis_memcached/reactor/reactor.h:170-177 eventloop *)
Fixpoint eventloop (polls : list (list (Z * Z))) (R : reactor_t) : res reactor_t :=
  match polls with
  | [] => Ok R
  | fire :: polls => if stop R =? 0 then R ← eventloop_once fire R; eventloop polls R else Ok R
  end.

(** ** Writing *)

(** A connection that does not fail: [write] takes bytes, is interrupted or would block. *)
Definition good (l : list (Z + errno)) : Prop :=
  Forall (λ x, match x with inl n => 0 ≤ n | inr EOTHER => False | _ => True end) l.

(** The bytes [bs] were written to [f], in one piece or several, and nothing else changed. *)
Record wrote (R R' : reactor_t) (f : Z) (bs : list Z) : Prop := Wrote {
  wo_good : good (wr R');
  wo_events : events R' = events R;
  wo_epoll : epoll R' = epoll R;
  wo_closed : closed R' = closed R;
  wo_sent : ∃ ws, sent R' = sent R ++ ws ∧ Forall (λ w, w.1 = f) ws ∧ concat ws.*2 = bs
}.

Lemma write_loop_good l : ∀ R i f data, good l → ∃ n R', write_loop l R i f data = Ok (n, R') ∧
  0 ≤ n ≤ Z.of_nat (length data) ∧ wrote R R' f (take (Z.to_nat n) data).
Proof.
  induction l as [|[n|[]] l IH]; intros R i f data Hl; simpl.
  - exists 0, (set_wr R []). split; [done|]. split; [lia|]. split; try done. exists []. by rewrite app_nil_r.
  - apply Forall_cons in Hl as [Hn Hl]. eexists _, _. split; [done|]. split; [lia|].
    split; try done. eexists [_]. split; [done|]. split; [by repeat constructor|]. simpl. by rewrite app_nil_r.
  - apply Forall_cons in Hl as [_ Hl]. by apply IH.
  - apply Forall_cons in Hl as [_ Hl]. exists 0, (set_wr R l). split; [done|]. split; [lia|]. split; try done.
    exists []. by rewrite app_nil_r.
  - by apply Forall_cons in Hl as [[] _].
Qed.

Lemma ev_some R i e : 0 ≤ i < MAX_CONN → events R !! i = Some e → ev R i = Ok e.
Proof. intros Hi He. unfold ev. by rewrite (proj2 (Z.leb_le _ _)), (proj2 (Z.ltb_lt _ _)), He by lia. Qed.

(** The first [len] bytes of the ring buffer, when they do not wrap. *)
Lemma contiguous r b k len : RingBuf.rb_ok r b k → 0 ≤ len ≤ RingBuf.rb_len r →
  RingBuf.real_pos r (RingBuf.read_pos r) + len ≤ RingBuf.size r →
  slice b (RingBuf.real_pos r (RingBuf.read_pos r)) len = Ok (take (Z.to_nat len) (RingBuf.contents r)).
Proof.
  intros H Hlen. pose proof (RingBuf.pow_bound k (RingBuf.ok_k _ _ _ H)) as Hp.
  rewrite <-(RingBuf.ok_size _ _ _ H) in Hp. pose proof (RingBuf.ok_r _ _ _ H) as Hr.
  rewrite (RingBuf.real_pos_mod r b k) by (done || lia). set (n := RingBuf.size r) in *.
  pose proof (Z.mod_pos_bound (RingBuf.read_pos r) n ltac:(lia)) as Ho. set (o := RingBuf.read_pos r mod n) in *. intros Hfit.
  pose proof (RingBuf.ok_len _ _ _ H) as Hbl. rewrite slice_ok by lia. f_equal.
  pose proof (RingBuf.length_contents _ _ _ H) as Hcl.
  apply list_eq. intros j. destruct (decide (Z.of_nat j < len)) as [Hj|Hj].
  - rewrite !lookup_take_lt, lookup_drop, (RingBuf.contents_lookup _ _ _ _ H) by lia. unfold RingBuf.at_pos. fold n.
    rewrite <-Zplus_mod_idemp_l. fold o. rewrite Z.mod_small by lia.
    replace (Z.to_nat (o + Z.of_nat j)) with (Z.to_nat o + j)%nat by lia.
    destruct (lookup_lt_is_Some_2 b (Z.to_nat o + j)) as [x ->]; [lia|done].
  - rewrite !lookup_ge_None_2; [done| |]; rewrite length_take, ?length_drop; lia.
Qed.

(** The ring buffer after [m] bytes have been sent. *)
Definition advance (r : RingBuf.ringbuffer) (m : Z) : RingBuf.ringbuffer :=
  RingBuf.RB (RingBuf.buf r) (RingBuf.size r) (RingBuf.write_pos r) (u32 (RingBuf.read_pos r + m)).

Lemma advance_0 r b k : RingBuf.rb_ok r b k → advance r 0 = r.
Proof.
  intros H. unfold advance. rewrite Z.add_0_r, u32_small by apply H. by destruct r.
Qed.

Lemma advance_add r m n : 0 ≤ m → 0 ≤ n → advance (advance r m) n = advance r (m + n).
Proof.
  intros. unfold advance. simpl. f_equal. unfold u32. rewrite Zplus_mod_idemp_l. f_equal. lia.
Qed.

(** Where the next byte to send is, when no wrap has occurred. *)
Lemma advance_pos r b k m : RingBuf.rb_ok r b k → 0 ≤ m →
  RingBuf.real_pos r (RingBuf.read_pos r) + m < RingBuf.size r →
  RingBuf.real_pos (advance r m) (RingBuf.read_pos (advance r m)) =
  RingBuf.real_pos r (RingBuf.read_pos r) + m.
Proof.
  intros H Hm. pose proof (RingBuf.pow_bound k (RingBuf.ok_k _ _ _ H)) as Hp.
  rewrite <-(RingBuf.ok_size _ _ _ H) in Hp. pose proof (RingBuf.ok_r _ _ _ H) as Hr.
  unfold RingBuf.real_pos at 2. simpl. fold (RingBuf.real_pos r (u32 (RingBuf.read_pos r + m))).
  rewrite !(RingBuf.real_pos_mod r b k) by (done || lia || apply u32_range).
  pose proof (Z.mod_pos_bound (RingBuf.read_pos r) (RingBuf.size r) ltac:(lia)). intros Hlt.
  rewrite (RingBuf.ok_size _ _ _ H), RingBuf.mod_u32, <-(RingBuf.ok_size _ _ _ H) by apply H.
  rewrite <-Zplus_mod_idemp_l. apply Z.mod_small. lia.
Qed.

(** The first [m] bytes of the output of event [i] have been written to its socket. *)
Record flushed (R R' : reactor_t) (i : Z) (e : event_t) (m : Z) : Prop := Flushed {
  fl_good : good (wr R');
  fl_events : events R' = <[i := set_out e (advance (out e) m)]> (events R);
  fl_closed : closed R' = closed R;
  fl_sent : ∃ ws, sent R' = sent R ++ ws ∧ Forall (λ w, w.1 = fd e) ws ∧
    concat ws.*2 = take (Z.to_nat m) (RingBuf.contents (out e))
}.

Lemma flushed_nil R i e b k : good (wr R) → events R !! i = Some e → RingBuf.rb_ok (out e) b k → flushed R R i e 0.
Proof.
  intros Hg He H. split; try done.
  - rewrite (advance_0 _ _ _ H), insert_id; [done|]. rewrite He. by destruct e.
  - exists []. by rewrite app_nil_r.
Qed.

Lemma flushed_trans R R1 R2 i e b k m n : RingBuf.rb_ok (out e) b k → 0 ≤ m → 0 ≤ n → m + n ≤ RingBuf.rb_len (out e) →
  flushed R R1 i e m → flushed R1 R2 i (set_out e (advance (out e) m)) n → flushed R R2 i e (m + n).
Proof.
  intros H Hm Hn Hmn [F1 F2 F3 (ws & Fs & Ff & Fc)] [G1 G2 G3 (vs & Gs & Gf & Gc)]. split; try done.
  - rewrite G2, F2, insert_insert_eq. simpl. f_equal. unfold set_out. simpl. by rewrite advance_add.
  - congruence.
  - exists (ws ++ vs). split; [by rewrite Gs, Fs, app_assoc|]. split; [apply Forall_app; by split|].
    rewrite fmap_app, concat_app, Fc, Gc. simpl.
    destruct (RingBuf.drop_contents (out e) b k m H ltac:(lia)) as (_ & Hc & _).
    change (RingBuf.contents (advance (out e) m)) with (RingBuf.contents (RingBuf.RB (RingBuf.buf (out e))
      (RingBuf.size (out e)) (RingBuf.write_pos (out e)) (u32 (RingBuf.read_pos (out e) + m)))).
    rewrite Hc. rewrite <-(take_drop (Z.to_nat m) (take (Z.to_nat (m + n)) (RingBuf.contents (out e)))).
    rewrite take_take, Nat.min_l, skipn_firstn_comm by lia. do 2 f_equal. lia.
Qed.

(** One write of the beginning of the output. *)
Lemma flush_write R i e b k len : 0 ≤ i < MAX_CONN → good (wr R) → events R !! i = Some e →
  RingBuf.rb_ok (out e) b k → 0 ≤ len ≤ RingBuf.rb_len (out e) →
  RingBuf.real_pos (out e) (RingBuf.read_pos (out e)) + len ≤ RingBuf.size (out e) → ∃ data n R1,
  (b ← RingBuf.store (out e); slice b (RingBuf.real_pos (out e) (RingBuf.read_pos (out e))) len) = Ok data ∧
  write_socket_ R i data = Ok (n, R1) ∧ 0 ≤ n ≤ len ∧ events R1 = events R ∧ epoll R1 = epoll R ∧
  flushed R (put_ev R1 i (set_out e (advance (out e) n))) i e n.
Proof.
  intros Hi Hg He H Hlen Hfit. unfold RingBuf.store. rewrite (RingBuf.ok_buf _ _ _ H). cbn [mbind res_bind get_or].
  rewrite (contiguous _ _ _ _ H Hlen Hfit). set (data := take _ _).
  pose proof (RingBuf.length_contents _ _ _ H) as Hcl.
  assert (Hdl : Z.of_nat (length data) = len) by (unfold data; rewrite length_take; lia).
  destruct (write_loop_good (wr R) R i (fd e) data Hg) as (n & R1 & Hw & Hn & [W1 W2 W3 W4 (ws & W5 & W6 & W7)]).
  exists data, n, R1. unfold write_socket_. rewrite (ev_some _ _ _ Hi He). cbn [mbind res_bind].
  split; [done|]. split; [done|]. split; [lia|]. do 2 (split; [done|]). split; simpl; try done.
  - by rewrite W2.
  - exists ws. split_and!; try done. rewrite W7. unfold data. rewrite take_take. f_equal. lia.
Qed.

Lemma flush_loop_spec fuel : ∀ R i e b k len, 0 ≤ i < MAX_CONN → good (wr R) → events R !! i = Some e →
  RingBuf.rb_ok (out e) b k → 0 ≤ len ≤ RingBuf.rb_len (out e) →
  RingBuf.real_pos (out e) (RingBuf.read_pos (out e)) + len ≤ RingBuf.size (out e) →
  is_Some (epoll R !! fd e) → (Z.to_nat len < fuel)%nat → ∃ o R' m,
  flush_loop fuel R i len = Ok (o, R') ∧ 0 ≤ m ≤ len ∧ flushed R R' i e m ∧
  ((o = None ∧ m = len ∧ epoll R' = epoll R) ∨
   (o = Some 0 ∧ m < len ∧ epoll R' = <[fd e := (Z.lor EPOLLIN EPOLLOUT, i)]> (epoll R))).
Proof.
  induction fuel as [|fuel IH]; intros R i e b k len Hi Hg He H Hlen Hfit Hep Hf; [lia|]. cbn [flush_loop].
  destruct (Z.ltb_spec 0 len) as [Hpos|Hz]; last first.
  { exists None, R, 0. split; [done|]. split; [lia|]. split; [by eapply flushed_nil|]. left.
    split; [done|]. split; [lia|done]. }
  rewrite (ev_some _ _ _ Hi He). cbn [mbind res_bind].
  destruct (flush_write R i e b k len Hi Hg He H Hlen Hfit) as (data & n & R1 & Hd & Hw & Hn & Hev & Hepo & Hfl).
  apply bind_ok in Hd as (b0 & Hb0 & Hd). rewrite Hb0. cbn [mbind res_bind]. rewrite Hd. cbn [mbind res_bind].
  rewrite Hw. cbn [mbind res_bind]. pose proof Hfl as [F1 F2 F3 F4].
  destruct (Z.eqb_spec n 0) as [->|Hn0].
  - assert (Heq : put_ev R1 i (set_out e (advance (out e) 0)) = R1).
    { unfold put_ev, set_events. rewrite (advance_0 _ _ _ H), insert_id; [by destruct R1|].
      rewrite Hev, He. by destruct e. }
    rewrite Heq in *. unfold enable_event. rewrite (ev_some R1 i e) by (done || by rewrite Hev).
    cbn [mbind res_bind]. destruct Hep as [x Hx]. rewrite Hepo, Hx. cbn [mbind res_bind].
    eexists (Some 0), _, 0. split; [done|]. split; [lia|]. split; [|right; split_and!; [done|lia|]].
    + by split.
    + done.
  - rewrite (proj2 (Z.ltb_ge _ _)) by lia. rewrite (ev_some R1 i e) by (done || by rewrite Hev).
    cbn [mbind res_bind]. fold (advance (out e) n). set (e1 := set_out e (advance (out e) n)) in *.
    destruct (RingBuf.drop_contents (out e) b k n H ltac:(lia)) as (H1 & Hc1 & Hl1).
    destruct (decide (n = len)) as [->|Hne].
    + replace (len - len) with 0 by lia. destruct fuel as [|fuel]; [lia|]. cbn [flush_loop Z.ltb Z.compare].
      exists None, (put_ev R1 i e1), len. split; [done|]. split; [lia|]. split; [done|]. left. by split_and!.
    + destruct (IH (put_ev R1 i e1) i e1 b k (len - n) Hi) as (o & R' & m & -> & Hm & Hfl' & Hres); try done.
      * simpl. apply lookup_insert_eq.
      * simpl. unfold advance. rewrite Hl1. lia.
      * change (out e1) with (advance (out e) n). rewrite (advance_pos _ b k) by (done || lia).
        simpl. lia.
      * simpl. by rewrite Hepo.
      * lia.
      * exists o, R', (n + m). split; [done|]. split; [lia|].
        split; [eapply flushed_trans; [exact H|lia|lia|lia|exact Hfl|exact Hfl']|].
        simpl in Hres. rewrite Hepo in Hres. destruct Hres as [(-> & -> & ?)|(-> & ? & ?)]; [left|right];
          (split_and!; [done|lia|done]).
Qed.

(** After the bytes up to the end of the buffer, the next one to send is the first cell. *)
Lemma advance_wrap r b k : RingBuf.rb_ok r b k →
  let m := RingBuf.size r - RingBuf.real_pos r (RingBuf.read_pos r) in
  RingBuf.real_pos (advance r m) (RingBuf.read_pos (advance r m)) = 0.
Proof.
  intros H m. pose proof (RingBuf.pow_bound k (RingBuf.ok_k _ _ _ H)) as Hp.
  rewrite <-(RingBuf.ok_size _ _ _ H) in Hp. pose proof (RingBuf.ok_r _ _ _ H) as Hr.
  simpl. unfold RingBuf.real_pos. simpl.
  fold (RingBuf.real_pos r (u32 (RingBuf.read_pos r + m))).
  rewrite (RingBuf.real_pos_mod r b k) by (done || apply u32_range).
  rewrite (RingBuf.ok_size _ _ _ H), RingBuf.mod_u32, <-(RingBuf.ok_size _ _ _ H) by apply H.
  unfold m. rewrite (RingBuf.real_pos_mod r b k) by (done || lia).
  pose proof (Z.div_mod (RingBuf.read_pos r) (RingBuf.size r) ltac:(lia)) as Hd.
  set (q := _ / _) in *. set (o := _ mod _) in *.
  replace (_ + _) with ((q + 1) * RingBuf.size r) by lia. apply Z.mod_mul. lia.
Qed.

(** The outcome of writing [len] bytes: all of them, or the first [m] and the rest kept
    for when the socket is writable. *)
Definition outcome (R R' : reactor_t) (i f len m : Z) (o : option Z) : Prop :=
  (o = None ∧ m = len ∧ epoll R' = epoll R) ∨
  (o = Some 0 ∧ m < len ∧ epoll R' = <[f := (Z.lor EPOLLIN EPOLLOUT, i)]> (epoll R)).

(** Both halves of a buffer that wraps. *)
Lemma flush_wrapped R i e b k : 0 ≤ i < MAX_CONN → good (wr R) → events R !! i = Some e →
  RingBuf.rb_ok (out e) b k → is_Some (epoll R !! fd e) →
  let len := RingBuf.rb_len (out e) in
  let dis := RingBuf.size (out e) - RingBuf.real_pos (out e) (RingBuf.read_pos (out e)) in
  0 ≤ dis < len → len ≤ RingBuf.size (out e) → ∃ o R' m,
  ('(o, R) ← flush_loop (S (Z.to_nat dis)) R i dis;
   match o with Some z => Ok (Some z, R) | None => flush_loop (S (Z.to_nat (len - dis))) R i (len - dis) end) =
    Ok (o, R') ∧ 0 ≤ m ≤ len ∧ flushed R R' i e m ∧ outcome R R' i (fd e) len m o.
Proof.
  intros Hi Hg He H Hep len dis Hdis Hle.
  destruct (flush_loop_spec (S (Z.to_nat dis)) R i e b k dis) as (o & R1 & m & -> & Hm & Hfl & Hres);
    try done; try lia.
  cbn [mbind res_bind]. destruct Hres as [(-> & -> & Hep1)|(-> & Hlt & Hep1)]; last first.
  { exists (Some 0), R1, m. split; [done|]. split; [lia|]. split; [done|]. right. split; [done|]. by split; [lia|]. }
  set (e1 := set_out e (advance (out e) dis)). pose proof Hfl as [F1 F2 F3 F4].
  destruct (RingBuf.drop_contents (out e) b k dis H) as (H1 & _ & Hl1); [subst len; lia|].
  destruct (flush_loop_spec (S (Z.to_nat (len - dis))) R1 i e1 b k (len - dis))
    as (o & R2 & n & -> & Hn & Hfl2 & Hres2); try done; try lia.
  - rewrite F2. apply lookup_insert_eq.
  - simpl. unfold advance. rewrite Hl1. fold len. lia.
  - change (out e1) with (advance (out e) dis). 
    pose proof (advance_wrap (out e) b k H) as Haw. cbv zeta in Haw. fold dis in Haw. rewrite Haw. simpl. lia.
  - rewrite Hep1. exact Hep.
  - exists o, R2, (dis + n). split; [done|]. split; [lia|].
    split; [eapply flushed_trans; [exact H|lia|lia|fold len; lia|exact Hfl|exact Hfl2]|].
    unfold outcome. rewrite Hep1 in Hres2.
    destruct Hres2 as [(-> & -> & ?)|(-> & ? & ?)]; [left|right]; (split; [done|]; by split; [lia|]).
Qed.

(** The two branches of [flush_socket] are the same loop over the whole output. *)
Lemma flush_all R i e b k : 0 ≤ i < MAX_CONN → good (wr R) → events R !! i = Some e →
  RingBuf.rb_ok (out e) b k → is_Some (epoll R !! fd e) → RingBuf.rb_len (out e) ≠ 0 → ∃ o R' m,
  flush_socket R i = match o with
    | Some z => Ok (z, R') | None => '(_, R) ← enable_event R' i true false; Ok (1, R) end ∧
  0 ≤ m ≤ RingBuf.rb_len (out e) ∧ flushed R R' i e m ∧ outcome R R' i (fd e) (RingBuf.rb_len (out e)) m o.
Proof.
  intros Hi Hg He H Hep Hne. unfold flush_socket. rewrite (ev_some _ _ _ Hi He). cbn [mbind res_bind].
  rewrite (RingBuf.rb_isempty_len _ _ _ H), (proj2 (Z.eqb_neq _ _) Hne).
  pose proof (RingBuf.pow_bound k (RingBuf.ok_k _ _ _ H)) as Hp. rewrite <-(RingBuf.ok_size _ _ _ H) in Hp.
  pose proof (RingBuf.ok_dist _ _ _ H) as Hd. fold (RingBuf.rb_len (out e)) in Hd.
  pose proof (u32_range (RingBuf.write_pos (out e) - RingBuf.read_pos (out e))) as Hl0.
  fold (RingBuf.rb_len (out e)) in Hl0.
  assert (Hrp : 0 ≤ RingBuf.real_pos (out e) (RingBuf.read_pos (out e)) < RingBuf.size (out e)).
  { pose proof (RingBuf.ok_r _ _ _ H). rewrite (RingBuf.real_pos_mod _ _ _ _ H) by lia. apply Z.mod_pos_bound. lia. }
  rewrite u32_small by lia. set (len := RingBuf.rb_len (out e)) in *.
  destruct (Z.leb_spec len (RingBuf.size (out e) - RingBuf.real_pos (out e) (RingBuf.read_pos (out e)))) as [Hle|Hgt].
  - destruct (flush_loop_spec (S (Z.to_nat len)) R i e b k len) as (o & R' & m & -> & Hm & Hfl & Hres); try done; try lia.
    exists o, R', m. cbn [mbind res_bind]. split; [by destruct o|]. by split; [lia|].
  - destruct (flush_wrapped R i e b k Hi Hg He H Hep) as (o & R' & m & Hrun & Hm & Hfl & Hres); [lia|fold len; lia|].
    exists o, R', m. split; [|by split; [lia|]]. fold len in Hrun.
    destruct (flush_loop _ R i _) as [[[z|] R1]|f]; cbn [mbind res_bind] in *; [|by rewrite Hrun|done].
    by injection Hrun as <- <-.
Qed.

(** C14: flushing a connection that has output waiting and whose socket does not fail sends, in order, a first part of
    what its output buffer holds and keeps the rest; it reports 1 and drops the interest
    in writability exactly when everything went out, and otherwise reports 0 and asks to be
    told when the socket is writable. *)
Theorem flush_socket_fifo R i e b k : 0 ≤ i < MAX_CONN → good (wr R) → events R !! i = Some e →
  RingBuf.rb_ok (out e) b k → is_Some (epoll R !! fd e) → RingBuf.rb_len (out e) ≠ 0 → ∃ z R' m e' ws,
  flush_socket R i = Ok (z, R') ∧ events R' = <[i := e']> (events R) ∧ closed R' = closed R ∧
  sent R' = sent R ++ ws ∧ Forall (λ w, w.1 = fd e) ws ∧
  concat ws.*2 = take m (RingBuf.contents (out e)) ∧
  RingBuf.contents (out e') = drop m (RingBuf.contents (out e)) ∧
  ((z = 1 ∧ RingBuf.contents (out e') = [] ∧ epoll R' = <[fd e := (EPOLLIN, i)]> (epoll R)) ∨
   (z = 0 ∧ RingBuf.contents (out e') ≠ [] ∧ epoll R' = <[fd e := (Z.lor EPOLLIN EPOLLOUT, i)]> (epoll R))).
Proof.
  intros Hi Hg He H Hep Hne.
  destruct (flush_all R i e b k Hi Hg He H Hep Hne) as (o & R' & m & Hf & Hm & Hfl & Hout).
  rewrite Hf. pose proof Hfl as [F1 F2 F3 (ws & F4 & F5 & F6)].
  destruct (RingBuf.drop_contents (out e) b k m H Hm) as (H1 & Hc1 & Hl1).
  fold (advance (out e) m) in H1, Hc1, Hl1. pose proof (RingBuf.length_contents _ _ _ H1) as Hlc.
  destruct Hout as [(-> & -> & Hep1)|(-> & Hlt & Hep1)].
  - unfold enable_event. rewrite (ev_some R' i (set_out e (advance (out e) (RingBuf.rb_len (out e)))))
      by (done || by rewrite F2, lookup_insert_eq).
    cbn [mbind res_bind fd set_out]. destruct Hep as [x Hx]. rewrite Hep1, Hx. cbn [mbind res_bind].
    eexists 1, _, (Z.to_nat (RingBuf.rb_len (out e))), _, ws. do 7 (split; [done|]). left. split; [done|].
    split; [|done]. apply length_zero_iff_nil. simpl. lia.
  - eexists 0, R', (Z.to_nat m), _, ws. do 7 (split; [done|]). right. split; [done|]. split; [|done].
    intros Hn. simpl in Hn. rewrite Hn in Hlc. simpl in Hlc. lia.
Qed.

(** when the socket takes only a first part of a reply, the rest of the reply is neither
    sent nor buffered, and bytes that were already waiting in the output buffer are
    overtaken by it and no longer announced as writable. *)
Theorem write_socket_partial_loses R i e data n l x : 0 ≤ i < MAX_CONN → events R !! i = Some e →
  epoll R !! fd e = Some x →
  wr R = inl n :: l → 0 < n < Z.of_nat (length data) → ∃ R',
  write_socket R i data = Ok (n, R') ∧ sent R' = sent R ++ [(fd e, take (Z.to_nat n) data)] ∧
  events R' = events R ∧ epoll R' = <[fd e := (EPOLLIN, i)]> (epoll R).
Proof.
  intros Hi He Hx Hw Hn. unfold write_socket, write_socket_. rewrite (ev_some _ _ _ Hi He). cbn [mbind res_bind].
  rewrite Hw. cbn [write_loop mbind res_bind]. rewrite Z.min_l by lia.
  rewrite (proj2 (Z.eqb_neq n 0)), (proj2 (Z.ltb_lt 0 n)) by lia. cbn [andb].
  set (R1 := set_sent _ _). unfold enable_event. rewrite (ev_some R1 i e Hi He). cbn [mbind res_bind].
  change (epoll R1) with (epoll R). rewrite Hx. cbn [mbind res_bind]. eexists. by split_and!.
Qed.

(** on a write error the descriptor of the connection leaves the epoll set but stays
    open, and descriptor 0 is closed in its place. *)
Theorem write_error_closes_zero R i e data l : 0 ≤ i < MAX_CONN → events R !! i = Some e →
  wr R = inr EOTHER :: l → ∃ R', write_socket_ R i data = Ok (-1, R') ∧
  closed R' = closed R ++ [0] ∧ epoll R' = delete (fd e) (epoll R) ∧
  events R' = <[i := free_event e]> (events R).
Proof.
  intros Hi He Hw. unfold write_socket_. rewrite (ev_some _ _ _ Hi He). cbn [mbind res_bind].
  rewrite Hw. cbn [write_loop]. unfold fail_event. rewrite (ev_some (set_wr R l) i e Hi He). cbn [mbind res_bind].
  set (R1 := if error_fn e then _ else _).
  assert (H1 : events R1 = events R ∧ epoll R1 = epoll R ∧ closed R1 = closed R) by (unfold R1; by destruct (error_fn e)).
  destruct H1 as (H1 & H2 & H3). unfold del_event. rewrite (ev_some R1 i e) by (done || by rewrite H1).
  cbn [mbind res_bind]. rewrite (ev_some _ i (free_event e)) by (done || apply lookup_insert_eq).
  cbn [mbind res_bind]. eexists. split; [done|]. simpl. by rewrite H1, H2, H3.
Qed.

(** ** Reading *)

(** What the input buffer holds after [chunks] have been read, each kept whole or dropped. *)
Definition take_chunk (cap : Z) (q d : list Z) : list Z :=
  if Z.of_nat (length d) <=? cap - Z.of_nat (length q) then q ++ d else q.

Lemma read_loop_chunks chunks l : ∀ R i f num e b k, 0 ≤ i < MAX_CONN → events R !! i = Some e →
  RingBuf.rb_ok (in_ e) b k → Forall (λ c, 0 < length c ≤ 1024)%nat chunks → ∃ R' e' b',
  read_loop (map inl chunks ++ inr EWOULDBLOCK :: l) R i f num = Ok (num + Z.of_nat (length (concat chunks)), R') ∧
  rd R' = l ∧ events R' = <[i := e']> (events R) ∧ out e' = out e ∧ fd e' = fd e ∧ RingBuf.rb_ok (in_ e') b' k ∧
  RingBuf.contents (in_ e') = foldl (take_chunk (RingBuf.size (in_ e))) (RingBuf.contents (in_ e)) chunks.
Proof.
  induction chunks as [|c chunks IH]; intros R i f num e b k Hi He H Hch; cbn [map app].
  - exists (set_rd R l), e, b. cbn. split; [do 2 f_equal; lia|]. split; [done|]. by rewrite insert_id.
  - apply Forall_cons in Hch as [Hc Hch]. destruct c as [|z c]; [simpl in Hc; lia|]. cbn [read_loop].
    rewrite (take_ge (z :: c) 1024) by lia. rewrite (ev_some _ _ _ Hi He). cbn [mbind res_bind].
    pose proof (RingBuf.length_contents _ _ _ H) as Hlc.
    assert (∃ n r b1, RingBuf.rb_write (in_ e) (z :: c) (Z.of_nat (length (z :: c))) = Ok (n, r) ∧ RingBuf.rb_ok r b1 k ∧
      RingBuf.contents r = take_chunk (RingBuf.size (in_ e)) (RingBuf.contents (in_ e)) (z :: c) ∧
      RingBuf.size r = RingBuf.size (in_ e)) as (n & r & b1 & Hw & H1 & Hc1 & Hs1).
    { unfold take_chunk. rewrite Hlc.
      destruct (RingBuf.rb_write_spec (in_ e) b k (z :: c) _ H eq_refl) as [(Hle & r & b1 & -> & H1 & Hc1 & _ & Hs1)|[Hgt ->]].
      - exists (Z.of_nat (length (z :: c))), r, b1. rewrite (proj2 (Z.leb_le _ _)) by lia. done.
      - exists 0, (in_ e), b. rewrite (proj2 (Z.leb_gt _ _)) by lia. done. }
    rewrite Hw. cbn [mbind res_bind].
    destruct (IH (put_ev R i (set_in e r)) i f (num + Z.of_nat (length (z :: c))) (set_in e r) b1 k Hi)
      as (R' & e' & b' & -> & Hr1 & Hr2 & Hr3 & Hr4 & Hr5 & Hr6); try done; [apply lookup_insert_eq|].
    exists R', e', b'. split; [do 2 f_equal; simpl; rewrite length_app; lia|]. split; [done|].
    split; [rewrite Hr2; simpl; by rewrite insert_insert_eq|]. do 3 (split; [done|]).
    cbn [in_ set_in] in Hr6. rewrite Hr6, Hs1, Hc1. done.
Qed.

(** reading until the socket would block reports the number of bytes received and
    appends them, one read of at most 1024 bytes at a time, to the input buffer; a read
    that does not fit is dropped whole, and still counted. *)
Theorem read_socket_appends R i e b k chunks l : 0 ≤ i < MAX_CONN → events R !! i = Some e →
  RingBuf.rb_ok (in_ e) b k → Forall (λ c, 0 < length c ≤ 1024)%nat chunks →
  rd R = map inl chunks ++ inr EWOULDBLOCK :: l → ∃ R' e' b',
  read_socket R i = Ok (Z.of_nat (length (concat chunks)), R') ∧ rd R' = l ∧
  events R' = <[i := e']> (events R) ∧ out e' = out e ∧ fd e' = fd e ∧ RingBuf.rb_ok (in_ e') b' k ∧
  RingBuf.contents (in_ e') = foldl (take_chunk (RingBuf.size (in_ e))) (RingBuf.contents (in_ e)) chunks.
Proof.
  intros Hi He H Hch Hrd. unfold read_socket. rewrite (ev_some _ _ _ Hi He). cbn [mbind res_bind]. rewrite Hrd. clear Hrd.
  destruct (read_loop_chunks chunks l R i (fd e) 0 e b k Hi He H Hch) as (R' & e' & b' & Hr & Hrest).
  rewrite Z.add_0_l in Hr. by exists R', e', b'.
Qed.

(** ** The table of events *)

Lemma get_event_ge fuel : ∀ R i j, get_event_loop fuel R i = Ok j → i ≤ j.
Proof.
  induction fuel as [|fuel IH]; intros R i j Hj; [done|]. cbn [get_event_loop] in Hj. inv_ok.
  match goal with H : (if ?c then _ else _) = _ |- _ => destruct c end; [|inv_ok; lia].
  match goal with H : get_event_loop _ _ _ = _ |- _ => apply IH in H; lia end.
Qed.

Lemma ev_bounds R i e : ev R i = Ok e → 0 ≤ i < MAX_CONN.
Proof. unfold ev. destruct (Z.leb_spec 0 i), (Z.ltb_spec i MAX_CONN); simpl; try done. Qed.

(** a new event is never given a cell that an earlier one had, free or not, and the
    first one after the last cell is written outside the table. *)
Theorem new_event_never_recycles R f rdf wt err :
  (∀ i R', new_event R f rdf wt err = Ok (i, R') → iter R < i < MAX_CONN ∧ iter R' = i) ∧
  (iter R = MAX_CONN - 1 → is_Some rdf → new_event R f rdf wt err = Err OutOfBounds).
Proof.
  split.
  - intros i R' Hn. unfold new_event in Hn.
    assert (H1 : ('(i, R) ← _get_event_t R; b ← RingBuf.rb_init 0 (1024 * 16);
      Ok (i, put_ev R i (Event f b b rdf wt err))) = Ok (i, R')) by (destruct rdf, wt, err; try done; by destruct Hn).
    apply bind_ok in H1 as ([j R1] & Hg & H1). unfold _get_event_t in Hg.
    apply bind_ok in Hg as (j' & Hge%get_event_ge & Hg). apply bind_ok in Hg as (e & Hb%ev_bounds & Hg).
    injection Hg as <- <-. apply bind_ok in H1 as (r & _ & H1). injection H1 as <- <-. split; [lia|done].
  - intros Hi [c ->]. unfold new_event, _get_event_t. rewrite Hi.
    assert (Z.to_nat MAX_CONN = S (Z.to_nat (MAX_CONN - 1))) as -> by (unfold MAX_CONN; lia).
    cbn [get_event_loop]. replace (MAX_CONN - 1 + 1) with MAX_CONN by lia. by destruct wt, err.
Qed.

(** ** The theorems at work *)

(** Connection 9 in cell 1; "abc" and a newline wait, wrapped around the end of its output. *)
Definition ex_event : event_t := Event 9 (RingBuf.RB (Some [0; 0; 0; 0]) 4 0 0) RingBuf.ex_ring (Some read_cb_) (Some write_cb_) true.
Definition ex_reactor (r : list (list Z + errno)) (w : list (Z + errno)) : reactor_t :=
  Reactor 3 0 {[1 := ex_event]} 1 {[9 := (EPOLLIN, 1)]} r w [] [] [] [].

Example flush_socket_fifo_witness : ∃ z R' m e' ws, let R := ex_reactor [] [inl 1; inr EINTR; inl 2; inr EWOULDBLOCK] in
  flush_socket R 1 = Ok (z, R') ∧ events R' = <[1 := e']> (events R) ∧ closed R' = closed R ∧
  sent R' = sent R ++ ws ∧ Forall (λ w, w.1 = 9) ws ∧
  concat ws.*2 = take m (RingBuf.contents (out ex_event)) ∧
  RingBuf.contents (out e') = drop m (RingBuf.contents (out ex_event)) ∧
  ((z = 1 ∧ RingBuf.contents (out e') = [] ∧ epoll R' = <[9 := (EPOLLIN, 1)]> (epoll R)) ∨
   (z = 0 ∧ RingBuf.contents (out e') ≠ [] ∧ epoll R' = <[9 := (Z.lor EPOLLIN EPOLLOUT, 1)]> (epoll R))).
Proof.
  refine (flush_socket_fifo _ 1 ex_event [98; 10; 99; 97] 2 _ _ _ RingBuf.ex_ring_ok _ _).
  - unfold MAX_CONN. lia.
  - repeat constructor; lia.
  - reflexivity.
  - by exists (EPOLLIN, 1).
  - by vm_compute.
Defined.

Example write_socket_partial_loses_witness : ∃ R', let R := ex_reactor [] [inl 2] in
  write_socket R 1 [1; 2; 3] = Ok (2, R') ∧ sent R' = sent R ++ [(9, [1; 2])] ∧
  events R' = events R ∧ epoll R' = <[9 := (EPOLLIN, 1)]> (epoll R).
Proof.
  refine (write_socket_partial_loses _ 1 ex_event [1; 2; 3] 2 [] (EPOLLIN, 1) _ _ _ _ _); [unfold MAX_CONN; lia|reflexivity..|simpl; lia].
Defined.

Example write_error_closes_zero_witness : ∃ R', let R := ex_reactor [] [inr EOTHER] in
  write_socket_ R 1 [1; 2; 3] = Ok (-1, R') ∧ closed R' = closed R ++ [0] ∧ epoll R' = delete 9 (epoll R) ∧
  events R' = <[1 := free_event ex_event]> (events R).
Proof. refine (write_error_closes_zero _ 1 ex_event _ [] _ _ _); [unfold MAX_CONN; lia|reflexivity..]. Defined.

(** Three bytes fit, two more do not, and one still does. *)
Example read_socket_appends_witness : ∃ R' e' b', let R := ex_reactor [inl [1; 2; 3]; inl [4; 5]; inl [6]; inr EWOULDBLOCK] [] in
  read_socket R 1 = Ok (6, R') ∧ rd R' = [] ∧
  events R' = <[1 := e']> (events R) ∧ out e' = out ex_event ∧ fd e' = 9 ∧ RingBuf.rb_ok (in_ e') b' 2 ∧
  RingBuf.contents (in_ e') = [1; 2; 3; 6].
Proof.
  refine (read_socket_appends _ 1 ex_event [0; 0; 0; 0] 2 [[1; 2; 3]; [4; 5]; [6]] [] _ _ _ _ _).
  - unfold MAX_CONN. lia.
  - reflexivity.
  - split; try done; simpl; lia.
  - repeat constructor; simpl; lia.
  - reflexivity.
Defined.

(** All cells free, and the last one given. *)
Definition ex_last : reactor_t := set_iter (create_reactor [] [] []) (MAX_CONN - 1).
Example new_event_never_recycles_witness : new_event ex_last 9 (Some read_cb_) None true = Err OutOfBounds.
Proof. apply (new_event_never_recycles ex_last 9 (Some read_cb_) None true); [done|by exists read_cb_]. Defined.

End Reactor.
