(* ===== verification/NtyReactor.v ===== *)
(** * The event-block reactor of 4.1websocket/websocket_server.c

    Events are found by descriptor in a linked list of blocks of
    [MAX_EPOLL_EVENTS] events each, which grows on demand; every event has the
    callback to run when its descriptor is ready.  The same code drives the web
    server of 3.4http_server: what differs between the two is the interface
    [Protocol], implemented in WebSocket.v and Http.v.  The reactor's memory is a
    store of blocks and arrays; the answers of [accept], [recv] and
    [send] are lists consumed in order, and so are those of [malloc], with one more for all its later calls. *)

From S2P Require Import Prelude CMem.

(* src: 4.1websocket/websocket_server.c:21-21 BUFFER_LENGTH *)
Definition BUFFER_LENGTH : Z := 4096.
(* src: 4.1websocket/websocket_server.c:22-22 MAX_EPOLL_EVENTS *)
Definition MAX_EPOLL_EVENTS : Z := 1024.
#[global] Arguments BUFFER_LENGTH : simpl never.
#[global] Arguments MAX_EPOLL_EVENTS : simpl never.
Definition EPOLLIN : Z := 1.
Definition EPOLLOUT : Z := 4.

(** The callbacks of the servers. *)
Inductive NCALLBACK : Type := accept_cb_ | recv_cb_ | send_cb_.

(** [arg], always the reactor, is left out; [ext] holds the fields a protocol adds. *)
(* src: 4.1websocket/websocket_server.c:187-199 ntyevent *)
Record ntyevent (X : Type) : Type := NtyEvent {
  fd : Z;
  events : Z;
  callback : option NCALLBACK;
  status : Z;
  buffer : list Z;
  length_ : Z;
  last_active : Z;
  ext : X
}.
Arguments NtyEvent {X}.
Arguments fd {X}. Arguments events {X}. Arguments callback {X}. Arguments status {X}.
Arguments buffer {X}. Arguments length_ {X}. Arguments last_active {X}. Arguments ext {X}.

(* src: 4.1websocket/websocket_server.c:201-206 eventblock *)
Record eventblock : Type := EventBlock { next : Z; evs : Z }.

(** What the reactor calls: the zeroed fields, their value for a new connection, what
    is done with a request, how the reply is made, and what is sent after it. *)
Class Protocol (X : Type) := {
  ext0 : X;
  on_accept : X → X;
  request : ntyevent X → res (ntyevent X);
  respond : ntyevent X → res (ntyevent X);
  body : ntyevent X → option (list Z)
}.

(** What a protocol must leave alone: the fields the reactor itself relies on. *)
Definition same_control {X} (e e' : ntyevent X) : Prop :=
  fd e' = fd e ∧ events e' = events e ∧ callback e' = callback e ∧ status e' = status e ∧
  length (buffer e') = length (buffer e).

(** A protocol keeps those fields, and its only fault is to leave the bounds of an array. *)
Class ProtocolLaws (X : Type) `{Protocol X} := {
  request_same e e' : length (buffer e) = Z.to_nat BUFFER_LENGTH → request e = Ok e' → same_control e e';
  request_fault e x : request e = Err x → x = OutOfBounds;
  respond_same e e' : length (buffer e) = Z.to_nat BUFFER_LENGTH → respond e = Ok e' → same_control e e';
  respond_fault e x : respond e = Err x → x = OutOfBounds
}.

Module NtyReactor.

Section reactor.
Context {X : Type} `{Protocol X}.

(** ** State *)

(** The address of an event: its array and its index in it. *)
Definition ptr : Type := Z * Z.

(* src: 4.1websocket/websocket_server.c:208-212 ntyreactor *)
Record ntyreactor : Type := Reactor {
  blkcnt : Z;
  evblk : Z;
  blocks : gmap Z eventblock;
  arrays : gmap Z (list (ntyevent X));
  brk : Z;                (* the next address malloc gives *)
  mallocs : list bool * bool  (* whether the next calls of malloc succeed, and whether all later ones do *)
}.

(** An answer of [recv] is [None] for an error and empty when the peer has closed;
    an answer of [accept] is a descriptor, negative for an error, and whether making it
    non-blocking succeeds. *)
Record kernel : Type := Kernel {
  epoll : gmap Z (Z * ptr);
  now : Z;
  recvs : list (option (list Z));
  sends : list Z;
  accepts : list (Z * bool);
  sent : list (Z * list Z);
  closed : list Z
}.

Record world : Type := World { rx : ntyreactor; kn : kernel }.

Definition set_arrays R x := Reactor (blkcnt R) (evblk R) (blocks R) x (brk R) (mallocs R).
Definition set_epoll K x := Kernel x (now K) (recvs K) (sends K) (accepts K) (sent K) (closed K).
Definition set_recvs K x := Kernel (epoll K) (now K) x (sends K) (accepts K) (sent K) (closed K).
Definition set_sends K x := Kernel (epoll K) (now K) (recvs K) x (accepts K) (sent K) (closed K).
Definition set_accepts K x := Kernel (epoll K) (now K) (recvs K) (sends K) x (sent K) (closed K).
Definition add_sent K f d := Kernel (epoll K) (now K) (recvs K) (sends K) (accepts K) (sent K ++ [(f, d)]) (closed K).
(** Closing a descriptor takes it out of the epoll set. *)
Definition close_fd K f := Kernel (delete f (epoll K)) (now K) (recvs K) (sends K) (accepts K) (sent K) (closed K ++ [f]).

Definition zero_event : ntyevent X :=
  NtyEvent 0 0 None 0 (replicate (Z.to_nat BUFFER_LENGTH) 0) 0 0 ext0.

Definition malloc (R : ntyreactor) : option Z * ntyreactor :=
  let '(b, ms) := match mallocs R with ([], z) => (z, ([], z)) | (b :: l, z) => (b, (l, z)) end in
  if (b : bool) then (Some (brk R), Reactor (blkcnt R) (evblk R) (blocks R) (arrays R) (brk R + 1) ms)
  else (None, Reactor (blkcnt R) (evblk R) (blocks R) (arrays R) (brk R) ms).

(** Reading and writing an event through its address. *)
Definition ld (R : ntyreactor) (p : ptr) : res (ntyevent X) :=
  a ← get_or UseAfterFree (arrays R !! p.1); aget a p.2.
Definition st (R : ntyreactor) (p : ptr) (e : ntyevent X) : res ntyreactor :=
  a ← get_or UseAfterFree (arrays R !! p.1);
  a ← aset a p.2 e;
  Ok (set_arrays R (<[p.1 := a]> (arrays R))).

(** ** Blocks *)

Definition block (R : ntyreactor) (b : Z) : res eventblock :=
  if b =? 0 then Err NullDeref else get_or UseAfterFree (blocks R !! b).

(** [while (blk->next != NULL) blk = blk->next;] *)
Fixpoint last_block (fuel : nat) (R : ntyreactor) (b : Z) : res Z :=
  match fuel with
  | O => Err OutOfFuel
  | S fuel => k ← block R b; if next k =? 0 then Ok b else last_block fuel R (next k)
  end.

(* src: 4.1websocket/websocket_server.c:599-630 ntyreactor_alloc *)
Definition ntyreactor_alloc (R : ntyreactor) : res (Z * ntyreactor) :=
  if evblk R =? 0 then Ok (-1, R)
  else
    blk ← last_block (size (blocks R)) R (evblk R);
    let '(a, R) := malloc R in
    match a with
    | None => Ok (-2, R)
    | Some a =>
        let R := set_arrays R (<[a := replicate (Z.to_nat MAX_EPOLL_EVENTS) zero_event]> (arrays R)) in
        let '(b, R) := malloc R in
        match b with
        | None => Ok (-2, R)
        | Some b =>
            k ← block R blk;
            Ok (0, Reactor (blkcnt R + 1) (evblk R)
              (<[blk := EventBlock b (evs k)]> (<[b := EventBlock 0 a]> (blocks R)))
              (arrays R) (brk R) (mallocs R))
        end
    end.

(** [while (blkidx >= reactor->blkcnt) ntyreactor_alloc(reactor);]  When [malloc] fails for ever the loop
    has no end. *)
Fixpoint grow (fuel : nat) (R : ntyreactor) (blkidx : Z) : res ntyreactor :=
  match fuel with
  | O => Err OutOfFuel
  | S fuel =>
      if blkcnt R <=? blkidx then '(_, R) ← ntyreactor_alloc R; grow fuel R blkidx else Ok R
  end.

(** [while (i++ < blkidx && blk != NULL) blk = blk->next;] *)
Fixpoint skip_blocks (n : nat) (R : ntyreactor) (b : Z) : res Z :=
  match n with
  | O => Ok b
  | S n => if b =? 0 then Ok b else k ← block R b; skip_blocks n R (next k)
  end.

(** Division truncates towards zero. *)
(* src: 4.1websocket/websocket_server.c:632-647 ntyreactor_idx *)
Definition ntyreactor_idx (R : ntyreactor) (sockfd : Z) : res (ptr * ntyreactor) :=
  let blkidx := Z.quot sockfd MAX_EPOLL_EVENTS in
  R ← grow (S (Z.to_nat blkidx + length (mallocs R).1)) R blkidx;
  b ← skip_blocks (Z.to_nat blkidx) R (evblk R);
  k ← block R b;
  Ok ((evs k, Z.rem sockfd MAX_EPOLL_EVENTS), R).

(** [epfd] is the result of [epoll_create]; the other arguments are the state of the
    heap and of [malloc]. *)
(* src: 4.1websocket/websocket_server.c:650-682 ntyreactor_init *)
Definition ntyreactor_init (epfd : Z) (heap : Z) (ms : list bool * bool) : Z * ntyreactor :=
  let R := Reactor 0 0 ∅ ∅ heap ms in
  if epfd <=? 0 then (-2, R)
  else
    let '(a, R) := malloc R in
    match a with
    | None => (-2, R)
    | Some a =>
        let R := set_arrays R (<[a := replicate (Z.to_nat MAX_EPOLL_EVENTS) zero_event]> (arrays R)) in
        let '(b, R) := malloc R in
        match b with
        | None => (-2, R)
        | Some b => (0, Reactor 1 b (<[b := EventBlock 0 a]> (blocks R)) (arrays R) (brk R) (mallocs R))
        end
    end.

(** The loop over the blocks; freeing an array that is not allocated is a fault. *)
Fixpoint free_blocks (fuel : nat) (R : ntyreactor) (b : Z) : res ntyreactor :=
  match fuel with
  | O => Err OutOfFuel
  | S fuel =>
      if b =? 0 then Ok R
      else
        k ← block R b;
        _ ← get_or UseAfterFree (arrays R !! evs k);
        free_blocks fuel (Reactor (blkcnt R) (evblk R) (delete b (blocks R)) (delete (evs k) (arrays R))
          (brk R) (mallocs R)) (next k)
  end.

(* src: 4.1websocket/websocket_server.c:684-704 ntyreactor_destory *)
Definition ntyreactor_destory (R : ntyreactor) : res ntyreactor :=
  free_blocks (S (size (blocks R))) R (evblk R).

(** ** Events *)

(* src: 4.1websocket/websocket_server.c:220-230 nty_event_set *)
Definition nty_event_set (W : world) (p : ptr) (f : Z) (cb : NCALLBACK) : res world :=
  e ← ld (rx W) p;
  R ← st (rx W) p (NtyEvent f 0 (Some cb) (status e) (buffer e) (length_ e) (now (kn W)) (ext e));
  Ok (World R (kn W)).

(** [epoll_ctl] fails on changing an unknown descriptor and on adding a known one. *)
(* src: 4.1websocket/websocket_server.c:233-253 nty_event_add *)
Definition nty_event_add (W : world) (evts : Z) (p : ptr) : res (Z * world) :=
  e ← ld (rx W) p;
  let mod_ := status e =? 1 in
  R ← st (rx W) p (NtyEvent (fd e) evts (callback e) 1 (buffer e) (length_ e) (last_active e) (ext e));
  let known := bool_decide (is_Some (epoll (kn W) !! fd e)) in
  if Bool.eqb mod_ known
  then Ok (0, World R (set_epoll (kn W) (<[fd e := (evts, p)]> (epoll (kn W)))))
  else Ok (-1, World R (kn W)).

(* src: 4.1websocket/websocket_server.c:255-268 nty_event_del *)
Definition nty_event_del (W : world) (p : ptr) : res (Z * world) :=
  e ← ld (rx W) p;
  if negb (status e =? 1) then Ok (-1, W)
  else
    R ← st (rx W) p (NtyEvent (fd e) (events e) (callback e) 0 (buffer e) (length_ e) (last_active e) (ext e));
    Ok (0, World R (set_epoll (kn W) (delete (fd e) (epoll (kn W))))).

(** ** Callbacks *)

Definition set_ext (e : ntyevent X) (x : X) : ntyevent X :=
  NtyEvent (fd e) (events e) (callback e) (status e) (buffer e) (length_ e) (last_active e) x.
Definition set_buffer (e : ntyevent X) (b : list Z) (n : Z) : ntyevent X :=
  NtyEvent (fd e) (events e) (callback e) (status e) b n (last_active e) (ext e).

(** The end of a callback that waits for [evts] next. *)
Definition rearm (W : world) (p : ptr) (f : Z) (cb : NCALLBACK) (evts : Z) : res world :=
  '(_, W) ← nty_event_del W p;
  W ← nty_event_set W p f cb;
  '(_, W) ← nty_event_add W evts p;
  Ok W.

(* src: 4.1websocket/websocket_server.c:473-510 recv_cb *)
Definition recv_cb (W : world) (f : Z) : res (Z * world) :=
  '(p, R) ← ntyreactor_idx (rx W) f;
  let '(ans, l) := match recvs (kn W) with [] => (None, []) | a :: l => (a, l) end in
  let W := World R (set_recvs (kn W) l) in
  match ans with
  | Some (x :: data) =>
      let data := take (Z.to_nat BUFFER_LENGTH) (x :: data) in
      let len := Z.of_nat (length data) in
      e ← ld R p;
      b ← splice (buffer e) 0 data;
      b ← aset b len 0;
      e ← request (set_buffer e b len);
      R ← st R p e;
      W ← rearm (World R (kn W)) p f send_cb_ EPOLLOUT;
      Ok (len, W)
  | _ =>
      '(_, W) ← nty_event_del W p;
      e ← ld (rx W) p;
      Ok (match ans with Some _ => 0 | None => -1 end, World (rx W) (close_fd (kn W) (fd e)))
  end.

(** What follows a reply, with one call whose result is not looked at: the next answer says how much of it
    goes out, and no answer left means that the call fails. *)
(* src: 3.4http_server/webserver.c:319-319 sendfile *)
Definition send_body (K : kernel) (f : Z) (d : option (list Z)) : kernel :=
  match d with
  | None => K
  | Some d =>
      let '(ans, l) := match sends K with [] => (-1, []) | a :: l => (a, l) end in
      let K := set_sends K l in
      if 0 <? Z.min ans (Z.of_nat (length d)) then add_sent K f (take (Z.to_nat ans) d) else K
  end.

(** [send] takes at most the bytes given; no answer left means that it fails. *)
(* src: 4.1websocket/websocket_server.c:513-536 send_cb *)
Definition send_cb (W : world) (f : Z) : res (Z * world) :=
  '(p, R) ← ntyreactor_idx (rx W) f;
  e ← ld R p;
  e ← respond e;
  R ← st R p e;
  data ← slice (buffer e) 0 (length_ e);
  let '(ans, l) := match sends (kn W) with [] => (-1, []) | a :: l => (a, l) end in
  let n := Z.min ans (length_ e) in
  let K := set_sends (kn W) l in
  if 0 <? n then
    let K := send_body (add_sent K f (take (Z.to_nat n) data)) f (body e) in
    W ← rearm (World R K) p f recv_cb_ EPOLLIN;
    Ok (n, W)
  else
    '(_, W) ← nty_event_del (World R (close_fd K (fd e))) p;
    Ok (n, W).

(* src: 4.1websocket/websocket_server.c:538-576 accept_cb *)
Definition accept_cb (W : world) (f : Z) : res (Z * world) :=
  let '(c, nonblock, l) := match accepts (kn W) with [] => (-1, false, []) | (c, b) :: l => (c, b, l) end in
  let K := set_accepts (kn W) l in
  if c <? 0 then Ok (-1, World (rx W) K)
  else if negb nonblock then Ok (-1, World (rx W) K)
  else
    '(p, R) ← ntyreactor_idx (rx W) c;
    e ← ld R p;
    R ← st R p (set_ext e (on_accept (ext e)));
    W ← nty_event_set (World R K) p c recv_cb_;
    '(_, W) ← nty_event_add W EPOLLIN p;
    Ok (0, W).

Definition run_cb (c : option NCALLBACK) (W : world) (f : Z) : res world :=
  '(_, W) ← match c with
    | None => Err NullDeref
    | Some accept_cb_ => accept_cb W f
    | Some recv_cb_ => recv_cb W f
    | Some send_cb_ => send_cb W f
    end;
  Ok W.

(** ** The loop *)

(* src: 4.1websocket/websocket_server.c:708-720 ntyreactor_addlistener *)
Definition ntyreactor_addlistener (W : world) (sockfd : Z) (acceptor : NCALLBACK) : res (Z * world) :=
  if evblk (rx W) =? 0 then Ok (-1, W)
  else
    '(p, R) ← ntyreactor_idx (rx W) sockfd;
    W ← nty_event_set (World R (kn W)) p sockfd acceptor;
    '(_, W) ← nty_event_add W EPOLLIN p;
    Ok (0, W).

(** One report of [epoll_wait]: the event and what its descriptor is ready for. *)
Definition dispatch (W : world) (r : ptr * Z) : res world :=
  let '(p, m) := r in
  e ← ld (rx W) p;
  W ← (if negb (Z.land m EPOLLIN =? 0) && negb (Z.land (events e) EPOLLIN =? 0)
       then run_cb (callback e) W (fd e) else Ok W);
  e ← ld (rx W) p;
  if negb (Z.land m EPOLLOUT =? 0) && negb (Z.land (events e) EPOLLOUT =? 0)
  then run_cb (callback e) W (fd e) else Ok W.

Fixpoint dispatch_all (rs : list (ptr * Z)) (W : world) : res world :=
  match rs with
  | [] => Ok W
  | r :: rs => W ← dispatch W r; dispatch_all rs W
  end.

(** The reports of the successive calls of [epoll_wait]. *)
(* src: 4.1websocket/websocket_server.c:724-775 ntyreactor_run *)
Fixpoint ntyreactor_run (polls : list (list (ptr * Z))) (W : world) : res world :=
  match polls with
  | [] => Ok W
  | rs :: polls => W ← dispatch_all rs W; ntyreactor_run polls W
  end.

Fixpoint add_listeners (fds : list Z) (W : world) : res world :=
  match fds with
  | [] => Ok W
  | f :: fds => '(_, W) ← ntyreactor_addlistener W f accept_cb_; add_listeners fds W
  end.

(** [fds] are the results of [init_sock] for the ports. *)
(* src: 4.1websocket/websocket_server.c:779-807 main *)
Definition main (epfd heap : Z) (ms : list bool * bool) (K : kernel) (fds : list Z)
    (polls : list (list (ptr * Z))) : res ntyreactor :=
  let '(_, R) := ntyreactor_init epfd heap ms in
  W ← add_listeners fds (World R K);
  W ← (if evblk (rx W) =? 0 then Ok W else ntyreactor_run polls W);
  ntyreactor_destory (rx W).

(** ** The blocks as one array of events *)

(** The blocks [l] hold the arrays [asl]. *)
Record wf (R : ntyreactor) (l asl : list Z) : Prop := Wf {
  wf_chain : chain next (blocks R) (evblk R) l;
  wf_cnt : blkcnt R = Z.of_nat (length l);
  wf_ne : l ≠ [];
  wf_evs : Forall2 (λ b a, evs <$> blocks R !! b = Some a) l asl;
  wf_nodup : NoDup asl;
  wf_len : Forall (λ a, ∃ es, arrays R !! a = Some es ∧ length es = Z.to_nat MAX_EPOLL_EVENTS) asl;
  wf_brk : 0 < brk R;
  wf_fresh_l : Forall (λ b, b < brk R) l;
  wf_fresh_a : Forall (λ a, a < brk R) asl
}.

Definition rows (R : ntyreactor) (asl : list Z) : list (list (ntyevent X)) :=
  map (λ a, default [] (arrays R !! a)) asl.

(** The events of descriptors 0, 1, 2, ..., with a [malloc] that does not fail for ever. *)
Definition holds (R : ntyreactor) (asl : list Z) (es : list (ntyevent X)) : Prop :=
  es = concat (rows R asl) ∧ ∃ l, wf R l asl ∧ (mallocs R).2 = true.
Definition represents (R : ntyreactor) (es : list (ntyevent X)) : Prop := ∃ asl, holds R asl es.

(** The address of the event of descriptor [f]. *)
Definition slot (asl : list Z) (f : Z) (p : ptr) : Prop :=
  0 ≤ f ∧ asl !! Z.to_nat (f / MAX_EPOLL_EVENTS) = Some p.1 ∧ p.2 = f mod MAX_EPOLL_EVENTS.

Lemma rows_uniform R l asl : wf R l asl → Forall (λ r, length r = Z.to_nat MAX_EPOLL_EVENTS) (rows R asl).
Proof.
  intros Hw. apply Forall_map. eapply Forall_impl; [apply Hw|]. intros a (es & Ha & Hl). simpl. by rewrite Ha.
Qed.

Lemma slot_index f : 0 ≤ f → Z.to_nat f =
  (Z.to_nat (f / MAX_EPOLL_EVENTS) * Z.to_nat MAX_EPOLL_EVENTS + Z.to_nat (f mod MAX_EPOLL_EVENTS))%nat.
Proof. intros. unfold MAX_EPOLL_EVENTS. zdiv. Qed.

Lemma slot_row R l asl f p : wf R l asl → slot asl f p → ∃ r, arrays R !! p.1 = Some r ∧
  rows R asl !! Z.to_nat (f / MAX_EPOLL_EVENTS) = Some r ∧ length r = Z.to_nat MAX_EPOLL_EVENTS ∧
  0 ≤ p.2 < MAX_EPOLL_EVENTS.
Proof.
  intros Hw (Hf & Ha & Hp). pose proof (wf_len _ _ _ Hw) as Hl.
  destruct (Forall_lookup_1 _ _ _ _ Hl Ha) as (r & Hr & Hlr).
  exists r. split; [done|]. split.
  - unfold rows. change (map ?g asl) with (g <$> asl). rewrite list_lookup_fmap, Ha. simpl. by rewrite Hr.
  - split; [done|]. rewrite Hp. apply Z.mod_pos_bound. done.
Qed.

(** Reading an event. *)
Lemma ld_slot R asl es f p e : holds R asl es → slot asl f p → es !! Z.to_nat f = Some e → ld R p = Ok e.
Proof.
  intros [-> [l [Hw Hmem]]] Hs He. destruct (slot_row _ _ _ _ _ Hw Hs) as (r & Hr & Hrow & Hl & Hp).
  pose proof Hs as (Hf & _ & Hp2). rewrite (slot_index f Hf) in He.
  rewrite (concat_lookup_rows (Z.to_nat MAX_EPOLL_EVENTS)) with (l := r) in He;
    [|by eapply rows_uniform|done|unfold MAX_EPOLL_EVENTS; zdiv].
  unfold ld. rewrite Hr. cbn [mbind res_bind get_or]. rewrite <-Hp2 in He. rewrite <-(Z2Nat.id p.2) by lia.
  by apply aget_ok.
Qed.

(** Writing an event changes it and no other. *)
Lemma st_slot R asl es f p e : holds R asl es → slot asl f p → ∃ R',
  st R p e = Ok R' ∧ holds R' asl (<[Z.to_nat f := e]> es) ∧ blkcnt R' = blkcnt R ∧ mallocs R' = mallocs R ∧
  evblk R' = evblk R.
Proof.
  intros [-> [l [Hw Hmem]]] Hs. destruct (slot_row _ _ _ _ _ Hw Hs) as (r & Hr & Hrow & Hl & Hp).
  pose proof Hs as (Hf & Ha & Hp2). unfold st. rewrite Hr. cbn [mbind res_bind get_or]. unfold aset.
  rewrite (proj2 (Z.leb_le _ _)), (proj2 (Z.ltb_lt _ _)) by lia. cbn [andb mbind res_bind].
  eexists. split; [done|]. split; [|done]. split.
  - rewrite (slot_index f Hf). rewrite <-(concat_insert_rows (Z.to_nat MAX_EPOLL_EVENTS)) with (l := r);
      [|by eapply rows_uniform|done|unfold MAX_EPOLL_EVENTS; zdiv].
    f_equal. rewrite <-Hp2. unfold rows. simpl. apply list_eq. intros j.
    change (map ?g asl) with (g <$> asl).
    destruct (decide (Z.to_nat (f / MAX_EPOLL_EVENTS) = j)) as [<-|Hj].
    + rewrite list_lookup_insert_eq by (rewrite length_fmap; by eapply lookup_lt_Some).
      rewrite list_lookup_fmap, Ha. simpl. by rewrite lookup_insert_eq.
    + rewrite list_lookup_insert_ne by done. rewrite !list_lookup_fmap.
      destruct (asl !! j) as [a|] eqn:Haj; simpl; [|done].
      rewrite lookup_insert_ne; [done|]. intros <-.
      by pose proof (NoDup_lookup _ _ _ _ (wf_nodup _ _ _ Hw) Ha Haj).
  - exists l. split; [|done]. pose proof (wf_len _ _ _ Hw) as Hwl. destruct Hw. split; try done. simpl.
    eapply Forall_impl; [exact Hwl|]. intros a (es & Haes & Hles).
    destruct (decide (a = p.1)) as [->|Hne].
    + rewrite lookup_insert_eq. eexists. split; [done|]. by rewrite length_insert.
    + rewrite lookup_insert_ne by done. by exists es.
Qed.

(** ** Growing *)

Lemma last_block_spec fuel : ∀ R l b z, chain next (blocks R) b (l ++ [z]) → (length l < fuel)%nat →
  last_block fuel R b = Ok z.
Proof.
  induction fuel as [|fuel IH]; intros R l b z Hc Hf; [lia|]. cbn [last_block]. unfold block.
  destruct l as [|x l]; destruct Hc as (-> & H0 & v & Hv & Hc); rewrite (proj2 (Z.eqb_neq _ _) H0), Hv;
    cbn [mbind res_bind get_or].
  - by rewrite (proj2 (Z.eqb_eq _ _) Hc).
  - assert (next v ≠ 0) as Hn by (destruct l; by destruct Hc as (-> & ? & _)).
    rewrite (proj2 (Z.eqb_neq _ _) Hn). apply (IH R l); [done|]. simpl in Hf. lia.
Qed.

Lemma skip_blocks_spec n : ∀ R l b x, chain next (blocks R) b l → l !! n = Some x → skip_blocks n R b = Ok x.
Proof.
  induction n as [|n IH]; intros R [|y l] b x Hc Hn; simplify_eq/=.
  - by destruct Hc as (-> & _).
  - destruct Hc as (-> & H0 & v & Hv & Hc). unfold block. rewrite (proj2 (Z.eqb_neq _ _) H0), Hv.
    cbn [mbind res_bind get_or]. by eapply IH.
Qed.

Lemma wf_blk_neq0 R l asl : wf R l asl → evblk R ≠ 0.
Proof. intros Hw. pose proof (wf_ne _ _ _ Hw). pose proof (wf_chain _ _ _ Hw) as Hc. destruct l; [done|]. by destruct Hc as (-> & ? & _). Qed.

(** What adding a block does: nothing when [malloc] fails, else new zeroed events at the end. *)
Lemma wf_fail R l asl brk' ms arrays' : wf R l asl → brk R ≤ brk' →
  (∀ a, a ∈ asl → arrays' !! a = arrays R !! a) →
  let R' := Reactor (blkcnt R) (evblk R) (blocks R) arrays' brk' ms in
  wf R' l asl ∧ rows R' asl = rows R asl.
Proof.
  intros [] Hb Ha. split; [split; try done; simpl|].
  - apply Forall_forall. intros a Hin. rewrite Ha by done. by apply (proj1 (Forall_forall _ _) wf_len0).
  - lia.
  - eapply Forall_impl; [exact wf_fresh_l0|]. simpl. lia.
  - eapply Forall_impl; [exact wf_fresh_a0|]. simpl. lia.
  - unfold rows. apply map_ext_in. intros a Hin. simpl. by rewrite Ha by (by apply list_elem_of_In).
Qed.

Definition grown (R : ntyreactor) (a b blk : Z) (k : eventblock) (ms : list bool * bool) : ntyreactor :=
  Reactor (blkcnt R + 1) (evblk R) (<[blk := EventBlock b (evs k)]> (<[b := EventBlock 0 a]> (blocks R)))
    (<[a := replicate (Z.to_nat MAX_EPOLL_EVENTS) zero_event]> (arrays R)) (b + 1) ms.

Lemma wf_grown R l z asl k ms : let a := brk R in let b := brk R + 1 in
  wf R (l ++ [z]) asl → blocks R !! z = Some k →
  let R' := grown R a b z k ms in
  wf R' (l ++ [z; b]) (asl ++ [a]) ∧
  rows R' (asl ++ [a]) = rows R asl ++ [replicate (Z.to_nat MAX_EPOLL_EVENTS) zero_event].
Proof.
  intros a b Hw Hk R'. destruct Hw.
  apply Forall_app in wf_fresh_l0 as [Hfl Hfz]. apply Forall_cons in Hfz as [Hfz _].
  assert (Ha : a ∉ asl) by (intros Hin; apply (proj1 (Forall_forall _ _) wf_fresh_a0) in Hin; subst a; lia).
  assert (Hb : ∀ x, x ∈ l ∨ x = z → x ≠ b).
  { intros x [Hx| ->]; [apply (proj1 (Forall_forall _ _) Hfl) in Hx|]; subst b; lia. }
  pose proof (chain_NoDup _ _ _ _ wf_chain0) as Hnd.
  assert (Hz : z ∉ l) by (intros Hin; apply NoDup_app in Hnd as (_ & Hnd & _); apply (Hnd z Hin); by left).
  assert (Hold : ∀ x, x ∈ l → blocks R' !! x = blocks R !! x).
  { intros x Hx. simpl. rewrite lookup_insert_ne by (by intros <-).
    by rewrite lookup_insert_ne by (intros E; apply (Hb x); [by left|done]). }
  split; [split; unfold R', grown; cbn [blkcnt evblk blocks arrays brk mallocs]; try done|].
  - apply (chain_snoc next (blocks R) _ (evblk R) l z b (EventBlock b (evs k)) (EventBlock 0 a));
      try done; [intros x Hx; by rewrite <-Hold|by rewrite lookup_insert_eq|subst b; lia|].
    rewrite lookup_insert_ne by (apply Hb; by right). by rewrite lookup_insert_eq.
  - rewrite wf_cnt0, !length_app. simpl. lia.
  - by destruct l.
  - rewrite (cons_middle z), app_assoc. apply Forall2_app; [|constructor; [|constructor]].
    + eapply Forall2_impl_in; [exact wf_evs0|]. simpl. intros x y Hx Hxy.
      apply elem_of_app in Hx as [Hx|Hx%list_elem_of_singleton].
      * pose proof (Hold x Hx) as E. simpl in E. by rewrite E.
      * subst x. rewrite lookup_insert_eq. rewrite Hk in Hxy. done.
    + rewrite lookup_insert_ne by (apply Hb; by right). by rewrite lookup_insert_eq.
  - apply NoDup_app. split; [done|]. split; [|apply NoDup_singleton]. by intros x Hx ->%list_elem_of_singleton.
  - apply Forall_app. split; [|constructor; [|constructor]].
    + apply Forall_forall. intros x Hx. rewrite lookup_insert_ne by (by intros <-).
      by apply (proj1 (Forall_forall _ _) wf_len0).
    + rewrite lookup_insert_eq. eexists. split; [done|]. by rewrite length_replicate.
  - subst b. lia.
  - apply Forall_app. split; [eapply Forall_impl; [exact Hfl|simpl; subst b; lia]|].
    repeat constructor; subst b; lia.
  - apply Forall_app. split; [eapply Forall_impl; [exact wf_fresh_a0|simpl; subst b; lia]|].
    repeat constructor; subst a b; lia.
  - unfold rows, R', grown. cbn [arrays]. rewrite map_app. cbn [map]. rewrite lookup_insert_eq. f_equal.
    apply map_ext_in. intros x Hx%list_elem_of_In. by rewrite lookup_insert_ne by (by intros <-).
Qed.

Lemma malloc_inv R : ∃ (o : option Z) (ms : list bool * bool), ms.2 = (mallocs R).2 ∧ (length ms.1 ≤ length (mallocs R).1)%nat ∧
  malloc R = (o, Reactor (blkcnt R) (evblk R) (blocks R) (arrays R) (brk R + match o with Some _ => 1 | None => 0 end) ms) ∧
  match o with
  | Some a => a = brk R
  | None => (mallocs R).2 = true → (length ms.1 < length (mallocs R).1)%nat
  end.
Proof.
  exists (malloc R).1, (mallocs (malloc R).2). unfold malloc.
  destruct (mallocs R) as [[|[] l] []]; simpl; split_and!; try done; try lia; by rewrite Z.add_0_r.
Qed.

Lemma alloc_spec R l asl : wf R l asl → (mallocs R).2 = true → ∃ r R', ntyreactor_alloc R = Ok (r, R') ∧
  (mallocs R').2 = true ∧
  ((wf R' l asl ∧ rows R' asl = rows R asl ∧ (length (mallocs R').1 < length (mallocs R).1)%nat) ∨
   (∃ l' a, wf R' l' (asl ++ [a]) ∧ (length (mallocs R').1 ≤ length (mallocs R).1)%nat ∧
     rows R' (asl ++ [a]) = rows R asl ++ [replicate (Z.to_nat MAX_EPOLL_EVENTS) zero_event])).
Proof.
  intros Hw Hmem. unfold ntyreactor_alloc. rewrite (proj2 (Z.eqb_neq _ _) (wf_blk_neq0 _ _ _ Hw)).
  pose proof (wf_chain _ _ _ Hw) as Hc. pose proof (chain_length _ _ _ _ Hc) as Hsz.
  destruct l as [|z l _] using rev_ind; [by destruct (wf_ne _ _ _ Hw)|]. rewrite length_app in Hsz. simpl in Hsz.
  rewrite (last_block_spec _ R l _ z) by (done || lia). cbn [mbind res_bind].
  destruct (chain_dom _ _ _ _ z Hc) as (Hz0 & k & Hk); [in_list|].
  assert (Hfr : ∀ a, a ∈ asl → brk R ≠ a).
  { intros a Ha. pose proof (proj1 (Forall_forall _ _) (wf_fresh_a _ _ _ Hw) a Ha). simpl in *. lia. }
  destruct (malloc_inv R) as (o & ms1 & H2 & H3 & E1 & H4). rewrite E1. destruct o as [a|].
  - subst a. destruct (malloc_inv (set_arrays (Reactor (blkcnt R) (evblk R) (blocks R) (arrays R) (brk R + 1) ms1)
      (<[brk R := replicate (Z.to_nat MAX_EPOLL_EVENTS) zero_event]> (arrays R)))) as (o & ms2 & H6 & H7 & E2 & H8).
    cbn [set_arrays mallocs blkcnt evblk blocks arrays brk] in *. rewrite E2. destruct o as [b|].
    + subst b. unfold block. cbn [blocks]. rewrite (proj2 (Z.eqb_neq _ _) Hz0), Hk. cbn [mbind res_bind get_or].
      eexists 0, _. split; [done|]. split; [cbn; congruence|]. right.
      destruct (wf_grown R l z asl k ms2 Hw Hk) as [Hg1 Hg2].
      exists (l ++ [z; brk R + 1]), (brk R). split_and!; [exact Hg1|cbn; lia|exact Hg2].
    + eexists (-2), _. split; [done|]. split; [cbn; congruence|]. left.
      destruct (wf_fail R _ _ (brk R + 1 + 0) ms2 (<[brk R := replicate (Z.to_nat MAX_EPOLL_EVENTS) zero_event]> (arrays R)) Hw)
        as [Hf1 Hf2]; [lia|intros a Ha; by apply lookup_insert_ne, Hfr|].
      split_and!; [exact Hf1|exact Hf2|cbn; specialize (H8 ltac:(congruence)); lia].
  - eexists (-2), _. split; [done|]. split; [cbn; congruence|]. left.
    destruct (wf_fail R _ _ (brk R + 0) ms1 (arrays R) Hw) as [Hf1 Hf2]; [lia|done|].
    split_and!; [exact Hf1|exact Hf2|cbn; specialize (H4 Hmem); lia].
Qed.

Lemma grow_spec fuel : ∀ R l asl k, wf R l asl → (mallocs R).2 = true →
  (length (mallocs R).1 + Z.to_nat (k + 1 - blkcnt R) < fuel)%nat → ∃ R' asl' n,
  grow fuel R k = Ok R' ∧ (∃ l', wf R' l' (asl ++ asl') ∧ (mallocs R').2 = true) ∧ k < blkcnt R' ∧
  rows R' (asl ++ asl') = rows R asl ++ replicate n (replicate (Z.to_nat MAX_EPOLL_EVENTS) zero_event).
Proof.
  induction fuel as [|fuel IH]; intros R l asl k Hw Hmem Hf; [lia|]. cbn [grow].
  destruct (Z.leb_spec (blkcnt R) k) as [Hle|Hgt]; last first.
  { exists R, [], 0%nat. rewrite !app_nil_r. split; [done|]. split; [by exists l|done]. }
  destruct (alloc_spec R l asl Hw) as (r & R1 & -> & Hmem1 & [(Hw1 & Hr & Hm)|(l1 & a & Hw1 & Hm & Hr)]); [done|..]; cbn [mbind res_bind].
  - assert (blkcnt R1 = blkcnt R) as Hb by (by rewrite (wf_cnt _ _ _ Hw), (wf_cnt _ _ _ Hw1)).
    destruct (IH R1 l asl k Hw1 Hmem1 ltac:(lia)) as (R' & asl' & n & -> & H1 & H2 & H3).
    exists R', asl', n. by rewrite <-Hr.
  - assert (blkcnt R1 = blkcnt R + 1) as Hb.
    { rewrite (wf_cnt _ _ _ Hw), (wf_cnt _ _ _ Hw1).
      rewrite (Forall2_length _ _ _ (wf_evs _ _ _ Hw)), (Forall2_length _ _ _ (wf_evs _ _ _ Hw1)), length_app. simpl. lia. }
    destruct (IH R1 l1 (asl ++ [a]) k Hw1 Hmem1 ltac:(lia)) as (R' & asl' & n & -> & H1 & H2 & H3).
    exists R', (a :: asl'), (S n). rewrite <-app_assoc in H1, H3. split; [done|]. split; [done|]. split; [done|].
    simpl in H3. rewrite H3, Hr, <-app_assoc. done.
Qed.

Lemma idx_spec R asl es f : holds R asl es → 0 ≤ f → ∃ p R' asl' n,
  ntyreactor_idx R f = Ok (p, R') ∧ holds R' (asl ++ asl') (es ++ replicate n zero_event) ∧
  slot (asl ++ asl') f p ∧ (Z.to_nat f < length (es ++ replicate n zero_event))%nat.
Proof.
  intros [-> [l [Hw Hmem]]] Hf. unfold ntyreactor_idx.
  rewrite Z.quot_div_nonneg, Z.rem_mod_nonneg by (done || unfold MAX_EPOLL_EVENTS; lia).
  assert (0 ≤ f / MAX_EPOLL_EVENTS) as Hk by (unfold MAX_EPOLL_EVENTS; zdiv).
  set (k := f / MAX_EPOLL_EVENTS) in *. pose proof (wf_cnt _ _ _ Hw). pose proof (wf_ne _ _ _ Hw).
  destruct (grow_spec (S (Z.to_nat k + length (mallocs R).1)) R l asl k Hw Hmem) as
    (R' & asl' & n & -> & (l' & Hw' & Hmem') & Hlt & Hr); [destruct l; [done|simpl in *; lia]|].
  cbn [mbind res_bind]. pose proof (wf_cnt _ _ _ Hw') as Hcnt.
  destruct (lookup_lt_is_Some_2 l' (Z.to_nat k)) as [b Hb]; [lia|].
  rewrite (skip_blocks_spec _ R' l' _ b (wf_chain _ _ _ Hw') Hb). cbn [mbind res_bind].
  destruct (Forall2_lookup_l _ _ _ _ _ (wf_evs _ _ _ Hw') Hb) as (a & Ha & Hba).
  destruct (chain_dom _ _ _ _ b (wf_chain _ _ _ Hw')) as (Hb0 & v & Hv); [by eapply list_elem_of_lookup_2|].
  rewrite Hv in Hba. injection Hba as Hba. unfold block. rewrite (proj2 (Z.eqb_neq _ _) Hb0), Hv.
  cbn [mbind res_bind get_or]. rewrite Hba.
  assert (Hc : concat (rows R' (asl ++ asl')) =
    concat (rows R asl) ++ replicate (n * Z.to_nat MAX_EPOLL_EVENTS) zero_event).
  { rewrite Hr, concat_app. f_equal. clear. induction n as [|n IH]; [done|]. cbn [replicate concat Nat.mul].
    by rewrite IH, replicate_add. }
  eexists _, R', asl', (n * Z.to_nat MAX_EPOLL_EVENTS)%nat. split; [done|]. rewrite <-Hc.
  split; [split; [done|by exists l']|]. split; [done|].
  rewrite (concat_length_rows (Z.to_nat MAX_EPOLL_EVENTS)) by (by eapply rows_uniform).
  unfold rows. rewrite length_map, <-(Forall2_length _ _ _ (wf_evs _ _ _ Hw')). clear -Hlt Hcnt Hk Hf.
  subst k. unfold MAX_EPOLL_EVENTS in *. zdiv.
Qed.

(** ** Events and the epoll set *)

Definition interest (c : NCALLBACK) : Z := match c with send_cb_ => EPOLLOUT | _ => EPOLLIN end.

(** Event [e] of descriptor [f], at [p], is in the epoll set [m] exactly when its status
    is 1, and then with its own descriptor, callback and interest. *)
Definition registered (m : gmap Z (Z * ptr)) (f : Z) (p : ptr) (e : ntyevent X) : Prop :=
  status e = 1 ∧ fd e = f ∧ (∃ c, callback e = Some c ∧ events e = interest c) ∧ m !! f = Some (events e, p).

Record inv (W : world) (asl : list Z) (es : list (ntyevent X)) : Prop := Inv {
  inv_holds : holds (rx W) asl es;
  inv_buf : Forall (λ e, length (buffer e) = Z.to_nat BUFFER_LENGTH) es;
  inv_status f e : es !! Z.to_nat f = Some e → 0 ≤ f →
    (status e = 0 ∧ epoll (kn W) !! f = None) ∨ (∃ p, slot asl f p ∧ registered (epoll (kn W)) f p e);
  inv_epoll f x : epoll (kn W) !! f = Some x → 0 ≤ f ∧ is_Some (es !! Z.to_nat f)
}.

Lemma slot_app asl asl' f p : slot asl f p → slot (asl ++ asl') f p.
Proof. intros (Hf & Ha & Hp). split_and!; [done|by apply lookup_app_l_Some|done]. Qed.

Lemma slot_unique asl f p q : slot asl f p → slot asl f q → p = q.
Proof. intros (_ & Ha & Hp) (_ & Hb & Hq). destruct p, q; simpl in *; congruence. Qed.

(** The kernel's answers do not matter. *)
Lemma inv_kernel W asl es K : inv W asl es → epoll K = epoll (kn W) → inv (World (rx W) K) asl es.
Proof. intros [] HK. split; simpl; rewrite ?HK; done. Qed.

Lemma inv_idx W asl es f : inv W asl es → 0 ≤ f → ∃ p R' asl' n,
  ntyreactor_idx (rx W) f = Ok (p, R') ∧ slot (asl ++ asl') f p ∧
  (Z.to_nat f < length (es ++ replicate n zero_event))%nat ∧
  inv (World R' (kn W)) (asl ++ asl') (es ++ replicate n zero_event).
Proof.
  intros [Hh Hb Hs He] Hf. destruct (idx_spec (rx W) asl es f Hh Hf) as (p & R' & asl' & n & Hi & Hh' & Hsl & Hlt).
  exists p, R', asl', n. split; [done|]. split; [done|]. split; [done|]. split; simpl; [done| | |].
  - apply Forall_app. split; [done|]. apply Forall_replicate. apply length_replicate.
  - intros g e Hg Hg0. destruct (decide (Z.to_nat g < length es)%nat) as [Hlt'|Hge].
    + rewrite lookup_app_l in Hg by done. destruct (Hs g e Hg Hg0) as [?|(q & Hq & Hr)]; [by left|].
      right. exists q. split; [by apply slot_app|done].
    + left. rewrite lookup_app_r in Hg by lia. apply lookup_replicate in Hg as [-> _]. split; [done|].
      destruct (epoll (kn W) !! g) as [x|] eqn:Hx; [|done]. apply He in Hx as [_ [y Hy]].
      apply lookup_lt_Some in Hy. lia.
  - intros g x Hx. destruct (He g x Hx) as [H0 [e Hy]]. split; [done|]. exists e. by apply lookup_app_l_Some.
Qed.

(** Writing event [f] and its entry of the epoll set. *)
Lemma inv_update W asl es f p e' K : inv W asl es → slot asl f p → (Z.to_nat f < length es)%nat →
  length (buffer e') = Z.to_nat BUFFER_LENGTH →
  (status e' = 0 ∧ epoll K = delete f (epoll (kn W))) ∨
  (registered (epoll K) f p e' ∧ epoll K = <[f := (events e', p)]> (epoll (kn W))) →
  ∃ R', st (rx W) p e' = Ok R' ∧ inv (World R' K) asl (<[Z.to_nat f := e']> es).
Proof.
  intros [Hh Hb Hs He] Hsl Hlt Hbuf HK. pose proof Hsl as [Hf0 _].
  destruct (st_slot (rx W) asl es f p e' Hh Hsl) as (R' & Hst & Hh' & _). exists R'. split; [done|].
  assert (Hoth : ∀ g, g ≠ f → epoll K !! g = epoll (kn W) !! g).
  { intros g Hg. destruct HK as [[_ ->]|[_ ->]]; [by rewrite lookup_delete_ne|by rewrite lookup_insert_ne]. }
  split; simpl; [done|by apply Forall_insert| |].
  - intros g e Hg Hg0. destruct (decide (g = f)) as [->|Hne].
    + rewrite list_lookup_insert_eq in Hg by done. injection Hg as <-.
      destruct HK as [[H0 ->]|[Hr _]]; [left; by rewrite lookup_delete_eq|right; by exists p].
    + rewrite list_lookup_insert_ne in Hg by lia. unfold registered. rewrite (Hoth g Hne). by apply Hs.
  - intros g x Hx. destruct (decide (g = f)) as [->|Hne].
    + split; [done|]. rewrite list_lookup_insert_eq by done. eauto.
    + rewrite (Hoth g Hne) in Hx. apply He in Hx as [? Hx]. split; [done|]. by rewrite list_lookup_insert_ne by lia.
Qed.

Definition set_status (e : ntyevent X) (z : Z) : ntyevent X :=
  NtyEvent (fd e) (events e) (callback e) z (buffer e) (length_ e) (last_active e) (ext e).

Lemma del_spec W asl es f p e : inv W asl es → slot asl f p → es !! Z.to_nat f = Some e → ∃ z W',
  nty_event_del W p = Ok (z, W') ∧ inv W' asl (<[Z.to_nat f := set_status e 0]> es) ∧
  kn W' = set_epoll (kn W) (delete f (epoll (kn W))).
Proof.
  intros HI Hsl He. pose proof Hsl as [Hf0 _]. unfold nty_event_del.
  rewrite (ld_slot _ _ _ _ _ _ (inv_holds _ _ _ HI) Hsl He). cbn [mbind res_bind].
  destruct (inv_status _ _ _ HI f e He Hf0) as [[H0 Hn]|(q & Hq & H1 & Hfd & Hc & Hep)].
  - rewrite H0. exists (-1), W. split; [done|]. rewrite (delete_id _ _ Hn). rewrite list_insert_id.
    + split; [done|]. by destruct W as [R []].
    + rewrite He. f_equal. destruct e. unfold set_status. simpl in *. by rewrite H0.
  - rewrite H1, Hfd. cbn [negb Z.eqb Pos.eqb].
    destruct (inv_update W asl es f p (set_status e 0) (set_epoll (kn W) (delete f (epoll (kn W)))) HI Hsl)
      as (R' & Hst & HI'); [by eapply lookup_lt_Some| |by left|].
    { exact (Forall_lookup_1 _ _ _ _ (inv_buf _ _ _ HI) He). }
    unfold set_status in Hst. rewrite Hfd in Hst. rewrite Hst. cbn [mbind res_bind]. by eexists 0, _.
Qed.

Lemma set_spec W asl es f p e g cb : inv W asl es → slot asl f p → es !! Z.to_nat f = Some e → status e = 0 → ∃ W',
  nty_event_set W p g cb = Ok W' ∧ kn W' = kn W ∧
  inv W' asl (<[Z.to_nat f := NtyEvent g 0 (Some cb) 0 (buffer e) (length_ e) (now (kn W)) (ext e)]> es).
Proof.
  intros HI Hsl He H0. pose proof Hsl as [Hf0 _]. unfold nty_event_set.
  rewrite (ld_slot _ _ _ _ _ _ (inv_holds _ _ _ HI) Hsl He). cbn [mbind res_bind]. rewrite H0.
  assert (Hn : epoll (kn W) !! f = None).
  { destruct (inv_status _ _ _ HI f e He Hf0) as [[_ ?]|(q & _ & H1 & _)]; [done|lia]. }
  destruct (inv_update W asl es f p (NtyEvent g 0 (Some cb) 0 (buffer e) (length_ e) (now (kn W)) (ext e)) (kn W) HI Hsl)
    as (R' & Hst & HI'); [by eapply lookup_lt_Some| | |].
  - exact (Forall_lookup_1 _ _ _ _ (inv_buf _ _ _ HI) He).
  - left. by rewrite (delete_id _ _ Hn).
  - rewrite Hst. cbn [mbind res_bind]. by eexists.
Qed.

Lemma add_spec W asl es f p e c : inv W asl es → slot asl f p → es !! Z.to_nat f = Some e → status e = 0 →
  fd e = f → callback e = Some c → ∃ W',
  nty_event_add W (interest c) p = Ok (0, W') ∧
  kn W' = set_epoll (kn W) (<[f := (interest c, p)]> (epoll (kn W))) ∧
  inv W' asl (<[Z.to_nat f := NtyEvent f (interest c) (Some c) 1 (buffer e) (length_ e) (last_active e) (ext e)]> es).
Proof.
  intros HI Hsl He H0 Hfd Hc. pose proof Hsl as [Hf0 _]. unfold nty_event_add.
  rewrite (ld_slot _ _ _ _ _ _ (inv_holds _ _ _ HI) Hsl He). cbn [mbind res_bind]. rewrite H0, Hfd, Hc.
  assert (Hn : epoll (kn W) !! f = None).
  { destruct (inv_status _ _ _ HI f e He Hf0) as [[_ ?]|(q & _ & H1 & _)]; [done|lia]. }
  set (K := set_epoll (kn W) (<[f := (interest c, p)]> (epoll (kn W)))).
  destruct (inv_update W asl es f p (NtyEvent f (interest c) (Some c) 1 (buffer e) (length_ e) (last_active e) (ext e)) K HI Hsl)
    as (R' & Hst & HI'); [by eapply lookup_lt_Some| | |].
  - exact (Forall_lookup_1 _ _ _ _ (inv_buf _ _ _ HI) He).
  - right. split; [|done]. split_and!; try done; [by exists c|]. simpl. by rewrite lookup_insert_eq.
  - rewrite Hst. cbn [mbind res_bind]. rewrite bool_decide_eq_false_2 by (rewrite Hn; by intros []).
    by eexists.
Qed.

Lemma rearm_spec W asl es f p e c : inv W asl es → slot asl f p → es !! Z.to_nat f = Some e → ∃ W',
  rearm W p f c (interest c) = Ok W' ∧
  kn W' = set_epoll (kn W) (<[f := (interest c, p)]> (epoll (kn W))) ∧
  inv W' asl (<[Z.to_nat f := NtyEvent f (interest c) (Some c) 1 (buffer e) (length_ e) (now (kn W)) (ext e)]> es).
Proof.
  intros HI Hsl He. pose proof (lookup_lt_Some _ _ _ He) as Hlt. unfold rearm.
  destruct (del_spec W asl es f p e HI Hsl He) as (z & W1 & -> & HI1 & HK1). cbn [mbind res_bind].
  destruct (set_spec W1 asl _ f p (set_status e 0) f c HI1 Hsl) as (W2 & -> & HK2 & HI2);
    [by rewrite list_lookup_insert_eq|done|]. cbn [mbind res_bind].
  rewrite list_insert_insert_eq in HI2.
  destruct (add_spec W2 asl _ f p (NtyEvent f 0 (Some c) 0 (buffer e) (length_ e) (now (kn W1)) (ext e)) c HI2 Hsl)
    as (W3 & -> & HK3 & HI3); [by rewrite list_lookup_insert_eq|done|done|done|]. cbn [mbind res_bind].
  rewrite list_insert_insert_eq in HI3. exists W3. split; [done|]. rewrite HK3, HK2, HK1. split.
  - unfold set_epoll. cbn [epoll now recvs sends accepts sent closed]. by rewrite insert_delete_eq.
  - revert HI3. by rewrite HK1.
Qed.

(** Writing an event whose control fields are those it had. *)
Lemma upd_same W asl es f p e e' K : inv W asl es → slot asl f p → es !! Z.to_nat f = Some e →
  same_control e e' → epoll K = epoll (kn W) → ∃ R',
  st (rx W) p e' = Ok R' ∧ inv (World R' K) asl (<[Z.to_nat f := e']> es).
Proof.
  intros HI Hsl He (Hfd & Hev & Hcb & Hst & Hbuf) HK. pose proof Hsl as [Hf0 _].
  apply inv_update; try done; [by eapply lookup_lt_Some| |].
  - rewrite Hbuf. exact (Forall_lookup_1 _ _ _ _ (inv_buf _ _ _ HI) He).
  - rewrite HK. destruct (inv_status _ _ _ HI f e He Hf0) as [[H0 Hn]|(q & Hq & H1 & Hf & Hc & Hep)].
    + left. rewrite Hst. split; [done|]. by rewrite delete_id.
    + right. rewrite (slot_unique _ _ _ _ Hsl Hq). unfold registered. rewrite Hst, Hfd, Hcb, Hev.
      split; [done|]. by rewrite insert_id.
Qed.

Lemma same_control_buffer e b n e' : same_control (set_buffer e b n) e' → length b = length (buffer e) → same_control e e'.
Proof. intros (?&?&?&?&Hl) Hb. split_and!; try done. rewrite Hl. exact Hb. Qed.

Lemma inv_ld R K asl es f p e : inv (World R K) asl es → slot asl f p → es !! Z.to_nat f = Some e → ld R p = Ok e.
Proof. intros HI. apply (ld_slot R). apply (inv_holds _ _ _ HI). Qed.

(** ** The callbacks *)

Context `{!ProtocolLaws X}.

(** A callback of descriptor [f] ends in a consistent state, where [f] is still
    registered or no longer writable, or leaves the bounds of an array. *)
Definition safe_after (asl : list Z) (f : Z) (r : res (Z * world)) : Prop :=
  match r with
  | Ok (_, W') => ∃ asl' es' e', inv W' (asl ++ asl') es' ∧ es' !! Z.to_nat f = Some e' ∧
      (status e' = 1 ∨ Z.land (events e') EPOLLOUT = 0)
  | Err x => x = OutOfBounds
  end.

Lemma safe_oob asl f : safe_after asl f (Err OutOfBounds).
Proof. done. Qed.

(** The end of a connection. *)
Lemma hang_up_spec W asl es f p e : inv W asl es → slot asl f p → es !! Z.to_nat f = Some e → ∃ z W',
  nty_event_del W p = Ok (z, W') ∧
  inv (World (rx W') (close_fd (kn W') f)) asl (<[Z.to_nat f := set_status e 0]> es) ∧
  ld (rx W') p = Ok (set_status e 0).
Proof.
  intros HI Hsl He. destruct (del_spec W asl es f p e HI Hsl He) as (z & W' & -> & HI' & HK).
  exists z, W'. split; [done|]. split.
  - apply inv_kernel; [done|]. rewrite HK. simpl. by rewrite delete_delete_eq.
  - eapply ld_slot; [apply HI'|done|]. apply list_lookup_insert_eq. by eapply lookup_lt_Some.
Qed.

(** A request that is read, and what is registered then. *)
Lemma recv_cb_step W asl es f e p data l b b' e' : inv W asl es → slot asl f p → es !! Z.to_nat f = Some e →
  recvs (kn W) = Some data :: l → data ≠ [] → take (Z.to_nat BUFFER_LENGTH) data = data →
  splice (buffer e) 0 data = Ok b → aset b (Z.of_nat (length data)) 0 = Ok b' →
  request (set_buffer e b' (Z.of_nat (length data))) = Ok e' → ∃ W' asl' es',
  recv_cb W f = Ok (Z.of_nat (length data), W') ∧ inv W' (asl ++ asl') es' ∧
  es' !! Z.to_nat f = Some (NtyEvent f EPOLLOUT (Some send_cb_) 1 (buffer e') (length_ e') (now (kn W)) (ext e')) ∧
  kn W' = set_epoll (set_recvs (kn W) l) (<[f := (EPOLLOUT, p)]> (epoll (kn W))).
Proof.
  intros HI Hs He Hl Hne Htk Hb Hb' Hreq. unfold recv_cb.
  destruct (inv_idx W asl es f HI (proj1 Hs)) as (q & R & asl' & n & -> & Hsl & Hlt & HI').
  rewrite ok_bind, Hl. set (es1 := es ++ _) in *.
  assert (He1 : es1 !! Z.to_nat f = Some e) by (by apply lookup_app_l_Some).
  assert (q = p) as -> by (eapply slot_unique; [exact Hsl|by apply slot_app]).
  destruct data as [|x data]; [done|]. rewrite Htk. set (d := x :: data) in *.
  rewrite (inv_ld _ _ _ _ _ _ _ HI' Hsl He1), ok_bind, Hb, ok_bind, Hb', ok_bind, Hreq, ok_bind.
  assert (Hlen : length b' = length (buffer e)) by (by rewrite (aset_length _ _ _ _ Hb'), (splice_length _ _ _ _ Hb)).
  assert (Hbl : length (buffer e) = Z.to_nat BUFFER_LENGTH) by exact (Forall_lookup_1 _ _ _ _ (inv_buf _ _ _ HI) He).
  apply request_same in Hreq; [|cbn [set_buffer buffer]; by rewrite Hlen].
  destruct (upd_same (World R (set_recvs (kn W) l)) _ _ f p e e' (set_recvs (kn W) l)
    (inv_kernel _ _ _ (set_recvs (kn W) l) HI' eq_refl) Hsl He1)
    as (R2 & Hst & HI2); [|done|]; [by apply (same_control_buffer e b' _ e' Hreq)|].
  simpl in Hst. rewrite Hst. cbn [mbind res_bind].
  destruct (rearm_spec _ _ _ f p e' send_cb_ HI2 Hsl) as (W3 & Hr & HK & HI3); [by apply list_lookup_insert_eq|].
  change (rearm _ p f send_cb_ EPOLLOUT) with (rearm (World R2 (set_recvs (kn W) l)) p f send_cb_ (interest send_cb_)).
  rewrite Hr. cbn [mbind res_bind]. exists W3, asl'. eexists. split; [done|]. split; [exact HI3|]. split; [|exact HK].
  rewrite list_insert_insert_eq. by apply list_lookup_insert_eq.
Qed.

Lemma recv_cb_safe W asl es f e p : inv W asl es → slot asl f p → es !! Z.to_nat f = Some e →
  registered (epoll (kn W)) f p e → callback e = Some recv_cb_ → safe_after asl f (recv_cb W f).
Proof.
  intros HI Hs He Hreg Hcb. pose proof Hreg as (H1 & Hfd & (c & Hc & Hint) & Hep).
  unfold recv_cb. destruct (inv_idx W asl es f HI (proj1 Hs)) as (q & R & asl' & n & -> & Hsl & Hlt & HI').
  cbn [mbind res_bind]. set (es1 := es ++ _) in *. set (ans := match recvs (kn W) with [] => _ | _ :: _ => _ end).
  assert (He1 : es1 !! Z.to_nat f = Some e) by (by apply lookup_app_l_Some).
  destruct ans as [[[|x data]|] l].
  1, 3: destruct (hang_up_spec (World R (set_recvs (kn W) l)) _ _ f q e (inv_kernel _ _ _ (set_recvs (kn W) l) HI' eq_refl) Hsl He1)
      as (z & W' & -> & HI2 & Hld); cbn [mbind res_bind]; rewrite Hld; cbn [mbind res_bind fd set_status]; rewrite Hfd;
    exists asl'; eexists _, (set_status e 0); (split; [exact HI2|]);
    (split; [by apply list_lookup_insert_eq|]); right; simpl; rewrite Hint; by simplify_eq.
  rewrite (inv_ld _ _ _ _ _ _ _ HI' Hsl He1), ok_bind.
  generalize (take (Z.to_nat BUFFER_LENGTH) (x :: data)). intros d. clear x data.
  destruct (splice (buffer e) 0 d) as [b|x0] eqn:Hb; cbn [mbind res_bind]; [|by apply splice_fault in Hb as ->].
  destruct (aset b _ 0) as [b'|x0] eqn:Hb'; cbn [mbind res_bind]; [|by apply aset_fault in Hb' as ->].
  assert (Hlen : length b' = length (buffer e)) by (by rewrite (aset_length _ _ _ _ Hb'), (splice_length _ _ _ _ Hb)).
  assert (Hbl : length (buffer e) = Z.to_nat BUFFER_LENGTH) by exact (Forall_lookup_1 _ _ _ _ (inv_buf _ _ _ HI) He).
  destruct (request _) as [e'|x0] eqn:Hreq; cbn [mbind res_bind]; [|by apply request_fault in Hreq].
  apply request_same in Hreq; [|cbn [set_buffer buffer]; by rewrite Hlen].
  destruct (upd_same (World R (set_recvs (kn W) l)) _ _ f q e e' (set_recvs (kn W) l)
    (inv_kernel _ _ _ (set_recvs (kn W) l) HI' eq_refl) Hsl He1)
    as (R2 & Hst & HI2); [|done|]; [by apply (same_control_buffer e b' _ e' Hreq)|].
  simpl in Hst. rewrite Hst. cbn [mbind res_bind].
  destruct (rearm_spec _ _ _ f q e' send_cb_ HI2 Hsl) as (W3 & Hr & _ & HI3); [by apply list_lookup_insert_eq|].
  change (rearm _ q f send_cb_ EPOLLOUT) with (rearm (World R2 (set_recvs (kn W) l)) q f send_cb_ (interest send_cb_)).
  rewrite Hr. cbn [mbind res_bind]. exists asl'. eexists _, _. split; [exact HI3|].
  split; [rewrite list_insert_insert_eq; by apply list_lookup_insert_eq|]. by left.
Qed.

(** A callback that ends in a consistent state, or leaves the bounds of an array. *)
Definition ok_after (asl : list Z) (r : res (Z * world)) : Prop :=
  match r with
  | Ok (_, W') => ∃ asl' es', inv W' (asl ++ asl') es'
  | Err x => x = OutOfBounds
  end.

(** Closing the descriptor before its event is removed. *)
Lemma closed_del_spec R K asl es f p e : inv (World R K) asl es → slot asl f p → es !! Z.to_nat f = Some e →
  fd e = f → ∃ z W', nty_event_del (World R (close_fd K f)) p = Ok (z, W') ∧ ∃ es', inv W' asl es'.
Proof.
  intros HI Hsl He Hfd. destruct (inv_update (World R K) asl es f p (set_status e 0) (close_fd K f) HI Hsl)
    as (R' & Hst & HI'); [by eapply lookup_lt_Some| |by left|].
  { exact (Forall_lookup_1 _ _ _ _ (inv_buf _ _ _ HI) He). }
  unfold nty_event_del. cbn [rx kn]. rewrite (inv_ld _ _ _ _ _ _ _ HI Hsl He). cbn [mbind res_bind].
  destruct (Z.eqb_spec (status e) 1) as [H1|H1]; cbn [negb].
  - simpl in Hst. unfold set_status in Hst. rewrite Hst. cbn [mbind res_bind]. eexists 0, _. split; [done|].
    eexists. apply (inv_kernel _ _ _ _ HI'). simpl. by rewrite Hfd, delete_delete_eq.
  - eexists (-1), _. split; [done|]. exists es. pose proof Hsl as [Hf0 _].
    destruct (inv_status _ _ _ HI f e He Hf0) as [[H0 Hn]|(q & _ & ? & _)]; [|done].
    apply (inv_kernel _ _ _ _ HI). simpl. by apply delete_id.
Qed.

Lemma send_body_epoll K f d : epoll (send_body K f d) = epoll K.
Proof. unfold send_body. destruct d as [d|]; [|done]. destruct (sends K) as [|a l]; by destruct (0 <? _). Qed.

(** A reply of which [send] takes something, what follows it, and what is registered then. *)
Lemma send_cb_step W asl es f e p e' data a l : inv W asl es → slot asl f p → es !! Z.to_nat f = Some e →
  respond e = Ok e' → slice (buffer e') 0 (length_ e') = Ok data → sends (kn W) = a :: l → 0 < Z.min a (length_ e') →
  let n := Z.min a (length_ e') in
  let K := send_body (add_sent (set_sends (kn W) l) f (take (Z.to_nat n) data)) f (body e') in
  ∃ W' asl' es', send_cb W f = Ok (n, W') ∧ inv W' (asl ++ asl') es' ∧
    kn W' = set_epoll K (<[f := (EPOLLIN, p)]> (epoll (kn W))).
Proof.
  intros HI Hs He Hrsp Hd Hl Hn n K. unfold send_cb.
  destruct (inv_idx W asl es f HI (proj1 Hs)) as (q & R & asl' & m & -> & Hsl & Hlt & HI').
  rewrite ok_bind. set (es1 := es ++ _) in *.
  assert (He1 : es1 !! Z.to_nat f = Some e) by (by apply lookup_app_l_Some).
  assert (q = p) as -> by (eapply slot_unique; [exact Hsl|by apply slot_app]).
  rewrite (inv_ld _ _ _ _ _ _ _ HI' Hsl He1), ok_bind, Hrsp, ok_bind.
  apply respond_same in Hrsp; [|exact (Forall_lookup_1 _ _ _ _ (inv_buf _ _ _ HI) He)].
  destruct (upd_same _ _ _ f p e e' (kn W) HI' Hsl He1 Hrsp eq_refl) as (R2 & Hst & HI2).
  simpl in Hst. rewrite Hst. cbn [mbind res_bind]. rewrite Hd. cbn [mbind res_bind]. rewrite Hl.
  fold n. rewrite (proj2 (Z.ltb_lt 0 n)) by exact Hn. fold K.
  assert (HK : epoll K = epoll (kn W)) by (unfold K; by rewrite send_body_epoll).
  destruct (rearm_spec (World R2 K) _ _ f p e' recv_cb_ (inv_kernel _ _ _ K HI2 HK) Hsl) as (W3 & Hr & HK3 & HI3);
    [by apply list_lookup_insert_eq|].
  change (rearm _ p f recv_cb_ EPOLLIN) with (rearm (World R2 K) p f recv_cb_ (interest recv_cb_)).
  rewrite Hr. cbn [mbind res_bind]. exists W3, asl'. eexists. split; [done|]. split; [exact HI3|].
  rewrite HK3. cbn [kn]. by rewrite HK.
Qed.

Lemma send_cb_safe W asl es f e p : inv W asl es → slot asl f p → es !! Z.to_nat f = Some e →
  registered (epoll (kn W)) f p e → ok_after asl (send_cb W f).
Proof.
  intros HI Hs He Hreg. pose proof Hreg as (H1 & Hfd & (c & Hc & Hint) & Hep).
  unfold send_cb. destruct (inv_idx W asl es f HI (proj1 Hs)) as (q & R & asl' & n & -> & Hsl & Hlt & HI').
  cbn [mbind res_bind]. set (es1 := es ++ _) in *. set (ans := match sends (kn W) with [] => _ | _ :: _ => _ end).
  assert (He1 : es1 !! Z.to_nat f = Some e) by (by apply lookup_app_l_Some).
  rewrite (inv_ld _ _ _ _ _ _ _ HI' Hsl He1). cbn [mbind res_bind].
  assert (Hbl : length (buffer e) = Z.to_nat BUFFER_LENGTH) by exact (Forall_lookup_1 _ _ _ _ (inv_buf _ _ _ HI) He).
  destruct (respond e) as [e'|x0] eqn:Hrsp; cbn [mbind res_bind]; [|by apply respond_fault in Hrsp].
  apply respond_same in Hrsp; [|done].
  destruct (upd_same _ _ _ f q e e' (kn W) HI' Hsl He1 Hrsp eq_refl) as (R2 & Hst & HI2).
  simpl in Hst. rewrite Hst. cbn [mbind res_bind].
  destruct (slice (buffer e') 0 _) as [data|x0] eqn:Hd; cbn [mbind res_bind]; [|by apply slice_fault in Hd].
  assert (He2 : <[Z.to_nat f := e']> es1 !! Z.to_nat f = Some e') by (by apply list_lookup_insert_eq).
  destruct ans as [ans l]. destruct (Z.ltb_spec 0 (Z.min ans (length_ e'))) as [Hn|Hn].
  - set (K := send_body _ f (body e')). assert (HK : epoll K = epoll (kn W)) by (unfold K; by rewrite send_body_epoll).
    destruct (rearm_spec (World R2 K) _ _ f q e' recv_cb_ (inv_kernel _ _ _ K HI2 HK) Hsl He2) as (W3 & Hr & _ & HI3).
    change (rearm _ q f recv_cb_ EPOLLIN) with (rearm (World R2 K) q f recv_cb_ (interest recv_cb_)).
    rewrite Hr. cbn [mbind res_bind]. by exists asl', (<[Z.to_nat f := NtyEvent f (interest recv_cb_) (Some recv_cb_) 1 (buffer e') (length_ e') (now K) (ext e')]> (<[Z.to_nat f := e']> es1)).
  - destruct Hrsp as (Hfd' & _). rewrite Hfd', Hfd.
    destruct (closed_del_spec R2 (set_sends (kn W) l) _ _ f q e' (inv_kernel _ _ _ (set_sends (kn W) l) HI2 eq_refl) Hsl He2)
      as (z & W' & -> & es3 & HI3); [congruence|]. cbn [mbind res_bind]. by exists asl', es3.
Qed.

(** The kernel never accepts on a descriptor that is open. *)
Definition fresh_accept (W : world) : Prop :=
  match accepts (kn W) with (c, _) :: _ => epoll (kn W) !! c = None | [] => True end.

Lemma accept_cb_safe W asl es f e p : inv W asl es → slot asl f p → es !! Z.to_nat f = Some e →
  registered (epoll (kn W)) f p e → callback e = Some accept_cb_ → fresh_accept W → safe_after asl f (accept_cb W f).
Proof.
  intros HI Hs He Hreg Hcb Hfr. pose proof Hreg as (H1 & Hfd & (c0 & Hc & Hint) & Hep).
  assert (Hstay : ∀ K es' asl', inv (World (rx W) K) (asl ++ asl') es' → es' !! Z.to_nat f = Some e →
    safe_after asl f (Ok (-1, World (rx W) K))) by (intros K es' asl' ? ?; exists asl', es', e; auto).
  unfold accept_cb. destruct (accepts (kn W)) as [|[c nb] l] eqn:Hacc; cbn [Z.ltb Z.compare].
  { apply (Hstay _ es []); [|done]. rewrite app_nil_r. by apply inv_kernel. }
  unfold fresh_accept in Hfr. rewrite Hacc in Hfr.
  destruct (Z.ltb_spec c 0) as [|Hc0]; [|destruct nb]; cbn [negb].
  1, 3: apply (Hstay _ es []); [rewrite app_nil_r; by apply inv_kernel|done].
  set (K := set_accepts (kn W) l).
  destruct (inv_idx W asl es c HI Hc0) as (q & R & asl' & n & -> & Hsl & Hlt & HI'). cbn [mbind res_bind].
  set (es1 := es ++ _) in *. destruct (lookup_lt_is_Some_2 es1 (Z.to_nat c) Hlt) as [e1 He1].
  assert (H0 : status e1 = 0).
  { destruct (inv_status _ _ _ HI' c e1 He1 Hc0) as [[? _]|(? & _ & _ & _ & _ & Hx)]; [done|]. simpl in Hx. congruence. }
  rewrite (inv_ld _ _ _ _ _ _ _ HI' Hsl He1). cbn [mbind res_bind].
  destruct (upd_same _ _ _ c q e1 (set_ext e1 (on_accept (ext e1))) K HI' Hsl He1) as (R2 & Hst & HI2); [done..|].
  cbn [rx] in Hst. rewrite Hst. cbn [mbind res_bind].
  destruct (set_spec _ _ _ c q (set_ext e1 (on_accept (ext e1))) c recv_cb_ HI2 Hsl) as (W3 & Hset & HK3 & HI3);
    [by apply list_lookup_insert_eq|done|].
  rewrite Hset. cbn [mbind res_bind]. rewrite list_insert_insert_eq in HI3.
  destruct (add_spec W3 _ _ c q (NtyEvent c 0 (Some recv_cb_) 0 (buffer e1) (length_ e1) (now K) (on_accept (ext e1)))
    recv_cb_ HI3 Hsl) as (W4 & Ha & _ & HI4); [by apply list_lookup_insert_eq|done..|].
  change EPOLLIN with (interest recv_cb_). rewrite Ha. cbn [mbind res_bind].
  exists asl'. eexists _, e. split; [exact HI4|]. split; [|by left].
  assert (c ≠ f) by congruence. pose proof Hs as [Hf0 _].
  rewrite !list_lookup_insert_ne by lia. by apply lookup_app_l_Some.
Qed.

(** ** Dispatching *)

(** The state between two reports. *)
Definition consistent (W : world) : Prop := ∃ asl es, inv W asl es.

Lemma run_cb_ok asl r : ok_after asl r →
  match ('(_, W) ← r; Ok W) with Ok W' => consistent W' | Err x => x = OutOfBounds end.
Proof. destruct r as [[z W']|x]; simpl; [|done]. intros (asl' & es' & HI). by eexists _, _. Qed.

Lemma dispatch_safe W f p evts m : consistent W → epoll (kn W) !! f = Some (evts, p) → fresh_accept W →
  match dispatch W (p, m) with Ok W' => consistent W' | Err x => x = OutOfBounds end.
Proof.
  intros (asl & es & HI) Hep Hfr. destruct (inv_epoll _ _ _ HI f _ Hep) as [Hf0 [e He]].
  destruct (inv_status _ _ _ HI f e He Hf0) as [[_ ?]|(p' & Hsl & Hreg)]; [congruence|].
  pose proof Hreg as (H1 & Hfd & (c & Hc & Hint) & Hep'). assert (p' = p) as -> by congruence.
  unfold dispatch. destruct W as [R K]. cbn [rx kn] in *. rewrite (inv_ld _ _ _ _ _ _ _ HI Hsl He). cbn [mbind res_bind].
  destruct (negb (Z.land m EPOLLIN =? 0) && negb (Z.land (events e) EPOLLIN =? 0)) eqn:Hin.
  - (* readable: afterwards not both registered as before and writable *)
    assert (Hs : safe_after asl f (match c with accept_cb_ => accept_cb (World R K) f
        | recv_cb_ => recv_cb (World R K) f | send_cb_ => send_cb (World R K) f end)).
    { destruct c; [by eapply accept_cb_safe|by eapply recv_cb_safe|].
      rewrite Hint, andb_false_r in Hin. done. }
    unfold run_cb. rewrite Hc, Hfd. destruct (match c with accept_cb_ => _ | _ => _ end) as [[z [R1 K1]]|x];
      cbn [mbind res_bind]; [|done].
    destruct Hs as (asl' & es' & e' & HI' & He' & Hout). pose proof (slot_app _ asl' _ _ Hsl) as Hsl'. cbn [rx kn].
    rewrite (inv_ld _ _ _ _ _ _ _ HI' Hsl' He'). cbn [mbind res_bind].
    destruct (negb (Z.land m EPOLLOUT =? 0) && negb (Z.land (events e') EPOLLOUT =? 0)) eqn:Ho; [|by eexists _, _].
    destruct (inv_status _ _ _ HI' f e' He' Hf0) as [[H0 _]|(q & Hq & Hreg')].
    { destruct Hout as [Hs1|Hs0]; [lia|]. by rewrite Hs0, andb_false_r in Ho. }
    rewrite (slot_unique _ _ _ _ Hq Hsl') in Hreg'. pose proof Hreg' as (_ & Hfd' & (c' & Hc' & Hint') & _).
    rewrite Hc', Hfd'. destruct c'; [rewrite Hint', andb_false_r in Ho; done..|].
    apply (run_cb_ok (asl ++ asl')), (send_cb_safe (World R1 K1) _ es' f e' p); done.
  - cbn [mbind res_bind rx kn]. rewrite (inv_ld _ _ _ _ _ _ _ HI Hsl He). cbn [mbind res_bind].
    destruct (negb (Z.land m EPOLLOUT =? 0) && negb (Z.land (events e) EPOLLOUT =? 0)) eqn:Ho; [|by eexists _, _].
    rewrite Hc, Hfd. destruct c; [rewrite Hint, andb_false_r in Ho; done..|].
    apply (run_cb_ok asl), (send_cb_safe (World R K) _ es f e p); done.
Qed.

(** ** Starting *)

Lemma listener_spec W f : consistent W → 0 ≤ f → epoll (kn W) !! f = None → ∃ W' p,
  ntyreactor_addlistener W f accept_cb_ = Ok (0, W') ∧ consistent W' ∧
  epoll (kn W') = <[f := (EPOLLIN, p)]> (epoll (kn W)).
Proof.
  intros (asl & es & HI) Hf Hn. unfold ntyreactor_addlistener. destruct (inv_holds _ _ _ HI) as [_ [l [Hw _]]].
  rewrite (proj2 (Z.eqb_neq _ _) (wf_blk_neq0 _ _ _ Hw)).
  destruct (inv_idx W asl es f HI Hf) as (p & R & asl' & n & -> & Hsl & Hlt & HI'). rewrite ok_bind.
  set (es1 := es ++ _) in *. destruct (lookup_lt_is_Some_2 es1 (Z.to_nat f) Hlt) as [e He].
  assert (H0 : status e = 0).
  { destruct (inv_status _ _ _ HI' f e He Hf) as [[? _]|(? & _ & _ & _ & _ & Hx)]; [done|]. simpl in Hx. congruence. }
  destruct (set_spec _ _ _ f p e f accept_cb_ HI' Hsl He H0) as (W2 & Hset & HK2 & HI2). rewrite Hset, ok_bind.
  destruct (add_spec W2 _ _ f p (NtyEvent f 0 (Some accept_cb_) 0 (buffer e) (length_ e) (now (kn W)) (ext e))
    accept_cb_ HI2 Hsl) as (W3 & Ha & HK3 & HI3); [by apply list_lookup_insert_eq|done..|].
  change EPOLLIN with (interest accept_cb_). rewrite Ha, ok_bind.
  exists W3, p. split; [done|]. split; [by eexists _, _|]. by rewrite HK3, HK2.
Qed.

Lemma add_listeners_spec fds : ∀ W, consistent W → NoDup fds → (∀ f, f ∈ fds → 0 ≤ f ∧ epoll (kn W) !! f = None) →
  ∃ W', add_listeners fds W = Ok W' ∧ consistent W'.
Proof.
  induction fds as [|f fds IH]; intros W Hc Hnd Hf; [by exists W|].
  apply NoDup_cons in Hnd as [Hnf Hnd]. destruct (Hf f ltac:(left)) as [Hf0 Hfn].
  destruct (listener_spec W f Hc Hf0 Hfn) as (W1 & p & HW1 & Hc1 & He1). cbn [add_listeners].
  rewrite HW1, ok_bind. apply IH; [done|done|]. intros g Hg. destruct (Hf g ltac:(by right)) as [? Hg2].
  split; [done|]. rewrite He1, lookup_insert_ne; [done|]. by intros ->.
Qed.

(** A new reactor: one block of zeroed events. *)
Lemma init_inv epfd heap ms R K : ntyreactor_init epfd heap ms = (0, R) → ms.2 = true → 0 < heap → epoll K = ∅ →
  inv (World R K) [heap] (replicate (Z.to_nat MAX_EPOLL_EVENTS) zero_event).
Proof.
  unfold ntyreactor_init. destruct (epfd <=? 0); [done|]. intros HR Hm Hh HK.
  assert (∃ ms', R = Reactor 1 (heap + 1) {[heap + 1 := EventBlock 0 heap]}
    {[heap := replicate (Z.to_nat MAX_EPOLL_EVENTS) zero_event]} (heap + 2) ms' ∧ ms'.2 = true) as (ms' & -> & Hm').
  { destruct (malloc_inv (Reactor 0 0 ∅ ∅ heap ms)) as (o & ms1 & H2 & _ & E1 & H4). rewrite E1 in HR.
    destruct o as [a|]; [|done]. subst a.
    destruct (malloc_inv (set_arrays (Reactor 0 0 ∅ ∅ (heap + 1) ms1)
      (<[heap := replicate (Z.to_nat MAX_EPOLL_EVENTS) zero_event]> ∅))) as (o & ms2 & H6 & _ & E2 & H8).
    cbn [set_arrays mallocs blkcnt evblk blocks arrays brk] in *. rewrite E2 in HR. destruct o as [b|]; [|done].
    subst b. injection HR as <-. exists ms2. split; [f_equal; lia|congruence]. }
  split.
  - split.
    + unfold rows. cbn [map arrays rx]. rewrite lookup_singleton_eq. cbn [default concat]. by rewrite app_nil_r.
    + exists [heap + 1]. split; [|done]. split; cbn [rx blocks evblk blkcnt arrays brk]; try done.
      * split; [done|]. split; [lia|]. eexists. by rewrite lookup_singleton_eq.
      * constructor; [|constructor]. by rewrite lookup_singleton_eq.
      * apply NoDup_singleton.
      * constructor; [|constructor]. eexists. rewrite lookup_singleton_eq. split; [done|]. apply length_replicate.
      * lia.
      * repeat constructor; lia.
      * repeat constructor; lia.
  - apply Forall_replicate. apply length_replicate.
  - intros f e He _. left. apply lookup_replicate in He as [-> _]. cbn [kn]. by rewrite HK.
  - cbn [kn]. rewrite HK. done.
Qed.

Lemma init_spec epfd heap ms R K : ntyreactor_init epfd heap ms = (0, R) → ms.2 = true → 0 < heap → epoll K = ∅ →
  consistent (World R K).
Proof. intros HR Hm Hh HK. eexists _, _. by apply (init_inv epfd heap ms R K). Qed.

(** ** The running server *)

(** One report of an event of the epoll set, or new answers from the kernel. *)
Inductive step : world → world → Prop :=
  | step_report W f evts p m W' : epoll (kn W) !! f = Some (evts, p) → fresh_accept W →
      dispatch W (p, m) = Ok W' → step W W'
  | step_kernel W K : epoll K = epoll (kn W) → step W (World (rx W) K).

Lemma step_consistent W W' : rtc step W W' → consistent W → consistent W'.
Proof.
  induction 1 as [|W W1 W2 Hs _ IH]; [done|]. intros Hc. apply IH. destruct Hs as [W f evts p m W' He Hf Hd|W K HK].
  - pose proof (dispatch_safe W f p evts m Hc He Hf) as Hx. by rewrite Hd in Hx.
  - destruct Hc as (asl & es & HI). exists asl, es. by apply inv_kernel.
Qed.

(** C6: a server that has been initialised and listens on any number of different
    descriptors can be set up and run as long as [malloc] does not fail for ever: it may
    fail any number of times.  Whatever the kernel then reports and answers (a descriptor that
    [accept] gives being one that is not in use), an event that it reports is handled without a
    null pointer, freed or unallocated memory, or an endless loop: the only fault possible is
    to leave the bounds of an array.  Between two reports every event is in the epoll set
    exactly when its status is 1, under its own descriptor and with the interest of its callback. *)
Theorem reactor_safe epfd heap ms R K fds : ntyreactor_init epfd heap ms = (0, R) → ms.2 = true →
  0 < heap → epoll K = ∅ →
  NoDup fds → Forall (λ f, 0 ≤ f) fds → ∃ W0, add_listeners fds (World R K) = Ok W0 ∧
  ∀ W, rtc step W0 W →
    (∃ es, represents (rx W) es ∧ ∀ f e, es !! Z.to_nat f = Some e → 0 ≤ f →
      (status e = 0 ∧ epoll (kn W) !! f = None) ∨ (∃ p, registered (epoll (kn W)) f p e)) ∧
    ∀ f evts p m x, epoll (kn W) !! f = Some (evts, p) → fresh_accept W →
      dispatch W (p, m) = Err x → x = OutOfBounds.
Proof.
  intros HR Hm Hh HK Hnd Hpos. pose proof (init_spec epfd heap ms R K HR Hm Hh HK) as Hc.
  destruct (add_listeners_spec fds (World R K) Hc Hnd) as (W0 & HW0 & Hc0).
  { intros f Hf. split; [by apply (proj1 (Forall_forall _ _) Hpos)|]. cbn [kn]. by rewrite HK. }
  exists W0. split; [done|]. intros W Hr. pose proof (step_consistent W0 W Hr Hc0) as HcW. split.
  - destruct HcW as (asl & es & HI). exists es. split; [exists asl; apply HI|]. intros f e He Hf.
    destruct (inv_status _ _ _ HI f e He Hf) as [?|(p & _ & ?)]; [by left|right; by exists p].
  - intros f evts p m x He Hf Hd. pose proof (dispatch_safe W f p evts m HcW He Hf) as Hx. by rewrite Hd in Hx.
Qed.

(** looking up a descriptor adds zeroed blocks until it has an event, moves none of the
    others, and gives an address through which exactly that descriptor's event is read
    and written: the blocks are one array that grows.  The search ends as soon as
    [malloc] succeeds. *)
Theorem ntyreactor_idx_array R es f : represents R es → 0 ≤ f → ∃ p R' n e,
  let es' := es ++ replicate n zero_event in
  ntyreactor_idx R f = Ok (p, R') ∧ represents R' es' ∧ es' !! Z.to_nat f = Some e ∧ ld R' p = Ok e ∧
  ∀ e', ∃ R'', st R' p e' = Ok R'' ∧ represents R'' (<[Z.to_nat f := e']> es').
Proof.
  intros [asl Hh] Hf. destruct (idx_spec R asl es f Hh Hf) as (p & R' & asl' & n & -> & Hh' & Hsl & Hlt).
  destruct (lookup_lt_is_Some_2 _ _ Hlt) as [e He]. exists p, R', n, e. split; [done|].
  split; [by eexists|]. split; [done|]. split; [by eapply ld_slot|]. intros e'.
  destruct (st_slot R' _ _ f p e' Hh' Hsl) as (R'' & Hst & Hh2 & _). exists R''. split; [done|]. by eexists.
Qed.

(** when [malloc] fails from now on, looking up a descriptor past the blocks never ends:
    however many rounds it is given, [ntyreactor_idx] is still in its loop. *)
Theorem ntyreactor_idx_endless R l asl f : wf R l asl → mallocs R = ([], false) → 0 ≤ f →
  blkcnt R ≤ f / MAX_EPOLL_EVENTS →
  (∀ fuel, grow fuel R (f / MAX_EPOLL_EVENTS) = Err OutOfFuel) ∧ ntyreactor_idx R f = Err OutOfFuel.
Proof.
  intros Hw Hm Hf Hk.
  assert (Ha : ntyreactor_alloc R = Ok (-2, R)).
  { unfold ntyreactor_alloc. rewrite (proj2 (Z.eqb_neq _ _) (wf_blk_neq0 _ _ _ Hw)).
    pose proof (wf_chain _ _ _ Hw) as Hc. pose proof (chain_length _ _ _ _ Hc) as Hsz.
    destruct l as [|z l _] using rev_ind; [by destruct (wf_ne _ _ _ Hw)|]. rewrite length_app in Hsz. simpl in Hsz.
    rewrite (last_block_spec _ R l _ z) by (done || lia). cbn [mbind res_bind].
    unfold malloc. rewrite Hm. destruct R. simpl in *. by rewrite Hm. }
  assert (Hg : ∀ fuel, grow fuel R (f / MAX_EPOLL_EVENTS) = Err OutOfFuel).
  { induction fuel as [|fuel IH]; [done|]. cbn [grow]. rewrite (proj2 (Z.leb_le _ _) Hk), Ha. cbn [mbind res_bind]. exact IH. }
  split; [done|]. unfold ntyreactor_idx. rewrite Z.quot_div_nonneg by (done || unfold MAX_EPOLL_EVENTS; lia).
  by rewrite Hg.
Qed.

(** a peer that sends [BUFFER_LENGTH] bytes or more at once makes the server write the
    terminator one past the end of the buffer. *)
Theorem recv_full_overruns W es f e data l : represents (rx W) es → 0 ≤ f →
  es !! Z.to_nat f = Some e → length (buffer e) = Z.to_nat BUFFER_LENGTH → recvs (kn W) = Some data :: l → BUFFER_LENGTH ≤ Z.of_nat (length data) →
  recv_cb W f = Err OutOfBounds.
Proof.
  intros [asl Hh] Hf He Hbuf Hr Hlen. unfold recv_cb.
  destruct (idx_spec _ _ _ f Hh Hf) as (p & R & asl' & n & -> & Hh' & Hsl & _). rewrite ok_bind, Hr.
  destruct data as [|x data]; [unfold BUFFER_LENGTH in Hlen; simpl in Hlen; lia|].
  rewrite (ld_slot R _ _ f p e Hh' Hsl) by (by apply lookup_app_l_Some). rewrite ok_bind.
  set (d := take _ _). assert (Hd : Z.of_nat (length d) = BUFFER_LENGTH).
  { unfold d. rewrite length_take. unfold BUFFER_LENGTH in *. lia. }
  clearbody d. destruct (splice (buffer e) 0 d) as [b|x0] eqn:Hb; [|by apply splice_fault in Hb as ->].
  rewrite ok_bind, aset_past; [done|]. rewrite (splice_length _ _ _ _ Hb), Hbuf, Hd. unfold BUFFER_LENGTH. lia.
Qed.

(** ** Freeing *)

Lemma free_blocks_spec fuel : ∀ R b l asl, chain next (blocks R) b l →
  Forall2 (λ b a, evs <$> blocks R !! b = Some a) l asl → NoDup asl →
  Forall (λ a, is_Some (arrays R !! a)) asl → (length l < fuel)%nat → ∃ R',
  free_blocks fuel R b = Ok R' ∧
  (∀ x, blocks R' !! x = if decide (x ∈ l) then None else blocks R !! x) ∧
  (∀ a, arrays R' !! a = if decide (a ∈ asl) then None else arrays R !! a).
Proof.
  induction fuel as [|fuel IH]; intros R b l asl Hc Hevs Hnd Harr Hf; [lia|]. cbn [free_blocks].
  pose proof (chain_NoDup _ _ _ _ Hc) as Hndl.
  destruct Hevs as [|x a l asl Hxa Hevs]; simpl in Hc.
  - subst b. exists R. split; [done|]. split; intros x; rewrite decide_False; (done || apply not_elem_of_nil).
  - destruct Hc as (-> & Hx0 & k & Hk & Hc). rewrite (proj2 (Z.eqb_neq _ _) Hx0). unfold block.
    rewrite (proj2 (Z.eqb_neq _ _) Hx0), Hk. cbn [get_or]. rewrite ok_bind.
    rewrite Hk in Hxa. injection Hxa as Hxa. rewrite Hxa.
    apply NoDup_cons in Hnd as [Hna Hnd]. apply Forall_cons in Harr as [[es Hes] Harr]. rewrite Hes. cbn [get_or].
    rewrite ok_bind. apply NoDup_cons in Hndl as [Hnl Hndl].
    set (R1 := Reactor _ _ _ _ _ _).
    destruct (IH R1 (next k) l asl) as (R' & -> & Hb & Ha); [| |done| |simpl in Hf; lia|].
    + apply (chain_ext _ (blocks R)); [|done]. intros y Hy. unfold R1. cbn [blocks].
      by rewrite lookup_delete_ne by (by intros <-).
    + eapply Forall2_impl_in; [exact Hevs|]. intros y c Hy Hyc. unfold R1. cbn [blocks].
      by rewrite lookup_delete_ne by (by intros <-).
    + apply Forall_forall. intros c Hin. unfold R1. cbn [arrays]. rewrite lookup_delete_ne by (by intros <-).
      by apply (proj1 (Forall_forall _ _) Harr).
    + exists R'. split; [done|]. split.
      * intros y. rewrite Hb. unfold R1. cbn [blocks]. destruct (decide (y ∈ l)) as [Hy|Hy].
        { by rewrite decide_True by (by right). }
        destruct (decide (y = x)) as [->|Hne]; [rewrite lookup_delete_eq; by rewrite decide_True by left|].
        rewrite lookup_delete_ne by done. rewrite decide_False; [done|]. by intros [?|?]%elem_of_cons.
      * intros c. rewrite Ha. unfold R1. cbn [arrays]. destruct (decide (c ∈ asl)) as [Hy|Hy].
        { by rewrite decide_True by (by right). }
        destruct (decide (c = a)) as [->|Hne]; [rewrite lookup_delete_eq; by rewrite decide_True by left|].
        rewrite lookup_delete_ne by done. rewrite decide_False; [done|]. by intros [?|?]%elem_of_cons.
Qed.

(** destroying a reactor frees each of its blocks and each of their arrays once, and
    nothing else. *)
Theorem ntyreactor_destory_frees R l asl : wf R l asl → ∃ R', ntyreactor_destory R = Ok R' ∧
  (∀ b, blocks R' !! b = if decide (b ∈ l) then None else blocks R !! b) ∧
  (∀ a, arrays R' !! a = if decide (a ∈ asl) then None else arrays R !! a).
Proof.
  intros Hw. unfold ntyreactor_destory. apply free_blocks_spec; try apply Hw.
  - eapply Forall_impl; [apply Hw|]. intros a (es & -> & _). by eexists.
  - pose proof (chain_length _ _ _ _ (wf_chain _ _ _ Hw)). lia.
Qed.

End reactor.

(** ** The theorems at work, for a server that sends back what it receives *)

#[local] Instance echo : Protocol unit :=
  {| ext0 := tt; on_accept x := x; request e := Ok e; respond e := Ok e; body _ := None |}.
#[local] Instance echo_laws : ProtocolLaws unit.
Proof. split; try done; intros e e' _ [= <-]; by split_and!. Defined.

(** The second call of [malloc] after the start fails. *)
Definition ex_init : Z * ntyreactor := ntyreactor_init (X := unit) 5 1 ([true; true; true; false], true).
Definition ex_kernel (r : list (option (list Z))) : kernel := Kernel ∅ 0 r [] [] [] [].

Example reactor_safe_witness : ∃ W0, add_listeners [3; 2000] (World (snd ex_init) (ex_kernel [])) = Ok W0 ∧
  ∀ W f evts p m x, rtc step W0 W → epoll (kn W) !! f = Some (evts, p) → fresh_accept W →
    dispatch W (p, m) = Err x → x = OutOfBounds.
Proof.
  destruct (reactor_safe 5 1 ([true; true; true; false], true) (snd ex_init) (ex_kernel []) [3; 2000]) as (W0 & H1 & H2).
  - reflexivity.
  - reflexivity.
  - lia.
  - reflexivity.
  - by apply (bool_decide_eq_true_1 (NoDup [3; 2000])).
  - repeat constructor; lia.
  - exists W0. split; [exact H1|]. intros W f evts p m x Hr. exact (proj2 (H2 W Hr) f evts p m x).
Defined.

Lemma ex_init_wf : ∃ l asl, wf (snd ex_init) l asl ∧ l = [2] ∧ asl = [1] ∧
  represents (snd ex_init) (replicate (Z.to_nat MAX_EPOLL_EVENTS) zero_event).
Proof.
  assert (wf (snd ex_init) [2] [1]) as Hw.
  { split; unfold ex_init, ntyreactor_init; cbn [fst snd Z.leb Z.compare malloc mallocs blocks evblk blkcnt arrays brk set_arrays]; try done.
    - split; [done|]. split; [lia|]. eexists. by rewrite lookup_insert_eq.
    - constructor; [|constructor]. by rewrite lookup_insert_eq.
    - apply NoDup_singleton.
    - constructor; [|constructor]. eexists. rewrite lookup_insert_eq. split; [done|]. apply length_replicate.
    - repeat constructor; lia.
    - repeat constructor; lia. }
  exists [2], [1]. split; [done|]. split; [done|]. split; [done|]. exists [1]. split; [|by eexists; split; [exact Hw|]].
  unfold rows, ex_init, ntyreactor_init.
  cbn [map snd Z.leb Z.compare malloc mallocs arrays set_arrays]. rewrite lookup_insert_eq. cbn [default concat].
  by rewrite app_nil_r.
Qed.

(** Descriptor 2000 needs a second block. *)
Example ntyreactor_idx_array_witness : ∃ p R' n e,
  let es' := replicate (Z.to_nat MAX_EPOLL_EVENTS) zero_event ++ replicate n zero_event in
  ntyreactor_idx (snd ex_init) 2000 = Ok (p, R') ∧ represents R' es' ∧ es' !! Z.to_nat 2000 = Some e ∧
  ld R' p = Ok e ∧ ∀ e', ∃ R'', st R' p e' = Ok R'' ∧ represents R'' (<[Z.to_nat 2000 := e']> es').
Proof.
  destruct ex_init_wf as (l & asl & _ & _ & _ & Hr). apply (ntyreactor_idx_array _ _ 2000 Hr). lia.
Defined.

Example recv_full_overruns_witness :
  recv_cb (World (snd ex_init) (ex_kernel [Some (replicate 5000 1)])) 7 = Err OutOfBounds.
Proof.
  destruct ex_init_wf as (l & asl & _ & _ & _ & Hr).
  apply (recv_full_overruns (World (snd ex_init) (ex_kernel [Some (replicate 5000 1)])) _ 7 zero_event (replicate 5000 1) [] Hr).
  - lia.
  - apply lookup_replicate. split; [done|]. unfold MAX_EPOLL_EVENTS. lia.
  - apply length_replicate.
  - done.
  - rewrite length_replicate. unfold BUFFER_LENGTH. lia.
Defined.

Example ntyreactor_destory_frees_witness : ∃ l asl R', ntyreactor_destory (snd ex_init) = Ok R' ∧ l = [2] ∧ asl = [1] ∧
  (∀ b, blocks R' !! b = if decide (b ∈ l) then None else blocks (snd ex_init) !! b) ∧
  (∀ a, arrays R' !! a = if decide (a ∈ asl) then None else arrays (snd ex_init) !! a).
Proof.
  destruct ex_init_wf as (l & asl & Hw & Hl & Ha & _).
  destruct (ntyreactor_destory_frees _ l asl Hw) as (R' & H1 & H2 & H3). by exists l, asl, R'.
Defined.

End NtyReactor.
