(* ===== verification/WebSocket.v ===== *)
(** * The WebSocket server of 4.1websocket/websocket_server.c

    The opening handshake and the decoding of frames, as an instance of the reactor's
    [Protocol] interface.  SHA-1 and the base64 filter of OpenSSL are parameters. *)

From S2P Require Import Prelude CMem NtyReactor.

Module WebSocket.

(** ** Data *)

(* src: 4.1websocket/websocket_server.c:151-155 enum *)
Definition WS_HANDSHARK : Z := 0.
Definition WS_TRANMISSION : Z := 1.
Definition WS_END : Z := 2.

(* src: 4.1websocket/websocket_server.c:27-27 GUID *)
Definition GUID : list Z := bytes "258EAFA5-E914-47DA-95CA-C5AB0DC85B11".
(* src: 4.1websocket/websocket_server.c:338-339 WEBSOCK_KEY_LENGTH *)
Definition WEBSOCK_KEY_LENGTH : nat := 19.

(** The bit fields of the first two bytes of a frame. *)
(* src: 4.1websocket/websocket_server.c:158-167 ws_ophdr *)
Record ws_ophdr : Type := Hdr { opcode : Z; rsv3 : Z; rsv2 : Z; rsv1 : Z; fin : Z; pl_len : Z; mask : Z }.

Definition header (b0 b1 : Z) : ws_ophdr :=
  Hdr (Z.land b0 15) (Z.land (Z.shiftr b0 4) 1) (Z.land (Z.shiftr b0 5) 1) (Z.land (Z.shiftr b0 6) 1)
    (Z.land (Z.shiftr b0 7) 1) (Z.land b1 127) (Z.land (Z.shiftr b1 7) 1).

(** [status_machine] is the field this protocol adds to an event. *)
Definition event : Type := ntyevent Z.

Section websocket.
(** [SHA1] of OpenSSL, and what its base64 filter writes for some bytes. *)
Variables (SHA1 b64 : list Z → list Z).

(** ** The handshake *)

(** The pointers are arrays of the caller and never null. *)
(* src: 4.1websocket/websocket_server.c:271-293 base64_encode *)
Definition base64_encode (in_str out_str : list Z) : res (Z * list Z) :=
  let m := b64 in_str in
  out ← splice out_str 0 m;
  out ← aset out (Z.of_nat (length m) - 1) 0;
  Ok (Z.of_nat (length m), out).

(** The loop over [idx]; [k] is how far [linebuf] has advanced. *)
Fixpoint readline_loop (fuel : nat) (allbuf : list Z) (len idx : Z) (linebuf : list Z) (k : Z) : res (Z * list Z) :=
  match fuel with
  | O => Err OutOfFuel
  | S fuel =>
      if idx <? len then
        c ← aget allbuf idx;
        d ← (if c =? CR then aget allbuf (idx + 1) else Ok 0);
        if (c =? CR) && (d =? LF) then Ok (idx + 2, linebuf)
        else linebuf ← aset linebuf k c; readline_loop fuel allbuf len (idx + 1) linebuf (k + 1)
      else Ok (-1, linebuf)
  end.

(* src: 4.1websocket/websocket_server.c:296-309 readline *)
Definition readline (allbuf : list Z) (idx : Z) (linebuf : list Z) : res (Z * list Z) :=
  len ← strlen allbuf;
  readline_loop (S (Z.to_nat (len - idx))) allbuf len idx linebuf 0.

Definition response (accept : list Z) : list Z :=
  bytes "HTTP/1.1 101 Switching Protocols" ++ [CR; LF] ++ bytes "Upgrade: websocket" ++ [CR; LF] ++
  bytes "Connection: Upgrade" ++ [CR; LF] ++ bytes "Sec-WebSocket-Accept: " ++ accept ++ [CR; LF; CR; LF].

(** The answer to the key and GUID [s]. *)
Definition answer_key (e : event) (s : list Z) : res event :=
  sec_data ← splice (replicate 128 0) 0 (SHA1 s);
  k ← cstr sec_data;
  '(_, sec_accept) ← base64_encode k (replicate 32 0);
  a ← cstr sec_accept;
  b ← strput (replicate (Z.to_nat BUFFER_LENGTH) 0) 0 (response a);
  Ok (NtyReactor.set_buffer e b (Z.of_nat (length (response a)))).

(** What the line with the key is answered by. *)
Definition accept_key (e : event) (linebuf : list Z) : res event :=
  linebuf ← strcat linebuf GUID;
  s ← cstr (drop WEBSOCK_KEY_LENGTH linebuf);
  answer_key e s.

(** The condition of the loop looks at the buffer before it looks at [idx]. *)
Fixpoint handshark_loop (fuel : nat) (e : event) (idx : Z) : res event :=
  match fuel with
  | O => Err OutOfFuel
  | S fuel =>
      '(idx, linebuf) ← readline (buffer e) idx (replicate 1024 0);
      line ← cstr linebuf;
      if strstr line (bytes "Sec-WebSocket-Key") then accept_key e linebuf
      else
        c ← aget (buffer e) idx;
        d ← (if c =? CR then aget (buffer e) (idx + 1) else Ok 0);
        if (negb (c =? CR) || negb (d =? LF)) && negb (idx =? -1) then handshark_loop fuel e idx else Ok e
  end.

(* src: 4.1websocket/websocket_server.c:366-409 handshark *)
Definition handshark (e : event) : res event := handshark_loop (S (length (buffer e))) e 0.

(** ** Frames *)

(** [payload] and [mask_key] are positions of the event's buffer. *)
(* src: 4.1websocket/websocket_server.c:411-418 umask *)
Definition umask (buf : list Z) (payload length mask_key : Z) : res (list Z) :=
  for_up (Z.to_nat length) 0 (λ i b,
    x ← aget b (payload + i);
    k ← aget b (mask_key + i mod 4);
    aset b (payload + i) (Z.lxor x k)) buf.

(* src: 4.1websocket/websocket_server.c:421-451 transmission *)
Definition transmission (e : event) : res event :=
  b0 ← aget (buffer e) 0;
  b1 ← aget (buffer e) 1;
  let hdr := header b0 b1 in
  if pl_len hdr <? 126 then
    if mask hdr =? 1 then
      b ← umask (buffer e) 6 (pl_len hdr) 2;
      Ok (NtyReactor.set_buffer e b (length_ e))
    else Ok e
  else Ok e.

(* src: 4.1websocket/websocket_server.c:454-471 websocket_request *)
Definition websocket_request (e : event) : res event :=
  if ext e =? WS_HANDSHARK then handshark (NtyReactor.set_ext e WS_TRANMISSION)
  else if ext e =? WS_TRANMISSION then transmission e
  else Ok e.

Instance websocket : Protocol Z :=
  {| ext0 := WS_HANDSHARK; on_accept _ := WS_HANDSHARK; request := websocket_request;
     respond e := Ok e; body _ := None |}.

(** ** Frames: what is decoded *)

(** A client's frame: final, of the given opcode, masked with a key of four bytes. *)
Definition masked (key payload : list Z) : list Z :=
  imap (λ i x, Z.lxor x (default 0 (key !! (i mod 4)%nat))) payload.
Definition client_frame (op : Z) (key payload : list Z) : list Z :=
  [128 + op; 128 + Z.of_nat (length payload)] ++ key ++ masked key payload.

Lemma masked_length key p : length (masked key p) = length p.
Proof. apply length_imap. Qed.

Lemma masked_involutive key p : masked key (masked key p) = p.
Proof.
  apply list_eq. intros i. unfold masked. rewrite !list_lookup_imap.
  destruct (p !! i) as [x|]; simpl; [|done]. by rewrite Z.lxor_assoc, Z.lxor_nilpotent, Z.lxor_0_r.
Qed.

(** Unmasking [p] behind a header and its key. *)
Lemma umask_loop p : ∀ n b0 b1 k0 k1 k2 k3 pre rest, n = Z.of_nat (length pre) →
  for_up (length p) n (λ i b,
    x ← aget b (6 + i); k ← aget b (2 + i mod 4); aset b (6 + i) (Z.lxor x k))
    ([b0; b1; k0; k1; k2; k3] ++ pre ++ p ++ rest) =
  Ok ([b0; b1; k0; k1; k2; k3] ++ pre ++
    imap (λ i x, Z.lxor x (default 0 ([k0; k1; k2; k3] !! ((length pre + i) mod 4)%nat))) p ++ rest).
Proof.
  induction p as [|x p IH]; intros n b0 b1 k0 k1 k2 k3 pre rest ->; [done|]. cbn [length for_up].
  assert (Hk : aget ([b0; b1; k0; k1; k2; k3] ++ pre ++ (x :: p) ++ rest) (2 + Z.of_nat (length pre) mod 4) =
    Ok (default 0 ([k0; k1; k2; k3] !! (length pre mod 4)%nat))).
  { pose proof (Z.mod_pos_bound (Z.of_nat (length pre)) 4 ltac:(lia)) as Hb.
    assert (Hn : (length pre mod 4)%nat = Z.to_nat (Z.of_nat (length pre) mod 4))
      by (change 4 with (Z.of_nat 4); rewrite <-Nat2Z.inj_mod; lia).
    rewrite Hn. set (m := Z.of_nat (length pre) mod 4) in *.
    assert (m = 0 ∨ m = 1 ∨ m = 2 ∨ m = 3) as [->|[->|[->| ->]]] by lia; done. }
  assert (Hx : aget ([b0; b1; k0; k1; k2; k3] ++ pre ++ (x :: p) ++ rest) (6 + Z.of_nat (length pre)) = Ok x).
  { cbn [app]. rewrite !app_comm_cons. apply aget_mid. cbn [length]. lia. }
  rewrite Hx, ok_bind, Hk, ok_bind.
  assert (Hs : ∀ y, aset ([b0; b1; k0; k1; k2; k3] ++ pre ++ (x :: p) ++ rest) (6 + Z.of_nat (length pre)) y =
    Ok ([b0; b1; k0; k1; k2; k3] ++ (pre ++ [y]) ++ p ++ rest)).
  { intros y. rewrite app_assoc. change ((x :: p) ++ rest) with (x :: (p ++ rest)).
    rewrite aset_mid by (rewrite length_app; simpl; lia). by rewrite <-!app_assoc. }
  rewrite Hs, ok_bind, IH by (rewrite length_app; simpl; lia).
  rewrite <-app_assoc, length_app. cbn [length]. change (imap ?f (x :: p)) with (f 0%nat x :: imap (f ∘ S) p).
  cbn beta. rewrite Nat.add_0_r. erewrite imap_ext; [reflexivity|]. intros i z _. unfold compose. cbn beta.
  do 4 f_equal. lia.
Qed.

Lemma transmission_spec e b0 b1 k0 k1 k2 k3 p rest : buffer e = [b0; b1; k0; k1; k2; k3] ++ p ++ rest →
  Z.of_nat (length p) = pl_len (header b0 b1) → pl_len (header b0 b1) < 126 → mask (header b0 b1) = 1 →
  transmission e = Ok (NtyReactor.set_buffer e ([b0; b1; k0; k1; k2; k3] ++ masked [k0; k1; k2; k3] p ++ rest) (length_ e)).
Proof.
  intros Hb Hl H126 Hm. unfold transmission. rewrite Hb. cbn [app]. change (aget _ 0) with (@Ok Z b0).
  rewrite ok_bind. change (aget _ 1) with (@Ok Z b1). rewrite ok_bind. cbv zeta.
  rewrite (proj2 (Z.ltb_lt _ _) H126), Hm, <-Hl. cbn [Z.eqb Pos.eqb]. unfold umask. rewrite Nat2Z.id.
  pose proof (umask_loop p 0 b0 b1 k0 k1 k2 k3 [] rest eq_refl) as Hu. cbn [app] in Hu. rewrite Hu. done.
Qed.

Lemma header_client n : 0 ≤ n < 128 → pl_len (header 0 (128 + n)) = n ∧ mask (header 0 (128 + n)) = 1.
Proof.
  intros Hn. unfold header. cbn [pl_len mask]. change 127 with (2 ^ 7 - 1). change 1 with (2 ^ 1 - 1) at 2.
  rewrite shiftr_div, !land_mask by lia. change (2 ^ 7) with 128. change (2 ^ 1) with 2. split; zdiv.
Qed.

(** C15: a client's masked frame of up to 125 bytes is decoded in place: its payload replaces
    the masked bytes, and the header, the key and whatever follows the frame are kept. *)
Theorem transmission_unmasks e op key payload rest : length key = 4%nat → (length payload ≤ 125)%nat →
  buffer e = client_frame op key payload ++ rest →
  transmission e = Ok (NtyReactor.set_buffer e
    ([128 + op; 128 + Z.of_nat (length payload)] ++ key ++ payload ++ rest) (length_ e)).
Proof.
  intros Hk Hp Hb. destruct key as [|k0 [|k1 [|k2 [|k3 [|]]]]]; try discriminate Hk.
  destruct (header_client (Z.of_nat (length payload)) ltac:(lia)) as [H1 H2].
  rewrite (transmission_spec e (128 + op) (128 + Z.of_nat (length payload)) k0 k1 k2 k3
    (masked [k0; k1; k2; k3] payload) rest).
  - by rewrite masked_involutive.
  - rewrite Hb. unfold client_frame. by rewrite <-!app_assoc.
  - rewrite masked_length. symmetry. exact H1.
  - change (pl_len (header 0 (128 + Z.of_nat (length payload))) < 126). lia.
  - exact H2.
Qed.

(** whatever a peer sends, decoding stays inside the event's buffer, and changes only
    payload bytes of a masked frame of fewer than 126 bytes: larger frames are left
    masked. *)
Theorem transmission_bounds e b0 b1 : (131 ≤ length (buffer e))%nat → buffer e !! 0%nat = Some b0 → buffer e !! 1%nat = Some b1 →
  ∃ b, transmission e = Ok (NtyReactor.set_buffer e b (length_ e)) ∧ length b = length (buffer e) ∧
  (∀ i, (i < 6)%nat ∨ pl_len (header b0 b1) + 6 ≤ Z.of_nat i → b !! i = buffer e !! i) ∧
  (126 ≤ pl_len (header b0 b1) ∨ mask (header b0 b1) ≠ 1 → b = buffer e).
Proof.
  intros Hl H0 H1. set (n := pl_len (header b0 b1)).
  assert (Hn : 0 ≤ n) by (unfold n, header; cbn [pl_len]; by apply Z.land_nonneg; right).
  destruct (decide (n < 126 ∧ mask (header b0 b1) = 1)) as [[Hn1 Hm]|Hno]; last first.
  { exists (buffer e). assert (Ht : transmission e = Ok e).
    { unfold transmission. rewrite (aget_ok _ 0 _ H0 : aget (buffer e) 0 = _), ok_bind.
      rewrite (aget_ok _ 1 _ H1 : aget (buffer e) 1 = _), ok_bind. cbv zeta. fold n.
      destruct (Z.ltb_spec n 126); [|done]. destruct (Z.eqb_spec (mask (header b0 b1)) 1); [|done]. by destruct Hno. }
    rewrite Ht. split; [by destruct e|done]. }
  destruct (buffer e) as [|c0 [|c1 [|k0 [|k1 [|k2 [|k3 l]]]]]] eqn:Hb; simpl in Hl; try lia.
  injection H0 as ->. injection H1 as ->.
  assert (Hl1 : (Z.to_nat n ≤ length l)%nat) by lia.
  rewrite (transmission_spec e b0 b1 k0 k1 k2 k3 (take (Z.to_nat n) l) (drop (Z.to_nat n) l));
    [|by rewrite take_drop|rewrite length_take; fold n; lia|done|done].
  eexists. split; [done|]. split; [|split].
  - rewrite !length_app, masked_length, length_take, length_drop. simpl. lia.
  - intros i [Hi|Hi]; [do 6 (destruct i as [|i]; [done|]); lia|].
    change (b0 :: b1 :: k0 :: k1 :: k2 :: k3 :: l) with ([b0; b1; k0; k1; k2; k3] ++ l).
    rewrite !(lookup_app_r [_; _; _; _; _; _]) by (simpl; lia). cbn [length].
    rewrite lookup_app_r, masked_length, length_take, lookup_drop by (rewrite masked_length, length_take; lia).
    f_equal. lia.
  - intros [?|?]; [lia|done].
Qed.

(** ** The handshake: what is answered *)

(** A line of the request, without its end. *)
Definition plain (l : list Z) : Prop := l ≠ [] ∧ Forall (λ x, x ≠ 0 ∧ x ≠ CR) l.
(** A line of the request that is not the key's. *)
Definition other (l : list Z) : Prop :=
  plain l ∧ (length l < 1024)%nat ∧ strstr l (bytes "Sec-WebSocket-Key") = false.
Definition line_of (l : list Z) : list Z := l ++ [CR; LF].
Definition key_line (key : list Z) : list Z := bytes "Sec-WebSocket-Key: " ++ key.

Lemma readline_loop_spec line : ∀ fuel pre post d zs len, Forall (λ x, x ≠ 0 ∧ x ≠ CR) line →
  Z.of_nat (length pre + length line) < len → (length line ≤ length zs)%nat → (length line < fuel)%nat →
  readline_loop fuel (pre ++ line ++ CR :: LF :: post) len (Z.of_nat (length pre)) (d ++ zs) (Z.of_nat (length d)) =
  Ok (Z.of_nat (length pre + length line) + 2, d ++ line ++ drop (length line) zs).
Proof.
  induction line as [|x line IH]; intros [|fuel] pre post d zs len Hl Hlen Hz Hf; simpl in Hf; try lia;
    cbn [readline_loop]; rewrite (proj2 (Z.ltb_lt _ _)) by lia.
  - cbn [app]. rewrite (aget_mid pre (LF :: post) CR _ eq_refl), ok_bind. rewrite Z.eqb_refl.
    rewrite (cons_middle CR pre), app_assoc, aget_mid, ok_bind by (rewrite length_app; simpl; lia).
    rewrite Z.eqb_refl. cbn [andb length drop app]. do 2 f_equal. lia.
  - apply Forall_cons in Hl as [[Hx0 Hx] Hl]. cbn [app]. rewrite (aget_mid pre _ x _ eq_refl), ok_bind.
    rewrite (proj2 (Z.eqb_neq _ _) Hx), ok_bind. cbn [andb]. destruct zs as [|z zs]; [simpl in Hz; lia|].
    rewrite aset_mid, ok_bind by done.
    rewrite (cons_middle x pre), (app_assoc pre), (cons_middle x d), (app_assoc d).
    specialize (IH fuel (pre ++ [x]) post (d ++ [x]) zs len Hl).
    rewrite !length_app in IH. cbn [length] in IH, Hlen, Hz |- *.
    replace (Z.of_nat (length pre) + 1) with (Z.of_nat (length pre + 1)) by lia.
    replace (Z.of_nat (length d) + 1) with (Z.of_nat (length d + 1)) by lia.
    rewrite IH by lia. rewrite <-app_assoc. cbn [app drop]. do 2 f_equal. lia.
Qed.

Lemma plain_nonzero l : Forall (λ x, x ≠ 0 ∧ x ≠ CR) l → Forall (λ x, x ≠ 0) l.
Proof. intros. eapply Forall_impl; [eassumption|]. by intros x []. Qed.

(** Reading one line of a request that ends in a null byte. *)
Lemma readline_spec pre line post junk : Forall (λ x, x ≠ 0) pre → Forall (λ x, x ≠ 0 ∧ x ≠ CR) line →
  Forall (λ x, x ≠ 0) post → (length line < 1024)%nat →
  readline (pre ++ line ++ CR :: LF :: post ++ 0 :: junk) (Z.of_nat (length pre)) (replicate 1024 0) =
  Ok (Z.of_nat (length pre + length line) + 2, line ++ replicate (1024 - length line) 0).
Proof.
  intros Hp Hl Hq Hlen. unfold readline, strlen.
  assert (Hc : cstr (pre ++ line ++ CR :: LF :: post ++ 0 :: junk) = Ok (pre ++ line ++ CR :: LF :: post)).
  { rewrite <-(cstr_app (pre ++ line ++ CR :: LF :: post) junk).
    - f_equal. rewrite <-!app_assoc. done.
    - apply Forall_app. split; [done|]. apply Forall_app. split; [by apply plain_nonzero|]. by repeat constructor. }
  rewrite Hc, !ok_bind. rewrite !length_app. cbn [length].
  rewrite (readline_loop_spec line _ pre _ [] (replicate 1024 0)) by (done || rewrite ?length_replicate; lia).
  cbn [app]. do 2 f_equal. rewrite drop_replicate. done.
Qed.

Lemma nonzero_bytes : Forall (λ x, x ≠ 0) GUID ∧ Forall (λ x, x ≠ 0) (bytes "Sec-WebSocket-Key: ").
Proof. split; apply (bool_decide_eq_true_1 (Forall (λ x, x ≠ 0) _)); by vm_compute. Qed.

Lemma splice_zeros n s : (length s ≤ n)%nat → splice (replicate n 0) 0 s = Ok (s ++ replicate (n - length s) 0).
Proof.
  intros Hs. replace n with (length s + (n - length s))%nat at 1 by lia. rewrite replicate_add.
  apply (splice_mid [] (replicate (length s) 0)); [done|]. by rewrite length_replicate.
Qed.

Lemma response_length a : length (response a) = (101 + length a)%nat.
Proof. unfold response. rewrite !length_app. cbn [length bytes]. lia. Qed.

(** The text that is hashed. *)
Lemma accept_key_text e key : Forall (λ x, x ≠ 0) key → (length key ≤ 968)%nat →
  accept_key e (key_line key ++ replicate (1024 - length (key_line key)) 0) =
  answer_key e (key ++ GUID).
Proof.
  intros Hk Hlen. destruct nonzero_bytes as [HG HK]. unfold accept_key, strcat, strlen.
  assert (Hkl : length (key_line key) = (19 + length key)%nat) by (unfold key_line; by rewrite length_app).
  assert (Hnz : Forall (λ x, x ≠ 0) (key_line key)) by (unfold key_line; by apply Forall_app).
  rewrite (cstr_padded _ _ Hnz) by lia. rewrite !ok_bind. unfold strput.
  replace (1024 - length (key_line key))%nat with (37 + (1024 - 37 - length (key_line key)))%nat by lia.
  rewrite (replicate_add 37 (1024 - 37 - length (key_line key))), (splice_mid (key_line key) (replicate 37 0)) by done.
  rewrite ok_bind.
  unfold key_line at 1. rewrite <-!app_assoc. change (drop WEBSOCK_KEY_LENGTH (bytes "Sec-WebSocket-Key: " ++ ?x)) with x.
  rewrite app_assoc. change ([0] ++ ?r) with (0 :: r). rewrite (cstr_app (key ++ GUID)) by (by apply Forall_app).
  by rewrite ok_bind.
Qed.

(** A digest that begins with a null byte. *)
Lemma accept_key_empty e key : Forall (λ x, x ≠ 0 ∧ x ≠ CR) key → (length key ≤ 968)%nat → b64 [] = [] →
  (∃ d, SHA1 (key ++ GUID) = 0 :: d ∧ (length d ≤ 127)%nat) →
  accept_key e (key_line key ++ replicate (1024 - length (key_line key)) 0) = Err OutOfBounds.
Proof.
  intros Hk Hlen Hb (d & Hd & Hdl). rewrite accept_key_text by (by apply plain_nonzero || done).
  unfold answer_key. rewrite Hd, splice_zeros, ok_bind by (simpl; lia). cbn [app cstr Z.eqb]. rewrite ok_bind.
  unfold base64_encode. rewrite Hb. done.
Qed.

(** The answer to the key's line; [k] is what [strlen] leaves of the digest. *)
Lemma accept_key_spec e key k t : Forall (λ x, x ≠ 0) key → (length key ≤ 968)%nat →
  (length (SHA1 (key ++ GUID)) ≤ 127)%nat → cstr (SHA1 (key ++ GUID) ++ [0]) = Ok k → b64 k = t ++ [LF] →
  Forall (λ x, x ≠ 0) t → (length t ≤ 31)%nat →
  accept_key e (key_line key ++ replicate (1024 - length (key_line key)) 0) =
  Ok (NtyReactor.set_buffer e (response t ++ 0 :: replicate (Z.to_nat BUFFER_LENGTH - length (response t ++ [0])) 0)
    (Z.of_nat (length (response t)))).
Proof.
  intros Hk Hlen Hsha Hc Hb Ht Htl. rewrite accept_key_text by done. unfold answer_key.
  rewrite splice_zeros, ok_bind by lia.
  assert (Hc' : cstr (SHA1 (key ++ GUID) ++ replicate (128 - length (SHA1 (key ++ GUID))) 0) = Ok k).
  { destruct (128 - length (SHA1 (key ++ GUID)))%nat as [|m] eqn:E; [lia|]. cbn [replicate].
    apply cstr_ok in Hc as (j & Hj & Hnz'). destruct (decide (j = [])) as [->|Hj0].
    - apply app_inj_2 in Hj as [-> _]; [|done]. by apply cstr_app.
    - destruct (exists_last Hj0) as (j' & z & ->). rewrite app_comm_cons, app_assoc in Hj.
      apply app_inj_2 in Hj as [-> _]; [|done]. rewrite <-app_assoc. by apply cstr_app. }
  rewrite Hc', ok_bind. unfold base64_encode. rewrite Hb. rewrite splice_zeros by (rewrite length_app; simpl; lia).
  rewrite ok_bind, <-app_assoc. cbn [app]. rewrite aset_mid by (rewrite length_app; simpl; lia).
  rewrite !ok_bind. rewrite (cstr_app _ _ Ht), ok_bind.
  unfold strput. rewrite splice_zeros by (rewrite length_app, response_length; unfold BUFFER_LENGTH; simpl; lia).
  rewrite ok_bind, <-app_assoc. done.
Qed.

Definition request_text (lines : list (list Z)) (key rest : list Z) : list Z :=
  concat (map line_of lines) ++ line_of (key_line key) ++ rest.

Definition key_ok (key : list Z) : Prop := Forall (λ x, x ≠ 0 ∧ x ≠ CR) key ∧ (length key ≤ 968)%nat.

Lemma key_line_plain key : key_ok key → plain (key_line key) ∧ (length (key_line key) < 1024)%nat.
Proof.
  intros [Hk Hl]. unfold key_line. split; [|rewrite length_app; simpl; lia]. split; [done|].
  apply Forall_app. split; [|done]. apply (bool_decide_eq_true_1 (Forall (λ x, x ≠ 0 ∧ x ≠ CR) _)). by vm_compute.
Qed.

Lemma request_nonzero lines key rest : Forall other lines → key_ok key → Forall (λ x, x ≠ 0) rest →
  Forall (λ x, x ≠ 0) (request_text lines key rest).
Proof.
  intros Hl Hk Hr. destruct (key_line_plain key Hk) as [[_ Hp] _]. unfold request_text, line_of.
  apply Forall_app. split.
  - induction Hl as [|l lines [[_ H] _] _ IH]; cbn [map concat]; [constructor|].
    apply Forall_app. split; [|done]. apply Forall_app. split; [by apply plain_nonzero|by repeat constructor].
  - apply Forall_app. split; [|done]. apply Forall_app. split; [by apply plain_nonzero|by repeat constructor].
Qed.

(** What follows a line does not begin with the end of a line. *)
Lemma request_head lines key rest : Forall other lines → key_ok key → ∃ x t,
  request_text lines key rest = x :: t ∧ x ≠ CR.
Proof.
  intros Hl Hk. unfold request_text. destruct Hl as [|l lines [[Hne Hp] _] _]; [by eexists 83, _|].
  destruct l as [|x l]; [done|]. apply Forall_cons in Hp as [[_ Hx] _]. by eexists x, _.
Qed.

Lemma handshark_lines lines : ∀ fuel pre e key rest junk, Forall other lines → key_ok key →
  Forall (λ x, x ≠ 0) pre → Forall (λ x, x ≠ 0) rest → (length lines < fuel)%nat →
  buffer e = pre ++ request_text lines key rest ++ 0 :: junk →
  handshark_loop fuel e (Z.of_nat (length pre)) = accept_key e (key_line key ++ replicate (1024 - length (key_line key)) 0).
Proof.
  induction lines as [|l lines IH]; intros [|fuel] pre e key rest junk Hl Hk Hpre Hrest Hf Hb; simpl in Hf; try lia;
    cbn [handshark_loop]; rewrite Hb.
  - destruct (key_line_plain key Hk) as [[Hne Hp] Hlen]. unfold request_text, line_of. cbn [map concat app].
    rewrite <-!app_assoc. change ([CR; LF] ++ rest ++ 0 :: junk) with (CR :: LF :: rest ++ 0 :: junk).
    rewrite (readline_spec pre _ rest junk Hpre Hp Hrest Hlen), ok_bind.
    rewrite cstr_padded, ok_bind by (by apply plain_nonzero || lia).
    change (key_line key) with ([] ++ bytes "Sec-WebSocket-Key" ++ (bytes ": " ++ key)) at 1.
    by rewrite strstr_app.
  - apply Forall_cons in Hl as [[[Hne Hp] [Hlen Hno]] Hl].
    assert (E : request_text (l :: lines) key rest = l ++ CR :: LF :: request_text lines key rest).
    { unfold request_text. cbn [map concat]. unfold line_of at 1. by rewrite <-!app_assoc. }
    assert (Hb' : pre ++ request_text (l :: lines) key rest ++ 0 :: junk =
      pre ++ l ++ CR :: LF :: request_text lines key rest ++ 0 :: junk).
    { rewrite E, <-!app_assoc. done. }
    rewrite Hb'. rewrite (readline_spec pre l _ junk Hpre Hp (request_nonzero _ _ _ Hl Hk Hrest) Hlen), ok_bind.
    rewrite cstr_padded, ok_bind by (by apply plain_nonzero || lia). rewrite Hno.
    assert (Hsplit : pre ++ l ++ CR :: LF :: request_text lines key rest ++ 0 :: junk =
      (pre ++ l ++ [CR; LF]) ++ request_text lines key rest ++ 0 :: junk) by (rewrite <-!app_assoc; done).
    assert (Hidx : Z.of_nat (length pre + length l) + 2 = Z.of_nat (length (pre ++ l ++ [CR; LF])))
      by (rewrite !length_app; simpl; lia).
    rewrite Hsplit, Hidx. destruct (request_head lines key rest Hl Hk) as (x & t & Hx & HxCR).
    rewrite Hx at 1. cbn [app]. rewrite aget_mid, ok_bind by done. rewrite (proj2 (Z.eqb_neq _ _) HxCR), ok_bind.
    cbn [negb orb andb]. rewrite (proj2 (Z.eqb_neq (Z.of_nat _) (-1))) by lia. cbn [negb].
    apply (IH fuel _ e key rest junk Hl Hk); [|done|lia|by rewrite Hb, Hb', Hsplit].
    apply Forall_app. split; [done|]. apply Forall_app. split; [by apply plain_nonzero|by repeat constructor].
Qed.

(** Both are the documented behaviour of OpenSSL: a SHA-1 digest has 20 bytes, and the
    base64 filter writes four characters for each three bytes and ends the line. *)
Hypothesis SHA1_length : ∀ s, length (SHA1 s) = 20%nat.
Hypothesis b64_shape : ∀ s, (0 < length s ≤ 20)%nat → ∃ t,
  b64 s = t ++ [LF] ∧ Forall (λ x, x ≠ 0) t ∧ length t = (4 * ((length s + 2) / 3))%nat.
Hypothesis b64_nil : b64 [] = [].

Lemma handshark_spec e lines key rest junk k t : Forall other lines → key_ok key → Forall (λ x, x ≠ 0) rest →
  buffer e = request_text lines key rest ++ 0 :: junk → (length lines < length (buffer e))%nat →
  cstr (SHA1 (key ++ GUID) ++ [0]) = Ok k → b64 k = t ++ [LF] → k ≠ [] →
  handshark e = Ok (NtyReactor.set_buffer e
    (response t ++ 0 :: replicate (Z.to_nat BUFFER_LENGTH - length (response t ++ [0])) 0)
    (Z.of_nat (length (response t)))).
Proof.
  intros Hl Hk Hr Hb Hn Hc Ht Hk0. unfold handshark.
  change (handshark_loop ?n e 0) with (handshark_loop n e (Z.of_nat (length (@nil Z)))) at 1.
  rewrite (handshark_lines lines (S (length (buffer e))) [] e key rest junk Hl Hk ltac:(constructor) Hr ltac:(lia) Hb).
  apply cstr_ok in Hc as Hc'. destruct Hc' as (j & Hj & Hnz). apply (f_equal length) in Hj.
  rewrite !length_app, SHA1_length in Hj. simpl in Hj.
  assert (Hkl : (0 < length k ≤ 20)%nat) by (destruct k; [done|simpl in *; lia]).
  destruct (b64_shape k Hkl) as (t' & Ht' & Hnt & Hlt). rewrite Ht in Ht'. apply app_inj_2 in Ht' as [<- _]; [|done].
  apply (accept_key_spec e key k t); try done; [by apply plain_nonzero, Hk|apply Hk|rewrite SHA1_length; lia|].
  rewrite Hlt. assert ((length k + 2) / 3 < 8)%nat by (apply Nat.Div0.div_lt_upper_bound; lia). lia.
Qed.

Lemma lines_short lines : Forall other lines → (length lines ≤ length (concat (map line_of lines)))%nat.
Proof.
  induction 1 as [|l lines _ _ IH]; [done|]. cbn [map concat length]. rewrite length_app. unfold line_of at 1.
  rewrite length_app. simpl. lia.
Qed.

(** C32: a request whose lines fit [linebuf] is answered with the switch of protocols, for
    the key of its key line, when the digest has no null byte: the accept value is the
    base64 form of SHA-1 of the key and the GUID, as RFC 6455 asks. *)
Theorem handshark_accepts e lines key rest junk : Forall other lines → key_ok key → Forall (λ x, x ≠ 0) rest →
  buffer e = request_text lines key rest ++ 0 :: junk → 0 ∉ SHA1 (key ++ GUID) → ∃ accept b,
  b64 (SHA1 (key ++ GUID)) = accept ++ [LF] ∧
  handshark e = Ok (NtyReactor.set_buffer e (response accept ++ 0 :: b) (Z.of_nat (length (response accept)))).
Proof.
  intros Hl Hk Hr Hb H0. destruct (b64_shape (SHA1 (key ++ GUID))) as (t & Ht & _); [rewrite SHA1_length; lia|].
  exists t. eexists. split; [done|]. apply (handshark_spec e lines key rest junk (SHA1 (key ++ GUID)) t); try done.
  - rewrite Hb, length_app. unfold request_text. rewrite length_app. pose proof (lines_short lines Hl). simpl. lia.
  - apply (cstr_app _ []). apply Forall_forall. intros x Hx ->. done.
  - intros E. pose proof (SHA1_length (key ++ GUID)) as Hl0. by rewrite E in Hl0.
Qed.

(** when the digest has a null byte, [strlen] cuts it there: the accept value is the
    base64 form of the bytes before it alone, which is shorter than that of a digest; and
    when the null byte is the first one, the terminator is written before [sec_accept]. *)
Theorem handshark_cuts_digest e lines key rest junk d1 d2 : Forall other lines → key_ok key → Forall (λ x, x ≠ 0) rest →
  buffer e = request_text lines key rest ++ 0 :: junk → SHA1 (key ++ GUID) = d1 ++ 0 :: d2 → 0 ∉ d1 →
  (d1 = [] → handshark e = Err OutOfBounds) ∧
  (d1 ≠ [] → ∃ accept b, b64 d1 = accept ++ [LF] ∧
    handshark e = Ok (NtyReactor.set_buffer e (response accept ++ 0 :: b) (Z.of_nat (length (response accept))))).
Proof.
  intros Hl Hk Hr Hb Hd Hd1. assert (Hnz : Forall (λ x, x ≠ 0) d1) by (apply Forall_forall; intros x Hx ->; done).
  assert (Hlen : (length lines < length (buffer e))%nat).
  { rewrite Hb, length_app. unfold request_text. rewrite length_app. pose proof (lines_short lines Hl). simpl. lia. }
  assert (Hc : cstr (SHA1 (key ++ GUID) ++ [0]) = Ok d1) by (rewrite Hd, <-app_assoc; by apply cstr_app).
  split.
  - intros ->. unfold handshark.
    change (handshark_loop ?n e 0) with (handshark_loop n e (Z.of_nat (length (@nil Z)))) at 1.
  rewrite (handshark_lines lines (S (length (buffer e))) [] e key rest junk Hl Hk ltac:(constructor) Hr ltac:(lia) Hb).
    apply accept_key_empty; [apply Hk|apply Hk|done|]. exists d2. split; [done|].
    pose proof (SHA1_length (key ++ GUID)) as Hl20. rewrite Hd in Hl20. simpl in Hl20. lia.
  - intros Hne. pose proof (SHA1_length (key ++ GUID)) as Hl20. rewrite Hd, length_app in Hl20. simpl in Hl20.
    destruct (b64_shape d1) as (t & Ht & _); [destruct d1; [done|simpl in *; lia]|].
    exists t. eexists. split; [done|]. by apply (handshark_spec e lines key rest junk d1 t).
Qed.

End websocket.

(** ** What the reactor relies on *)

Section laws.
Variables (SHA1 b64 : list Z → list Z).

Lemma umask_length buf p n k b : umask buf p n k = Ok b → length b = length buf.
Proof.
  apply (for_up_inv (λ b, length b = length buf)); [|done].
  intros i s s' Hs Hb. inv_ok. by rewrite (aset_length _ _ _ _ ltac:(eassumption)).
Qed.

Lemma umask_fault buf p n k x : umask buf p n k = Err x → x = OutOfBounds.
Proof.
  apply (for_up_fault (λ x, x = OutOfBounds)). clear x. intros i s x Hb.
  apply (bind_oob _ _ _ Hb); [apply aget_fault|]. intros a _ Hb1.
  apply (bind_oob _ _ _ Hb1); [apply aget_fault|]. intros c _. apply aset_fault.
Qed.

Lemma readline_loop_fault fuel : ∀ buf len idx lb k x, (Z.to_nat (len - idx) < fuel)%nat →
  readline_loop fuel buf len idx lb k = Err x → x = OutOfBounds.
Proof.
  induction fuel as [|fuel IH]; intros buf len idx lb k x Hf Hr; [lia|]. cbn [readline_loop] in Hr.
  destruct (Z.ltb_spec idx len); [|done].
  apply (bind_oob _ _ _ Hr); [apply aget_fault|]. intros c _ Hr1.
  apply (bind_oob _ _ _ Hr1); [by destruct (c =? CR); [apply aget_fault|]|]. intros d _ Hr2.
  destruct (_ && _); [done|]. apply (bind_oob _ _ _ Hr2); [apply aset_fault|]. intros lb' _. apply IH. lia.
Qed.

Lemma readline_loop_idx fuel : ∀ buf len idx lb k idx' lb',
  readline_loop fuel buf len idx lb k = Ok (idx', lb') → idx' = -1 ∨ idx < idx'.
Proof.
  induction fuel as [|fuel IH]; intros buf len idx lb k idx' lb' Hr; [done|]. cbn [readline_loop] in Hr.
  destruct (Z.ltb_spec idx len); [|injection Hr as <- <-; by left].
  apply bind_ok in Hr as (c & _ & Hr). apply bind_ok in Hr as (d & _ & Hr).
  destruct (_ && _); [injection Hr as <- <-; right; lia|]. apply bind_ok in Hr as (lb1 & _ & Hr).
  apply IH in Hr. lia.
Qed.

Lemma strlen_fault l x : strlen l = Err x → x = OutOfBounds.
Proof. unfold strlen. intros H. apply (bind_oob _ _ _ H); [apply cstr_fault|done]. Qed.

Lemma readline_fault buf idx lb x : readline buf idx lb = Err x → x = OutOfBounds.
Proof.
  intros H. apply (bind_oob _ _ _ H); [apply strlen_fault|]. intros len _. apply readline_loop_fault. lia.
Qed.

Lemma answer_key_fault e s x : answer_key SHA1 b64 e s = Err x → x = OutOfBounds.
Proof.
  intros H. apply (bind_oob _ _ _ H); [apply splice_fault|]. intros d _ H1.
  apply (bind_oob _ _ _ H1); [apply cstr_fault|]. intros k _ H2.
  apply (bind_oob _ _ _ H2).
  - intros y Hy. apply (bind_oob _ _ _ Hy); [apply splice_fault|]. intros o _ Hy1.
    apply (bind_oob _ _ _ Hy1); [apply aset_fault|done].
  - intros [n a] _ H3. apply (bind_oob _ _ _ H3); [apply cstr_fault|]. intros c _ H4.
    apply (bind_oob _ _ _ H4); [apply splice_fault|done].
Qed.

Lemma accept_key_fault e lb x : accept_key SHA1 b64 e lb = Err x → x = OutOfBounds.
Proof.
  intros H. apply (bind_oob _ _ _ H).
  - intros y Hy. apply (bind_oob _ _ _ Hy); [apply strlen_fault|]. intros n _. apply splice_fault.
  - intros l _ H1. apply (bind_oob _ _ _ H1); [apply cstr_fault|]. intros s _. apply answer_key_fault.
Qed.

(** Each round of the handshake reads further, so it ends. *)
Lemma handshark_loop_fault fuel : ∀ e idx x, 0 ≤ idx → (length (buffer e) < fuel + Z.to_nat idx)%nat →
  (fuel ≠ 0)%nat → handshark_loop SHA1 b64 fuel e idx = Err x → x = OutOfBounds.
Proof.
  induction fuel as [|fuel IH]; intros e idx x Hi Hf H0 H; [done|]. cbn [handshark_loop] in H.
  apply (bind_oob _ _ _ H); [apply readline_fault|]. intros [idx' lb] Hrl H1.
  apply (bind_oob _ _ _ H1); [apply cstr_fault|]. intros line _ H2.
  destruct (strstr _ _); [by apply accept_key_fault in H2|].
  apply (bind_oob _ _ _ H2); [apply aget_fault|]. intros c Hc H3.
  apply (bind_oob _ _ _ H3); [by destruct (c =? CR); [apply aget_fault|]|]. intros d _ H4.
  destruct (_ && _); [|done].
  assert (0 ≤ idx' < Z.of_nat (length (buffer e))) as [Hi' Hlt].
  { unfold aget in Hc. destruct (Z.leb_spec 0 idx'); [|done]. apply get_or_ok, lookup_lt_Some in Hc. lia. }
  unfold readline in Hrl. apply bind_ok in Hrl as (len & _ & Hrl). apply readline_loop_idx in Hrl.
  apply (IH e idx'); [done|lia|lia|done].
Qed.

Lemma handshark_loop_frame fuel : ∀ e idx e', handshark_loop SHA1 b64 fuel e idx = Ok e' →
  e' = e ∨ ∃ b n, e' = NtyReactor.set_buffer e b n ∧ length b = Z.to_nat BUFFER_LENGTH.
Proof.
  induction fuel as [|fuel IH]; intros e idx e' H; [done|]. cbn [handshark_loop] in H.
  apply bind_ok in H as ([idx' lb] & _ & H). apply bind_ok in H as (line & _ & H).
  destruct (strstr _ _).
  - right. unfold accept_key, answer_key in H. apply bind_ok in H as (? & _ & H). apply bind_ok in H as (? & _ & H).
    apply bind_ok in H as (? & _ & H). apply bind_ok in H as (? & _ & H). apply bind_ok in H as ([? ?] & _ & H).
    apply bind_ok in H as (? & _ & H). apply bind_ok in H as (b & Hb & H). injection H as <-.
    exists b. eexists. split; [done|]. unfold strput in Hb. rewrite (splice_length _ _ _ _ Hb). apply length_replicate.
  - apply bind_ok in H as (c & _ & H). apply bind_ok in H as (d & _ & H). destruct (_ && _); [by eapply IH|].
    injection H as <-. by left.
Qed.

Lemma set_buffer_same (e : event) b n : length b = length (buffer e) → same_control e (NtyReactor.set_buffer e b n).
Proof. intros Hb. by split_and!. Qed.

Lemma transmission_same e e' : transmission e = Ok e' → same_control e e'.
Proof.
  unfold transmission. intros H. apply bind_ok in H as (b0 & _ & H). apply bind_ok in H as (b1 & _ & H). cbv zeta in H.
  destruct (_ <? _); [|injection H as <-; by split_and!]. destruct (_ =? _); [|injection H as <-; by split_and!].
  apply bind_ok in H as (b & Hb & H). injection H as <-. apply set_buffer_same. by apply umask_length in Hb.
Qed.

Lemma transmission_fault e x : transmission e = Err x → x = OutOfBounds.
Proof.
  intros H. apply (bind_oob _ _ _ H); [apply aget_fault|]. intros b0 _ H1.
  apply (bind_oob _ _ _ H1); [apply aget_fault|]. intros b1 _ H2. cbv zeta in H2.
  destruct (_ <? _); [|done]. destruct (_ =? _); [|done].
  apply (bind_oob _ _ _ H2); [apply umask_fault|done].
Qed.

(** The server is a client of the reactor: the theorems of NtyReactor.v hold of it. *)
#[export] Instance websocket_laws : ProtocolLaws Z (H := websocket SHA1 b64).
Proof.
  split.
  - intros e e' Hl H. cbn [request websocket] in H. unfold websocket_request, handshark in H.
    destruct (ext e =? WS_HANDSHARK).
    + apply handshark_loop_frame in H as [->|(b & n & -> & Hb)]; [by split_and!|]. split_and!; try done.
      by rewrite Hl.
    + destruct (ext e =? WS_TRANMISSION); [by apply transmission_same|]. injection H as <-. by split_and!.
  - intros e x H. cbn [request websocket] in H. unfold websocket_request, handshark in H.
    destruct (ext e =? WS_HANDSHARK).
    + apply handshark_loop_fault in H; [done|lia|cbn; lia|lia].
    + destruct (ext e =? WS_TRANMISSION); [by apply transmission_fault in H|done].
  - intros e e' _ [= <-]. by split_and!.
  - done.
Qed.

End laws.

(** ** The theorems at work *)

Definition ex_event (b : list Z) : event := NtyEvent 9 EPOLLIN (Some recv_cb_) 1 b 0 0 WS_TRANMISSION.

(** The frame "Hi" of RFC 6455's kind, masked with 1 2 3 4. *)
Example transmission_unmasks_witness :
  transmission (ex_event (client_frame 1 [1; 2; 3; 4] [72; 105] ++ replicate 4000 0)) =
  Ok (NtyReactor.set_buffer (ex_event (client_frame 1 [1; 2; 3; 4] [72; 105] ++ replicate 4000 0))
    ([129; 130] ++ [1; 2; 3; 4] ++ [72; 105] ++ replicate 4000 0) 0).
Proof.
  apply (transmission_unmasks (ex_event (client_frame 1 [1; 2; 3; 4] [72; 105] ++ replicate 4000 0))
    1 [1; 2; 3; 4] [72; 105] (replicate 4000 0)); [reflexivity|simpl; lia|reflexivity].
Defined.

(** A frame of 126 bytes or more stays masked. *)
Example transmission_bounds_witness : ∃ b, let e := ex_event ([129; 254] ++ replicate 4094 7) in
  transmission e = Ok (NtyReactor.set_buffer e b 0) ∧ length b = length (buffer e) ∧
  (∀ i, (i < 6)%nat ∨ 126 + 6 ≤ Z.of_nat i → b !! i = buffer e !! i) ∧ (126 ≤ 126 ∨ 1 ≠ 1 → b = buffer e).
Proof.
  apply (transmission_bounds (ex_event ([129; 254] ++ replicate 4094 7)) 129 254); [|reflexivity..].
  change (buffer _) with ([129; 254] ++ replicate 4094 7). rewrite length_app, length_replicate. simpl. lia.
Defined.

(** Stand-ins with the documented shapes. *)
Definition ex_b64 (s : list Z) : list Z :=
  match s with [] => [] | _ => replicate (4 * ((length s + 2) / 3))%nat 65 ++ [LF] end.
Lemma ex_b64_shape s : (0 < length s ≤ 20)%nat → ∃ t,
  ex_b64 s = t ++ [LF] ∧ Forall (λ x, x ≠ 0) t ∧ length t = (4 * ((length s + 2) / 3))%nat.
Proof.
  intros Hs. destruct s as [|x s]; [simpl in Hs; lia|]. eexists. split; [reflexivity|].
  split; [by apply Forall_replicate|apply length_replicate].
Qed.

Definition ex_lines : list (list Z) := [bytes "GET / HTTP/1.1"; bytes "Host: a"].
Definition ex_key : list Z := bytes "dGhlIHNhbXBsZSBub25jZQ==".
Lemma ex_lines_ok : Forall other ex_lines ∧ key_ok ex_key.
Proof.
  assert (Ho : ∀ l, bool_decide (l ≠ [] ∧ Forall (λ x, x ≠ 0 ∧ x ≠ CR) l) = true → (length l <? 1024)%nat = true →
    strstr l (bytes "Sec-WebSocket-Key") = false → other l).
  { intros l H1%bool_decide_eq_true_1 H2%Nat.ltb_lt H3. by split. }
  split.
  - constructor; [|constructor; [|constructor]]; by apply Ho; vm_compute.
  - split; [|simpl; lia]. apply (bool_decide_eq_true_1 (Forall (λ x, x ≠ 0 ∧ x ≠ CR) ex_key)). by vm_compute.
Qed.

Definition ex_request : event := ex_event (request_text ex_lines ex_key [CR; LF] ++ 0 :: replicate 3900 0).

Example handshark_accepts_witness : ∃ accept b, ex_b64 (replicate 20 7) = accept ++ [LF] ∧
  handshark (λ _, replicate 20 7) ex_b64 ex_request =
  Ok (NtyReactor.set_buffer ex_request (response accept ++ 0 :: b) (Z.of_nat (length (response accept)))).
Proof.
  apply (handshark_accepts (λ _, replicate 20 7) ex_b64 (λ _, eq_refl) ex_b64_shape ex_request ex_lines ex_key
    [CR; LF] (replicate 3900 0)); [apply ex_lines_ok|apply ex_lines_ok|by repeat constructor|reflexivity|].
  by apply (bool_decide_eq_true_1 (0 ∉ replicate 20 7)).
Defined.

Example handshark_cuts_digest_witness : handshark (λ _, 0 :: replicate 19 7) ex_b64 ex_request = Err OutOfBounds.
Proof.
  apply (handshark_cuts_digest (λ _, 0 :: replicate 19 7) ex_b64 (λ _, eq_refl) ex_b64_shape eq_refl ex_request
    ex_lines ex_key [CR; LF] (replicate 3900 0) [] (replicate 19 7));
    [apply ex_lines_ok|apply ex_lines_ok|by repeat constructor|reflexivity|reflexivity|apply not_elem_of_nil|reflexivity].
Defined.

End WebSocket.
