(* ===== verification/Http.v ===== *)
(** * The web server of 3.4http_server/webserver.c

    The parsing of a request line, the choice of the file and the response, as a second
    instance of the reactor's [Protocol] interface (its reactor repeats that of the
    WebSocket server).  The file system is a parameter. *)

From S2P Require Import Prelude CMem NtyReactor WebSocket.

Module Http.

(** ** Data *)

(* src: 3.4http_server/webserver.c:28-28 HTTP_WEBSERVER_HTML_ROOT *)
Definition HTTP_WEBSERVER_HTML_ROOT : list Z := bytes "html".
(* src: 3.4http_server/webserver.c:31-32 HTTP_METHOD_GET *)
Definition HTTP_METHOD_GET : Z := 0.
Definition HTTP_METHOD_POST : Z := 1.

(** The fields this server adds to an event. *)
(* src: 3.4http_server/webserver.c:71-88 ntyevent *)
Record http_param : Type := Param { method : Z; resource : list Z; ret_code : Z }.
Definition event : Type := ntyevent http_param.

(** What a path names. *)
Inductive file : Type := Dir | Reg (content : list Z) | Special.

Section http.
(** [open] followed by [fstat]: the file of a path, if it can be opened. *)
Variable open : list Z → option file.

(** ** Requests *)

(** The same text as in the WebSocket server. *)
(* src: 3.4http_server/webserver.c:160-173 readline *)
Definition readline (allbuf : list Z) (idx : Z) (linebuf : list Z) : res (Z * list Z) :=
  WebSocket.readline allbuf idx linebuf.

(** [sizeof("GET ")] counts the terminator. *)
Definition sizeof_GET : Z := 5.
Definition SPACE : Z := 32.

(** [while (linebuf[sizeof("GET ") + i] != ' ') i++;] *)
Fixpoint find_space (fuel : nat) (linebuf : list Z) (i : Z) : res Z :=
  match fuel with
  | O => Err OutOfFuel
  | S fuel => c ← aget linebuf (sizeof_GET + i); if c =? SPACE then Ok i else find_space fuel linebuf (i + 1)
  end.

(* src: 3.4http_server/webserver.c:175-195 http_request *)
Definition http_request (e : event) : res event :=
  '(_, linebuf) ← readline (buffer e) 0 (replicate 1024 0);
  line ← cstr linebuf;
  if strstr line (bytes "GET") then
    i ← find_space (S (length linebuf)) linebuf 0;
    linebuf ← aset linebuf (sizeof_GET + i) 0;
    uri ← cstr (drop (Z.to_nat sizeof_GET) linebuf);
    r ← strput (resource (ext e)) 0 (bytes "./" ++ HTTP_WEBSERVER_HTML_ROOT ++ bytes "/" ++ uri);
    Ok (NtyReactor.set_ext e (Param HTTP_METHOD_GET r (ret_code (ext e))))
  else Ok e.

(** ** Responses *)

Definition CRLF : list Z := [CR; LF].
Definition common : list Z :=
  bytes "Date: Thu, 11 Nov 2021 12:28:52 GMT" ++ CRLF ++ bytes "Content-Type: text/html;charset=ISO-8859-1" ++ CRLF.
Definition page_404 : list Z :=
  bytes "<html><head><title>404 Not Found</title></head><body><H1>404</H1></body></html>" ++ CRLF ++ CRLF.
Definition head_404 : list Z :=
  bytes "HTTP/1.1 404 Not Found" ++ CRLF ++ common ++ bytes "Content-Length: 85" ++ CRLF ++ CRLF.
Definition head_200 (size : Z) : list Z :=
  bytes "HTTP/1.1 200 OK" ++ CRLF ++ common ++ bytes "Content-Length: " ++ decimal size ++ CRLF ++ CRLF.

(** [sprintf] of [s] into the zeroed buffer, and the code. *)
Definition reply (e : event) (code : Z) (s : list Z) : res event :=
  b ← strput (replicate (Z.to_nat BUFFER_LENGTH) 0) 0 s;
  Ok (NtyReactor.set_ext (NtyReactor.set_buffer e b (Z.of_nat (length s)))
    (Param (method (ext e)) (resource (ext e)) code)).

(** A file that is neither a directory nor a regular one leaves the code and the length. *)
(* src: 3.4http_server/webserver.c:238-301 http_response *)
Definition http_response (e : event) : res event :=
  path ← cstr (resource (ext e));
  match open path with
  | None => reply e 404 (head_404 ++ page_404)
  | Some Dir => reply e 404 (head_404 ++ page_404)
  | Some (Reg content) => reply e 200 (head_200 (Z.of_nat (length content)))
  | Some Special => Ok (NtyReactor.set_buffer e (replicate (Z.to_nat BUFFER_LENGTH) 0) (length_ e))
  end.

(** The file given to [sendfile] after a header with code 200, opened again by its name; how much of it goes out is
    the kernel's answer, which [NtyReactor.send_body] takes and the code does not look at. *)
(* src: 3.4http_server/webserver.c:314-321 send_cb *)
Definition send_file (e : event) : option (list Z) :=
  if ret_code (ext e) =? 200 then
    match cstr (resource (ext e)) with
    | Ok path =>
        match open path with Some (Reg content) => Some content | Some _ => Some [] | None => None end
    | Err _ => None
    end
  else None.

(** [accept_cb] sets none of these fields: an event keeps those of its last connection. *)
#[local] Instance http : Protocol http_param :=
  {| ext0 := Param 0 (replicate (Z.to_nat BUFFER_LENGTH) 0) 0; on_accept x := x;
     request := http_request; respond := http_response; body := send_file |}.

(** ** What is served *)

Definition get_line (path version : list Z) : list Z := bytes "GET /" ++ path ++ SPACE :: version.

Lemma find_space_spec path : ∀ fuel pre post i, SPACE ∉ path → sizeof_GET + i = Z.of_nat (length pre) →
  (length path < fuel)%nat → find_space fuel (pre ++ path ++ SPACE :: post) i = Ok (i + Z.of_nat (length path)).
Proof.
  induction path as [|x path IH]; intros [|fuel] pre post i Hs Hi Hf; simpl in Hf; try lia; cbn [find_space app].
  - rewrite aget_mid, ok_bind by done. rewrite Z.eqb_refl. f_equal. simpl. lia.
  - apply not_elem_of_cons in Hs as [Hx Hs]. rewrite aget_mid, ok_bind by done.
    rewrite (proj2 (Z.eqb_neq x SPACE)) by done. rewrite (cons_middle x), app_assoc.
    rewrite (IH fuel (pre ++ [x]) post (i + 1)); [f_equal; simpl; lia|done|rewrite length_app; simpl; lia|lia].
Qed.

(** A request for [path], of a length that fits [linebuf]. *)
Record get_ok (path version rest : list Z) : Prop := GetOk {
  go_path : Forall (λ x, x ≠ 0 ∧ x ≠ CR) path ∧ SPACE ∉ path;
  go_version : Forall (λ x, x ≠ 0 ∧ x ≠ CR) version;
  go_rest : Forall (λ x, x ≠ 0) rest;
  go_len : (length path + length version < 1018)%nat
}.

Lemma http_request_spec e path version rest junk : get_ok path version rest →
  length (resource (ext e)) = Z.to_nat BUFFER_LENGTH →
  buffer e = get_line path version ++ CRLF ++ rest ++ 0 :: junk → ∃ r,
  http_request e = Ok (NtyReactor.set_ext e (Param HTTP_METHOD_GET r (ret_code (ext e)))) ∧
  cstr r = Ok (bytes "./html/" ++ path) ∧ length r = Z.to_nat BUFFER_LENGTH.
Proof.
  intros [[Hp Hs] Hv Hr Hl] Hres Hb. unfold http_request, readline. rewrite Hb.
  assert (Hline : Forall (λ x, x ≠ 0 ∧ x ≠ CR) (get_line path version)).
  { unfold get_line. apply Forall_app. split; [|apply Forall_app; split; [done|by constructor]].
    apply (bool_decide_eq_true_1 (Forall (λ x, x ≠ 0 ∧ x ≠ CR) _)). by vm_compute. }
  assert (Hll : length (get_line path version) = (6 + length path + length version)%nat).
  { unfold get_line. rewrite !length_app. simpl. lia. }
  pose proof (WebSocket.readline_spec [] (get_line path version) rest junk ltac:(constructor) Hline Hr ltac:(lia)) as Hrl.
  change (CRLF ++ rest ++ 0 :: junk) with (CR :: LF :: rest ++ 0 :: junk). cbn [app length] in Hrl.
  change (Z.of_nat 0) with 0 in Hrl. rewrite Hrl, ok_bind, cstr_padded, ok_bind by (by apply WebSocket.plain_nonzero || lia).
  change (get_line path version) with ([] ++ bytes "GET" ++ (bytes " /" ++ path ++ SPACE :: version)) at 1.
  rewrite strstr_app. set (pad := replicate (1024 - length (get_line path version)) 0).
  assert (Hg : get_line path version ++ pad = bytes "GET /" ++ path ++ SPACE :: version ++ pad)
    by (unfold get_line; rewrite <-!app_assoc; done).
  rewrite Hg. rewrite (find_space_spec path _ (bytes "GET /") (version ++ pad) 0 Hs); [|done|rewrite !length_app; simpl; lia].
  rewrite ok_bind, app_assoc, aset_mid, ok_bind by (unfold sizeof_GET; rewrite length_app; simpl; lia). rewrite <-app_assoc.
  change (drop (Z.to_nat sizeof_GET) (bytes "GET /" ++ ?x)) with x.
  rewrite cstr_app, ok_bind by (by apply WebSocket.plain_nonzero).
  change (bytes "./" ++ HTTP_WEBSERVER_HTML_ROOT ++ bytes "/" ++ path) with (bytes "./html/" ++ path).
  set (s := bytes "./html/" ++ path). assert (Hsl : (length (s ++ [0%Z]) ≤ length (resource (ext e)))%nat).
  { unfold s. rewrite Hres, !length_app. unfold BUFFER_LENGTH. simpl. lia. }
  unfold strput. rewrite (splice_over _ _ Hsl), ok_bind.
  eexists. split; [done|]. rewrite <-app_assoc. split.
  - apply cstr_app. unfold s. apply Forall_app. split; [|by apply WebSocket.plain_nonzero].
    apply (bool_decide_eq_true_1 (Forall (λ x, x ≠ 0) _)). by vm_compute.
  - rewrite !length_app, length_drop. simpl in *. rewrite length_app in *. simpl in *. lia.
Qed.

Lemma decimal_length n : (length (decimal n) ≤ 20)%nat.
Proof.
  unfold decimal. generalize 20%nat. intros k. revert n. induction k as [|k IH]; intros n; simpl; [lia|].
  destruct (n <? 10); simpl; [lia|]. rewrite length_app. specialize (IH (n / 10)). simpl. lia.
Qed.

Lemma reply_ok e code s : (length s < Z.to_nat BUFFER_LENGTH)%nat →
  reply e code s = Ok (NtyReactor.set_ext (NtyReactor.set_buffer e
    (s ++ 0 :: replicate (Z.to_nat BUFFER_LENGTH - length s - 1) 0) (Z.of_nat (length s)))
    (Param (method (ext e)) (resource (ext e)) code)).
Proof.
  intros Hs. unfold reply, strput. rewrite WebSocket.splice_zeros by (rewrite length_app; simpl; lia).
  rewrite ok_bind, <-app_assoc, length_app. cbn [length app]. do 6 f_equal. lia.
Qed.

(** ** What the reactor relies on *)

Lemma find_space_fault fuel : ∀ l i x, 0 ≤ i → (length l < fuel + Z.to_nat i)%nat → (fuel ≠ 0)%nat →
  find_space fuel l i = Err x → x = OutOfBounds.
Proof.
  induction fuel as [|fuel IH]; intros l i x Hi Hf H0 H; [done|]. cbn [find_space] in H.
  apply (bind_oob _ _ _ H); [apply aget_fault|]. intros c Hc H1. destruct (c =? SPACE); [done|].
  unfold aget in Hc. destruct (_ <=? _); [|done]. apply get_or_ok, lookup_lt_Some in Hc. unfold sizeof_GET in Hc.
  apply IH in H1; [done|lia|lia|lia].
Qed.

#[local] Instance http_laws : ProtocolLaws http_param.
Proof.
  split.
  - intros e e' _ H. cbn [request http] in H. unfold http_request in H.
    apply bind_ok in H as ([i lb] & _ & H). apply bind_ok in H as (line & _ & H).
    destruct (strstr _ _); [|injection H as <-; by split_and!].
    apply bind_ok in H as (? & _ & H). apply bind_ok in H as (? & _ & H). apply bind_ok in H as (? & _ & H).
    apply bind_ok in H as (? & _ & H). injection H as <-. by split_and!.
  - intros e x H. cbn [request http] in H.
    apply (bind_oob _ _ _ H); [apply WebSocket.readline_fault|]. intros [i lb] _ H1.
    apply (bind_oob _ _ _ H1); [apply cstr_fault|]. intros line _ H2. destruct (strstr _ _); [|done].
    apply (bind_oob _ _ _ H2); [intros y; apply find_space_fault; lia|]. intros k _ H3.
    apply (bind_oob _ _ _ H3); [apply aset_fault|]. intros lb' _ H4.
    apply (bind_oob _ _ _ H4); [apply cstr_fault|]. intros u _ H5.
    apply (bind_oob _ _ _ H5); [apply splice_fault|done].
  - intros e e' Hl H. cbn [respond http] in H. unfold http_response, reply in H.
    assert (Hr : ∀ c s, reply e c s = Ok e' → same_control e e').
    { intros c s Hs. unfold reply in Hs. apply bind_ok in Hs as (b & Hb & Hs). injection Hs as <-.
      split_and!; try done. cbn. by rewrite (splice_length _ _ _ _ Hb), length_replicate. }
    apply bind_ok in H as (path & _ & H). destruct (open path) as [[| |]|]; [by apply Hr in H|by apply Hr in H| |by apply Hr in H].
    injection H as <-. split_and!; [done|done|done|done|]. cbn [NtyReactor.set_buffer buffer].
    by rewrite Hl.
  - intros e x H. cbn [respond http] in H.
    apply (bind_oob _ _ _ H); [apply cstr_fault|]. intros path _ H1.
    assert (Hr : ∀ c s, reply e c s = Err x → x = OutOfBounds)
      by (intros c s Hs; apply (bind_oob _ _ _ Hs); [apply splice_fault|done]).
    destruct (open path) as [[| |]|]; [by apply Hr in H1|by apply Hr in H1|done|by apply Hr in H1].
Qed.

(** ** A request served *)

(** The event after the request has been read, and the reply to it. *)
Lemma request_then_response e path version rest junk content : get_ok path version rest →
  length (resource (ext e)) = Z.to_nat BUFFER_LENGTH →
  buffer e = get_line path version ++ CRLF ++ rest ++ 0 :: junk → ∃ e1, http_request e = Ok e1 ∧
  ∀ e', ext e' = ext e1 → open (bytes "./html/" ++ path) = Some (Reg content) →
    let header := head_200 (Z.of_nat (length content)) in
    ∃ e2, http_response e' = Ok e2 ∧ length_ e2 = Z.of_nat (length header) ∧
      slice (buffer e2) 0 (length_ e2) = Ok header ∧ send_file e2 = Some content.
Proof.
  intros Hok Hres Hb. destruct (http_request_spec e path version rest junk Hok Hres Hb) as (r & -> & Hc & _).
  eexists. split; [done|]. intros e' He Hf header. unfold http_response. rewrite He. cbn [ext NtyReactor.set_ext resource method].
  rewrite Hc, ok_bind, Hf. rewrite reply_ok; fold header.
  - eexists. split; [done|]. split; [done|]. split; [|unfold send_file; cbn; rewrite He; cbn; by rewrite Hc, Hf].
    cbn [NtyReactor.set_ext NtyReactor.set_buffer buffer length_]. rewrite slice_ok by (rewrite ?length_app; lia).
    by rewrite drop_0, Nat2Z.id, take_app_length.
  - unfold header, head_200. pose proof (decimal_length (Z.of_nat (length content))). rewrite !length_app. unfold BUFFER_LENGTH. simpl. lia.
Qed.

(** C36: a request for a regular file under the root, in a message of fewer than 4096 bytes without null bytes and with a
    request line that fits [linebuf], that comes to a connection, while the file does not change: [recv_cb] reads it whole, and [send_cb] answers with a header of code 200 that gives the
    length of the file in decimal, and then the file.  What goes out is as much of the header as [send] takes, which is
    at least one byte, and as much of the file as [sendfile] takes, each from its start; what either leaves is never sent, as
    the connection then waits for the next request. *)
Theorem http_get_served (W : NtyReactor.world) asl es f p (e : event) path version rest content rl a m sl : NtyReactor.inv W asl es → NtyReactor.slot asl f p →
  es !! Z.to_nat f = Some e → length (resource (ext e)) = Z.to_nat BUFFER_LENGTH → get_ok path version rest →
  let msg := get_line path version ++ CRLF ++ rest in
  let header := head_200 (Z.of_nat (length content)) in
  Z.of_nat (length msg) < BUFFER_LENGTH → NtyReactor.recvs (NtyReactor.kn W) = Some msg :: rl →
  NtyReactor.sends (NtyReactor.kn W) = a :: m :: sl → 0 < a →
  open (bytes "./html/" ++ path) = Some (Reg content) → ∃ W1 W2,
  NtyReactor.recv_cb W f = Ok (Z.of_nat (length msg), W1) ∧
  NtyReactor.send_cb W1 f = Ok (Z.min a (Z.of_nat (length header)), W2) ∧
  NtyReactor.sent (NtyReactor.kn W2) = NtyReactor.sent (NtyReactor.kn W) ++ [(f, take (Z.to_nat a) header)] ++
    (if 0 <? Z.min m (Z.of_nat (length content)) then [(f, take (Z.to_nat m) content)] else []) ∧
  NtyReactor.epoll (NtyReactor.kn W2) !! f = Some (EPOLLIN, p).
Proof.
  intros HI Hs He Hres Hok msg header Hlen Hrl Hsl Ha Hf.
  assert (Hbl : length (buffer e) = Z.to_nat BUFFER_LENGTH) by exact (Forall_lookup_1 _ _ _ _ (NtyReactor.inv_buf _ _ _ HI) He).
  assert (Hlt : (length msg < length (buffer e))%nat) by (rewrite Hbl; clear -Hlen; clearbody msg; unfold BUFFER_LENGTH in *; lia).
  destruct (drop (length msg) (buffer e)) as [|y junk] eqn:Hd.
  { apply (f_equal length) in Hd. rewrite length_drop in Hd. change (length []) with 0%nat in Hd. clear -Hd Hlt. lia. }
  assert (splice (buffer e) 0 msg = Ok (msg ++ y :: junk)) as Hb by (rewrite splice_over, Hd; [done|lia]).
  assert (aset (msg ++ y :: junk) (Z.of_nat (length msg)) 0 = Ok (msg ++ 0 :: junk)) as Hb' by by apply aset_mid.
  destruct (request_then_response (NtyReactor.set_buffer e (msg ++ 0 :: junk) (Z.of_nat (length msg))) path version rest junk content Hok Hres)
    as (e1 & Hreq & Hresp); [unfold msg; cbn; by rewrite <-!app_assoc|].
  destruct (NtyReactor.recv_cb_step W asl es f e p msg rl (msg ++ y :: junk) (msg ++ 0 :: junk) e1 HI Hs He Hrl) as (W1 & asl1 & es1 & E1 & HI1 & He1 & HK1);
    [done|apply take_ge; lia|exact Hb|exact Hb'|exact Hreq|].
  exists W1. destruct (Hresp _ (eq_refl : ext (NtyEvent f EPOLLOUT (Some send_cb_) 1 (buffer e1) (length_ e1) (NtyReactor.now (NtyReactor.kn W)) (ext e1)) = ext e1) Hf)
    as (e2 & Hr2 & Hl2 & Hsc & Hbody). fold header in Hl2, Hsc.
  assert (0 < Z.of_nat (length header)) as Hh by (unfold header, head_200; rewrite length_app; simpl; lia).
  destruct (NtyReactor.send_cb_step W1 _ es1 f _ p e2 header a (m :: sl) HI1 ltac:(by apply NtyReactor.slot_app) He1 Hr2 Hsc)
    as (W2 & asl2 & es2 & E2 & _ & HK2); [rewrite HK1; exact Hsl|rewrite Hl2; lia|].
  rewrite Hl2 in E2, HK2. exists W2. split; [exact E1|]. split; [exact E2|]. rewrite HK2, HK1. split; [|apply lookup_insert_eq].
  replace (take (Z.to_nat (Z.min a (Z.of_nat (length header)))) header) with (take (Z.to_nat a) header).
  - cbn [body http]. rewrite Hbody. unfold NtyReactor.send_body. cbn. destruct (0 <? _); cbn; by rewrite <-?app_assoc.
  - destruct (Z.min_spec a (Z.of_nat (length header))) as [[_ ->]|[? ->]]; [done|]. rewrite !take_ge; [done|lia..].
Qed.

Lemma find_space_none l : ∀ fuel i, 0 ≤ i → SPACE ∉ drop (Z.to_nat (sizeof_GET + i)) l →
  (length l < fuel + Z.to_nat i)%nat → (fuel ≠ 0)%nat → find_space fuel l i = Err OutOfBounds.
Proof.
  intros fuel. induction fuel as [|fuel IH]; intros i Hi Hs Hf H0; [done|]. cbn [find_space].
  destruct (aget l (sizeof_GET + i)) as [c|x] eqn:Hc; [|by apply aget_fault in Hc as ->].
  rewrite ok_bind. unfold aget in Hc. destruct (Z.leb_spec 0 (sizeof_GET + i)); [|done]. apply get_or_ok in Hc.
  pose proof (lookup_lt_Some _ _ _ Hc) as Hlt. unfold sizeof_GET in *.
  rewrite (drop_S _ _ _ Hc) in Hs. apply not_elem_of_cons in Hs as [Hcs Hs].
  rewrite (proj2 (Z.eqb_neq c SPACE)) by done. apply IH; [lia| |lia|lia].
  replace (Z.to_nat (5 + (i + 1))) with (S (Z.to_nat (5 + i))) by lia. done.
Qed.

(** a request line that has no space after its first five bytes makes the server search
    beyond [linebuf]. *)
Theorem http_request_overreads e line rest junk : Forall (λ x, x ≠ 0 ∧ x ≠ CR) line → Forall (λ x, x ≠ 0) rest →
  (length line < 1024)%nat → strstr line (bytes "GET") = true → SPACE ∉ drop 5 line →
  buffer e = line ++ CRLF ++ rest ++ 0 :: junk → http_request e = Err OutOfBounds.
Proof.
  intros Hl Hr Hlen Hget Hs Hb. unfold http_request, readline. rewrite Hb.
  pose proof (WebSocket.readline_spec [] line rest junk ltac:(constructor) Hl Hr Hlen) as Hrl.
  change (CRLF ++ rest ++ 0 :: junk) with (CR :: LF :: rest ++ 0 :: junk). cbn [app length] in Hrl.
  change (Z.of_nat 0) with 0 in Hrl. rewrite Hrl, ok_bind, cstr_padded, ok_bind by (by apply WebSocket.plain_nonzero || lia).
  rewrite Hget, find_space_none; [done|lia| |lia|lia]. rewrite drop_app. change (Z.to_nat (sizeof_GET + 0)) with 5%nat.
  rewrite drop_replicate. intros [Hin|Hin]%elem_of_app; [done|]. by apply elem_of_replicate in Hin as [? _].
Qed.

(** a request that is not a GET changes nothing, so it is answered as the connection's,
    or the descriptor's, last GET was. *)
Theorem http_other_repeats e line rest junk : Forall (λ x, x ≠ 0 ∧ x ≠ CR) line → Forall (λ x, x ≠ 0) rest →
  (length line < 1024)%nat → strstr line (bytes "GET") = false →
  buffer e = line ++ CRLF ++ rest ++ 0 :: junk → http_request e = Ok e.
Proof.
  intros Hl Hr Hlen Hget Hb. unfold http_request, readline. rewrite Hb.
  pose proof (WebSocket.readline_spec [] line rest junk ltac:(constructor) Hl Hr Hlen) as Hrl.
  change (CRLF ++ rest ++ 0 :: junk) with (CR :: LF :: rest ++ 0 :: junk). cbn [app length] in Hrl.
  change (Z.of_nat 0) with 0 in Hrl. rewrite Hrl, ok_bind, cstr_padded, ok_bind by (by apply WebSocket.plain_nonzero || lia).
  by rewrite Hget.
Qed.

(** What the response promises when there is no file: 85 bytes. *)
Lemma page_404_short : length page_404 = 83%nat.
Proof. reflexivity. Qed.

End http.

(** The decimal digits of a number denote it. *)
Definition undecimal (l : list Z) : Z := foldl (λ n d, n * 10 + (d - 48)) 0 l.

(** the length printed in a header reads back as the number it stands for. *)
Theorem decimal_roundtrip (content : list Z) : Z.of_nat (length content) < 10 ^ 20 → ∃ before after ds,
  head_200 (Z.of_nat (length content)) = before ++ ds ++ after ∧
  Forall (λ d, 48 ≤ d ≤ 57) ds ∧ undecimal ds = Z.of_nat (length content).
Proof.
  intros Hlt.
  exists (bytes "HTTP/1.1 200 OK" ++ CRLF ++ common ++ bytes "Content-Length: "), (CRLF ++ CRLF), (decimal (Z.of_nat (length content))).
  split; [unfold head_200; by rewrite <-!app_assoc|]. revert Hlt. set (n := Z.of_nat (length content)).
  assert (Hn : 0 ≤ n) by lia. clearbody n. clear content. unfold decimal. change 20 with (Z.of_nat 20). revert n Hn.
  generalize 20%nat. intros k. induction k as [|k IH]; intros n Hn Hlt.
  - change (10 ^ Z.of_nat 0) with 1 in Hlt. assert (n = 0) as -> by lia. by split.
  - cbn [digits]. destruct (Z.ltb_spec n 10); [split; [by repeat constructor; lia|unfold undecimal; simpl; lia]|].
    rewrite Nat2Z.inj_succ, Z.pow_succ_r in Hlt by lia.
    destruct (IH (n / 10)) as [IH1 IH2]; [zdiv|zdiv|]. split.
    + apply Forall_app. split; [done|]. repeat constructor; zdiv.
    + unfold undecimal in *. rewrite foldl_app, IH2. simpl. zdiv.
Qed.

(** ** The theorems at work *)

Definition ex_file (p : list Z) : option file :=
  if bool_decide (p = bytes "./html/a") then Some (Reg (bytes "hello")) else None.
Definition ex_event (b : list Z) : event :=
  NtyEvent 9 EPOLLIN (Some recv_cb_) 1 b 0 0 (Param 0 (replicate (Z.to_nat BUFFER_LENGTH) 0) 0).

(** A reactor that has just been started; [send] takes all it gets, [sendfile] three bytes. *)
Definition ex_msg : list Z := get_line [97] (bytes "HTTP/1.1") ++ CRLF ++ CRLF.
Definition ex_world : NtyReactor.world (X := http_param) :=
  NtyReactor.World (snd (NtyReactor.ntyreactor_init (H := http ex_file) 5 1 ([], true)))
    (NtyReactor.Kernel ∅ 0 [Some ex_msg] [4096; 3] [] [] []).

Example http_get_served_witness : ∃ W1 W2,
  NtyReactor.recv_cb (H := http ex_file) ex_world 9 = Ok (19, W1) ∧
  NtyReactor.send_cb (H := http ex_file) W1 9 = Ok (Z.min 4096 (Z.of_nat (length (head_200 5))), W2) ∧
  NtyReactor.sent (NtyReactor.kn W2) = [(9, take 4096 (head_200 5)); (9, bytes "hel")] ∧
  NtyReactor.epoll (NtyReactor.kn W2) !! 9 = Some (EPOLLIN, (1, 9)).
Proof.
  refine (http_get_served ex_file ex_world [1] (replicate (Z.to_nat MAX_EPOLL_EVENTS) (NtyReactor.zero_event (H := http ex_file))) 9 (1, 9)
    (NtyReactor.zero_event (H := http ex_file)) [97] (bytes "HTTP/1.1") CRLF (bytes "hello") [] 4096 3 [] _ _ _ _ _ _ eq_refl eq_refl _ eq_refl).
  - by apply (NtyReactor.init_inv (H := http ex_file) 5 1 ([], true)).
  - by split_and!.
  - apply lookup_replicate. split; [done|]. unfold MAX_EPOLL_EVENTS. lia.
  - apply length_replicate.
  - split; [|apply (bool_decide_eq_true_1 (Forall (λ x, x ≠ 0 ∧ x ≠ CR) _)); by vm_compute|by repeat constructor|simpl; lia].
    split; [by repeat constructor|]. by apply (bool_decide_eq_true_1 (SPACE ∉ [97])).
  - by vm_compute.
  - lia.
Defined.

Example http_request_overreads_witness :
  http_request (ex_event (bytes "GET /a" ++ CRLF ++ CRLF ++ 0 :: replicate 100 0)) = Err OutOfBounds.
Proof.
  refine (http_request_overreads (ex_event (bytes "GET /a" ++ CRLF ++ CRLF ++ 0 :: replicate 100 0)) (bytes "GET /a") CRLF (replicate 100 0) _ _ _ eq_refl _ eq_refl).
  - apply (bool_decide_eq_true_1 (Forall (λ x, x ≠ 0 ∧ x ≠ CR) _)). by vm_compute.
  - by repeat constructor.
  - simpl. lia.
  - by apply (bool_decide_eq_true_1 (SPACE ∉ _)).
Defined.

Example http_other_repeats_witness :
  http_request (ex_event (bytes "POST /a HTTP/1.1" ++ CRLF ++ CRLF ++ 0 :: replicate 100 0)) =
  Ok (ex_event (bytes "POST /a HTTP/1.1" ++ CRLF ++ CRLF ++ 0 :: replicate 100 0)).
Proof.
  refine (http_other_repeats (ex_event (bytes "POST /a HTTP/1.1" ++ CRLF ++ CRLF ++ 0 :: replicate 100 0)) (bytes "POST /a HTTP/1.1") CRLF (replicate 100 0) _ _ _ eq_refl eq_refl).
  - apply (bool_decide_eq_true_1 (Forall (λ x, x ≠ 0 ∧ x ≠ CR) _)). by vm_compute.
  - by repeat constructor.
  - simpl. lia.
Defined.

Example decimal_roundtrip_witness : ∃ before after ds,
  head_200 5 = before ++ ds ++ after ∧ Forall (λ d, 48 ≤ d ≤ 57) ds ∧ undecimal ds = 5.
Proof. apply (decimal_roundtrip (bytes "hello")). simpl. lia. Defined.

End Http.
