(* ===== verification/Dns.v ===== *)
(** * The asynchronous DNS client of 6.3async/async/async_dns_client_noblock.c

    Encoding of the question, decoding of names and responses, and the client that
    sends queries and reports their results.  Host integers are little-endian.  The
    printed lines are left out; [inet_ntop] and [strtok] are modelled after the C
    library. *)

From S2P Require Import Prelude CMem.

Module Dns.

(** ** Data *)

(* src: 6.3async/async/async_dns_client_noblock.c:26-27 DNS_HOST *)
Definition DNS_HOST : Z := 1.
Definition DNS_CNAME : Z := 5.
Definition DOT : Z := 46.

(** The fields as the host reads them. *)
(* src: 6.3async/async/async_dns_client_noblock.c:32-39 dns_header *)
Record dns_header : Type := Header { id : Z; flags : Z; qdcount : Z; ancount : Z; nscount : Z; arcount : Z }.

(* src: 6.3async/async/async_dns_client_noblock.c:41-46 dns_question *)
Record dns_question : Type := Question { length_ : Z; qtype : Z; qclass : Z; qname : list Z }.

(* src: 6.3async/async/async_dns_client_noblock.c:48-51 dns_item *)
Record dns_item : Type := Item { domain : list Z; ip : list Z }.

(** ** Sixteen-bit integers *)

Definition htons (z : Z) : Z := (z mod 256) * 256 + (z / 256) mod 256.
Definition le16 (z : Z) : list Z := [z mod 256; (z / 256) mod 256].
(** [ntohs] of the two bytes at [p]. *)
Definition be16 (buf : list Z) (p : Z) : res Z :=
  a ← aget buf p; b ← aget buf (p + 1); Ok (a * 256 + b).

(** ** The question *)

(** The tokens that successive calls of [strtok] with the delimiter "." return. *)
Fixpoint tokens (cur s : list Z) : list (list Z) :=
  match s with
  | [] => match cur with [] => [] | _ => [cur] end
  | c :: s =>
      if c =? DOT then match cur with [] => tokens [] s | _ => cur :: tokens [] s end
      else tokens (cur ++ [c]) s
  end.

(** The loop over the tokens; [p] is [qname_p]. *)
Fixpoint put_labels (toks : list (list Z)) (q : list Z) (p : Z) : res (list Z) :=
  match toks with
  | [] => Ok q
  | t :: toks =>
      q ← aset q p (u8 (Z.of_nat (length t)));
      q ← splice q (p + 1) (t ++ [0]);
      put_labels toks q (p + 1 + Z.of_nat (length t))
  end.

(** [rnd] is the result of [random]. *)
(* src: 6.3async/async/async_dns_client_noblock.c:65-77 dns_create_header *)
Definition dns_create_header (rnd : Z) : dns_header :=
  Header (u16 rnd) (htons 256) (htons 1) 0 0 0.

(** [malloc_ok] and [junk]: whether the name can be allocated, and what its memory holds. *)
(* src: 6.3async/async/async_dns_client_noblock.c:79-116 dns_create_question *)
Definition dns_create_question (malloc_ok : bool) (junk : Z) (hostname : list Z) : res (Z * dns_question) :=
  if negb malloc_ok then Ok (-2, Question 0 0 0 [])
  else
    let n := Z.of_nat (length hostname) + 2 in
    q ← put_labels (tokens [] hostname) (replicate (Z.to_nat n) junk) 0;
    Ok (0, Question n (htons 1) (htons 1) q).

Definition header_bytes (h : dns_header) : list Z :=
  le16 (id h) ++ le16 (flags h) ++ le16 (qdcount h) ++ le16 (ancount h) ++ le16 (nscount h) ++ le16 (arcount h).

(* src: 6.3async/async/async_dns_client_noblock.c:118-139 dns_build_request *)
Definition dns_build_request (header : dns_header) (question : dns_question) (request : list Z) : res (Z * list Z) :=
  let length := length_ question + 2 + 2 + 12 in
  r ← splice request 0 (header_bytes header);
  name ← slice (qname question) 0 (length_ question);
  r ← splice r 12 name;
  let offset := 12 + length_ question in
  r ← splice r offset (le16 (qtype question));
  r ← splice r (offset + 2) (le16 (qclass question));
  Ok (length, r).

(** ** The response *)

(* src: 6.3async/async/async_dns_client_noblock.c:141-143 is_pointer *)
Definition is_pointer (n : Z) : bool := Z.land n 192 =? 192.

(** [ptr] is a position of [chunk], [pos] one of [out]; the result is [out] and [*len]. *)
(* src: 6.3async/async/async_dns_client_noblock.c:160-194 dns_parse_name *)
Fixpoint dns_parse_name (fuel : nat) (chunk : list Z) (ptr : Z) (out : list Z) (len pos : Z) : res (list Z * Z) :=
  match fuel with
  | O => Err OutOfFuel
  | S fuel =>
      flag ← aget chunk ptr;
      if flag =? 0 then Ok (out, len)
      else if is_pointer flag then
        n ← aget chunk (ptr + 1);
        dns_parse_name fuel chunk n out len len
      else
        label ← slice chunk (ptr + 1) flag;
        out ← splice out pos label;
        let pos := pos + flag in
        let ptr := ptr + 1 + flag in
        let len := len + flag in
        c ← aget chunk ptr;
        if negb (c =? 0) then
          out ← aset out pos DOT;
          dns_parse_name fuel chunk ptr out (len + 1) (pos + 1)
        else dns_parse_name fuel chunk ptr out len pos
  end.

(** Over the labels of a question. *)
Fixpoint skip_name (fuel : nat) (buf : list Z) (ptr : Z) : res Z :=
  match fuel with
  | O => Err OutOfFuel
  | S fuel => flag ← aget buf ptr; if flag =? 0 then Ok (ptr + 1) else skip_name fuel buf (ptr + flag + 1)
  end.

Fixpoint skip_questions (n : nat) (buf : list Z) (ptr : Z) : res Z :=
  match n with
  | O => Ok ptr
  | S n => ptr ← skip_name (S (length buf)) buf ptr; skip_questions n buf (ptr + 4)
  end.

(** The text of an IPv4 address. *)
Definition inet_ntop (a : list Z) : list Z :=
  match a with
  | [a; b; c; d] => decimal a ++ [DOT] ++ decimal b ++ [DOT] ++ decimal c ++ [DOT] ++ decimal d
  | _ => []
  end.

(** The loop over the answers: [n] are left, [cnt] is the length of [items]. *)
Fixpoint parse_answers (n fuel : nat) (buf : list Z) (ptr : Z) (items : list dns_item) : res (list dns_item) :=
  match n with
  | O => Ok items
  | S n =>
      '(aname, _) ← dns_parse_name fuel buf ptr (replicate 128 0) 0 0;
      let ptr := ptr + 2 in
      type ← be16 buf ptr;
      let ptr := ptr + 4 in
      ttl ← be16 buf ptr;
      let ptr := ptr + 4 in
      datalen ← be16 buf ptr;
      let ptr := ptr + 2 in
      if type =? DNS_CNAME then
        '(cname, _) ← dns_parse_name fuel buf ptr (replicate 128 0) 0 0;
        parse_answers n fuel buf (ptr + datalen) items
      else if type =? DNS_HOST then
        if datalen =? 4 then
          netip ← slice buf ptr datalen;
          s ← cstr aname;
          parse_answers n fuel buf (ptr + datalen) (items ++ [Item s (inet_ntop netip)])
        else parse_answers n fuel buf (ptr + datalen) items
      else parse_answers n fuel buf ptr items
  end.

(** [calloc_ok]: whether the list of results can be allocated. *)
(* src: 6.3async/async/async_dns_client_noblock.c:197-281 dns_parse_response *)
Definition dns_parse_response (fuel : nat) (calloc_ok : bool) (buffer : list Z) : res (Z * list dns_item) :=
  querys ← be16 buffer 4;
  answers ← be16 buffer 6;
  ptr ← skip_questions (Z.to_nat querys) buffer 12;
  if negb calloc_ok then Ok (-1, [])
  else
    items ← parse_answers (Z.to_nat answers) fuel buffer ptr [];
    Ok (Z.of_nat (length items), items).

(** ** The client *)

(** The queries in flight: the epoll set gives the address of each socket's [ep_arg],
    which holds the socket again.  What is sent, reported and closed is recorded; the
    callback is called with the list and its count. *)
(* src: 6.3async/async/async_dns_client_noblock.c:56-63 async_context *)
Record async_context : Type := Ctx {
  epoll : gmap Z Z;
  ep_args : gmap Z Z;
  brk : Z;
  sent : list (Z * list Z);
  results : list (list dns_item * Z);
  closed : list Z
}.

(* src: 6.3async/async/async_dns_client_noblock.c:408-429 dns_async_client_init *)
Definition dns_async_client_init (epfd : Z) (calloc_ok thread_ok : bool) : option async_context :=
  if epfd <? 0 then None else if negb calloc_ok then None else if negb thread_ok then None
  else Some (Ctx ∅ ∅ 1 [] [] []).

(** [sock], [rnd], [malloc_ok], [calloc_ok] and [ctl] are the results of [socket],
    [random], the two allocations and [epoll_ctl]; without a socket the process ends. *)
(* src: 6.3async/async/async_dns_client_noblock.c:437-484 dns_async_client_commit *)
Definition dns_async_client_commit (C : async_context) (sock rnd : Z) (malloc_ok : bool) (junk : Z)
    (calloc_ok : bool) (ctl : Z) (host : list Z) : res (option (Z * async_context)) :=
  if sock <? 0 then Ok None
  else
    let header := dns_create_header rnd in
    '(_, question) ← dns_create_question malloc_ok junk host;
    '(req_len, request) ← dns_build_request header question (replicate 1024 0);
    dgram ← slice request 0 req_len;
    let out := sent C ++ [(sock, dgram)] in
    if negb calloc_ok then Ok (Some (-1, Ctx (epoll C) (ep_args C) (brk C) out (results C) (closed C)))
    else
      let ep := if ctl =? 0 then <[sock := brk C]> (epoll C) else epoll C in
      Ok (Some (ctl, Ctx ep (<[brk C := sock]> (ep_args C)) (brk C + 1) out (results C) (closed C))).

(** A report of [epoll_wait]: the [ep_arg] and the datagram received, empty for an error;
    [calloc_ok] as for [dns_parse_response]. *)
Definition handle (fuel : nat) (C : async_context) (a : Z) (dgram : list Z) (calloc_ok : bool) : res async_context :=
  sock ← get_or UseAfterFree (ep_args C !! a);
  let buffer := take 1024 dgram ++ replicate (1024 - length dgram) 0 in
  '(count, items) ← dns_parse_response fuel calloc_ok buffer;
  Ok (Ctx (delete sock (epoll C)) (delete a (ep_args C)) (brk C) (sent C) (results C ++ [(items, count)])
    (closed C ++ [sock])).

(** The rounds of the thread; it ends when [epoll_wait] fails. *)
(* src: 6.3async/async/async_dns_client_noblock.c:350-399 dns_async_client_proc *)
Fixpoint dns_async_client_proc (fuel : nat) (C : async_context) (reports : list (Z * list Z * bool)) : res async_context :=
  match reports with
  | [] => Ok C
  | (a, dgram, ok) :: reports => C ← handle fuel C a dgram ok; dns_async_client_proc fuel C reports
  end.

(** ** Names: what they denote *)

(** The labels of the name at [p], in [k] steps; a pointer's offset is its second byte
    when the six bits before it are zero. *)
Inductive labels_at (buf : list Z) : nat → Z → list (list Z) → Prop :=
  | la_end k p : aget buf p = Ok 0 → labels_at buf (S k) p []
  | la_label k p l ls : aget buf p = Ok (Z.of_nat (length l)) → (0 < length l < 64)%nat →
      slice buf (p + 1) (Z.of_nat (length l)) = Ok l →
      labels_at buf k (p + 1 + Z.of_nat (length l)) ls → labels_at buf (S k) p (l :: ls)
  | la_pointer k p o ls : aget buf p = Ok 192 → aget buf (p + 1) = Ok o → ls ≠ [] →
      labels_at buf k o ls → labels_at buf (S k) p ls.

(** The labels with dots between them. *)
Fixpoint dotted (ls : list (list Z)) : list Z :=
  match ls with
  | [] => []
  | [l] => l
  | l :: ls => l ++ [DOT] ++ dotted ls
  end.

Lemma label_no_pointer n : (0 < n < 64)%nat → is_pointer (Z.of_nat n) = false ∧ (Z.of_nat n =? 0) = false.
Proof.
  intros Hn. split; [|apply Z.eqb_neq; lia]. unfold is_pointer. apply Z.eqb_neq.
  rewrite <-(Z.mod_small (Z.of_nat n) (2 ^ 6)) by lia. rewrite <-land_mask by lia.
  rewrite <-Z.land_assoc. change (Z.land (2 ^ 6 - 1) 192) with 0. by rewrite Z.land_0_r.
Qed.

Lemma labels_at_mono buf k p ls : labels_at buf k p ls → ∀ k', (k ≤ k')%nat → labels_at buf k' p ls.
Proof.
  induction 1 as [k p H0|k p l ls Hlen Hl Hs Hrest IH|k p o ls Hc Ho Hne Hrest IH]; intros [|k'] Hk; try lia.
  - by apply la_end.
  - apply la_label; try done. apply IH. lia.
  - apply (la_pointer _ _ _ o); try done. apply IH. lia.
Qed.

Lemma dotted_cons l l2 ls : dotted (l :: l2 :: ls) = l ++ [DOT] ++ dotted (l2 :: ls).
Proof. done. Qed.

(** The text written so far is kept in front. *)
Lemma parse_name_spec buf k p ls : labels_at buf k p ls → ∀ fuel d zs, (k ≤ fuel)%nat →
  (length (dotted ls) ≤ length zs)%nat →
  dns_parse_name fuel buf p (d ++ zs) (Z.of_nat (length d)) (Z.of_nat (length d)) =
  Ok (d ++ dotted ls ++ drop (length (dotted ls)) zs, Z.of_nat (length d + length (dotted ls))).
Proof.
  induction 1 as [k p H0|k p l ls Hlen Hl Hs Hrest IH|k p o ls Hc Ho Hne Hrest IH];
    intros [|fuel] d zs Hf Hz; try lia; cbn [dns_parse_name].
  - rewrite H0, ok_bind. cbn. do 2 f_equal. lia.
  - rewrite Hlen, ok_bind. destruct (label_no_pointer _ Hl) as [-> ->]. rewrite Hs, ok_bind.
    assert (Hzl : (length l ≤ length zs)%nat) by (destruct ls; simpl in Hz; rewrite ?length_app in Hz; lia).
    assert (Hsp : splice (d ++ zs) (Z.of_nat (length d)) l = Ok ((d ++ l) ++ drop (length l) zs)).
    { rewrite <-(take_drop (length l) zs) at 1. rewrite splice_mid; [by rewrite app_assoc|done|].
      rewrite length_take. lia. }
    rewrite Hsp, ok_bind. destruct ls as [|l2 ls].
    + inversion Hrest as [k' p' H0| |]; subst; [|done]. rewrite H0, ok_bind. cbn [Z.eqb negb].
      replace (Z.of_nat (length d) + Z.of_nat (length l)) with (Z.of_nat (length (d ++ l))) by (rewrite length_app; lia).
      rewrite (IH fuel (d ++ l) (drop (length l) zs)) by (simpl; lia). cbn [dotted length app drop].
      rewrite length_app, <-app_assoc. do 2 f_equal. lia.
    + assert (Hc : ∃ c, aget buf (p + 1 + Z.of_nat (length l)) = Ok c ∧ c ≠ 0).
      { inversion Hrest as [|k' p' l' ls' Hlen' Hl' _ _ |k' p' o' ls' Hc' _ _ _]; subst; eexists; (split; [eassumption|lia]). }
      destruct Hc as (c & -> & Hc). rewrite ok_bind, (proj2 (Z.eqb_neq _ _) Hc). cbn [negb].
      rewrite dotted_cons, !length_app in Hz. cbn [length] in Hz.
      destruct (drop (length l) zs) as [|z zs'] eqn:Hdz.
      { apply (f_equal length) in Hdz. rewrite length_drop in Hdz. simpl in Hdz. lia. }
      assert (Hzs : length zs = (length l + S (length zs'))%nat)
        by (apply (f_equal length) in Hdz; rewrite length_drop in Hdz; simpl in Hdz; lia).
      rewrite aset_mid, ok_bind by (rewrite length_app; lia).
      rewrite (cons_middle DOT (d ++ l)), (app_assoc (d ++ l)).
      replace (Z.of_nat (length d) + Z.of_nat (length l) + 1) with (Z.of_nat (length ((d ++ l) ++ [DOT])))
        by (rewrite !length_app; simpl; lia).
      rewrite (IH fuel ((d ++ l) ++ [DOT]) zs') by lia. rewrite dotted_cons, !length_app. cbn [length].
      f_equal. f_equal; [|lia]. rewrite <-!app_assoc. do 4 f_equal.
      replace (length l + (1 + length (dotted (l2 :: ls))))%nat with (length l + 1 + length (dotted (l2 :: ls)))%nat by lia.
      rewrite <-!drop_drop, Hdz. done.
  - rewrite Hc, ok_bind. cbn [Z.eqb]. change (is_pointer 192) with true. rewrite Ho, ok_bind. by apply IH; [lia|].
Qed.

(** ** Encoding *)

(** A label of a host name. *)
Definition label (l : list Z) : Prop := (0 < length l < 64)%nat ∧ DOT ∉ l ∧ 0 ∉ l.

(** The wire format of a name. *)
Definition encode (ls : list (list Z)) : list Z := concat (map (λ l, Z.of_nat (length l) :: l) ls) ++ [0].

Lemma encode_cons l ls : encode (l :: ls) = Z.of_nat (length l) :: l ++ encode ls.
Proof. unfold encode. cbn [map concat app]. by rewrite <-app_assoc. Qed.

Lemma encode_length ls : ls ≠ [] → length (encode ls) = (length (dotted ls) + 2)%nat.
Proof.
  intros Hne. induction ls as [|l [|l2 ls] IH]; [done| |].
  - rewrite encode_cons. simpl. rewrite length_app. simpl. lia.
  - rewrite encode_cons, dotted_cons. cbn [length]. rewrite !length_app, IH by done. simpl. lia.
Qed.

Lemma tokens_label l : ∀ cur s, DOT ∉ l → tokens cur (l ++ s) = tokens (cur ++ l) s.
Proof.
  induction l as [|c l IH]; intros cur s Hl; cbn [app tokens]; [by rewrite app_nil_r|].
  apply not_elem_of_cons in Hl as [Hc Hl]. rewrite (proj2 (Z.eqb_neq c DOT)) by done.
  rewrite IH by done. by rewrite <-app_assoc.
Qed.

Lemma tokens_dotted ls : Forall label ls → tokens [] (dotted ls) = ls.
Proof.
  induction 1 as [|l [|l2 ls] [Hl [Hd _]] _ IH]; [done| |].
  - cbn [dotted]. rewrite <-(app_nil_r l), tokens_label, app_nil_r by (by rewrite ?app_nil_r).
    cbn [app tokens]. destruct l; [simpl in Hl; lia|done].
  - rewrite dotted_cons, tokens_label by done. cbn [app tokens]. rewrite Z.eqb_refl.
    destruct l; [simpl in Hl; lia|]. by rewrite IH.
Qed.

Lemma put_labels_spec ls : ∀ d r, Forall label ls → ls ≠ [] → length r = length (encode ls) →
  put_labels ls (d ++ r) (Z.of_nat (length d)) = Ok (d ++ encode ls).
Proof.
  induction ls as [|l ls IH]; intros d r Hl Hne Hr; [done|]. apply Forall_cons in Hl as [[Hll _] Hl].
  rewrite encode_cons in Hr. destruct r as [|x r]; [done|]. cbn [length] in Hr. rewrite length_app in Hr.
  cbn [put_labels]. rewrite aset_mid, ok_bind by done. unfold u8. rewrite Z.mod_small by (simpl; lia).
  assert (Hel : (0 < length (encode ls))%nat) by (unfold encode; rewrite length_app; simpl; lia).
  set (n := Z.of_nat (length l)). rewrite (cons_middle n), app_assoc.
  rewrite <-(take_drop (length l + 1) r). rewrite splice_mid;
    [|rewrite length_app; simpl; lia|rewrite length_take, length_app; simpl; lia].
  rewrite ok_bind, encode_cons. destruct ls as [|l2 ls].
  - cbn [put_labels]. rewrite drop_ge by (unfold encode in Hr; simpl in *; lia).
    by rewrite app_nil_r, <-!app_assoc.
  - replace (((d ++ [n]) ++ (l ++ [0]) ++ drop (length l + 1) r)) with ((d ++ n :: l) ++ 0 :: drop (length l + 1) r)
      by (rewrite <-!app_assoc; done).
    replace (Z.of_nat (length d) + 1 + n) with (Z.of_nat (length (d ++ n :: l))) by (rewrite length_app; simpl; lia).
    rewrite IH; [by rewrite <-app_assoc|done|done|]. cbn [length]. rewrite length_drop. lia.
Qed.

Lemma labels_at_encode ls : ∀ buf pre post, Forall label ls → buf = pre ++ encode ls ++ post →
  labels_at buf (S (length ls)) (Z.of_nat (length pre)) ls.
Proof.
  induction ls as [|l ls IH]; intros buf pre post Hl ->; cbn [length].
  - apply la_end. by apply aget_mid.
  - apply Forall_cons in Hl as [[Hll _] Hl]. rewrite encode_cons. cbn [app]. apply la_label; [by apply aget_mid|done| |].
    + rewrite <-app_assoc, (cons_middle _ pre), app_assoc.
      rewrite slice_ok by (rewrite ?length_app; simpl; rewrite ?length_app; lia). f_equal.
      replace (Z.to_nat (Z.of_nat (length pre) + 1)) with (length (pre ++ [Z.of_nat (length l)])) by (rewrite length_app; simpl; lia).
      by rewrite drop_app_length, Nat2Z.id, take_app_length.
    + replace (Z.of_nat (length pre) + 1 + Z.of_nat (length l)) with (Z.of_nat (length (pre ++ Z.of_nat (length l) :: l)))
        by (rewrite length_app; simpl; lia).
      apply (IH _ _ post Hl). by rewrite <-!app_assoc.
Qed.

(** C31: for a host name of at most 127 bytes, of labels of 1 to 63 bytes without dots and null bytes: the name of the
    question is the wire format of the host name, and reading a name at the place where it was written, if that is
    one of the first 256 bytes of the message, or at a pointer to that place, gives the host name back. *)
Theorem dns_name_roundtrip junk ls pre post fuel : Forall label ls → ls ≠ [] → (length (dotted ls) ≤ 127)%nat →
  (length ls + 2 ≤ fuel)%nat → Z.of_nat (length pre) < 256 → ∃ q,
  dns_create_question true junk (dotted ls) = Ok (0, q) ∧ qname q = encode ls ∧
  ∀ tail p, p = Z.of_nat (length pre) ∨ p = Z.of_nat (length (pre ++ qname q ++ post)) →
    dns_parse_name fuel (pre ++ qname q ++ post ++ [192; Z.of_nat (length pre)] ++ tail) p (replicate 128 0) 0 0 =
    Ok (dotted ls ++ replicate (128 - length (dotted ls)) 0, Z.of_nat (length (dotted ls))).
Proof.
  intros Hl Hne Hlen Hf Hpre. unfold dns_create_question. cbn [negb].
  rewrite tokens_dotted by done.
  pose proof (put_labels_spec ls [] (replicate (Z.to_nat (Z.of_nat (length (dotted ls)) + 2)) junk) Hl Hne) as Hput.
  cbn [app length] in Hput. change (Z.of_nat 0) with 0 in Hput.
  rewrite Hput, ok_bind by (rewrite length_replicate, encode_length by done; lia).
  eexists. split; [done|]. split; [done|]. cbn [qname]. intros tail p Hp. set (buf := pre ++ _).
  assert (Hat : labels_at buf (S (S (length ls))) p ls).
  { pose proof (labels_at_encode ls buf pre (post ++ [192; Z.of_nat (length pre)] ++ tail) Hl eq_refl) as Hat.
    destruct Hp as [->| ->]; [by apply labels_at_mono with (S (length ls)); [|lia]|].
    apply la_pointer with (Z.of_nat (length pre)); [|  |done|done]; unfold buf; rewrite !app_assoc.
    - rewrite <-(app_assoc _ [192; _]). cbn [app]. apply aget_mid. by rewrite ?app_assoc.
    - rewrite <-(app_assoc _ [192; _]). cbn [app]. rewrite (cons_middle 192), app_assoc.
      apply aget_mid. rewrite (length_app _ [192]), ?app_assoc. simpl. lia. }
  pose proof (parse_name_spec buf _ p ls Hat fuel [] (replicate 128 0) ltac:(lia)) as Hps.
  cbn [app length] in Hps. change (Z.of_nat 0) with 0 in Hps. rewrite Hps by (rewrite length_replicate; lia).
  by rewrite drop_replicate.
Qed.

(** a query is twelve bytes of header, with the recursion bit and one question, the name
    in wire format, type A and class IN. *)
Theorem dns_request_format rnd junk ls : Forall label ls → ls ≠ [] → (length (encode ls) ≤ 1008)%nat → ∃ q r,
  dns_create_question true junk (dotted ls) = Ok (0, q) ∧
  dns_build_request (dns_create_header rnd) q (replicate 1024 0) = Ok (Z.of_nat (length (encode ls)) + 16, r) ∧
  take (length (encode ls) + 16) r =
    [u16 rnd mod 256; (u16 rnd / 256) mod 256; 1; 0; 0; 1; 0; 0; 0; 0; 0; 0] ++ encode ls ++ [0; 1; 0; 1].
Proof.
  intros Hl Hne Hlen. unfold dns_create_question. cbn [negb]. rewrite tokens_dotted by done.
  pose proof (put_labels_spec ls [] (replicate (Z.to_nat (Z.of_nat (length (dotted ls)) + 2)) junk) Hl Hne) as Hput.
  cbn [app length] in Hput. change (Z.of_nat 0) with 0 in Hput.
  rewrite Hput, ok_bind by (rewrite length_replicate, encode_length by done; lia).
  pose proof (encode_length ls Hne) as He. eexists _, _. split; [done|].
  unfold dns_build_request. cbn [length_ qname qtype qclass].
  set (n := length (encode ls)) in *. replace (Z.of_nat (length (dotted ls)) + 2) with (Z.of_nat n) by lia.
  set (h := header_bytes (dns_create_header rnd)). assert (Hh : length h = 12%nat) by done.
  replace 1024%nat with (12 + (n + (2 + (2 + (1008 - n)))))%nat by lia.
  rewrite !(replicate_add _ (_ + _)), !(replicate_add _ (1008 - n)).
  rewrite splice_front, ok_bind by done.
  rewrite slice_ok, ok_bind by (fold n; lia). rewrite drop_0, Nat2Z.id, (take_ge (encode ls)) by (fold n; lia).
  rewrite splice_mid by (rewrite ?length_replicate; done || (rewrite Hh; done)). rewrite ok_bind.
  rewrite (app_assoc h), splice_mid by (rewrite ?length_app; fold n; done || lia). rewrite ok_bind.
  rewrite (app_assoc (h ++ _)), splice_mid by (rewrite ?length_app; fold n; simpl; lia || done). rewrite ok_bind.
  split; [do 2 f_equal; lia|]. rewrite <-!app_assoc. rewrite !app_assoc, take_app_le by (rewrite !length_app; fold n; simpl; lia).
  rewrite take_ge by (rewrite !length_app; fold n; simpl; lia). rewrite <-!app_assoc. done.
Qed.

(** ** Responses *)

(** A resource record: its name's pointer, and an address or an alias. *)
Inductive rdata : Type := A (a b c d : Z) | CNAME (bytes : list Z).
Record rr : Type := RR { at_ : Z; names : list (list Z); ttl4 : list Z; data : rdata }.

Definition rdata_bytes (d : rdata) : list Z := match d with A a b c d => [a; b; c; d] | CNAME l => l end.
Definition rtype (d : rdata) : Z := match d with A _ _ _ _ => DNS_HOST | CNAME _ => DNS_CNAME end.
Definition rr_bytes (r : rr) : list Z :=
  [192; at_ r; 0; rtype (data r); 0; 1] ++ ttl4 r ++
  [Z.of_nat (length (rdata_bytes (data r))) / 256; Z.of_nat (length (rdata_bytes (data r))) mod 256] ++
  rdata_bytes (data r).
(** What is reported of a record. *)
Definition rr_items (r : rr) : list dns_item :=
  match data r with A a b c d => [Item (dotted (names r)) (inet_ntop [a; b; c; d])] | CNAME _ => [] end.

(** The records at [p] are well formed: names that decode, and fit the arrays. *)
Fixpoint records_ok (buf : list Z) (k : nat) (p : Z) (rs : list rr) : Prop :=
  match rs with
  | [] => True
  | r :: rs =>
      length (ttl4 r) = 4%nat ∧ Forall label (names r) ∧ (length (dotted (names r)) ≤ 127)%nat ∧
      labels_at buf k p (names r) ∧
      match data r with
      | A _ _ _ _ => True
      | CNAME _ => ∃ ls, labels_at buf k (p + 12) ls ∧ (length (dotted ls) ≤ 127)%nat
      end ∧ records_ok buf k (p + Z.of_nat (length (rr_bytes r))) rs
  end.

Lemma be16_ok a x y b p : p = Z.of_nat (length a) → be16 (a ++ x :: y :: b) p = Ok (x * 256 + y).
Proof.
  intros ->. unfold be16. rewrite (aget_mid a _ x _ eq_refl), ok_bind.
  rewrite (cons_middle x), app_assoc, aget_mid by (rewrite length_app; simpl; lia). done.
Qed.

Lemma dotted_nonzero ls : Forall label ls → Forall (λ x, x ≠ 0) (dotted ls).
Proof.
  assert (Hz : ∀ l, 0 ∉ l → Forall (λ x, x ≠ 0) l) by (intros l Hl; apply Forall_forall; by intros x Hx ->).
  induction 1 as [|l [|l2 ls] [_ [_ Hl]] _ IH]; [constructor|by apply Hz|].
  rewrite dotted_cons. apply Forall_app. split; [by apply Hz|]. by constructor.
Qed.

Lemma parse_name_zeros fuel buf k p ls : labels_at buf k p ls → (k ≤ fuel)%nat → (length (dotted ls) ≤ 127)%nat →
  dns_parse_name fuel buf p (replicate 128 0) 0 0 =
  Ok (dotted ls ++ replicate (128 - length (dotted ls)) 0, Z.of_nat (length (dotted ls))).
Proof.
  intros Hat Hf Hl. pose proof (parse_name_spec buf k p ls Hat fuel [] (replicate 128 0) Hf) as Hp.
  cbn [app length] in Hp. change (Z.of_nat 0) with 0 in Hp. rewrite Hp by (rewrite length_replicate; lia).
  by rewrite drop_replicate.
Qed.

Lemma parse_answers_spec rs : ∀ fuel buf k pre post items, (k ≤ fuel)%nat →
  buf = pre ++ concat (map rr_bytes rs) ++ post → records_ok buf k (Z.of_nat (length pre)) rs →
  parse_answers (length rs) fuel buf (Z.of_nat (length pre)) items = Ok (items ++ concat (map rr_items rs)).
Proof.
  induction rs as [|r rs IH]; intros fuel buf k pre post items Hf Hb Hok; cbn [length parse_answers map concat];
    [by rewrite app_nil_r|].
  destruct Hok as (Ht & Hlab & Hlen & Hat & Hd & Hok). cbn [map concat] in Hb.
  rewrite (parse_name_zeros _ _ _ _ _ Hat Hf Hlen), ok_bind.
  destruct r as [o ns tt d]. cbn [ttl4 names data at_] in *.
  destruct tt as [|t0 [|t1 [|t2 [|t3 [|]]]]]; try discriminate Ht.
  set (n := Z.of_nat (length (rdata_bytes d))). set (rest := concat (map rr_bytes rs) ++ post).
  assert (Hb1 : buf = pre ++ [192; o; 0; rtype d; 0; 1; t0; t1; t2; t3; n / 256; n mod 256] ++ rdata_bytes d ++ rest).
  { rewrite Hb. unfold rr_bytes. cbn [at_ data ttl4]. unfold rest. rewrite <-!app_assoc. done. }
  assert (Hbe : ∀ a x y b p, buf = pre ++ a ++ x :: y :: b → p = Z.of_nat (length pre) + Z.of_nat (length a) →
    be16 buf p = Ok (x * 256 + y)).
  { intros a x y b p -> ->. rewrite app_assoc. apply be16_ok. rewrite length_app. lia. }
  rewrite (Hbe [192; o] 0 (rtype d) _ (Z.of_nat (length pre) + 2) Hb1), ok_bind by (simpl; lia).
  rewrite (Hbe [192; o; 0; rtype d; 0; 1] t0 t1 _ (Z.of_nat (length pre) + 2 + 4) Hb1), ok_bind by (simpl; lia).
  rewrite (Hbe [192; o; 0; rtype d; 0; 1; t0; t1; t2; t3] (n / 256) (n mod 256) _ _ Hb1), ok_bind by (simpl; lia).
  replace (n / 256 * 256 + n mod 256) with n by zdiv.
  replace (Z.of_nat (length pre) + 2 + 4 + 4 + 2) with (Z.of_nat (length pre) + 12) by lia.
  assert (Hrl : length (rr_bytes (RR o ns [t0; t1; t2; t3] d)) = (12 + length (rdata_bytes d))%nat) by done.
  assert (Hnext : ∀ items, parse_answers (length rs) fuel buf (Z.of_nat (length pre) + 12 + n) items =
    Ok (items ++ concat (map rr_items rs))).
  { intros its. replace (Z.of_nat (length pre) + 12 + n) with (Z.of_nat (length (pre ++ rr_bytes (RR o ns [t0; t1; t2; t3] d))))
      by (rewrite length_app, Hrl; lia).
    apply (IH fuel buf k _ post its Hf); [by rewrite Hb, <-!app_assoc|].
    rewrite length_app, Nat2Z.inj_add. exact Hok. }
  destruct d as [a b c e|l]; cbn [rtype rr_items data names].
  - change (0 * 256 + DNS_HOST =? DNS_CNAME) with false. change (0 * 256 + DNS_HOST =? DNS_HOST) with true.
    change (n =? 4) with true. cbn iota.
    assert (Hsl : slice buf (Z.of_nat (length pre) + 12) n = Ok [a; b; c; e]).
    { assert (Hn4 : n = 4) by done. rewrite Hb1, app_assoc. rewrite slice_ok by (rewrite ?length_app; simpl; lia).
      replace (Z.to_nat (Z.of_nat (length pre) + 12)) with (length (pre ++ [192; o; 0; rtype (A a b c e); 0; 1; t0; t1; t2; t3; n / 256; n mod 256]))
        by (rewrite length_app; simpl; lia).
      by rewrite drop_app_length. }
    rewrite Hsl, ok_bind, cstr_padded, ok_bind by (by apply dotted_nonzero || lia).
    rewrite Hnext, <-app_assoc. done.
  - change (0 * 256 + DNS_CNAME =? DNS_CNAME) with true. cbn iota.
    destruct Hd as (ls & Hls & Hll). rewrite (parse_name_zeros _ _ _ _ _ Hls Hf Hll), ok_bind. apply Hnext.
Qed.

Lemma skip_name_spec ls : ∀ fuel buf pre post, buf = pre ++ encode ls ++ post → Forall label ls →
  (length ls < fuel)%nat → skip_name fuel buf (Z.of_nat (length pre)) = Ok (Z.of_nat (length pre + length (encode ls))).
Proof.
  induction ls as [|l ls IH]; intros [|fuel] buf pre post -> Hl Hf; simpl in Hf; try lia; cbn [skip_name].
  - change (encode [] ++ post) with (0 :: post). rewrite aget_mid, ok_bind by done. cbn [Z.eqb]. f_equal. simpl. lia.
  - apply Forall_cons in Hl as [[Hll _] Hl]. rewrite encode_cons. cbn [app].
    rewrite aget_mid, ok_bind by done. rewrite (proj2 (Z.eqb_neq _ _)) by lia.
    replace (pre ++ Z.of_nat (length l) :: (l ++ encode ls) ++ post) with ((pre ++ Z.of_nat (length l) :: l) ++ encode ls ++ post)
      by (rewrite <-!app_assoc; done).
    replace (Z.of_nat (length pre) + Z.of_nat (length l) + 1) with (Z.of_nat (length (pre ++ Z.of_nat (length l) :: l)))
      by (rewrite length_app; simpl; lia).
    rewrite (IH fuel _ _ post eq_refl Hl) by lia. f_equal. rewrite !length_app. cbn [length]. rewrite length_app. lia.
Qed.

(** A response to one question. *)
Definition response (i f : list Z) (ls : list (list Z)) (rs : list rr) (tail : list Z) : list Z :=
  (i ++ f ++ [0; 1; Z.of_nat (length rs) / 256; Z.of_nat (length rs) mod 256; 0; 0; 0; 0] ++
   encode ls ++ [0; 1; 0; 1]) ++ concat (map rr_bytes rs) ++ tail.

(** of a well-formed response, whose names decode and fit their arrays, exactly the
    addresses are reported, in order, each under the name of its record. *)
Theorem dns_parse_response_correct fuel k i f ls rs tail : length i = 2%nat → length f = 2%nat → Forall label ls →
  (k ≤ fuel)%nat → records_ok (response i f ls rs tail) k (16 + Z.of_nat (length (encode ls))) rs →
  dns_parse_response fuel true (response i f ls rs tail) =
  Ok (Z.of_nat (length (concat (map rr_items rs))), concat (map rr_items rs)).
Proof.
  intros Hi Hf Hl Hk Hok. destruct i as [|i0 [|i1 [|]]]; try discriminate Hi. destruct f as [|f0 [|f1 [|]]]; try discriminate Hf.
  set (buf := response _ _ _ _ _) in *. set (n := Z.of_nat (length rs)).
  assert (Hbuf : buf = [i0; i1; f0; f1; 0; 1; n / 256; n mod 256; 0; 0; 0; 0] ++ encode ls ++
    [0; 1; 0; 1] ++ concat (map rr_bytes rs) ++ tail) by (unfold buf, response; rewrite <-!app_assoc; done).
  assert (Hq : be16 buf 4 = Ok 1) by (rewrite Hbuf; done).
  assert (Ha : be16 buf 6 = Ok n).
  { rewrite Hbuf. change (be16 _ 6) with (@Ok Z (n / 256 * 256 + n mod 256)). f_equal. zdiv. }
  unfold dns_parse_response. rewrite Hq, ok_bind, Ha, ok_bind. change (Z.to_nat 1) with 1%nat. cbn [skip_questions].
  assert (Hskip : skip_name (S (length buf)) buf 12 = Ok (Z.of_nat (12 + length (encode ls)))).
  { rewrite Hbuf at 2. apply (skip_name_spec ls _ _ [i0; i1; f0; f1; 0; 1; n / 256; n mod 256; 0; 0; 0; 0] _ eq_refl Hl).
    assert (length ls ≤ length (encode ls))%nat.
    { unfold encode. rewrite length_app. clear. induction ls as [|l ls IH]; simpl in *; [lia|]. rewrite length_app. lia. }
    rewrite Hbuf, !length_app. simpl. lia. }
  rewrite Hskip, !ok_bind. cbn [negb]. unfold n. rewrite Nat2Z.id.
  set (pre := i0 :: i1 :: f0 :: f1 :: 0 :: 1 :: n / 256 :: n mod 256 :: 0 :: 0 :: 0 :: 0 :: encode ls ++ [0; 1; 0; 1]).
  assert (Hpl : Z.of_nat (length pre) = 16 + Z.of_nat (length (encode ls))).
  { unfold pre. cbn [length]. rewrite length_app. simpl. lia. }
  replace (Z.of_nat (12 + length (encode ls)) + 4) with (Z.of_nat (length pre)) by lia.
  rewrite (parse_answers_spec rs fuel buf k pre tail [] Hk); [done| |by rewrite Hpl].
  rewrite Hbuf. unfold pre. cbn [app]. do 12 f_equal. by rewrite <-!app_assoc.
Qed.

(** a name that is a pointer to itself is followed for ever: whatever the bound on the
    recursion, it is exhausted. *)
Theorem dns_parse_name_loops fuel buf p out len pos : 0 ≤ p < 256 → aget buf p = Ok 192 → aget buf (p + 1) = Ok p →
  dns_parse_name fuel buf p out len pos = Err OutOfFuel.
Proof.
  intros Hp H1 H2. revert out len pos. induction fuel as [|fuel IH]; intros out len pos; [done|]. cbn [dns_parse_name].
  rewrite H1, ok_bind. cbn [Z.eqb]. change (is_pointer 192) with true. rewrite H2, ok_bind. apply IH.
Qed.

(** the data of a record that is neither an address nor an alias is not skipped: what
    is read as the next record begins in the middle of it. *)
Theorem dns_other_record_derails n fuel buf k p ls t len items : labels_at buf k p ls → (k ≤ fuel)%nat →
  (length (dotted ls) ≤ 127)%nat → be16 buf (p + 2) = Ok t → be16 buf (p + 10) = Ok len → is_Some (buf !! Z.to_nat (p + 7)) →
  0 ≤ p → t ≠ DNS_HOST → t ≠ DNS_CNAME →
  parse_answers (S n) fuel buf p items = parse_answers n fuel buf (p + 12) items.
Proof.
  intros Hat Hf Hl Ht Hlen [x Hx] Hp H1 H2. cbn [parse_answers]. rewrite (parse_name_zeros _ _ _ _ _ Hat Hf Hl), ok_bind.
  rewrite Ht, ok_bind. replace (p + 2 + 4) with (p + 6) by lia. replace (p + 6 + 4) with (p + 10) by lia.
  assert (∃ w, be16 buf (p + 6) = Ok w) as [w ->].
  { destruct (lookup_lt_is_Some_2 buf (Z.to_nat (p + 6))) as [y Hy]; [apply lookup_lt_Some in Hx; lia|].
    exists (y * 256 + x). unfold be16. rewrite <-(Z2Nat.id (p + 6)) by lia. rewrite (aget_ok _ _ _ Hy), ok_bind.
    replace (Z.of_nat (Z.to_nat (p + 6)) + 1) with (Z.of_nat (Z.to_nat (p + 7))) by lia.
    by rewrite (aget_ok _ _ _ Hx). }
  rewrite ok_bind, Hlen, ok_bind. rewrite (proj2 (Z.eqb_neq _ _) H2), (proj2 (Z.eqb_neq _ _) H1).
  f_equal. lia.
Qed.

(** ** Queries in flight *)

(** Each socket of the epoll set has its own argument, which names it. *)
Definition in_flight (C : async_context) : Prop :=
  (∀ s a, epoll C !! s = Some a → ep_args C !! a = Some s) ∧ (∀ a s, ep_args C !! a = Some s → a < brk C).

(** every query in flight is reported once: handling the report of a registered socket
    calls the callback with what the datagram says, closes the socket, takes it out of the
    epoll set and frees its argument, and leaves the other queries as they were; the same
    report again would use freed memory. *)
Theorem dns_handle_once fuel C s a dgram items : in_flight C → epoll C !! s = Some a →
  dns_parse_response fuel true (take 1024 dgram ++ replicate (1024 - length dgram) 0) = Ok (Z.of_nat (length items), items) →
  ∃ C', handle fuel C a dgram true = Ok C' ∧ in_flight C' ∧
    results C' = results C ++ [(items, Z.of_nat (length items))] ∧ closed C' = closed C ++ [s] ∧
    epoll C' = delete s (epoll C) ∧ handle fuel C' a dgram true = Err UseAfterFree.
Proof.
  intros [H1 H2] Hs Hr. unfold handle. rewrite (H1 _ _ Hs). cbn [get_or]. rewrite ok_bind. cbv zeta.
  rewrite Hr, ok_bind. eexists. split; [done|]. split; [|cbn; by rewrite lookup_delete_eq].
  split; cbn; [|intros b t [_ Hb]%lookup_delete_Some; by apply H2 in Hb].
  intros t b [Hne Ht]%lookup_delete_Some. rewrite lookup_delete_ne; [by apply H1|].
  intros <-. apply H1 in Ht. rewrite (H1 _ _ Hs) in Ht. congruence.
Qed.

(** Committing a query keeps the queries in flight apart. *)
Lemma commit_in_flight C sock rnd junk mo co ctl host r C' : in_flight C →
  dns_async_client_commit C sock rnd mo junk co ctl host = Ok (Some (r, C')) → in_flight C'.
Proof.
  intros [H1 H2] Hc. unfold dns_async_client_commit in Hc. destruct (sock <? 0); [done|].
  apply bind_ok in Hc as ([z q] & _ & Hc). apply bind_ok in Hc as ([n req] & _ & Hc). apply bind_ok in Hc as (d & _ & Hc).
  destruct co; cbn [negb] in Hc; injection Hc as _ <-; split; cbn; try done.
  - intros s a Hs. destruct (ctl =? 0).
    + apply lookup_insert_Some in Hs as [[<- <-]|[_ Hs]]; [by rewrite lookup_insert_eq|].
      rewrite lookup_insert_ne; [by apply H1|]. intros <-. apply H1, H2 in Hs. lia.
    + rewrite lookup_insert_ne; [by apply H1|]. intros <-. apply H1, H2 in Hs. lia.
  - intros a s [[<- _]|[_ Ha]]%lookup_insert_Some; [lia|]. apply H2 in Ha. lia.
Qed.

(** ** The theorems at work *)

Definition ex_name : list (list Z) := [bytes "www"; bytes "qq"; bytes "com"].
Lemma ex_name_ok : Forall label ex_name.
Proof.
  assert (Hl : ∀ l, bool_decide ((0 < length l < 64)%nat ∧ DOT ∉ l ∧ 0 ∉ l) = true → label l)
    by (intros l Hl; exact (bool_decide_eq_true_1 _ Hl)).
  constructor; [|constructor; [|constructor; [|constructor]]]; by apply Hl; vm_compute.
Qed.

Example dns_name_roundtrip_witness : ∃ q, dns_create_question true 7 (bytes "www.qq.com") = Ok (0, q) ∧
  qname q = encode ex_name ∧ ∀ tail p, p = 3 ∨ p = Z.of_nat (length ([1; 2; 3] ++ qname q ++ [9; 9])) →
    dns_parse_name 9 ([1; 2; 3] ++ qname q ++ [9; 9] ++ [192; 3] ++ tail) p (replicate 128 0) 0 0 =
    Ok (bytes "www.qq.com" ++ replicate 118 0, 10).
Proof.
  apply (dns_name_roundtrip 7 ex_name [1; 2; 3] [9; 9] 9 ex_name_ok); [done|simpl; lia|simpl; lia|simpl; lia].
Defined.

Example dns_request_format_witness : ∃ q r, dns_create_question true 7 (bytes "www.qq.com") = Ok (0, q) ∧
  dns_build_request (dns_create_header 4660) q (replicate 1024 0) = Ok (28, r) ∧
  take 28 r = [52; 18; 1; 0; 0; 1; 0; 0; 0; 0; 0; 0] ++ encode ex_name ++ [0; 1; 0; 1].
Proof. apply (dns_request_format 4660 7 ex_name ex_name_ok); [done|simpl; lia]. Defined.

(** An alias and the address it stands for. *)
Definition ex_records : list rr :=
  [RR 12 ex_name [0; 0; 0; 60] (CNAME [192; 12]); RR 12 ex_name [0; 0; 0; 60] (A 10 0 0 1)].
Lemma ex_pointer i f rs tail p : length i = 2%nat → length f = 2%nat →
  aget (response i f ex_name rs tail) p = Ok 192 → aget (response i f ex_name rs tail) (p + 1) = Ok 12 →
  labels_at (response i f ex_name rs tail) 5 p ex_name.
Proof.
  intros Hi Hf H1 H2. apply (la_pointer _ 4 _ 12); [done..|].
  set (pre := i ++ f ++ [0; 1; Z.of_nat (length rs) / 256; Z.of_nat (length rs) mod 256; 0; 0; 0; 0]).
  assert (Hp : length pre = 12%nat) by (unfold pre; rewrite !length_app; simpl; lia).
  change 12 with (Z.of_nat 12). rewrite <-Hp.
  apply (labels_at_encode ex_name _ pre ([0; 1; 0; 1] ++ concat (map rr_bytes rs) ++ tail) ex_name_ok).
  unfold response, pre. by rewrite <-!app_assoc.
Qed.

Example dns_parse_response_correct_witness :
  dns_parse_response 9 true (response [18; 52] [129; 128] ex_name ex_records []) =
  Ok (1, [Item (bytes "www.qq.com") (bytes "10.0.0.1")]).
Proof.
  apply (dns_parse_response_correct 9 5 [18; 52] [129; 128] ex_name ex_records []); [done|done|exact ex_name_ok|lia|].
  split; [done|]. split; [exact ex_name_ok|]. split; [simpl; lia|].
  split; [by apply ex_pointer|]. split; [exists ex_name; split; [by apply ex_pointer|simpl; lia]|].
  split; [done|]. split; [exact ex_name_ok|]. split; [simpl; lia|]. split; [by apply ex_pointer|]. by split.
Defined.

Example dns_parse_name_loops_witness : dns_parse_name 1000 [192; 0] 0 (replicate 128 0) 0 0 = Err OutOfFuel.
Proof. apply dns_parse_name_loops; [lia|reflexivity|reflexivity]. Defined.

(** An address of the new kind (type 28) before one of the old. *)
Definition ex_aaaa : list Z :=
  [0; 0; 28; 0; 1; 0; 0; 0; 60; 0; 16] ++ replicate 16 1.
Example dns_other_record_derails_witness :
  parse_answers 2 9 ([0] ++ ex_aaaa ++ replicate 100 0) 0 [] = parse_answers 1 9 ([0] ++ ex_aaaa ++ replicate 100 0) (0 + 12) [].
Proof.
  apply (dns_other_record_derails 1 9 _ 1 0 [] 28 16 []);
    [by apply la_end|lia|simpl; lia|reflexivity|reflexivity|by exists 0|lia|done|done].
Defined.

Definition ex_ctx : async_context := Ctx {[5 := 1]} {[1 := 5]} 2 [] [] [].
Example dns_handle_once_witness : ∃ C', handle 9 ex_ctx 1 [] true = Ok C' ∧ in_flight C' ∧
  results C' = results ex_ctx ++ [([], 0)] ∧ closed C' = closed ex_ctx ++ [5] ∧
  epoll C' = delete 5 (epoll ex_ctx) ∧ handle 9 C' 1 [] true = Err UseAfterFree.
Proof.
  apply (dns_handle_once 9 ex_ctx 5 1 [] []); [|reflexivity|by vm_compute].
  split; cbn; [intros s a [<- <-]%lookup_singleton_Some; by rewrite lookup_singleton_eq|].
  intros a s [<- <-]%lookup_singleton_Some. lia.
Defined.

End Dns.


