(* ===== verification/ThreadPool.v ===== *)
(** * The thread pool of 6.1thread_pool/thread_pool.c

    Workers and client threads interleave step by step.  The lists of workers and of
    jobs are linked records in a store, changed by the macros [LL_ADD] and
    [LL_REMOVE]; the mutex records its holder, and a thread in [pthread_cond_wait] is
    woken by a signal, a broadcast or spuriously.  Addresses of jobs are not reused. *)

From stdpp Require Import relations.
From S2P Require Import Prelude.

Module ThreadPool.

(** ** Data *)

(* src: 6.1thread_pool/thread_pool.c:25-31 nWorker *)
Record nWorker : Type := Worker { terminate : bool; wprev : Z; wnext : Z }.
(** The function of a job is the client's; only the links matter to the pool. *)
(* src: 6.1thread_pool/thread_pool.c:33-38 nJob *)
Record nJob : Type := Job { prev : Z; next : Z }.

(** ** The list macros *)

(** [LL_ADD(item, list)] for jobs: the new store and head. *)
(* src: 6.1thread_pool/thread_pool.c:11-15 LL_ADD *)
Definition LL_ADD (h : gmap Z nJob) (item list : Z) : res (gmap Z nJob * Z) :=
  _ ← get_or UseAfterFree (h !! item);
  Ok (<[item := Job 0 list]> h, item).

(** [if (p != NULL) p->next = x;] and [if (p != NULL) p->prev = x;] *)
Definition set_next (h : gmap Z nJob) (p x : Z) : res (gmap Z nJob) :=
  if p =? 0 then Ok h else n ← get_or UseAfterFree (h !! p); Ok (<[p := Job (prev n) x]> h).
Definition set_prev (h : gmap Z nJob) (p x : Z) : res (gmap Z nJob) :=
  if p =? 0 then Ok h else n ← get_or UseAfterFree (h !! p); Ok (<[p := Job x (next n)]> h).

(* src: 6.1thread_pool/thread_pool.c:17-22 LL_REMOVE *)
Definition LL_REMOVE (h : gmap Z nJob) (item list : Z) : res (gmap Z nJob * Z) :=
  i ← get_or UseAfterFree (h !! item);
  h ← set_next h (prev i) (next i);
  i ← get_or UseAfterFree (h !! item);
  h ← set_prev h (next i) (prev i);
  i ← get_or UseAfterFree (h !! item);
  let list := if list =? item then next i else list in
  Ok (<[item := Job 0 0]> h, list).

(** ** Threads *)

(** Where a worker is in [ntyWorkerThread]: before the lock (or woken, and about to
    take it again), at the test of the inner loop, at its test of [terminate], in
    [pthread_cond_wait], after the inner loop, at the reading of the first job, at its removal, at
    the unlocking, in the job, at [free], and gone. *)
Inductive wpc : Type :=
  WLock | WTest | WTerm | WWait | WAfter | WTake | WRemove (job : Z) | WUnlock (job : Z) | WRun (job : Z) | WFree | WDone.

(** Where a client is: outside; in [ntyThreadPoolQueue] before the lock, and inside it before
    [LL_ADD], at its last assignment (of [head]), at the signal and at the unlocking; in the loop of
    [ntyThreadPoolShutdown] at a worker and at its [next], before its lock, and inside it at the
    assignments, the broadcast and the unlocking. *)
Inductive cpc : Type :=
  CIdle | QLock (job : Z) | QHold (job : Z) | QLink (job head : Z) | QSignal | QUnlock |
  SLoop (w : Z) | SNext (w : Z) | SLock | SHold | SWake | SUnlock.

#[export] Instance wpc_eq_dec : EqDecision wpc.
Proof. solve_decision. Defined.
#[export] Instance cpc_eq_dec : EqDecision cpc.
Proof. solve_decision. Defined.

(** The pool and its threads; what has been queued, run and dropped is recorded. *)
(* src: 6.1thread_pool/thread_pool.c:40-47 nWorkQueue *)
Record nWorkQueue : Type := Pool {
  workers : Z;
  waiting_jobs : Z;
  jobs_mtx : option (Z + Z);        (* held by a worker or a client *)
  wheap : gmap Z nWorker;
  jheap : gmap Z nJob;
  wthreads : gmap Z wpc;            (* by the address of their record *)
  cthreads : gmap Z cpc;
  queued : list Z;
  executed : list Z;
  dropped : list Z
}.

Definition set_mtx s x := Pool (workers s) (waiting_jobs s) x (wheap s) (jheap s) (wthreads s) (cthreads s) (queued s) (executed s) (dropped s).
Definition set_wheap s x := Pool (workers s) (waiting_jobs s) (jobs_mtx s) x (jheap s) (wthreads s) (cthreads s) (queued s) (executed s) (dropped s).
Definition set_jheap s x := Pool (workers s) (waiting_jobs s) (jobs_mtx s) (wheap s) x (wthreads s) (cthreads s) (queued s) (executed s) (dropped s).
Definition set_wait s x := Pool (workers s) x (jobs_mtx s) (wheap s) (jheap s) (wthreads s) (cthreads s) (queued s) (executed s) (dropped s).
Definition goto s w pc := Pool (workers s) (waiting_jobs s) (jobs_mtx s) (wheap s) (jheap s) (<[w := pc]> (wthreads s)) (cthreads s) (queued s) (executed s) (dropped s).
Definition cgoto s c pc := Pool (workers s) (waiting_jobs s) (jobs_mtx s) (wheap s) (jheap s) (wthreads s) (<[c := pc]> (cthreads s)) (queued s) (executed s) (dropped s).
Definition add_queued s j := Pool (workers s) (waiting_jobs s) (jobs_mtx s) (wheap s) (jheap s) (wthreads s) (cthreads s) (queued s ++ [j]) (executed s) (dropped s).
Definition add_executed s j := Pool (workers s) (waiting_jobs s) (jobs_mtx s) (wheap s) (jheap s) (wthreads s) (cthreads s) (queued s) (executed s ++ [j]) (dropped s).

(** One step of worker [w]; [None] when it is blocked. *)
(* src: 6.1thread_pool/thread_pool.c:49-79 ntyWorkerThread *)
Definition ntyWorkerThread (s : nWorkQueue) (w : Z) : option (res nWorkQueue) :=
  match wthreads s !! w with
  | Some WLock =>
      match jobs_mtx s with
      | None => Some (_ ← get_or UseAfterFree (wheap s !! w); Ok (goto (set_mtx s (Some (inl w))) w WTest))
      | Some _ => None
      end
  | Some WTest => Some (_ ← get_or UseAfterFree (wheap s !! w);
      Ok (goto s w (if waiting_jobs s =? 0 then WTerm else WAfter)))
  | Some WTerm => Some (k ← get_or UseAfterFree (wheap s !! w);
      Ok (if terminate k then goto s w WAfter else goto (set_mtx s None) w WWait))
  | Some WAfter => Some (k ← get_or UseAfterFree (wheap s !! w);
      Ok (if terminate k then goto (set_mtx s None) w WFree else goto s w WTake))
  | Some WTake => Some (_ ← get_or UseAfterFree (wheap s !! w);
      let job := waiting_jobs s in
      Ok (if job =? 0 then goto (set_mtx s None) w WLock else goto s w (WRemove job)))
  | Some (WRemove job) => Some (_ ← get_or UseAfterFree (wheap s !! w);
      '(h, l) ← LL_REMOVE (jheap s) job (waiting_jobs s);
      Ok (goto (set_jheap (set_wait s l) h) w (WUnlock job)))
  | Some (WUnlock job) => Some (_ ← get_or UseAfterFree (wheap s !! w);
      Ok (goto (set_mtx s None) w (WRun job)))
  | Some (WRun job) => Some (_ ← get_or UseAfterFree (jheap s !! job);
      Ok (goto (add_executed (set_jheap s (delete job (jheap s))) job) w WLock))
  | Some WFree => Some (_ ← get_or UseAfterFree (wheap s !! w);
      Ok (goto (set_wheap s (delete w (wheap s))) w WDone))
  | Some WWait | Some WDone | None => None
  end.

(** [pthread_cond_signal]: wakes the waiting worker chosen, if any waits. *)
Definition is_waiting (s : nWorkQueue) (w : Z) : bool :=
  match wthreads s !! w with Some WWait => true | _ => false end.
Definition no_waiter (s : nWorkQueue) : bool := bool_decide (map_Forall (λ _ pc, pc ≠ WWait) (wthreads s)).

Definition can_wake (s : nWorkQueue) (wake : option Z) : bool :=
  match wake with Some w => is_waiting s w | None => no_waiter s end.
Definition signal (s : nWorkQueue) (wake : option Z) : nWorkQueue :=
  match wake with Some w => goto s w WLock | None => s end.

(** One step of client [c] in [ntyThreadPoolQueue]; [wake] is the worker the signal wakes. *)
(* src: 6.1thread_pool/thread_pool.c:139-148 ntyThreadPoolQueue *)
Definition ntyThreadPoolQueue (s : nWorkQueue) (c : Z) (wake : option Z) : option (res nWorkQueue) :=
  match cthreads s !! c with
  | Some (QLock j) =>
      match jobs_mtx s with
      | None => Some (Ok (cgoto (set_mtx s (Some (inr c))) c (QHold j)))
      | Some _ => None
      end
  | Some (QHold j) => Some ('(h, l) ← LL_ADD (jheap s) j (waiting_jobs s); Ok (cgoto (set_jheap s h) c (QLink j l)))
  | Some (QLink j l) => Some (Ok (cgoto (add_queued (set_wait s l) j) c QSignal))
  | Some QSignal => if can_wake s wake then Some (Ok (cgoto (signal s wake) c QUnlock)) else None
  | Some QUnlock => Some (Ok (cgoto (set_mtx s None) c CIdle))
  | _ => None
  end.

(** The broadcast. *)
Definition wake_all (m : gmap Z wpc) : gmap Z wpc := (λ pc, if decide (pc = WWait) then WLock else pc) <$> m.

(** The jobs that a list of the store holds, in order. *)
Fixpoint chain_list (fuel : nat) (h : gmap Z nJob) (a : Z) : list Z :=
  match fuel with
  | O => []
  | S fuel => if a =? 0 then [] else a :: match h !! a with Some n => chain_list fuel h (next n) | None => [] end
  end.

(** One step of client [c] in [ntyThreadPoolShutdown]. *)
(* src: 6.1thread_pool/thread_pool.c:121-137 ntyThreadPoolShutdown *)
Definition ntyThreadPoolShutdown (s : nWorkQueue) (c : Z) : option (res nWorkQueue) :=
  match cthreads s !! c with
  | Some (SLoop w) =>
      if w =? 0 then Some (Ok (cgoto s c SLock))
      else Some (k ← get_or UseAfterFree (wheap s !! w);
        Ok (cgoto (set_wheap s (<[w := Worker true (wprev k) (wnext k)]> (wheap s))) c (SNext w)))
  | Some (SNext w) => Some (k ← get_or UseAfterFree (wheap s !! w); Ok (cgoto s c (SLoop (wnext k))))
  | Some SLock =>
      match jobs_mtx s with
      | None => Some (Ok (cgoto (set_mtx s (Some (inr c))) c SHold))
      | Some _ => None
      end
  | Some SHold => Some (Ok (Pool 0 0 (jobs_mtx s) (wheap s) (jheap s) (wthreads s)
      (<[c := SWake]> (cthreads s)) (queued s) (executed s)
      (dropped s ++ chain_list (size (jheap s)) (jheap s) (waiting_jobs s))))
  | Some SWake => Some (Ok (cgoto (Pool (workers s) (waiting_jobs s) (jobs_mtx s) (wheap s) (jheap s) (wake_all (wthreads s))
      (cthreads s) (queued s) (executed s) (dropped s)) c SUnlock))
  | Some SUnlock => Some (Ok (cgoto (set_mtx s None) c CIdle))
  | _ => None
  end.

(** The workers started: the answers are the results of [malloc] and whether
    [pthread_create] succeeds. *)
Fixpoint create_loop (n : nat) (answers : list (option Z * bool)) (s : nWorkQueue) : Z * nWorkQueue :=
  match n, answers with
  | O, _ => (0, s)
  | S n, (Some a, true) :: answers =>
      create_loop n answers (Pool a (waiting_jobs s) (jobs_mtx s) (<[a := Worker false 0 (workers s)]> (wheap s))
        (jheap s) (<[a := WLock]> (wthreads s)) (cthreads s) (queued s) (executed s) (dropped s))
  | S _, _ => (1, s)
  end.

(** The clients are threads of the program, outside the pool to begin with. *)
(* src: 6.1thread_pool/thread_pool.c:83-118 ntyThreadPoolCreate *)
Definition ntyThreadPoolCreate (numWorkers : Z) (answers : list (option Z * bool)) (clients : gset Z) : Z * nWorkQueue :=
  let n := if numWorkers <? 1 then 1 else numWorkers in
  create_loop (Z.to_nat n) answers
    (Pool 0 0 None ∅ ∅ ∅ (gset_to_gmap CIdle clients) [] [] []).

(** ** Interleaving *)

(** What may happen next: a step of a worker or a client, a spurious wake-up, or a client
    entering the pool with a new job (its links are not initialised) or to shut down. *)
Inductive action : Type :=
  | Work (w : Z)
  | Spurious (w : Z)
  | Queueing (c : Z) (wake : option Z)
  | Stopping (c : Z)
  | EnterQueue (c job junk1 junk2 : Z)
  | EnterShutdown (c : Z).

Definition act (s : nWorkQueue) (a : action) : option (res nWorkQueue) :=
  match a with
  | Work w => ntyWorkerThread s w
  | Spurious w => if is_waiting s w then Some (Ok (goto s w WLock)) else None
  | Queueing c wake => ntyThreadPoolQueue s c wake
  | Stopping c => ntyThreadPoolShutdown s c
  | EnterQueue c j x y =>
      match cthreads s !! c with
      | Some CIdle =>
          if bool_decide (0 < j ∧ j ∉ queued s ∧ jheap s !! j = None)
          then Some (Ok (cgoto (set_jheap s (<[j := Job x y]> (jheap s))) c (QLock j))) else None
      | _ => None
      end
  | EnterShutdown c =>
      match cthreads s !! c with Some CIdle => Some (Ok (cgoto s c (SLoop (workers s)))) | _ => None end
  end.

Definition step (s s' : nWorkQueue) : Prop := ∃ a, act s a = Some (Ok s').

(** A schedule run as far as it goes. *)
Fixpoint run (s : nWorkQueue) (l : list action) : res nWorkQueue :=
  match l with
  | [] => Ok s
  | a :: l => match act s a with Some r => s ← r; run s l | None => Err OutOfFuel end
  end.

(** ** The jobs threads hold *)

Section collect.
Context {B : Type} (f : B → option Z).

Definition opt_list (o : option Z) : list Z := match o with Some z => [z] | None => [] end.
Definition collect (m : gmap Z B) : list Z := omap (λ kb, f kb.2) (map_to_list m).

Lemma collect_split m k b : m !! k = Some b → collect m ≡ₚ opt_list (f b) ++ collect (delete k m).
Proof.
  intros Hk. unfold collect. rewrite <-(map_to_list_delete m k b Hk). simpl. by destruct (f b).
Qed.

Lemma collect_insert m k b' : collect (<[k := b']> m) ≡ₚ opt_list (f b') ++ collect (delete k m).
Proof. rewrite (collect_split _ k b') by apply lookup_insert_eq. by rewrite delete_insert_eq. Qed.

Lemma elem_of_collect m z : z ∈ collect m ↔ ∃ k b, m !! k = Some b ∧ f b = Some z.
Proof.
  unfold collect. rewrite list_elem_of_omap. split.
  - intros ([k b] & Hk%elem_of_map_to_list & Hf). by exists k, b.
  - intros (k & b & Hk & Hf). exists (k, b). split; [by apply elem_of_map_to_list|done].
Qed.

Lemma collect_fmap (g : B → B) m : (∀ b, f (g b) = f b) → collect (g <$> m) ≡ₚ collect m.
Proof.
  intros Hg. unfold collect. rewrite map_to_list_fmap.
  induction (map_to_list m) as [|[k b] t IH]; simpl; [done|]. rewrite Hg. destruct (f b); [by rewrite IH|done].
Qed.
End collect.

Definition hand (pc : wpc) : option Z := match pc with WUnlock j | WRun j => Some j | _ => None end.
Definition entering (pc : cpc) : option Z := match pc with QLock j | QHold j | QLink j _ => Some j | _ => None end.
Definition hands (s : nWorkQueue) : list Z := collect hand (wthreads s).
Definition pend (s : nWorkQueue) : list Z := collect entering (cthreads s).

(** ** The waiting jobs

    [l] is the list of the jobs waiting, [q] those queued so far, [ex] and [dr] those
    run and dropped, [hs] those workers run and [ps] those clients are about to queue. *)

Definition jobs_inv (h : gmap Z nJob) (wj : Z) (l q ex dr hs ps : list Z) : Prop :=
  chain next h wj l ∧ (∀ j n, j ∈ l → h !! j = Some n → prev n = 0) ∧
  q ≡ₚ l ++ hs ++ ex ++ dr ∧ NoDup (q ++ ps) ∧ (∀ j, j ∈ hs ++ ps → j ≠ 0 ∧ is_Some (h !! j)).

#[export] Instance jobs_inv_proper h wj l q ex dr :
  Proper ((≡ₚ) ==> (≡ₚ) ==> iff) (jobs_inv h wj l q ex dr).
Proof. intros hs hs' Hh ps ps' Hp. unfold jobs_inv. by setoid_rewrite Hh; setoid_rewrite Hp. Qed.

(** A job in a worker's hands or a client's is nowhere else. *)
Lemma jobs_inv_fresh h wj l q ex dr hs ps : jobs_inv h wj l q ex dr hs ps →
  NoDup (l ++ hs ++ ex ++ dr ++ ps).
Proof.
  intros (_ & _ & Hq & Hnd & _). rewrite Hq in Hnd. by rewrite <-!(assoc_L (++)) in Hnd.
Qed.

Lemma LL_REMOVE_head h j l i : chain next h j l → h !! j = Some i →
  (∀ k n, k ∈ l → h !! k = Some n → prev n = 0) → j ≠ 0 →
  LL_REMOVE h j j = Ok (<[j := Job 0 0]> h, next i).
Proof.
  intros Hc Hi Hp Hj. destruct l as [|x l]; [done|]. destruct Hc as (<- & _ & v & Hv & Hc).
  rewrite Hi in Hv. injection Hv as <-.
  pose proof (Hp j i ltac:(left) Hi) as H0. unfold LL_REMOVE. rewrite Hi. simpl. rewrite H0. simpl.
  rewrite Hi. simpl. rewrite H0.
  assert (set_prev h (next i) 0 = Ok h) as ->.
  { unfold set_prev. case_cmp; [done|]. destruct l as [|y l]; [done|]. destruct Hc as (Hy & _ & m & Hm & _). subst y.
    rewrite Hm. simpl. rewrite insert_id; [done|]. rewrite Hm.
    rewrite <-(Hp (next i) m) by (done || (right; left)). by destruct m. }
  simpl. rewrite Hi. simpl. by rewrite Z.eqb_refl.
Qed.

Lemma jobs_take h wj l q ex dr hs ps : jobs_inv h wj l q ex dr hs ps → wj ≠ 0 → ∃ l' x,
  l = wj :: l' ∧ LL_REMOVE h wj wj = Ok (<[wj := Job 0 0]> h, x) ∧
  jobs_inv (<[wj := Job 0 0]> h) x l' q ex dr (wj :: hs) ps.
Proof.
  intros HI Hw. pose proof (jobs_inv_fresh _ _ _ _ _ _ _ _ HI) as Hf. destruct HI as (Hc & Hp & Hq & Hnd & Hh).
  destruct l as [|y l]; [done|]. pose proof Hc as (<- & _ & i & Hi & Ht). exists l, (next i).
  split; [done|]. split; [by eapply LL_REMOVE_head|]. simpl in Hf. apply NoDup_cons in Hf as [Hx _].
  assert (wj ∉ l) as Hl by set_solver. repeat split.
  - eapply chain_ext; [|exact Ht]. intros x Hx'. by rewrite lookup_insert_ne by set_solver.
  - intros j n Hj. rewrite lookup_insert_ne by set_solver. apply Hp. by right.
  - rewrite Hq. simpl. by rewrite Permutation_middle.
  - done.
  - apply elem_of_cons in H as [->|Hj]; [done|]. by apply Hh.
  - apply elem_of_cons in H as [->|Hj]; [by rewrite lookup_insert_eq|].
    rewrite lookup_insert_is_Some'. right. by apply Hh.
Qed.

Lemma jobs_run h wj l q ex dr j hs ps : jobs_inv h wj l q ex dr (j :: hs) ps →
  is_Some (h !! j) ∧ jobs_inv (delete j h) wj l q (ex ++ [j]) dr hs ps.
Proof.
  intros HI. pose proof (jobs_inv_fresh _ _ _ _ _ _ _ _ HI) as Hf. destruct HI as (Hc & Hp & Hq & Hnd & Hh).
  split; [apply Hh; left|]. rewrite (app_assoc l), <-Permutation_middle in Hf. simpl in Hf.
  apply NoDup_cons in Hf as [Hx _]. split; [|split; [|split; [|split]]].
  - eapply chain_ext; [|exact Hc]. intros x Hx'. by rewrite lookup_delete_ne by set_solver.
  - intros k n Hk. rewrite lookup_delete_ne by set_solver. by apply Hp.
  - rewrite Hq. solve_Permutation.
  - done.
  - intros k Hk. rewrite lookup_delete_ne by set_solver. apply Hh. by right.
Qed.

(** [LL_ADD]: first the links of the job, which is in no list, then the head. *)
Lemma jobs_link h wj l q ex dr hs j ps : jobs_inv h wj l q ex dr hs (j :: ps) →
  LL_ADD h j wj = Ok (<[j := Job 0 wj]> h, j) ∧ jobs_inv (<[j := Job 0 wj]> h) wj l q ex dr hs (j :: ps).
Proof.
  intros HI. pose proof (jobs_inv_fresh _ _ _ _ _ _ _ _ HI) as Hf. destruct HI as (Hc & Hp & Hq & Hnd & Hh).
  destruct (Hh j) as [Hj0 [n Hn]]; [set_solver|]. split.
  { unfold LL_ADD. by rewrite Hn. }
  rewrite !(app_assoc _ _ (j :: ps)), <-Permutation_middle in Hf. apply NoDup_cons in Hf as [Hx _].
  split; [|split; [|split; [|split]]]; try done.
  - eapply chain_ext; [|exact Hc]. intros x Hx'. by rewrite lookup_insert_ne by set_solver.
  - intros k m Hk Hm. rewrite lookup_insert_ne in Hm by set_solver. by apply (Hp k).
  - intros k Hk. rewrite lookup_insert_is_Some'. split; [apply Hh|right; apply Hh]; set_solver.
Qed.

Lemma jobs_add h wj l q ex dr hs j ps : jobs_inv h wj l q ex dr hs (j :: ps) → h !! j = Some (Job 0 wj) →
  jobs_inv h j (j :: l) (q ++ [j]) ex dr hs ps.
Proof.
  intros HI Hn. pose proof (jobs_inv_fresh _ _ _ _ _ _ _ _ HI) as Hf. destruct HI as (Hc & Hp & Hq & Hnd & Hh).
  destruct (Hh j) as [Hj0 _]; [set_solver|].
  split; [|split; [|split; [|split]]].
  - split; [done|]. split; [done|]. by exists (Job 0 wj).
  - intros k m [->|Hk]%elem_of_cons Hm; [by simplify_eq|by apply (Hp k)].
  - rewrite Hq. solve_Permutation.
  - by rewrite <-(app_assoc q).
  - intros k Hk. apply Hh. set_solver.
Qed.

Lemma chain_list_spec h l : ∀ fuel a, chain next h a l → (length l ≤ fuel)%nat → chain_list fuel h a = l.
Proof.
  induction l as [|x l IH]; intros fuel a Hc Hf.
  - simpl in Hc. subst. by destruct fuel.
  - destruct Hc as (-> & Hx & v & Hv & Hc). destruct fuel as [|fuel]; simpl in *; [lia|].
    rewrite (proj2 (Z.eqb_neq _ _)), Hv by done. f_equal. apply IH; [done|lia].
Qed.

Lemma jobs_drop h wj l q ex dr hs ps : jobs_inv h wj l q ex dr hs ps →
  chain_list (size h) h wj = l ∧ jobs_inv h 0 [] q ex (dr ++ l) hs ps.
Proof.
  intros (Hc & Hp & Hq & Hnd & Hh). split; [apply chain_list_spec; [done|by eapply chain_length]|].
  split; [done|]. split; [by intros ? ? ?%elem_of_nil|]. split; [|done]. rewrite Hq. solve_Permutation.
Qed.

Lemma jobs_new h wj l q ex dr hs ps j n : jobs_inv h wj l q ex dr hs ps → 0 < j → j ∉ q → h !! j = None →
  jobs_inv (<[j := n]> h) wj l q ex dr hs (j :: ps).
Proof.
  intros (Hc & Hp & Hq & Hnd & Hh) Hj Hjq Hn.
  assert (Hl : ∀ x, x ∈ l → x ≠ j) by (intros x Hx ->; destruct (chain_dom _ _ _ _ _ Hc Hx) as [_ [? ?]]; congruence).
  assert (Hs : ∀ x, x ∈ hs ++ ps → x ≠ j) by (intros x Hx ->; destruct (Hh _ Hx) as [_ [? ?]]; congruence).
  split; [|split; [|split; [|split]]].
  - eapply chain_ext; [|exact Hc]. intros x Hx'. rewrite lookup_insert_ne; [done|]. by apply not_eq_sym, Hl.
  - intros k m Hk. rewrite lookup_insert_ne; [by apply Hp|]. by apply not_eq_sym, Hl.
  - done.
  - rewrite <-Permutation_middle. apply NoDup_cons. split; [|done]. set_solver.
  - intros k Hk. rewrite lookup_insert_is_Some'. destruct (decide (k = j)) as [->|Hne]; [split; [lia|by left]|].
    split; [apply Hh|right; apply Hh]; set_solver.
Qed.

(** ** The mutex: its holder is the one thread inside *)

Definition holding (pc : wpc) : bool := match pc with WTest | WTerm | WAfter | WTake | WRemove _ | WUnlock _ => true | _ => false end.
Definition cholding (pc : cpc) : bool := match pc with QHold _ | QLink _ _ | QSignal | QUnlock | SHold | SWake | SUnlock => true | _ => false end.

Definition mtx_inv (m : option (Z + Z)) (wt : gmap Z wpc) (ct : gmap Z cpc) : Prop :=
  map_Forall (λ w pc, holding pc = true ↔ m = Some (inl w)) wt ∧
  map_Forall (λ c pc, cholding pc = true ↔ m = Some (inr c)) ct.

(** Thread [x] keeps the mutex as it is, takes it or releases it. *)
Definition hand_over (x : Z + Z) (m m' : option (Z + Z)) : Prop :=
  m' = m ∨ (m = None ∨ m = Some x) ∧ (m' = None ∨ m' = Some x).

Lemma mtx_w m wt ct w m' pc : mtx_inv m wt ct → hand_over (inl w) m m' →
  (holding pc = true ↔ m' = Some (inl w)) → mtx_inv m' (<[w := pc]> wt) ct.
Proof.
  intros [Hw Hc] Hm Hpc. split.
  - intros w2 pc2 [[<- <-]|[Hne Hw2]]%lookup_insert_Some; [done|].
    rewrite (Hw _ _ Hw2). unfold hand_over in Hm. naive_solver.
  - intros c pc2 Hc2. rewrite (Hc _ _ Hc2). unfold hand_over in Hm. naive_solver.
Qed.

Lemma mtx_c m wt ct c m' pc : mtx_inv m wt ct → hand_over (inr c) m m' →
  (cholding pc = true ↔ m' = Some (inr c)) → mtx_inv m' wt (<[c := pc]> ct).
Proof.
  intros [Hw Hc] Hm Hpc. split.
  - intros w pc2 Hw2. rewrite (Hw _ _ Hw2). unfold hand_over in Hm. naive_solver.
  - intros c2 pc2 [[<- <-]|[Hne Hc2]]%lookup_insert_Some; [done|].
    rewrite (Hc _ _ Hc2). unfold hand_over in Hm. naive_solver.
Qed.

(** A waiting worker is not inside, and is not when it is woken. *)
Lemma mtx_wake m wt ct w : mtx_inv m wt ct → wt !! w = Some WWait → mtx_inv m (<[w := WLock]> wt) ct.
Proof.
  intros HI Hw. apply (mtx_w m); [done|by left|]. by rewrite <-(proj1 HI _ _ Hw).
Qed.

Lemma mtx_wake_all m wt ct : mtx_inv m wt ct → mtx_inv m (wake_all wt) ct.
Proof.
  intros [Hw Hc]. split; [|done]. intros w pc Hpc. unfold wake_all in Hpc. rewrite lookup_fmap in Hpc.
  apply fmap_Some in Hpc as (pc0 & Hw0 & ->). rewrite <-(Hw _ _ Hw0). by case_decide; subst.
Qed.

Lemma mtx_owner wt ct w pc : mtx_inv (Some (inl w)) wt ct → wt !! w = Some pc → holding pc = true.
Proof. intros [Hw _] Hpc. by apply (Hw _ _ Hpc). Qed.

(** ** The workers: what holds where each of them is *)

Definition ctl_ok (wj : Z) (wh : gmap Z nWorker) (w : Z) (pc : wpc) : Prop :=
  (pc ≠ WDone → is_Some (wh !! w)) ∧
  match pc with
  | WTerm => wj = 0
  | WAfter => wj ≠ 0 ∨ terminate <$> wh !! w = Some true
  | WTake => wj ≠ 0
  | WRemove j => wj = j ∧ j ≠ 0
  | _ => True
  end.
Definition ctl_inv (wj : Z) (wh : gmap Z nWorker) (wt : gmap Z wpc) : Prop := map_Forall (ctl_ok wj wh) wt.

Lemma ctl_w wj wh wt w pc : ctl_inv wj wh wt → ctl_ok wj wh w pc → ctl_inv wj wh (<[w := pc]> wt).
Proof. intros HI Hok. by apply map_Forall_insert_2. Qed.

(** The list of jobs changes when no other worker is inside. *)
Lemma ctl_wj wj wj' wh wt m ct w : ctl_inv wj wh wt → mtx_inv m wt ct →
  (∀ w', m = Some (inl w') → w' = w) → ∀ pc, ctl_ok wj' wh w pc → ctl_inv wj' wh (<[w := pc]> wt).
Proof.
  intros HI [Hw _] Hm pc Hok w' pc' [[<- <-]|[Hne Hw']]%lookup_insert_Some; [done|].
  destruct (HI _ _ Hw') as [Hal _]. split; [done|].
  assert (holding pc' ≠ true) by (intros ?%(Hw _ _ Hw'); naive_solver). by destruct pc'.
Qed.

Lemma ctl_wj_client wj wj' wh wt ct c : ctl_inv wj wh wt → mtx_inv (Some (inr c)) wt ct → ctl_inv wj' wh wt.
Proof.
  intros HI [Hw _] w pc Hpc. destruct (HI _ _ Hpc) as [Hal _]. split; [done|].
  assert (holding pc ≠ true) by (by intros ?%(Hw _ _ Hpc)). by destruct pc.
Qed.

Lemma ctl_wake_all wj wh wt : ctl_inv wj wh wt → ctl_inv wj wh (wake_all wt).
Proof.
  intros HI w pc Hpc. unfold wake_all in Hpc. rewrite lookup_fmap in Hpc.
  apply fmap_Some in Hpc as (pc0 & Hw0 & ->). pose proof (HI _ _ Hw0) as [Hal Hok]. case_decide; [|done].
  split; [|done]. intros _. apply Hal. by subst.
Qed.

(** [terminate] is only ever set. *)
Lemma ctl_terminate wj wh wt w k : ctl_inv wj wh wt → wh !! w = Some k →
  ctl_inv wj (<[w := Worker true (wprev k) (wnext k)]> wh) wt.
Proof.
  intros HI Hk w' pc Hpc. destruct (HI _ _ Hpc) as [Hal Hok]. split.
  - intros Hd. rewrite lookup_insert_is_Some'. right. by apply Hal.
  - destruct pc; try done. destruct Hok as [?|Ht]; [by left|right].
    destruct (decide (w = w')) as [->|Hne]; [by rewrite lookup_insert_eq|by rewrite lookup_insert_ne].
Qed.

Lemma ctl_free wj wh wt w : ctl_inv wj wh wt → ctl_inv wj (delete w wh) (<[w := WDone]> wt).
Proof.
  intros HI w' pc [[<- <-]|[Hne Hw']]%lookup_insert_Some; [done|]. destruct (HI _ _ Hw') as [Hal Hok].
  unfold ctl_ok. by rewrite lookup_delete_ne.
Qed.

(** ** A client between the two halves of [LL_ADD] *)

Definition link_ok (h : gmap Z nJob) (wj : Z) (pc : cpc) : Prop :=
  match pc with QLink j l => l = j ∧ h !! j = Some (Job 0 wj) | _ => True end.
Definition link_inv (h : gmap Z nJob) (wj : Z) (ct : gmap Z cpc) : Prop := map_Forall (λ _ pc, link_ok h wj pc) ct.

(** While no client holds the mutex there is none. *)
Lemma link_none h wj wt ct m : mtx_inv m wt ct → (∀ c, m ≠ Some (inr c)) → link_inv h wj ct.
Proof. intros [_ Hc] Hm c pc Hpc. destruct pc; try done. by destruct (Hm c), (proj1 (Hc _ _ Hpc) eq_refl). Qed.

(** While a client does, it is the only one. *)
Lemma link_client h wj wt ct c pc : mtx_inv (Some (inr c)) wt ct → link_ok h wj pc → link_inv h wj (<[c := pc]> ct).
Proof.
  intros [_ Hc] Hok c' pc' [[<- <-]|[Hne Hpc]]%lookup_insert_Some; [done|]. destruct pc'; try done.
  pose proof (proj1 (Hc _ _ Hpc) eq_refl) as [= <-]. done.
Qed.

Lemma link_c h wj ct c pc : link_inv h wj ct → link_ok h wj pc → link_inv h wj (<[c := pc]> ct).
Proof. intros HI Hok. by apply map_Forall_insert_2. Qed.

(** The store changes elsewhere. *)
Lemma link_store h h' wj ct : link_inv h wj ct → (∀ j, j ∈ collect entering ct → h' !! j = h !! j) → link_inv h' wj ct.
Proof.
  intros HI Hh c pc Hpc. specialize (HI _ _ Hpc). destruct pc; try done. destruct HI as [-> HI]. split; [done|].
  rewrite Hh; [done|]. apply elem_of_collect. by eexists _, _.
Qed.

(** ** The pool *)

Definition jobs_of (s : nWorkQueue) (l hs ps : list Z) : Prop :=
  jobs_inv (jheap s) (waiting_jobs s) l (queued s) (executed s) (dropped s) hs ps.
Definition pool_inv (s : nWorkQueue) (l : list Z) : Prop :=
  jobs_of s l (hands s) (pend s) ∧ mtx_inv (jobs_mtx s) (wthreads s) (cthreads s) ∧
  ctl_inv (waiting_jobs s) (wheap s) (wthreads s) ∧ link_inv (jheap s) (waiting_jobs s) (cthreads s).

Lemma hands_at wt w pc pc' : wt !! w = Some pc → ∃ r,
  collect hand wt ≡ₚ opt_list (hand pc) ++ r ∧ collect hand (<[w := pc']> wt) ≡ₚ opt_list (hand pc') ++ r.
Proof. intros Hw. exists (collect hand (delete w wt)). split; [by apply collect_split|apply collect_insert]. Qed.
Lemma pend_at ct c pc pc' : ct !! c = Some pc → ∃ r,
  collect entering ct ≡ₚ opt_list (entering pc) ++ r ∧ collect entering (<[c := pc']> ct) ≡ₚ opt_list (entering pc') ++ r.
Proof. intros Hc. exists (collect entering (delete c ct)). split; [by apply collect_split|apply collect_insert]. Qed.

Lemma hands_same wt w pc pc' : wt !! w = Some pc → hand pc = hand pc' →
  collect hand (<[w := pc']> wt) ≡ₚ collect hand wt.
Proof. intros Hw He. destruct (hands_at wt w pc pc' Hw) as (r & -> & ->). by rewrite He. Qed.
Lemma pend_same ct c pc pc' : ct !! c = Some pc → entering pc = entering pc' →
  collect entering (<[c := pc']> ct) ≡ₚ collect entering ct.
Proof. intros Hc He. destruct (pend_at ct c pc pc' Hc) as (r & -> & ->). by rewrite He. Qed.

(** A step of a worker, and of a client, that moves no job. *)
Lemma inv_goto s l w pc pc' m : pool_inv s l → wthreads s !! w = Some pc → hand pc = hand pc' →
  hand_over (inl w) (jobs_mtx s) m → (holding pc' = true ↔ m = Some (inl w)) →
  ctl_ok (waiting_jobs s) (wheap s) w pc' → pool_inv (goto (set_mtx s m) w pc') l.
Proof.
  intros (Hj & Hm & Hc & Hk) Hw Hh Ho Hp Hok. split; [|split; [|split]]; [| | |done].
  - unfold jobs_of, hands. simpl. rewrite (hands_same _ _ _ _ Hw Hh). exact Hj.
  - by eapply mtx_w.
  - by apply ctl_w.
Qed.

Lemma inv_cgoto s l c pc pc' m : pool_inv s l → cthreads s !! c = Some pc → entering pc = entering pc' →
  hand_over (inr c) (jobs_mtx s) m → (cholding pc' = true ↔ m = Some (inr c)) →
  link_ok (jheap s) (waiting_jobs s) pc' → pool_inv (cgoto (set_mtx s m) c pc') l.
Proof.
  intros (Hj & Hm & Hc & Hk) Hw Hh Ho Hp Hok. split; [|split; [|split]]; [| | |by apply link_c].
  - unfold jobs_of, pend. simpl. rewrite (pend_same _ _ _ _ Hw Hh). exact Hj.
  - by eapply mtx_c.
  - done.
Qed.

Lemma is_waiting_spec s w : is_waiting s w = true ↔ wthreads s !! w = Some WWait.
Proof. unfold is_waiting. destruct (wthreads s !! w) as [[]|]; naive_solver. Qed.

Lemma inv_wake s l w : pool_inv s l → is_waiting s w = true → pool_inv (goto s w WLock) l.
Proof.
  intros HI Hw%is_waiting_spec. pose proof HI as (_ & Hm & Hc & _).
  destruct s as [ws wj m wh jh wt ct q ex dr]. apply (inv_goto _ l w WWait WLock m HI Hw); simpl in *.
  - done.
  - by left.
  - by rewrite <-(proj1 Hm _ _ Hw).
  - split; [|done]. intros _. by apply (Hc _ _ Hw).
Qed.

(** ** Every step keeps the invariant *)

(** [set_mtx s m] where [m] is the mutex as it is. *)
Lemma goto_mtx s w pc : goto s w pc = goto (set_mtx s (jobs_mtx s)) w pc.
Proof. done. Qed.
Lemma cgoto_mtx s c pc : cgoto s c pc = cgoto (set_mtx s (jobs_mtx s)) c pc.
Proof. done. Qed.

Lemma alive s l w pc : pool_inv s l → wthreads s !! w = Some pc → pc ≠ WDone → is_Some (wheap s !! w).
Proof. intros (_ & _ & Hc & _) Hw Hd. by apply (Hc _ _ Hw). Qed.
Lemma owner s l w pc : pool_inv s l → wthreads s !! w = Some pc → holding pc = true → jobs_mtx s = Some (inl w).
Proof. intros (_ & [Hm _] & _) Hw Hd. by apply (Hm _ _ Hw). Qed.
Lemma cowner s l c pc : pool_inv s l → cthreads s !! c = Some pc → cholding pc = true → jobs_mtx s = Some (inr c).
Proof. intros (_ & [_ Hm] & _) Hw Hd. by apply (Hm _ _ Hw). Qed.

Lemma remove_step s l w j k : pool_inv s l → wthreads s !! w = Some (WRemove j) → wheap s !! w = Some k →
  ∃ s' l', ntyWorkerThread s w = Some (Ok s') ∧ pool_inv s' l'.
Proof.
  intros HI Hw Hk. pose proof (owner _ _ _ _ HI Hw eq_refl) as Ho. destruct HI as (Hj & Hm & Hc & Hl).
  pose proof (Hc _ _ Hw) as [_ [Ewj Hwj]]. subst j. destruct (jobs_take _ _ _ _ _ _ _ _ Hj Hwj) as (l' & x & -> & HR & Hj').
  unfold ntyWorkerThread. rewrite Hw, Hk. simpl. rewrite HR. simpl.
  eexists _, l'. split; [done|]. split; [|split; [|split]].
  - unfold jobs_of, hands. simpl. destruct (hands_at _ _ _ (WUnlock (waiting_jobs s)) Hw) as (r & Er & ->).
    simpl in *. unfold hands in Hj'. rewrite Er in Hj'. exact Hj'.
  - simpl. eapply mtx_w; [exact Hm|by left|]. by rewrite Ho.
  - simpl. eapply ctl_wj; [exact Hc|exact Hm|rewrite Ho; naive_solver|]. split; [by rewrite Hk|done].
  - simpl. eapply link_none; [exact Hm|]. by rewrite Ho.
Qed.

Lemma run_step s l w j k : pool_inv s l → wthreads s !! w = Some (WRun j) → wheap s !! w = Some k →
  ∃ s' l', ntyWorkerThread s w = Some (Ok s') ∧ pool_inv s' l'.
Proof.
  intros (Hj & Hm & Hc & Hl) Hw Hk. destruct (hands_at _ _ _ WLock Hw) as (r & Er & El). simpl in *.
  unfold jobs_of, hands in Hj. rewrite Er in Hj. pose proof (jobs_inv_fresh _ _ _ _ _ _ _ _ Hj) as Hf.
  apply jobs_run in Hj as [[n Hn] Hj].
  unfold ntyWorkerThread. rewrite Hw, Hn. simpl. eexists _, l. split; [done|]. split; [|split; [|split]].
  - unfold jobs_of, hands. simpl. rewrite El. exact Hj.
  - simpl. eapply mtx_w; [exact Hm|by left|]. by rewrite <-(proj1 Hm _ _ Hw).
  - simpl. apply ctl_w; [done|]. split; [by rewrite Hk|done].
  - simpl. eapply link_store; [exact Hl|]. intros i Hi. rewrite lookup_delete_ne; [done|]. intros ->.
    apply NoDup_app in Hf as (_ & _ & Hf). simpl in Hf. apply NoDup_cons in Hf as [Hf _]. apply Hf. unfold pend. set_solver.
Qed.

(** The steps that only move the worker and the mutex. *)
Lemma worker_step s l w r : pool_inv s l → ntyWorkerThread s w = Some r → ∃ s' l', r = Ok s' ∧ pool_inv s' l'.
Proof.
  intros HI Hs. destruct (wthreads s !! w) as [pc|] eqn:Hw; [|by unfold ntyWorkerThread in Hs; rewrite Hw in Hs].
  destruct (decide (pc = WDone)) as [->|Hd]; [by unfold ntyWorkerThread in Hs; rewrite Hw in Hs|].
  destruct (alive _ _ _ _ HI Hw Hd) as [k Hk].
  assert (Hgo : ∀ pc' m, hand pc = hand pc' → hand_over (inl w) (jobs_mtx s) m →
    (holding pc' = true ↔ m = Some (inl w)) → ctl_ok (waiting_jobs s) (wheap s) w pc' →
    ∃ s' l', Ok (goto (set_mtx s m) w pc') = Ok s' ∧ pool_inv s' l').
  { intros pc' m ????. eexists _, l. split; [done|]. by eapply inv_goto. }
  destruct pc; try done.
  7: destruct (remove_step _ _ _ _ _ HI Hw Hk) as (s' & l' & Hs' & ?); rewrite Hs' in Hs; injection Hs as <-; eauto.
  8: destruct (run_step _ _ _ _ _ HI Hw Hk) as (s' & l' & Hs' & ?); rewrite Hs' in Hs; injection Hs as <-; eauto.
  all: unfold ntyWorkerThread in Hs; rewrite Hw in Hs; try rewrite Hk in Hs; simpl in Hs; try done.
  - destruct (jobs_mtx s) eqn:Hm; [done|]. injection Hs as <-.
    apply Hgo; [done|right; auto|done|split; [by rewrite Hk|done]].
  - pose proof (owner _ _ _ _ HI Hw eq_refl) as Ho. injection Hs as <-. rewrite goto_mtx.
    apply Hgo; [by case_cmp|by left|by case_cmp|]. split; [by rewrite Hk|]. case_cmp; auto.
  - pose proof (owner _ _ _ _ HI Hw eq_refl) as Ho. injection Hs as <-. destruct (terminate k) eqn:Ht.
    + rewrite goto_mtx. apply Hgo; [done|by left|done|]. split; [by rewrite Hk|].
      right. by rewrite Hk, <-Ht.
    + apply Hgo; [done|right; rewrite Ho; auto|done|split; [by rewrite Hk|done]].
  - pose proof (owner _ _ _ _ HI Hw eq_refl) as Ho. pose proof HI as (_ & _ & Hc & _). pose proof (Hc _ _ Hw) as [_ Ha].
    injection Hs as <-. rewrite Hk in Ha. destruct (terminate k) eqn:Ht.
    + apply Hgo; [done|right; rewrite Ho; auto|done|split; [by rewrite Hk|done]].
    + rewrite goto_mtx. apply Hgo; [done|by left|done|]. split; [by rewrite Hk|].
      destruct Ha as [?|Ha]; [done|]. simpl in Ha. congruence.
  - pose proof (owner _ _ _ _ HI Hw eq_refl) as Ho. pose proof HI as (_ & _ & Hc & _). pose proof (Hc _ _ Hw) as [_ Ha].
    injection Hs as <-. rewrite (proj2 (Z.eqb_neq _ _)) by done. rewrite goto_mtx.
    apply Hgo; [done|by left|done|]. split; [by rewrite Hk|done].
  - pose proof (owner _ _ _ _ HI Hw eq_refl) as Ho. injection Hs as <-.
    apply Hgo; [done|right; rewrite Ho; auto|done|split; [by rewrite Hk|done]].
  - injection Hs as <-. eexists _, l. split; [done|]. destruct HI as (Hj & Hm & Hc & Hl). split; [|split; [|split]]; [| | |done].
    + unfold jobs_of, hands. simpl. by rewrite (hands_same _ _ _ WDone Hw).
    + simpl. eapply mtx_w; [exact Hm|by left|]. by rewrite <-(proj1 Hm _ _ Hw).
    + simpl. by apply ctl_free.
Qed.

Lemma queue_step s l c wake r : pool_inv s l → ntyThreadPoolQueue s c wake = Some r →
  ∃ s' l', r = Ok s' ∧ pool_inv s' l'.
Proof.
  intros HI Hs. unfold ntyThreadPoolQueue in Hs. destruct (cthreads s !! c) as [pc|] eqn:Hpc; [|done].
  destruct pc as [|j|j|j h0| | | | | | | |]; try done.
  - destruct (jobs_mtx s) eqn:Hm; [done|]. injection Hs as <-. eexists _, l. split; [done|].
    eapply inv_cgoto; [exact HI|exact Hpc|done|right; auto|done|done].
  - pose proof (cowner _ _ _ _ HI Hpc eq_refl) as Ho. destruct HI as (Hj & Hm & Hc & Hl).
    destruct (pend_at _ _ _ (QLink j j) Hpc) as (q & Eq & El). simpl in *.
    unfold jobs_of, pend in Hj. rewrite Eq in Hj. apply jobs_link in Hj as [HA Hj]. rewrite HA in Hs. simpl in Hs.
    injection Hs as <-. eexists _, l. split; [done|]. split; [|split; [|split]].
    + unfold jobs_of, pend. simpl. rewrite El. exact Hj.
    + simpl. eapply mtx_c; [exact Hm|by left|]. by rewrite Ho.
    + done.
    + simpl. rewrite Ho in Hm. eapply link_client; [exact Hm|]. split; [done|]. apply lookup_insert_eq.
  - pose proof (cowner _ _ _ _ HI Hpc eq_refl) as Ho. destruct HI as (Hj & Hm & Hc & Hl).
    destruct (Hl _ _ Hpc) as [-> Hn]. destruct (pend_at _ _ _ QSignal Hpc) as (q & Eq & El). simpl in *.
    unfold jobs_of, pend in Hj. rewrite Eq in Hj. pose proof (jobs_add _ _ _ _ _ _ _ _ _ Hj Hn) as Hj'.
    injection Hs as <-. eexists _, (j :: l). split; [done|]. split; [|split; [|split]].
    + unfold jobs_of, pend. simpl. rewrite El. exact Hj'.
    + simpl. eapply mtx_c; [exact Hm|by left|]. by rewrite Ho.
    + simpl. rewrite Ho in Hm. by eapply ctl_wj_client.
    + simpl. rewrite Ho in Hm. by eapply link_client.
  - destruct (can_wake s wake) eqn:Hwk; [|done]. injection Hs as <-. eexists _, l. split; [done|].
    assert (HI' : pool_inv (signal s wake) l) by (destruct wake as [w|]; [by apply inv_wake|done]).
    assert (Hpc' : cthreads (signal s wake) !! c = Some QSignal) by (by destruct wake).
    pose proof (cowner _ _ _ _ HI' Hpc' eq_refl) as Ho. rewrite cgoto_mtx.
    eapply inv_cgoto; [exact HI'|exact Hpc'|done|by left|by rewrite Ho|done].
  - pose proof (cowner _ _ _ _ HI Hpc eq_refl) as Ho. injection Hs as <-. eexists _, l. split; [done|].
    eapply inv_cgoto; [exact HI|exact Hpc|done|right; rewrite Ho; auto|done|done].
Qed.

(** The steps of a shutdown that succeed, and the one way they can fail. *)
Lemma shutdown_step s l c r : pool_inv s l → ntyThreadPoolShutdown s c = Some r →
  r = Err UseAfterFree ∧ (∃ w, (cthreads s !! c = Some (SLoop w) ∨ cthreads s !! c = Some (SNext w)) ∧
    wheap s !! w = None) ∨ ∃ s' l', r = Ok s' ∧ pool_inv s' l'.
Proof.
  intros HI Hs. unfold ntyThreadPoolShutdown in Hs. destruct (cthreads s !! c) as [pc|] eqn:Hpc; [|done].
  assert (Hgo : ∀ s1 pc' m, pool_inv s1 l → cthreads s1 = cthreads s → jobs_mtx s1 = jobs_mtx s →
    entering pc = entering pc' → hand_over (inr c) (jobs_mtx s) m → (cholding pc' = true ↔ m = Some (inr c)) →
    link_ok (jheap s1) (waiting_jobs s1) pc' → ∃ s' l', Ok (cgoto (set_mtx s1 m) c pc') = Ok s' ∧ pool_inv s' l').
  { intros s1 pc' m ? Ec Em ????. eexists _, l. split; [done|]. eapply inv_cgoto; rewrite ?Ec, ?Em; eauto. }
  pose proof HI as (Hj & Hm & Hc & Hl). pose proof (proj2 Hm _ _ Hpc) as Hmc.
  destruct pc as [| | | | | |w|w| | | |]; try done.
  - destruct (Z.eqb_spec w 0); injection Hs as <-.
    + right. rewrite cgoto_mtx. by apply Hgo; [|done|done|done|left| |].
    + destruct (wheap s !! w) as [k|] eqn:Hk; simpl; [right|left; split; [done|]; exists w; auto].
      rewrite cgoto_mtx. apply Hgo; try done; [|by left].
      split; [done|]. split; [done|]. split; [by apply ctl_terminate|done].
  - destruct (wheap s !! w) as [k|] eqn:Hk; simpl in Hs; injection Hs as <-.
    + right. rewrite cgoto_mtx. by apply Hgo; [|done|done|done|left| |].
    + left. split; [done|]. exists w. auto.
  - destruct (jobs_mtx s) eqn:E; [done|]. injection Hs as <-. right.
    apply Hgo; [done|done|done|done|right; auto|done|done].
  - injection Hs as <-. right. assert (Ho : jobs_mtx s = Some (inr c)) by by apply Hmc.
    destruct (jobs_drop _ _ _ _ _ _ _ _ Hj) as [El Hj']. eexists _, []. split; [done|]. split; [|split; [|split]].
    + unfold jobs_of, hands, pend. simpl. rewrite El, (pend_same _ _ _ SWake Hpc) by done. exact Hj'.
    + simpl. eapply mtx_c; [exact Hm|by left|]. by rewrite Ho.
    + simpl. rewrite Ho in Hm. by eapply ctl_wj_client.
    + simpl. rewrite Ho in Hm. by eapply link_client.
  - injection Hs as <-. right. assert (Ho : jobs_mtx s = Some (inr c)) by by apply Hmc. rewrite cgoto_mtx.
    apply Hgo; [|done|done|done|by left|by rewrite Ho|done]. split; [|split; [|split]].
    + unfold jobs_of, hands. simpl. unfold wake_all. rewrite collect_fmap; [exact Hj|]. intros pc. case_decide; by subst.
    + simpl. by apply mtx_wake_all.
    + simpl. by apply ctl_wake_all.
    + done.
  - injection Hs as <-. right. assert (Ho : jobs_mtx s = Some (inr c)) by by apply Hmc.
    apply Hgo; [done|done|done|done|right; rewrite Ho; auto|done|done].
Qed.

Lemma act_inv s l a r : pool_inv s l → act s a = Some r → (∃ s' l', r = Ok s' ∧ pool_inv s' l') ∨
  r = Err UseAfterFree ∧ ∃ c w, a = Stopping c ∧
    (cthreads s !! c = Some (SLoop w) ∨ cthreads s !! c = Some (SNext w)) ∧ wheap s !! w = None.
Proof.
  intros HI Ha. destruct a as [w|w|c wake|c|c j x y|c]; simpl in Ha.
  - left. by eapply worker_step.
  - destruct (is_waiting s w) eqn:Hw; [|done]. injection Ha as <-. left. eexists _, l. split; [done|]. by apply inv_wake.
  - left. by eapply queue_step.
  - destruct (shutdown_step _ _ _ _ HI Ha) as [[-> (w & Hw & Hn)]|?]; [right|by left]. eauto 10.
  - destruct (cthreads s !! c) as [[]|] eqn:Hpc; try done. case_bool_decide as Hj; [|done].
    destruct Hj as (Hj & Hq & Hn). injection Ha as <-. left. eexists _, l. split; [done|].
    destruct HI as (Hi & Hm & Hc & Hl). split; [|split; [|split]].
    + unfold jobs_of, pend. simpl. destruct (pend_at _ _ _ (QLock j) Hpc) as (q & Eq & ->). simpl in *.
      unfold jobs_of, pend in Hi. rewrite Eq in Hi. by apply jobs_new.
    + simpl. eapply mtx_c; [exact Hm|by left|]. by rewrite <-(proj2 Hm _ _ Hpc).
    + done.
    + simpl. apply link_c; [|done]. eapply link_store; [exact Hl|]. intros i Hi'. rewrite lookup_insert_ne; [done|].
      intros <-. destruct Hi as (_ & _ & _ & _ & Hh). destruct (Hh j) as [_ [n Hjn]]; [|by rewrite Hn in Hjn].
      apply elem_of_app. by right.
  - destruct (cthreads s !! c) as [[]|] eqn:Hpc; try done. injection Ha as <-. left. eexists _, l. split; [done|].
    rewrite cgoto_mtx. eapply inv_cgoto; [exact HI|exact Hpc|done|by left| |done].
    by rewrite <-(proj2 (proj1 (proj2 HI)) _ _ Hpc).
Qed.

(** ** The pool when it is created *)

Record fresh_pool (s : nWorkQueue) : Prop := FreshPool {
  fp_mtx : jobs_mtx s = None;
  fp_jobs : waiting_jobs s = 0 ∧ queued s = [] ∧ executed s = [] ∧ dropped s = [];
  fp_workers : map_Forall (λ w pc, pc = WLock ∧ is_Some (wheap s !! w)) (wthreads s);
  fp_clients : map_Forall (λ _ pc, pc = CIdle) (cthreads s);
  fp_records : map_Forall (λ _ k, terminate k = false) (wheap s)
}.

Lemma create_loop_fresh n : ∀ answers s, fresh_pool s → fresh_pool (create_loop n answers s).2.
Proof.
  induction n as [|n IH]; intros [|[[a|] []] answers] s HF; simpl; try done. apply IH.
  destruct HF as [Hm Hj Hw Hc Hr]. split; simpl; try done.
  - intros w pc [[<- <-]|[Hne Hpc]]%lookup_insert_Some; [by rewrite lookup_insert_eq|].
    destruct (Hw _ _ Hpc) as [-> Hs]. by rewrite lookup_insert_ne.
  - by apply map_Forall_insert_2.
Qed.

Lemma create_loop_count n : ∀ answers s, (create_loop n answers s).1 = 0 → n ≠ 0%nat →
  wthreads (create_loop n answers s).2 ≠ ∅.
Proof.
  induction n as [|[|n] IH]; intros [|[[a|] []] answers] s Hr Hn; try done.
  - simpl. apply insert_non_empty.
  - by apply IH.
Qed.

Lemma create_fresh n answers clients : fresh_pool (ntyThreadPoolCreate n answers clients).2.
Proof.
  apply create_loop_fresh. split; simpl; try done.
  intros c pc Hc. by apply lookup_gset_to_gmap_Some in Hc as [_ <-].
Qed.

Lemma collect_none {B} (f : B → option Z) m : map_Forall (λ _ b, f b = None) m → collect f m = [].
Proof.
  intros Hf. destruct (collect f m) as [|z t] eqn:E; [done|].
  destruct (proj1 (elem_of_collect f m z)) as (k & b & Hk & Hb); [rewrite E; left|].
  rewrite (Hf _ _ Hk) in Hb. done.
Qed.

Lemma fresh_inv s : fresh_pool s → pool_inv s [].
Proof.
  intros [Hm (Hj & Hq & He & Hd) Hw Hc Hr].
  assert (link_inv (jheap s) (waiting_jobs s) (cthreads s)) as Hli by (intros c pc Hpc; by rewrite (Hc _ _ Hpc)).
  assert (hands s = [] ∧ pend s = []) as [Eh Ep].
  { split; apply collect_none; intros k b Hk; [by destruct (Hw _ _ Hk) as [-> _]|by rewrite (Hc _ _ Hk)]. }
  split; [|split; [|split]]; [| | |done].
  - unfold jobs_of, jobs_inv. rewrite Hj, Hq, He, Hd, Eh, Ep. split_and!; try done.
    + by intros ? ? ?%elem_of_nil.
    + constructor.
    + by intros ? ?%elem_of_nil.
  - rewrite Hm. split; intros k b Hk; [by destruct (Hw _ _ Hk) as [-> _]|by rewrite (Hc _ _ Hk)].
  - intros w pc Hk. destruct (Hw _ _ Hk) as [-> Hs]. done.
Qed.

(** What [n] workers and [clients] may make of the pool. *)
Definition reachable (n : Z) (answers : list (option Z * bool)) (clients : gset Z) (s : nWorkQueue) : Prop :=
  rtc step (ntyThreadPoolCreate n answers clients).2 s.

Lemma reachable_inv n answers clients s : reachable n answers clients s → ∃ l, pool_inv s l.
Proof.
  assert (H0 : ∃ l, pool_inv (ntyThreadPoolCreate n answers clients).2 l) by (exists []; apply fresh_inv, create_fresh).
  unfold reachable. revert H0. generalize (ntyThreadPoolCreate n answers clients).2 as s0. intros s0 H0 Hr.
  induction Hr as [s|s s1 s2 [a Ha] _ IH]; [done|]. apply IH. destruct H0 as [l HI].
  destruct (act_inv _ _ _ _ HI Ha) as [(s' & l' & [= <-] & HI')|[? _]]; [by exists l'|done].
Qed.

(** A schedule whose actions satisfy [P]. *)
Lemma run_steps (P : action → Prop) l : Forall P l → ∀ s s', run s l = Ok s' →
  rtc (λ s s', ∃ a, P a ∧ act s a = Some (Ok s')) s s'.
Proof.
  induction 1 as [|a l Ha _ IH]; intros s s' Hr; simpl in Hr; [by injection Hr as <-|].
  destruct (act s a) as [[s1|]|] eqn:Hs; try done. simpl in Hr. eapply rtc_l; [by exists a|by apply IH].
Qed.

(** ** Until it is shut down *)

Definition open_at (pc : cpc) : Prop :=
  match pc with CIdle | QLock _ | QHold _ | QLink _ _ | QSignal | QUnlock => True | _ => False end.

(** A worker is awake, or a client is about to wake one. *)
Definition awake (s : nWorkQueue) : Prop :=
  (∃ w pc, wthreads s !! w = Some pc ∧ pc ≠ WWait) ∨ ∃ c, cthreads s !! c = Some QSignal.

Record open_inv (s : nWorkQueue) : Prop := OpenInv {
  oi_clients : map_Forall (λ _ pc, open_at pc) (cthreads s);
  oi_records : map_Forall (λ _ k, terminate k = false) (wheap s);
  oi_workers : map_Forall (λ _ pc, pc ≠ WFree ∧ pc ≠ WDone) (wthreads s);
  oi_awake : waiting_jobs s ≠ 0 → awake s;
  oi_some : wthreads s ≠ ∅;
  oi_owner : match jobs_mtx s with
    | Some (inl w) => is_Some (wthreads s !! w) | Some (inr c) => is_Some (cthreads s !! c) | None => True end
}.

Lemma fresh_open s : fresh_pool s → wthreads s ≠ ∅ → open_inv s.
Proof.
  intros [Hm (Hj & _) Hw Hc Hr] Hs. split; try done.
  - intros c pc Hpc. by rewrite (Hc _ _ Hpc).
  - intros w pc Hpc. by destruct (Hw _ _ Hpc) as [-> _].
  - by rewrite Hm.
Qed.

(** A worker's step: it goes to sleep only when there is no job. *)
Lemma open_w s s' w pc : open_inv s → cthreads s' = cthreads s → wheap s' = wheap s →
  wthreads s' = <[w := pc]> (wthreads s) → pc ≠ WFree → pc ≠ WDone →
  (jobs_mtx s' = jobs_mtx s ∨ jobs_mtx s' = None ∨ jobs_mtx s' = Some (inl w)) →
  (pc = WWait → waiting_jobs s' = 0) → open_inv s'.
Proof.
  intros [Hc Hr Hw Ha Hs Ho] Ec Eh Ew Hf Hd Hm Hz. split; rewrite ?Ec, ?Eh, ?Ew; try done.
  - by apply map_Forall_insert_2.
  - intros Hj. left. exists w, pc. rewrite Ew, lookup_insert_eq. naive_solver.
  - apply insert_non_empty.
  - destruct Hm as [->|[->| ->]]; [|done|by rewrite lookup_insert_eq].
    destruct (jobs_mtx s) as [[w'|c]|]; [|done|done]. rewrite lookup_insert_is_Some'. auto.
Qed.

(** A client's step. *)
Lemma open_c s s' c pc : open_inv s → wthreads s' = wthreads s → wheap s' = wheap s →
  cthreads s' = <[c := pc]> (cthreads s) → open_at pc →
  (jobs_mtx s' = jobs_mtx s ∨ jobs_mtx s' = None ∨ jobs_mtx s' = Some (inr c)) →
  (waiting_jobs s' = waiting_jobs s ∧ cthreads s !! c ≠ Some QSignal ∨ awake s') → open_inv s'.
Proof.
  intros [Hc Hr Hw Ha Hs Ho] Ew Eh Ec Hpc Hm Hj. split; rewrite ?Ec, ?Eh, ?Ew; try done.
  - by apply map_Forall_insert_2.
  - destruct Hj as [[-> Hq]|?]; [|auto]. intros Hj. destruct (Ha Hj) as [(w & p & Hp & Hn)|(c' & Hc')].
    + left. exists w, p. by rewrite Ew.
    + right. exists c'. rewrite Ec, lookup_insert_ne; [done|]. by intros ->.
  - destruct Hm as [->|[->| ->]]; [|done|by rewrite lookup_insert_eq].
    destruct (jobs_mtx s) as [[w'|c']|]; [done| |done]. rewrite lookup_insert_is_Some'. auto.
Qed.

Lemma no_waiter_awake s : no_waiter s = true → wthreads s ≠ ∅ → ∃ w pc, wthreads s !! w = Some pc ∧ pc ≠ WWait.
Proof.
  intros Hn%bool_decide_eq_true (w & pc & Hpc)%map_choose. exists w, pc. split; [done|]. by apply (Hn _ _ Hpc).
Qed.

Lemma open_worker s l w s' : pool_inv s l → open_inv s → ntyWorkerThread s w = Some (Ok s') → open_inv s'.
Proof.
  intros HI HO Hs. unfold ntyWorkerThread in Hs. destruct (wthreads s !! w) as [pc|] eqn:Hw; [|done].
  pose proof (oi_workers _ HO _ _ Hw) as [Hf _].
  assert (Hgo : ∀ s1 pc', cthreads s1 = cthreads s → wheap s1 = wheap s → wthreads s1 = <[w := pc']> (wthreads s) →
    pc' ≠ WFree → pc' ≠ WDone → (jobs_mtx s1 = jobs_mtx s ∨ jobs_mtx s1 = None ∨ jobs_mtx s1 = Some (inl w)) →
    (pc' = WWait → waiting_jobs s1 = 0) → open_inv s1) by (intros; by eapply open_w).
  destruct HI as (_ & _ & Hc & _). pose proof (Hc _ _ Hw) as [_ Hok].
  destruct pc; try done; [destruct (jobs_mtx s) eqn:Hm; [done|]|..];
    injection Hs as Hs; apply bind_ok in Hs as (k & Hk & Hs).
  - injection Hs as <-. by eapply Hgo; simpl; [..|auto|].
  - injection Hs as <-. eapply Hgo; simpl; [done..| | |by left|]; by case_cmp.
  - apply get_or_ok in Hk. rewrite (oi_records _ HO _ _ Hk) in Hs. injection Hs as <-. by eapply Hgo; simpl; [..|auto|].
  - apply get_or_ok in Hk. rewrite (oi_records _ HO _ _ Hk) in Hs. injection Hs as <-. by eapply Hgo; simpl; [..|auto|].
  - injection Hs as <-. destruct (waiting_jobs s =? 0); by eapply Hgo; simpl; [..|auto|].
  - apply bind_ok in Hs as ([h x] & _ & Hs). injection Hs as <-. by eapply Hgo; simpl; [..|auto|].
  - injection Hs as <-. by eapply Hgo; simpl; [..|auto|].
  - injection Hs as <-. by eapply Hgo; simpl; [..|auto|].
Qed.

Lemma open_queue s c wake s' : open_inv s → ntyThreadPoolQueue s c wake = Some (Ok s') → open_inv s'.
Proof.
  intros HO Hs. unfold ntyThreadPoolQueue in Hs. destruct (cthreads s !! c) as [pc|] eqn:Hpc; [|done].
  assert (Hgo : ∀ s1 pc', wthreads s1 = wthreads s → wheap s1 = wheap s → cthreads s1 = <[c := pc']> (cthreads s) →
    open_at pc' → (jobs_mtx s1 = jobs_mtx s ∨ jobs_mtx s1 = None ∨ jobs_mtx s1 = Some (inr c)) →
    waiting_jobs s1 = waiting_jobs s → pc ≠ QSignal → open_inv s1).
  { intros s1 pc' ?????? Hne. eapply open_c; [exact HO|done..|]. left. split; [done|]. rewrite Hpc. by intros [= ?]. }
  destruct pc as [|j|j|j h0| | | | | | | |]; try done.
  - destruct (jobs_mtx s); [done|]. injection Hs as <-. by eapply Hgo; simpl; [done..|auto| |].
  - injection Hs as Hs. apply bind_ok in Hs as ([h x] & _ & Hs). injection Hs as <-. by eapply Hgo; simpl; [done..|auto| |].
  - injection Hs as <-. eapply open_c; [exact HO|done|done|done|done|by left|]. right. right. exists c. apply lookup_insert_eq.
  - destruct (can_wake s wake) eqn:Hwk; [|done]. injection Hs as <-.
    assert (open_inv (signal s wake) ∧ ∃ w pc, wthreads (signal s wake) !! w = Some pc ∧ pc ≠ WWait) as [HO' Hw].
    { destruct wake as [w|]; simpl in *.
      - apply is_waiting_spec in Hwk. split; [by eapply open_w; [exact HO|done..|by left|done]|].
        exists w, WLock. by rewrite lookup_insert_eq.
      - split; [done|]. apply no_waiter_awake; [done|]. apply HO. }
    eapply open_c; [exact HO'|done|done|done|done|by left|]. right. by left.
  - injection Hs as <-. by eapply Hgo; simpl; [done..|auto| |].
Qed.

(** A step that does not enter the shutdown. *)
Definition open_step (s s' : nWorkQueue) : Prop := ∃ a, (∀ c, a ≠ EnterShutdown c) ∧ act s a = Some (Ok s').

Lemma open_act s l s' : pool_inv s l → open_inv s → open_step s s' → open_inv s'.
Proof.
  intros HI HO ([w|w|c wake|c|c j x y|c] & Hne & Ha); simpl in Ha.
  - by eapply open_worker.
  - destruct (is_waiting s w); [|done]. injection Ha as <-. by eapply open_w; simpl; [done..|auto|].
  - by eapply open_queue.
  - unfold ntyThreadPoolShutdown in Ha. destruct (cthreads s !! c) as [pc|] eqn:Hpc; [|done].
    pose proof (oi_clients _ HO _ _ Hpc). by destruct pc.
  - destruct (cthreads s !! c) as [[]|] eqn:Hpc; try done. case_bool_decide; [|done]. injection Ha as <-.
    eapply open_c; simpl; [done..|by left|left]. by rewrite Hpc.
  - by destruct (Hne c).
Qed.

Lemma open_reachable n answers clients s : (ntyThreadPoolCreate n answers clients).1 = 0 →
  rtc open_step (ntyThreadPoolCreate n answers clients).2 s → open_inv s ∧ ∃ l, pool_inv s l.
Proof.
  intros H0. assert (open_inv (ntyThreadPoolCreate n answers clients).2 ∧
    ∃ l, pool_inv (ntyThreadPoolCreate n answers clients).2 l) as HH.
  { pose proof (create_fresh n answers clients) as HF. split; [|exists []; by apply fresh_inv].
    apply fresh_open; [done|]. apply create_loop_count; [done|]. case_cmp; lia. }
  revert HH. generalize (ntyThreadPoolCreate n answers clients).2 as s0. intros s0 HH Hr.
  induction Hr as [s|s s1 s2 Ha _ IH]; [done|]. apply IH. destruct HH as [HO [l HI]].
  split; [by eapply open_act|]. destruct Ha as (a & _ & Ha).
  destruct (act_inv _ _ _ _ HI Ha) as [(s' & l' & [= <-] & HI')|[? _]]; [by exists l'|done].
Qed.

(** A thread that is not asleep, and does not wait for the mutex, can go on. *)
Lemma worker_enabled s l w pc : pool_inv s l → wthreads s !! w = Some pc → pc ≠ WWait → pc ≠ WDone →
  (pc = WLock → jobs_mtx s = None) → ∃ s', ntyWorkerThread s w = Some (Ok s').
Proof.
  intros HI Hw Hn Hd Hl. assert (∃ r, ntyWorkerThread s w = Some r) as [r Hr].
  { unfold ntyWorkerThread. rewrite Hw. destruct pc; try done; eauto. rewrite Hl by done. eauto. }
  destruct (worker_step _ _ _ _ HI Hr) as (s' & _ & -> & _). by exists s'.
Qed.

Lemma queue_enabled s l c pc : pool_inv s l → cthreads s !! c = Some pc → open_at pc → cholding pc = true →
  ∃ wake s', ntyThreadPoolQueue s c wake = Some (Ok s').
Proof.
  intros HI Hc Hop Hho. assert (∃ wake, can_wake s wake = true) as [wake Hk].
  { destruct (no_waiter s) eqn:Hn; [by exists None|]. apply bool_decide_eq_false in Hn.
    apply map_not_Forall in Hn as (w & p & Hw & Hp); [|solve_decision]. exists (Some w).
    apply is_waiting_spec. destruct (decide (p = WWait)) as [->|?]; done. }
  assert (∃ r, ntyThreadPoolQueue s c wake = Some r) as [r Hr].
  { unfold ntyThreadPoolQueue. rewrite Hc, Hk. destruct pc; try done; eauto. }
  destruct (queue_step _ _ _ _ _ HI Hr) as (s' & _ & -> & _). by exists wake, s'.
Qed.

(** ** The theorems *)

(** The threads that are between lock and unlock. *)
Definition inside (s : nWorkQueue) (t : Z + Z) : Prop :=
  match t with
  | inl w => ∃ pc, wthreads s !! w = Some pc ∧ holding pc = true
  | inr c => ∃ pc, cthreads s !! c = Some pc ∧ cholding pc = true
  end.

(** C19: In every state that workers and clients reach, in whatever order they run, each job
    queued is in exactly one place: the list, the hands of one worker, among those run, or among those a
    shutdown dropped; so no job is run twice.  At most one thread, worker or client, is between
    locking the mutex and unlocking it.  Workers and queueing clients never follow a null or freed pointer: the only fault possible is that of a
    shutdown, which follows a worker that has freed itself. *)
Theorem pool_jobs_once n answers clients s : reachable n answers clients s →
  (∃ l, chain next (jheap s) (waiting_jobs s) l ∧
    queued s ≡ₚ l ++ hands s ++ executed s ++ dropped s ∧ NoDup (queued s)) ∧
  (∀ t1 t2, inside s t1 → inside s t2 → t1 = t2) ∧
  (∀ a x, act s a = Some (Err x) → x = UseAfterFree ∧ ∃ c w, a = Stopping c ∧
    (cthreads s !! c = Some (SLoop w) ∨ cthreads s !! c = Some (SNext w)) ∧ wheap s !! w = None).
Proof.
  intros [l HI]%reachable_inv. split; [|split].
  - exists l. destruct HI as ((Hc & _ & Hq & Hnd & _) & _). split; [done|]. split; [done|].
    by apply NoDup_app in Hnd as [? _].
  - assert (Hin : ∀ t, inside s t → jobs_mtx s = Some t).
    { intros [w|c] (pc & Hpc & Hh); [by eapply owner|by eapply cowner]. }
    intros t1 t2 H1%Hin H2%Hin. congruence.
  - intros a x Ha. destruct (act_inv _ _ _ _ HI Ha) as [(s' & l' & ? & _)|[[= ->] ?]]; [done|]. split; [done|]. done.
Qed.

(** C38: No wake-up is lost: as long as the pool is not shut down, while a job waits
    some worker can go on, or the client that holds the mutex can; so the workers never all sleep
    beside a waiting job. *)
Theorem pool_progress n answers clients s : (ntyThreadPoolCreate n answers clients).1 = 0 →
  rtc open_step (ntyThreadPoolCreate n answers clients).2 s → waiting_jobs s ≠ 0 →
  (∃ w s', ntyWorkerThread s w = Some (Ok s')) ∨
  (∃ c wake s', jobs_mtx s = Some (inr c) ∧ ntyThreadPoolQueue s c wake = Some (Ok s')).
Proof.
  intros H0 Hr Hj. destruct (open_reachable _ _ _ _ H0 Hr) as [HO [l HI]]. pose proof HI as (_ & [Hmw Hmc] & _).
  pose proof (oi_owner _ HO) as Ho. destruct (jobs_mtx s) as [[w|c]|] eqn:Hm.
  - destruct Ho as [pc Hw]. pose proof (proj2 (Hmw _ _ Hw) eq_refl). left. exists w.
    eapply worker_enabled; [exact HI|exact Hw|by destruct pc..].
  - destruct Ho as [pc Hc]. pose proof (proj2 (Hmc _ _ Hc) eq_refl) as Hh. pose proof (oi_clients _ HO _ _ Hc) as Hp.
    right. exists c. destruct (queue_enabled _ _ _ _ HI Hc Hp Hh) as (wake & s' & ?). by exists wake, s'.
  - destruct (oi_awake _ HO Hj) as [(w & pc & Hw & Hp)|(c & Hc)]; [|pose proof (proj1 (Hmc _ _ Hc) eq_refl); congruence]. left. exists w.
    eapply worker_enabled; [exact HI|exact Hw|done|by apply (oi_workers _ HO _ _ Hw)|done].
Qed.

(** A pool of two workers and one client, which queues jobs 21 and 22. *)
Definition ex_pool : Z * nWorkQueue := ntyThreadPoolCreate 2 [(Some 1, true); (Some 2, true)] {[7]}.
Definition ex_schedule : list action :=
  [Work 1; Work 1; Work 1; EnterQueue 7 21 5 6; Queueing 7 None; Queueing 7 None; Queueing 7 None;
   Queueing 7 (Some 1); Queueing 7 None; EnterQueue 7 22 5 6] ++ replicate 7 (Work 2) ++ replicate 5 (Queueing 7 None).
Definition ex_state : res nWorkQueue := run ex_pool.2 ex_schedule.

(** a shutdown reads a worker's record after the worker, awake, has seen
    [terminate] and freed it. *)
Theorem shutdown_use_after_free :
  run (ntyThreadPoolCreate 1 [(Some 1, true)] {[7]}).2
    ([EnterShutdown 7; Stopping 7] ++ replicate 5 (Work 1) ++ [Stopping 7]) = Err UseAfterFree.
Proof. by vm_compute. Qed.

(** [LL_ADD] leaves the [prev] of the old head null, so [LL_REMOVE] of an item that is
    not the head cuts the list there: the head still leads to the removed item, and what came after it is lost. *)
Theorem ll_remove_inner_cuts h a b x n : h !! a = Some (Job 0 x) → h !! b = Some n → a ≠ b → a ≠ 0 → b ≠ 0 →
  x ≠ a → x ≠ b → is_Some (h !! x) → x ≠ 0 →
  ∃ h1 h2, LL_ADD h b a = Ok (h1, b) ∧ LL_REMOVE h1 a b = Ok (h2, b) ∧
    chain next h2 b [b; a] ∧ ¬ chain next h2 b [b; x].
Proof.
  intros Ha Hb Hab Ha0 Hb0 Hxa Hxb [m Hx] Hx0.
  set (h1 := <[b := Job 0 a]> h). set (h2 := <[x := Job 0 (next m)]> h1). set (h3 := <[a := Job 0 0]> h2).
  assert (h1 !! a = Some (Job 0 x)) as H1a by (unfold h1; by rewrite lookup_insert_ne).
  assert (h1 !! x = Some m) as H1x by (unfold h1; by rewrite lookup_insert_ne).
  assert (h2 !! a = Some (Job 0 x)) as H2a by (unfold h2; by rewrite lookup_insert_ne).
  assert (h3 !! b = Some (Job 0 a)) as H3b.
  { unfold h3. rewrite lookup_insert_ne by done. unfold h2. rewrite lookup_insert_ne by done. apply lookup_insert_eq. }
  exists h1, h3. split; [unfold LL_ADD; by rewrite Hb|]. split.
  - unfold LL_REMOVE. rewrite H1a. simpl. rewrite H1a. simpl. unfold set_prev.
    rewrite (proj2 (Z.eqb_neq x 0)), H1x by done. simpl. fold h2. rewrite H2a. simpl.
    by rewrite (proj2 (Z.eqb_neq b a)) by done.
  - split.
    + split; [done|]. split; [done|]. exists (Job 0 a). split; [done|]. split; [done|]. split; [done|].
      exists (Job 0 0). split; [apply lookup_insert_eq|done].
    + intros (_ & _ & v & Hv & Hc & _). rewrite H3b in Hv. injection Hv as <-. by apply Hxa.
Qed.

(** ** Concrete instances *)

Definition ex_after : nWorkQueue := match ex_state with Ok s => s | Err _ => ex_pool.2 end.

Definition no_shutdown (a : action) : Prop := match a with EnterShutdown _ => False | _ => True end.

Lemma ex_open : rtc open_step ex_pool.2 ex_after.
Proof.
  assert (run ex_pool.2 ex_schedule = Ok ex_after) as Hr by by vm_compute.
  apply (run_steps no_shutdown) in Hr; [|by repeat constructor].
  eapply rtc_subrel; [|exact Hr]. intros s s' (a & Ha & Hs). exists a. split; [|done]. by intros c ->.
Qed.

Lemma ex_reachable : reachable 2 [(Some 1, true); (Some 2, true)] {[7]} ex_after.
Proof. eapply rtc_subrel; [|exact ex_open]. intros s s' (a & _ & Hs). by exists a. Qed.

Example pool_jobs_once_witness : ∃ l, chain next (jheap ex_after) (waiting_jobs ex_after) l ∧
  queued ex_after ≡ₚ l ++ hands ex_after ++ executed ex_after ++ dropped ex_after ∧ NoDup (queued ex_after).
Proof.
  refine (proj1 (pool_jobs_once 2 [(Some 1, true); (Some 2, true)] {[7]} ex_after ex_reachable)).
Defined.

Example pool_progress_witness : (∃ w s', ntyWorkerThread ex_after w = Some (Ok s')) ∨
  (∃ c wake s', jobs_mtx ex_after = Some (inr c) ∧ ntyThreadPoolQueue ex_after c wake = Some (Ok s')).
Proof.
  refine (pool_progress 2 [(Some 1, true); (Some 2, true)] {[7]} ex_after eq_refl ex_open _). by vm_compute.
Defined.

Example ll_remove_inner_cuts_witness : ∃ h1 h2,
  LL_ADD {[1 := Job 0 2; 2 := Job 0 0; 3 := Job 9 9]} 3 1 = Ok (h1, 3) ∧ LL_REMOVE h1 1 3 = Ok (h2, 3) ∧
  chain next h2 3 [3; 1] ∧ ¬ chain next h2 3 [3; 2].
Proof. by apply (ll_remove_inner_cuts _ 1 3 2 (Job 9 9)). Defined.

End ThreadPool.
