(* ===== verification/SkipList.v ===== *)
(** * The skip list of 7.2timers/timers/skiplist.c and its timers, skl-timer.c

    Nodes live in a store; a node's array of forward pointers is a list of addresses.
    [malloc]'s answers and the numbers [rand] gives are arguments; handlers are
    recorded when they are called.  The theorems show the list a sorted one in every
    lane, and the timers called in order of expiry. *)

From S2P Require Import Prelude.

Module SkipList.

(** ** Data *)

(* src: 7.2timers/timers/skiplist.h:5-5 ZSKIPLIST_MAXLEVEL *)
Definition ZSKIPLIST_MAXLEVEL : nat := 32.

(* src: 7.2timers/timers/skiplist.h:10-20 zskiplistNode *)
Record zskiplistNode : Type := Node { score : Z; handler : Z; level : list Z }.

Notation store := (gmap Z zskiplistNode).

(* src: 7.2timers/timers/skiplist.h:22-27 zskiplist *)
Record zskiplist : Type := ZSL { heap : store; header : Z; zlength : Z; zlevel : Z }.

(** Access to a node, and to one of its forward pointers. *)
Definition rd (h : store) (p : Z) : res zskiplistNode :=
  if p =? 0 then Err NullDeref else get_or UseAfterFree (h !! p).
Definition fwd (h : store) (p i : Z) : res Z := n ← rd h p; aget (level n) i.
Definition set_fwd (h : store) (p i v : Z) : res store :=
  n ← rd h p; l ← aset (level n) i v; Ok (<[p := Node (score n) (handler n) l]> h).

(** ** Operations *)

(** [a] is [malloc]'s answer; the forward pointers are not initialised: [junk]. *)
(* src: 7.2timers/timers/skiplist.c:9-15 zslCreateNode *)
Definition zslCreateNode (h : store) (a : Z) (junk : list Z) (lvl : nat) (sc : Z) (func : Z) : res store :=
  if a =? 0 then Err NullDeref else Ok (<[a := Node sc func (take lvl (junk ++ replicate lvl 0))]> h).

Definition defaultHandler : Z := 0.

(* src: 7.2timers/timers/skiplist.c:17-29 zslCreate *)
Definition zslCreate (h : store) (a : Z) (junk : list Z) : res zskiplist :=
  h ← zslCreateNode h a junk ZSKIPLIST_MAXLEVEL 0 defaultHandler;
  h ← for_up ZSKIPLIST_MAXLEVEL 0 (λ j h, set_fwd h a j 0) h;
  Ok (ZSL h a 0 1).

Fixpoint free_loop (fuel : nat) (h : store) (node : Z) : res store :=
  match fuel with
  | O => Err OutOfFuel
  | S fuel =>
      if node =? 0 then Ok h
      else next ← fwd h node 0; free_loop fuel (delete node h) next
  end.

(* src: 7.2timers/timers/skiplist.c:32-42 zslFree *)
Definition zslFree (z : zskiplist) : res store :=
  node ← fwd (heap z) (header z) 0;
  free_loop (S (size (heap z))) (delete (header z) (heap z)) node.

(** [ZSKIPLIST_P * 0xFFFF] is 65535 / 4; [rolls] are the numbers of [rand]. *)
Fixpoint random_loop (rolls : list Z) (lvl : nat) : res nat :=
  match rolls with
  | [] => Err OutOfFuel
  | r :: rolls => if 4 * Z.land r 65535 <? 65535 then random_loop rolls (S lvl) else Ok lvl
  end.

(* src: 7.2timers/timers/skiplist.c:44-53 zslRandomLevel *)
Definition zslRandomLevel (rolls : list Z) : res nat :=
  lvl ← random_loop rolls 1;
  Ok (if (lvl <? ZSKIPLIST_MAXLEVEL)%nat then lvl else ZSKIPLIST_MAXLEVEL).

(** [while (x->level[i].forward && x->level[i].forward->score < score) x = x->level[i].forward] *)
Fixpoint walk (fuel : nat) (h : store) (x i sc : Z) : res Z :=
  match fuel with
  | O => Err OutOfFuel
  | S fuel =>
      f ← fwd h x i;
      if f =? 0 then Ok x
      else n ← rd h f; if score n <? sc then walk fuel h f i sc else Ok x
  end.

(** The search that [zslInsert] and [zslDelete] begin with; the cells of [update] are
    null before they are written. *)
Definition search (z : zskiplist) (sc : Z) : res (Z * list Z) :=
  for_down (Z.to_nat (zlevel z)) (zlevel z - 1) (λ i '(x, update),
    x ← walk (S (size (heap z))) (heap z) x i sc;
    update ← aset update i x;
    Ok (x, update)) (header z, replicate ZSKIPLIST_MAXLEVEL 0).

(** The new node linked on its lanes. *)
Definition link_loop (x : Z) (update : list Z) (lvl : nat) (h : store) : res store :=
  for_up lvl 0 (λ i h,
    u ← aget update i;
    f ← fwd h u i;
    h ← set_fwd h x i f;
    set_fwd h u i x) h.

(* src: 7.2timers/timers/skiplist.c:55-84 zslInsert *)
Definition zslInsert (z : zskiplist) (a : Z) (junk rolls : list Z) (sc func : Z) : res (zskiplist * Z) :=
  '(x, update) ← search z sc;
  lvl ← zslRandomLevel rolls;
  '(update, zl) ←
    (if zlevel z <? Z.of_nat lvl then
       update ← for_up (Z.to_nat (Z.of_nat lvl - zlevel z)) (zlevel z) (λ i update, aset update i (header z)) update;
       Ok (update, Z.of_nat lvl)
     else Ok (update, zlevel z));
  h ← zslCreateNode (heap z) a junk lvl sc func;
  h ← link_loop a update lvl h;
  Ok (ZSL h (header z) (zlength z + 1) zl, a).

(* src: 7.2timers/timers/skiplist.c:86-90 zslMin *)
Definition zslMin (z : zskiplist) : res Z := fwd (heap z) (header z) 0.

(** [while (zsl->level > 1 && zsl->header->level[zsl->level-1].forward == NULL) zsl->level--] *)
Fixpoint lower (fuel : nat) (h : store) (hdr lvl : Z) : res Z :=
  match fuel with
  | O => Err OutOfFuel
  | S fuel =>
      if 1 <? lvl then
        f ← fwd h hdr (lvl - 1);
        if f =? 0 then lower fuel h hdr (lvl - 1) else Ok lvl
      else Ok lvl
  end.

(** [if (u->level[i].forward == x) u->level[i].forward = x->level[i].forward] *)
Definition unlink_lane (x u i : Z) (h : store) : res store :=
  f ← fwd h u i;
  if f =? x then f ← fwd h x i; set_fwd h u i f else Ok h.

(* src: 7.2timers/timers/skiplist.c:92-105 zslDeleteHead *)
Definition zslDeleteHead (z : zskiplist) : res zskiplist :=
  x ← zslMin z;
  if x =? 0 then Ok z
  else
    h ← for_down (Z.to_nat (zlevel z)) (zlevel z - 1) (λ i h, unlink_lane x (header z) i h) (heap z);
    lvl ← lower (S ZSKIPLIST_MAXLEVEL) h (header z) (zlevel z);
    Ok (ZSL h (header z) (zlength z - 1) lvl).

(* src: 7.2timers/timers/skiplist.c:107-117 zslDeleteNode *)
Definition zslDeleteNode (z : zskiplist) (x : Z) (update : list Z) : res zskiplist :=
  h ← for_up (Z.to_nat (zlevel z)) 0 (λ i h, u ← aget update i; unlink_lane x u i h) (heap z);
  lvl ← lower (S ZSKIPLIST_MAXLEVEL) h (header z) (zlevel z);
  Ok (ZSL h (header z) (zlength z - 1) lvl).

(* src: 7.2timers/timers/skiplist.c:119-137 zslDelete *)
Definition zslDelete (z : zskiplist) (zn : Z) : res zskiplist :=
  n ← rd (heap z) zn;
  '(x, update) ← search z (score n);
  x ← fwd (heap z) x 0;
  if x =? 0 then Ok z
  else
    m ← rd (heap z) x;
    if score n =? score m then
      z ← zslDeleteNode z x update;
      Ok (ZSL (delete x (heap z)) (header z) (zlength z) (zlevel z))
    else Ok z.

(** The scores printed. *)
(* src: 7.2timers/timers/skiplist.c:139-149 zslPrint *)
Definition zslPrint (z : zskiplist) : res (list Z) :=
  x ← fwd (heap z) (header z) 0;
  '(_, out) ← for_up (Z.to_nat (zlength z)) 0 (λ _ '(x, out),
    n ← rd (heap z) x;
    x ← fwd (heap z) x 0;
    Ok (x, out ++ [score n])) (x, []);
  Ok out.

(** *** skl-timer.c *)

(* src: 7.2timers/timers/skl-timer.c:16-31 current_time *)
Definition current_time (tv_sec tv_nsec : Z) : Z := u32 (u32 (u32 tv_sec * 1000) + tv_nsec / 1000000).

(* src: 7.2timers/timers/skl-timer.c:37-41 add_timer *)
Definition add_timer (z : zskiplist) (a : Z) (junk rolls : list Z) (now msec func : Z) : res (zskiplist * Z) :=
  zslInsert z a junk rolls (u32 (msec + now)) func.

(* src: 7.2timers/timers/skl-timer.c:43-45 del_timer *)
Definition del_timer (z : zskiplist) (zn : Z) : res zskiplist := zslDelete z zn.

(** The handlers called, with their nodes. *)
Fixpoint expire_loop (fuel : nat) (z : zskiplist) (now : Z) : res (zskiplist * list (Z * Z)) :=
  match fuel with
  | O => Err OutOfFuel
  | S fuel =>
      x ← zslMin z;
      if x =? 0 then Ok (z, [])
      else
        n ← rd (heap z) x;
        if now <? score n then Ok (z, [])
        else
          z ← zslDeleteHead z;
          '(z, ev) ← expire_loop fuel z now;
          Ok (z, (handler n, x) :: ev)
  end.

(* src: 7.2timers/timers/skl-timer.c:47-58 expire_timer *)
Definition expire_timer (z : zskiplist) (now : Z) : res (zskiplist * list (Z * Z)) :=
  expire_loop (S (size (heap z))) z now.

(** ** Forward pointers *)

Definition nx (i : nat) (n : zskiplistNode) : Z := default 0 (level n !! i).
Definition fld (h : store) (i : nat) (p : Z) : option Z := nx i <$> h !! p.

(** All of a node but the values of its pointers. *)
Definition shape (h : store) (p : Z) : option (Z * Z * nat) :=
  (λ n, (score n, handler n, length (level n))) <$> h !! p.

(** Node [p] has [k] forward pointers. *)
Definition has (h : store) (p : Z) (k : nat) : Prop :=
  p ≠ 0 ∧ ∃ s f, shape h p = Some (s, f, k).

Lemma has_node h p k : has h p k ↔ p ≠ 0 ∧ ∃ n, h !! p = Some n ∧ length (level n) = k.
Proof.
  unfold has, shape. split; intros (Hp & H).
  - destruct H as (s & f & (n & Hn & [= -> -> ->])%fmap_Some). eauto.
  - destruct H as (n & -> & <-). simpl. eauto.
Qed.

Lemma has_shape h h' p k : shape h' p = shape h p → has h p k → has h' p k.
Proof. unfold has. by intros ->. Qed.

Lemma zrd_ok h p n : p ≠ 0 → h !! p = Some n → rd h p = Ok n.
Proof. intros Hp Hn. unfold rd. by rewrite (proj2 (Z.eqb_neq _ _)), Hn by done. Qed.

Lemma fwd_ok h p k i : has h p k → (i < k)%nat → ∃ v, fwd h p (Z.of_nat i) = Ok v ∧ fld h i p = Some v.
Proof.
  intros (Hp & n & Hn & <-)%has_node Hi. unfold fwd, rd, fld. rewrite (proj2 (Z.eqb_neq _ _)), Hn by done. simpl.
  destruct (level n !! i) as [v|] eqn:E; [|by apply lookup_ge_None in E; lia].
  exists v. unfold nx. rewrite E. split; [by apply aget_ok|done].
Qed.

Lemma fwd_fld h p k i v : has h p k → (i < k)%nat → fld h i p = Some v → fwd h p (Z.of_nat i) = Ok v.
Proof. intros Hh Hi Hf. destruct (fwd_ok h p k i Hh Hi) as (v' & -> & E). congruence. Qed.

Lemma set_fwd_ok h p k i v : has h p k → (i < k)%nat → ∃ h', set_fwd h p (Z.of_nat i) v = Ok h' ∧
  (∀ q, shape h' q = shape h q) ∧ ∀ j q, fld h' j q = if decide (j = i ∧ q = p) then Some v else fld h j q.
Proof.
  intros (Hp & n & Hn & <-)%has_node Hi. unfold set_fwd, rd. rewrite (proj2 (Z.eqb_neq _ _)), Hn by done. simpl.
  rewrite aset_nat by done. simpl. eexists. split; [done|]. split; [intros q|intros j q]; unfold shape, fld.
  - destruct (decide (q = p)) as [->|Hne]; [|by rewrite lookup_insert_ne].
    rewrite lookup_insert_eq, Hn. simpl. by rewrite length_insert.
  - destruct (decide (q = p)) as [->|Hne].
    + rewrite lookup_insert_eq, Hn. simpl. unfold nx. simpl. destruct (decide (j = i)) as [->|Hji].
      * rewrite decide_True by done. by rewrite list_lookup_insert_eq.
      * rewrite decide_False by naive_solver. by rewrite list_lookup_insert_ne.
    + rewrite decide_False by naive_solver. by rewrite lookup_insert_ne.
Qed.

(** ** The list and its lanes *)

Record entry : Type := Entry { addr : Z; esc : Z; ehd : Z; eht : nat }.

(** Lane [i] holds the nodes of more than [i] levels. *)
Definition lane (i : nat) (L : list entry) : list Z := addr <$> filter (λ e, (i < eht e)%nat) L.

Lemma lane_app i A B : lane i (A ++ B) = lane i A ++ lane i B.
Proof. unfold lane. by rewrite filter_app, fmap_app. Qed.
Lemma lane_cons i e B : lane i (e :: B) = (if decide (i < eht e)%nat then [addr e] else []) ++ lane i B.
Proof. unfold lane. rewrite filter_cons. by case_decide. Qed.

Lemma elem_of_lane i L y : y ∈ lane i L ↔ ∃ e, e ∈ L ∧ addr e = y ∧ (i < eht e)%nat.
Proof.
  unfold lane. rewrite list_elem_of_fmap. setoid_rewrite list_elem_of_filter. naive_solver.
Qed.

Lemma lane_mono i j L y : (i ≤ j)%nat → y ∈ lane j L → y ∈ lane i L.
Proof. rewrite !elem_of_lane. intros Hij (e & ? & ? & ?). exists e. split_and!; [done|done|lia]. Qed.

Lemma lane_none i L : (∀ e, e ∈ L → (eht e ≤ i)%nat) → lane i L = [].
Proof.
  intros Hl. unfold lane. rewrite filter_none; [done|]. intros e He. specialize (Hl e He). lia.
Qed.

Definition le_entry (e f : entry) : Prop := esc e ≤ esc f.

(** The lanes of [L] behind the header [hdr]. *)
Record lanes_ok (h : store) (hdr : Z) (L : list entry) : Prop := LanesOk {
  lo_hdr : has h hdr ZSKIPLIST_MAXLEVEL;
  lo_fresh : hdr ∉ addr <$> L;
  lo_nodes e : e ∈ L → addr e ≠ 0 ∧ shape h (addr e) = Some (esc e, ehd e, eht e) ∧
    (1 ≤ eht e ≤ ZSKIPLIST_MAXLEVEL)%nat;
  lo_lanes i : (i < ZSKIPLIST_MAXLEVEL)%nat → chain (nx i) h hdr (hdr :: lane i L);
  lo_sorted : StronglySorted le_entry L
}.

Record zsl_ok (z : zskiplist) (L : list entry) : Prop := ZslOk {
  zo_lanes : lanes_ok (heap z) (header z) L;
  zo_level : 1 ≤ zlevel z ≤ Z.of_nat ZSKIPLIST_MAXLEVEL;
  zo_height e : e ∈ L → Z.of_nat (eht e) ≤ zlevel z;
  zo_length : zlength z = Z.of_nat (length L)
}.

Lemma lo_has h hdr L e : lanes_ok h hdr L → e ∈ L → has h (addr e) (eht e).
Proof. intros HL He. destruct (lo_nodes _ _ _ HL e He) as (? & ? & _). split; eauto. Qed.

(** Lane 0 holds every node, once. *)
Lemma lane_0 h hdr L : lanes_ok h hdr L → lane 0 L = addr <$> L.
Proof.
  intros HL. unfold lane. f_equal. pose proof (lo_nodes _ _ _ HL) as Hn. clear HL.
  induction L as [|e L IH]; [done|]. rewrite filter_cons_True.
  - f_equal. apply IH. intros e' He'. apply Hn. by right.
  - destruct (Hn e ltac:(left)) as (_ & _ & ?). lia.
Qed.

Lemma lanes_NoDup h hdr L : lanes_ok h hdr L → NoDup (addr <$> L).
Proof.
  intros HL. pose proof (lo_lanes _ _ _ HL 0%nat ltac:(unfold ZSKIPLIST_MAXLEVEL; lia)) as Hc%chain_NoDup.
  apply NoDup_cons in Hc as [_ Hc]. by rewrite (lane_0 _ _ _ HL) in Hc.
Qed.

(** ** The search *)

(** The last node of lane [i] of [A], or the header. *)
Definition pred (hdr : Z) (i : nat) (A : list entry) : Z := default hdr (last (lane i A)).

Lemma default_last_cons (x : Z) l : default x (last l) = default 0 (last (x :: l)).
Proof.
  destruct l as [|y l]; [done|]. change (last (x :: y :: l)) with (last (y :: l)).
  destruct (last (y :: l)) eqn:E; [done|by apply last_None in E].
Qed.

Lemma pred_app hdr i A : ∃ P, hdr :: lane i A = P ++ [pred hdr i A].
Proof.
  unfold pred. destruct (last (lane i A)) as [y|] eqn:E.
  - apply last_Some in E as [P ->]. by exists (hdr :: P).
  - apply last_None in E as ->. by exists [].
Qed.

Lemma pred_in hdr i A : pred hdr i A = hdr ∨ pred hdr i A ∈ lane i A.
Proof.
  unfold pred. destruct (last (lane i A)) as [y|] eqn:E; [|by left].
  right. by apply last_Some_elem_of.
Qed.

(** Along nodes below [sc], as far as a node that is not. *)
Lemma walk_spec h i sc R : ∀ fuel x Q, chain (nx i) h x (x :: R ++ Q) → (length R < fuel)%nat →
  (∀ y, y ∈ x :: R → ∃ k, has h y k ∧ (i < k)%nat) → (∀ y n, y ∈ R → h !! y = Some n → score n < sc) →
  (∀ y n, head Q = Some y → h !! y = Some n → sc ≤ score n) →
  walk fuel h x (Z.of_nat i) sc = Ok (default x (last R)).
Proof.
  induction R as [|r R IH]; intros [|fuel] x Q Hc Hf Hk Hlt Hge; simpl in Hf; try lia; cbn [walk].
  - destruct (Hk x ltac:(left)) as (k & Hh & Hi). pose proof (chain_next _ _ _ [] x _ Hc) as E.
    rewrite (fwd_fld _ _ _ _ _ Hh Hi E), ok_bind. simpl. destruct Q as [|q Q]; [done|]. simpl.
    destruct Hc as (_ & _ & v & _ & _ & Hq & w & Hw & _). unfold rd.
    rewrite (proj2 (Z.eqb_neq _ _)), Hw by done. simpl.
    by rewrite (proj2 (Z.ltb_ge _ _)) by (by apply (Hge q)).
  - destruct (Hk x ltac:(left)) as (k & Hh & Hi). pose proof (chain_next _ _ _ [] x _ Hc) as E.
    rewrite (fwd_fld _ _ _ _ _ Hh Hi E), ok_bind. simpl.
    assert (Hc' : chain (nx i) h r (r :: R ++ Q)).
    { destruct Hc as (_ & _ & v & _ & _ & Hc). by split. }
    pose proof Hc' as (_ & Hr & w & Hw & _). unfold rd. rewrite (proj2 (Z.eqb_neq _ _)), Hw by done. simpl.
    rewrite (proj2 (Z.ltb_lt _ _)) by (apply (Hlt r); [left|done]).
    rewrite (IH fuel r Q Hc') by (try lia; intros; try (eapply Hk || eapply Hlt || eapply Hge); eauto; by right).
    by rewrite (default_last_cons r R), (default_last_cons x (r :: R)).
Qed.

(** A sorted list around a score. *)
Lemma split_score L sc : StronglySorted le_entry L → ∃ A B, L = A ++ B ∧
  (∀ e, e ∈ A → esc e < sc) ∧ (∀ e, e ∈ B → sc ≤ esc e).
Proof.
  induction 1 as [|e L _ IH HL]; [exists [], []; split; [done|split; intros e ?%elem_of_nil; done]|].
  destruct (decide (esc e < sc)) as [Hlt|Hge].
  - destruct IH as (A & B & -> & HA & HB). exists (e :: A), B. split; [done|]. split; [|done].
    intros e' [->|?]%elem_of_cons; auto.
  - exists [], (e :: L). split; [done|]. split; [by intros e' ?%elem_of_nil|].
    rewrite Forall_forall in HL. intros e' [->|He]%elem_of_cons; [lia|]. specialize (HL e' He). unfold le_entry in HL. lia.
Qed.

(** One lane of the search: from any node of the header and [A] on the lane. *)
Lemma walk_lane h hdr A B i sc x : lanes_ok h hdr (A ++ B) → (i < ZSKIPLIST_MAXLEVEL)%nat →
  (∀ e, e ∈ A → esc e < sc) → (∀ e, e ∈ B → sc ≤ esc e) → x = hdr ∨ x ∈ lane i A →
  walk (S (size h)) h x (Z.of_nat i) sc = Ok (pred hdr i A).
Proof.
  intros HL Hi HA HB Hx. pose proof (lo_lanes _ _ _ HL i Hi) as Hc. rewrite lane_app in Hc.
  assert (∃ P R, hdr :: lane i A = P ++ x :: R) as (P & R & E).
  { destruct Hx as [->|Hx]; [by exists [], (lane i A)|]. apply list_elem_of_split in Hx as (P & R & ->). by exists (hdr :: P), R. }
  assert (default x (last R) = pred hdr i A) as <-.
  { unfold pred. rewrite (default_last_cons x R), (default_last_cons hdr (lane i A)), E. by rewrite last_app_cons. }
  change (hdr :: lane i A ++ lane i B) with ((hdr :: lane i A) ++ lane i B) in Hc. rewrite E in Hc.
  rewrite <-app_assoc in Hc. simpl in Hc. apply chain_from in Hc.
  assert (HR : ∀ y, y ∈ R → ∃ e, e ∈ A ∧ addr e = y ∧ (i < eht e)%nat).
  { intros y Hy. apply elem_of_lane. destruct P as [|p P]; injection E as -> E; rewrite E; set_solver. }
  assert (Hsc : ∀ e n, e ∈ A ++ B → h !! addr e = Some n → score n = esc e).
  { intros e n He Hn. destruct (lo_nodes _ _ _ HL e He) as (_ & Hs & _). unfold shape in Hs. by rewrite Hn in Hs; injection Hs. }
  apply (walk_spec h i sc R _ x (lane i B)); [done| | | |].
  - pose proof (chain_length _ _ _ _ Hc) as Hlen. simpl in Hlen. rewrite length_app in Hlen. lia.
  - intros y [->|Hy]%elem_of_cons.
    + destruct Hx as [->|(e & He & <- & Hk)%elem_of_lane]; [exists ZSKIPLIST_MAXLEVEL; split; [apply HL|done]|].
      exists (eht e). split; [eapply lo_has; [done|set_solver]|done].
    + destruct (HR y Hy) as (e & He & <- & Hk). exists (eht e). split; [eapply lo_has; [done|set_solver]|done].
  - intros y n Hy Hn. destruct (HR y Hy) as (e & He & <- & Hk). rewrite (Hsc e n); [auto|set_solver|done].
  - intros y n Hy Hn. assert (y ∈ lane i B) as (e & He & <- & Hk)%elem_of_lane.
    { destruct (lane i B); [done|]. injection Hy as ->. left. }
    rewrite (Hsc e n); [auto|set_solver|done].
Qed.

Lemma zsearch_spec z A B sc : zsl_ok z (A ++ B) → (∀ e, e ∈ A → esc e < sc) → (∀ e, e ∈ B → sc ≤ esc e) →
  ∃ upd, search z sc = Ok (pred (header z) 0 A, upd) ∧ length upd = ZSKIPLIST_MAXLEVEL ∧
    ∀ i, Z.of_nat i < zlevel z → upd !! i = Some (pred (header z) i A).
Proof.
  intros HZ HA HB. pose proof (zo_level _ _ HZ) as Hl. unfold search.
  assert (zlevel z - 1 = Z.of_nat (Z.to_nat (zlevel z)) - 1) as -> by lia.
  set (n := Z.to_nat (zlevel z)).
  destruct (for_down_total (λ k st, (st.1 = header z ∧ k = n ∨ st.1 = pred (header z) k A) ∧
    length st.2 = ZSKIPLIST_MAXLEVEL ∧ ∀ i, (k ≤ i < n)%nat → st.2 !! i = Some (pred (header z) i A))
    (λ i '(x, update), x ← walk (S (size (heap z))) (heap z) x i sc; update ← aset update i x; Ok (x, update)) n
    (header z, replicate ZSKIPLIST_MAXLEVEL 0)) as ([x upd] & Hrun & Hx & Hlen & Hu).
  - split; [by left|]. split; [apply length_replicate|]. intros i Hi. lia.
  - intros j [x upd] Hj (Hx & Hlen & Hu). cbn [fst snd] in *.
    rewrite (walk_lane (heap z) (header z) A B j sc x); [|apply HZ|lia|done|done|].
    + rewrite ok_bind, aset_nat, ok_bind by lia.
      eexists. split; [done|]. cbn [fst snd]. split; [by right|]. split; [by rewrite length_insert|].
      intros i Hi. destruct (decide (i = j)) as [->|Hne]; [apply list_lookup_insert_eq; lia|].
      rewrite list_lookup_insert_ne by done. apply Hu. lia.
    + destruct Hx as [[-> _]| ->]; [by left|]. destruct (pred_in (header z) (j + 1) A) as [->|Hp]; [by left|right].
      by eapply lane_mono; [|exact Hp]; lia.
  - exists upd. rewrite Hrun. simpl in *. destruct Hx as [[-> H0]| ->]; [lia|]. split; [done|]. split; [done|].
    intros i Hi. apply Hu. lia.
Qed.

(** ** Linking a node *)

(** The store after [x] was linked behind [us j] on the lanes [j < i]. *)
Definition linked (h0 : store) (us : nat → Z) (x : Z) (i : nat) (h : store) : Prop :=
  (∀ q, shape h q = shape h0 q) ∧
  ∀ j q, fld h j q = if decide (j < i)%nat then
      if decide (q = x) then fld h0 j (us j) else if decide (q = us j) then Some x else fld h0 j q
    else fld h0 j q.

Lemma link_spec h0 us upd x lvl : has h0 x lvl →
  (∀ i, (i < lvl)%nat → upd !! i = Some (us i) ∧ us i ≠ x ∧ ∃ k, has h0 (us i) k ∧ (i < k)%nat) →
  ∃ h, link_loop x upd lvl h0 = Ok h ∧ linked h0 us x lvl h.
Proof.
  intros Hx Hu. unfold link_loop.
  destruct (for_up_total (linked h0 us x) (λ i h, u ← aget upd i; f ← fwd h u i; h ← set_fwd h x i f; set_fwd h u i x)
    lvl 0 h0) as (h & Hrun & Hl).
  - split; [done|]. intros j q. by rewrite decide_False by lia.
  - intros i h Hi [Hs Hf]. destruct (Hu i ltac:(lia)) as (Hui & Hne & k & Hk & Hik).
    rewrite (aget_ok _ _ _ Hui), ok_bind.
    destruct (fwd_ok h (us i) k i) as (f & Hf1 & Hf2); [by eapply (has_shape h0 h); [apply Hs|]|done|]. rewrite Hf1, ok_bind.
    destruct (set_fwd_ok h x lvl i f) as (h1 & -> & Hs1 & Hd1); [by eapply (has_shape h0 h); [apply Hs|]|lia|]. rewrite ok_bind.
    destruct (set_fwd_ok h1 (us i) k i x) as (h2 & -> & Hs2 & Hd2); [eapply has_shape, Hk; by rewrite Hs1, Hs|done|].
    exists h2. split; [done|]. split; [intros q; by rewrite Hs2, Hs1|]. intros j q. rewrite Hd2, Hd1, Hf.
    rewrite Hf, decide_False in Hf2 by lia. destruct (decide (j = i)) as [->|Hji].
    + rewrite (decide_False (P := (i < i)%nat)), (decide_True (P := (i < i + 1)%nat)) by lia.
      repeat case_decide; naive_solver.
    + rewrite !(decide_False (P := j = i ∧ _)) by naive_solver.
      destruct (decide (j < i)%nat); [rewrite (decide_True (P := (j < i + 1)%nat)) by lia|rewrite (decide_False (P := (j < i + 1)%nat)) by lia]; done.
  - exists h. split; [done|]. done.
Qed.

Lemma pred_not_new h hdr L i A x : lanes_ok h hdr L → (∀ e, e ∈ A → e ∈ L) → h !! x = None →
  (i < ZSKIPLIST_MAXLEVEL)%nat → pred hdr i A ≠ x ∧ ∃ k, has h (pred hdr i A) k ∧ (i < k)%nat.
Proof.
  intros HL HA Hx Hi. assert (∃ k, has h (pred hdr i A) k ∧ (i < k)%nat) as (k & Hk & Hik).
  { destruct (pred_in hdr i A) as [->|(e & He & <- & Hie)%elem_of_lane].
    - exists ZSKIPLIST_MAXLEVEL. split; [apply HL|done].
    - exists (eht e). split; [by eapply lo_has; auto|done]. }
  split; [|eauto]. intros E. apply has_node in Hk as (_ & n & Hn & _). congruence.
Qed.

Lemma entries_around A e B : StronglySorted le_entry (A ++ B) → (∀ f, f ∈ A → esc f < esc e) →
  (∀ f, f ∈ B → esc e ≤ esc f) → StronglySorted le_entry (A ++ e :: B).
Proof.
  intros (HAB & HA & HB)%StronglySorted_app HlA HlB. apply StronglySorted_app. split_and!; [|done|].
  - intros f g Hf [->|Hg]%elem_of_cons; [|by apply HAB]. specialize (HlA f Hf). unfold le_entry. lia.
  - constructor; [done|]. apply Forall_forall. intros g Hg. by apply HlB.
Qed.

(** The lanes after node [e] was linked between [A] and [B]. *)
Lemma lanes_insert h h1 h' hdr A e B : lanes_ok h hdr (A ++ B) → h !! addr e = None → addr e ≠ 0 →
  (∃ l, length l = eht e ∧ h1 = <[addr e := Node (esc e) (ehd e) l]> h) →
  (1 ≤ eht e ≤ ZSKIPLIST_MAXLEVEL)%nat → (∀ f, f ∈ A → esc f < esc e) → (∀ f, f ∈ B → esc e ≤ esc f) →
  linked h1 (λ i, pred hdr i A) (addr e) (eht e) h' → lanes_ok h' hdr (A ++ e :: B).
Proof.
  intros HL Hx Hx0 (l & Hl & ->) Hht HA HB [Hs Hf].
  assert (Hsh : ∀ q, q ≠ addr e → shape h' q = shape h q).
  { intros q Hq. rewrite Hs. unfold shape. by rewrite lookup_insert_ne. }
  assert (Hfl : ∀ j q, q ≠ addr e → fld (<[addr e := Node (esc e) (ehd e) l]> h) j q = fld h j q).
  { intros j q Hq. unfold fld. by rewrite lookup_insert_ne. }
  assert (Hdom : ∀ q k, has h q k → q ≠ addr e).
  { intros q k (_ & n & Hn & _)%has_node ->. congruence. }
  assert (Hmem : ∀ f, f ∈ A ++ B → addr f ≠ addr e).
  { intros f Hfm. eapply Hdom, lo_has; done. }
  pose proof (Hdom hdr _ (lo_hdr _ _ _ HL)) as Hhdr. split.
  - eapply has_shape; [by apply Hsh|]. apply HL.
  - pose proof (lo_fresh _ _ _ HL) as Hfr. rewrite fmap_app in *. simpl. set_solver.
  - intros f Hin. assert (f = e ∨ f ∈ A ++ B) as [->|Hin'] by set_solver.
    + split; [done|]. split; [|done]. rewrite Hs. unfold shape. by rewrite lookup_insert_eq, <-Hl.
    + rewrite Hsh by auto. by apply HL.
  - intros i Hi. pose proof (lo_lanes _ _ _ HL i Hi) as Hc. rewrite lane_app in Hc. rewrite lane_app, lane_cons.
    destruct (pred_app hdr i A) as [P EP]. rewrite !app_comm_cons, EP, <-app_assoc in *. simpl in *.
    assert (HP : ∀ y, y ∈ P ++ lane i B → y ≠ addr e).
    { intros y Hy. assert (y = hdr ∨ y ∈ lane i (A ++ B)) as [->|(f & ? & <- & _)%elem_of_lane]; auto.
      rewrite lane_app. assert (y ∈ hdr :: lane i A ∨ y ∈ lane i B) by (rewrite EP; set_solver). set_solver. }
    assert (Hpn : ∀ y, y ∈ P ++ lane i B → y ≠ pred hdr i A).
    { apply chain_NoDup in Hc. rewrite <-Permutation_middle in Hc. apply NoDup_cons in Hc as [Hc _]. set_solver. }
    destruct (pred_not_new h hdr (A ++ B) i A (addr e) HL ltac:(set_solver) Hx Hi) as (Hpe & _).
    case_decide as Hie; simpl.
    + eapply chain_insert; [exact Hc| | |done|].
      * intros y Hy. change (fld h' i y = fld h i y). rewrite Hf, decide_True, decide_False, decide_False by auto. auto.
      * change (fld h' i (pred hdr i A) = Some (addr e)). by rewrite Hf, decide_True, decide_False, decide_True by auto.
      * change (fld h' i (addr e) = fld h i (pred hdr i A)). rewrite Hf, decide_True, decide_True by auto. auto.
    + eapply chain_ext; [|exact Hc]. intros y Hy. change (fld h' i y = fld h i y).
      rewrite Hf, decide_False by done. apply Hfl. set_solver.
  - pose proof (lo_sorted _ _ _ HL) as HS. by apply entries_around.
Qed.

Lemma random_level_range rolls lvl : zslRandomLevel rolls = Ok lvl → (1 ≤ lvl ≤ ZSKIPLIST_MAXLEVEL)%nat.
Proof.
  assert (∀ rolls l l', random_loop rolls l = Ok l' → (l ≤ l')%nat) as Hmono.
  { clear. induction rolls as [|r rolls IH]; intros l l' Hl; simpl in Hl; [done|].
    destruct (_ <? _); [apply IH in Hl; lia|]. by injection Hl as <-. }
  unfold zslRandomLevel. intros (l & Hl%Hmono & [= <-])%bind_ok.
  destruct (Nat.ltb_spec l ZSKIPLIST_MAXLEVEL); unfold ZSKIPLIST_MAXLEVEL in *; lia.
Qed.

(** The cells of [update] above the old level. *)
Lemma fill_update z A lvl upd : (∀ e, e ∈ A → Z.of_nat (eht e) ≤ zlevel z) → 0 ≤ zlevel z →
  (lvl ≤ ZSKIPLIST_MAXLEVEL)%nat → zlevel z < Z.of_nat lvl → length upd = ZSKIPLIST_MAXLEVEL →
  (∀ i, Z.of_nat i < zlevel z → upd !! i = Some (pred (header z) i A)) →
  ∃ upd', for_up (Z.to_nat (Z.of_nat lvl - zlevel z)) (zlevel z) (λ i update, aset update i (header z)) upd = Ok upd' ∧
    ∀ i, (i < lvl)%nat → upd' !! i = Some (pred (header z) i A).
Proof.
  intros Hh H0 Hl Hz Hlen Hu. set (k := Z.to_nat (zlevel z)).
  assert (zlevel z = Z.of_nat k) as Ek by lia. rewrite Ek.
  destruct (for_up_total (λ k upd, length upd = ZSKIPLIST_MAXLEVEL ∧ ∀ i, (i < k)%nat → upd !! i = Some (pred (header z) i A))
    (λ i update, aset update i (header z)) (Z.to_nat (Z.of_nat lvl - Z.of_nat k)) k upd) as (upd' & Hrun & _ & Hu').
  - split; [done|]. intros i Hi. apply Hu. lia.
  - intros j u Hj [Hul Hu']. rewrite aset_nat by lia. eexists. split; [done|]. split; [by rewrite length_insert|].
    intros i Hi. destruct (decide (i = j)) as [->|Hne].
    + rewrite list_lookup_insert_eq by lia. unfold pred. rewrite lane_none; [done|].
      intros e He. specialize (Hh e He). lia.
    + rewrite list_lookup_insert_ne by done. apply Hu'. lia.
  - exists upd'. split; [done|]. intros i Hi. apply Hu'. lia.
Qed.

(** [zslInsert] puts the node in front of the first whose score is not smaller. *)
Lemma zinsert_spec z L a junk rolls lvl sc func : zsl_ok z L → heap z !! a = None → a ≠ 0 →
  zslRandomLevel rolls = Ok lvl → ∃ A B z', L = A ++ B ∧ (∀ e, e ∈ A → esc e < sc) ∧ (∀ e, e ∈ B → sc ≤ esc e) ∧
    zslInsert z a junk rolls sc func = Ok (z', a) ∧ zsl_ok z' (A ++ Entry a sc func lvl :: B).
Proof.
  intros HZ Ha Ha0 Hr. pose proof (random_level_range _ _ Hr) as Hlv. pose proof HZ as [HL Hl Hh Hlen].
  destruct (split_score L sc (lo_sorted _ _ _ HL)) as (A & B & -> & HA & HB).
  destruct (zsearch_spec z A B sc HZ HA HB) as (upd & Hs & Hul & Hu). unfold zslInsert.
  rewrite Hs, ok_bind, Hr, ok_bind.
  assert (∃ upd' zl, (if zlevel z <? Z.of_nat lvl then
       update ← for_up (Z.to_nat (Z.of_nat lvl - zlevel z)) (zlevel z) (λ i update, aset update i (header z)) upd;
       Ok (update, Z.of_nat lvl) else Ok (upd, zlevel z)) = Ok (upd', zl) ∧ zl = Z.max (zlevel z) (Z.of_nat lvl) ∧
    ∀ i, (i < lvl)%nat → upd' !! i = Some (pred (header z) i A)) as (upd' & zl & -> & -> & Hu').
  { destruct (Z.ltb_spec (zlevel z) (Z.of_nat lvl)) as [Hlt|Hge].
    - destruct (fill_update z A lvl upd) as (upd' & -> & Hu'); [intros; apply Hh; set_solver|lia|lia|done..|].
      exists upd', (Z.of_nat lvl). split; [done|]. split; [lia|done].
    - exists upd, (zlevel z). split; [done|]. split; [lia|]. intros i Hi. apply Hu. lia. }
  rewrite ok_bind. unfold zslCreateNode. rewrite (proj2 (Z.eqb_neq _ _)), ok_bind by done.
  set (l := take lvl (junk ++ replicate lvl 0)). set (h1 := <[a := Node sc func l]> (heap z)).
  assert (length l = lvl) as Hll by (unfold l; rewrite length_take, length_app, length_replicate; lia).
  assert (Hh1 : ∀ q k, q ≠ a → has (heap z) q k → has h1 q k).
  { intros q k Hq. apply has_shape. unfold shape, h1. by rewrite lookup_insert_ne. }
  destruct (link_spec h1 (λ i, pred (header z) i A) upd' a lvl) as (h' & -> & Hlk).
  - apply has_node. split; [done|]. eexists. split; [apply lookup_insert_eq|done].
  - intros i Hi. split; [by apply Hu'|].
    destruct (pred_not_new (heap z) (header z) (A ++ B) i A a HL) as (Hp & k & Hk & Hik); [set_solver|done|lia|].
    split; [done|]. exists k. auto.
  - rewrite ok_bind. exists A, B. eexists. split; [done|]. split; [done|]. split; [done|]. split; [done|].
    split; simpl.
    + eapply (lanes_insert (heap z) h1); simpl; [done|done|done| |done|done|done|exact Hlk]. by exists l.
    + unfold ZSKIPLIST_MAXLEVEL in *. lia.
    + intros e [He|[->|He]%elem_of_cons]%elem_of_app; simpl; [|lia|];
        specialize (Hh e ltac:(set_solver)); lia.
    + rewrite Hlen, !length_app. simpl. lia.
Qed.

(** ** Taking a node out *)

(** The store after [x] was taken out of the lanes in [D], where it came behind [us j]. *)
Definition unlinked (h0 : store) (us : nat → Z) (x : Z) (D : nat → bool) (h : store) : Prop :=
  (∀ q, shape h q = shape h0 q) ∧
  ∀ j q, fld h j q = if decide (D j = true ∧ q = us j ∧ fld h0 j (us j) = Some x) then fld h0 j x else fld h0 j q.

Lemma unlink_step h0 us x D h i k : unlinked h0 us x D h → D i = false → us i ≠ x → has h0 (us i) k → (i < k)%nat →
  (fld h0 i (us i) = Some x → ∃ kx, has h0 x kx ∧ (i < kx)%nat) →
  ∃ h', unlink_lane x (us i) (Z.of_nat i) h = Ok h' ∧ unlinked h0 us x (λ j, D j || (j =? i)%nat) h'.
Proof.
  intros [Hs Hf] HD Hne Hk Hik Hx. assert (has h (us i) k) as Hk' by (eapply has_shape; [apply Hs|done]).
  assert (Hfi : ∀ q, fld h i q = fld h0 i q) by (intros q; rewrite Hf, decide_False; [done|intros (? & _); congruence]).
  destruct (fwd_ok h (us i) k i Hk' Hik) as (f & Hf1 & Hf2). unfold unlink_lane. rewrite Hf1, ok_bind.
  rewrite Hfi in Hf2. destruct (Z.eqb_spec f x) as [->|Hfx].
  - destruct (Hx Hf2) as (kx & Hkx & Hikx). destruct (fwd_ok h x kx i) as (g & -> & Hg); [eapply has_shape; [apply Hs|done]|done|].
    rewrite ok_bind. destruct (set_fwd_ok h (us i) k i g Hk' Hik) as (h' & -> & Hs' & Hd). exists h'. split; [done|].
    split; [intros q; by rewrite Hs', Hs|]. intros j q. rewrite Hd. destruct (decide (j = i)) as [->|Hji].
    + rewrite Nat.eqb_refl, orb_true_r. rewrite Hfi in Hg. rewrite Hfi. repeat case_decide; naive_solver.
    + rewrite decide_False by naive_solver. rewrite Hf, (proj2 (Nat.eqb_neq j i)), orb_false_r by done. done.
  - exists h. split; [done|]. split; [done|]. intros j q. destruct (decide (j = i)) as [->|Hji].
    + rewrite Hfi, decide_False; [done|intros (_ & _ & ?); congruence].
    + by rewrite Hf, (proj2 (Nat.eqb_neq j i)), orb_false_r by done.
Qed.

Lemma unlinked_ext h0 us x D D' h : (∀ j, D j = D' j) → unlinked h0 us x D h → unlinked h0 us x D' h.
Proof. intros HD [Hs Hf]. split; [done|]. intros j q. by rewrite <-HD. Qed.

(** Node [e] taken out from between [A] and [B]. *)
Lemma lanes_delete h h' hdr A e B D : lanes_ok h hdr (A ++ e :: B) →
  unlinked h (λ i, pred hdr i A) (addr e) D h' → (∀ i, (i < eht e)%nat → D i = true) → lanes_ok h' hdr (A ++ B).
Proof.
  intros HL [Hs Hf] HD. split.
  - eapply has_shape; [apply Hs|]. apply HL.
  - pose proof (lo_fresh _ _ _ HL) as Hfr. rewrite fmap_app in *. simpl in *. set_solver.
  - intros f Hin. rewrite Hs. apply HL. set_solver.
  - intros i Hi. pose proof (lo_lanes _ _ _ HL i Hi) as Hc. rewrite lane_app, lane_cons in Hc. rewrite lane_app.
    destruct (pred_app hdr i A) as [P EP]. rewrite !app_comm_cons, EP, <-app_assoc in *. simpl in *.
    pose proof (chain_next _ _ _ _ _ _ Hc) as Hn. change (fld h i (pred hdr i A) = Some (default 0 (head
      ((if decide (i < eht e)%nat then [addr e] else []) ++ lane i B)))) in Hn.
    case_decide as Hie; simpl in *.
    + assert (Hpn : ∀ y, y ∈ P ++ lane i B → y ≠ pred hdr i A).
      { apply chain_NoDup in Hc. rewrite <-Permutation_middle in Hc. apply NoDup_cons in Hc as [Hc _]. set_solver. }
      eapply chain_remove; [exact Hc| |].
      * intros y Hy. change (fld h' i y = fld h i y). rewrite Hf, decide_False; [done|]. intros (_ & ? & _). by apply (Hpn y).
      * change (fld h' i (pred hdr i A) = fld h i (addr e)). rewrite Hf, decide_True; [done|]. auto.
    + eapply chain_ext; [|exact Hc]. intros y Hy. change (fld h' i y = fld h i y). rewrite Hf, decide_False; [done|].
      intros (_ & _ & Hx). rewrite Hn in Hx. injection Hx as Hx.
      destruct (lo_nodes _ _ _ HL e ltac:(set_solver)) as (He0 & _).
      assert (addr e ∈ lane i B) as (f & Hf' & Ef & _)%elem_of_lane.
      { destruct (lane i B) as [|b t]; simpl in Hx; [congruence|]. subst. left. }
      pose proof (lanes_NoDup _ _ _ HL) as Hnd. rewrite fmap_app in Hnd. simpl in Hnd.
      apply NoDup_app in Hnd as (_ & _ & [Hnd _]%NoDup_cons). apply Hnd. rewrite <-Ef. by apply list_elem_of_fmap_2.
  - pose proof (lo_sorted _ _ _ HL) as (H1 & H2 & H3)%StronglySorted_app. apply StronglySorted_app.
    apply StronglySorted_cons in H3 as [_ H3]. split; [|by split]. intros a b Ha Hb. apply H1; [done|by right].
Qed.

(** The level goes down to the highest lane that holds a node. *)
Lemma lower_spec h hdr L fuel : lanes_ok h hdr L → ∀ lvl, (lvl ≤ ZSKIPLIST_MAXLEVEL)%nat → (1 ≤ lvl)%nat →
  (lvl < fuel)%nat → (∀ e, e ∈ L → (eht e ≤ lvl)%nat) →
  ∃ l, lower fuel h hdr (Z.of_nat lvl) = Ok l ∧ 1 ≤ l ≤ Z.of_nat lvl ∧ ∀ e, e ∈ L → Z.of_nat (eht e) ≤ l.
Proof.
  intros HL. induction fuel as [|fuel IH]; intros lvl Hl H1 Hf Hh; [lia|]. cbn [lower].
  destruct (Z.ltb_spec 1 (Z.of_nat lvl)) as [Hlt|Hge].
  - assert (Z.of_nat lvl - 1 = Z.of_nat (lvl - 1)) as -> by lia.
    pose proof (chain_next _ _ _ [] _ _ (lo_lanes _ _ _ HL (lvl - 1)%nat ltac:(lia))) as Hn.
    rewrite (fwd_fld h hdr ZSKIPLIST_MAXLEVEL (lvl - 1) _ (lo_hdr _ _ _ HL) ltac:(lia) Hn), ok_bind. destruct (Z.eqb_spec (default 0 (head (lane (lvl - 1) L))) 0) as [E|E].
    + destruct (IH (lvl - 1)%nat) as (l & -> & Hr & He); [lia..| |].
      * intros e He. destruct (decide (eht e ≤ lvl - 1)%nat) as [?|Hgt]; [done|exfalso].
        assert (addr e ∈ lane (lvl - 1) L) as Hin by (apply elem_of_lane; exists e; split_and!; [done|done|lia]).
        destruct (lane (lvl - 1) L) as [|y t] eqn:Et; [by apply elem_of_nil in Hin|]. simpl in E. subst y.
        assert (0 ∈ lane (lvl - 1) L) as (f & Hf' & Ef & _)%elem_of_lane by (rewrite Et; left).
        destruct (lo_nodes _ _ _ HL f Hf') as (H0 & _). done.
      * exists l. split; [done|]. split; [lia|done].
    + exists (Z.of_nat lvl). split; [done|]. split; [lia|]. intros e He. specialize (Hh e He). lia.
  - exists (Z.of_nat lvl). split; [done|]. split; [lia|]. intros e He. specialize (Hh e He). lia.
Qed.

(** What both deletions need of a lane below the level. *)
Lemma pred_ready z A e B i : zsl_ok z (A ++ e :: B) → Z.of_nat i < zlevel z →
  pred (header z) i A ≠ addr e ∧ (∃ k, has (heap z) (pred (header z) i A) k ∧ (i < k)%nat) ∧
  (fld (heap z) i (pred (header z) i A) = Some (addr e) → ∃ kx, has (heap z) (addr e) kx ∧ (i < kx)%nat).
Proof.
  intros [HL Hl Hh _] Hi. pose proof (lanes_NoDup _ _ _ HL) as Hnd.
  assert (pred (header z) i A = header z ∨ ∃ f, f ∈ A ∧ addr f = pred (header z) i A ∧ (i < eht f)%nat) as Hp.
  { destruct (pred_in (header z) i A) as [?|Hp]; [by left|right]. by apply elem_of_lane. }
  assert (Hin : addr e ∈ addr <$> A ++ e :: B) by (apply list_elem_of_fmap_2; set_solver).
  split_and!.
  - pose proof (lo_fresh _ _ _ HL). destruct Hp as [->|(f & Hf & <- & _)]; [congruence|]. intros E.
    rewrite fmap_app in Hnd. apply NoDup_app in Hnd as (_ & Hd & _). apply (Hd (addr f)); [by apply list_elem_of_fmap_2|].
    rewrite E. left.
  - destruct Hp as [->|(f & Hf & <- & Hk)].
    + exists ZSKIPLIST_MAXLEVEL. split; [apply HL|lia].
    + exists (eht f). split; [eapply lo_has; [done|set_solver]|done].
  - intros Hx. exists (eht e). split; [eapply lo_has; [done|set_solver]|]. apply Nat.nle_gt. intros Hle.
    pose proof (lo_lanes _ _ _ HL i ltac:(lia)) as Hc. rewrite lane_app, lane_cons, decide_False in Hc by lia.
    destruct (pred_app (header z) i A) as [P EP]. rewrite app_comm_cons, EP, <-app_assoc in Hc. simpl in Hc.
    apply chain_next in Hc. unfold fld in Hx. rewrite Hx in Hc. injection Hc as Hc.
    destruct (lo_nodes _ _ _ HL e ltac:(set_solver)) as (H0 & _).
    assert (addr e ∈ lane i B) as (f & Hf & E & _)%elem_of_lane.
    { destruct (lane i B) as [|b t]; simpl in Hc; [congruence|]. subst. left. }
    rewrite fmap_app in Hnd. simpl in Hnd. apply NoDup_app in Hnd as (_ & _ & [Hnd _]%NoDup_cons).
    apply Hnd. rewrite <-E. by apply list_elem_of_fmap_2.
Qed.

(** The end of both: the lanes without [e], the level lowered. *)
Lemma delete_finish z A e B D h' : zsl_ok z (A ++ e :: B) →
  unlinked (heap z) (λ i, pred (header z) i A) (addr e) D h' → (∀ i, Z.of_nat i < zlevel z → D i = true) →
  ∃ l, lower (S ZSKIPLIST_MAXLEVEL) h' (header z) (zlevel z) = Ok l ∧
    zsl_ok (ZSL h' (header z) (zlength z - 1) l) (A ++ B).
Proof.
  intros [HL Hl Hh Hlen] Hun HD.
  assert (lanes_ok h' (header z) (A ++ B)) as HL'.
  { eapply lanes_delete; [done|done|]. intros i Hi. apply HD. specialize (Hh e ltac:(set_solver)). lia. }
  destruct (lower_spec h' (header z) (A ++ B) (S ZSKIPLIST_MAXLEVEL) HL' (Z.to_nat (zlevel z))) as (l & El & Hr & He); [lia..| |].
  - intros f Hf. specialize (Hh f ltac:(set_solver)). lia.
  - rewrite Z2Nat.id in El by lia. exists l. split; [done|]. split; simpl; [done|lia|done|].
    rewrite Hlen, !length_app. simpl. lia.
Qed.

Lemma min_spec z L : zsl_ok z L → zslMin z = Ok (default 0 (head (addr <$> L))).
Proof.
  intros [HL _ _ _]. pose proof (lo_lanes _ _ _ HL 0%nat ltac:(unfold ZSKIPLIST_MAXLEVEL; lia)) as Hc.
  apply (chain_next _ _ _ []) in Hc. rewrite (lane_0 _ _ _ HL) in Hc.
  apply (fwd_fld _ _ ZSKIPLIST_MAXLEVEL 0%nat); [apply HL|unfold ZSKIPLIST_MAXLEVEL; lia|done].
Qed.

Lemma delete_head_spec z e L : zsl_ok z (e :: L) → ∃ z', zslDeleteHead z = Ok z' ∧ zsl_ok z' L ∧
  header z' = header z ∧ ∀ p, shape (heap z') p = shape (heap z) p.
Proof.
  intros HZ. pose proof (min_spec _ _ HZ) as Hm. pose proof HZ as [HL Hl Hh Hlen].
  destruct (lo_nodes _ _ _ HL e ltac:(left)) as (He0 & _). unfold zslDeleteHead. rewrite Hm, ok_bind. change (default 0 (head (addr <$> e :: L))) with (addr e).
  rewrite (proj2 (Z.eqb_neq _ _)) by done. set (n := Z.to_nat (zlevel z)).
  assert (zlevel z - 1 = Z.of_nat n - 1) as -> by lia.
  destruct (for_down_total (λ k h, unlinked (heap z) (λ i, pred (header z) i []) (addr e) (λ j, (k <=? j) && (j <? n))%nat h)
    (λ i h, unlink_lane (addr e) (header z) i h) n (heap z)) as (h' & Hrun & Hun).
  - split; [done|]. intros j q. rewrite decide_False; [done|]. intros (Hd & _).
    destruct (Nat.leb_spec n j), (Nat.ltb_spec j n); simpl in Hd; (discriminate || lia).
  - intros i h Hi Hun. destruct (pred_ready z [] e L i HZ ltac:(lia)) as (Hp & (k & Hk & Hik) & Hx).
    destruct (unlink_step _ _ _ _ h i k Hun) as (h' & Hrun & Hun'); [|exact Hp|exact Hk|exact Hik|exact Hx|].
    + by rewrite (proj2 (Nat.leb_gt _ _)) by lia.
    + exists h'. split; [exact Hrun|]. eapply unlinked_ext; [|exact Hun']. intros j. simpl.
      destruct (Nat.leb_spec (i + 1) j), (Nat.leb_spec i j), (Nat.ltb_spec j n), (Nat.eqb_spec j i); simpl; (reflexivity || lia).
  - rewrite Hrun, ok_bind. destruct (delete_finish z [] e L _ h' HZ Hun) as (l & -> & HZ').
    + intros i Hi. simpl. apply Nat.ltb_lt. lia.
    + rewrite ok_bind. eexists. split; [done|]. split; [exact HZ'|]. split; [done|]. apply Hun.
Qed.

Lemma delete_node_spec z A e B upd : zsl_ok z (A ++ e :: B) →
  (∀ i, Z.of_nat i < zlevel z → upd !! i = Some (pred (header z) i A)) →
  ∃ z', zslDeleteNode z (addr e) upd = Ok z' ∧ zsl_ok z' (A ++ B) ∧ header z' = header z ∧
    ∀ p, shape (heap z') p = shape (heap z) p.
Proof.
  intros HZ Hu. pose proof HZ as [HL Hl Hh Hlen]. unfold zslDeleteNode. set (n := Z.to_nat (zlevel z)).
  destruct (for_up_total (λ k h, unlinked (heap z) (λ i, pred (header z) i A) (addr e) (λ j, (j <? k))%nat h)
    (λ i h, u ← aget upd i; unlink_lane (addr e) u i h) n 0 (heap z)) as (h' & Hrun & Hun).
  - split; [done|]. intros j q. by rewrite decide_False by (by intros (? & _)).
  - intros i h Hi Hun. destruct (pred_ready z A e B i HZ ltac:(lia)) as (Hp & (k & Hk & Hik) & Hx).
    rewrite (aget_ok _ _ _ (Hu i ltac:(lia))), ok_bind.
    destruct (unlink_step _ _ _ _ h i k Hun) as (h' & Hrun & Hun'); [|exact Hp|exact Hk|exact Hik|exact Hx|].
    + apply Nat.ltb_irrefl.
    + exists h'. split; [exact Hrun|]. eapply unlinked_ext; [|exact Hun']. intros j. simpl.
      destruct (Nat.ltb_spec j (i + 1)), (Nat.ltb_spec j i), (Nat.eqb_spec j i); simpl; (reflexivity || lia).
  - change (Z.of_nat 0) with 0 in Hrun. rewrite Hrun, ok_bind. destruct (delete_finish z A e B _ h' HZ Hun) as (l & -> & HZ').
    + intros i Hi. simpl. apply Nat.ltb_lt. lia.
    + rewrite ok_bind. eexists. split; [done|]. split; [exact HZ'|]. split; [done|]. apply Hun.
Qed.

(** [zslDelete] takes out the first node with the score it is given. *)
Lemma delete_spec z A f B zn n : zsl_ok z (A ++ f :: B) → zn ≠ 0 → heap z !! zn = Some n → score n = esc f →
  (∀ e, e ∈ A → esc e < esc f) → ∃ z', zslDelete z zn = Ok z' ∧ zsl_ok z' (A ++ B) ∧ header z' = header z ∧
    heap z' !! addr f = None.
Proof.
  intros HZ Hzn Hn Es HA. pose proof HZ as [HL _ _ _].
  assert (HB : ∀ e, e ∈ f :: B → esc f ≤ esc e).
  { pose proof (lo_sorted _ _ _ HL) as (_ & _ & HS)%StronglySorted_app. apply StronglySorted_cons in HS as [HF _].
    rewrite Forall_forall in HF. intros e [->|He]%elem_of_cons; [lia|by apply HF]. }
  destruct (zsearch_spec z A (f :: B) (esc f) HZ HA HB) as (upd & Hs & _ & Hu).
  unfold zslDelete. rewrite (zrd_ok _ _ _ Hzn Hn), ok_bind, Es, Hs, ok_bind.
  pose proof (lo_lanes _ _ _ HL 0%nat ltac:(unfold ZSKIPLIST_MAXLEVEL; lia)) as Hc. rewrite lane_app, lane_cons in Hc.
  destruct (lo_nodes _ _ _ HL f ltac:(set_solver)) as (Hf0 & Hsh & H1). rewrite decide_True in Hc by lia.
  destruct (pred_app (header z) 0 A) as [P EP]. rewrite app_comm_cons, EP, <-app_assoc in Hc. simpl in Hc.
  apply chain_next in Hc. destruct (pred_ready z A f B 0 HZ) as (_ & (k & Hk & Hik) & _); [pose proof (zo_level _ _ HZ); lia|].
  pose proof (fwd_fld _ _ k 0%nat (addr f) Hk Hik Hc) as Hw. change (Z.of_nat 0) with 0 in Hw.
  rewrite Hw, ok_bind. rewrite (proj2 (Z.eqb_neq _ _)) by done.
  unfold shape in Hsh. apply fmap_Some in Hsh as (m & Hm & [= E1 E2 E3]). rewrite (zrd_ok _ _ _ Hf0 Hm), ok_bind, <-E1, Z.eqb_refl.
  destruct (delete_node_spec z A f B upd HZ Hu) as (z' & -> & [HL' Hl' Hh' Hlen'] & Eh & _). rewrite ok_bind.
  eexists. split; [done|]. split; [|split; [exact Eh|apply lookup_delete_eq]].
  assert (Hout : addr f ≠ header z' ∧ ∀ e, e ∈ A ++ B → addr e ≠ addr f).
  { pose proof (lo_fresh _ _ _ HL) as Hfr. pose proof (lanes_NoDup _ _ _ HL) as Hnd. rewrite fmap_app in *. simpl in *.
    rewrite <-Permutation_middle in Hnd. apply NoDup_cons in Hnd as [Hnd _]. rewrite <-fmap_app in Hnd. rewrite Eh.
    split; [set_solver|]. intros e He E. apply Hnd. rewrite <-E. by apply list_elem_of_fmap_2. }
  destruct Hout as [Ho1 Ho2]. split; simpl; [|done..]. rewrite Eh in *. destruct HL' as [G1 G2 G3 G4 G5].
  split; [| done | | | done].
  - eapply has_shape; [|exact G1]. unfold shape. by rewrite lookup_delete_ne.
  - intros e He. unfold shape. rewrite lookup_delete_ne by (apply not_eq_sym; auto). by apply G3.
  - intros i Hi. eapply chain_ext; [|by apply G4]. intros y [->|Hy]%elem_of_cons; [by rewrite lookup_delete_ne|].
    apply elem_of_lane in Hy as (e & He & <- & _). rewrite lookup_delete_ne; [done|]. apply not_eq_sym. auto.
Qed.

(** ** A list of timers *)

Fixpoint sp_insert (e : entry) (L : list entry) : list entry :=
  match L with f :: L' => if esc f <? esc e then f :: sp_insert e L' else e :: L | [] => [e] end.
Fixpoint sp_delete (sc : Z) (L : list entry) : list entry :=
  match L with f :: L' => if esc f <? sc then f :: sp_delete sc L' else L' | [] => [] end.
Fixpoint sp_expire (now : Z) (L : list entry) : list entry * list (Z * Z) :=
  match L with
  | f :: L' => if now <? esc f then (L, []) else let '(R, ev) := sp_expire now L' in (R, (ehd f, addr f) :: ev)
  | [] => ([], [])
  end.

Lemma sp_insert_app A e B : (∀ f, f ∈ A → esc f < esc e) → (∀ f, f ∈ B → esc e ≤ esc f) →
  sp_insert e (A ++ B) = A ++ e :: B.
Proof.
  intros HA HB. induction A as [|f A IH]; simpl.
  - destruct B as [|g B]; [done|]. simpl. rewrite (proj2 (Z.ltb_ge _ _)); [done|]. apply HB. left.
  - rewrite (proj2 (Z.ltb_lt _ _)) by (apply HA; left). f_equal. apply IH. intros g Hg. apply HA. by right.
Qed.

Lemma sp_delete_app A f B : (∀ e, e ∈ A → esc e < esc f) → sp_delete (esc f) (A ++ f :: B) = A ++ B.
Proof.
  intros HA. induction A as [|e A IH]; simpl; [by rewrite Z.ltb_irrefl|].
  rewrite (proj2 (Z.ltb_lt _ _)) by (apply HA; left). f_equal. apply IH. intros g Hg. apply HA. by right.
Qed.

(** The first entry with the score of an entry of the list. *)
Lemma first_of L e : StronglySorted le_entry L → e ∈ L → ∃ A f B, L = A ++ f :: B ∧ esc f = esc e ∧
  ∀ g, g ∈ A → esc g < esc e.
Proof.
  intros HS He. destruct (split_score L (esc e) HS) as (A & B & -> & HA & HB).
  assert (e ∈ B) as HeB by (apply elem_of_app in He as [He|He]; [specialize (HA e He); lia|done]).
  destruct B as [|f B]; [by apply elem_of_nil in HeB|]. exists A, f, B. split; [done|]. split; [|done].
  apply StronglySorted_app in HS as (_ & _ & HS). apply StronglySorted_cons in HS as [HF _]. rewrite Forall_forall in HF.
  specialize (HB f ltac:(left)). apply elem_of_cons in HeB as [->|HeB]; [done|]. specialize (HF e HeB). unfold le_entry in HF. lia.
Qed.

Lemma expire_loop_spec now fuel : ∀ z L, zsl_ok z L → (length L < fuel)%nat →
  ∃ z', expire_loop fuel z now = Ok (z', (sp_expire now L).2) ∧ zsl_ok z' (sp_expire now L).1 ∧ header z' = header z ∧
    ∀ p, shape (heap z') p = shape (heap z) p.
Proof.
  induction fuel as [|fuel IH]; intros z [|e L] HZ Hf; simpl in Hf; try lia; cbn [expire_loop];
    rewrite (min_spec _ _ HZ), ok_bind.
  - by exists z.
  - change (default 0 (head (addr <$> e :: L))) with (addr e). pose proof HZ as [HL _ _ _].
    destruct (lo_nodes _ _ _ HL e ltac:(left)) as (He0 & Hs & _). rewrite (proj2 (Z.eqb_neq _ _)) by done.
    apply fmap_Some in Hs as (n & Hn & [= E1 E2 E3]). rewrite (zrd_ok _ _ _ He0 Hn), ok_bind, <-E1. cbn [sp_expire].
    destruct (now <? esc e); [by exists z|].
    destruct (delete_head_spec z e L HZ) as (z1 & -> & HZ1 & Eh & Hsh). rewrite ok_bind.
    destruct (IH z1 L HZ1 ltac:(lia)) as (z2 & -> & HZ2 & Eh2 & Hsh2). rewrite ok_bind, <-E2.
    destruct (sp_expire now L) as [R ev]. exists z2. split; [done|]. split; [done|]. split; [congruence|].
    intros p. by rewrite Hsh2.
Qed.

Lemma zsl_length z L : zsl_ok z L → (length L < size (heap z))%nat.
Proof.
  intros [HL _ _ _]. pose proof (lo_lanes _ _ _ HL 0%nat ltac:(unfold ZSKIPLIST_MAXLEVEL; lia)) as Hc%chain_length.
  simpl in Hc. rewrite (lane_0 _ _ _ HL), length_fmap in Hc. lia.
Qed.

Lemma zcreate_spec h a junk : a ≠ 0 → h !! a = None → ∃ z, zslCreate h a junk = Ok z ∧ zsl_ok z [] ∧ header z = a ∧
  ∀ p, p ≠ a → heap z !! p = h !! p.
Proof.
  intros Ha Hn. unfold zslCreate, zslCreateNode. rewrite (proj2 (Z.eqb_neq _ _)), ok_bind by done.
  set (l := take _ _). assert (length l = ZSKIPLIST_MAXLEVEL) as Hl.
  { unfold l. rewrite length_take, length_app, length_replicate. lia. }
  set (h1 := <[a := Node 0 defaultHandler l]> h).
  destruct (for_up_total (λ k h2, (∀ q, shape h2 q = shape h1 q) ∧ (∀ p, p ≠ a → h2 !! p = h !! p) ∧
    ∀ j, (j < k)%nat → fld h2 j a = Some 0) (λ j h2, set_fwd h2 a j 0) ZSKIPLIST_MAXLEVEL 0 h1)
    as (h2 & Hrun & Hs & Ho & Hf).
  - split; [done|]. split; [intros p Hp; by apply lookup_insert_ne|]. intros j Hj. lia.
  - intros i h2 Hi (Hs & Ho & Hf). assert (has h2 a ZSKIPLIST_MAXLEVEL) as Hh.
    { eapply has_shape; [apply Hs|]. apply has_node. split; [done|]. eexists. split; [apply lookup_insert_eq|done]. }
    destruct (set_fwd_ok h2 a _ i 0 Hh ltac:(lia)) as (h3 & Hrun & Hs3 & Hf3). exists h3. split; [done|].
    split; [intros q; by rewrite Hs3|]. split.
    + intros p Hp. rewrite <-Ho by done. apply has_node in Hh as (_ & n & Hna & _). unfold set_fwd in Hrun.
      rewrite (zrd_ok _ _ _ Ha Hna), ok_bind in Hrun. apply bind_ok in Hrun as (? & _ & [= <-]). by apply lookup_insert_ne.
    + intros j Hj. rewrite Hf3. case_decide; [done|]. apply Hf. assert (j ≠ i) by naive_solver. lia.
  - change (Z.of_nat 0) with 0 in Hrun. rewrite Hrun, ok_bind. eexists. split; [done|]. split; [|split; [done|exact Ho]].
    split; simpl; [|unfold ZSKIPLIST_MAXLEVEL; lia|by intros e ?%elem_of_nil|done]. split.
    + eapply has_shape; [apply Hs|]. apply has_node. split; [done|]. eexists. split; [apply lookup_insert_eq|done].
    + simpl. by intros ?%elem_of_nil.
    + by intros e ?%elem_of_nil.
    + intros i Hi. specialize (Hf i Hi). apply fmap_Some in Hf as (n & Hn2 & E). split; [done|]. split; [done|].
      by exists n.
    + constructor.
Qed.

Lemma free_loop_spec fuel : ∀ h x l, chain (nx 0) h x l → (∀ y, y ∈ l → ∃ k, has h y k ∧ (0 < k)%nat) →
  (length l < fuel)%nat → ∃ h', free_loop fuel h x = Ok h' ∧ ∀ p, h' !! p = if decide (p ∈ l) then None else h !! p.
Proof.
  induction fuel as [|fuel IH]; intros h x l Hc Hh Hf; [lia|]. cbn [free_loop]. destruct l as [|y l].
  - simpl in Hc. rewrite Hc. simpl. exists h. split; [done|]. done.
  - pose proof (chain_NoDup _ _ _ _ Hc) as [Hy _]%NoDup_cons. destruct Hc as (-> & Hy0 & v & Hv & Hc).
    rewrite (proj2 (Z.eqb_neq _ _)) by done. destruct (Hh y ltac:(left)) as (k & Hk & H0).
    assert (fld h 0 y = Some (nx 0 v)) as Hfl by (unfold fld; by rewrite Hv).
    pose proof (fwd_fld _ _ _ 0%nat _ Hk H0 Hfl) as Hw. change (Z.of_nat 0) with 0 in Hw. rewrite Hw, ok_bind.
    destruct (IH (delete y h) (nx 0 v) l) as (h' & -> & Hp).
    + eapply chain_ext; [|exact Hc]. intros z Hz. by rewrite lookup_delete_ne by set_solver.
    + intros z Hz. destruct (Hh z ltac:(by right)) as (kz & Hkz & ?). exists kz. split; [|done].
      eapply has_shape; [|exact Hkz]. unfold shape. by rewrite lookup_delete_ne by set_solver.
    + simpl in Hf. lia.
    + exists h'. split; [done|]. intros p. rewrite Hp. destruct (decide (p ∈ l)) as [Hin|Hin].
      * rewrite decide_True; [done|by right].
      * destruct (decide (p ∈ y :: l)) as [[->|?]%elem_of_cons|Hne]; [apply lookup_delete_eq|done|].
        apply lookup_delete_ne. intros ->. apply Hne. left.
Qed.

Lemma free_spec z L : zsl_ok z L → ∃ h, zslFree z = Ok h ∧
  ∀ p, h !! p = if decide (p = header z ∨ p ∈ addr <$> L) then None else heap z !! p.
Proof.
  intros HZ. pose proof HZ as [HL _ _ _]. pose proof (min_spec _ _ HZ) as Hm. unfold zslMin in Hm.
  pose proof (lo_lanes _ _ _ HL 0%nat ltac:(unfold ZSKIPLIST_MAXLEVEL; lia)) as Hc. pose proof (zsl_length _ _ HZ) as Hlen.
  rewrite (lane_0 _ _ _ HL) in Hc. pose proof (chain_NoDup _ _ _ _ Hc) as [Hout _]%NoDup_cons.
  pose proof (chain_next _ _ _ [] _ _ Hc) as Hn. destruct Hc as (_ & Hh0 & v & Hv & Hc). rewrite Hv in Hn.
  injection Hn as Hn. rewrite Hn in Hc.
  destruct (free_loop_spec (S (size (heap z))) (delete (header z) (heap z)) (default 0 (head (addr <$> L))) (addr <$> L))
    as (h & Hfree & Hp).
  - eapply chain_ext; [|exact Hc]. intros y Hy. by rewrite lookup_delete_ne by set_solver.
  - intros y (e & -> & He)%list_elem_of_fmap. exists (eht e). destruct (lo_nodes _ _ _ HL e He) as (_ & _ & ?). split; [|lia].
    eapply has_shape; [|by eapply lo_has]. unfold shape. rewrite lookup_delete_ne; [done|]. intros E'. apply Hout. rewrite E'.
    by apply list_elem_of_fmap_2.
  - rewrite length_fmap. lia.
  - exists h. split; [unfold zslFree; by rewrite Hm, ok_bind|]. intros p. rewrite Hp.
    destruct (decide (p = header z)) as [->|Hne].
    + rewrite lookup_delete_eq. rewrite (decide_True (P := _ ∨ _)) by auto. by case_decide.
    + rewrite lookup_delete_ne by done. repeat case_decide; naive_solver.
Qed.

Lemma sp_expire_split now L : ∃ D, L = D ++ (sp_expire now L).1 ∧ (sp_expire now L).2 = (λ e, (ehd e, addr e)) <$> D.
Proof.
  induction L as [|e L (D & EL & Eev)]; [by exists []|]. cbn [sp_expire]. destruct (now <? esc e); [by exists []|].
  destruct (sp_expire now L) as [R ev]. exists (e :: D). simpl in *. by rewrite EL, Eev at 1.
Qed.

(** ** The theorems *)

(** What a program does with its timers, with the answers of [malloc], [rand] and the clock. *)
Inductive op : Type :=
  | Add (a : Z) (junk rolls : list Z) (now msec func : Z)
  | Del (zn : Z)
  | Expire (now : Z).

Definition exec (z : zskiplist) (o : op) : res (zskiplist * list (Z * Z)) :=
  match o with
  | Add a junk rolls now msec func => '(z, _) ← add_timer z a junk rolls now msec func; Ok (z, [])
  | Del zn => z ← del_timer z zn; Ok (z, [])
  | Expire now => expire_timer z now
  end.

(** The same on the list of timers: an entry goes in front of those that do not expire
    before it; the first entry with the score of the node given goes out; those
    due are called in order. *)
Definition sp_exec (L : list entry) (o : op) : list entry * list (Z * Z) :=
  match o with
  | Add a _ rolls now msec func =>
      match zslRandomLevel rolls with Ok lvl => (sp_insert (Entry a (u32 (msec + now)) func lvl) L, []) | Err _ => (L, []) end
  | Del zn => match list_find (λ e, addr e = zn) L with Some (_, e) => (sp_delete (esc e) L, []) | None => (L, []) end
  | Expire now => sp_expire now L
  end.

(** [malloc] gives fresh storage, [rand] ends the loop for the level, and the timer deleted
    is in the list. *)
Definition op_ok (z : zskiplist) (L : list entry) (o : op) : Prop :=
  match o with
  | Add a _ rolls _ _ _ => a ≠ 0 ∧ heap z !! a = None ∧ is_Some (match zslRandomLevel rolls with Ok l => Some l | Err _ => None end)
  | Del zn => zn ∈ addr <$> L
  | Expire _ => True
  end.

(** C20: The skip list implements the list of timers sorted by expiry: each operation, from a
    state that represents a list, ends without fault in one that represents the list the
    specification gives, and calls the same handlers in the same order. *)
Theorem timers_refine z L o : zsl_ok z L → op_ok z L o →
  ∃ z', exec z o = Ok (z', (sp_exec L o).2) ∧ zsl_ok z' (sp_exec L o).1.
Proof.
  intros HZ Ho. destruct o as [a junk rolls now msec func|zn|now]; simpl in *.
  - destruct Ho as (Ha & Hn & lvl & Hl). destruct (zslRandomLevel rolls) as [lvl'|] eqn:Hr; [|done].
    destruct (zinsert_spec z L a junk rolls lvl' (u32 (msec + now)) func HZ Hn Ha Hr) as (A & B & z' & -> & HA & HB & E & HZ').
    unfold add_timer. rewrite E, ok_bind. exists z'. split; [done|]. simpl. by rewrite sp_insert_app.
  - apply list_elem_of_fmap in Ho as (e0 & -> & He0).
    destruct (list_find_elem_of (λ e, addr e = addr e0) L e0 He0 eq_refl) as [[i e] Hfind]. rewrite Hfind.
    apply list_find_Some in Hfind as (Hi & Ee & _). apply list_elem_of_lookup_2 in Hi.
    pose proof HZ as [HL _ _ _]. destruct (first_of L e (lo_sorted _ _ _ HL) Hi) as (A & f & B & -> & Ef & HA).
    destruct (lo_nodes _ _ _ HL e Hi) as (H0 & Hs & _). apply fmap_Some in Hs as (n & Hn & [= E1 E2 E3]).
    destruct (delete_spec z A f B (addr e) n HZ H0 Hn) as (z' & Hd & HZ' & _ & _); [congruence|by rewrite Ef|].
    unfold del_timer. rewrite <-Ee, Hd, ok_bind. exists z'. split; [done|]. cbn [fst]. rewrite <-Ef, sp_delete_app; [done|by rewrite Ef].
  - destruct (expire_loop_spec now (S (size (heap z))) z L HZ) as (z' & E & HZ' & _); [pose proof (zsl_length _ _ HZ); lia|].
    exists z'. by split.
Qed.

(** [del_timer] looks for the score, not for the node: when the timer given shares its
    expiry with a later one of the list, that one is freed and the timer given stays. *)
Theorem del_timer_cancels_other z A f B e : zsl_ok z (A ++ f :: B) → (∀ g, g ∈ A → esc g < esc f) → e ∈ B →
  esc e = esc f → ∃ z', del_timer z (addr e) = Ok z' ∧ zsl_ok z' (A ++ B) ∧ e ∈ A ++ B ∧
    heap z' !! addr f = None ∧ addr e ≠ addr f.
Proof.
  intros HZ HA He Es. pose proof HZ as [HL _ _ _]. destruct (lo_nodes _ _ _ HL e ltac:(set_solver)) as (H0 & Hs & _).
  apply fmap_Some in Hs as (n & Hn & [= E1 E2 E3]).
  destruct (delete_spec z A f B (addr e) n HZ H0 Hn) as (z' & Hd & HZ' & _ & Hf); [congruence|done|].
  exists z'. split; [done|]. split; [done|]. split; [set_solver|]. split; [done|]. intros E.
  pose proof (lanes_NoDup _ _ _ HL) as Hnd. rewrite fmap_app in Hnd. apply NoDup_app in Hnd as (_ & _ & [Hnd _]%NoDup_cons).
  apply Hnd. rewrite <-E. by apply list_elem_of_fmap_2.
Qed.

(** [zslFree] frees the header and every node of the list and nothing else; the nodes of timers that have
    expired were taken out of the list without being freed, and stay. *)
Theorem expired_nodes_leak z L now : zsl_ok z L → ∃ z' h,
  expire_timer z now = Ok (z', (sp_expire now L).2) ∧ zslFree z' = Ok h ∧
  (∀ e, e ∈ (sp_expire now L).1 → h !! addr e = None) ∧ h !! header z = None ∧
  ∀ f p, (f, p) ∈ (sp_expire now L).2 → is_Some (h !! p).
Proof.
  intros HZ. destruct (expire_loop_spec now (S (size (heap z))) z L HZ) as (z' & E & HZ' & Eh & Hsh); [pose proof (zsl_length _ _ HZ); lia|].
  destruct (free_spec z' _ HZ') as (h & Hfree & Hp). exists z', h. split; [exact E|]. split; [exact Hfree|].
  split; [intros e He; rewrite Hp, decide_True; [done|right; by apply list_elem_of_fmap_2]|].
  split; [by rewrite Hp, decide_True by auto|]. intros f p Hin. destruct (sp_expire_split now L) as (D & EL & Eev).
  rewrite Eev in Hin. apply list_elem_of_fmap in Hin as (e & [= -> ->] & He). pose proof HZ as [HL _ _ _].
  pose proof (lanes_NoDup _ _ _ HL) as Hnd. pose proof (lo_fresh _ _ _ HL) as Hfr.
  destruct (lo_nodes _ _ _ HL e) as (_ & Hs & _); [rewrite EL; set_solver|]. rewrite <-Hsh in Hs.
  apply fmap_Some in Hs as (n & Hn & _). rewrite Hp, decide_False, Hn; [done|].
  assert (addr e ∈ addr <$> D) as HeD by by apply list_elem_of_fmap_2. rewrite EL, fmap_app in Hnd, Hfr.
  apply NoDup_app in Hnd as (_ & Hd & _). intros [Ee|HR]; [|by apply (Hd (addr e))].
  rewrite Eh in Ee. apply Hfr. rewrite <-Ee. set_solver.
Qed.

Lemma print_loop h : ∀ l i x out, chain (nx 0) h x (addr <$> l) →
  (∀ e, e ∈ l → has h (addr e) (eht e) ∧ shape h (addr e) = Some (esc e, ehd e, eht e) ∧ (0 < eht e)%nat) →
  for_up (length l) i (λ _ '(x, out), n ← rd h x; x ← fwd h x 0; Ok (x, out ++ [score n])) (x, out) =
    Ok (0, out ++ (esc <$> l)).
Proof.
  induction l as [|e l IH]; intros i x out Hc Hl; [simpl in *; by rewrite Hc, app_nil_r|].
  destruct (Hl e ltac:(left)) as (Hh & Hs & H0). destruct Hc as (-> & Ha & v & Hv & Hc). cbn [length for_up].
  unfold shape in Hs. rewrite Hv in Hs. injection Hs as E1 E2 E3. rewrite (zrd_ok _ _ _ Ha Hv), ok_bind.
  assert (fld h 0 (addr e) = Some (nx 0 v)) as Hfl by (unfold fld; by rewrite Hv).
  pose proof (fwd_fld _ _ _ 0%nat _ Hh H0 Hfl) as Hw. change (Z.of_nat 0) with 0 in Hw. rewrite Hw, !ok_bind, E1.
  rewrite (IH (i + 1) (nx 0 v) (out ++ [esc e]) Hc) by (intros f Hf; apply Hl; by right). by rewrite <-app_assoc.
Qed.

(** [zslPrint] prints the scores in order. *)
Theorem zslPrint_scores z L : zsl_ok z L → zslPrint z = Ok (esc <$> L) ∧ StronglySorted Z.le (esc <$> L).
Proof.
  intros HZ. pose proof HZ as [HL _ _ Hlen]. pose proof (min_spec _ _ HZ) as Hm. unfold zslMin in Hm.
  pose proof (lo_lanes _ _ _ HL 0%nat ltac:(unfold ZSKIPLIST_MAXLEVEL; lia)) as Hc. rewrite (lane_0 _ _ _ HL) in Hc.
  pose proof (chain_next _ _ _ [] _ _ Hc) as Hn. destruct Hc as (_ & _ & v & Hv & Hc). rewrite Hv in Hn. injection Hn as Hn.
  rewrite Hn in Hc. split.
  - unfold zslPrint. rewrite Hm, ok_bind, Hlen, Nat2Z.id, (print_loop (heap z) L 0 _ [] Hc); [done|].
    intros e He. destruct (lo_nodes _ _ _ HL e He) as (_ & Hs & H1). split; [by eapply lo_has|]. split; [done|lia].
  - destruct HL as [_ _ _ _ HS]. clear - HS. induction HS as [|e l _ IH HF]; simpl; constructor; [apply IH|].
    apply Forall_forall. intros y (f & -> & Hf)%list_elem_of_fmap. rewrite Forall_forall in HF. by apply HF.
Qed.

(** ** Concrete lists *)

(** A list of two timers with the same expiry; the later one comes first. *)
Definition ex_list : list entry := [Entry 2 4010 12 3; Entry 1 4010 11 1].

Lemma ex_zsl : ∃ z, zsl_ok z ex_list ∧ heap z !! 3 = None.
Proof.
  destruct (zcreate_spec ∅ 100 []) as (z0 & E0 & H0 & _); [done..|].
  destruct (zinsert_spec z0 [] 1 [7] [65535] 1%nat 4010 11 H0) as (A & B & z1 & EL & _ & _ & E1 & H1).
  { vm_compute in E0. injection E0 as <-. by vm_compute. } { done. } { done. }
  destruct A; [|done]. destruct B; [|done].
  destruct (zinsert_spec z1 _ 2 [7] [5; 5; 65535] 3%nat 4010 12 H1) as (A & B & z2 & EL2 & HA & _ & E2 & H2).
  { vm_compute in E0. injection E0 as <-. vm_compute in E1. injection E1 as <-. by vm_compute. } { done. } { done. }
  destruct A as [|e A]; [|exfalso; injection EL2 as <- _; by specialize (HA _ ltac:(left))].
  simpl in EL2, H2. subst B. exists z2. split; [exact H2|].
  vm_compute in E0. injection E0 as <-. vm_compute in E1. injection E1 as <-. vm_compute in E2. injection E2 as <-. by vm_compute.
Qed.

Example timers_refine_witness : ∃ z z', zsl_ok z ex_list ∧ exec z (Expire 4010) = Ok (z', [(12, 2); (11, 1)]) ∧ zsl_ok z' [].
Proof.
  destruct ex_zsl as (z & Hz & _). destruct (timers_refine z ex_list (Expire 4010) Hz I) as (z' & E & H').
  exists z, z'. split; [exact Hz|]. split; [exact E|exact H'].
Defined.

Example del_timer_cancels_other_witness : ∃ z z', zsl_ok z ex_list ∧ del_timer z 1 = Ok z' ∧
  zsl_ok z' [Entry 1 4010 11 1] ∧ heap z' !! 2 = None.
Proof.
  destruct ex_zsl as (z & Hz & _).
  destruct (del_timer_cancels_other z [] (Entry 2 4010 12 3) [Entry 1 4010 11 1] (Entry 1 4010 11 1) Hz) as (z' & E & H' & _ & Hn & _).
  - by intros g ?%elem_of_nil.
  - left.
  - reflexivity.
  - exists z, z'. split; [exact Hz|]. split; [exact E|]. split; [exact H'|exact Hn].
Defined.

Example expired_nodes_leak_witness : ∃ z z' h, zsl_ok z ex_list ∧ expire_timer z 4010 = Ok (z', [(12, 2); (11, 1)]) ∧
  zslFree z' = Ok h ∧ is_Some (h !! 1).
Proof.
  destruct ex_zsl as (z & Hz & _). destruct (expired_nodes_leak z ex_list 4010 Hz) as (z' & h & E & Hf & _ & _ & Hl).
  exists z, z', h. split; [exact Hz|]. split; [exact E|]. split; [exact Hf|]. apply (Hl 11). right. left.
Defined.

Example zslPrint_scores_witness : ∃ z, zsl_ok z ex_list ∧ zslPrint z = Ok [4010; 4010].
Proof. destruct ex_zsl as (z & Hz & _). exists z. split; [exact Hz|]. exact (proj1 (zslPrint_scores z ex_list Hz)). Defined.

(** The program of skl-timer.c, with a second timer for the same time as the first deleted. *)
Definition ex_run : res (list (Z * Z) * list Z) :=
  z ← zslCreate ∅ 100 [];
  '(z, a) ← add_timer z 1 [7;7;7] [5;65535] 1000 3010 11;
  '(z, b) ← add_timer z 2 [7;7;7] [65535] 1000 4004 12;
  '(z, c) ← add_timer z 3 [7;7;7] [5;5;65535] 1000 3005 13;
  z ← del_timer z c;
  '(z, c) ← add_timer z 4 [7;7;7] [5;5;65535] 1000 3010 14;
  '(z, ev) ← expire_timer z 4010;
  out ← zslPrint z;
  Ok (ev, out).
Example ex_run_ok : ex_run = Ok ([(14, 4); (11, 1)], [5004]).
Proof. vm_compute. reflexivity. Qed.

End SkipList.
