(* ===== verification/NetStack.v ===== *)
(** * The user-space network stack of 5.3coroutine_tcpip/icmp_arp_udp_success.c

    Frames are arrays of bytes; the packed structures are records with one field for
    each member, read from and written to their places in the frame.  A 16-bit member holds what a
    little-endian machine loads from its two bytes.  Sending and receiving by netmap are the
    ends of the model: the slot that arrives and the frame that is injected. *)

From S2P Require Import Prelude CMem.

Module NetStack.

(** ** Members of packed structures *)

Definition ETH_ALEN : Z := 6.
Definition PROTO_IP : Z := 2048.    (* 0x0800 *)
Definition PROTO_ARP : Z := 2054.   (* 0x0806 *)
Definition PROTO_UDP : Z := 17.
Definition PROTO_ICMP : Z := 1.

(** The bytes at offset [o]; the caller has checked the bounds. *)
Definition g8 (b : list Z) (o : nat) : Z := nth o b 0.
Definition g16 (b : list Z) (o : nat) : Z := g8 b o + 256 * g8 b (S o).
Definition g32 (b : list Z) (o : nat) : Z := g16 b o + 65536 * g16 b (S (S o)).
Definition gn (b : list Z) (o n : nat) : list Z := take n (drop o b).
Definition p16 (v : Z) : list Z := [v mod 256; v / 256 mod 256].
Definition p32 (v : Z) : list Z := p16 v ++ p16 (v / 65536).

Definition ntohs (v : Z) : Z := v mod 256 * 256 + v / 256 mod 256.
Definition htons (v : Z) : Z := ntohs v.
(** [inet_addr] of a dotted address. *)
Definition inet_addr (a b c d : Z) : Z := a + 256 * b + 65536 * c + 16777216 * d.

(* src: 5.3coroutine_tcpip/icmp_arp_udp_success.c:28-32 ethhdr *)
Record ethhdr : Type := Eth { h_dest : list Z; h_source : list Z; h_proto : Z }.

(* src: 5.3coroutine_tcpip/icmp_arp_udp_success.c:37-48 iphdr *)
Record iphdr : Type := Ip { version : Z; tos : Z; tot_len : Z; id : Z; flag_off : Z; ttl : Z; protocol : Z;
  ip_check : Z; saddr : Z; daddr : Z }.

(* src: 5.3coroutine_tcpip/icmp_arp_udp_success.c:52-57 udphdr *)
Record udphdr : Type := Udp { source : Z; dest : Z; len : Z; udp_check : Z }.

(* src: 5.3coroutine_tcpip/icmp_arp_udp_success.c:61-66 udppkt *)
Record udppkt : Type := UdpPkt { udp_eh : ethhdr; udp_ip : iphdr; udp : udphdr }.

(* src: 5.3coroutine_tcpip/icmp_arp_udp_success.c:71-81 arphdr *)
Record arphdr : Type := Arp { h_type : Z; ar_proto : Z; h_addrlen : Z; protolen : Z; oper : Z; smac : list Z; sip : Z;
  dmac : list Z; dip : Z }.

(* src: 5.3coroutine_tcpip/icmp_arp_udp_success.c:84-87 arppkt *)
Record arppkt : Type := ArpPkt { arp_eh : ethhdr; arp : arphdr }.

(* src: 5.3coroutine_tcpip/icmp_arp_udp_success.c:90-97 icmphdr *)
Record icmphdr : Type := Icmp { type : Z; code : Z; icmp_check : Z; identifier : Z; seq : Z; data : list Z }.

(* src: 5.3coroutine_tcpip/icmp_arp_udp_success.c:99-103 icmppkt *)
Record icmppkt : Type := IcmpPkt { icmp_eh : ethhdr; icmp_ip : iphdr; icmp : icmphdr }.

(** A pointer to a structure of [n] bytes at the start of [b], all of which is read. *)
Definition whole (b : list Z) (n : nat) : res unit :=
  if (n <=? length b)%nat then Ok tt else Err OutOfBounds.

Definition get_eth (b : list Z) : ethhdr := Eth (gn b 0 6) (gn b 6 6) (g16 b 12).
Definition get_ip (b : list Z) : iphdr :=
  Ip (g8 b 0) (g8 b 1) (g16 b 2) (g16 b 4) (g16 b 6) (g8 b 8) (g8 b 9) (g16 b 10) (g32 b 12) (g32 b 16).
Definition get_udp (b : list Z) : udphdr := Udp (g16 b 0) (g16 b 2) (g16 b 4) (g16 b 6).
Definition get_arp (b : list Z) : arphdr :=
  Arp (g16 b 0) (g16 b 2) (g8 b 4) (g8 b 5) (g16 b 6) (gn b 8 6) (g32 b 14) (gn b 18 6) (g32 b 24).
Definition get_icmp (b : list Z) : icmphdr := Icmp (g8 b 0) (g8 b 1) (g16 b 2) (g16 b 4) (g16 b 6) (gn b 8 32).

Definition get_udppkt (b : list Z) : udppkt := UdpPkt (get_eth b) (get_ip (drop 14 b)) (get_udp (drop 34 b)).
Definition get_arppkt (b : list Z) : arppkt := ArpPkt (get_eth b) (get_arp (drop 14 b)).
Definition get_icmppkt (b : list Z) : icmppkt := IcmpPkt (get_eth b) (get_ip (drop 14 b)) (get_icmp (drop 34 b)).

Definition put_eth (e : ethhdr) : list Z := h_dest e ++ h_source e ++ p16 (h_proto e).
Definition put_ip (i : iphdr) : list Z :=
  [version i; tos i] ++ p16 (tot_len i) ++ p16 (id i) ++ p16 (flag_off i) ++ [ttl i; protocol i] ++
  p16 (ip_check i) ++ p32 (saddr i) ++ p32 (daddr i).
Definition put_udp (u : udphdr) : list Z := p16 (source u) ++ p16 (dest u) ++ p16 (len u) ++ p16 (udp_check u).
Definition put_arp (a : arphdr) : list Z :=
  p16 (h_type a) ++ p16 (ar_proto a) ++ [h_addrlen a; protolen a] ++ p16 (oper a) ++ smac a ++ p32 (sip a) ++
  dmac a ++ p32 (dip a).
Definition put_icmp (i : icmphdr) : list Z :=
  [type i; code i] ++ p16 (icmp_check i) ++ p16 (identifier i) ++ p16 (seq i) ++ data i.

Definition put_udppkt (u : udppkt) : list Z := put_eth (udp_eh u) ++ put_ip (udp_ip u) ++ put_udp (udp u).
Definition put_arppkt (a : arppkt) : list Z := put_eth (arp_eh a) ++ put_arp (arp a).
Definition put_icmppkt (i : icmppkt) : list Z := put_eth (icmp_eh i) ++ put_ip (icmp_ip i) ++ put_icmp (icmp i).

(** ** Printing and parsing of addresses *)

Definition hex_digit (v : Z) : Z := if v <? 10 then 48 + v else 87 + v.
Definition hex2 (v : Z) : list Z := [hex_digit (v / 16); hex_digit (v mod 16)].

(* src: 5.3coroutine_tcpip/icmp_arp_udp_success.c:105-111 print_mac *)
Definition print_mac (mac : list Z) : res (list Z) :=
  out ← for_up 5 0 (λ i out, m ← aget mac i; Ok (out ++ hex2 m ++ [58])) [];
  m ← aget mac 5;
  Ok (out ++ hex2 m).

(* src: 5.3coroutine_tcpip/icmp_arp_udp_success.c:113-120 print_ip *)
Definition print_ip (ip : list Z) : res (list Z) :=
  out ← for_up 3 0 (λ i out, m ← aget ip i; Ok (out ++ decimal m ++ [46])) [];
  m ← aget ip 3;
  Ok (out ++ decimal m).

(** Nothing in the program calls it. *)
(* src: 5.3coroutine_tcpip/icmp_arp_udp_success.c:123-133 print_arp *)
Definition print_arp (a : arppkt) : res (list Z) :=
  d ← print_mac (h_dest (arp_eh a));
  s ← print_mac (h_source (arp_eh a));
  let proto := ntohs (h_proto (arp_eh a)) in
  Ok (d ++ [32] ++ s ++ [32] ++ bytes "0x" ++ hex2 (proto / 256) ++ hex2 (proto mod 256) ++ [32; 32; 32]).

(** The value of a hexadecimal digit. *)
Definition hex_value (c : Z) : option Z :=
  if (c <=? 57) && (48 <=? c) then Some (c - 48)
  else if (c <=? 102) && (97 <=? c) then Some (c - 97 + 10)
  else if (c <=? 70) && (65 <=? c) then Some (c - 65 + 10)
  else None.

(** The condition of the loop, [p != '\0'], compares the pointer and always holds: the loop
    ends at a byte that is no digit. *)
Fixpoint str2mac_loop (str : list Z) (mac : list Z) (value i : Z) : res (list Z) :=
  match str with
  | [] => Err OutOfBounds
  | c :: str =>
      if c =? 58 then mac ← aset mac i value; str2mac_loop str mac 0 (i + 1)
      else match hex_value c with
           | Some temp => str2mac_loop str mac (Z.lor (u8 (Z.shiftl value 4)) temp) i
           | None => aset mac i value
           end
  end.

(* src: 5.3coroutine_tcpip/icmp_arp_udp_success.c:135-169 str2mac *)
Definition str2mac (mac str : list Z) : res (list Z) := str2mac_loop str mac 0 0.

(** ** Replies *)

(* src: 5.3coroutine_tcpip/icmp_arp_udp_success.c:171-189 echo_arp_pkt *)
Definition echo_arp_pkt (a : arppkt) (hmac : list Z) : res arppkt :=
  hsrc ← str2mac (h_source (arp_eh a)) hmac;
  sm ← str2mac (smac (arp a)) hmac;
  Ok (ArpPkt (Eth (h_source (arp_eh a)) hsrc (h_proto (arp_eh a)))
        (Arp (h_type (arp a)) (ar_proto (arp a)) 6 4 (htons 2) sm (dip (arp a)) (smac (arp a)) (sip (arp a)))).

Definition swap_ip (i : iphdr) : iphdr :=
  Ip (version i) (tos i) (tot_len i) (id i) (flag_off i) (ttl i) (protocol i) (ip_check i) (daddr i) (saddr i).

(* src: 5.3coroutine_tcpip/icmp_arp_udp_success.c:192-205 echo_udp_pkt *)
Definition echo_udp_pkt (u : udppkt) : udppkt :=
  UdpPkt (Eth (h_source (udp_eh u)) (h_dest (udp_eh u)) (h_proto (udp_eh u))) (swap_ip (udp_ip u))
    (Udp (dest (udp u)) (source (udp u)) (len (udp u)) (udp_check (udp u))).

(** [sum] is an [int]. *)
Definition int_add (a b : Z) : res Z := if a + b <? 2 ^ 31 then Ok (a + b) else Err SignedOverflow.

Fixpoint cksum_loop (fuel : nat) (b : list Z) (w nleft sum : Z) : res (Z * Z * Z) :=
  match fuel with
  | O => Err OutOfFuel
  | S fuel =>
      if 1 <? nleft then
        lo ← aget b w;
        hi ← aget b (w + 1);
        sum ← int_add sum (lo + 256 * hi);
        cksum_loop fuel b (w + 2) (nleft - 2) sum
      else Ok (w, nleft, sum)
  end.

(** [b] is the storage [addr] points to. *)
(* src: 5.3coroutine_tcpip/icmp_arp_udp_success.c:207-230 in_cksum *)
Definition in_cksum (b : list Z) (len : Z) : res Z :=
  '(w, nleft, sum) ← cksum_loop (S (Z.to_nat len)) b 0 len 0;
  sum ← (if nleft =? 1 then x ← aget b w; int_add sum x else Ok sum);
  let sum := Z.shiftr sum 16 + Z.land sum 65535 in
  let sum := sum + Z.shiftr sum 16 in
  Ok (u16 (Z.lnot sum)).

(* src: 5.3coroutine_tcpip/icmp_arp_udp_success.c:233-249 echo_icmp_pkt *)
Definition echo_icmp_pkt (i : icmppkt) : res icmppkt :=
  let h := Icmp 0 0 0 (identifier (icmp i)) (seq (icmp i)) (data (icmp i)) in
  c ← in_cksum (put_icmp h) 40;
  Ok (IcmpPkt (Eth (h_source (icmp_eh i)) (h_dest (icmp_eh i)) (h_proto (icmp_eh i))) (swap_ip (icmp_ip i))
        (Icmp 0 0 c (identifier (icmp i)) (seq (icmp i)) (data (icmp i)))).

Definition own_ip : Z := inet_addr 192 168 0 123.
Definition own_mac : list Z := bytes "00:50:56:33:1c:ca" ++ [0].

(** What [main] does with the frame at [stream]: the slot afterwards, and the frame injected. *)
(* src: 5.3coroutine_tcpip/icmp_arp_udp_success.c:271-323 main *)
Definition handle_frame (stream : list Z) : res (list Z * option (list Z)) :=
  _ ← whole stream 14;
  if ntohs (g16 stream 12) =? PROTO_IP then
    protocol ← aget stream 23;
    if protocol =? PROTO_UDP then
      _ ← whole stream 42;
      let udp_length := ntohs (len (udp (get_udppkt stream))) in
      stream ← aset stream (42 + (udp_length - 8)) 0;
      Ok (stream, Some (put_udppkt (echo_udp_pkt (get_udppkt stream))))
    else if protocol =? PROTO_ICMP then
      type ← aget stream 34;
      _ ← whole stream 38;
      if type =? 8 then
        _ ← whole stream 74;
        rt ← echo_icmp_pkt (get_icmppkt stream);
        Ok (stream, Some (put_icmppkt rt))
      else Ok (stream, None)
    else Ok (stream, None)
  else if ntohs (g16 stream 12) =? PROTO_ARP then
    _ ← whole stream 42;
    if dip (arp (get_arppkt stream)) =? own_ip then
      rt ← echo_arp_pkt (get_arppkt stream) own_mac;
      Ok (stream, Some (put_arppkt rt))
    else Ok (stream, None)
  else Ok (stream, None).

(** What a round of [main]'s loop finds: a failure of poll, nothing to read, or a frame in its slot. *)
Inductive poll_result : Type := PollFailed | PollOther | Frame (stream : list Z).

(** The frames injected in the rounds of the loop, in order. *)
(* src: 5.3coroutine_tcpip/icmp_arp_udp_success.c:252-325 main *)
Fixpoint main_loop (rounds : list poll_result) (injected : list (list Z)) : res (list (list Z)) :=
  match rounds with
  | [] => Ok injected
  | Frame stream :: rounds =>
      '(_, out) ← handle_frame stream;
      main_loop rounds (injected ++ match out with Some f => [f] | None => [] end)
  | _ :: rounds => main_loop rounds injected
  end.
(** [opened] says whether netmap could be opened. *)
Definition main (opened : bool) (rounds : list poll_result) : res (Z * list (list Z)) :=
  if opened then out ← main_loop rounds []; Ok (0, out) else Ok (-1, []).

(** ** Bytes and members *)

Definition byte (x : Z) : Prop := 0 ≤ x < 256.
#[export] Instance byte_dec x : Decision (byte x).
Proof. unfold byte. apply _. Defined.

Lemma g8_byte b o : Forall byte b → byte (g8 b o).
Proof.
  intros Hb. unfold g8. rewrite nth_lookup. destruct (b !! o) eqn:E; [|done]. by eapply Forall_lookup_1.
Qed.

Lemma gn_S b o n : (o < length b)%nat → gn b o (S n) = g8 b o :: gn b (S o) n.
Proof.
  intros Ho. unfold gn, g8. rewrite nth_lookup. destruct (b !! o) as [x|] eqn:E; [by rewrite (drop_S _ _ _ E)|].
  apply lookup_ge_None in E. lia.
Qed.

Lemma gn_0 b o : gn b o 0 = [].
Proof. done. Qed.

Lemma gn_add b o n m : gn b o (n + m) = gn b o n ++ gn b (o + n) m.
Proof. unfold gn. by rewrite <-take_take_drop, drop_drop. Qed.

Lemma gn_length b o n : (o + n ≤ length b)%nat → length (gn b o n) = n.
Proof. intros H. unfold gn. rewrite length_take, length_drop. lia. Qed.

Lemma gn_byte b o n : Forall byte b → Forall byte (gn b o n).
Proof. intros Hb. by apply Forall_take, Forall_drop. Qed.

Lemma p16_g16 b o : Forall byte b → (o + 2 ≤ length b)%nat → p16 (g16 b o) = gn b o 2.
Proof.
  intros Hb Ho. rewrite !gn_S, gn_0 by lia. unfold p16, g16.
  pose proof (g8_byte b o Hb). pose proof (g8_byte b (S o) Hb). unfold byte in *. f_equal; [zdiv|f_equal; zdiv].
Qed.

Lemma g16_range b o : Forall byte b → 0 ≤ g16 b o < 65536.
Proof.
  intros Hb. pose proof (g8_byte b o Hb). pose proof (g8_byte b (S o) Hb). unfold byte, g16 in *. lia.
Qed.

Lemma p16_high a k : p16 (a + 65536 * k) = p16 a.
Proof. unfold p16. f_equal; [zdiv|f_equal; zdiv]. Qed.

Lemma p32_g32 b o : Forall byte b → (o + 4 ≤ length b)%nat → p32 (g32 b o) = gn b o 4.
Proof.
  intros Hb Ho. change 4%nat with (2 + 2)%nat. rewrite gn_add, <-!p16_g16 by (done || lia). unfold p32, g32.
  replace (o + 2)%nat with (S (S o)) by lia. pose proof (g16_range b o Hb).
  rewrite p16_high. do 2 f_equal. zdiv.
Qed.

Lemma g8_drop b k o : g8 (drop k b) o = g8 b (k + o).
Proof. unfold g8. by rewrite !nth_lookup, lookup_drop. Qed.
Lemma g16_drop b k o : g16 (drop k b) o = g16 b (k + o).
Proof. unfold g16. rewrite !g8_drop. by replace (k + S o)%nat with (S (k + o)) by lia. Qed.
Lemma g32_drop b k o : g32 (drop k b) o = g32 b (k + o).
Proof. unfold g32. rewrite !g16_drop. by replace (k + S (S o))%nat with (S (S (k + o))) by lia. Qed.
Lemma gn_drop b k o n : gn (drop k b) o n = gn b (k + o) n.
Proof. unfold gn. by rewrite drop_drop. Qed.

(** Consecutive parts of a frame. *)
Lemma gn_join b o n p m : p = (o + n)%nat → gn b o n ++ gn b p m = gn b o (n + m).
Proof. intros ->. by rewrite gn_add. Qed.

Lemma g8_gn b o : (o < length b)%nat → [g8 b o] = gn b o 1.
Proof. intros Ho. by rewrite gn_S, gn_0. Qed.

(** ** MAC addresses *)

Lemma hex_digit_value v : 0 ≤ v < 16 → hex_value (hex_digit v) = Some v ∧ hex_digit v ≠ 58.
Proof.
  intros Hv. assert (v ∈ seqZ 0 16) as Hin by (apply elem_of_seqZ; lia). revert Hin.
  apply (Forall_forall (λ v, hex_value (hex_digit v) = Some v ∧ hex_digit v ≠ 58)).
  apply (bool_decide_eq_true_1 _). by vm_compute.
Qed.

Lemma hex2_value m : byte m → Z.lor (u8 (Z.shiftl (Z.lor (u8 (Z.shiftl 0 4)) (m / 16)) 4)) (m mod 16) = m.
Proof.
  intros Hm. assert (m ∈ seqZ 0 256) as Hin by (apply elem_of_seqZ; unfold byte in Hm; lia). revert Hin.
  apply (Forall_forall (λ m, Z.lor (u8 (Z.shiftl (Z.lor (u8 (Z.shiftl 0 4)) (m / 16)) 4)) (m mod 16) = m)).
  apply (bool_decide_eq_true_1 _). by vm_compute.
Qed.

Lemma str2mac_hex2 m str mac i : byte m → str2mac_loop (hex2 m ++ str) mac 0 i = str2mac_loop str mac m i.
Proof.
  intros Hm. unfold byte in Hm. destruct (hex_digit_value (m / 16)) as [H1 N1]; [zdiv|].
  destruct (hex_digit_value (m mod 16)) as [H2 N2]; [zdiv|]. cbn [hex2 app str2mac_loop].
  rewrite (proj2 (Z.eqb_neq _ _) N1), H1, (proj2 (Z.eqb_neq _ _) N2), H2. by rewrite hex2_value.
Qed.

Lemma str2mac_colon m str mac i : byte m →
  str2mac_loop (hex2 m ++ 58 :: str) mac 0 i = (mac ← aset mac i m; str2mac_loop str mac 0 (i + 1)).
Proof. intros Hm. by rewrite str2mac_hex2. Qed.
Lemma str2mac_end m str mac i : byte m → str2mac_loop (hex2 m ++ 0 :: str) mac 0 i = aset mac i m.
Proof. intros Hm. by rewrite str2mac_hex2. Qed.

(** [str2mac] reads back what [print_mac] prints. *)
Theorem str2mac_print_mac mac old rest : length mac = 6%nat → Forall byte mac → length old = 6%nat →
  ∃ out, print_mac mac = Ok out ∧ length out = 17%nat ∧ str2mac old (out ++ 0 :: rest) = Ok mac.
Proof.
  intros Hl Hb Ho. destruct mac as [|a [|b [|c [|d [|e [|f [|]]]]]]]; try done.
  destruct old as [|o0 [|o1 [|o2 [|o3 [|o4 [|o5 [|]]]]]]]; try done.
  repeat match goal with H : Forall byte (_ :: _) |- _ => apply Forall_cons in H as [? H] end.
  eexists. split; [reflexivity|]. split; [reflexivity|]. unfold str2mac.
  rewrite <-!app_assoc, app_nil_l. cbn [app].
  rewrite str2mac_colon by done. change (aset _ _ a) with (Ok [a; o1; o2; o3; o4; o5]). rewrite ok_bind.
  rewrite str2mac_colon by done. change (aset _ _ b) with (Ok [a; b; o2; o3; o4; o5]). rewrite ok_bind.
  rewrite str2mac_colon by done. change (aset _ _ c) with (Ok [a; b; c; o3; o4; o5]). rewrite ok_bind.
  rewrite str2mac_colon by done. change (aset _ _ d) with (Ok [a; b; c; d; o4; o5]). rewrite ok_bind.
  rewrite str2mac_colon by done. change (aset _ _ e) with (Ok [a; b; c; d; e; o5]). rewrite ok_bind.
  rewrite str2mac_end by done. reflexivity.
Qed.

Lemma own_mac_value old : length old = 6%nat → str2mac old own_mac = Ok [0; 80; 86; 51; 28; 202].
Proof. by destruct old as [|o0 [|o1 [|o2 [|o3 [|o4 [|o5 [|]]]]]]]. Qed.

(** ** The checksum *)

(** The sum of the 16-bit words of a string of even length. *)
Fixpoint wsum (l : list Z) : Z :=
  match l with lo :: hi :: l => lo + 256 * hi + wsum l | _ => 0 end.

(** The two folds and the complement. *)
Definition fold16 (s : Z) : Z :=
  let s := Z.shiftr s 16 + Z.land s 65535 in u16 (Z.lnot (s + Z.shiftr s 16)).

Lemma fold16_spec s : 0 ≤ s < 2 ^ 31 → let r := 65535 - fold16 s in
  0 ≤ r ≤ 65535 ∧ (s - r) mod 65535 = 0 ∧ (r = 0 ↔ s = 0).
Proof.
  intros Hs. assert (Z.land s 65535 = s mod 65536) as El by exact (land_mask s 16 ltac:(done)).
  assert (∀ x, Z.lnot x = - x - 1) as Hn by (intros; unfold Z.lnot; lia).
  unfold fold16, u16. cbn zeta. rewrite Hn, !El, !shiftr_div by done. change (2 ^ 16) with 65536.
  assert (s = 65536 * (s / 65536) + s mod 65536 ∧ 0 ≤ s mod 65536 < 65536) as [Es Hm] by zdiv.
  set (q := s / 65536) in *. set (m := s mod 65536) in *. clearbody q m. set (t := q + m) in *.
  assert (65536 * (t / 65536) ≤ t < 65536 * (t / 65536) + 65536) as Hc by zdiv. set (c := t / 65536) in *. clearbody c.
  assert (c = 0 ∨ c = 1) as [-> | ->] by lia.
  - replace (- (t + 0) - 1) with (65535 - t + (-1) * 65536) by lia. rewrite Z.mod_add, Z.mod_small by lia.
    split; [lia|]. split; [|lia]. replace (s - _) with (q * 65535) by lia. by apply Z.mod_mul.
  - replace (- (t + 1) - 1) with (131070 - t + (-2) * 65536) by lia. rewrite Z.mod_add, Z.mod_small by lia.
    split; [lia|]. split; [|lia]. replace (s - _) with ((q + 1) * 65535) by lia. by apply Z.mod_mul.
Qed.

(** A word equal to the checksum makes the sum a multiple of 65535: its checksum is zero. *)
Lemma fold16_self s : 0 ≤ s → s + 65535 < 2 ^ 31 → 0 ≤ fold16 s < 65536 ∧ fold16 (s + fold16 s) = 0.
Proof.
  intros H0 Hs. destruct (fold16_spec s) as (Hr & Hd & Hz); [lia|]. set (c := fold16 s) in *.
  destruct (fold16_spec (s + c)) as (Hr' & Hd' & Hz'); [lia|]. set (c' := fold16 (s + c)) in *. clearbody c c'. split; [lia|].
  apply Z.mod_divide in Hd as [k Hk]; [|done]. apply Z.mod_divide in Hd' as [k' Hk']; [|done].
  assert (c' = (k' - k) * 65535) as E by lia. assert (k' - k = 0 ∨ k' - k = 1) as [E'|E'] by lia; rewrite E' in E; [lia|].
  assert (s + c = 0) by (apply Hz'; lia). assert (s = 0) as Es by lia. apply Hz in Es. lia.
Qed.

Lemma wsum_app a b : Nat.Even (length a) → wsum (a ++ b) = wsum a + wsum b.
Proof.
  intros [k Hk]. revert a Hk. induction k as [|k IH]; intros a Hk.
  - by destruct a.
  - destruct a as [|x [|y a]]; simpl in Hk; [lia|lia|]. simpl. rewrite IH by lia. lia.
Qed.

Lemma wsum_bounds k : ∀ a, Forall byte a → length a = (2 * k)%nat → 0 ≤ wsum a ≤ 65535 * Z.of_nat k.
Proof.
  induction k as [|k IH]; intros a Ha Hk; [by destruct a|]. destruct a as [|x [|y a]]; simpl in Hk; [lia|lia|].
  apply Forall_cons in Ha as [Hx Ha]. apply Forall_cons in Ha as [Hy Ha]. unfold byte in Hx, Hy.
  specialize (IH a Ha ltac:(lia)). cbn [wsum]. lia.
Qed.

Lemma cksum_loop_spec k : ∀ pre b sum fuel, Forall byte b → length b = (2 * k)%nat → 0 ≤ sum →
  sum + 65535 * Z.of_nat k < 2 ^ 31 → (k < fuel)%nat →
  cksum_loop fuel (pre ++ b) (Z.of_nat (length pre)) (2 * Z.of_nat k) sum =
    Ok (Z.of_nat (length pre + 2 * k), 0, sum + wsum b).
Proof.
  induction k as [|k IH]; intros pre b sum [|fuel] Hb Hk H0 Hs Hf; try lia; cbn [cksum_loop].
  - destruct b; [|done]. simpl. do 3 f_equal; lia.
  - destruct b as [|x [|y b]]; simpl in Hk; [lia|lia|]. apply Forall_cons in Hb as [Hx Hb]. apply Forall_cons in Hb as [Hy Hb].
    unfold byte in Hx, Hy. rewrite (proj2 (Z.ltb_lt _ _)), (aget_mid pre _ _ (Z.of_nat (length pre)) eq_refl), ok_bind by lia.
    replace (pre ++ x :: y :: b) with ((pre ++ [x]) ++ y :: b) by by rewrite <-app_assoc.
    rewrite (aget_mid (pre ++ [x]) _ _ (Z.of_nat (length pre) + 1)), ok_bind by (rewrite length_app; simpl; lia). unfold int_add.
    rewrite (proj2 (Z.ltb_lt _ _)), ok_bind by lia. specialize (IH (pre ++ [x; y]) b (sum + (x + 256 * y)) fuel Hb).
    rewrite length_app, <-!app_assoc in IH. cbn [app length] in IH. rewrite <-app_assoc. cbn [app].
    replace (Z.of_nat (length pre) + 2) with (Z.of_nat (length pre + 2)) by lia.
    replace (2 * Z.of_nat (S k) - 2) with (2 * Z.of_nat k) by lia. rewrite IH by lia. cbn [wsum].
    do 2 f_equal; [f_equal; lia|lia].
Qed.

Lemma in_cksum_even b : Forall byte b → Nat.Even (length b) → Z.of_nat (length b) ≤ 65536 →
  in_cksum b (Z.of_nat (length b)) = Ok (fold16 (wsum b)).
Proof.
  intros Hb [k Hk] Hl. unfold in_cksum. rewrite Hk, Nat2Z.id. replace (Z.of_nat (2 * k)) with (2 * Z.of_nat k) by lia.
  rewrite (cksum_loop_spec k [] b 0) by (done || lia). rewrite ok_bind. change (0 =? 1) with false. cbn iota.
  by rewrite ok_bind.
Qed.

Lemma wsum_field a c d : Nat.Even (length a) → 0 ≤ c < 65536 → wsum (a ++ p16 c ++ d) = wsum (a ++ [0; 0] ++ d) + c.
Proof.
  intros Ha Hc. rewrite (wsum_app a (p16 c ++ d)), (wsum_app a ([0; 0] ++ d)) by done. unfold p16. cbn [wsum app].
  rewrite (Z.mod_small (c / 256) 256) by zdiv. pose proof (Z.div_mod c 256). lia.
Qed.

Lemma p16_byte v : Forall byte (p16 v).
Proof. unfold p16, byte. repeat constructor; zdiv. Qed.

Lemma cksum_field a d : Forall byte a → Forall byte d → Nat.Even (length a) → Nat.Even (length d) →
  Z.of_nat (length a + 2 + length d) ≤ 65536 → let n := Z.of_nat (length a + 2 + length d) in
  ∃ c, in_cksum (a ++ [0; 0] ++ d) n = Ok c ∧ 0 ≤ c < 65536 ∧ in_cksum (a ++ p16 c ++ d) n = Ok 0.
Proof.
  intros Ha Hd [ka Ea] [kd Ed] Hn n.
  assert (∀ x, byte x.1 → byte x.2 → Forall byte (a ++ [x.1; x.2] ++ d)) as Hb.
  { intros [x y] Hx Hy. apply Forall_app. split; [done|]. by apply Forall_cons; split; [|apply Forall_cons; split]. }
  assert (∀ x y : Z, length (a ++ [x; y] ++ d) = (2 * (ka + 1 + kd))%nat) as Hl by (intros; rewrite !length_app; simpl; lia).
  assert (∀ x y, byte x → byte y → in_cksum (a ++ [x; y] ++ d) n = Ok (fold16 (wsum (a ++ [x; y] ++ d)))) as Hc.
  { intros x y Hx Hy. subst n. rewrite <-in_cksum_even; [f_equal; rewrite Hl; lia|exact (Hb (x, y) Hx Hy)| |rewrite Hl; lia].
    exists (ka + 1 + kd)%nat. apply Hl. }
  exists (fold16 (wsum (a ++ [0; 0] ++ d))). rewrite Hc by done. split; [done|].
  pose proof (wsum_bounds ka a Ha Ea). pose proof (wsum_bounds kd d Hd Ed).
  assert (wsum (a ++ [0; 0] ++ d) = wsum a + wsum d) as Ew by (rewrite wsum_app by (by exists ka); simpl; lia).
  destruct (fold16_self (wsum (a ++ [0; 0] ++ d))) as [Hr Hz]; [lia|lia|]. split; [done|].
  pose proof (p16_byte (fold16 (wsum (a ++ [0; 0] ++ d)))) as Hp.
  pose proof (wsum_field a (fold16 (wsum (a ++ [0; 0] ++ d))) d ltac:(by exists ka) Hr) as Hw. unfold p16 in *. apply Forall_cons in Hp as [Hp1 Hp].
  apply Forall_cons in Hp as [Hp2 _]. by rewrite Hc, Hw, Hz by done.
Qed.

(** ** Structures and the bytes they come from *)

Lemma whole_ok b n : (n ≤ length b)%nat → whole b n = Ok tt.
Proof. intros H. unfold whole. by rewrite (proj2 (Nat.leb_le _ _)). Qed.

Lemma gn_join_app b o n p m r : p = (o + n)%nat → gn b o n ++ gn b p m ++ r = gn b o (n + m) ++ r.
Proof. intros ->. by rewrite gn_add, <-app_assoc. Qed.

(** Joins neighbouring parts of a frame. *)
Ltac join := repeat (rewrite gn_join_app by lia); repeat (rewrite gn_join by lia); cbn [Nat.add].

Lemma put_get_ip b o : Forall byte b → (o + 20 ≤ length b)%nat →
  put_ip (swap_ip (get_ip (drop o b))) = gn b o 12 ++ gn b (o + 16) 4 ++ gn b (o + 12) 4.
Proof.
  intros Hb Ho. unfold put_ip, swap_ip, get_ip. cbn [version tos tot_len id flag_off ttl protocol ip_check saddr daddr].
  rewrite ?g8_drop, ?g16_drop, ?g32_drop, !p16_g16, !p32_g32 by (done || lia).
  assert (∀ i, (o + i < length b)%nat → g8 b (o + i) :: [] = gn b (o + i) 1) as H1 by (intros; apply g8_gn; lia).
  assert (∀ x y : Z, [x; y] = [x] ++ [y]) as H2 by done. rewrite !H2, !H1 by lia. rewrite <-!app_assoc.
  join. by rewrite Nat.add_0_r.
Qed.

Lemma put_icmp_parts b o t c k : Forall byte b → (o + 40 ≤ length b)%nat →
  put_icmp (Icmp t c k (g16 b (o + 4)) (g16 b (o + 6)) (gn b (o + 8) 32)) = [t; c] ++ p16 k ++ gn b (o + 4) 36.
Proof.
  intros Hb Ho. unfold put_icmp. cbn [type code icmp_check identifier seq data]. rewrite !p16_g16 by (done || lia).
  by join.
Qed.

Lemma swap_eth b : Forall byte b → (14 ≤ length b)%nat →
  put_eth (Eth (gn b 6 6) (gn b 0 6) (g16 b 12)) = gn b 6 6 ++ gn b 0 6 ++ gn b 12 2.
Proof. intros Hb Ho. unfold put_eth. cbn [h_dest h_source h_proto]. by rewrite p16_g16 by (done || lia). Qed.

Lemma proto_bytes b : Forall byte b → ∀ hi lo, byte hi → byte lo →
  (ntohs (g16 b 12) = hi * 256 + lo ↔ g8 b 12 = hi ∧ g8 b 13 = lo).
Proof.
  intros Hb hi lo Hhi Hlo. pose proof (g8_byte b 12 Hb). pose proof (g8_byte b 13 Hb). unfold byte, ntohs, g16 in *.
  split; [intros; split; zdiv|intros [-> ->]; zdiv].
Qed.

Lemma aget_g8 b i : (Z.to_nat i < length b)%nat → 0 ≤ i → aget b i = Ok (g8 b (Z.to_nat i)).
Proof.
  intros Hi H0. unfold g8. rewrite nth_lookup. destruct (b !! Z.to_nat i) as [x|] eqn:E; [|apply lookup_ge_None in E; lia].
  rewrite <-(Z2Nat.id i H0) at 1. by rewrite (aget_ok _ _ _ E).
Qed.

(** ** Theorems on frames *)

(** An echo request to which an answer is due: an Ethernet frame for IP, ICMP, type 8. *)
Definition is_echo (b : list Z) : Prop := g8 b 12 = 8 ∧ g8 b 13 = 0 ∧ g8 b 23 = PROTO_ICMP ∧ g8 b 34 = 8.

(** C39: The answer to an echo request of at least 74 bytes, which are those of 32 bytes of data, has the Ethernet and IP
    addresses exchanged, type and code 0, the identifier, the sequence number and the first 32 bytes of the data of the
    request and no more of them, and a checksum with which its ICMP message sums to zero. *)
Theorem echo_reply b : Forall byte b → (74 ≤ length b)%nat → is_echo b → ∃ c out,
  handle_frame b = Ok (b, Some out) ∧
  out = gn b 6 6 ++ gn b 0 6 ++ gn b 12 2 ++ gn b 14 12 ++ gn b 30 4 ++ gn b 26 4 ++ [0; 0] ++ p16 c ++ gn b 38 36 ∧
  in_cksum (drop 34 out) 40 = Ok 0.
Proof.
  intros Hb Hl (H12 & H13 & H23 & H34).
  assert (length (gn b 38 36) = 36%nat) as Hd by (apply gn_length; lia).
  destruct (cksum_field [0; 0] (gn b 38 36)) as (c & Hc & Hr & Hz); [by repeat constructor|by apply gn_byte|by exists 1%nat| |rewrite Hd; simpl; lia|].
  { rewrite Hd. by exists 18%nat. }
  rewrite Hd in Hc, Hz. exists c. eexists. split; [|split; [reflexivity|]].
  - unfold handle_frame. rewrite (whole_ok b 14), ok_bind by lia.
    rewrite (proj2 (proto_bytes b Hb 8 0 ltac:(done) ltac:(done))) by done. change (8 * 256 + 0 =? PROTO_IP) with true. cbn iota.
    rewrite (aget_g8 b 23), ok_bind by (simpl; lia). change (Z.to_nat 23) with 23%nat. rewrite H23.
    change (PROTO_ICMP =? PROTO_UDP) with false. change (PROTO_ICMP =? PROTO_ICMP) with true. cbn iota.
    rewrite (aget_g8 b 34), ok_bind by (simpl; lia). change (Z.to_nat 34) with 34%nat. rewrite H34.
    rewrite (whole_ok b 38), ok_bind by lia. change (8 =? 8) with true. cbn iota. rewrite (whole_ok b 74), ok_bind by lia.
    unfold echo_icmp_pkt, get_icmppkt, get_icmp, get_eth. cbn [icmp icmp_eh icmp_ip identifier seq data h_dest h_source h_proto].
    rewrite !g16_drop, gn_drop. cbn [Nat.add].
    pose proof (put_icmp_parts b 34 0 0) as Hp. cbn [Nat.add] in Hp. rewrite (Hp 0) by (done || lia).
    change (p16 0) with [0; 0]. change 40 with (Z.of_nat (length [0; 0] + 2 + 36)). rewrite Hc, ok_bind, ok_bind.
    unfold put_icmppkt. cbn [icmp_eh icmp_ip icmp]. rewrite swap_eth, put_get_ip, Hp by (done || lia).
    cbn [Nat.add]. by rewrite <-!app_assoc.
  - rewrite !app_assoc. rewrite <-(app_assoc _ [0; 0]), <-(app_assoc _ ([0; 0] ++ _)), <-(app_assoc [0; 0]).
    rewrite drop_app_length'; [exact Hz|]. rewrite !length_app, !gn_length by lia. done.
Qed.

Definition own_mac_bytes : list Z := [0; 80; 86; 51; 28; 202].

(** An ARP frame for the stack's address is answered with its own hardware address, as a
    reply, to the sender; a frame for another address is not. *)
Theorem arp_reply b : Forall byte b → (42 ≤ length b)%nat → g8 b 12 = 8 → g8 b 13 = 6 →
  handle_frame b = Ok (b, if g32 b 38 =? own_ip then
    Some (gn b 6 6 ++ own_mac_bytes ++ gn b 12 2 ++ gn b 14 4 ++ [6; 4; 0; 2] ++ own_mac_bytes ++ gn b 38 4 ++
          gn b 22 6 ++ gn b 28 4) else None).
Proof.
  intros Hb Hl H12 H13. unfold handle_frame. rewrite (whole_ok b 14), ok_bind by lia.
  rewrite (proj2 (proto_bytes b Hb 8 6 ltac:(done) ltac:(done))) by done. change (8 * 256 + 6 =? PROTO_IP) with false.
  change (8 * 256 + 6 =? PROTO_ARP) with true. cbn iota. rewrite (whole_ok b 42), ok_bind by lia.
  unfold get_arppkt, get_arp. cbn [arp dip]. rewrite !g32_drop. cbn [Nat.add]. destruct (g32 b 38 =? own_ip); [|done].
  unfold echo_arp_pkt, get_eth. cbn [arp arp_eh h_source h_dest h_proto smac sip dip h_type ar_proto].
  rewrite !gn_drop, !g16_drop, ?g32_drop. cbn [Nat.add]. rewrite (own_mac_value (gn b 6 6)), ok_bind by (apply gn_length; lia).
  rewrite (own_mac_value (gn b 22 6)), !ok_bind by (apply gn_length; lia).
  unfold put_arppkt, put_eth, put_arp. cbn [arp arp_eh h_source h_dest h_proto smac sip dmac dip h_type ar_proto h_addrlen protolen oper].
  rewrite !p16_g16, !p32_g32 by (done || lia). change (p16 (htons 2)) with [0; 2]. unfold own_mac_bytes.
  do 3 f_equal. rewrite <-!app_assoc. cbn [app]. by rewrite (gn_join_app b 14 2 16 2) by lia.
Qed.

(** A UDP frame: the length in its header, which the sender chooses, is not compared with that of
    the frame.  Past the end of the slot the terminator is stored out of bounds; below 8 it falls
    into the UDP header, before that is echoed.  The answer is the headers alone, 42 bytes, though they
    still announce the body. *)
Theorem udp_length_trusted b : Forall byte b → (42 ≤ length b)%nat → g8 b 12 = 8 → g8 b 13 = 0 → g8 b 23 = PROTO_UDP →
  let n := 34 + (g8 b 38 * 256 + g8 b 39) in
  (Z.of_nat (length b) ≤ n → handle_frame b = Err OutOfBounds) ∧
  (n < Z.of_nat (length b) → ∃ b', b' = <[Z.to_nat n := 0]> b ∧
    handle_frame b = Ok (b', Some (gn b' 6 6 ++ gn b' 0 6 ++ gn b' 12 14 ++ gn b' 30 4 ++ gn b' 26 4 ++
      gn b' 36 2 ++ gn b' 34 2 ++ gn b' 38 4))).
Proof.
  intros Hb Hl H12 H13 H23 n.
  assert (ntohs (g16 b 38) = g8 b 38 * 256 + g8 b 39) as Hn.
  { pose proof (g8_byte b 38 Hb). pose proof (g8_byte b 39 Hb). unfold ntohs, g16, byte in *. zdiv. }
  assert (0 ≤ n) as H0 by (pose proof (g8_byte b 38 Hb); pose proof (g8_byte b 39 Hb); unfold byte in *; lia).
  assert (handle_frame b = (stream ← aset b n 0; Ok (stream, Some (put_udppkt (echo_udp_pkt (get_udppkt stream)))))) as ->.
  { unfold handle_frame. rewrite (whole_ok b 14), ok_bind by lia.
    rewrite (proj2 (proto_bytes b Hb 8 0 ltac:(done) ltac:(done))) by done. change (8 * 256 + 0 =? PROTO_IP) with true. cbn iota.
    rewrite (aget_g8 b 23), ok_bind by (simpl; lia). change (Z.to_nat 23) with 23%nat. rewrite H23.
    change (PROTO_UDP =? PROTO_UDP) with true. cbn iota. rewrite (whole_ok b 42), ok_bind by lia.
    change (len (udp (get_udppkt b))) with (g16 (drop 34 b) 4). rewrite g16_drop. cbn [Nat.add]. rewrite Hn.
    by replace (42 + (g8 b 38 * 256 + g8 b 39 - 8)) with n by lia. }
  split; intros Hlt; [by rewrite aset_past by lia|]. rewrite <-(Z2Nat.id n H0), aset_nat, ok_bind by lia.
  rewrite Nat2Z.id. eexists. split; [reflexivity|]. set (b' := <[Z.to_nat n := 0]> b).
  assert (Forall byte b') as Hb' by (by apply Forall_insert).
  assert (length b' = length b) as Hl' by apply length_insert. clearbody b'.
  unfold put_udppkt, echo_udp_pkt, get_udppkt, put_udp, get_udp, get_eth.
  cbn [udp udp_eh udp_ip source dest len udp_check h_source h_dest h_proto]. rewrite !g16_drop. cbn [Nat.add].
  rewrite swap_eth, put_get_ip, !p16_g16 by (done || lia). cbn [Nat.add]. rewrite <-!app_assoc.
  by rewrite (gn_join_app b' 12 2 14 12), (gn_join b' 38 2 40 2) by lia.
Qed.

(** ** Concrete frames *)

Definition ex_eth (proto : list Z) : list Z := own_mac_bytes ++ [2; 0; 0; 0; 0; 1] ++ proto.
Definition ex_ip (proto : Z) : list Z := [69; 0; 0; 60; 0; 1; 0; 0; 64; proto; 0; 0; 10; 0; 0; 1; 192; 168; 0; 123].
Definition ex_ping : list Z := ex_eth [8; 0] ++ ex_ip 1 ++ [8; 0; 77; 90; 0; 1; 0; 2] ++ seqZ 97 32.
Definition ex_arp : list Z := ex_eth [8; 6] ++
  [0; 1; 8; 0; 6; 4; 0; 1; 2; 0; 0; 0; 0; 1; 10; 0; 0; 1; 0; 0; 0; 0; 0; 0; 192; 168; 0; 123].
(** A datagram in a slot of 2048 bytes, whose header gives the length [hi * 256 + lo]. *)
Definition ex_udp (hi lo : Z) : list Z :=
  ex_eth [8; 0] ++ ex_ip 17 ++ [0; 53; 0; 80; hi; lo; 0; 0] ++ replicate 2006 65.

Example str2mac_print_mac_witness : ∃ out, print_mac own_mac_bytes = Ok out ∧ length out = 17%nat ∧
  str2mac (replicate 6 9) (out ++ 0 :: []) = Ok own_mac_bytes.
Proof. apply (str2mac_print_mac own_mac_bytes (replicate 6 9) []); [done|by apply (bool_decide_eq_true_1 _)|done]. Defined.

Example echo_reply_witness : ∃ c out, handle_frame ex_ping = Ok (ex_ping, Some out) ∧
  out = gn ex_ping 6 6 ++ gn ex_ping 0 6 ++ gn ex_ping 12 2 ++ gn ex_ping 14 12 ++ gn ex_ping 30 4 ++ gn ex_ping 26 4 ++
    [0; 0] ++ p16 c ++ gn ex_ping 38 36 ∧ in_cksum (drop 34 out) 40 = Ok 0.
Proof.
  apply (echo_reply ex_ping); [apply (bool_decide_eq_true_1 _); by vm_compute|apply Nat.leb_le; by vm_compute|by repeat split].
Defined.

Example arp_reply_witness : handle_frame ex_arp = Ok (ex_arp, if g32 ex_arp 38 =? own_ip then
  Some (gn ex_arp 6 6 ++ own_mac_bytes ++ gn ex_arp 12 2 ++ gn ex_arp 14 4 ++ [6; 4; 0; 2] ++ own_mac_bytes ++
        gn ex_arp 38 4 ++ gn ex_arp 22 6 ++ gn ex_arp 28 4) else None).
Proof.
  apply (arp_reply ex_arp); [apply (bool_decide_eq_true_1 _); by vm_compute|apply Nat.leb_le; by vm_compute|done|done].
Defined.

Example udp_length_trusted_witness : handle_frame (ex_udp 8 0) = Err OutOfBounds.
Proof.
  apply (udp_length_trusted (ex_udp 8 0)); [apply (bool_decide_eq_true_1 _); by vm_compute|apply Nat.leb_le; by vm_compute|done..|].
  by apply Z.leb_le; vm_compute.
Defined.

End NetStack.
