(* ===== verification/SingleWheel.v ===== *)
(** * The heartbeat wheel of 7.2timers/timers/single_tw.c

    A wheel of 16 slots holds one timer for every heartbeat of a connection; a
    connection counts its timers and is cut when the last one goes off.  The two static arrays
    are maps in which an absent cell holds zeros; the list of a slot, chained from its head to its tail, is a list of
    indices of timer nodes. *)

From S2P Require Import Prelude.

Module SingleWheel.

(** ** Data *)

Definition MAX_TIMER : Z := 131071.   (* (1 << 17) - 1 *)
Definition MAX_CONN : Z := 65535.     (* (1 << 16) - 1 *)
Definition TW_SIZE : nat := 16.
Definition TW_MASK : Z := 15.
Definition EXPIRE : Z := 10.

(* src: 7.2timers/timers/single_tw.c:18-21 conn_node *)
Record conn_node : Type := Conn { used : Z; id : Z }.
(* src: 7.2timers/timers/single_tw.c:23-27 timer_node *)
Record timer_node : Type := Timer { node : Z; idx : Z }.

(** The static variables and the wheel of [main]. *)
(* src: 7.2timers/timers/single_tw.c:29-32 timer_nodes *)
Record state : Type := State {
  timer_nodes : gmap Z timer_node;
  conn_nodes : gmap Z conn_node;
  t_iter : Z;
  c_iter : Z;
  tick : Z;
  tw : list (list Z)
}.

(** Cells of the two arrays, which have [MAX_TIMER] and [MAX_CONN] of them. *)
Definition tcell (T : gmap Z timer_node) (i : Z) : timer_node := default (Timer 0 0) (T !! i).
Definition ccell (C : gmap Z conn_node) (i : Z) : conn_node := default (Conn 0 0) (C !! i).
Definition rd_timer (T : gmap Z timer_node) (i : Z) : res timer_node :=
  if (0 <=? i) && (i <? MAX_TIMER) then Ok (tcell T i) else Err OutOfBounds.
Definition rd_conn (C : gmap Z conn_node) (i : Z) : res conn_node :=
  if (0 <=? i) && (i <? MAX_CONN) then Ok (ccell C i) else Err OutOfBounds.

(** ** Operations *)

(** [while (timer_nodes[t_iter & MAX_TIMER].idx > 0) t_iter++;] *)
Fixpoint skip_timers (fuel : nat) (T : gmap Z timer_node) (t : Z) : res Z :=
  match fuel with
  | O => Err OutOfFuel
  | S fuel => n ← rd_timer T (Z.land t MAX_TIMER); if 0 <? idx n then skip_timers fuel T (u32 (t + 1)) else Ok t
  end.

(** The index of the node. *)
(* src: 7.2timers/timers/single_tw.c:34-41 get_timer_node *)
Definition get_timer_node (s : state) : res (Z * state) :=
  t ← skip_timers (S (size (timer_nodes s))) (timer_nodes s) (u32 (t_iter s + 1));
  n ← rd_timer (timer_nodes s) t;
  Ok (t, State (<[t := Timer (node n) t]> (timer_nodes s)) (conn_nodes s) t (c_iter s) (tick s) (tw s)).

Fixpoint skip_conns (fuel : nat) (C : gmap Z conn_node) (c : Z) : res Z :=
  match fuel with
  | O => Err OutOfFuel
  | S fuel => n ← rd_conn C (Z.land c MAX_CONN); if 0 <? used n then skip_conns fuel C (u32 (c + 1)) else Ok c
  end.

(* src: 7.2timers/timers/single_tw.c:43-49 get_conn_node *)
Definition get_conn_node (s : state) : res (Z * state) :=
  c ← skip_conns (S (size (conn_nodes s))) (conn_nodes s) (u32 (c_iter s + 1));
  _ ← rd_conn (conn_nodes s) c;
  Ok (c, State (timer_nodes s) (conn_nodes s) (t_iter s) c (tick s) (tw s)).

(* src: 7.2timers/timers/single_tw.c:61-69 add_conn *)
Definition add_conn (s : state) (cnode delay : Z) : res state :=
  let slot := Z.land (u32 (tick s + EXPIRE + delay)) TW_MASK in
  '(t, s) ← get_timer_node s;
  c ← rd_conn (conn_nodes s) cnode;
  let C := <[cnode := Conn (u8 (used c + 1)) (id c)]> (conn_nodes s) in
  let T := <[t := Timer cnode (idx (tcell (timer_nodes s) t))]> (timer_nodes s) in
  list ← aget (tw s) slot;
  w ← aset (tw s) slot (list ++ [t]);
  Ok (State T C (t_iter s) (c_iter s) (tick s) w).

(** What is printed: the connection (its cell and descriptor) is cut, or counted. *)
Inductive event : Type := Kill (cnode fd : Z) | Used (cnode fd u : Z).

(** The loop over a slot. *)
Fixpoint check_loop (T : gmap Z timer_node) (C : gmap Z conn_node) (l : list Z)
  : res (gmap Z timer_node * gmap Z conn_node * list event) :=
  match l with
  | [] => Ok (T, C, [])
  | temp :: l =>
      n ← rd_timer T temp;
      cn ← rd_conn C (node n);
      let u := u8 (used cn - 1) in
      '(T, C, ev) ← check_loop (<[temp := Timer (node n) 0]> T) (<[node n := Conn u (id cn)]> C) l;
      Ok (T, C, (if u =? 0 then Kill (node n) (id cn) else Used (node n) (id cn) u) :: ev)
  end.

(* src: 7.2timers/timers/single_tw.c:76-95 check_conn *)
Definition check_conn (s : state) : res (state * list event) :=
  let slot := Z.land (tick s) TW_MASK in
  list ← aget (tw s) slot;
  '(T, C, ev) ← check_loop (timer_nodes s) (conn_nodes s) list;
  w ← aset (tw s) slot [];
  Ok (State T C (t_iter s) (c_iter s) (u32 (tick s + 1)) w, ev).

(** The state of [main] before its first connection. *)
(* src: 7.2timers/timers/single_tw.c:113-121 main *)
Definition init : state := State ∅ ∅ 0 0 0 (replicate TW_SIZE []).

(** ** Counting timers *)

Definition owner (T : gmap Z timer_node) (i : Z) : Z := node (tcell T i).

(** The timers of connection [c] among [l], and all those pending. *)
Definition cnt (T : gmap Z timer_node) (c : Z) (l : list Z) : Z := Z.of_nat (length (filter (λ i, owner T i = c) l)).
Definition pending (s : state) (c : Z) : Z := cnt (timer_nodes s) c (concat (tw s)).

(** Every listed node is in use, once; every connection counts its timers, in 8 bits. *)
Record wheel_ok (s : state) : Prop := WheelOk {
  wo_size : length (tw s) = TW_SIZE;
  wo_nodup : NoDup (concat (tw s));
  wo_nodes i : i ∈ concat (tw s) → 0 ≤ i < MAX_TIMER ∧ 0 < idx (tcell (timer_nodes s) i) ∧
    0 ≤ owner (timer_nodes s) i < MAX_CONN;
  wo_used c : used (ccell (conn_nodes s) c) = pending s c mod 256;
  wo_tick : 0 ≤ tick s < 2 ^ 32;
  wo_iter : 0 ≤ t_iter s < MAX_TIMER ∧ ∀ i, t_iter s < i → idx (tcell (timer_nodes s) i) = 0
}.

Lemma cnt_app T c l k : cnt T c (l ++ k) = cnt T c l + cnt T c k.
Proof. unfold cnt. rewrite filter_app, length_app. lia. Qed.
Lemma cnt_cons T c i l : cnt T c (i :: l) = (if decide (owner T i = c) then 1 else 0) + cnt T c l.
Proof. unfold cnt. rewrite filter_cons. case_decide; simpl; lia. Qed.
Lemma cnt_nonneg T c l : 0 ≤ cnt T c l.
Proof. unfold cnt. lia. Qed.
Lemma cnt_perm T c l k : l ≡ₚ k → cnt T c l = cnt T c k.
Proof. unfold cnt. intros H. by rewrite H. Qed.
Lemma cnt_ext T T' c l : (∀ i, i ∈ l → owner T' i = owner T i) → cnt T' c l = cnt T c l.
Proof.
  induction l as [|i l IH]; intros H; [done|]. rewrite !cnt_cons, IH by (intros; apply H; by right). by rewrite H by left.
Qed.

Lemma tcell_insert T i n j : tcell (<[i := n]> T) j = if decide (j = i) then n else tcell T j.
Proof. unfold tcell. case_decide; subst; [by rewrite lookup_insert_eq|by rewrite lookup_insert_ne]. Qed.
Lemma ccell_insert C i n j : ccell (<[i := n]> C) j = if decide (j = i) then n else ccell C j.
Proof. unfold ccell. case_decide; subst; [by rewrite lookup_insert_eq|by rewrite lookup_insert_ne]. Qed.

Lemma rd_timer_ok T i : 0 ≤ i < MAX_TIMER → rd_timer T i = Ok (tcell T i).
Proof. intros Hi. unfold rd_timer. by rewrite (proj2 (Z.leb_le _ _)), (proj2 (Z.ltb_lt _ _)) by lia. Qed.
Lemma rd_conn_ok C i : 0 ≤ i < MAX_CONN → rd_conn C i = Ok (ccell C i).
Proof. intros Hi. unfold rd_conn. by rewrite (proj2 (Z.leb_le _ _)), (proj2 (Z.ltb_lt _ _)) by lia. Qed.

(** How often [c] is cut. *)
Definition killed (e : event) : option Z := match e with Kill c _ => Some c | Used _ _ _ => None end.
Definition kills (c : Z) (ev : list event) : Z := Z.of_nat (length (filter (λ e, killed e = Some c) ev)).

Lemma kills_cons c e ev : kills c (e :: ev) = (if decide (killed e = Some c) then 1 else 0) + kills c ev.
Proof. unfold kills. rewrite filter_cons. case_decide; simpl; lia. Qed.

Lemma u8_pred n : u8 (n mod 256 - 1) = (n - 1) mod 256.
Proof. unfold u8. change (2 ^ 8) with 256. zdiv. Qed.

(** ** One turn of the wheel *)

(** [R] are the timers of the other slots. *)
Lemma check_loop_spec R l : ∀ T C, NoDup l →
  (∀ i, i ∈ l → 0 ≤ i < MAX_TIMER ∧ 0 ≤ owner T i < MAX_CONN) →
  (∀ c, used (ccell C c) = (cnt T c l + cnt T c R) mod 256) → ∃ T' C' ev,
  check_loop T C l = Ok (T', C', ev) ∧ (∀ i, owner T' i = owner T i) ∧
  (∀ i, idx (tcell T' i) = if decide (i ∈ l) then 0 else idx (tcell T i)) ∧
  (∀ c, used (ccell C' c) = cnt T c R mod 256) ∧
  ∀ c, cnt T c l + cnt T c R ≤ 255 → kills c ev = if decide (0 < cnt T c l ∧ cnt T c R = 0) then 1 else 0.
Proof.
  induction l as [|i l IH]; intros T C Hnd Hl Hu.
  - exists T, C, []. split; [done|]. split; [done|]. split; [done|]. split; [exact Hu|]. intros c _. by rewrite decide_False by (intros [? _]; done).
  - apply NoDup_cons in Hnd as [Hi Hnd]. destruct (Hl i ltac:(left)) as [Hr Ho]. cbn [check_loop].
    rewrite rd_timer_ok, ok_bind by done. unfold owner in Ho. rewrite rd_conn_ok, ok_bind by done.
    set (c0 := node (tcell T i)) in *. set (T1 := <[i := Timer c0 0]> T).
    assert (Hown : ∀ j, owner T1 j = owner T j) by (intros j; unfold owner, T1; rewrite tcell_insert; case_decide; by subst).
    assert (Hcnt : ∀ c k, cnt T1 c k = cnt T c k) by (intros; apply cnt_ext; auto).
    pose proof (Hu c0) as Hu0. rewrite cnt_cons, decide_True in Hu0 by done.
    assert (u8 (used (ccell C c0) - 1) = (cnt T c0 l + cnt T c0 R) mod 256) as Eu.
    { rewrite Hu0, u8_pred. f_equal. lia. }
    rewrite Eu. destruct (IH T1 (<[c0 := Conn ((cnt T c0 l + cnt T c0 R) mod 256) (id (ccell C c0))]> C) Hnd)
      as (T' & C' & ev & -> & Hto & Hti & Hcu & Hk).
    + intros j Hj. rewrite Hown. apply Hl. by right.
    + intros c. rewrite ccell_insert, !Hcnt. case_decide as Hc; [by subst|]. rewrite Hu, cnt_cons, decide_False; [done|].
      intros E. apply Hc. by rewrite <-E.
    + rewrite ok_bind. do 3 eexists. split; [reflexivity|]. split; [intros j; by rewrite Hto|]. split; [|split].
      * intros j. rewrite Hti. unfold T1. rewrite tcell_insert. destruct (decide (j ∈ i :: l)) as [[->|Hj]%elem_of_cons|Hj].
        -- rewrite (decide_False (P := i ∈ l)), decide_True by done. done.
        -- by rewrite decide_True.
        -- rewrite !decide_False; [done|intros ->; apply Hj; left|intros ?; apply Hj; by right].
      * intros c. by rewrite Hcu, Hcnt.
      * intros c. rewrite cnt_cons, kills_cons. specialize (Hk c). rewrite !Hcnt in Hk.
        pose proof (cnt_nonneg T c l). pose proof (cnt_nonneg T c R). change (owner T i) with c0.
        destruct (decide (c0 = c)) as [Ec|Ec].
        -- intros Hle. rewrite Ec, Z.mod_small by lia. rewrite Hk by lia. destruct (Z.eqb_spec (cnt T c l + cnt T c R) 0) as [E0|E0]; simpl.
           ++ rewrite (decide_True (P := Some c = Some c)) by done. repeat case_decide; lia.
           ++ repeat case_decide; lia.
        -- intros Hle. rewrite Hk by lia. rewrite decide_False; [repeat case_decide; lia|]. by destruct (_ =? 0); intros [= ?].
Qed.

(** A slot and the rest of the wheel. *)
Lemma concat_slot {A} (ls : list (list A)) k l : ls !! k = Some l → ∀ l',
  concat (<[k := l']> ls) ≡ₚ l' ++ concat (<[k := []]> ls).
Proof.
  intros Hk l'. apply lookup_lt_Some in Hk. rewrite !insert_take_drop, !concat_app by done. simpl.
  by rewrite Permutation_app_swap_app.
Qed.

Lemma slot_range x : (Z.to_nat (Z.land x TW_MASK) < TW_SIZE)%nat ∧ 0 ≤ Z.land x TW_MASK ∧ Z.land x TW_MASK = x mod 16.
Proof.
  assert (Z.land x TW_MASK = x mod 16) as -> by exact (land_mask x 4 ltac:(done)). unfold TW_SIZE. split; [zdiv|split; [zdiv|done]].
Qed.

Lemma slot_get s x : wheel_ok s → ∃ l, tw s !! Z.to_nat (Z.land x TW_MASK) = Some l ∧
  aget (tw s) (Z.land x TW_MASK) = Ok l ∧
  ∀ l', aset (tw s) (Z.land x TW_MASK) l' = Ok (<[Z.to_nat (Z.land x TW_MASK) := l']> (tw s)).
Proof.
  intros HW. destruct (slot_range x) as (Hlt & H0 & _). rewrite <-(wo_size _ HW) in Hlt.
  destruct (lookup_lt_is_Some_2 _ _ Hlt) as [l Hl]. exists l. split; [done|].
  rewrite <-(Z2Nat.id _ H0), Nat2Z.id. split; [by apply aget_ok|]. intros l'. by apply aset_nat.
Qed.

Lemma check_spec s : wheel_ok s → ∃ s' ev l, check_conn s = Ok (s', ev) ∧ wheel_ok s' ∧ tick s' = u32 (tick s + 1) ∧
  tw s !! Z.to_nat (tick s mod 16) = Some l ∧ tw s' = <[Z.to_nat (tick s mod 16) := []]> (tw s) ∧
  (∀ c, pending s c = cnt (timer_nodes s) c l + pending s' c) ∧
  ∀ c, pending s c ≤ 255 → kills c ev = if decide (0 < cnt (timer_nodes s) c l ∧ pending s' c = 0) then 1 else 0.
Proof.
  intros HW. destruct (slot_get s (tick s) HW) as (l & Hl & Hget & Hset). unfold check_conn. rewrite Hget, ok_bind.
  destruct (slot_range (tick s)) as (_ & _ & Em). set (k := Z.to_nat (Z.land (tick s) TW_MASK)) in *.
  set (w := <[k := []]> (tw s)) in *. assert (concat (tw s) ≡ₚ l ++ concat w) as Hp.
  { pose proof (concat_slot _ _ _ Hl l) as Hp. by rewrite list_insert_id in Hp. }
  assert (∀ c, pending s c = cnt (timer_nodes s) c l + cnt (timer_nodes s) c (concat w)) as Hpend.
  { intros c. unfold pending. by rewrite (cnt_perm _ _ _ _ Hp), cnt_app. }
  pose proof (wo_nodup _ HW) as Hnd. rewrite Hp in Hnd. apply NoDup_app in Hnd as (Hndl & Hdis & Hndw).
  destruct (check_loop_spec (concat w) l (timer_nodes s) (conn_nodes s) Hndl) as (T' & C' & ev & -> & Hto & Hti & Hcu & Hk).
  { intros i Hi. destruct (wo_nodes _ HW i) as (? & _ & ?); [rewrite Hp; set_solver|done]. }
  { intros c. rewrite <-Hpend. apply HW. }
  rewrite ok_bind, Hset, ok_bind.
  assert (Hpw : ∀ c, cnt T' c (concat w) = cnt (timer_nodes s) c (concat w)) by (intros; apply cnt_ext; auto).
  eexists _, ev, l. split; [reflexivity|]. rewrite <-Em. fold k w. split; [|split; [done|split; [done|split; [done|split]]]].
  - split; simpl; [by unfold w; rewrite length_insert, (wo_size _ HW)|done| | |apply u32_range|].
    + intros i Hi. destruct (wo_nodes _ HW i) as (Hr & Hx & Ho); [rewrite Hp; set_solver|].
      rewrite Hti, Hto, decide_False; [done|]. intros Hil. by apply (Hdis i).
    + intros c. unfold pending. simpl. by rewrite Hcu, Hpw.
    + destruct (wo_iter _ HW) as [Hit Hfree]. split; [exact Hit|]. intros i Hi. rewrite Hti. case_decide; [done|]. by apply Hfree.
  - intros c. unfold pending at 2. simpl. by rewrite Hpw.
  - intros c Hc. rewrite Hpend in Hc. rewrite (Hk c Hc). unfold pending. simpl. by rewrite Hpw.
Qed.

(** ** A heartbeat *)

Lemma get_timer_spec s : wheel_ok s →
  (t_iter s + 1 < MAX_TIMER → get_timer_node s = Ok (t_iter s + 1, State
    (<[t_iter s + 1 := Timer (owner (timer_nodes s) (t_iter s + 1)) (t_iter s + 1)]> (timer_nodes s))
    (conn_nodes s) (t_iter s + 1) (c_iter s) (tick s) (tw s))) ∧
  (t_iter s + 1 = MAX_TIMER → get_timer_node s = Err OutOfBounds).
Proof.
  intros HW. destruct (wo_iter _ HW) as [Hit Hfree]. unfold MAX_TIMER in *. unfold get_timer_node. cbn [skip_timers].
  rewrite (u32_small (t_iter s + 1)) by lia. assert (Z.land (t_iter s + 1) MAX_TIMER = (t_iter s + 1) mod 131072) as -> by exact (land_mask _ 17 ltac:(done)).
  rewrite Z.mod_small by lia. split; intros Ht.
  - rewrite rd_timer_ok, ok_bind by (unfold MAX_TIMER; lia). rewrite (proj2 (Z.ltb_ge _ _)), ok_bind by (rewrite Hfree; lia).
    by rewrite rd_timer_ok, ok_bind by (unfold MAX_TIMER; lia).
  - rewrite Ht. done.
Qed.

Lemma add_conn_spec s cnode delay : wheel_ok s → 0 ≤ cnode < MAX_CONN → t_iter s + 1 < MAX_TIMER →
  let t := t_iter s + 1 in let k := Z.to_nat (u32 (tick s + EXPIRE + delay) mod 16) in
  ∃ s' l, add_conn s cnode delay = Ok s' ∧ wheel_ok s' ∧ tw s !! k = Some l ∧ tw s' = <[k := l ++ [t]]> (tw s) ∧
    t_iter s' = t ∧ tick s' = tick s ∧ owner (timer_nodes s') t = cnode ∧
    ∀ c, pending s' c = pending s c + (if decide (c = cnode) then 1 else 0).
Proof.
  intros HW Hc Ht t k. destruct (slot_get s (u32 (tick s + EXPIRE + delay)) HW) as (l & Hl & Hget & Hset).
  destruct (slot_range (u32 (tick s + EXPIRE + delay))) as (_ & _ & Em). unfold add_conn.
  rewrite (proj1 (get_timer_spec s HW) Ht), ok_bind. cbn [conn_nodes timer_nodes t_iter c_iter tick tw].
  rewrite rd_conn_ok, ok_bind, Hget, ok_bind, Hset, ok_bind by done. fold t. rewrite Em in *. fold k in Hl |- *.
  set (T' := <[t := _]> (<[t := _]> (timer_nodes s))). destruct (wo_iter _ HW) as [Hit Hfree].
  assert (Hnew : t ∉ concat (tw s)) by (intros Hin; destruct (wo_nodes _ HW t Hin) as (_ & Hx & _); rewrite Hfree in Hx; lia).
  assert (Hcell : ∀ j, tcell T' j = if decide (j = t) then Timer cnode t else tcell (timer_nodes s) j).
  { intros j. unfold T'. rewrite !tcell_insert. repeat case_decide; done. }
  assert (Hown : ∀ j, j ∈ concat (tw s) → owner T' j = owner (timer_nodes s) j).
  { intros j Hj. unfold owner. rewrite Hcell, decide_False; [done|]. by intros ->. }
  assert (concat (<[k := l ++ [t]]> (tw s)) ≡ₚ t :: concat (tw s)) as Hp.
  { rewrite (concat_slot _ _ _ Hl), <-(app_assoc l). simpl. rewrite <-Permutation_middle. f_equiv.
    rewrite <-(concat_slot _ _ _ Hl l). by rewrite list_insert_id. }
  assert (Hot : owner T' t = cnode) by (unfold owner; by rewrite Hcell, decide_True).
  assert (Hpend : ∀ c, cnt T' c (concat (<[k := l ++ [t]]> (tw s))) = pending s c + (if decide (c = cnode) then 1 else 0)).
  { intros c. rewrite (cnt_perm _ _ _ _ Hp), cnt_cons, Hot. unfold pending. rewrite (cnt_ext _ T' c _ Hown).
    repeat case_decide; naive_solver lia. }
  eexists _, l. split; [reflexivity|]. split; [|done].
  split; simpl; [by rewrite length_insert, (wo_size _ HW)|by rewrite Hp; constructor; [|apply HW]| | |apply HW|].
  - intros i Hi. rewrite Hp in Hi. apply elem_of_cons in Hi as [->|Hi].
    + rewrite Hot. unfold MAX_TIMER in *. rewrite Hcell, decide_True by done. simpl. lia.
    + rewrite Hown by done. destruct (wo_nodes _ HW i Hi) as (? & Hx & ?). rewrite Hcell, decide_False by (by intros ->). done.
  - intros c. unfold pending. simpl. rewrite Hpend, ccell_insert. pose proof (wo_used _ HW c) as Hu.
    case_decide as Ec; [subst c|by rewrite Z.add_0_r]. simpl. rewrite Hu. unfold u8. change (2 ^ 8) with 256. zdiv.
  - split; [unfold MAX_TIMER in *; lia|]. intros i Hi. rewrite Hcell, decide_False by lia. apply Hfree. lia.
Qed.

Fixpoint checks (n : nat) (s : state) : res state :=
  match n with O => Ok s | S n => '(s, _) ← check_conn s; checks n s end.

(** The slots not reached in [n] turns are as they were. *)
Lemma checks_keep n : ∀ s k l, wheel_ok s → (k < TW_SIZE)%nat → tw s !! k = Some l →
  Z.of_nat n ≤ (Z.of_nat k - tick s) mod 16 → ∃ s', checks n s = Ok s' ∧ wheel_ok s' ∧
  tick s' = u32 (tick s + Z.of_nat n) ∧ tw s' !! k = Some l.
Proof.
  unfold TW_SIZE. induction n as [|n IH]; intros s k l HW Hk Hl Hn; cbn [checks].
  - exists s. split; [done|]. split; [done|]. split; [|done]. rewrite Z.add_0_r, u32_small; [done|apply HW].
  - destruct (check_spec s HW) as (s1 & ev & l1 & -> & HW1 & Et & _ & Ew & _). rewrite ok_bind.
    assert (tick s1 mod 16 = (tick s + 1) mod 16) as Em by (rewrite Et; unfold u32; change (2 ^ 32) with 4294967296; zdiv).
    destruct (IH s1 k l HW1 Hk) as (s2 & -> & HW2 & Et2 & El).
    + rewrite Ew, list_lookup_insert_ne; [done|]. intros Ek. subst k. zdiv.
    + zdiv.
    + exists s2. split; [done|]. split; [done|]. split; [|done]. rewrite Et2, Et. unfold u32. change (2 ^ 32) with 4294967296. zdiv.
Qed.

(** ** The theorems *)

(** C40: A turn of the wheel never faults, and a connection is cut exactly when its last pending
    timer goes off, and then once (as long as no more than 255 are pending). *)
Theorem check_cuts_last s : wheel_ok s → ∃ s' ev, check_conn s = Ok (s', ev) ∧ wheel_ok s' ∧
  ∀ c, pending s' c ≤ pending s c ∧
    (pending s c ≤ 255 → kills c ev = if decide (0 < pending s c ∧ pending s' c = 0) then 1 else 0).
Proof.
  intros HW. destruct (check_spec s HW) as (s' & ev & l & E & HW' & _ & _ & _ & Hp & Hk). exists s', ev.
  split; [exact E|]. split; [exact HW'|]. intros c. specialize (Hp c). pose proof (cnt_nonneg (timer_nodes s) c l).
  split; [lia|]. intros Hle. rewrite (Hk c Hle). repeat case_decide; lia.
Qed.

(** A heartbeat's timer goes off [(10 + delay) mod 16] turns after the next one, no
    sooner and no later: a delay of more than 5 wraps around the wheel, and the timer goes off too early. *)
Theorem heartbeat_due s cnode delay : wheel_ok s → 0 ≤ cnode < MAX_CONN → t_iter s + 1 < MAX_TIMER →
  ∃ s1 s2 s3 ev, add_conn s cnode delay = Ok s1 ∧ checks (Z.to_nat ((10 + delay) mod 16)) s1 = Ok s2 ∧
    t_iter s + 1 ∈ concat (tw s2) ∧ check_conn s2 = Ok (s3, ev) ∧ t_iter s + 1 ∉ concat (tw s3).
Proof.
  intros HW Hc Ht. destruct (add_conn_spec s cnode delay HW Hc Ht) as (s1 & l & E1 & HW1 & Hl & Ew & _ & Et & _ & _).
  set (k := Z.to_nat (u32 (tick s + EXPIRE + delay) mod 16)) in *. set (n := Z.to_nat ((10 + delay) mod 16)).
  assert (Hu : u32 (tick s + EXPIRE + delay) mod 16 = (tick s + 10 + delay) mod 16).
  { unfold u32, EXPIRE. change (2 ^ 32) with 4294967296. zdiv. }
  assert (Hk : (k < TW_SIZE)%nat) by (unfold k, TW_SIZE; zdiv).
  destruct (checks_keep n s1 k (l ++ [t_iter s + 1]) HW1 Hk) as (s2 & E2 & HW2 & Et2 & El2).
  { rewrite Ew. apply list_lookup_insert_eq. by rewrite (wo_size _ HW). }
  { rewrite Et. unfold k, n. rewrite Hu. clear. rewrite !Z2Nat.id by zdiv. zdiv. }
  destruct (check_spec s2 HW2) as (s3 & ev & l3 & E3 & HW3 & _ & Hl3 & Ew3 & _).
  assert (Hin : t_iter s + 1 ∈ concat (tw s2)).
  { apply elem_of_concat. exists (l ++ [t_iter s + 1]). split; [set_solver|]. by eapply list_elem_of_lookup_2. }
  exists s1, s2, s3, ev. split; [exact E1|]. split; [exact E2|]. split; [exact Hin|]. split; [exact E3|].
  assert (Z.to_nat (tick s2 mod 16) = k) as Ek.
  { rewrite Et2, Et. unfold k, n. rewrite Hu. clear. f_equal. unfold u32. change (2 ^ 32) with 4294967296.
    rewrite Z2Nat.id by zdiv. zdiv. }
  rewrite Ek in *. rewrite Hl3 in El2. injection El2 as ->. pose proof (wo_nodup _ HW2) as Hnd.
  pose proof (concat_slot _ _ _ Hl3 (l ++ [t_iter s + 1])) as Hp. rewrite list_insert_id in Hp by done. rewrite Hp in Hnd.
  apply NoDup_app in Hnd as (_ & Hd & _). rewrite Ew3. apply Hd. set_solver.
Qed.

(** The index of the timer nodes only grows and is not masked where it is used: after
    131070 heartbeats, however few are pending, the next one leaves the array. *)
Theorem timer_nodes_exhausted s cnode delay : wheel_ok s → t_iter s = MAX_TIMER - 1 →
  add_conn s cnode delay = Err OutOfBounds.
Proof. intros HW Ht. unfold add_conn. by rewrite (proj2 (get_timer_spec s HW)) by (rewrite Ht; done). Qed.

(** [used] has 8 bits: with 257 heartbeats pending the first timer to go off cuts the
    connection, 256 others notwithstanding. *)
Fixpoint beats (n : nat) (s : state) (cnode delay : Z) : res state :=
  match n with O => Ok s | S n => s ← add_conn s cnode delay; beats n s cnode delay end.

Theorem used_wraps : (s ← add_conn init 1 0; s ← beats 256 s 1 1; s ← checks 10 s; '(s, ev) ← check_conn s;
  Ok (ev, pending s 1)) = Ok ([Kill 1 0], 256).
Proof. by vm_compute. Qed.

(** ** Concrete instances *)

Lemma init_ok : wheel_ok init.
Proof.
  split; simpl; try done.
  - constructor.
  - by intros i ?%elem_of_nil.
Qed.

(** One heartbeat of connection 1, in the slot that comes next. *)
Definition one_beat : state := match add_conn init 1 6 with Ok s => s | Err _ => init end.

Lemma one_beat_ok : wheel_ok one_beat.
Proof.
  destruct (add_conn_spec init 1 6 init_ok) as (s & l & E & HW & _); [done|done|]. unfold one_beat. by rewrite E.
Qed.

Example check_cuts_last_witness : pending one_beat 1 = 1 ∧
  (∃ s ev, check_conn one_beat = Ok (s, ev) ∧ ev = [Kill 1 0] ∧ pending s 1 = 0) ∧
  ∃ s' ev, check_conn one_beat = Ok (s', ev) ∧ wheel_ok s' ∧
    ∀ c, pending s' c ≤ pending one_beat c ∧
      (pending one_beat c ≤ 255 → kills c ev = if decide (0 < pending one_beat c ∧ pending s' c = 0) then 1 else 0).
Proof.
  split; [by vm_compute|]. split; [by eexists _, _; repeat split; vm_compute|]. exact (check_cuts_last one_beat one_beat_ok).
Defined.

Example heartbeat_due_witness : ∃ s1 s2 s3 ev, add_conn init 1 6 = Ok s1 ∧ checks 0 s1 = Ok s2 ∧
  1 ∈ concat (tw s2) ∧ check_conn s2 = Ok (s3, ev) ∧ 1 ∉ concat (tw s3).
Proof. apply (heartbeat_due init 1 6 init_ok); done. Defined.

Lemma used_up_ok : wheel_ok (State ∅ ∅ 131070 0 0 (replicate TW_SIZE [])).
Proof. destruct init_ok as [H1 H2 H3 H4 H5 H6]. split; simpl; try done. Qed.

Example timer_nodes_exhausted_witness :
  add_conn (State ∅ ∅ 131070 0 0 (replicate TW_SIZE [])) 1 0 = Err OutOfBounds.
Proof. exact (timer_nodes_exhausted _ 1 0 used_up_ok eq_refl). Defined.

End SingleWheel.
