(* ===== verification/RbTree.v ===== *)
(** * The red-black tree of 7.2timers/timers/rbtree.c

    Nodes live in a store and point to their children and their parent; the leaves are the
    tree's sentinel, a black node.  The two directions of the source are mirror images: [d] is
    true where it says left and false where it says right.  A tree is described by an
    inductive [tree] and, where an operation works below the root, by a path of
    [frame]s from there to the root; [own] says that the store holds exactly
    the nodes of such a description. *)

From S2P Require Import Prelude.

Module RbTree.

(** ** Data *)

(* src: 7.2timers/timers/rbtree.h:20-27 ngx_rbtree_node_s *)
Record ngx_rbtree_node_t : Type := Node { key : Z; left : Z; right : Z; parent : Z; color : Z }.

(* src: 7.2timers/timers/rbtree.h:34-38 ngx_rbtree_s *)
Record ngx_rbtree_t : Type := Tree { heap : gmap Z ngx_rbtree_node_t; root : Z; sentinel : Z }.

Notation store := (gmap Z ngx_rbtree_node_t).

Definition rd (h : store) (p : Z) : res ngx_rbtree_node_t :=
  if p =? 0 then Err NullDeref else get_or UseAfterFree (h !! p).
Definition wr (h : store) (p : Z) (f : ngx_rbtree_node_t → ngx_rbtree_node_t) : res store :=
  n ← rd h p; Ok (<[p := f n]> h).

(** The child on side [d], and the assignments to members. *)
Definition child (d : bool) (n : ngx_rbtree_node_t) : Z := if d then left n else right n.
Definition with_child (d : bool) (v : Z) (n : ngx_rbtree_node_t) : ngx_rbtree_node_t :=
  if d then Node (key n) v (right n) (parent n) (color n) else Node (key n) (left n) v (parent n) (color n).
Definition with_parent (v : Z) (n : ngx_rbtree_node_t) := Node (key n) (left n) (right n) v (color n).
Definition with_color (v : Z) (n : ngx_rbtree_node_t) := Node (key n) (left n) (right n) (parent n) v.

(** ** Rotation *)

(** [ngx_rbtree_left_rotate] for [d] true, [ngx_rbtree_right_rotate] for false. *)
(* src: 7.2timers/timers/rbtree.c:321-378 ngx_rbtree_left_rotate *)
Definition rotate (d : bool) (h : store) (root s node : Z) : res (store * Z) :=
  n ← rd h node;
  let temp := child (negb d) n in
  t ← rd h temp;
  h ← wr h node (with_child (negb d) (child d t));
  t ← rd h temp;
  h ← (if child d t =? s then Ok h else wr h (child d t) (with_parent node));
  n ← rd h node;
  h ← wr h temp (with_parent (parent n));
  '(h, root) ←
    (if node =? root then Ok (h, temp)
     else
       p ← rd h (parent n);
       h ← (if node =? child d p then wr h (parent n) (with_child d temp)
            else wr h (parent n) (with_child (negb d) temp));
       Ok (h, root));
  h ← wr h temp (with_child d node);
  h ← wr h node (with_parent temp);
  Ok (h, root).

(* src: 7.2timers/timers/rbtree.c:321-348 ngx_rbtree_left_rotate *)
Definition ngx_rbtree_left_rotate := rotate true.
(* src: 7.2timers/timers/rbtree.c:351-378 ngx_rbtree_right_rotate *)
Definition ngx_rbtree_right_rotate := rotate false.

(** ** Insertion *)

(** The loop of both: down to the node whose child on the side of the key is the sentinel. *)
(* src: 7.2timers/timers/rbtree.c:101-110 ngx_rbtree_insert_value *)
Fixpoint descend (less : Z → Z → bool) (fuel : nat) (h : store) (temp node s : Z) : res (Z * bool) :=
  match fuel with
  | O => Err OutOfFuel
  | S fuel =>
      n ← rd h node;
      t ← rd h temp;
      let d := less (key n) (key t) in
      if child d t =? s then Ok (temp, d) else descend less fuel h (child d t) node s
  end.

(* src: 7.2timers/timers/rbtree.c:95-117 ngx_rbtree_insert_value *)
Definition insert_by (less : Z → Z → bool) (h : store) (temp node s : Z) : res store :=
  '(temp, d) ← descend less (S (size h)) h temp node s;
  h ← wr h temp (with_child d node);
  h ← wr h node (with_parent temp);
  h ← wr h node (with_child true s);
  h ← wr h node (with_child false s);
  wr h node (with_color 1).

(* src: 7.2timers/timers/rbtree.c:95-117 ngx_rbtree_insert_value *)
Definition ngx_rbtree_insert_value : store → Z → Z → Z → res store := insert_by Z.ltb.
(** The difference of two 32-bit keys as a signed number. *)
(* src: 7.2timers/timers/rbtree.c:136-137 ngx_rbtree_insert_timer_value *)
Definition timer_less (a b : Z) : bool := i32 (u32 (a - b)) <? 0.
(* src: 7.2timers/timers/rbtree.c:120-151 ngx_rbtree_insert_timer_value *)
Definition ngx_rbtree_insert_timer_value : store → Z → Z → Z → res store := insert_by timer_less.

(** One round of the loop that re-balances, where the node's parent is red and the child on side [d] of
    the grandparent. *)
(* src: 7.2timers/timers/rbtree.c:49-88 ngx_rbtree_insert *)
Definition fix_side (d : bool) (h : store) (root s node : Z) : res (store * Z * Z) :=
  n ← rd h node;
  p ← rd h (parent n);
  g ← rd h (parent p);
  let temp := child (negb d) g in
  t ← rd h temp;
  if negb (color t =? 0) then
    h ← wr h (parent n) (with_color 0);
    h ← wr h temp (with_color 0);
    h ← wr h (parent p) (with_color 1);
    Ok (h, root, parent p)
  else
    '(h, root, node) ←
      (if node =? child (negb d) p then '(h, root) ← rotate d h root s (parent n); Ok (h, root, parent n)
       else Ok (h, root, node));
    n ← rd h node;
    h ← wr h (parent n) (with_color 0);
    p ← rd h (parent n);
    h ← wr h (parent p) (with_color 1);
    '(h, root) ← rotate (negb d) h root s (parent p);
    Ok (h, root, node).

(* src: 7.2timers/timers/rbtree.c:47-89 ngx_rbtree_insert *)
Fixpoint fix_loop (fuel : nat) (h : store) (root s node : Z) : res (store * Z) :=
  match fuel with
  | O => Err OutOfFuel
  | S fuel =>
      if node =? root then Ok (h, root)
      else
        n ← rd h node;
        p ← rd h (parent n);
        if color p =? 0 then Ok (h, root)
        else
          g ← rd h (parent p);
          '(h, root, node) ← fix_side (parent n =? left g) h root s node;
          fix_loop fuel h root s node
  end.

(** [insert] is the tree's function pointer. *)
(* src: 7.2timers/timers/rbtree.c:23-92 ngx_rbtree_insert *)
Definition ngx_rbtree_insert (insert : store → Z → Z → Z → res store) (t : ngx_rbtree_t) (node : Z) : res ngx_rbtree_t :=
  let h := heap t in
  let s := sentinel t in
  if root t =? s then
    h ← wr h node (with_parent 0);
    h ← wr h node (with_child true s);
    h ← wr h node (with_child false s);
    h ← wr h node (with_color 0);
    Ok (Tree h node s)
  else
    h ← insert h (root t) node s;
    '(h, root) ← fix_loop (S (size h)) h (root t) s node;
    h ← wr h root (with_color 0);
    Ok (Tree h root s).

(* src: 7.2timers/timers/rbtree.h:74-82 ngx_rbtree_min *)
Fixpoint ngx_rbtree_min (fuel : nat) (h : store) (node s : Z) : res Z :=
  match fuel with
  | O => Err OutOfFuel
  | S fuel => n ← rd h node; if left n =? s then Ok node else ngx_rbtree_min fuel h (left n) s
  end.

(** ** Deletion *)

(** [if (node == node->parent->left) node->parent->left = v; else node->parent->right = v], for the
    parent [p] of [node]. *)
(* src: 7.2timers/timers/rbtree.c:198-203 ngx_rbtree_delete *)
Definition set_link (h : store) (p node v : Z) : res store :=
  pn ← rd h p;
  if node =? left pn then wr h p (with_child true v) else wr h p (with_child false v).

(* src: 7.2timers/timers/rbtree.c:244-247 ngx_rbtree_delete *)
Definition zeroed (n : ngx_rbtree_node_t) : ngx_rbtree_node_t := Node 0 0 0 0 (color n).

(** [subst] takes the place of [node]. *)
(* src: 7.2timers/timers/rbtree.c:211-240 ngx_rbtree_delete *)
Definition replace_node (h : store) (root s node subst temp : Z) : res (store * Z) :=
  sn ← rd h subst;
  h ← wr h temp (with_parent (if parent sn =? node then subst else parent sn));
  n ← rd h node;
  h ← wr h subst (with_child true (left n));
  n ← rd h node;
  h ← wr h subst (with_child false (right n));
  n ← rd h node;
  h ← wr h subst (with_parent (parent n));
  n ← rd h node;
  h ← wr h subst (with_color (color n));
  '(h, root) ←
    (if node =? root then Ok (h, subst) else n ← rd h node; h ← set_link h (parent n) node subst; Ok (h, root));
  sn ← rd h subst;
  h ← (if left sn =? s then Ok h else wr h (left sn) (with_parent subst));
  sn ← rd h subst;
  h ← (if right sn =? s then Ok h else wr h (right sn) (with_parent subst));
  Ok (h, root).

(** One round of the fix-up, for [temp] on side [d] of its parent. *)
(* src: 7.2timers/timers/rbtree.c:257-314 ngx_rbtree_delete *)
Definition del_side (d : bool) (h : store) (root s temp : Z) : res (store * Z * Z) :=
  t ← rd h temp;
  p ← rd h (parent t);
  let w := child (negb d) p in
  wn ← rd h w;
  '(h, root, w) ←
    (if negb (color wn =? 0) then
       h ← wr h w (with_color 0);
       h ← wr h (parent t) (with_color 1);
       '(h, root) ← rotate d h root s (parent t);
       t ← rd h temp;
       p ← rd h (parent t);
       Ok (h, root, child (negb d) p)
     else Ok (h, root, w));
  t ← rd h temp;
  wn ← rd h w;
  wl ← rd h (child d wn);
  wr_ ← rd h (child (negb d) wn);
  if (color wl =? 0) && (color wr_ =? 0) then
    h ← wr h w (with_color 1);
    Ok (h, root, parent t)
  else
    '(h, root, w) ←
      (if color wr_ =? 0 then
         h ← wr h (child d wn) (with_color 0);
         h ← wr h w (with_color 1);
         '(h, root) ← rotate (negb d) h root s w;
         t ← rd h temp;
         p ← rd h (parent t);
         Ok (h, root, child (negb d) p)
       else Ok (h, root, w));
    t ← rd h temp;
    p ← rd h (parent t);
    h ← wr h w (with_color (color p));
    h ← wr h (parent t) (with_color 0);
    wn ← rd h w;
    h ← wr h (child (negb d) wn) (with_color 0);
    '(h, root) ← rotate d h root s (parent t);
    Ok (h, root, root).

(* src: 7.2timers/timers/rbtree.c:255-315 ngx_rbtree_delete *)
Fixpoint del_loop (fuel : nat) (h : store) (root s temp : Z) : res (store * Z * Z) :=
  match fuel with
  | O => Err OutOfFuel
  | S fuel =>
      if temp =? root then Ok (h, root, temp)
      else
        t ← rd h temp;
        if negb (color t =? 0) then Ok (h, root, temp)
        else
          p ← rd h (parent t);
          '(h, root, temp) ← del_side (temp =? left p) h root s temp;
          del_loop fuel h root s temp
  end.

(** [subst], whose only child is [temp], leaves its place; unless it is [node] itself, it takes that of [node]. *)
(* src: 7.2timers/timers/rbtree.c:183-318 ngx_rbtree_delete *)
Definition delete_at (h : store) (rt s node subst temp : Z) : res ngx_rbtree_t :=
  if subst =? rt then
    h ← wr h temp (with_color 0);
    h ← wr h node zeroed;
    Ok (Tree h temp s)
  else
    sn ← rd h subst;
    let red := color sn in
    h ← set_link h (parent sn) subst temp;
    '(h, rt) ←
      (if subst =? node then h ← wr h temp (with_parent (parent sn)); Ok (h, rt)
       else replace_node h rt s node subst temp);
    h ← wr h node zeroed;
    if negb (red =? 0) then Ok (Tree h rt s)
    else
      '(h, rt, temp) ← del_loop (S (S (size h))) h rt s temp;
      h ← wr h temp (with_color 0);
      Ok (Tree h rt s).

(* src: 7.2timers/timers/rbtree.c:154-318 ngx_rbtree_delete *)
Definition ngx_rbtree_delete (t : ngx_rbtree_t) (node : Z) : res ngx_rbtree_t :=
  let h := heap t in
  let s := sentinel t in
  n ← rd h node;
  '(subst, temp) ←
    (if left n =? s then Ok (node, right n)
     else if right n =? s then Ok (node, left n)
     else
       subst ← ngx_rbtree_min (S (size h)) h (right n) s;
       sn ← rd h subst;
       Ok (subst, if negb (left sn =? s) then left sn else right sn));
  delete_at h (root t) s node subst temp.

(** The loop of [ngx_rbtree_next], up to the first parent on the right. *)
(* src: 7.2timers/timers/rbtree.c:394-406 ngx_rbtree_next *)
Fixpoint up (fuel : nat) (h : store) (root node : Z) : res Z :=
  match fuel with
  | O => Err OutOfFuel
  | S fuel =>
      n ← rd h node;
      if node =? root then Ok 0
      else
        p ← rd h (parent n);
        if node =? left p then Ok (parent n) else up fuel h root (parent n)
  end.

(* src: 7.2timers/timers/rbtree.c:381-407 ngx_rbtree_next *)
Definition ngx_rbtree_next (t : ngx_rbtree_t) (node : Z) : res Z :=
  let h := heap t in
  n ← rd h node;
  if negb (right n =? sentinel t) then ngx_rbtree_min (S (size h)) h (right n) (sentinel t)
  else up (S (size h)) h (root t) node.

(** The sentinel is made black. *)
(* src: 7.2timers/timers/rbtree.h:40-44 ngx_rbtree_init *)
Definition ngx_rbtree_init (h : store) (s : Z) : res ngx_rbtree_t :=
  h ← wr h s (with_color 0);
  Ok (Tree h s s).

(** ** Trees and paths *)

Inductive tree : Type := L | T (x k : Z) (c : bool) (l r : tree).
(** The node [x] whose child on side [d] is the place of the path, with its other child. *)
Inductive frame : Type := F (d : bool) (x k : Z) (c : bool) (sib : tree).

(** [T] with the child on side [d] first. *)
Definition mk (d : bool) (x k : Z) (c : bool) (u v : tree) : tree := if d then T x k c u v else T x k c v u.

Fixpoint plug (K : list frame) (t : tree) : tree :=
  match K with [] => t | F d x k c sib :: K => plug K (mk d x k c t sib) end.

Definition addr (s : Z) (t : tree) : Z := match t with L => s | T x _ _ _ _ => x end.
Definition col (c : bool) : Z := if c then 1 else 0.
Definition mknode (d : bool) (k u v p : Z) (c : bool) : ngx_rbtree_node_t :=
  if d then Node k u v p (col c) else Node k v u p (col c).
(** The parent of the node at the end of a path; that of the root is [p0]. *)
Definition par (p0 : Z) (K : list frame) : Z := match K with [] => p0 | F _ x _ _ _ :: _ => x end.

Fixpoint root_of (a : Z) (K : list frame) : Z := match K with [] => a | F _ x _ _ _ :: K => root_of x K end.

(** The nodes of a tree below [p] and of a path above [a], with their addresses. *)
Fixpoint tcells (s p : Z) (t : tree) : list (Z * ngx_rbtree_node_t) :=
  match t with
  | L => []
  | T x k c l r => (x, Node k (addr s l) (addr s r) p (col c)) :: tcells s x l ++ tcells s x r
  end.
Fixpoint kcells (s p0 a : Z) (K : list frame) : list (Z * ngx_rbtree_node_t) :=
  match K with
  | [] => []
  | F d x k c sib :: K => (x, mknode d k a (addr s sib) (par p0 K) c) :: tcells s x sib ++ kcells s p0 x K
  end.

Lemma mk_cells d s p x k c u v :
  tcells s p (mk d x k c u v) ≡ₚ (x, mknode d k (addr s u) (addr s v) p c) :: tcells s x u ++ tcells s x v.
Proof. destruct d; simpl; [done|]. f_equiv. apply Permutation_app_comm. Qed.

Lemma mk_addr d s x k c u v : addr s (mk d x k c u v) = x.
Proof. by destruct d. Qed.

Lemma child_mknode d k u v p c : child d (mknode d k u v p c) = u.
Proof. by destruct d. Qed.
Lemma child_mknode_neg d k u v p c : child (negb d) (mknode d k u v p c) = v.
Proof. by destruct d. Qed.
Lemma with_child_mknode d k u v p c w : with_child d w (mknode d k u v p c) = mknode d k w v p c.
Proof. by destruct d. Qed.
Lemma with_child_mknode_neg d k u v p c w : with_child (negb d) w (mknode d k u v p c) = mknode d k u w p c.
Proof. by destruct d. Qed.
Lemma with_parent_mknode d k u v p c w : with_parent w (mknode d k u v p c) = mknode d k u v w c.
Proof. by destruct d. Qed.
Lemma with_color_mknode d k u v p c c' : with_color (col c') (mknode d k u v p c) = mknode d k u v p c'.
Proof. by destruct d. Qed.
Lemma parent_mknode d k u v p c : parent (mknode d k u v p c) = p.
Proof. by destruct d. Qed.
Lemma color_mknode d k u v p c : color (mknode d k u v p c) = col c.
Proof. by destruct d. Qed.
Lemma key_mknode d k u v p c : key (mknode d k u v p c) = k.
Proof. by destruct d. Qed.
Lemma mknode_flip d k u v p c : mknode (negb d) k u v p c = mknode d k v u p c.
Proof. by destruct d. Qed.

(** ** Ownership *)

Section sentinel_parent.
(** A deletion may set the parent of the sentinel; nothing else does. *)
Context (sp : Z).

(** The store holds the nodes [C], at different addresses that are neither null nor the sentinel, and a black
    sentinel whose parent is [sp]. *)
Record own (h : store) (s : Z) (C : list (Z * ngx_rbtree_node_t)) : Prop := Own {
  own_nodup : NoDup C.*1;
  own_get x n : (x, n) ∈ C → h !! x = Some n;
  own_addr x : x ∈ C.*1 → x ≠ 0 ∧ x ≠ s;
  own_sent : s ≠ 0 ∧ ∃ n, h !! s = Some n ∧ color n = 0 ∧ parent n = sp
}.

#[export] Instance own_proper h s : Proper ((≡ₚ) ==> iff) (own h s).
Proof.
  assert (∀ C C', C ≡ₚ C' → own h s C → own h s C') as H.
  { intros C C' HP [H1 H2 H3 H4]. split; [by rewrite <-HP| |intros x; rewrite <-HP; apply H3|done]. intros x n. rewrite <-HP. apply H2. }
  intros C C' HP. split; by apply H.
Qed.

Lemma own_head h s x n C : own h s ((x, n) :: C) → rd h x = Ok n.
Proof.
  intros HO. destruct (own_addr _ _ _ HO x) as [Hx _]; [left|]. unfold rd.
  by rewrite (proj2 (Z.eqb_neq _ _)), (own_get _ _ _ HO x n) by (done || left).
Qed.

Lemma own_wr h s x n C f : own h s ((x, n) :: C) → ∃ h', wr h x f = Ok h' ∧ own h' s ((x, f n) :: C) ∧ size h' = size h ∧
  ∀ y, y ≠ x → h' !! y = h !! y.
Proof.
  intros HO. unfold wr. rewrite (own_head _ _ _ _ _ HO), ok_bind. exists (<[x := f n]> h). split; [done|].
  destruct HO as [H1 H2 H3 H4]. split; [|split].
  - split; simpl in *; [done| |done|].
    + intros y m [[= -> ->]|Hy]%elem_of_cons; [apply lookup_insert_eq|]. rewrite lookup_insert_ne; [apply H2; by right|].
      intros ->. apply NoDup_cons in H1 as [Hn _]. apply Hn. apply list_elem_of_fmap. by exists (y, m).
    + rewrite lookup_insert_ne; [done|]. by apply H3; left.
  - rewrite map_size_insert_Some; [done|]. exists n. apply H2. left.
  - intros y Hy. by apply lookup_insert_ne.
Qed.

Lemma own_ne h s x n y m C : own h s ((x, n) :: (y, m) :: C) → x ≠ y.
Proof. intros [H _ _ _] ->. simpl in H. apply NoDup_cons in H as [H _]. apply H. left. Qed.

(** The sentinel is read, not written. *)
Lemma own_sentinel h s C : own h s C → ∃ n, rd h s = Ok n ∧ color n = 0 ∧ parent n = sp.
Proof.
  intros [_ _ _ (H0 & n & Hn & Hc & Hp)]. exists n. unfold rd. by rewrite (proj2 (Z.eqb_neq _ _)), Hn.
Qed.

(** The root of a subtree gets another parent. *)
Lemma reparent h s b p p' C : own h s (tcells s p b ++ C) → ∃ h',
  (if addr s b =? s then Ok h else wr h (addr s b) (with_parent p')) = Ok h' ∧ own h' s (tcells s p' b ++ C) ∧
  size h' = size h ∧ ∀ y, y ≠ addr s b → h' !! y = h !! y.
Proof.
  intros HO. destruct b as [|x k c l r]; simpl in *.
  - rewrite Z.eqb_refl. by exists h.
  - destruct (own_addr _ _ _ HO x) as [_ Hx]; [left|]. rewrite (proj2 (Z.eqb_neq _ _)) by done.
    exact (own_wr _ _ _ _ _ (with_parent p') HO).
Qed.

(** A tree with the focus on its part [t] below the path [K], beside other nodes [C]. *)
Definition zip (h : store) (root s p0 : Z) (C : list (Z * ngx_rbtree_node_t)) (K : list frame) (t : tree) : Prop :=
  own h s (tcells s (par p0 K) t ++ kcells s p0 (addr s t) K ++ C) ∧ root = root_of (addr s t) K.

(** Down to a child, or up to the parent. *)
Lemma zip_move h root s p0 C d x k c sib K t :
  zip h root s p0 C (F d x k c sib :: K) t ↔ zip h root s p0 C K (mk d x k c t sib).
Proof.
  unfold zip. rewrite mk_addr, mk_cells. simpl.
  split; (intros [HO Hr]; split; [eapply own_proper; [|exact HO]; solve_Permutation|exact Hr]).
Qed.

Lemma zip_out h root s p0 C d x k c sib K t :
  zip h root s p0 C (F d x k c sib :: K) t → zip h root s p0 C K (mk d x k c t sib).
Proof. apply zip_move. Qed.
Lemma zip_in h root s p0 C d x k c sib K t :
  zip h root s p0 C K (mk d x k c t sib) → zip h root s p0 C (F d x k c sib :: K) t.
Proof. apply zip_move. Qed.

Lemma root_of_in a s p0 K : K ≠ [] → root_of a K ∈ (kcells s p0 a K).*1.
Proof.
  revert a. induction K as [|[d x k c sib] [|f K] IH]; intros a HK; [done|left|]. simpl.
  right. rewrite fmap_app. apply elem_of_app. right. by apply (IH x).
Qed.

(** The node on top of a path is not that at its end. *)
Lemma at_root h s x n p0 K C : own h s ((x, n) :: kcells s p0 x K ++ C) → (x =? root_of x K) = bool_decide (K = []).
Proof.
  intros HO. destruct K as [|f K]; [by rewrite Z.eqb_refl|]. rewrite bool_decide_eq_false_2 by done. apply Z.eqb_neq. intros E.
  pose proof (own_nodup _ _ _ HO) as Hn. simpl in Hn. apply NoDup_cons in Hn as [Hn _]. apply Hn.
  rewrite fmap_app. apply elem_of_app. left.
  pose proof (root_of_in x s p0 (f :: K) ltac:(done)) as Hin. rewrite <-E in Hin. exact Hin.
Qed.

Lemma own_sib h s x n p sib C : own h s ((x, n) :: tcells s p sib ++ C) → addr s sib ≠ x.
Proof.
  intros HO. destruct sib as [|y k c l r]; simpl in *; [|apply not_eq_sym; by eapply own_ne].
  apply not_eq_sym. apply (own_addr _ _ _ HO). left.
Qed.

(** The link to [x] from above is replaced by one to [y]. *)
Lemma relink d h s x nx p0 K y C : own h s ((x, nx) :: kcells s p0 x K ++ C) → ∃ h',
  (if x =? root_of x K then Ok (h, y)
   else
     p ← rd h (par p0 K);
     h ← (if x =? child d p then wr h (par p0 K) (with_child d y) else wr h (par p0 K) (with_child (negb d) y));
     Ok (h, root_of x K)) = Ok (h', root_of y K) ∧ own h' s ((x, nx) :: kcells s p0 y K ++ C) ∧ size h' = size h.
Proof.
  intros HO. rewrite (at_root _ _ _ _ _ _ _ HO). destruct K as [|[d' z k c sib] K]; [by exists h|].
  rewrite bool_decide_eq_false_2 by done. simpl in *.
  assert (∀ w, (x, nx) :: (z, mknode d' k w (addr s sib) (par p0 K) c) :: (tcells s z sib ++ kcells s p0 z K) ++ C ≡ₚ
    (z, mknode d' k w (addr s sib) (par p0 K) c) :: (x, nx) :: tcells s z sib ++ kcells s p0 z K ++ C) as HP.
  { intros w. rewrite <-(assoc_L (++)). apply perm_swap. }
  rewrite HP in HO. rewrite (own_head _ _ _ _ _ HO), ok_bind.
  destruct (own_wr _ _ _ _ _ (with_child d' y) HO) as (h' & Hw & HO' & Hsz & _). rewrite with_child_mknode, <-HP in HO'.
  exists h'. split; [|done]. assert (addr s sib ≠ x) as Hs.
  { assert (own h s ((x, nx) :: tcells s z sib ++ kcells s p0 z K ++ (z, mknode d' k x (addr s sib) (par p0 K) c) :: C)) as HO2.
    { eapply own_proper; [|exact HO]. solve_Permutation. }
    by eapply own_sib. }
  destruct (decide (d' = d)) as [->|Hd].
  - by rewrite child_mknode, Z.eqb_refl, Hw, ok_bind.
  - assert (d = negb d') as -> by (destruct d, d'; done). rewrite child_mknode_neg, (proj2 (Z.eqb_neq _ _)) by done.
    by rewrite negb_involutive, Hw, ok_bind.
Qed.

(** ** Rotation moves a node below its child *)

Lemma rotate_spec d h root s p0 C K x k c a y ky cy b e :
  zip h root s p0 C K (mk d x k c a (mk d y ky cy b e)) → ∃ h' root',
  rotate d h root s x = Ok (h', root') ∧ zip h' root' s p0 C K (mk d y ky cy (mk d x k c a b) e) ∧ size h' = size h.
Proof.
  intros [HO ->]. rewrite !mk_addr in *. rewrite !mk_cells, !mk_addr in HO.
  set (R := tcells s x a ++ tcells s y e ++ C).
  assert (own h s ((x, mknode d k (addr s a) y (par p0 K) c) :: (y, mknode d ky (addr s b) (addr s e) x cy) :: tcells s y b ++ R ++ kcells s p0 x K)) as H0.
  { eapply own_proper; [|exact HO]. unfold R. solve_Permutation. }
  clear HO. unfold rotate. rewrite (own_head _ _ _ _ _ H0), ok_bind, child_mknode_neg.
  assert (∀ n m (A : list (Z * ngx_rbtree_node_t)), (x, n) :: (y, m) :: A ≡ₚ (y, m) :: (x, n) :: A) as Hsw by (intros; apply perm_swap).
  pose proof H0 as H0'. rewrite Hsw in H0'. rewrite (own_head _ _ _ _ _ H0'), ok_bind, child_mknode.
  destruct (own_wr _ _ _ _ _ (with_child (negb d) (addr s b)) H0) as (h1 & -> & H1 & S1 & _). rewrite ok_bind.
  rewrite with_child_mknode_neg in H1. rewrite Hsw in H1. rewrite (own_head _ _ _ _ _ H1), ok_bind, child_mknode.
  assert (own h1 s (tcells s y b ++ (y, mknode d ky (addr s b) (addr s e) x cy) :: (x, mknode d k (addr s a) (addr s b) (par p0 K) c) ::
    R ++ kcells s p0 x K)) as H1' by (eapply own_proper; [|exact H1]; solve_Permutation).
  destruct (reparent _ _ _ _ x _ H1') as (h2 & -> & H2 & S2 & _). rewrite ok_bind.
  assert (own h2 s ((x, mknode d k (addr s a) (addr s b) (par p0 K) c) :: (y, mknode d ky (addr s b) (addr s e) x cy) :: tcells s x b ++
    R ++ kcells s p0 x K)) as H2' by (eapply own_proper; [|exact H2]; solve_Permutation).
  rewrite (own_head _ _ _ _ _ H2'), ok_bind, parent_mknode. rewrite Hsw in H2'.
  destruct (own_wr _ _ _ _ _ (with_parent (par p0 K)) H2') as (h3 & -> & H3 & S3 & _). rewrite ok_bind, with_parent_mknode in *.
  assert (own h3 s ((x, mknode d k (addr s a) (addr s b) (par p0 K) c) :: kcells s p0 x K ++
    (y, mknode d ky (addr s b) (addr s e) (par p0 K) cy) :: tcells s x b ++ R)) as H3' by (eapply own_proper; [|exact H3]; solve_Permutation).
  destruct (relink d _ _ _ _ _ _ y _ H3') as (h4 & -> & H4 & S4). rewrite ok_bind.
  assert (own h4 s ((y, mknode d ky (addr s b) (addr s e) (par p0 K) cy) :: (x, mknode d k (addr s a) (addr s b) (par p0 K) c) ::
    tcells s x b ++ R ++ kcells s p0 y K)) as H4' by (eapply own_proper; [|exact H4]; solve_Permutation).
  destruct (own_wr _ _ _ _ _ (with_child d x) H4') as (h5 & -> & H5 & S5 & _). rewrite ok_bind, with_child_mknode in *.
  rewrite <-Hsw in H5. destruct (own_wr _ _ _ _ _ (with_parent y) H5) as (h6 & -> & H6 & S6 & _). rewrite ok_bind, with_parent_mknode in *.
  exists h6, (root_of y K). split; [done|]. split; [|congruence]. split; [|by rewrite mk_addr].
  rewrite !mk_cells, !mk_addr. eapply own_proper; [|exact H6]. unfold R. solve_Permutation.
Qed.

(** ** The way down *)

Fixpoint path (less : Z → Z → bool) (k : Z) (t : tree) (K : list frame) : list frame :=
  match t with
  | L => K
  | T x kx c l r => if less k kx then path less k l (F true x kx c r :: K) else path less k r (F false x kx c l :: K)
  end.

Fixpoint height (t : tree) : nat := match t with L => O | T _ _ _ l r => S (Nat.max (height l) (height r)) end.

Lemma height_cells s t : ∀ p, (height t ≤ length (tcells s p t))%nat.
Proof.
  induction t as [|x k c l IHl r IHr]; intros p; simpl; [done|]. rewrite length_app.
  specialize (IHl x). specialize (IHr x). lia.
Qed.

Lemma own_length h s C : own h s C → (length C ≤ size h)%nat.
Proof.
  intros [Hn Hg _ _]. rewrite <-(length_fmap fst), <-(size_dom (D := gset Z)), <-(size_list_to_set (C := gset Z)) by exact Hn.
  apply subseteq_size. intros x Hx%elem_of_list_to_set. apply elem_of_dom.
  apply list_elem_of_fmap in Hx as ([y n] & -> & Hy). exists n. by apply Hg.
Qed.

Lemma own_in h s x n C : own h s C → (x, n) ∈ C → rd h x = Ok n.
Proof. intros HO Hx. apply list_elem_of_split in Hx as (C1 & C2 & ->). rewrite <-Permutation_middle in HO. by eapply own_head. Qed.

(** The focus and its sibling are different nodes. *)
Lemma zip_sib h rt s p0 C d x k c sib K t : zip h rt s p0 C (F d x k c sib :: K) t → t ≠ L → addr s sib ≠ addr s t.
Proof.
  intros [HO _] Ht. destruct t as [|y ky cy l r]; [done|]. simpl in *.
  apply (own_sib h s y (Node ky (addr s l) (addr s r) x (col cy)) x sib (tcells s y l ++ tcells s y r ++
    (x, mknode d k y (addr s sib) (par p0 K) c) :: kcells s p0 x K ++ C)).
  eapply own_proper; [|exact HO]. solve_Permutation.
Qed.

(** What a focus tells of its node. *)
Lemma zip_node h rt s p0 C K x k c l r : zip h rt s p0 C K (T x k c l r) →
  rd h x = Ok (Node k (addr s l) (addr s r) (par p0 K) (col c)).
Proof. intros [HO _]. eapply own_in; [exact HO|]. left. Qed.
Lemma zip_up h rt s p0 C d x k c sib K t : zip h rt s p0 C (F d x k c sib :: K) t →
  rd h x = Ok (mknode d k (addr s t) (addr s sib) (par p0 K) c).
Proof. intros [HO _]. eapply own_in; [exact HO|]. apply elem_of_app. right. left. Qed.
Lemma zip_addr h rt s p0 C K t : zip h rt s p0 C K t → (addr s t =? s) = match t with L => true | _ => false end.
Proof.
  intros [HO _]. destruct t; simpl; [apply Z.eqb_refl|]. apply Z.eqb_neq. apply (own_addr _ _ _ HO). left.
Qed.

Lemma descend_spec less h rt s p0 node n C fuel : ∀ t K, zip h rt s p0 ((node, n) :: C) K t → t ≠ L → (height t ≤ fuel)%nat →
  ∃ d z kz cz sib K', path less (key n) t K = F d z kz cz sib :: K' ∧
    descend less fuel h (addr s t) node s = Ok (z, d) ∧ zip h rt s p0 ((node, n) :: C) (path less (key n) t K) L.
Proof.
  induction fuel as [|fuel IH]; intros [|x k c l r] K HZ Ht Hf; simpl in Hf; try done; try lia.
  cbn [descend addr]. assert (rd h node = Ok n) as -> by (eapply own_in; [apply HZ|rewrite !elem_of_app; right; right; left]).
  rewrite ok_bind, (zip_node _ _ _ _ _ _ _ _ _ _ _ HZ), ok_bind. cbn [key path].
  assert (∀ d u v, T x k c l r = mk d x k c u v → (height u ≤ fuel)%nat →
    ∃ d0 z kz cz sib K', path less (key n) u (F d x k c v :: K) = F d0 z kz cz sib :: K' ∧
      (if addr s u =? s then Ok (x, d) else descend less fuel h (addr s u) node s) = Ok (z, d0) ∧
      zip h rt s p0 ((node, n) :: C) (path less (key n) u (F d x k c v :: K)) L) as Hgo.
  { intros d u v E Hu. assert (zip h rt s p0 ((node, n) :: C) (F d x k c v :: K) u) as HZ' by (apply zip_move; by rewrite <-E).
    rewrite (zip_addr _ _ _ _ _ _ _ HZ'). destruct u as [|xu ku cu lu ru]; [simpl; eauto 10|].
    apply (IH (T xu ku cu lu ru)); done. }
  destruct (less (key n) k); [apply (Hgo true l r)|apply (Hgo false r l)]; (done || lia).
Qed.

Lemma insert_by_spec less h s p0 node n C t : zip h (addr s t) s p0 ((node, n) :: C) [] t → t ≠ L →
  ∃ h', insert_by less h (addr s t) node s = Ok h' ∧ size h' = size h ∧
    zip h' (addr s t) s p0 C (path less (key n) t []) (T node (key n) true L L).
Proof.
  intros HZ Ht. pose proof HZ as [HO _]. pose proof (own_length _ _ _ HO) as Hlen. rewrite length_app in Hlen.
  pose proof (height_cells s t p0). simpl in Hlen.
  destruct (descend_spec less h (addr s t) s p0 node n C (S (size h)) t [] HZ Ht) as (d & z & kz & cz & sib & K & EK & E & HZ'); [lia|].
  unfold insert_by. rewrite E, ok_bind. rewrite EK in *. destruct HZ' as [H0 Hr]. simpl in H0, Hr.
  rewrite <-(assoc_L (++)) in H0. destruct (own_wr _ _ _ _ _ (with_child d node) H0) as (h1 & -> & H1 & S1 & _).
  rewrite ok_bind, with_child_mknode in *.
  assert (own h1 s ((node, n) :: (z, mknode d kz node (addr s sib) (par p0 K) cz) :: tcells s z sib ++ kcells s p0 z K ++ C)) as H1'
    by (eapply own_proper; [|exact H1]; solve_Permutation).
  destruct (own_wr _ _ _ _ _ (with_parent z) H1') as (h2 & -> & H2 & S2 & _). rewrite ok_bind.
  destruct (own_wr _ _ _ _ _ (with_child true s) H2) as (h3 & -> & H3 & S3 & _). rewrite ok_bind.
  destruct (own_wr _ _ _ _ _ (with_child false s) H3) as (h4 & -> & H4 & S4 & _). rewrite ok_bind.
  destruct (own_wr _ _ _ _ _ (with_color 1) H4) as (h5 & -> & H5 & S5 & _).
  exists h5. split; [done|]. split; [congruence|]. split; [|exact Hr]. simpl. rewrite <-(assoc_L (++)). exact H5.
Qed.

(** ** Colours *)

(** The colour of the focus is changed. *)
Lemma color_spec h rt s p0 C K x k c c' l r : zip h rt s p0 C K (T x k c l r) → ∃ h', wr h x (with_color (col c')) = Ok h' ∧
  zip h' rt s p0 C K (T x k c' l r) ∧ size h' = size h.
Proof.
  intros [HO Hr]. simpl in HO. destruct (own_wr _ _ _ _ _ (with_color (col c')) HO) as (h' & -> & HO' & Hs & _).
  exists h'. split; [done|]. split; [|done]. by split.
Qed.

Lemma color_mk h rt s p0 C K d x k c c' u v : zip h rt s p0 C K (mk d x k c u v) → ∃ h', wr h x (with_color (col c')) = Ok h' ∧
  zip h' rt s p0 C K (mk d x k c' u v) ∧ size h' = size h.
Proof. destruct d; apply color_spec. Qed.

Lemma mk_flip d x k c u v : mk (negb d) x k c u v = mk d x k c v u.
Proof. by destruct d. Qed.

(** ** Order *)

Fixpoint inorder (t : tree) : list (Z * Z) := match t with L => [] | T x k _ l r => inorder l ++ (x, k) :: inorder r end.

Lemma plug_inorder K : ∀ t t', inorder t = inorder t' → inorder (plug K t) = inorder (plug K t').
Proof.
  induction K as [|[d x k c sib] K IH]; intros t t' E; simpl; [done|]. apply IH. destruct d; simpl; by rewrite E.
Qed.

Lemma mk_inorder d x k c u v u' v' c' : inorder u = inorder u' → inorder v = inorder v' →
  inorder (mk d x k c u v) = inorder (mk d x k c' u' v').
Proof. intros E1 E2. destruct d; simpl; by rewrite E1, E2. Qed.

Lemma rotate_inorder d x k c y ky cy a b e : inorder (mk d x k c a (mk d y ky cy b e)) = inorder (mk d y ky cy (mk d x k c a b) e).
Proof. destruct d; simpl; by rewrite <-!app_assoc. Qed.

(** ** Red-black trees

    [rb t n]: no red node has a red child, and every way down passes [n] black nodes. *)

Definition red (t : tree) : bool := match t with T _ _ true _ _ => true | _ => false end.

Fixpoint rb (t : tree) (n : nat) : Prop :=
  match t with
  | L => n = O
  | T _ _ true l r => red l = false ∧ red r = false ∧ rb l n ∧ rb r n
  | T _ _ false l r => match n with O => False | S n => rb l n ∧ rb r n end
  end.

Definition top_red (K : list frame) : bool := match K with F _ _ _ c _ :: _ => c | [] => false end.

(** The same of a path into whose place a tree of [n] black nodes fits; only the colour of
    its root may be in the way. *)
Fixpoint rbk (K : list frame) (n : nat) : Prop :=
  match K with
  | [] => True
  | F _ _ _ c sib :: K => rb sib n ∧ (c = true → red sib = false ∧ top_red K = false ∧ K ≠ []) ∧
      rbk K (if c then n else S n)
  end.

Lemma rb_mk d x k c u v n : rb (mk d x k c u v) n ↔
  if c then red u = false ∧ red v = false ∧ rb u n ∧ rb v n else match n with O => False | S n => rb u n ∧ rb v n end.
Proof. destruct d, c, n; simpl; tauto. Qed.

Lemma red_mk d x k c u v : red (mk d x k c u v) = c.
Proof. by destruct d, c. Qed.

Lemma plug_rb K : ∀ t n, rbk K n → rb t n → (red t = true → top_red K = false) → ∃ m, rb (plug K t) m.
Proof.
  induction K as [|[d x k c sib] K IH]; intros t n HK Ht Hr; simpl in *; [by exists n|]. destruct HK as (Hs & Hc & HK).
  apply (IH (mk d x k c t sib) (if c then n else S n)); [done| |].
  - rewrite rb_mk. destruct c; [|done]. destruct (Hc eq_refl) as (Hsr & _). split; [|done].
    destruct (red t); [by discriminate Hr|done].
  - rewrite red_mk. intros ->. by apply Hc.
Qed.

(** The way down in a red-black tree ends at a place for a tree without black nodes. *)
Lemma path_rbk less k t : ∀ K n, rb t n → rbk K n → (red t = true → top_red K = false ∧ K ≠ []) → rbk (path less k t K) 0.
Proof.
  induction t as [|x kx c l IHl r IHr]; intros K n Ht HK Hr; simpl in *; [by subst|].
  assert (∀ d u v, T x kx c l r = mk d x kx c u v → (∀ K n, rb u n → rbk K n → (red u = true → top_red K = false ∧ K ≠ []) →
    rbk (path less k u K) 0) → rbk (path less k u (F d x kx c v :: K)) 0) as Hgo.
  { intros d u v E IH. assert (rb (mk d x kx c u v) n) as Ht' by (rewrite <-E; exact Ht). apply rb_mk in Ht'. destruct c.
    - destruct Ht' as (Hu & Hv & Hru & Hrv). destruct (Hr eq_refl) as [? ?].
      apply (IH _ n); simpl; [done|split; [done|split; [done|done]]|]. intros Hu'. congruence.
    - destruct n as [|m]; [done|]. destruct Ht' as [Hru Hrv]. apply (IH _ m); simpl; [done|done|done]. }
  destruct (less k kx); [by apply (Hgo true l r)|by apply (Hgo false r l)].
Qed.

(** ** Re-balancing *)

(** The end of a round whose uncle is black: the parent [y] becomes the root of the part. *)
Lemma fix_end h rt s p0 C K d gx gk gsib y ky e ix ik il ir :
  zip h rt s p0 C (F d y ky true e :: F d gx gk false gsib :: K) (T ix ik true il ir) → ∃ h' rt',
  (n ← rd h ix;
   h ← wr h (parent n) (with_color 0);
   p ← rd h (parent n);
   h ← wr h (parent p) (with_color 1);
   '(h, root) ← rotate (negb d) h rt s (parent p);
   Ok (h, root, ix)) = Ok (h', rt', ix) ∧ size h' = size h ∧
  zip h' rt' s p0 C K (mk d y ky false (T ix ik true il ir) (mk d gx gk true e gsib)).
Proof.
  intros HZ. rewrite (zip_node _ _ _ _ _ _ _ _ _ _ _ HZ), ok_bind. simpl (parent _).
  apply zip_out in HZ. destruct (color_mk _ _ _ _ _ _ _ _ _ _ false _ _ HZ) as (h1 & Hw & H1 & S1). simpl (col _) in Hw.
  rewrite Hw, ok_bind. apply zip_in in H1. rewrite (zip_up _ _ _ _ _ _ _ _ _ _ _ _ H1), ok_bind, parent_mknode. simpl (par _ _).
  apply zip_out, zip_out in H1. destruct (color_mk _ _ _ _ _ _ _ _ _ _ true _ _ H1) as (h2 & Hw2 & H2 & S2). simpl (col _) in Hw2.
  rewrite Hw2, ok_bind. rewrite <-mk_flip, <-(mk_flip d y) in H2.
  destruct (rotate_spec _ _ _ _ _ _ _ _ _ _ _ _ _ _ _ _ H2) as (h3 & rt3 & -> & H3 & S3). rewrite ok_bind.
  exists h3, rt3. split; [done|]. split; [congruence|]. by rewrite !mk_flip in H3.
Qed.

(** Exchange at the node before the end of a round: the node on the inner side moves up. *)
Lemma fix_inner h rt s p0 C K d d1 px pk psib x k l r : zip h rt s p0 C (F d1 px pk true psib :: K) (T x k true l r) →
  ∃ h' rt' y ky e ix ik il ir,
  (p ← rd h px;
   if x =? child (negb d) p then '(h, root) ← rotate d h rt s px; Ok (h, root, px) else Ok (h, rt, x)) = Ok (h', rt', ix) ∧
  size h' = size h ∧ zip h' rt' s p0 C (F d y ky true e :: K) (T ix ik true il ir) ∧
  inorder (mk d y ky true (T ix ik true il ir) e) = inorder (mk d1 px pk true (T x k true l r) psib) ∧
  (∀ n, rb psib n → red psib = false → rb l n → rb r n → red l = false → red r = false →
    rb e n ∧ red e = false ∧ rb il n ∧ rb ir n ∧ red il = false ∧ red ir = false).
Proof.
  intros HZ. rewrite (zip_up _ _ _ _ _ _ _ _ _ _ _ _ HZ), ok_bind. simpl (addr _ (T _ _ _ _ _)).
  destruct (decide (d1 = d)) as [->|Hd].
  - rewrite child_mknode_neg. assert (addr s psib ≠ x) as Hx.
    { by apply (zip_sib _ _ _ _ _ _ _ _ _ _ _ _ HZ). }
    rewrite (proj2 (Z.eqb_neq _ _)) by done. exists h, rt, px, pk, psib, x, k, l, r. do 4 (split; [done|]). tauto.
  - assert (d1 = negb d) as -> by (destruct d, d1; done). rewrite child_mknode, Z.eqb_refl.
    apply zip_out in HZ. rewrite mk_flip in HZ.
    assert (T x k true l r = mk d x k true (if d then l else r) (if d then r else l)) as ET by (by destruct d).
    rewrite ET in HZ. destruct (rotate_spec _ _ _ _ _ _ _ _ _ _ _ _ _ _ _ _ HZ) as (h' & rt' & -> & H' & S').
    rewrite ok_bind. apply zip_in in H'.
    exists h', rt', x, k, (if d then r else l), px, pk, (if d then psib else r), (if d then l else psib).
    split; [by destruct d|]. split; [done|]. split; [|split].
    + by destruct d.
    + rewrite ET, mk_flip, rotate_inorder. by destruct d.
    + destruct d; tauto.
Qed.

Lemma fix_side_spec h rt s p0 C K d1 px pk psib d gx gk gsib x k l r n :
  zip h rt s p0 C (F d1 px pk true psib :: F d gx gk false gsib :: K) (T x k true l r) →
  rb psib n → red psib = false → rb l n → rb r n → red l = false → red r = false → rb gsib n →
  ∃ h' rt' ix ik il ir K', fix_side d h rt s x = Ok (h', rt', ix) ∧ size h' = size h ∧
    zip h' rt' s p0 C K' (T ix ik true il ir) ∧
    inorder (plug K' (T ix ik true il ir)) = inorder (plug K (mk d gx gk false (mk d1 px pk true (T x k true l r) psib) gsib)) ∧
    (K' = K ∧ rb (T ix ik true il ir) (S n) ∨
     ∃ y ky v, K' = F d y ky false v :: K ∧ rb (mk d y ky false (T ix ik true il ir) v) (S n)).
Proof.
  intros HZ Hps Hpr Hl Hr Hlr Hrr Hgs. unfold fix_side.
  pose proof (zip_node _ _ _ _ _ _ _ _ _ _ _ HZ) as Hn. pose proof (zip_up _ _ _ _ _ _ _ _ _ _ _ _ HZ) as Hp.
  pose proof (zip_up _ _ _ _ _ _ _ _ _ _ _ _ (zip_out _ _ _ _ _ _ _ _ _ _ _ _ HZ)) as Hg. simpl (par _ _) in *.
  rewrite Hn, ok_bind. simpl (parent (Node _ _ _ _ _)). rewrite Hp, ok_bind, parent_mknode, Hg, ok_bind, child_mknode_neg.
  destruct (red gsib) eqn:Hug.
  - destruct gsib as [|ux uk [] ul ur]; try done. destruct Hgs as (Hulr & Hurr & Hul & Hur).
    assert (zip h rt s p0 C (F (negb d) gx gk false (mk d1 px pk true (T x k true l r) psib) :: K) (T ux uk true ul ur)) as HU.
    { apply zip_in. rewrite mk_flip. by apply zip_out, zip_out. }
    simpl (addr s _). rewrite (zip_node _ _ _ _ _ _ _ _ _ _ _ HU), ok_bind. simpl (negb _). cbn iota.
    apply zip_out in HZ. destruct (color_mk _ _ _ _ _ _ _ _ _ _ false _ _ HZ) as (h1 & Hw1 & H1 & S1). simpl (col _) in Hw1.
    rewrite Hw1, ok_bind. apply zip_out in H1. rewrite <-mk_flip in H1. apply zip_in in H1.
    destruct (color_spec _ _ _ _ _ _ _ _ _ false _ _ H1) as (h2 & Hw2 & H2 & S2). simpl (col _) in Hw2. rewrite Hw2, ok_bind.
    apply zip_out in H2. rewrite mk_flip in H2.
    destruct (color_mk _ _ _ _ _ _ _ _ _ _ true _ _ H2) as (h3 & Hw3 & H3 & S3). simpl (col _) in Hw3. rewrite Hw3, ok_bind.
    set (A := mk d1 px pk false (T x k true l r) psib) in *. set (B := T ux uk false ul ur) in *.
    exists h3, rt, gx, gk, (if d then A else B), (if d then B else A), K. split; [done|]. split; [congruence|].
    assert (T gx gk true (if d then A else B) (if d then B else A) = mk d gx gk true A B) as -> by (by destruct d).
    split; [done|]. split; [|left; split; [done|]].
    + apply plug_inorder, mk_inorder; [by apply mk_inorder|done].
    + apply rb_mk. unfold A, B. rewrite red_mk. split; [done|]. split; [done|]. split; [|done]. apply rb_mk. done.
  - assert (∃ un, rd h (addr s gsib) = Ok un ∧ color un = 0) as (un & Hun & Huc).
    { destruct gsib as [|ux uk [] ul ur]; try done; [destruct (own_sentinel h s _ (proj1 HZ)) as (un & ? & ? & _); by exists un|].
      assert (zip h rt s p0 C (F (negb d) gx gk false (mk d1 px pk true (T x k true l r) psib) :: K) (T ux uk false ul ur)) as HU.
      { apply zip_in. rewrite mk_flip. by apply zip_out, zip_out. }
      eexists. split; [by eapply zip_node|done]. }
    rewrite Hun, ok_bind, Huc. simpl (negb _). cbn iota.
    destruct (fix_inner _ _ _ _ _ _ d _ _ _ _ _ _ _ _ HZ) as (h1 & rt1 & y & ky & e & ix & ik & il & ir & Hrun & S1 & H1 & Eio & Hrb).
    rewrite Hp, ok_bind in Hrun. rewrite Hrun, ok_bind.
    destruct (fix_end _ _ _ _ _ _ _ _ _ _ _ _ _ _ _ _ _ H1) as (h2 & rt2 & -> & S2 & H2). apply zip_in in H2.
    destruct (Hrb n Hps Hpr Hl Hr Hlr Hrr) as (He & Her & Hil & Hir & Hilr & Hirr).
    exists h2, rt2, ix, ik, il, ir, (F d y ky false (mk d gx gk true e gsib) :: K). split; [done|]. split; [congruence|].
    split; [done|]. split; [|right; eexists _, _, _; split; [done|]].
    + simpl. apply plug_inorder. rewrite <-(mk_inorder d gx gk false _ gsib _ _ false Eio eq_refl).
      destruct d; simpl; by rewrite <-?app_assoc.
    + apply rb_mk. split; [by simpl|]. apply rb_mk. done.
Qed.

Lemma zip_at_root h rt s p0 C K x k c l r : zip h rt s p0 C K (T x k c l r) → (x =? rt) = bool_decide (K = []).
Proof.
  intros [HO ->]. simpl. apply (at_root h s x (Node k (addr s l) (addr s r) (par p0 K) (col c)) p0 K (tcells s x l ++ tcells s x r ++ C)).
  eapply own_proper; [|exact HO]. simpl. solve_Permutation.
Qed.

(** All the way up. *)
Lemma zip_plug h rt s p0 C K : ∀ t, zip h rt s p0 C K t → zip h rt s p0 C [] (plug K t).
Proof. induction K as [|[d x k c sib] K IH]; intros t HZ; simpl; [done|]. by apply IH, zip_out. Qed.

(** The loop re-balances the tree: from a red node whose parent may be red to a red-black tree
    with the same nodes in order. *)
Lemma fix_loop_spec s p0 C fuel : ∀ K h rt x k l r n, zip h rt s p0 C K (T x k true l r) →
  rb (T x k true l r) n → rbk K n → (length K < fuel)%nat → ∃ h' rt' t' m, fix_loop fuel h rt s x = Ok (h', rt') ∧
  size h' = size h ∧ zip h' rt' s p0 C [] t' ∧ inorder t' = inorder (plug K (T x k true l r)) ∧ rb t' m.
Proof.
  induction fuel as [|fuel IH]; intros K h rt x k l r n HZ Hrb HK Hf; [lia|]. cbn [fix_loop].
  rewrite (zip_at_root _ _ _ _ _ _ _ _ _ _ _ HZ). destruct K as [|[d1 px pk pc psib] K].
  - rewrite bool_decide_eq_true_2 by done. exists h, rt, (T x k true l r), n. done.
  - rewrite bool_decide_eq_false_2 by done. rewrite (zip_node _ _ _ _ _ _ _ _ _ _ _ HZ), ok_bind. simpl (parent _).
    rewrite (zip_up _ _ _ _ _ _ _ _ _ _ _ _ HZ), ok_bind, color_mknode, parent_mknode. destruct pc.
    2:{ simpl (_ =? _). cbn iota. destruct (plug_rb _ _ _ HK Hrb) as (m & Hm); [done|].
        exists h, rt, (plug (F d1 px pk false psib :: K) (T x k true l r)), m. split; [done|]. split; [done|].
        split; [by apply zip_plug|]. done. }
    simpl (_ =? _). cbn iota. destruct HK as (Hps & Hc & HK). destruct (Hc eq_refl) as (Hpr & Htop & Hne).
    destruct K as [|[d gx gk gc gsib] K]; [done|]. simpl in Htop. subst gc. destruct HK as (Hgs & _ & HK).
    pose proof (zip_out _ _ _ _ _ _ _ _ _ _ _ _ HZ) as HZp. pose proof (zip_up _ _ _ _ _ _ _ _ _ _ _ _ HZp) as Hg.
    simpl (par _ _). rewrite Hg, ok_bind. rewrite mk_addr.
    assert ((px =? left (mknode d gk px (addr s gsib) (par p0 K) false)) = d) as ->.
    { destruct d; simpl; [apply Z.eqb_refl|]. apply Z.eqb_neq, not_eq_sym.
      pose proof (zip_sib _ _ _ _ _ _ _ _ _ _ _ _ HZp) as Hs. rewrite mk_addr in Hs. apply Hs. by destruct d1. }
    destruct Hrb as (Hlr & Hrr & Hl & Hr).
    destruct (fix_side_spec _ _ _ _ _ _ _ _ _ _ _ _ _ _ _ _ _ _ _ HZ Hps Hpr Hl Hr Hlr Hrr Hgs)
      as (h1 & rt1 & ix & ik & il & ir & K' & -> & S1 & H1 & Eio & Hcase). rewrite ok_bind.
    simpl in Hf. simpl (plug (_ :: _) _). rewrite <-Eio.
    destruct Hcase as [[-> Hrb]|(y & ky & v & -> & Hrb)].
    + destruct (IH K h1 rt1 ix ik il ir (S n) H1 Hrb HK ltac:(lia)) as (h2 & rt2 & t2 & m & -> & S2 & H2 & E2 & R2).
      exists h2, rt2, t2, m. split; [done|]. split; [congruence|]. done.
    + apply rb_mk in Hrb as [Hrb Hv]. destruct (IH (F d y ky false v :: K) h1 rt1 ix ik il ir n H1 Hrb) as (h2 & rt2 & t2 & m & -> & S2 & H2 & E2 & R2).
      * simpl. done.
      * simpl. lia.
      * exists h2, rt2, t2, m. split; [done|]. split; [congruence|]. done.
Qed.

(** ** The tree *)

(** The record [t] holds the red-black tree [tr] beside the other nodes [C]. *)
Definition tree_at (t : ngx_rbtree_t) (C : list (Z * ngx_rbtree_node_t)) (tr : tree) : Prop :=
  (∃ p0, zip (heap t) (root t) (sentinel t) p0 C [] tr) ∧ (∃ n, rb tr n) ∧ red tr = false.

(** Where an insertion puts a node: in front of the first whose key is greater. *)
Fixpoint ins (less : Z → Z → bool) (x k : Z) (l : list (Z * Z)) : list (Z * Z) :=
  match l with e :: l' => if less k e.2 then (x, k) :: l else e :: ins less x k l' | [] => [(x, k)] end.

(** Once a key is greater, so are those that follow it. *)
Definition mono (less : Z → Z → bool) (k : Z) (l : list (Z * Z)) : Prop :=
  StronglySorted (λ a b, less k a.2 = true → less k b.2 = true) l.

Lemma ins_ne less x k l : ins less x k l ≠ [].
Proof. destruct l as [|e l]; simpl; [done|]. by destruct (less k e.2). Qed.
Lemma ins_app less x k l1 l2 : (∀ e, e ∈ l1 → less k e.2 = false) → ins less x k (l1 ++ l2) = l1 ++ ins less x k l2.
Proof.
  induction l1 as [|e l1 IH]; intros H; simpl; [done|]. rewrite (H e ltac:(left)), IH; [done|]. intros e' He'. apply H. by right.
Qed.
Lemma ins_stop less x k l1 e l2 : less k e.2 = true → ins less x k (l1 ++ e :: l2) = ins less x k l1 ++ e :: l2.
Proof. intros He. induction l1 as [|f l1 IH]; simpl; [by rewrite He|]. destruct (less k f.2); [done|by rewrite IH]. Qed.

Lemma path_inorder less k x : ∀ t K, mono less k (inorder t) → ∃ t', inorder t' = ins less x k (inorder t) ∧
  inorder (plug (path less k t K) (T x k true L L)) = inorder (plug K t').
Proof.
  induction t as [|y ky c l IHl r IHr]; intros K Hm; simpl in *; [by exists (T x k true L L)|].
  apply StronglySorted_app in Hm as (Hx & Hml & Hmr). apply StronglySorted_cons in Hmr as [Hr Hmr].
  destruct (less k ky) eqn:Hk.
  - destruct (IHl (F true y ky c r :: K) Hml) as (l' & El & ->). exists (T y ky c l' r). split; [|done].
    simpl. rewrite El. by rewrite ins_stop.
  - destruct (IHr (F false y ky c l :: K) Hmr) as (r' & Er & ->). exists (T y ky c l r'). split; [|done].
    simpl. rewrite Er. rewrite ins_app; [simpl; by rewrite Hk|]. intros e He.
    destruct (less k e.2) eqn:E; [|done]. specialize (Hx e (y, ky) He ltac:(left) E). simpl in Hx. congruence.
Qed.

Lemma rb_black x k c l r n : rb (T x k c l r) n → ∃ m, rb (T x k false l r) m.
Proof. destruct c; [|by exists n]. intros (_ & _ & Hl & Hr). by exists (S n). Qed.

(** The end of an insertion: the root is made black. *)
Lemma blacken h rt s p0 C t n : zip h rt s p0 C [] t → rb t n → t ≠ L → ∃ h' t', wr h rt (with_color 0) = Ok h' ∧
  zip h' rt s p0 C [] t' ∧ inorder t' = inorder t ∧ (∃ m, rb t' m) ∧ red t' = false.
Proof.
  intros HZ Hrb Ht. destruct t as [|x k c l r]; [done|]. pose proof HZ as [_ Hr]. simpl in Hr. subst rt.
  destruct (color_spec _ _ _ _ _ _ _ _ _ false _ _ HZ) as (h' & Hw & HZ' & _). exists h', (T x k false l r).
  split; [exact Hw|]. split; [done|]. split; [done|]. split; [by eapply rb_black|done].
Qed.

Lemma insert_first h s node n C : own h s ((node, n) :: C) → ∃ h',
  (h ← wr h node (with_parent 0); h ← wr h node (with_child true s); h ← wr h node (with_child false s);
   h ← wr h node (with_color 0); Ok (Tree h node s)) = Ok (Tree h' node s) ∧
  zip h' node s 0 C [] (T node (key n) false L L).
Proof.
  intros H0. destruct (own_wr _ _ _ _ _ (with_parent 0) H0) as (h1 & -> & H1 & _). rewrite ok_bind.
  destruct (own_wr _ _ _ _ _ (with_child true s) H1) as (h2 & -> & H2 & _). rewrite ok_bind.
  destruct (own_wr _ _ _ _ _ (with_child false s) H2) as (h3 & -> & H3 & _). rewrite ok_bind.
  destruct (own_wr _ _ _ _ _ (with_color 0) H3) as (h4 & -> & H4 & _). rewrite ok_bind.
  exists h4. split; [done|]. by split.
Qed.

Lemma kcells_length s p0 K : ∀ a, (length K ≤ length (kcells s p0 a K))%nat.
Proof. induction K as [|[d x k c sib] K IH]; intros a; simpl; [done|]. rewrite length_app. specialize (IH x). lia. Qed.

(** Insertion into a red-black tree, with either comparison, ends without fault in a
    red-black tree whose nodes in order are those of the old one with the new node in front of the
    first with a greater key; no other node is touched. *)
Lemma insert_correct less t C tr node n : tree_at t ((node, n) :: C) tr → mono less (key n) (inorder tr) →
  ∃ t' tr', ngx_rbtree_insert (insert_by less) t node = Ok t' ∧ sentinel t' = sentinel t ∧ tree_at t' C tr' ∧
    inorder tr' = ins less node (key n) (inorder tr).
Proof.
  intros ([p0 HZ] & [b Hrb] & Hred) Hm. unfold ngx_rbtree_insert. set (s := sentinel t) in *.
  pose proof HZ as [HO Hrt]. simpl in Hrt. rewrite Hrt, (zip_addr _ _ _ _ _ _ _ HZ). destruct tr as [|x k c l r].
  - destruct (insert_first (heap t) s node n C HO) as (h' & -> & HZ'). eexists _, (T node (key n) false L L).
    split; [done|]. split; [done|]. split; [|done]. split; [by exists 0|]. split; [by exists 1%nat|done].
  - set (tr := T x k c l r) in *. rewrite Hrt in HZ. destruct (insert_by_spec less (heap t) s p0 node n C tr HZ) as (h1 & -> & S1 & H1); [done|].
    rewrite ok_bind. assert (rbk (path less (key n) tr []) 0) as HK by (eapply path_rbk; [exact Hrb|done|congruence]).
    destruct (fix_loop_spec s p0 C (S (size h1)) _ _ _ _ _ _ _ 0%nat H1) as (h2 & rt2 & t2 & m & -> & S2 & H2 & E2 & R2);
      [done|done| |].
    { pose proof (own_length _ _ _ (proj1 H1)) as Hlen. rewrite !length_app in Hlen.
      pose proof (kcells_length s p0 (path less (key n) tr []) (addr s (T node (key n) true L L))). lia. }
    rewrite ok_bind. destruct (path_inorder less (key n) node tr [] Hm) as (t0 & E0 & Ep). rewrite Ep in E2. simpl in E2.
    assert (t2 ≠ L) as Ht2.
    { intros ->. simpl in E2. rewrite E0 in E2. by apply (ins_ne less node (key n) (inorder tr)). }
    destruct (blacken _ _ _ _ _ _ _ H2 R2 Ht2) as (h3 & t3 & -> & H3 & E3 & R3 & B3). rewrite ok_bind.
    eexists _, t3. split; [done|]. split; [done|]. split; [|by rewrite E3, E2]. split; [by exists p0|]. by split.
Qed.

(** To the sibling. *)
Lemma zip_swap h rt s p0 C d x k c u K t : zip h rt s p0 C (F d x k c u :: K) t → zip h rt s p0 C (F (negb d) x k c t :: K) u.
Proof. intros HZ. apply zip_in. rewrite mk_flip. by apply zip_out. Qed.

(** The root of any part of the tree, a sentinel included. *)
Lemma own_sub h s C0 p u : own h s C0 → (∀ e, e ∈ tcells s p u → e ∈ C0) →
  ∃ un, rd h (addr s u) = Ok un ∧ color un = col (red u).
Proof.
  intros HO Hu. destruct u as [|x k c l r].
  - destruct (own_sentinel _ _ _ HO) as (un & ? & ? & _). by exists un.
  - eexists. split; [eapply own_in; [exact HO|apply Hu; left]|]. by destruct c.
Qed.

Lemma zip_color h rt s p0 C K t : zip h rt s p0 C K t → ∃ n, rd h (addr s t) = Ok n ∧ color n = col (red t).
Proof. intros [HO _]. eapply own_sub; [exact HO|]. intros e He. apply elem_of_app. by left. Qed.

(** ** The fix-up of a deletion

    The focus [t] has one black node less on its ways down than its place asks for. *)

Definition zipp (h : store) (rt s p0 : Z) (C : list (Z * ngx_rbtree_node_t)) (K : list frame) (t : tree) : Prop :=
  zip h rt s p0 C K t ∧ (t = L → sp = par p0 K).

Lemma zipp_read h rt s p0 C K t : zipp h rt s p0 C K t → ∃ n, rd h (addr s t) = Ok n ∧ parent n = par p0 K ∧ color n = col (red t).
Proof.
  intros [HZ Hs]. destruct t as [|x k c l r].
  - destruct (own_sentinel _ _ _ (proj1 HZ)) as (n & ? & ? & Hp). exists n. by rewrite Hp, Hs.
  - eexists. split; [by eapply zip_node|]. by destruct c.
Qed.

Definition deficit (t : tree) (n : nat) : Prop :=
  match t with T _ _ true l r => rb l n ∧ rb r n | _ => rb t n end.

(** A red sibling is exchanged for a black one. *)
Lemma del_red_sibling h rt s p0 C d p pk pc W K t n :
  zipp h rt s p0 C (F d p pk pc W :: K) t → rbk (F d p pk pc W :: K) (S n) → ∃ h' rt' pc' w wk u v K',
  (wn ← rd h (addr s W);
   if negb (color wn =? 0) then
     h ← wr h (addr s W) (with_color 0);
     h ← wr h p (with_color 1);
     '(h, root) ← rotate d h rt s p;
     t ← rd h (addr s t);
     p ← rd h (parent t);
     Ok (h, root, child (negb d) p)
   else Ok (h, rt, addr s W)) = Ok (h', rt', w) ∧ size h' = size h ∧
  zipp h' rt' s p0 C (F d p pk pc' (mk d w wk false u v) :: K') t ∧
  rbk (F d p pk pc' (mk d w wk false u v) :: K') (S n) ∧ (pc' = true ∨ (length K' ≤ length K)%nat) ∧
  inorder (plug (F d p pk pc' (mk d w wk false u v) :: K') t) = inorder (plug (F d p pk pc W :: K) t).
Proof.
  intros [HZ Hs] HK. destruct (zip_color _ _ _ _ _ _ _ (zip_swap _ _ _ _ _ _ _ _ _ _ _ _ HZ)) as (wn & -> & Hc). rewrite ok_bind.
  destruct HK as (HW & Hpc & HK). destruct (red W) eqn:Hr.
  - destruct pc; [by destruct (Hpc eq_refl)|]. destruct W as [|w wk [] wl wr_]; try done. destruct HW as (Hul & Hur & Hrl & Hrr).
    assert (T w wk true wl wr_ = mk d w wk true (if d then wl else wr_) (if d then wr_ else wl)) as E by (by destruct d).
    rewrite E in *. set (u := if d then wl else wr_) in *. set (v := if d then wr_ else wl) in *.
    rewrite Hc. simpl (negb _). cbn iota. rewrite mk_addr.
    apply zip_swap in HZ. destruct (color_mk _ _ _ _ _ _ _ _ _ _ false _ _ HZ) as (h1 & Hw1 & H1 & S1). simpl (col _) in Hw1.
    rewrite Hw1, ok_bind. apply zip_swap in H1. rewrite negb_involutive in H1. apply zip_out in H1.
    destruct (color_mk _ _ _ _ _ _ _ _ _ _ true _ _ H1) as (h2 & Hw2 & H2 & S2). simpl (col _) in Hw2. rewrite Hw2, ok_bind.
    destruct (rotate_spec _ _ _ _ _ _ _ _ _ _ _ _ _ _ _ _ H2) as (h3 & rt3 & -> & H3 & S3). rewrite ok_bind.
    apply zip_in, zip_in in H3.
    destruct (zipp_read h3 rt3 s p0 C (F d p pk true u :: F d w wk false v :: K) t (conj H3 Hs)) as (tn & -> & Hp & _).
    rewrite ok_bind, Hp. simpl (par _ _). rewrite (zip_up _ _ _ _ _ _ _ _ _ _ _ _ H3), ok_bind, child_mknode_neg.
    assert (red u = false ∧ red v = false ∧ rb u (S n) ∧ rb v (S n)) as (Hu & Hv & Hru & Hrv) by (unfold u, v; by destruct d).
    destruct u as [|u0 uk [] ul ur] eqn:Eu; try done.
    exists h3, rt3, true, u0, uk, (if d then ul else ur), (if d then ur else ul), (F d w wk false v :: K).
    assert (mk d u0 uk false (if d then ul else ur) (if d then ur else ul) = T u0 uk false ul ur) as EU by (by destruct d).
    rewrite EU. split; [done|]. split; [congruence|]. split; [by split|]. split; [|split; [by left|]].
    + split; [done|]. split; [done|]. split; [done|]. split; [done|]. exact HK.
    + simpl. apply plug_inorder. clearbody v. clear. destruct d; simpl; by repeat (rewrite <-?app_assoc; simpl).
  - rewrite Hc. simpl (negb _). cbn iota. destruct W as [|w wk [] wl wr_]; try done.
    assert (T w wk false wl wr_ = mk d w wk false (if d then wl else wr_) (if d then wr_ else wl)) as E by (by destruct d).
    exists h, rt, pc, w, wk, (if d then wl else wr_), (if d then wr_ else wl), K. rewrite <-E. split; [done|]. split; [done|].
    split; [by split|]. split; [by split|]. split; [by right|done].
Qed.

(** A nephew on the near side that is red becomes the sibling. *)
Lemma del_near_red h rt s p0 C d p pk pc w wk u uk a b v K t :
  zipp h rt s p0 C (F d p pk pc (mk d w wk false (mk d u uk true a b) v) :: K) t → ∃ h' rt',
  (h ← wr h u (with_color 0);
   h ← wr h w (with_color 1);
   '(h, root) ← rotate (negb d) h rt s w;
   t ← rd h (addr s t);
   p ← rd h (parent t);
   Ok (h, root, child (negb d) p)) = Ok (h', rt', u) ∧ size h' = size h ∧
  zipp h' rt' s p0 C (F d p pk pc (mk d u uk false a (mk d w wk true b v)) :: K) t.
Proof.
  intros [HZ Hs]. apply zip_swap, zip_in in HZ.
  destruct (color_mk _ _ _ _ _ _ _ _ _ _ false _ _ HZ) as (h1 & Hw1 & H1 & S1). simpl (col _) in Hw1. rewrite Hw1, ok_bind.
  apply zip_out in H1. destruct (color_mk _ _ _ _ _ _ _ _ _ _ true _ _ H1) as (h2 & Hw2 & H2 & S2). simpl (col _) in Hw2.
  rewrite Hw2, ok_bind, <-!(mk_flip d) in *.
  destruct (rotate_spec _ _ _ _ _ _ _ _ _ _ _ _ _ _ _ _ H2) as (h3 & rt3 & -> & H3 & S3). rewrite ok_bind, !mk_flip in *.
  apply zip_swap in H3. rewrite negb_involutive in H3.
  destruct (zipp_read h3 rt3 s p0 C _ t (conj H3 Hs)) as (tn & -> & Hp & _). rewrite ok_bind, Hp. simpl (par _ _).
  rewrite (zip_up _ _ _ _ _ _ _ _ _ _ _ _ H3), ok_bind, child_mknode_neg, mk_addr.
  exists h3, rt3. split; [done|]. split; [congruence|]. by split.
Qed.

(** A nephew on the far side that is red makes up for the missing black node. *)
Lemma del_far_red h rt s p0 C d p pk pc w wk u v vk vl vr K t :
  zipp h rt s p0 C (F d p pk pc (mk d w wk false u (T v vk true vl vr)) :: K) t → ∃ h' rt',
  (t ← rd h (addr s t);
   p ← rd h (parent t);
   h ← wr h w (with_color (color p));
   h ← wr h (parent t) (with_color 0);
   wn ← rd h w;
   h ← wr h (child (negb d) wn) (with_color 0);
   '(h, root) ← rotate d h rt s (parent t);
   Ok (h, root, root)) = Ok (h', rt', rt') ∧ size h' = size h ∧
  zip h' rt' s p0 C K (mk d w wk pc (mk d p pk false t u) (T v vk false vl vr)).
Proof.
  intros [HZ Hs]. destruct (zipp_read h rt s p0 C _ t (conj HZ Hs)) as (tn & -> & Hp & _). rewrite ok_bind, Hp. simpl (par _ _).
  rewrite (zip_up _ _ _ _ _ _ _ _ _ _ _ _ HZ), ok_bind, color_mknode. apply zip_swap in HZ.
  destruct (color_mk _ _ _ _ _ _ _ _ _ _ pc _ _ HZ) as (h1 & -> & H1 & S1). rewrite ok_bind. apply zip_out in H1.
  destruct (color_mk _ _ _ _ _ _ _ _ _ _ false _ _ H1) as (h2 & Hw2 & H2 & S2). simpl (col _) in Hw2. rewrite Hw2, ok_bind.
  apply zip_in in H2. rewrite <-(mk_flip d) in H2. apply zip_in in H2.
  rewrite (zip_up _ _ _ _ _ _ _ _ _ _ _ _ H2), ok_bind, child_mknode. simpl (addr _ _).
  destruct (color_spec _ _ _ _ _ _ _ _ _ false _ _ H2) as (h3 & Hw3 & H3 & S3). simpl (col _) in Hw3. rewrite Hw3, ok_bind.
  apply zip_out in H3. rewrite mk_flip in H3. apply zip_swap, zip_out in H3. rewrite negb_involutive in H3.
  destruct (rotate_spec _ _ _ _ _ _ _ _ _ _ _ _ _ _ _ _ H3) as (h4 & rt4 & -> & H4 & S4). rewrite ok_bind.
  exists h4, rt4. split; [done|]. split; [congruence|done].
Qed.

Lemma tree_mk d x k c l r : T x k c l r = mk d x k c (if d then l else r) (if d then r else l).
Proof. by destruct d. Qed.

(** The whole tree, red-black again but for the colour of its root. *)
Definition restored (h : store) (rt s p0 : Z) (C : list (Z * ngx_rbtree_node_t)) (l : list (Z * Z)) : Prop :=
  ∃ t m, zip h rt s p0 C [] t ∧ rb t m ∧ t ≠ L ∧ inorder t = l.

Lemma far_restored h rt s p0 C d p pk pc w wk t u v vk vl vr K n :
  zip h rt s p0 C K (mk d w wk pc (mk d p pk false t u) (T v vk false vl vr)) →
  rb t n → rb u n → rb (T v vk true vl vr) n → rbk K (if pc then S n else S (S n)) → (pc = true → top_red K = false) →
  restored h rt s p0 C (inorder (plug K (mk d p pk pc t (mk d w wk false u (T v vk true vl vr))))).
Proof.
  intros HZ Ht Hu Hv HK Hc. destruct Hv as (Hvl & Hvr & Hrl & Hrr).
  destruct (plug_rb K (mk d w wk pc (mk d p pk false t u) (T v vk false vl vr)) (if pc then S n else S (S n))) as (m & Hm).
  - done.
  - apply rb_mk. assert (rb (mk d p pk false t u) (S n)) by (by apply rb_mk). destruct pc; [|done]. rewrite red_mk. done.
  - by rewrite red_mk.
  - exists (plug K (mk d w wk pc (mk d p pk false t u) (T v vk false vl vr))), m. split; [by apply zip_plug|]. split; [done|].
    split.
    + intros E. apply (f_equal inorder) in E. simpl in E.
      assert (∀ K t, inorder (plug K t) = [] → inorder t = []) as Hnil.
      { clear. induction K as [|[d x k c sib] K IH]; intros t E; simpl in *; [done|]. apply IH in E. destruct d; simpl in E.
        - by apply app_nil in E as [_ E].
        - by apply app_nil in E as [_ E]. }
      apply Hnil in E. destruct d; simpl in E; by apply app_nil in E as [_ E].
    + apply plug_inorder. clear. destruct d; simpl; by repeat (rewrite <-?app_assoc; simpl).
Qed.

Lemma del_side_spec h rt s p0 C d p pk pc W K t n :
  zipp h rt s p0 C (F d p pk pc W :: K) t → red t = false → rb t n → rbk (F d p pk pc W :: K) (S n) → ∃ h' rt' x,
  del_side d h rt s (addr s t) = Ok (h', rt', x) ∧ size h' = size h ∧
  ((∃ K' t' n', x = addr s t' ∧ t' ≠ L ∧ zip h' rt' s p0 C K' t' ∧ deficit t' n' ∧ rbk K' (S n') ∧
     (red t' = true ∨ (length K' ≤ length K)%nat) ∧ inorder (plug K' t') = inorder (plug (F d p pk pc W :: K) t)) ∨
   (x = rt' ∧ restored h' rt' s p0 C (inorder (plug (F d p pk pc W :: K) t)))).
Proof.
  intros HZ Hr Ht HK. unfold del_side. destruct (zipp_read _ _ _ _ _ _ _ HZ) as (tn & -> & Hp & _).
  rewrite ok_bind, Hp. simpl (par _ _). rewrite (zip_up _ _ _ _ _ _ _ _ _ _ _ _ (proj1 HZ)), ok_bind, child_mknode_neg.
  destruct (del_red_sibling _ _ _ _ _ _ _ _ _ _ _ _ _ HZ HK) as (h1 & rt1 & pc1 & w & wk & u & v & K1 & Hrun & S1 & H1 & HK1 & Hlen & <-).
  destruct (zip_color _ _ _ _ _ _ _ (zip_swap _ _ _ _ _ _ _ _ _ _ _ _ (proj1 HZ))) as (wn & Hwn & _).
  rewrite Hwn, ok_bind in Hrun |- *. rewrite Hrun, ok_bind. clear Hrun Hwn HZ HK.
  destruct (zipp_read _ _ _ _ _ _ _ H1) as (tn1 & Hrt & Hp1 & _). rewrite Hrt, ok_bind.
  pose proof (zip_in _ _ _ _ _ _ _ _ _ _ _ _ (zip_swap _ _ _ _ _ _ _ _ _ _ _ _ (proj1 H1))) as Hu.
  pose proof (zip_swap _ _ _ _ _ _ _ _ _ _ _ _ Hu) as Hv.
  rewrite (zip_up _ _ _ _ _ _ _ _ _ _ _ _ Hu), ok_bind, child_mknode, child_mknode_neg.
  destruct (zip_color _ _ _ _ _ _ _ Hu) as (un & -> & Hcu). rewrite ok_bind.
  destruct (zip_color _ _ _ _ _ _ _ Hv) as (vn & -> & Hcv). rewrite ok_bind, Hcu, Hcv. clear Hu Hv.
  destruct HK1 as (Hw & Hc & HK1). apply rb_mk in Hw as [Hru Hrv].
  destruct (red v) eqn:Ev; [|destruct (red u) eqn:Eu]; simpl (col _); simpl (_ =? _).
  - destruct v as [|v vk [] vl vr]; try done. rewrite andb_false_r. cbn iota. rewrite ok_bind.
    destruct (del_far_red _ _ _ _ _ _ _ _ _ _ _ _ _ _ _ _ _ _ H1) as (h2 & rt2 & -> & S2 & H2).
    exists h2, rt2, rt2. split; [done|]. split; [congruence|]. right. split; [done|].
    eapply far_restored; [exact H2|done|done|done| |intros ->; by apply Hc]. by destruct pc1.
  - destruct u as [|u uk [] ul ur]; try done.
    rewrite (tree_mk d u uk true ul ur) in *. set (a := if d then ul else ur) in *. set (b := if d then ur else ul) in *.
    simpl (_ && _). cbn iota. rewrite mk_addr.
    destruct (del_near_red _ _ _ _ _ _ _ _ _ _ _ _ _ _ _ _ _ _ H1) as (h2 & rt2 & -> & S2 & H2). rewrite ok_bind.
    apply rb_mk in Hru as (Ha & Hb & Hra & Hrb). assert (rb (mk d w wk true b v) n) as Hbv by (by apply rb_mk).
    assert (∃ l r, mk d w wk true b v = T w wk true l r) as (l & r & E) by (destruct d; simpl; eauto). rewrite E in H2, Hbv.
    destruct (del_far_red _ _ _ _ _ _ _ _ _ _ _ _ _ _ _ _ _ _ H2) as (h3 & rt3 & -> & S3 & H3).
    exists h3, rt3, rt3. split; [done|]. split; [congruence|]. right. split; [done|].
    assert (inorder (plug (F d p pk pc1 (mk d w wk false (mk d u uk true a b) v) :: K1) t) =
      inorder (plug K1 (mk d p pk pc1 t (mk d u uk false a (T w wk true l r))))) as ->.
    { simpl. apply plug_inorder. rewrite <-E. clear. destruct d; simpl; by repeat (rewrite <-?app_assoc; simpl). }
    eapply far_restored; [exact H3|done|done|done| |intros ->; by apply Hc]. by destruct pc1.
  - simpl (_ && _). cbn iota. pose proof (zip_swap _ _ _ _ _ _ _ _ _ _ _ _ (proj1 H1)) as H1'.
    destruct (color_mk _ _ _ _ _ _ _ _ _ _ true _ _ H1') as (h2 & Hw2 & H2 & S2). simpl (col _) in Hw2. rewrite Hw2, ok_bind.
    apply zip_swap, zip_out in H2. rewrite negb_involutive in H2. rewrite Hp1. simpl (par _ _).
    exists h2, rt1, p. split; [done|]. split; [congruence|]. left.
    exists K1, (mk d p pk pc1 t (mk d w wk true u v)), (if pc1 then n else S n).
    split; [by rewrite mk_addr|]. split; [by destruct d|]. split; [done|].
    assert (rb (mk d w wk true u v) n) as Hrw by (by apply rb_mk). split; [|split; [by destruct pc1|split; [by rewrite red_mk|]]].
    + destruct d, pc1; simpl; by split.
    + simpl. apply plug_inorder. clear. by destruct d.
Qed.

Lemma zip_root h rt s p0 C K t : zip h rt s p0 C K t → (K = [] → t ≠ L) → (addr s t =? rt) = bool_decide (K = []).
Proof.
  intros HZ Ht. destruct t as [|x k c l r]; [|by eapply zip_at_root]. destruct K as [|f K]; [by destruct Ht|].
  rewrite bool_decide_eq_false_2 by done. apply Z.eqb_neq. destruct HZ as [HO ->]. apply not_eq_sym, (own_addr _ _ _ HO).
  rewrite !fmap_app. apply elem_of_app. right. apply elem_of_app. left. by apply (root_of_in s s p0 (f :: K)).
Qed.

Lemma plug_black K : ∀ t n, rbk K n → K ≠ [] → red (plug K t) = false.
Proof.
  induction K as [|[d x k c sib] K IH]; intros t n HK Hne; [done|]. simpl in *. destruct HK as (_ & Hc & HK).
  destruct K as [|f K]; [|by eapply IH]. simpl. rewrite red_mk. destruct c; [|done]. by destruct (Hc eq_refl) as (_ & _ & ?).
Qed.

(** The nodes above and below that a deletion has to keep in order. *)
Lemma del_turn h rt s p0 C K x k l r n : zip h rt s p0 C K (T x k true l r) → deficit (T x k true l r) n → rbk K (S n) → ∃ h' t' m,
  wr h x (with_color 0) = Ok h' ∧ zip h' rt s p0 C [] t' ∧ rb t' m ∧ red t' = false ∧ inorder t' = inorder (plug K (T x k true l r)).
Proof.
  intros HZ [Hl Hr] HK. destruct (color_spec _ _ _ _ _ _ _ _ _ false _ _ HZ) as (h' & Hw & HZ' & _). simpl (col _) in Hw.
  destruct (plug_rb K (T x k false l r) (S n)) as (m & Hm); [done..|].
  exists h', (plug K (T x k false l r)), m. split; [done|]. split; [by apply zip_plug|]. split; [done|]. split; [|by apply plug_inorder].
  destruct K as [|f K]; [done|]. by eapply plug_black.
Qed.

Lemma del_turn_root h rt s p0 C x k c l r n : zip h rt s p0 C [] (T x k c l r) → deficit (T x k c l r) n → ∃ h' t' m,
  wr h x (with_color 0) = Ok h' ∧ zip h' rt s p0 C [] t' ∧ rb t' m ∧ red t' = false ∧ inorder t' = inorder (T x k c l r).
Proof.
  intros HZ Hd. destruct (color_spec _ _ _ _ _ _ _ _ _ false _ _ HZ) as (h' & Hw & HZ' & _). simpl (col _) in Hw.
  exists h', (T x k false l r), (if c then S n else n). split; [done|]. split; [done|]. split; [by destruct c|done].
Qed.

(** The loop and the write that follows it. *)
Definition del_fix (fuel : nat) (h : store) (rt s temp : Z) : res ngx_rbtree_t :=
  '(h, rt, temp) ← del_loop fuel h rt s temp;
  h ← wr h temp (with_color 0);
  Ok (Tree h rt s).

Lemma del_loop_spec s p0 C fuel : ∀ K h rt t n, zipp h rt s p0 C K t → rbk K (S n) → deficit t n → (K = [] → t ≠ L) →
  ((if red t then 1 else length K + 2) ≤ fuel)%nat → ∃ h' rt' t' m,
  del_fix fuel h rt s (addr s t) = Ok (Tree h' rt' s) ∧
  zip h' rt' s p0 C [] t' ∧ rb t' m ∧ red t' = false ∧ inorder t' = inorder (plug K t).
Proof.
  induction fuel as [|fuel IH]; intros K h rt t n HZ HK Hd Ht Hf; [destruct (red t); lia|]. unfold del_fix. cbn [del_loop].
  rewrite (zip_root _ _ _ _ _ _ _ (proj1 HZ) Ht). destruct K as [|[d p pk pc W] K].
  { rewrite bool_decide_eq_true_2, ok_bind by done. destruct t as [|x k c l r]; [by destruct Ht|].
    destruct (del_turn_root _ _ _ _ _ _ _ _ _ _ _ (proj1 HZ) Hd) as (h' & t' & m & Hw & HZ' & ?). simpl (addr _ _). rewrite Hw, ok_bind.
    by exists h', rt, t', m. }
  rewrite bool_decide_eq_false_2 by done. destruct (zipp_read _ _ _ _ _ _ _ HZ) as (tn & -> & Hp & Hct). rewrite ok_bind, Hct.
  destruct (red t) eqn:Hr.
  { destruct t as [|x k [] l r]; try done. simpl (negb _). cbn iota. rewrite ok_bind. simpl (addr _ _).
    destruct (del_turn _ _ _ _ _ _ _ _ _ _ _ (proj1 HZ) Hd HK) as (h' & t' & m & -> & HZ' & ?). rewrite ok_bind.
    by exists h', rt, t', m. }
  simpl (negb _). cbn iota. rewrite Hp. simpl (par _ _). rewrite (zip_up _ _ _ _ _ _ _ _ _ _ _ _ (proj1 HZ)), ok_bind.
  assert (rb t n) as Ht' by (destruct t as [|? ? [] ? ?]; done).
  assert ((addr s t =? left (mknode d pk (addr s t) (addr s W) (par p0 K) pc)) = d) as ->.
  { destruct d; simpl; [apply Z.eqb_refl|]. apply Z.eqb_neq. apply (zip_sib _ _ _ _ _ _ _ _ _ _ _ _ (zip_swap _ _ _ _ _ _ _ _ _ _ _ _ (proj1 HZ))).
    intros ->. by destruct HK as [? _]. }
  destruct (del_side_spec _ _ _ _ _ _ _ _ _ _ _ _ _ HZ Hr Ht' HK) as (h1 & rt1 & x & -> & S1 & [H|H]); rewrite ok_bind.
  - destruct H as (K1 & t1 & n1 & -> & Hne & H1 & Hd1 & HK1 & Hlen & <-). apply (IH K1 h1 rt1 t1 n1); [|done|done|done|].
    + split; [done|]. by intros ->.
    + simpl in Hf. destruct (red t1); [lia|]. destruct Hlen; [done|lia].
  - destruct H as (-> & t1 & m & H1 & Hrb & Hne & <-). destruct fuel as [|fuel]; [simpl in Hf; lia|]. cbn [del_loop].
    rewrite Z.eqb_refl, ok_bind. destruct (blacken _ _ _ _ _ _ _ H1 Hrb Hne) as (h2 & t2 & -> & H2 & E2 & [m2 Hm2] & B2).
    rewrite ok_bind. by exists h2, rt1, t2, m2.
Qed.

End sentinel_parent.

(** ** Deletion *)

Lemma own_wr_sent sp h s C f : own sp h s C → ∃ h' n, wr h s f = Ok h' ∧ parent n = sp ∧ color n = 0 ∧ size h' = size h ∧
  (color (f n) = 0 → own (parent (f n)) h' s C).
Proof.
  intros HO. destruct (own_sentinel _ _ _ _ HO) as (n & Hr & Hc & Hp). exists (<[s := f n]> h), n. unfold wr. rewrite Hr, ok_bind.
  split; [done|]. split; [done|]. split; [done|]. destruct HO as [H1 H2 H3 (H0 & m & Hm & _)]. split.
  - apply map_size_insert_Some. by exists m.
  - intros Hf. split; [done| |done|].
    + intros x w Hx. rewrite lookup_insert_ne; [by apply H2|]. apply not_eq_sym. apply H3. apply list_elem_of_fmap. by exists (x, w).
    + split; [done|]. exists (f n). by rewrite lookup_insert_eq.
Qed.

(** The parent of a part of the tree is set, where the part is empty that of the sentinel. *)
Lemma set_parent sp h s p v u C : own sp h s (tcells s p u ++ C) → ∃ h' sp', wr h (addr s u) (with_parent v) = Ok h' ∧
  own sp' h' s (tcells s v u ++ C) ∧ size h' = size h ∧ (u = L → sp' = v).
Proof.
  intros HO. destruct u as [|x k c l r]; simpl (addr _ _).
  - destruct (own_wr_sent _ _ _ _ (with_parent v) HO) as (h' & n & -> & Hp & Hc & Hs & H). exists h', v.
    split; [done|]. split; [by apply H|done].
  - destruct (own_wr _ _ _ _ _ _ (with_parent v) HO) as (h' & -> & H & Hs & _). exists h', sp. done.
Qed.

(** A subtree whose root is made black. *)
Lemma turn_black sp h s p u C n : own sp h s (tcells s p u ++ C) → rb u n → ∃ h' u' m, wr h (addr s u) (with_color 0) = Ok h' ∧
  own sp h' s (tcells s p u' ++ C) ∧ addr s u' = addr s u ∧ rb u' m ∧ red u' = false ∧ inorder u' = inorder u ∧ size h' = size h.
Proof.
  intros HO Hrb. destruct u as [|x k c l r]; simpl (addr _ _).
  - destruct (own_wr_sent _ _ _ _ (with_color 0) HO) as (h' & m & -> & <- & Hc & Hs & H). exists h', L, n. simpl. eauto 10.
  - destruct (own_wr _ _ _ _ _ _ (with_color 0) HO) as (h' & -> & H & Hs & _). destruct (rb_black _ _ _ _ _ _ Hrb) as [m Hm].
    exists h', (T x k false l r), m. done.
Qed.

Lemma set_link_spec sp h s x nx p0 K y C : own sp h s ((x, nx) :: kcells s p0 x K ++ C) → K ≠ [] → ∃ h',
  set_link h (par p0 K) x y = Ok h' ∧ own sp h' s ((x, nx) :: kcells s p0 y K ++ C) ∧ size h' = size h.
Proof.
  intros HO HK. destruct (relink sp true _ _ _ _ _ _ y _ HO) as (h' & Hrun & HO' & Hs). exists h'. split; [|done].
  rewrite (at_root _ _ _ _ _ _ _ _ HO), bool_decide_eq_false_2 in Hrun by done. unfold set_link.
  revert Hrun. destruct (rd h (par p0 K)) as [n|e]; [|done]. rewrite !ok_bind. simpl (negb _). simpl (child _ _).
  destruct (x =? left n); destruct (wr h (par p0 K) _) as [h1|e]; try done; rewrite ok_bind; by intros [= ->].
Qed.

Lemma addr_plug s K : ∀ t, addr s (plug K t) = root_of (addr s t) K.
Proof. induction K as [|[d x k c sib] K IH]; intros t; simpl; [done|]. by rewrite IH, mk_addr. Qed.

Lemma plug_cells s p K : ∀ t, tcells s p (plug K t) ≡ₚ tcells s (par p K) t ++ kcells s p (addr s t) K.
Proof.
  induction K as [|[d x k c sib] K IH]; intros t; simpl; [by rewrite app_nil_r|]. rewrite IH, mk_cells, mk_addr. solve_Permutation.
Qed.

Lemma kcells_app s p0 K1 K : ∀ a, kcells s p0 a (K1 ++ K) = kcells s (par p0 K) a K1 ++ kcells s p0 (root_of a K1) K.
Proof.
  induction K1 as [|[d x k c sib] K1 IH]; intros a; simpl; [done|]. rewrite IH, <-(assoc_L (++)). do 3 f_equal. by destruct K1.
Qed.

Lemma par_app p0 K1 K : par p0 (K1 ++ K) = par (par p0 K) K1.
Proof. by destruct K1 as [|[]]. Qed.

Lemma plug_app K1 K : ∀ t, plug (K1 ++ K) t = plug K (plug K1 t).
Proof. induction K1 as [|[d x k c sib] K1 IH]; intros t; simpl; [done|]. apply IH. Qed.

Lemma zip_unplug sp h rt s p0 C K K2 : ∀ t, zip sp h rt s p0 C K (plug K2 t) → zip sp h rt s p0 C (K2 ++ K) t.
Proof. induction K2 as [|[d x k c sib] K2 IH]; intros t HZ; simpl in *; [done|]. by apply zip_in, IH. Qed.

(** The first node of a tree, and what is left without it. *)
Lemma first_spec sp h s C0 : own sp h s C0 → ∀ r fuel p, r ≠ L → (height r ≤ fuel)%nat → (∀ e, e ∈ tcells s p r → e ∈ C0) →
  ∃ K2 y ky cy ry, r = plug K2 (T y ky cy L ry) ∧ ngx_rbtree_min fuel h (addr s r) s = Ok y ∧
    inorder r = (y, ky) :: inorder (plug K2 ry).
Proof.
  intros HO. induction r as [|x k c l IHl r _]; intros fuel p Hr Hf HC; [done|]. destruct fuel as [|fuel]; [simpl in Hf; lia|].
  cbn [ngx_rbtree_min addr]. rewrite (own_in _ _ _ _ _ _ HO (HC _ ltac:(left))), ok_bind. simpl (left _). destruct l as [|lx lk lc ll lr].
  - simpl (addr _ _). rewrite Z.eqb_refl. by exists [], x, k, c, r.
  - assert ((addr s (T lx lk lc ll lr) =? s) = false) as ->.
    { apply Z.eqb_neq. apply (own_addr _ _ _ _ HO). apply list_elem_of_fmap. eexists. split; [|apply HC; right; left]. done. }
    destruct (IHl fuel x) as (K2 & y & ky & cy & ry & E & -> & Ei); [done|simpl in *; lia| |].
    + intros e He. apply HC. apply elem_of_cons. right. apply elem_of_app. by left.
    + exists (K2 ++ [F true x k c r]), y, ky, cy, ry. rewrite !plug_app, <-E. split; [done|]. split; [done|].
      simpl (plug [_] _). cbn [mk]. cbn [inorder] in Ei |- *. by rewrite Ei.
Qed.

Lemma rb_unplug K : ∀ t m, rb (plug K t) m → red (plug K t) = false → ∃ n, rbk K n ∧ rb t n ∧ (red t = true → top_red K = false ∧ K ≠ []).
Proof.
  induction K as [|[d x k c sib] K IH]; intros t m H Hr; simpl in *; [exists m; by rewrite Hr|].
  destruct (IH _ _ H Hr) as (n & HK & Hmk & Hc). rewrite red_mk in Hc. apply rb_mk in Hmk. destruct c.
  - destruct Hmk as (Ht & Hs & Hrt & Hrs). exists n. rewrite Ht. split; [|done]. split; [done|]. split; [|done].
    intros _. split; [done|]. by apply Hc.
  - destruct n as [|n]; [done|]. destruct Hmk as [Hrt Hrs]. by exists n.
Qed.

Lemma rbk_rename K2 d x k x' k' c sib K : ∀ n, rbk (K2 ++ F d x k c sib :: K) n → rbk (K2 ++ F d x' k' c sib :: K) n.
Proof.
  induction K2 as [|[d2 x2 k2 c2 sib2] K2 IH]; intros n HK; simpl in *; [done|]. destruct HK as (Hs & Hc & HK).
  split; [done|]. split; [|by apply IH]. intros E. destruct (Hc E) as (? & Ht & _). split; [done|]. by destruct K2 as [|[]].
Qed.

Lemma deficit_rb t n : rb t n → deficit t n.
Proof. destruct t as [|x k [] l r]; simpl; tauto. Qed.

(** The link from above [node] goes to [y]. *)
Lemma replace_link sp h s node nn p0 K y C R : own sp h s C → C ≡ₚ (node, nn) :: kcells s p0 node K ++ R → parent nn = par p0 K → ∃ h',
  (if node =? root_of node K then Ok (h, y)
   else n ← rd h node; h ← set_link h (parent n) node y; Ok (h, root_of node K)) = Ok (h', root_of y K) ∧
  own sp h' s ((node, nn) :: kcells s p0 y K ++ R) ∧ size h' = size h.
Proof.
  intros HO HP Hn. rewrite HP in HO. rewrite (at_root _ _ _ _ _ _ _ _ HO). case_bool_decide as HK.
  - subst K. by exists h.
  - rewrite (own_head _ _ _ _ _ _ HO), ok_bind, Hn. destruct (set_link_spec _ _ _ _ _ _ _ y _ HO HK) as (h' & -> & HO' & Hs).
    rewrite ok_bind. exists h'. split; [|done]. by destruct K.
Qed.

Lemma rd_perm sp h s C C' x n : own sp h s C → C ≡ₚ (x, n) :: C' → rd h x = Ok n.
Proof. intros HO HP. rewrite HP in HO. by eapply own_head. Qed.

Lemma replace_spec sp h s p0 C K node k c l K2 y ny ry :
  let nn := Node k (addr s l) (root_of (addr s ry) K2) (par p0 K) (col c) in
  own sp h s (tcells s y ry ++ (y, ny) :: (node, nn) :: kcells s node (addr s ry) K2 ++ tcells s node l ++ kcells s p0 node K ++ C) →
  parent ny = par node K2 →
  ∃ h' sp', replace_node h (root_of node K) s node y (addr s ry) = Ok (h', root_of y K) ∧ size h' = size h ∧
    zip sp' h' (root_of y K) s p0 ((node, nn) :: C) K (T y (key ny) c l (plug K2 ry)) ∧ (ry = L → sp' = par y K2).
Proof.
  intros nn HO Hp. unfold replace_node. set (v := if parent ny =? node then y else parent ny).
  assert (∃ q, v = par q K2 ∧ v = par y K2 ∧ kcells s node (addr s ry) K2 = kcells s q (addr s ry) K2) as (q & Hq & Hy & Hk).
  { unfold v. rewrite Hp. destruct K2 as [|[d x kx cx sib] K2]; simpl; [rewrite Z.eqb_refl; by exists y|].
    exists node. rewrite (proj2 (Z.eqb_neq _ _)); [done|]. intros ->. apply (own_ne sp h s node nn node
      (mknode d kx (addr s ry) (addr s sib) (par node K2) cx) (tcells s y ry ++ (y, ny) :: tcells s node sib ++ kcells s node node K2 ++
      tcells s node l ++ kcells s p0 node K ++ C)); [|done].
    eapply own_proper; [|exact HO]. simpl. solve_Permutation. }
  rewrite (rd_perm _ _ _ _ (tcells s y ry ++ (node, nn) :: kcells s node (addr s ry) K2 ++ tcells s node l ++ kcells s p0 node K ++ C) y ny HO)
    by solve_Permutation. rewrite ok_bind. fold v. rewrite Hk in HO.
  destruct (set_parent _ _ _ _ v _ _ HO) as (h1 & sp' & -> & H1 & S1 & Hsp). rewrite ok_bind.
  set (R := tcells s q (plug K2 ry) ++ tcells s node l ++ kcells s p0 node K ++ C).
  assert (own sp' h1 s ((node, nn) :: (y, ny) :: R)) as H1'.
  { eapply own_proper; [|exact H1]. unfold R. rewrite plug_cells, Hq. solve_Permutation. }
  clear H1 HO. rewrite (own_head _ _ _ _ _ _ H1'), ok_bind.
  assert (∀ n m, (node, n) :: (y, m) :: R ≡ₚ (y, m) :: (node, n) :: R) as Hsw by (intros; apply perm_swap).
  rewrite Hsw in H1'. destruct (own_wr _ _ _ _ _ _ (with_child true (left nn)) H1') as (h2 & -> & H2 & S2 & _). rewrite ok_bind.
  rewrite <-Hsw in H2. rewrite (own_head _ _ _ _ _ _ H2), ok_bind. rewrite Hsw in H2.
  destruct (own_wr _ _ _ _ _ _ (with_child false (right nn)) H2) as (h3 & -> & H3 & S3 & _). rewrite ok_bind.
  rewrite <-Hsw in H3. rewrite (own_head _ _ _ _ _ _ H3), ok_bind. rewrite Hsw in H3.
  destruct (own_wr _ _ _ _ _ _ (with_parent (parent nn)) H3) as (h4 & -> & H4 & S4 & _). rewrite ok_bind.
  rewrite <-Hsw in H4. rewrite (own_head _ _ _ _ _ _ H4), ok_bind. rewrite Hsw in H4.
  destruct (own_wr _ _ _ _ _ _ (with_color (color nn)) H4) as (h5 & -> & H5 & S5 & _). rewrite ok_bind. simpl in H5.
  set (yn := Node (key ny) (addr s l) (root_of (addr s ry) K2) (par p0 K) (col c)) in H5.
  destruct (replace_link _ _ _ node nn p0 K y _ ((y, yn) :: tcells s q (plug K2 ry) ++ tcells s node l ++ C) H5)
    as (h6 & -> & H6 & S6); [unfold R; solve_Permutation|done|]. rewrite ok_bind.
  rewrite (rd_perm _ _ _ _ ((node, nn) :: kcells s p0 y K ++ tcells s q (plug K2 ry) ++ tcells s node l ++ C) y yn H6)
    by solve_Permutation. rewrite ok_bind. simpl (left yn).
  assert (own sp' h6 s (tcells s node l ++ (y, yn) :: (node, nn) :: kcells s p0 y K ++ tcells s q (plug K2 ry) ++ C)) as H6'
    by (eapply own_proper; [|exact H6]; solve_Permutation).
  destruct (reparent _ _ _ _ _ y _ H6') as (h7 & -> & H7 & S7 & _). rewrite ok_bind.
  rewrite (rd_perm _ _ _ _ (tcells s y l ++ (node, nn) :: kcells s p0 y K ++ tcells s q (plug K2 ry) ++ C) y yn H7)
    by solve_Permutation. rewrite ok_bind. simpl (right yn).
  assert (own sp' h7 s (tcells s q (plug K2 ry) ++ (y, yn) :: (node, nn) :: kcells s p0 y K ++ tcells s y l ++ C)) as H7'
    by (eapply own_proper; [|exact H7]; solve_Permutation).
  rewrite <-addr_plug. destruct (reparent _ _ _ _ _ y _ H7') as (h8 & -> & H8 & S8 & _). rewrite ok_bind.
  exists h8, sp'. split; [done|]. split; [congruence|]. split; [|intros HL; rewrite <-Hy; by apply Hsp].
  split; [|done]. simpl. rewrite addr_plug. fold yn. eapply own_proper; [|exact H8]. solve_Permutation.
Qed.

(** The tree with any parent in the sentinel. *)
Definition tree_in (t : ngx_rbtree_t) (C : list (Z * ngx_rbtree_node_t)) (tr : tree) : Prop := ∃ sp, tree_at sp t C tr.

Lemma zip_other sp h rt s p0 x n C K t f : zip sp h rt s p0 ((x, n) :: C) K t → ∃ h', wr h x f = Ok h' ∧
  zip sp h' rt s p0 ((x, f n) :: C) K t ∧ size h' = size h.
Proof.
  intros [HO Hr]. assert (∀ m, tcells s (par p0 K) t ++ kcells s p0 (addr s t) K ++ (x, m) :: C ≡ₚ
    (x, m) :: tcells s (par p0 K) t ++ kcells s p0 (addr s t) K ++ C) as HP by (intros; solve_Permutation).
  rewrite HP in HO. destruct (own_wr _ _ _ _ _ _ f HO) as (h' & -> & HO' & Hs & _). rewrite <-HP in HO'. by exists h'.
Qed.

(** What remains in the place of a node of colour [c], in a path for [n] black nodes. *)
Definition left_over (c : bool) (u : tree) (n : nat) : Prop :=
  if c then rb u n ∧ red u = false else ∃ m, n = S m ∧ deficit u m.

Lemma left_over_child x k c l r n : rb (T x k c l r) n → left_over c l n ∧ left_over c r n.
Proof.
  destruct c; simpl; [tauto|]. destruct n as [|n]; [done|]. intros [Hl Hr]. split; exists n; by split; [|apply deficit_rb].
Qed.

(** The end of a deletion. *)
Lemma delete_end sp h rt s p0 C K u c n : zip sp h rt s p0 C K u → (u = L → sp = par p0 K) → K ≠ [] → rbk K n → left_over c u n →
  ∃ t' tr',
  (if negb (col c =? 0) then Ok (Tree h rt s)
   else '(h, rt, temp) ← del_loop (S (S (size h))) h rt s (addr s u); h ← wr h temp (with_color 0); Ok (Tree h rt s)) = Ok t' ∧
  sentinel t' = s ∧ tree_in t' C tr' ∧ inorder tr' = inorder (plug K u).
Proof.
  intros HZ Hs HK Hn Hu. destruct c; simpl in Hu; simpl (negb _); cbn iota.
  - destruct Hu as [Hu Hr]. exists (Tree h rt s), (plug K u). split; [done|]. split; [done|]. split; [|done]. exists sp.
    split; [exists p0; by apply zip_plug|]. split; [|by eapply plug_black]. eapply plug_rb; [done|done|]. by rewrite Hr.
  - destruct Hu as (m & -> & Hu).
    destruct (del_loop_spec sp s p0 C (S (S (size h))) K h rt u m (conj HZ Hs)) as (h' & rt' & t' & m' & Hrun & H' & Hrb & Hr & Ei);
      [done..| |].
    { pose proof (own_length _ _ _ _ (proj1 HZ)) as Hlen. rewrite !length_app in Hlen. pose proof (kcells_length s p0 K (addr s u)).
      destruct (red u); lia. }
    unfold del_fix in Hrun. exists (Tree h' rt' s), t'. split; [exact Hrun|]. split; [done|]. split; [|done]. exists sp.
    split; [by exists p0|]. by split; [exists m'|].
Qed.

(** A node with at most one child [u]. *)
Lemma delete_one sp h rt s p0 C K node k c l r u n : zip sp h rt s p0 C K (T node k c l r) → rbk K n → rb (T node k c l r) n →
  (l = L ∧ u = r ∨ r = L ∧ u = l) → ∃ t' tr', delete_at h rt s node node (addr s u) = Ok t' ∧ sentinel t' = s ∧
  tree_in t' ((node, Node 0 0 0 0 (col c)) :: C) tr' ∧ inorder tr' = inorder (plug K u).
Proof.
  intros HZ HK Hn Hu. unfold delete_at. rewrite (zip_at_root _ _ _ _ _ _ _ _ _ _ _ _ HZ).
  assert (left_over c u n) as Hlo by (destruct (left_over_child _ _ _ _ _ _ Hn), Hu as [[_ ->]|[_ ->]]; done).
  set (nn := Node k (addr s l) (addr s r) (par p0 K) (col c)).
  assert (own sp h s ((node, nn) :: kcells s p0 node K ++ tcells s node u ++ C)) as HO.
  { destruct HZ as [HO _]. simpl in HO. fold nn in HO. eapply own_proper; [|exact HO].
    destruct Hu as [[-> ->]|[-> ->]]; simpl; solve_Permutation. }
  case_bool_decide as HKe.
  - subst K. simpl in HO. assert (own sp h s (tcells s node u ++ (node, nn) :: C)) as HO' by (eapply own_proper; [|exact HO]; solve_Permutation).
    assert (∃ m, rb u m) as [m Hm].
    { destruct c; simpl in Hlo; [by exists n; apply Hlo|]. destruct n as [|n']; [by simpl in Hn|]. exists n'. simpl in Hn.
      destruct Hn, Hu as [[_ ->]|[_ ->]]; done. }
    destruct (turn_black _ _ _ _ _ _ _ HO' Hm) as (h1 & u' & m' & -> & H1 & Ea & Hrb & Hr & Ei & S1). rewrite ok_bind.
    destruct (zip_other sp h1 (addr s u') s node node nn C [] u' zeroed) as (h2 & -> & H2 & S2); [by split|]. rewrite ok_bind.
    exists (Tree h2 (addr s u) s), u'. split; [done|]. split; [done|]. split; [|done]. exists sp.
    split; [exists node; simpl; by rewrite <-Ea|]. by split; [exists m'|].
  - rewrite (own_head _ _ _ _ _ _ HO), ok_bind. simpl (color _). simpl (parent _).
    destruct (set_link_spec _ _ _ _ _ _ _ (addr s u) _ HO HKe) as (h1 & -> & H1 & S1). rewrite ok_bind, Z.eqb_refl.
    assert (own sp h1 s (tcells s node u ++ (node, nn) :: kcells s p0 (addr s u) K ++ C)) as H1' by (eapply own_proper; [|exact H1]; solve_Permutation).
    destruct (set_parent _ _ _ _ (par p0 K) _ _ H1') as (h2 & sp' & -> & H2 & S2 & Hsp). rewrite !ok_bind.
    destruct (zip_other sp' h2 (root_of (addr s u) K) s p0 node nn C K u zeroed) as (h3 & -> & H3 & S3).
    { split; [|done]. eapply own_proper; [|exact H2]. solve_Permutation. }
    rewrite ok_bind. assert (rt = root_of (addr s u) K) as -> by (destruct HZ as [_ ->]; by destruct K).
    by apply (delete_end _ _ _ _ _ _ _ _ c n H3 Hsp HKe HK).
Qed.

(** A node with two children: the first of its right subtree takes its place. *)
Lemma delete_two sp h rt s p0 C K node k c l K2 y ky cy ry n : zip sp h rt s p0 C K (T node k c l (plug K2 (T y ky cy L ry))) →
  rbk (K2 ++ F false node k c l :: K) n → rb (T y ky cy L ry) n →
  ∃ t' tr', delete_at h rt s node y (addr s ry) = Ok t' ∧ sentinel t' = s ∧
  tree_in t' ((node, Node 0 0 0 0 (col c)) :: C) tr' ∧ inorder tr' = inorder (plug K (T y ky c l (plug K2 ry))).
Proof.
  intros HZ HK Hn. assert (rt = root_of node K) as Hrt by apply HZ. set (K' := K2 ++ F false node k c l :: K) in *.
  assert (zip sp h rt s p0 C K' (T y ky cy L ry)) as HY by (apply zip_unplug, zip_in; exact HZ).
  assert (K' ≠ []) as HKe by (unfold K'; by destruct K2).
  unfold delete_at. rewrite (zip_at_root _ _ _ _ _ _ _ _ _ _ _ _ HY), bool_decide_eq_false_2 by done.
  rewrite (zip_node _ _ _ _ _ _ _ _ _ _ _ _ HY), ok_bind. simpl (color _). simpl (parent _).
  set (yn := Node ky s (addr s ry) (par p0 K') (col cy)).
  set (nn := Node k (addr s l) (root_of (addr s ry) K2) (par p0 K) (col c)).
  assert (own sp h s ((y, yn) :: kcells s p0 y K' ++ tcells s y ry ++ C)) as HO.
  { eapply own_proper; [|exact (proj1 HY)]. simpl. solve_Permutation. }
  destruct (set_link_spec _ _ _ _ _ _ _ (addr s ry) _ HO HKe) as (h1 & -> & H1 & S1). rewrite ok_bind.
  assert (own sp h1 s (tcells s y ry ++ (y, yn) :: (node, nn) :: kcells s node (addr s ry) K2 ++ tcells s node l ++ kcells s p0 node K ++ C)) as H1'.
  { eapply own_proper; [|exact H1]. unfold K'. rewrite kcells_app. simpl. solve_Permutation. }
  rewrite (proj2 (Z.eqb_neq y node)).
  2:{ apply (own_ne sp h1 s y yn node nn (tcells s y ry ++ kcells s node (addr s ry) K2 ++ tcells s node l ++ kcells s p0 node K ++ C)).
      eapply own_proper; [|exact H1']. solve_Permutation. }
  rewrite Hrt. destruct (replace_spec _ _ _ _ _ _ _ _ _ _ _ _ yn _ H1') as (h2 & sp' & -> & S2 & H2 & Hsp).
  { simpl. unfold K'. by rewrite par_app. }
  rewrite ok_bind. destruct (zip_other _ _ _ _ _ _ _ _ _ _ zeroed H2) as (h3 & -> & H3 & S3). rewrite ok_bind.
  assert (zip sp' h3 (root_of y K) s p0 ((node, zeroed nn) :: C) (K2 ++ F false y ky c l :: K) ry) as H4 by (apply zip_unplug, zip_in; exact H3).
  assert (plug K (T y ky c l (plug K2 ry)) = plug (K2 ++ F false y ky c l :: K) ry) as -> by (by rewrite plug_app).
  apply (delete_end _ _ _ _ _ _ _ _ cy n H4).
  - intros E. rewrite par_app. by apply Hsp.
  - by destruct K2.
  - by eapply rbk_rename.
  - by eapply left_over_child.
Qed.

(** The nodes on the two sides of a path. *)
Fixpoint pre (K : list frame) : list (Z * Z) :=
  match K with [] => [] | F d x k _ sib :: K => pre K ++ (if d then [] else inorder sib ++ [(x, k)]) end.
Fixpoint post (K : list frame) : list (Z * Z) :=
  match K with [] => [] | F d x k _ sib :: K => (if d then (x, k) :: inorder sib else []) ++ post K end.

Lemma plug_split K : ∀ t, inorder (plug K t) = pre K ++ inorder t ++ post K.
Proof.
  induction K as [|[d x k c sib] K IH]; intros t; simpl; [by rewrite app_nil_r|]. rewrite IH.
  destruct d; simpl; by repeat (rewrite <-?(assoc_L (++)), ?app_nil_r; simpl).
Qed.

Lemma pre_app K1 K : pre (K1 ++ K) = pre K ++ pre K1.
Proof. induction K1 as [|[d x k c sib] K1 IH]; simpl; [by rewrite app_nil_r|]. by rewrite IH, <-(assoc_L (++)). Qed.
Lemma post_app K1 K : post (K1 ++ K) = post K1 ++ post K.
Proof. induction K1 as [|[d x k c sib] K1 IH]; simpl; [done|]. by rewrite IH, (assoc_L (++)). Qed.

Lemma inorder_find x k : ∀ t l1 l2, inorder t = l1 ++ (x, k) :: l2 → ∃ K c l r, t = plug K (T x k c l r) ∧
  pre K ++ inorder l = l1 ∧ inorder r ++ post K = l2.
Proof.
  induction t as [|y ky c l IHl r IHr]; intros l1 l2 E; simpl in E; [by destruct l1|].
  apply app_eq_app in E as (m & [[E1 E2]|[E1 E2]]); destruct m as [|e m]; rewrite ?app_nil_r in E1; simplify_eq/=.
  - exists [], c, l, r. by rewrite app_nil_r.
  - destruct (IHl _ _ E1) as (K & c' & l' & r' & -> & <- & <-). exists (K ++ [F true y ky c r]), c', l', r'.
    rewrite plug_app, pre_app, post_app. simpl. by rewrite <-!(assoc_L (++)), app_nil_r.
  - exists [], c, l, r. by rewrite app_nil_r.
  - destruct (IHr m l2 ltac:(done)) as (K & c' & l' & r' & -> & <- & <-). exists (K ++ [F false y ky c l]), c', l', r'.
    rewrite plug_app, pre_app, post_app. simpl. by rewrite <-!(assoc_L (++)), app_nil_r.
Qed.

(** A node of the tree, with the path to it. *)
Lemma tree_focus sp t p0 C tr x k l1 l2 : zip sp (heap t) (root t) (sentinel t) p0 C [] tr → inorder tr = l1 ++ (x, k) :: l2 →
  ∃ K c l r, tr = plug K (T x k c l r) ∧ pre K ++ inorder l = l1 ∧ inorder r ++ post K = l2 ∧
  zip sp (heap t) (root t) (sentinel t) p0 C K (T x k c l r).
Proof.
  intros HZ E. destruct (inorder_find _ _ _ _ _ E) as (K & c & l & r & -> & E1 & E2). exists K, c, l, r.
  split; [done|]. split; [done|]. split; [done|]. rewrite <-(app_nil_r K). by apply zip_unplug.
Qed.

(** Deletion of any node of a red-black tree ends without fault in a red-black tree of the other nodes, in
    their order. *)
Lemma delete_correct t C tr node k l1 l2 : tree_in t C tr → inorder tr = l1 ++ (node, k) :: l2 → ∃ t' c tr',
  ngx_rbtree_delete t node = Ok t' ∧ sentinel t' = sentinel t ∧ tree_in t' ((node, Node 0 0 0 0 (col c)) :: C) tr' ∧
  inorder tr' = l1 ++ l2.
Proof.
  intros (sp & [p0 HZ] & [b Hrb] & Hred) Hin. destruct (tree_focus _ _ _ _ _ _ _ _ _ HZ Hin) as (K & c & l & r & -> & <- & <- & HF). clear Hin.
  assert (∀ u, inorder u = inorder l ++ inorder r → inorder (plug K u) = (pre K ++ inorder l) ++ inorder r ++ post K) as Hi.
  { intros u Hu. by rewrite plug_split, Hu, <-!(assoc_L (++)). }
  destruct (rb_unplug _ _ _ Hrb Hred) as (n & HK & Hn & Hc). unfold ngx_rbtree_delete. set (s := sentinel t) in *.
  rewrite (zip_node _ _ _ _ _ _ _ _ _ _ _ _ HF), ok_bind. simpl (left _). simpl (right _).
  rewrite (zip_addr _ _ _ _ _ _ _ _ (zip_in _ _ _ _ _ _ true _ _ _ _ _ _ HF)).
  rewrite (zip_addr _ _ _ _ _ _ _ _ (zip_in _ _ _ _ _ _ false _ _ _ _ _ _ HF)).
  destruct l as [|lx lk lc ll lr] eqn:El.
  { rewrite ok_bind. destruct (delete_one _ _ _ _ _ _ _ _ _ _ _ _ r n HF HK Hn) as (t' & tr' & -> & Hs & Ht & Ei); [by left|].
    exists t', c, tr'. split; [done|]. split; [done|]. split; [done|]. rewrite Ei. by apply Hi. }
  rewrite <-El in *. destruct r as [|rx rk rc rl rr] eqn:Er.
  { rewrite ok_bind. destruct (delete_one _ _ _ _ _ _ _ _ _ _ _ _ l n HF HK Hn) as (t' & tr' & -> & Hs & Ht & Ei); [by right|].
    exists t', c, tr'. split; [done|]. split; [done|]. split; [done|]. rewrite Ei. apply Hi. by rewrite app_nil_r. }
  rewrite <-Er in *. pose proof HF as [HO _].
  destruct (first_spec _ _ _ _ HO r (S (size (heap t))) node) as (K2 & y & ky & cy & ry & E & -> & Eo); [by rewrite Er| | |].
  { pose proof (own_length _ _ _ _ HO) as Hlen. simpl in Hlen. rewrite !length_app in Hlen. pose proof (height_cells s r node). lia. }
  { intros e He. simpl. rewrite !elem_of_cons, !elem_of_app. tauto. }
  rewrite ok_bind. clear Er. subst r.
  assert (plug K (T node k c l (plug K2 (T y ky cy L ry))) = plug (K2 ++ F false node k c l :: K) (T y ky cy L ry)) as E by (by rewrite plug_app).
  rewrite E in Hrb, Hred. destruct (rb_unplug _ _ _ Hrb Hred) as (n' & HK' & Hn' & _).
  rewrite (zip_node _ _ _ _ _ _ _ _ _ _ _ _ (zip_unplug _ _ _ _ _ _ _ _ _ (zip_in _ _ _ _ _ _ false _ _ _ _ _ _ HF))), ok_bind.
  simpl (left _). simpl (right _). rewrite Z.eqb_refl. simpl (negb _). cbn iota. rewrite ok_bind.
  destruct (delete_two _ _ _ _ _ _ _ _ _ _ _ _ _ _ _ _ n' HF HK' Hn') as (t' & tr' & -> & Hs & Ht & Ei).
  exists t', c, tr'. split; [done|]. split; [done|]. split; [done|]. rewrite Ei. apply Hi. cbn [inorder]. by rewrite Eo.
Qed.

(** ** Walking the tree *)

Lemma up_spec sp h rt s p0 C fuel : ∀ K t, zip sp h rt s p0 C K t → t ≠ L → (length K < fuel)%nat →
  up fuel h rt (addr s t) = Ok (match post K with e :: _ => e.1 | [] => 0 end).
Proof.
  induction fuel as [|fuel IH]; intros K t HZ Ht Hf; [lia|]. cbn [up].
  destruct t as [|x k c l r]; [done|]. cbn [addr].
  rewrite (zip_node _ _ _ _ _ _ _ _ _ _ _ _ HZ), ok_bind, (zip_at_root _ _ _ _ _ _ _ _ _ _ _ _ HZ).
  destruct K as [|[d p pk pc sib] K]; [done|]. rewrite bool_decide_eq_false_2 by done. simpl (parent _).
  rewrite (zip_up _ _ _ _ _ _ _ _ _ _ _ _ _ HZ), ok_bind. destruct d; simpl (left _).
  - rewrite Z.eqb_refl. done.
  - rewrite (proj2 (Z.eqb_neq _ _)) by (apply not_eq_sym; by apply (zip_sib _ _ _ _ _ _ _ _ _ _ _ _ _ HZ)).
    simpl in Hf. apply (IH K (mk false p pk pc (T x k c l r) sib)); [by apply zip_out|done|lia].
Qed.

(** [ngx_rbtree_next] finds the node that follows in the order of the tree, null after the last. *)
Theorem ngx_rbtree_next_correct t C tr x k l1 l2 : tree_in t C tr → inorder tr = l1 ++ (x, k) :: l2 →
  ngx_rbtree_next t x = Ok (match l2 with e :: _ => e.1 | [] => 0 end).
Proof.
  intros (sp & [p0 HZ] & _) E. destruct (tree_focus _ _ _ _ _ _ _ _ _ HZ E) as (K & c & l & r & _ & _ & <- & HF).
  unfold ngx_rbtree_next. rewrite (zip_node _ _ _ _ _ _ _ _ _ _ _ _ HF), ok_bind. simpl (right _).
  rewrite (zip_addr _ _ _ _ _ _ _ _ (zip_in _ _ _ _ _ _ false _ _ _ _ _ _ HF)).
  pose proof (own_length _ _ _ _ (proj1 HF)) as Hlen. simpl in Hlen. rewrite !length_app in Hlen. destruct r as [|y ky cy rl rr] eqn:Er.
  - pose proof (kcells_length (sentinel t) p0 K x). apply (up_spec _ _ _ _ _ _ _ _ _ HF); [done|lia].
  - rewrite <-Er in *. destruct (first_spec _ _ _ _ (proj1 HF) r (S (size (heap t))) x) as (K2 & z & kz & cz & rz & _ & -> & ->);
      [by rewrite Er| | |done].
    + pose proof (height_cells (sentinel t) r x). lia.
    + intros e He. simpl. rewrite !elem_of_cons, !elem_of_app. tauto.
Qed.

(** ** Height *)

Lemma rb_height t : ∀ n, rb t n → (height t ≤ 2 * n + if red t then 1 else 0)%nat ∧ (2 ^ n ≤ S (length (inorder t)))%nat.
Proof.
  induction t as [|x k c l IHl r IHr]; intros n H; simpl in H; [subst; simpl; lia|]. cbn [height red inorder]. rewrite length_app. destruct c.
  - destruct H as (El & Er & Hl & Hr). apply IHl in Hl. apply IHr in Hr. rewrite El in Hl. rewrite Er in Hr. simpl in *. lia.
  - destruct n as [|n]; [done|]. destruct H as [Hl Hr]. apply IHl in Hl. apply IHr in Hr. rewrite Nat.pow_succ_r'. simpl (length (_ :: _)).
    destruct (red l), (red r); lia.
Qed.

Lemma tree_height t C tr : tree_in t C tr → (height tr ≤ 2 * Nat.log2 (S (length (inorder tr))))%nat.
Proof.
  intros (sp & _ & [n Hn] & Hr). apply rb_height in Hn as [Hh Hs]. rewrite Hr in Hh.
  apply Nat.log2_le_pow2 in Hs; lia.
Qed.

(** ** The theorems *)

(** A fresh tree is empty. *)
Lemma ngx_rbtree_init_correct h s n C : s ≠ 0 → h !! s = Some n → NoDup C.*1 → (∀ x m, (x, m) ∈ C → h !! x = Some m ∧ x ≠ 0 ∧ x ≠ s) →
  ∃ t, ngx_rbtree_init h s = Ok t ∧ sentinel t = s ∧ tree_in t C L.
Proof.
  intros Hs Hn Hnd HC. unfold ngx_rbtree_init, wr, rd. rewrite (proj2 (Z.eqb_neq _ _) Hs), Hn. cbn [get_or]. rewrite !ok_bind.
  eexists. split; [done|]. split; [done|]. exists (parent n). split; [|by split; [exists 0%nat|]]. exists 0. split; [|done].
  split; simpl; [done| | |].
  - intros x m Hx. destruct (HC x m Hx) as (? & _ & ?). by rewrite lookup_insert_ne.
  - intros x ([y m] & -> & Hx)%list_elem_of_fmap. by destruct (HC y m Hx).
  - split; [done|]. eexists. rewrite lookup_insert_eq. done.
Qed.

Lemma insert_in less t C tr node n : tree_in t ((node, n) :: C) tr → mono less (key n) (inorder tr) →
  ∃ t' tr', ngx_rbtree_insert (insert_by less) t node = Ok t' ∧ sentinel t' = sentinel t ∧ tree_in t' C tr' ∧
    inorder tr' = ins less node (key n) (inorder tr).
Proof.
  intros (sp & HT) Hm. destruct (insert_correct sp _ _ _ _ _ _ HT Hm) as (t' & tr' & E & Hs & HT' & Ei). exists t', tr'.
  split; [done|]. split; [done|]. split; [by exists sp|done].
Qed.

(** C4: Insertion into a red-black tree whose keys are in order for the comparison, which may be either, ends without fault in a
    red-black tree whose nodes in order are those of the old one with the new node in front of the
    first with a greater key; no other node is touched. *)
Theorem ngx_rbtree_insert_correct less t C tr node n : tree_in t ((node, n) :: C) tr → mono less (key n) (inorder tr) →
  ∃ t' tr', ngx_rbtree_insert (insert_by less) t node = Ok t' ∧ sentinel t' = sentinel t ∧ tree_in t' C tr' ∧
    inorder tr' = ins less node (key n) (inorder tr).
Proof. apply insert_in. Qed.

(** C3: Deletion of any node of a red-black tree, with no, one or two children, ends without fault in a red-black
    tree of the other nodes in their old order; the node itself is cleared but for its colour. *)
Theorem ngx_rbtree_delete_correct t C tr node k l1 l2 : tree_in t C tr → inorder tr = l1 ++ (node, k) :: l2 → ∃ t' c tr',
  ngx_rbtree_delete t node = Ok t' ∧ sentinel t' = sentinel t ∧ tree_in t' ((node, Node 0 0 0 0 (col c)) :: C) tr' ∧
  inorder tr' = l1 ++ l2.
Proof. apply delete_correct. Qed.

(** The loops that go down from the root, to the place of a new node and to the first one,
    make at most twice as many rounds as the logarithm of the number of nodes and one. *)
Theorem ngx_rbtree_search_cost less t C tr node n : tree_in t ((node, n) :: C) tr → tr ≠ L →
  let m := (2 * Nat.log2 (S (length (inorder tr))))%nat in
  (∃ z d, descend less m (heap t) (root t) node (sentinel t) = Ok (z, d)) ∧
  ∃ x k l, inorder tr = (x, k) :: l ∧ ngx_rbtree_min m (heap t) (root t) (sentinel t) = Ok x.
Proof.
  intros HT Hne m. pose proof (tree_height _ _ _ HT) as Hh. destruct HT as (sp & [p0 HZ] & _).
  assert (root t = addr (sentinel t) tr) as Hr by apply HZ. rewrite Hr. split.
  - destruct (descend_spec sp less _ _ _ _ _ _ _ m tr [] HZ Hne Hh) as (d & z & kz & cz & sib & K & _ & E & _). by exists z, d.
  - destruct (first_spec _ _ _ _ (proj1 HZ) tr m p0 Hne Hh) as (K2 & y & ky & cy & ry & _ & E & ->).
    + intros e He. apply elem_of_app. by left.
    + by exists y, ky, (inorder (plug K2 ry)).
Qed.

(** ** Storage beside the tree *)

Lemma own_alloc sp h s C x n : own sp h s C → x ≠ 0 → h !! x = None → own sp (<[x := n]> h) s ((x, n) :: C).
Proof.
  intros [H1 H2 H3 (H0 & m & Hm & ? & ?)] Hx Hn.
  assert (∀ y k, (y, k) ∈ C → y ≠ x) as Hne by (intros y k Hy ->; by rewrite (H2 _ _ Hy) in Hn). split.
  - simpl. apply NoDup_cons. split; [|done]. intros ([y k] & -> & Hy)%list_elem_of_fmap. by apply (Hne _ _ Hy).
  - intros y k [[= -> ->]|Hy]%elem_of_cons; [apply lookup_insert_eq|]. rewrite lookup_insert_ne; [by apply H2|].
    apply not_eq_sym. by eapply Hne.
  - simpl. intros y [->|Hy]%elem_of_cons; [|by apply H3]. split; [done|]. intros ->. by rewrite Hm in Hn.
  - split; [done|]. exists m. rewrite lookup_insert_ne; [done|]. intros ->. by rewrite Hm in Hn.
Qed.

Lemma own_free sp h s C x n : own sp h s ((x, n) :: C) → own sp (delete x h) s C.
Proof.
  intros [H1 H2 H3 (H0 & m & Hm & ?)]. simpl in *. apply NoDup_cons in H1 as [Hx H1]. split; [done| | |].
  - intros y k Hy. rewrite lookup_delete_ne; [apply H2; by right|]. intros ->. apply Hx. apply list_elem_of_fmap. by exists (y, k).
  - intros y Hy. apply H3. by right.
  - split; [done|]. exists m. rewrite lookup_delete_ne; [done|]. by apply H3; left.
Qed.

Lemma zip_perm sp h h' rt s p0 C C' t : (∀ A, own sp h s (A ++ C) → own sp h' s (A ++ C')) →
  zip sp h rt s p0 C [] t → zip sp h' rt s p0 C' [] t.
Proof. intros H [HO Hr]. split; [|done]. by apply H. Qed.

(** A node is allocated, or freed. *)
Lemma tree_alloc t C tr x n : tree_in t C tr → x ≠ 0 → heap t !! x = None →
  tree_in (Tree (<[x := n]> (heap t)) (root t) (sentinel t)) ((x, n) :: C) tr.
Proof.
  intros (sp & [p0 HZ] & H) Hx Hn. exists sp. split; [|done]. exists p0. eapply zip_perm; [|exact HZ]. intros A HO.
  rewrite <-Permutation_middle. by apply own_alloc.
Qed.
Lemma tree_free t C tr x n : tree_in t ((x, n) :: C) tr → tree_in (Tree (delete x (heap t)) (root t) (sentinel t)) C tr.
Proof.
  intros (sp & [p0 HZ] & H). exists sp. split; [|done]. exists p0. eapply zip_perm; [|exact HZ]. intros A HO.
  rewrite <-Permutation_middle in HO. by eapply own_free.
Qed.

(** The root is the sentinel where there is no node; the first node otherwise. *)
Lemma tree_first t C tr : tree_in t C tr →
  match inorder tr with
  | [] => root t = sentinel t
  | (x, k) :: _ => root t ≠ sentinel t ∧ ngx_rbtree_min (S (size (heap t))) (heap t) (root t) (sentinel t) = Ok x ∧
      ∃ n, rd (heap t) x = Ok n ∧ key n = k
  end.
Proof.
  intros (sp & [p0 HZ] & _). assert (root t = addr (sentinel t) tr) as Hr by apply HZ. pose proof HZ as [HO _].
  pose proof (zip_addr _ _ _ _ _ _ _ _ HZ) as Ha. destruct tr as [|y ky cy l r] eqn:Et; [done|]. apply Z.eqb_neq in Ha.
  rewrite <-Et in *. destruct (first_spec _ _ _ _ HO tr (S (size (heap t))) p0) as (K2 & x & k & c & rx & E & Hm & Eo).
  - by rewrite Et.
  - pose proof (height_cells (sentinel t) tr p0). pose proof (own_length _ _ _ _ HO) as Hlen. rewrite length_app in Hlen. simpl in *. lia.
  - intros e He. apply elem_of_app. by left.
  - rewrite Eo, Hr. split; [done|]. split; [done|]. rewrite E in HZ.
    apply zip_unplug in HZ. eexists. split; [by eapply zip_node|done].
Qed.

Lemma tree_dom t C tr x : tree_in t C tr → x ∈ (inorder tr).*1 → is_Some (heap t !! x) ∧ x ≠ 0.
Proof.
  intros (sp & [p0 HZ] & _) ([y k] & -> & Hy)%list_elem_of_fmap. apply list_elem_of_split in Hy as (l1 & l2 & E).
  destruct (tree_focus _ _ _ _ _ _ _ _ _ HZ E) as (K & c & l & r & _ & _ & _ & HF). apply zip_node in HF.
  unfold rd in HF. simpl. destruct (Z.eqb_spec y 0); [done|]. destruct (heap t !! y); [by split|done].
Qed.

Lemma tree_NoDup t C tr : tree_in t C tr → NoDup (inorder tr).*1.
Proof.
  intros (sp & [p0 [HO _]] & _). apply own_nodup in HO. rewrite fmap_app in HO. apply NoDup_app in HO as [HO _].
  assert (∀ s p, (tcells s p tr).*1 ≡ₚ (inorder tr).*1) as HP.
  { clear. induction tr as [|x k c l IHl r IHr]; intros s p; simpl; [done|]. rewrite !fmap_app. simpl. rewrite IHl, IHr.
    apply Permutation_middle. }
  by rewrite HP in HO.
Qed.

(** ** Keys in order *)

Definition by_key : list (Z * Z) → Prop := StronglySorted (λ a b, a.2 ≤ b.2).

Lemma by_key_mono k l : by_key l → mono Z.ltb k l.
Proof.
  induction 1 as [|a l _ IH Hl]; constructor; [exact IH|]. eapply Forall_impl; [exact Hl|]. intros b Hab. simpl in *. rewrite !Z.ltb_lt. lia.
Qed.

(** ** A concrete tree *)

Definition blank (k : Z) : ngx_rbtree_node_t := Node k 0 0 0 0.
Definition ex_store : store := {[ 100 := blank 0; 1 := blank 50; 2 := blank 20; 3 := blank 70; 4 := blank 60 ]}.

(** Nodes 1, 2 and 3 in the tree, 4 beside it. *)
Lemma ex_tree : ∃ t tr, tree_in t [(4, blank 60)] tr ∧ inorder tr = [(2, 20); (1, 50); (3, 70)] ∧ sentinel t = 100.
Proof.
  destruct (ngx_rbtree_init_correct ex_store 100 (blank 0) [(1, blank 50); (2, blank 20); (3, blank 70); (4, blank 60)])
    as (t0 & _ & S0 & H0); [done|done|by apply (bool_decide_unpack _)| |].
  { intros x m Hx. repeat (apply elem_of_cons in Hx as [[= -> ->]|Hx]; [by split|]). by apply elem_of_nil in Hx. }
  destruct (insert_in Z.ltb _ _ _ _ _ H0) as (t1 & tr1 & _ & S1 & H1 & I1); [by apply by_key_mono; constructor|].
  destruct (insert_in Z.ltb _ _ _ _ _ H1) as (t2 & tr2 & _ & S2 & H2 & I2); [rewrite I1; by repeat constructor|].
  destruct (insert_in Z.ltb _ _ _ _ _ H2) as (t3 & tr3 & _ & S3 & H3 & I3); [rewrite I2, I1; by repeat constructor|].
  exists t3, tr3. split; [exact H3|]. split; [by rewrite I3, I2, I1|congruence].
Qed.

Example ngx_rbtree_insert_correct_witness : ∃ t tr t' tr', tree_in t [(4, blank 60)] tr ∧
  ngx_rbtree_insert ngx_rbtree_insert_value t 4 = Ok t' ∧ tree_in t' [] tr' ∧ inorder tr' = [(2, 20); (1, 50); (4, 60); (3, 70)].
Proof.
  destruct ex_tree as (t & tr & H & Ei & _).
  destruct (ngx_rbtree_insert_correct Z.ltb t [] tr 4 (blank 60) H) as (t' & tr' & E & _ & H' & Ei').
  - rewrite Ei. apply by_key_mono. repeat constructor; intros [=].
  - exists t, tr, t', tr'. split; [exact H|]. split; [exact E|]. split; [exact H'|]. rewrite Ei', Ei. reflexivity.
Defined.

Example ngx_rbtree_delete_correct_witness : ∃ t t' c tr', ngx_rbtree_delete t 1 = Ok t' ∧
  tree_in t' [(1, Node 0 0 0 0 (col c)); (4, blank 60)] tr' ∧ inorder tr' = [(2, 20); (3, 70)].
Proof.
  destruct ex_tree as (t & tr & H & Ei & _).
  destruct (ngx_rbtree_delete_correct t _ tr 1 50 [(2, 20)] [(3, 70)] H Ei) as (t' & c & tr' & E & _ & H' & Ei').
  exists t, t', c, tr'. split; [exact E|]. split; [exact H'|exact Ei'].
Defined.

Example ngx_rbtree_search_cost_witness : ∃ t, ngx_rbtree_min 4 (heap t) (root t) (sentinel t) = Ok 2.
Proof.
  destruct ex_tree as (t & tr & H & Ei & _). exists t.
  destruct (ngx_rbtree_search_cost Z.ltb t [] tr 4 (blank 60) H) as (_ & x & k & l & E & Hm); [intros ->; discriminate Ei|].
  rewrite Ei in E, Hm. injection E as <- _ _. exact Hm.
Defined.

Example ngx_rbtree_next_correct_witness : ∃ t, ngx_rbtree_next t 1 = Ok 3.
Proof.
  destruct ex_tree as (t & tr & H & Ei & _). exists t.
  exact (ngx_rbtree_next_correct t _ tr 1 50 [(2, 20)] [(3, 70)] H Ei).
Defined.

(** Nodes inserted in order, one deleted with two children, and the way through the rest. *)
Definition ex_run : res (list Z) :=
  let h := list_to_map ((100, blank 0) :: ((λ k, (k, blank (10 * k))) <$> seqZ 1 9)) in
  t ← ngx_rbtree_init h 100;
  t ← foldr (λ x t, t ← t; ngx_rbtree_insert ngx_rbtree_insert_value t x) (Ok t) (seqZ 1 9);
  t ← ngx_rbtree_delete t (root t);
  x ← ngx_rbtree_min 9 (heap t) (root t) (sentinel t);
  a ← ngx_rbtree_next t x; b ← ngx_rbtree_next t a; c ← ngx_rbtree_next t b; d ← ngx_rbtree_next t c;
  e ← ngx_rbtree_next t d; f ← ngx_rbtree_next t e; g ← ngx_rbtree_next t f; z ← ngx_rbtree_next t g;
  Ok [x; a; b; c; d; e; f; g; z].
Example rb_run_ok : ex_run = Ok [1; 2; 3; 4; 5; 7; 8; 9; 0].
Proof. vm_compute. reflexivity. Qed.

End RbTree.
