(* ===== verification/RbTimer.v ===== *)
(** * The timers of 7.2timers/timers/rbt-timer.h, kept in the red-black tree

    A timer is a tree node with a handler; the tree's order is that of the expiry times, read as
    32-bit times that wrap around.  The addresses that [malloc] gives and the clock
    are arguments, and the handlers called are recorded as events. *)

From S2P Require Import Prelude.
From S2P Require Import RbTree.
Import RbTree.

Module RbTimer.

(** ** Data *)

(** The tree, and the member [handler] of each timer by the address of the timer, which is that
    of its node. *)
(* src: 7.2timers/timers/rbt-timer.h:27-30 timer_entry_s *)
Record timers : Type := Timers { timer : ngx_rbtree_t; handlers : gmap Z Z }.

(** Milliseconds in 32 bits, from the answer of [clock_gettime]. *)
(* src: 7.2timers/timers/rbt-timer.h:32-47 current_time *)
Definition current_time (tv_sec tv_nsec : Z) : Z := u32 (u32 (u32 tv_sec * 1000) + tv_nsec / 1000000).

(** [s] is the address of the static sentinel. *)
(* src: 7.2timers/timers/rbt-timer.h:49-52 init_timer *)
Definition init_timer (s : Z) : res timers :=
  t ← ngx_rbtree_init {[ s := Node 0 0 0 0 0 ]} s;
  Ok (Timers t ∅).

(** [te] is the answer of [malloc], [now] that of [current_time]. *)
(* src: 7.2timers/timers/rbt-timer.h:54-62 add_timer *)
Definition add_timer (st : timers) (te msec func now : Z) : res timers :=
  if te =? 0 then Err NullDeref
  else
    let t := timer st in
    let h := <[te := Node 0 0 0 0 0]> (heap t) in
    let msec := u32 (msec + now) in
    h ← wr h te (λ n, Node msec (left n) (right n) (parent n) (color n));
    t ← ngx_rbtree_insert ngx_rbtree_insert_timer_value (Tree h (root t) (sentinel t)) te;
    Ok (Timers t (<[te := func]> (handlers st))).

(* src: 7.2timers/timers/rbt-timer.h:64-67 del_timer *)
Definition del_timer (st : timers) (te : Z) : res timers :=
  t ← ngx_rbtree_delete (timer st) te;
  Ok (Timers (Tree (delete te (heap t)) (root t) (sentinel t)) (delete te (handlers st))).

(** The difference of two [int]s. *)
(* src: 7.2timers/timers/rbt-timer.h:75-75 find_nearest_expire_timer *)
Definition int_sub (a b : Z) : res Z :=
  if (- 2 ^ 31 <=? a - b) && (a - b <? 2 ^ 31) then Ok (a - b) else Err SignedOverflow.

(* src: 7.2timers/timers/rbt-timer.h:69-77 find_nearest_expire_timer *)
Definition find_nearest_expire_timer (st : timers) (now : Z) : res Z :=
  let t := timer st in
  if root t =? sentinel t then Ok (-1)
  else
    node ← ngx_rbtree_min (S (size (heap t))) (heap t) (root t) (sentinel t);
    n ← rd (heap t) node;
    diff ← int_sub (i32 (key n)) (i32 now);
    Ok (if 0 <? diff then diff else 0).

(** The copy of the file beside the reactor keeps the difference in a [uint32_t]. *)
(* src: 4.2net_from_nginx_redis_memcached/reactor/rbt-timer.h:70-79 find_nearest_expire_timer *)
Definition reactor_find_nearest (st : timers) (now : Z) : res Z :=
  let t := timer st in
  if root t =? sentinel t then Ok (-1)
  else
    node ← ngx_rbtree_min (S (size (heap t))) (heap t) (root t) (sentinel t);
    n ← rd (heap t) node;
    diff ← int_sub (i32 (key n)) (i32 now);
    let time := u32 diff in
    Ok (i32 (if 0 <? time then time else 0)).

(* src: 7.2timers/timers/rbt-timer.h:84-94 expire_timer *)
Fixpoint expire_loop (fuel : nat) (st : timers) (now : Z) : res (timers * list (Z * Z)) :=
  match fuel with
  | O => Err OutOfFuel
  | S fuel =>
      let t := timer st in
      if root t =? sentinel t then Ok (st, [])
      else
        node ← ngx_rbtree_min (S (size (heap t))) (heap t) (root t) (sentinel t);
        n ← rd (heap t) node;
        if now <? key n then Ok (st, [])
        else
          func ← get_or UseAfterFree (handlers st !! node);
          st ← del_timer st node;
          '(st, ev) ← expire_loop fuel st now;
          Ok (st, (func, node) :: ev)
  end.

(* src: 7.2timers/timers/rbt-timer.h:79-95 expire_timer *)
Definition expire_timer (st : timers) (now : Z) : res (timers * list (Z * Z)) :=
  expire_loop (S (size (heap (timer st)))) st now.

(** ** The order of times *)

(** The time [x] as a delay after [base]. *)
Definition off (base x : Z) : Z := u32 (x - base).

Lemma timer_less_off base a b : off base a < 2 ^ 31 → off base b < 2 ^ 31 → timer_less a b = (off base a <? off base b).
Proof.
  intros Ha Hb. unfold timer_less. pose proof (u32_range (a - base)). pose proof (u32_range (b - base)). unfold off in *.
  assert (u32 (a - b) = u32 (u32 (a - base) - u32 (b - base))) as ->.
  { unfold u32. rewrite <-Zminus_mod. f_equal. lia. }
  assert (∀ z, i32 (u32 z) = i32 z) as -> by (intros z; unfold i32, u32; by rewrite Zplus_mod_idemp_l).
  rewrite i32_small by lia. apply eq_true_iff_eq. rewrite !Z.ltb_lt. lia.
Qed.

(** ** The specification: a list of timers by expiry *)

Record entry : Type := Entry { ad : Z; ke : Z; fn : Z }.
Definition cell (e : entry) : Z * Z := (ad e, ke e).

(** The state holds the timers [L]. *)
Record holds (st : timers) (L : list entry) : Prop := Holds {
  holds_tree : ∃ tr, tree_in (timer st) [] tr ∧ inorder tr = cell <$> L;
  holds_fn e : e ∈ L → handlers st !! ad e = Some (fn e)
}.

(** All expire less than [2 ^ 31] after [base], in order. *)
Definition window (base : Z) (L : list entry) : Prop :=
  StronglySorted (λ e f, off base (ke e) ≤ off base (ke f)) L ∧ ∀ e, e ∈ L → off base (ke e) < 2 ^ 31.

(** A new timer goes behind those that do not expire later. *)
Fixpoint sp_add (base : Z) (e : entry) (L : list entry) : list entry :=
  match L with f :: L' => if off base (ke e) <? off base (ke f) then e :: L else f :: sp_add base e L' | [] => [e] end.
Definition sp_del (te : Z) (L : list entry) : list entry := filter (λ e, ad e ≠ te) L.
Fixpoint sp_expire (now : Z) (L : list entry) : list entry * list (Z * Z) :=
  match L with
  | e :: L' => if now <? ke e then (L, []) else let '(R, ev) := sp_expire now L' in (R, (fn e, ad e) :: ev)
  | [] => ([], [])
  end.
Definition sp_nearest (now : Z) (L : list entry) : Z := match L with e :: _ => Z.max 0 (ke e - now) | [] => -1 end.

Lemma sp_add_elem base e L f : f ∈ sp_add base e L ↔ f = e ∨ f ∈ L.
Proof.
  induction L as [|g L IH]; simpl; [set_solver|]. destruct (_ <? _); rewrite !elem_of_cons; [done|]. rewrite IH. tauto.
Qed.

Lemma sp_add_window base e L : window base L → off base (ke e) < 2 ^ 31 → window base (sp_add base e L).
Proof.
  intros [Hs Hw] He. split; [|intros f [->|Hf]%sp_add_elem; auto]. clear Hw. induction Hs as [|f L Hs IH HF]; simpl.
  - by repeat constructor.
  - destruct (Z.ltb_spec (off base (ke e)) (off base (ke f))).
    + constructor; [by constructor|]. constructor; [lia|]. eapply Forall_impl; [exact HF|]. simpl. intros; lia.
    + constructor; [done|]. apply Forall_forall. intros g [->|Hg]%sp_add_elem; [done|]. rewrite Forall_forall in HF. by apply HF.
Qed.

Lemma sp_add_ins base e L : window base L → off base (ke e) < 2 ^ 31 →
  cell <$> sp_add base e L = ins timer_less (ad e) (ke e) (cell <$> L).
Proof.
  intros [_ Hw] He. induction L as [|f L IH]; simpl; [done|]. rewrite (timer_less_off base) by (done || apply Hw; left).
  destruct (_ <? _); [done|]. simpl. f_equal. apply IH. intros g Hg. apply Hw. by right.
Qed.

Lemma window_mono base k L : window base L → off base k < 2 ^ 31 → mono timer_less k (cell <$> L).
Proof.
  intros [Hs Hw] Hk. induction Hs as [|f L Hs IH HF]; simpl; constructor.
  - apply IH. intros e He. apply Hw. by right.
  - apply Forall_forall. intros c (g & -> & Hg)%list_elem_of_fmap. simpl. rewrite Forall_forall in HF. specialize (HF g Hg). simpl in HF.
    rewrite !(timer_less_off base) by (done || apply Hw; (by left) || by right). rewrite !Z.ltb_lt. lia.
Qed.

Lemma window_sub base A L B : window base (A ++ L ++ B) → window base (A ++ B).
Proof.
  intros [Hs Hw]. split; [|intros e He; apply Hw; set_solver]. clear Hw. induction A as [|a A IH]; simpl in *.
  - induction L as [|f L IH]; [done|]. apply IH. simpl in Hs. by apply StronglySorted_cons in Hs as [_ Hs].
  - apply StronglySorted_cons in Hs as [HF Hs]. rewrite Forall_forall in HF. constructor; [by apply IH|].
    apply Forall_forall. intros e He. apply HF. set_solver.
Qed.

(** ** The operations *)

Lemma init_holds s : s ≠ 0 → ∃ st, init_timer s = Ok st ∧ holds st [] ∧ sentinel (timer st) = s ∧ heap (timer st) = {[ s := Node 0 0 0 0 0 ]}.
Proof.
  intros Hs. unfold init_timer. destruct (ngx_rbtree_init_correct {[ s := Node 0 0 0 0 0 ]} s (Node 0 0 0 0 0) [] Hs) as (t & E & Es & Ht).
  - by rewrite lookup_singleton_eq.
  - constructor.
  - by intros x m ?%elem_of_nil.
  - rewrite E, ok_bind. eexists. split; [done|]. split; [|split; [done|]].
    + split; [by exists L|]. by intros e ?%elem_of_nil.
    + unfold ngx_rbtree_init, wr, rd in E. rewrite (proj2 (Z.eqb_neq _ _) Hs), lookup_singleton_eq in E. cbn [get_or] in E.
      rewrite !ok_bind in E. injection E as <-. simpl. by rewrite insert_singleton_eq.
Qed.

Lemma add_holds base st L te msec func now : holds st L → window base L → te ≠ 0 → heap (timer st) !! te = None →
  off base (u32 (msec + now)) < 2 ^ 31 → ∃ st', add_timer st te msec func now = Ok st' ∧
  holds st' (sp_add base (Entry te (u32 (msec + now)) func) L).
Proof.
  intros [(tr & Ht & Ei) Hf] Hw H0 Hn Ho. unfold add_timer. rewrite (proj2 (Z.eqb_neq _ _) H0). unfold wr, rd.
  rewrite (proj2 (Z.eqb_neq _ _) H0), lookup_insert_eq. cbn [get_or]. rewrite !ok_bind. simpl (left _). simpl (right _). simpl (parent _).
  simpl (color _). rewrite insert_insert_eq.
  destruct (insert_in timer_less _ _ _ _ _ (tree_alloc _ _ _ te (Node (u32 (msec + now)) 0 0 0 0) Ht H0 Hn)) as (t' & tr' & E & _ & Ht' & Ei').
  { rewrite Ei. by eapply window_mono. }
  unfold ngx_rbtree_insert_timer_value. rewrite E, ok_bind. eexists. split; [done|]. split.
  - exists tr'. split; [done|]. rewrite Ei', Ei. symmetry. by apply (sp_add_ins base (Entry te (u32 (msec + now)) func)).
  - intros e [->|He]%sp_add_elem; simpl; [apply lookup_insert_eq|]. rewrite lookup_insert_ne; [by apply Hf|].
    intros ->. destruct (tree_dom _ _ _ (ad e) Ht) as [[n Hd] _]; [|by rewrite Hd in Hn].
    rewrite Ei, <-list_fmap_compose. apply list_elem_of_fmap. by exists e.
Qed.

Lemma holds_NoDup st L : holds st L → NoDup (ad <$> L).
Proof. intros [(tr & Ht & Ei) _]. apply tree_NoDup in Ht. by rewrite Ei, <-list_fmap_compose in Ht. Qed.

Lemma del_holds st A e B : holds st (A ++ e :: B) → ∃ st', del_timer st (ad e) = Ok st' ∧ holds st' (A ++ B) ∧
  ∀ x, x ≠ ad e → handlers st' !! x = handlers st !! x.
Proof.
  intros HH. pose proof (holds_NoDup _ _ HH) as Hnd. destruct HH as [(tr & Ht & Ei) Hf]. rewrite fmap_app in Ei. simpl in Ei.
  destruct (delete_correct _ _ _ _ _ _ _ Ht Ei) as (t' & c & tr' & E & _ & Ht' & Ei'). unfold del_timer. rewrite E, ok_bind.
  eexists. split; [done|]. split; [split|].
  - exists tr'. split; [by eapply tree_free|]. by rewrite Ei', fmap_app.
  - intros f Hin. simpl. rewrite lookup_delete_ne; [apply Hf; set_solver|]. intros E'.
    rewrite fmap_app in Hnd. simpl in Hnd. rewrite <-Permutation_middle in Hnd. apply NoDup_cons in Hnd as [Hnd _].
    apply Hnd. rewrite E', <-fmap_app. by apply list_elem_of_fmap_2.
  - intros x Hx. simpl. by rewrite lookup_delete_ne.
Qed.

Lemma holds_first st L : holds st L →
  match L with
  | [] => root (timer st) = sentinel (timer st)
  | e :: _ => root (timer st) ≠ sentinel (timer st) ∧
      ngx_rbtree_min (S (size (heap (timer st)))) (heap (timer st)) (root (timer st)) (sentinel (timer st)) = Ok (ad e) ∧
      ∃ n, rd (heap (timer st)) (ad e) = Ok n ∧ key n = ke e
  end.
Proof. intros [(tr & Ht & Ei) _]. apply tree_first in Ht. rewrite Ei in Ht. by destruct L. Qed.

Lemma holds_length st L : holds st L → (length L ≤ size (heap (timer st)))%nat.
Proof.
  intros HH. pose proof (holds_NoDup _ _ HH) as Hnd. destruct HH as [(tr & Ht & Ei) _].
  rewrite <-(length_fmap ad), <-(size_dom (D := gset Z)), <-(size_list_to_set (C := gset Z)) by exact Hnd.
  apply subseteq_size. intros x Hx%elem_of_list_to_set. apply elem_of_dom. apply (tree_dom _ _ _ _ Ht).
  by rewrite Ei, <-list_fmap_compose.
Qed.

Lemma rbt_loop_spec now fuel : ∀ st L, holds st L → (length L < fuel)%nat → ∃ st',
  expire_loop fuel st now = Ok (st', (sp_expire now L).2) ∧ holds st' (sp_expire now L).1.
Proof.
  induction fuel as [|fuel IH]; intros st L HH Hf; [lia|]. cbn [expire_loop]. pose proof (holds_first _ _ HH) as H1. destruct L as [|e L].
  - rewrite H1, Z.eqb_refl. by exists st.
  - destruct H1 as (Hr & -> & n & Hn & Hk). rewrite (proj2 (Z.eqb_neq _ _) Hr), ok_bind, Hn, ok_bind, Hk. cbn [sp_expire].
    destruct (now <? ke e); [by exists st|]. rewrite (holds_fn _ _ HH e) by left. cbn [get_or]. rewrite ok_bind.
    destruct (del_holds st [] e L HH) as (st1 & -> & H2 & _). rewrite ok_bind. simpl in Hf.
    destruct (IH st1 L H2) as (st' & -> & H3); [lia|]. rewrite ok_bind. exists st'. by destruct (sp_expire now L).
Qed.

Lemma expire_holds st L now : holds st L → ∃ st', expire_timer st now = Ok (st', (sp_expire now L).2) ∧ holds st' (sp_expire now L).1.
Proof. intros HH. apply rbt_loop_spec; [done|]. pose proof (holds_length _ _ HH). lia. Qed.

Lemma sp_expire_rest now L : ∃ D, L = D ++ (sp_expire now L).1.
Proof.
  induction L as [|e L (D & EL)]; [by exists []|]. cbn [sp_expire]. destruct (now <? ke e); [by exists []|].
  destruct (sp_expire now L) as [R ev]. exists (e :: D). simpl in *. by rewrite EL at 1.
Qed.

Lemma sp_del_split A e B : NoDup (ad <$> A ++ e :: B) → sp_del (ad e) (A ++ e :: B) = A ++ B.
Proof.
  intros Hnd. rewrite <-Permutation_middle in Hnd. simpl in Hnd. apply NoDup_cons in Hnd as [Hn _]. unfold sp_del.
  rewrite filter_app, filter_cons_False by tauto.
  rewrite !filter_keeps_all; [done| |]; intros f Hf E; apply Hn; rewrite <-E; apply list_elem_of_fmap_2; set_solver.
Qed.

(** ** The theorems *)

Inductive op : Type := Add (te msec func now : Z) | Del (te : Z) | Expire (now : Z) | Nearest (now : Z).
Inductive out : Type := Done | Fired (ev : list (Z * Z)) | Wait (ms : Z).

Definition exec (st : timers) (o : op) : res (timers * out) :=
  match o with
  | Add te msec func now => st ← add_timer st te msec func now; Ok (st, Done)
  | Del te => st ← del_timer st te; Ok (st, Done)
  | Expire now => '(st, ev) ← expire_timer st now; Ok (st, Fired ev)
  | Nearest now => ms ← find_nearest_expire_timer st now; Ok (st, Wait ms)
  end.

Definition sp_exec (base : Z) (L : list entry) (o : op) : list entry * out :=
  match o with
  | Add te msec func now => (sp_add base (Entry te (u32 (msec + now)) func) L, Done)
  | Del te => (sp_del te L, Done)
  | Expire now => ((sp_expire now L).1, Fired (sp_expire now L).2)
  | Nearest now => (L, Wait (sp_nearest now L))
  end.

(** [malloc] gives fresh storage; a new timer expires in the window; the timer deleted is there;
    the times subtracted are positive as signed numbers. *)
Definition op_ok (base : Z) (st : timers) (L : list entry) (o : op) : Prop :=
  match o with
  | Add te msec _ now => te ≠ 0 ∧ heap (timer st) !! te = None ∧ off base (u32 (msec + now)) < 2 ^ 31
  | Del te => te ∈ ad <$> L
  | Expire _ => True
  | Nearest now => 0 ≤ now < 2 ^ 31 ∧ ∀ e, head L = Some e → 0 ≤ ke e < 2 ^ 31
  end.

(** C21: The red-black tree with its handlers implements the list of timers by expiry, as long as the
    expiry times stay within [2 ^ 31] milliseconds after some time, a timer added has storage of its own and one
    deleted is in the tree: each operation ends without fault, changes the list as the specification does
    and gives the same answer, handlers called in the same order included.  Of find_nearest_expire_timer
    this is stated for a clock and a first expiry time that are both below [2 ^ 31] as well, since it subtracts them
    as int. *)
Theorem rbt_timers_refine base st L o : holds st L → window base L → op_ok base st L o → ∃ st',
  exec st o = Ok (st', (sp_exec base L o).2) ∧ holds st' (sp_exec base L o).1 ∧ window base (sp_exec base L o).1.
Proof.
  intros HH Hw Ho. destruct o as [te msec func now|te|now|now]; simpl in *.
  - destruct Ho as (H0 & Hn & Hoff). destruct (add_holds base _ _ te msec func now HH Hw H0 Hn Hoff) as (st' & -> & H').
    rewrite ok_bind. exists st'. split; [done|]. split; [done|]. by apply sp_add_window.
  - apply list_elem_of_fmap in Ho as (e & -> & He). apply list_elem_of_split in He as (A & B & ->).
    destruct (del_holds _ _ _ _ HH) as (st' & -> & H' & _). rewrite ok_bind. exists st'. split; [done|].
    rewrite sp_del_split by (by eapply holds_NoDup). split; [done|]. by apply (window_sub base A [e] B).
  - destruct (expire_holds _ _ now HH) as (st' & -> & H'). rewrite ok_bind. exists st'. split; [done|]. split; [done|].
    destruct (sp_expire_rest now L) as [D E]. rewrite E in Hw. by apply (window_sub base [] D).
  - exists st. split; [|done]. unfold find_nearest_expire_timer. pose proof (holds_first _ _ HH) as H1. destruct Ho as [Hn Hk].
    destruct L as [|e L]; [by rewrite H1, Z.eqb_refl|]. specialize (Hk e eq_refl). destruct H1 as (Hr & -> & n & Hrd & Ek).
    rewrite (proj2 (Z.eqb_neq _ _) Hr), ok_bind, Hrd, ok_bind, Ek, !i32_small by lia. unfold int_sub.
    rewrite (proj2 (Z.leb_le _ _)), (proj2 (Z.ltb_lt _ _)) by lia. simpl (_ && _). cbn iota. rewrite ok_bind.
    simpl. do 3 f_equal. destruct (Z.ltb_spec 0 (ke e - now)); lia.
Qed.

(** While no time has passed [2 ^ 31], [expire_timer] calls the handlers of exactly the timers that
    are due, in the order of their expiry, and keeps the others. *)
Theorem rbt_expire_due st L now : holds st L → window 0 L → (∀ e, e ∈ L → 0 ≤ ke e < 2 ^ 31) → ∃ st',
  expire_timer st now = Ok (st', (λ e, (fn e, ad e)) <$> filter (λ e, ke e ≤ now) L) ∧ holds st' (filter (λ e, now < ke e) L).
Proof.
  intros HH [Hs _] Hk. assert (sp_expire now L = (filter (λ e, now < ke e) L, (λ e, (fn e, ad e)) <$> filter (λ e, ke e ≤ now) L)) as E.
  { clear HH. assert (∀ e, e ∈ L → off 0 (ke e) = ke e) as Hoff by (intros e He; specialize (Hk e He); unfold off; rewrite u32_small; lia).
    induction Hs as [|e L Hs IH HF]; [done|]. cbn [sp_expire]. destruct (Z.ltb_spec now (ke e)).
    - rewrite Forall_forall in HF.
      assert (∀ f, f ∈ e :: L → now < ke f) as Hall.
      { intros f [->|Hf]%elem_of_cons; [done|]. specialize (HF f Hf). simpl in HF. rewrite !Hoff in HF by ((by left) || by right). lia. }
      f_equal.
      + symmetry. by apply filter_keeps_all.
      + rewrite filter_none; [done|]. intros f Hf. specialize (Hall f Hf). lia.
    - rewrite IH; [|intros; apply Hk; by right|intros; apply Hoff; by right]. rewrite (filter_cons_False _ e L) by lia.
      by rewrite (filter_cons_True (λ e, ke e ≤ now)). }
  destruct (expire_holds _ _ now HH) as (st' & Hx & H'). rewrite E in Hx, H'. by exists st'.
Qed.

(** [expire_timer] compares expiry times without regard to the wrap around that the tree's order
    takes into account: a timer whose time wraps is called at once, not after its delay. *)
Theorem wrapped_timer_fires_at_once s te msec func now : s ≠ 0 → te ≠ 0 → te ≠ s → 0 ≤ msec < 2 ^ 32 → 0 ≤ now < 2 ^ 32 →
  2 ^ 32 ≤ msec + now → ∃ st st', init_timer s ≫= (λ st, add_timer st te msec func now) = Ok st ∧
  expire_timer st now = Ok (st', [(func, te)]) ∧ holds st' [].
Proof.
  intros Hs Ht Hts Hm Hn Hw. destruct (init_holds s Hs) as (st0 & -> & H0 & _ & Hh). rewrite ok_bind.
  assert (u32 (msec + now) = msec + now - 2 ^ 32) as Hu.
  { unfold u32. symmetry. apply (Zmod_unique _ _ 1); lia. }
  destruct (add_holds (u32 (msec + now)) st0 [] te msec func now) as (st & -> & H1); [done| |done| | |].
  - split; [constructor|]. by intros e ?%elem_of_nil.
  - rewrite Hh. by rewrite lookup_singleton_ne by done.
  - unfold off. rewrite Z.sub_diag. by vm_compute.
  - destruct (expire_holds st _ now H1) as (st' & E & H'). simpl in E, H'. rewrite (proj2 (Z.ltb_ge _ _)) in E, H' by lia.
    by exists st, st'.
Qed.

(** In the reactor's copy the difference is unsigned and never negative: for a timer that is overdue
    the answer is a negative number, which the loop passes to [epoll_wait] as a timeout
    and which means to wait without limit. *)
Theorem overdue_timer_waits st e L now : holds st (e :: L) → 0 ≤ ke e < now → now < 2 ^ 31 →
  reactor_find_nearest st now = Ok (ke e - now) ∧ ke e - now < 0 ∧ find_nearest_expire_timer st now = Ok 0.
Proof.
  intros HH Hk Hn. pose proof (holds_first _ _ HH) as (Hr & Hm & n & Hrd & Ek).
  unfold reactor_find_nearest, find_nearest_expire_timer. rewrite (proj2 (Z.eqb_neq _ _) Hr), Hm, !ok_bind, Hrd, !ok_bind, Ek, !i32_small by lia.
  unfold int_sub. rewrite (proj2 (Z.leb_le _ _)), (proj2 (Z.ltb_lt (ke e - now) _)) by lia. simpl (_ && _). cbn iota. rewrite !ok_bind.
  rewrite (proj2 (Z.ltb_ge 0 (ke e - now))) by lia. assert (u32 (ke e - now) = ke e - now + 2 ^ 32) as ->.
  { unfold u32. symmetry. apply (Zmod_unique _ _ (-1)); lia. }
  rewrite (proj2 (Z.ltb_lt 0 _)) by lia. split; [|by split; [lia|]]. f_equal. unfold i32.
  rewrite <-(Zmod_unique _ (2 ^ 32) 1 (ke e - now + 2 ^ 31)); lia.
Qed.

(** ** Concrete timers *)

Definition ex_timers : list entry := [Entry 2 500 12; Entry 1 1500 11; Entry 3 1500 13].

Lemma ex_holds : ∃ st, holds st ex_timers ∧ window 0 ex_timers.
Proof.
  destruct (init_holds 100) as (st0 & E0 & H0 & _ & _); [done|]. vm_compute in E0. injection E0 as <-.
  destruct (add_holds 0 _ [] 1 1000 11 500 H0) as (st1 & E1 & H1); [by split; [constructor|intros e ?%elem_of_nil]|done..|].
  vm_compute in E1. injection E1 as <-.
  assert (window 0 [Entry 1 1500 11]) as W1 by (split; [by repeat constructor|]; intros e He; apply list_elem_of_singleton in He as ->; by vm_compute).
  destruct (add_holds 0 _ _ 2 0 12 500 H1 W1) as (st2 & E2 & H2); [done..|]. vm_compute in E2. injection E2 as <-.
  pose proof (sp_add_window 0 (Entry 2 500 12) _ W1 eq_refl) as W2.
  destruct (add_holds 0 _ _ 3 900 13 600 H2 W2) as (st3 & E3 & H3); [done..|].
  pose proof (sp_add_window 0 (Entry 3 1500 13) _ W2 eq_refl) as W3.
  exists st3. split; [exact H3|exact W3].
Qed.

Example rbt_timers_refine_witness : ∃ st st', holds st ex_timers ∧
  exec st (Del 1) = Ok (st', Done) ∧ holds st' [Entry 2 500 12; Entry 3 1500 13].
Proof.
  destruct ex_holds as (st & H & W). destruct (rbt_timers_refine 0 st ex_timers (Del 1) H W) as (st' & E & H' & _).
  - simpl. right. left.
  - exists st, st'. split; [exact H|]. split; [exact E|exact H'].
Defined.

Example rbt_expire_due_witness : ∃ st st', holds st ex_timers ∧ expire_timer st 1499 = Ok (st', [(12, 2)]) ∧
  holds st' [Entry 1 1500 11; Entry 3 1500 13].
Proof.
  destruct ex_holds as (st & H & W). destruct (rbt_expire_due st ex_timers 1499 H W) as (st' & E & H').
  - intros e He. unfold ex_timers in He. rewrite !elem_of_cons, elem_of_nil in He. destruct He as [->|[->|[->|[]]]]; simpl; lia.
  - exists st, st'. split; [exact H|]. split; [exact E|exact H'].
Defined.

Example overdue_timer_waits_witness : ∃ st, holds st ex_timers ∧ reactor_find_nearest st 510 = Ok (-10).
Proof.
  destruct ex_holds as (st & H & _). exists st. split; [exact H|].
  destruct (overdue_timer_waits st (Entry 2 500 12) [Entry 1 1500 11; Entry 3 1500 13] 510 H) as (E & _); [simpl; lia|lia|exact E].
Defined.

(** Ten seconds before the clock wraps a timer for an hour later is called at once. *)
Example wrapped_timer_fires_at_once_witness : ∃ st st',
  init_timer 100 ≫= (λ st, add_timer st 1 3600000 11 (2 ^ 32 - 10000)) = Ok st ∧
  expire_timer st (2 ^ 32 - 10000) = Ok (st', [(11, 1)]).
Proof.
  destruct (wrapped_timer_fires_at_once 100 1 3600000 11 (2 ^ 32 - 10000)) as (st & st' & E1 & E2 & _); [lia..|].
  exists st, st'. split; [exact E1|exact E2].
Defined.

End RbTimer.
