(* ===== verification/NtyCo.v ===== *)
(** * The coroutine scheduler of 5.2coroutine_impl/NtyCo/NtyCo/core

    nty_coroutine.c, nty_schedule.c and the polling of nty_socket.c.  A coroutine's function is code of
    the library's client; it is given by a type [code] of what is left to run and a
    function [next] that says which call of the library comes next, and after which it
    goes on as what code.  Switching stacks is continuing with the [cont] kept in a coroutine.  The
    tail queue is a list, the two trees of nty_tree.h (the macros of the BSD systems) are lists in the
    order of their comparison: inserting, finding and removing compare the keys stored in the coroutines
    themselves, so a coroutine that has been freed in a tree is met there. *)

From S2P Require Import Prelude.

Module NtyCo.

(** ** Data *)

(* src: 5.2coroutine_impl/NtyCo/NtyCo/core/nty_coroutine.h:87-104 nty_coroutine_status *)
Inductive nty_coroutine_status : Type :=
  | WAIT_READ | WAIT_WRITE | NEW | READY | EXITED | BUSY | SLEEPING | EXPIRED | FDEOF | DETACH | CANCELLED
  | PENDING_RUNCOMPUTE | RUNCOMPUTE | WAIT_IO_READ | WAIT_IO_WRITE | WAIT_MULTI.

(** The number of an enumerator. *)
Definition num (s : nty_coroutine_status) : Z :=
  match s with
  | WAIT_READ => 0 | WAIT_WRITE => 1 | NEW => 2 | READY => 3 | EXITED => 4 | BUSY => 5 | SLEEPING => 6 | EXPIRED => 7
  | FDEOF => 8 | DETACH => 9 | CANCELLED => 10 | PENDING_RUNCOMPUTE => 11 | RUNCOMPUTE => 12 | WAIT_IO_READ => 13
  | WAIT_IO_WRITE => 14 | WAIT_MULTI => 15
  end.

Definition BIT (s : nty_coroutine_status) : Z := Z.shiftl 1 (num s).
Definition has (st : Z) (s : nty_coroutine_status) : bool := negb (Z.land st (BIT s) =? 0).
Definition set_bit (st : Z) (s : nty_coroutine_status) : Z := Z.lor st (BIT s).
Definition clear_bit (st : Z) (s : nty_coroutine_status) : Z := Z.land st (Z.lnot (BIT s)).

Definition POLLIN : Z := 1.
Definition POLLOUT : Z := 4.
Definition POLLERR : Z := 8.
Definition POLLHUP : Z := 16.
Definition POLLRDNORM : Z := 64.
Definition POLLWRNORM : Z := 256.
Definition EPOLLHUP : Z := 16.
Definition INT_MAX : Z := 2 ^ 31 - 1.

(** What a coroutine does next, and the code it goes on with: return from its function, or call
    [nty_poll_inner] (by way of [nty_recv], [nty_accept] and the others), [nty_coroutine_sleep],
    [nty_coroutine_create], [nty_coroutine_renice], [nty_coroutine_detach] or [close], or
    something that does not concern the scheduler, or end the process by an assertion. *)
Inductive act (code : Type) : Type :=
  | Return
  | Poll (fds : list (Z * Z)) (timeout : Z) (k : code)
  | Sleep (msecs : Z) (k : code)
  | Create (func k : code)
  | Renice (k : code)
  | Detach (k : code)
  | Close (fd : Z) (k : code)
  | Call (k : code)
  | Abort.
Arguments Return {code}.
Arguments Poll {code} _ _ _.
Arguments Sleep {code} _ _.
Arguments Create {code} _ _.
Arguments Renice {code} _.
Arguments Detach {code} _.
Arguments Close {code} _ _.
Arguments Call {code} _.
Arguments Abort {code}.

(** Where a coroutine goes on when it is switched to: in its code, in [nty_poll_inner] behind the
    yield, or at the end of [_exec], which has no caller to return to. *)
Inductive cont (code : Type) : Type :=
  | Run (c : code)
  | Polled (fds : list (Z * Z)) (c : code)
  | Dead.
Arguments Run {code} _.
Arguments Polled {code} _ _.
Arguments Dead {code}.

(** The members used; [ctx] and [stack] together are [resume_at]. *)
(* src: 5.2coroutine_impl/NtyCo/NtyCo/core/nty_coroutine.h:186-238 nty_coroutine *)
Record nty_coroutine (code : Type) : Type := Co {
  resume_at : cont code;
  status : Z;
  id : Z;
  fd : Z;
  events : Z;
  ops : Z;
  sleep_usecs : Z
}.
Arguments Co {code} _ _ _ _ _ _ _.
Arguments resume_at {code} _.
Arguments status {code} _.
Arguments id {code} _.
Arguments fd {code} _.
Arguments events {code} _.
Arguments ops {code} _.
Arguments sleep_usecs {code} _.

(** The coroutines in memory with the members of [nty_schedule]; [epoll] is the set registered with
    [poller_fd], [times] and [waits] count the calls of [gettimeofday] and [epoll_wait], and [resumed] is
    the sequence of coroutines switched to.  Nothing is ever put into [busy] and [defer]. *)
(* src: 5.2coroutine_impl/NtyCo/NtyCo/core/nty_coroutine.h:147-181 nty_schedule *)
Record nty_schedule (code : Type) : Type := Sched {
  cos : gmap Z (nty_coroutine code);
  ready : list Z;
  sleeping : list Z;
  waiting : list Z;
  spawned_coroutines : Z;
  curr_thread : Z;
  birth : Z;
  default_timeout : Z;
  epoll : gmap Z Z;
  times : nat;
  waits : nat;
  resumed : list Z
}.
Arguments Sched {code} _ _ _ _ _ _ _ _ _ _ _ _.
Arguments cos {code} _.
Arguments ready {code} _.
Arguments sleeping {code} _.
Arguments waiting {code} _.
Arguments spawned_coroutines {code} _.
Arguments curr_thread {code} _.
Arguments birth {code} _.
Arguments default_timeout {code} _.
Arguments epoll {code} _.
Arguments times {code} _.
Arguments waits {code} _.
Arguments resumed {code} _.

Section members.
Context {code : Type}.
Implicit Types (n : nty_coroutine code) (s : nty_schedule code).

Definition with_cont (v : cont code) n := Co v (status n) (id n) (fd n) (events n) (ops n) (sleep_usecs n).
Definition with_status v n := Co (resume_at n) v (id n) (fd n) (events n) (ops n) (sleep_usecs n).
Definition with_fd v n := Co (resume_at n) (status n) (id n) v (events n) (ops n) (sleep_usecs n).
Definition with_events v n := Co (resume_at n) (status n) (id n) (fd n) v (ops n) (sleep_usecs n).
Definition with_ops v n := Co (resume_at n) (status n) (id n) (fd n) (events n) v (sleep_usecs n).
Definition with_sleep v n := Co (resume_at n) (status n) (id n) (fd n) (events n) (ops n) v.

Definition with_cos (v : gmap Z (nty_coroutine code)) s := Sched v (ready s) (sleeping s) (waiting s) (spawned_coroutines s) (curr_thread s) (birth s) (default_timeout s) (epoll s) (times s) (waits s) (resumed s).
Definition with_ready v s := Sched (cos s) v (sleeping s) (waiting s) (spawned_coroutines s) (curr_thread s) (birth s) (default_timeout s) (epoll s) (times s) (waits s) (resumed s).
Definition with_sleeping v s := Sched (cos s) (ready s) v (waiting s) (spawned_coroutines s) (curr_thread s) (birth s) (default_timeout s) (epoll s) (times s) (waits s) (resumed s).
Definition with_waiting v s := Sched (cos s) (ready s) (sleeping s) v (spawned_coroutines s) (curr_thread s) (birth s) (default_timeout s) (epoll s) (times s) (waits s) (resumed s).
Definition with_spawned v s := Sched (cos s) (ready s) (sleeping s) (waiting s) v (curr_thread s) (birth s) (default_timeout s) (epoll s) (times s) (waits s) (resumed s).
Definition with_curr v s := Sched (cos s) (ready s) (sleeping s) (waiting s) (spawned_coroutines s) v (birth s) (default_timeout s) (epoll s) (times s) (waits s) (resumed s).
Definition with_epoll v s := Sched (cos s) (ready s) (sleeping s) (waiting s) (spawned_coroutines s) (curr_thread s) (birth s) (default_timeout s) v (times s) (waits s) (resumed s).
Definition tick s := Sched (cos s) (ready s) (sleeping s) (waiting s) (spawned_coroutines s) (curr_thread s) (birth s) (default_timeout s) (epoll s) (S (times s)) (waits s) (resumed s).
Definition tock s := Sched (cos s) (ready s) (sleeping s) (waiting s) (spawned_coroutines s) (curr_thread s) (birth s) (default_timeout s) (epoll s) (times s) (S (waits s)) (resumed s).
Definition log x s := Sched (cos s) (ready s) (sleeping s) (waiting s) (spawned_coroutines s) (curr_thread s) (birth s) (default_timeout s) (epoll s) (times s) (waits s) (resumed s ++ [x]).

Definition rd (s : nty_schedule code) (p : Z) : res (nty_coroutine code) :=
  if p =? 0 then Err NullDeref else get_or UseAfterFree (cos s !! p).
Definition wr (s : nty_schedule code) (p : Z) (f : nty_coroutine code → nty_coroutine code) : res (nty_schedule code) :=
  n ← rd s p; Ok (with_cos (<[p := f n]> (cos s)) s).

(** ** The trees, by the key they are ordered by *)

(** [RB_FIND]: the node with the key of [x]. *)
Fixpoint rb_find (key : nty_coroutine code → Z) (s : nty_schedule code) (k : Z) (l : list Z) : res (option Z) :=
  match l with
  | [] => Ok None
  | y :: l => n ← rd s y; if k =? key n then Ok (Some y) else if k <? key n then Ok None else rb_find key s k l
  end.

(** [RB_INSERT]: the node with the same key, or null and the tree with the new one. *)
Fixpoint rb_insert (key : nty_coroutine code → Z) (s : nty_schedule code) (x k : Z) (l : list Z) : res (option Z * list Z) :=
  match l with
  | [] => Ok (None, [x])
  | y :: l' =>
      n ← rd s y;
      if k =? key n then Ok (Some y, l)
      else if k <? key n then Ok (None, x :: l)
      else '(o, l') ← rb_insert key s x k l'; Ok (o, y :: l')
  end.

Definition rb_remove (x : Z) (l : list Z) : res (list Z) :=
  if bool_decide (x ∈ l) then Ok (filter (λ y, y ≠ x) l) else Err BadLink.

Definition rb_min (l : list Z) : Z := default 0 (head l).

End members.

Section scheduler.
(** The client's code, and how many calls a coroutine may make before it yields. *)
Context {code : Type} (next : code → act code) (quantum : nat).
(** The answers of [gettimeofday] (in microseconds), of [epoll_wait] for a timeout and the descriptors registered,
    of [calloc], and whether [posix_memalign] succeeds. *)
Context (clock : nat → Z) (epoll_wait : nat → Z → gmap Z Z → list (Z * Z)).
Context (calloc : gmap Z (nty_coroutine code) → Z) (memalign : gmap Z (nty_coroutine code) → bool).

Notation sched := (nty_schedule code).

(* src: 5.2coroutine_impl/NtyCo/NtyCo/core/nty_coroutine.h:261-263 nty_coroutine_diff_usecs *)
Definition nty_coroutine_diff_usecs (t1 t2 : Z) : Z := u64 (t2 - t1).

(** ** Sleeping *)

(** The loop that looks for a free key. *)
(* src: 5.2coroutine_impl/NtyCo/NtyCo/core/nty_schedule.c:97-105 nty_schedule_sched_sleepdown *)
Fixpoint sleep_loop (fuel : nat) (s : sched) (co : Z) : res sched :=
  match fuel with
  | O => Err OutOfFuel
  | S fuel =>
      n ← rd s co;
      '(o, l) ← rb_insert sleep_usecs s co (sleep_usecs n) (sleeping s);
      match o with
      | Some _ =>
          s ← wr s co (λ n, with_sleep (u64 (sleep_usecs n + 1)) n);
          sleep_loop fuel s co
      | None => wr (with_sleeping l s) co (λ n, with_status (set_bit (status n) SLEEPING) n)
      end
  end.

(* src: 5.2coroutine_impl/NtyCo/NtyCo/core/nty_schedule.c:87-109 nty_schedule_sched_sleepdown *)
Definition nty_schedule_sched_sleepdown (s : sched) (co msecs : Z) : res sched :=
  let usecs := u64 (msecs * 1000) in
  n ← rd s co;
  o ← rb_find sleep_usecs s (sleep_usecs n) (sleeping s);
  s ← match o with
      | Some co_tmp => l ← rb_remove co_tmp (sleeping s); Ok (with_sleeping l s)
      | None => Ok s
      end;
  let t := clock (times s) in
  s ← wr (tick s) co (with_sleep (u64 (nty_coroutine_diff_usecs (birth s) t + usecs)));
  if msecs =? 0 then Ok s else sleep_loop (S (length (sleeping s))) s co.

(* src: 5.2coroutine_impl/NtyCo/NtyCo/core/nty_schedule.c:111-119 nty_schedule_desched_sleepdown *)
Definition nty_schedule_desched_sleepdown (s : sched) (co : Z) : res sched :=
  n ← rd s co;
  if has (status n) SLEEPING then
    l ← rb_remove co (sleeping s);
    wr (with_sleeping l s) co (λ n, with_status (clear_bit (set_bit (clear_bit (status n) SLEEPING) READY) EXPIRED) n)
  else Ok s.

(** ** Waiting for a descriptor *)

(* src: 5.2coroutine_impl/NtyCo/NtyCo/core/nty_schedule.c:121-131 nty_schedule_search_wait *)
Definition nty_schedule_search_wait (s : sched) (f : Z) : res (sched * Z) :=
  o ← rb_find fd s f (waiting s);
  match o with
  | Some co => s ← wr s co (with_status 0); Ok (s, co)
  | None => Err NullDeref
  end.

(* src: 5.2coroutine_impl/NtyCo/NtyCo/core/nty_schedule.c:133-148 nty_schedule_desched_wait *)
Definition nty_schedule_desched_wait (s : sched) (f : Z) : res sched :=
  o ← rb_find fd s f (waiting s);
  match o with
  | Some co =>
      l ← rb_remove co (waiting s);
      s ← wr (with_waiting l s) co (with_status 0);
      nty_schedule_desched_sleepdown s co
  | None => Err NullDeref
  end.

(** The status is changed by the enumerators themselves, 0 and 1, not by their bits. *)
(* src: 5.2coroutine_impl/NtyCo/NtyCo/core/nty_schedule.c:150-179 nty_schedule_sched_wait *)
Definition nty_schedule_sched_wait (s : sched) (co f ev timeout : Z) : res sched :=
  n ← rd s co;
  if has (status n) WAIT_READ || has (status n) WAIT_WRITE then Err AssertFailed
  else
    s ← (if negb (Z.land ev POLLIN =? 0) then wr s co (λ n, with_status (Z.lor (status n) (num WAIT_READ)) n)
         else if negb (Z.land ev POLLOUT =? 0) then wr s co (λ n, with_status (Z.lor (status n) (num WAIT_WRITE)) n)
         else Err AssertFailed);
    s ← wr s co (with_fd f);
    s ← wr s co (with_events ev);
    '(o, l) ← rb_insert fd s co f (waiting s);
    match o with
    | Some _ => Err AssertFailed
    | None =>
        let s := with_waiting l s in
        if timeout =? 1 then Ok s else nty_schedule_sched_sleepdown s co timeout
    end.

(* src: 5.2coroutine_impl/NtyCo/NtyCo/core/nty_schedule.c:181-183 nty_schedule_cancel_wait *)
Definition nty_schedule_cancel_wait (s : sched) (co : Z) : res sched :=
  l ← rb_remove co (waiting s); Ok (with_waiting l s).

(* src: 5.2coroutine_impl/NtyCo/NtyCo/core/nty_socket.c:52-62 nty_pollevent_2epoll *)
Definition nty_pollevent_2epoll (ev : Z) : Z :=
  foldl (λ e b, if Z.land ev b =? 0 then e else Z.lor e b) 0 [POLLIN; POLLOUT; POLLHUP; POLLERR; POLLRDNORM; POLLWRNORM].

(** [nty_poll_inner] up to its yield, and behind it.  [epoll_ctl] does nothing when the descriptor is
    registered already, or not. *)
(* src: 5.2coroutine_impl/NtyCo/NtyCo/core/nty_socket.c:93-102 nty_poll_inner *)
Fixpoint poll_enter (s : sched) (co : Z) (fds : list (Z * Z)) (timeout : Z) : res sched :=
  match fds with
  | [] => Ok s
  | (f, ev) :: fds =>
      let s := with_epoll (match epoll s !! f with Some _ => epoll s | None => <[f := nty_pollevent_2epoll ev]> (epoll s) end) s in
      s ← wr s co (with_events ev);
      s ← nty_schedule_sched_wait s co f ev timeout;
      poll_enter s co fds timeout
  end.

(* src: 5.2coroutine_impl/NtyCo/NtyCo/core/nty_socket.c:105-113 nty_poll_inner *)
Fixpoint poll_leave (s : sched) (fds : list (Z * Z)) : res sched :=
  match fds with
  | [] => Ok s
  | (f, _) :: fds =>
      s ← nty_schedule_desched_wait (with_epoll (delete f (epoll s)) s) f;
      poll_leave s fds
  end.

(** ** Coroutines *)

(* src: 5.2coroutine_impl/NtyCo/NtyCo/core/nty_coroutine.c:130-143 nty_coroutine_free *)
Definition nty_coroutine_free (s : sched) (co : Z) : res sched :=
  if co =? 0 then Ok s
  else n ← rd s co; Ok (with_cos (delete co (cos s)) (with_spawned (spawned_coroutines s - 1) s)).

(* src: 5.2coroutine_impl/NtyCo/NtyCo/core/nty_coroutine.c:145-157 nty_coroutine_init *)
Definition nty_coroutine_init (s : sched) (co : Z) : res sched := wr s co (with_status (BIT READY)).

(** To the scheduler; the coroutine goes on with [k] later. *)
(* src: 5.2coroutine_impl/NtyCo/NtyCo/core/nty_coroutine.c:159-162 nty_coroutine_yield *)
Definition nty_coroutine_yield (s : sched) (co : Z) (k : cont code) : res sched :=
  s ← wr s co (with_ops 0);
  wr s co (with_cont k).

(** The scheduler is there already; a failure leaves no trace. *)
(* src: 5.2coroutine_impl/NtyCo/NtyCo/core/nty_coroutine.c:245-291 nty_coroutine_create *)
Definition nty_coroutine_create (s : sched) (func : code) : sched :=
  let co := calloc (cos s) in
  if co =? 0 then s
  else if memalign (cos s) then
    let s := tick (with_cos (<[co := Co (Run func) (BIT NEW) (spawned_coroutines s) (-1) 0 0 0]> (cos s))
                     (with_spawned (spawned_coroutines s + 1) s)) in
    with_ready (ready s ++ [co]) s
  else s.

(** The end of [_exec], when the function of the coroutine has returned. *)
(* src: 5.2coroutine_impl/NtyCo/NtyCo/core/nty_coroutine.c:110-124 _exec *)
Definition exec_end (s : sched) (co : Z) : res sched :=
  s ← wr s co (λ n, with_status (set_bit (set_bit (set_bit (status n) EXITED) FDEOF) DETACH) n);
  nty_coroutine_yield s co Dead.

(** A coroutine runs up to its next yield: the calls of nty_coroutine.c ([_exec], [nty_coroutine_renice],
    [nty_coroutine_sleep], [nty_coroutine_detach]) and [nty_poll_inner]. *)
(* src: 5.2coroutine_impl/NtyCo/NtyCo/core/nty_coroutine.c:202-228 nty_coroutine_renice *)
Fixpoint run_code (fuel : nat) (s : sched) (co : Z) (c : code) : res sched :=
  match fuel with
  | O => Err OutOfFuel
  | S fuel =>
      match next c with
      | Return => exec_end s co
      | Poll fds timeout k =>
          if timeout =? 0 then run_code fuel s co k
          else
            let timeout := if timeout <? 0 then INT_MAX else timeout in
            s ← poll_enter s co fds timeout;
            nty_coroutine_yield s co (Polled fds k)
      | Sleep msecs k =>
          if msecs =? 0 then nty_coroutine_yield (with_ready (ready s ++ [co]) s) co (Run k)
          else s ← nty_schedule_sched_sleepdown s co msecs; run_code fuel s co k
      | Create func k => run_code fuel (nty_coroutine_create s func) co k
      | Renice k =>
          s ← wr s co (λ n, with_ops (ops n + 1) n);
          n ← rd s co;
          if ops n <? 5 then run_code fuel s co k
          else nty_coroutine_yield (with_ready (ready s ++ [co]) s) co (Run k)
      | Detach k => s ← wr s co (λ n, with_status (set_bit (status n) DETACH) n); run_code fuel s co k
      | Close f k => run_code fuel (with_epoll (delete f (epoll s)) s) co k
      | Call k => run_code fuel s co k
      | Abort => Err AssertFailed
      end
  end.

(** The stack of the coroutine. *)
Definition switch (s : sched) (co : Z) : res sched :=
  n ← rd s co;
  match resume_at n with
  | Run c => run_code quantum s co c
  | Polled fds c => s ← poll_leave s fds; run_code quantum s co c
  | Dead => Err NullDeref
  end.

(* src: 5.2coroutine_impl/NtyCo/NtyCo/core/nty_coroutine.c:177-199 nty_coroutine_resume *)
Definition nty_coroutine_resume (s : sched) (co : Z) : res sched :=
  n ← rd s co;
  s ← (if has (status n) NEW then nty_coroutine_init s co else Ok s);
  s ← switch (log co (with_curr co s)) co;
  let s := with_curr 0 s in
  n ← rd s co;
  if has (status n) EXITED && has (status n) DETACH then nty_coroutine_free s co else Ok s.

(** ** The scheduler *)

(** [poller_fd] is the answer of [nty_epoller_create].  The eventfd that nty_epoller_ev_register_trigger adds to the
    poller is left out: nothing ever writes to it, so that epoll_wait never reports it. *)
(* src: 5.2coroutine_impl/NtyCo/NtyCo/core/nty_schedule.c:198-235 nty_schedule_create *)
Definition nty_schedule_create (sched_addr poller_fd : Z) : option sched :=
  if sched_addr =? 0 then None
  else if poller_fd =? -1 then None
  else Some (Sched ∅ [] [] [] 0 0 (clock 0) 3000000 ∅ 1 0 []).

(* src: 5.2coroutine_impl/NtyCo/NtyCo/core/nty_schedule.c:238-249 nty_schedule_expired *)
Definition nty_schedule_expired (s : sched) : res (sched * Z) :=
  let t_diff_usecs := nty_coroutine_diff_usecs (birth s) (clock (times s)) in
  let s := tick s in
  let co := rb_min (sleeping s) in
  if co =? 0 then Ok (s, 0)
  else
    n ← rd s co;
    if sleep_usecs n <=? t_diff_usecs then
      l ← rb_remove co (sleeping s); Ok (with_sleeping l s, co)
    else Ok (s, 0).

(* src: 5.2coroutine_impl/NtyCo/NtyCo/core/nty_schedule.c:251-256 nty_schedule_isdone *)
Definition nty_schedule_isdone (s : sched) : bool :=
  match waiting s, sleeping s, ready s with [], [], [] => true | _, _, _ => false end.

(* src: 5.2coroutine_impl/NtyCo/NtyCo/core/nty_schedule.c:258-271 nty_schedule_min_timeout *)
Definition nty_schedule_min_timeout (s : sched) : res (sched * Z) :=
  let t_diff_usecs := nty_coroutine_diff_usecs (birth s) (clock (times s)) in
  let s := tick s in
  let co := rb_min (sleeping s) in
  if co =? 0 then Ok (s, default_timeout s)
  else
    n ← rd s co;
    let min := sleep_usecs n in
    Ok (s, if t_diff_usecs <? min then min - t_diff_usecs else 0).

(** The timeout as milliseconds. *)
(* src: 5.2coroutine_impl/NtyCo/NtyCo/core/nty_schedule.c:280-284 nty_schedule_epoll *)
Definition epoll_msecs (usecs : Z) : Z :=
  let tv_sec := usecs / 1000000 in
  let tv_nsec := if tv_sec =? 0 then usecs * 1000 else (usecs mod 1000) * 1000 in
  tv_sec * 1000 + tv_nsec / 1000000.

(* src: 5.2coroutine_impl/NtyCo/NtyCo/core/nty_schedule.c:273-304 nty_schedule_epoll *)
Definition nty_schedule_epoll (s : sched) : res (sched * list (Z * Z)) :=
  '(s, usecs) ← nty_schedule_min_timeout s;
  match ready s with
  | [] =>
      if usecs =? 0 then Ok (s, [])
      else Ok (tock s, epoll_wait (waits s) (epoll_msecs usecs) (epoll s))
  | _ => Ok (s, [])
  end.

(* src: 5.2coroutine_impl/NtyCo/NtyCo/core/nty_schedule.c:315-317 nty_schedule_run *)
Fixpoint expired_loop (fuel : nat) (s : sched) : res sched :=
  match fuel with
  | O => Err OutOfFuel
  | S fuel =>
      '(s, co) ← nty_schedule_expired s;
      if co =? 0 then Ok s else s ← nty_coroutine_resume s co; expired_loop fuel s
  end.

(* src: 5.2coroutine_impl/NtyCo/NtyCo/core/nty_schedule.c:320-331 nty_schedule_run *)
Fixpoint ready_loop (fuel : nat) (s : sched) (last_co_ready : Z) : res sched :=
  match ready s with
  | [] => Ok s
  | co :: rest =>
      match fuel with
      | O => Err OutOfFuel
      | S fuel =>
          let s := with_ready rest s in
          n ← rd s co;
          if has (status n) FDEOF then nty_coroutine_free s co
          else
            s ← nty_coroutine_resume s co;
            if co =? last_co_ready then Ok s else ready_loop fuel s last_co_ready
      end
  end.

(** The events are taken from the last to the first. *)
(* src: 5.2coroutine_impl/NtyCo/NtyCo/core/nty_schedule.c:335-351 nty_schedule_run *)
Fixpoint event_loop (s : sched) (evs : list (Z * Z)) : res sched :=
  match evs with
  | [] => Ok s
  | (f, ev) :: evs =>
      '(s, co) ← nty_schedule_search_wait s f;
      s ← (if Z.land ev EPOLLHUP =? 0 then Ok s else wr s co (λ n, with_status (set_bit (status n) FDEOF) n));
      s ← nty_coroutine_resume s co;
      event_loop s evs
  end.

(** One round of the loop. *)
(* src: 5.2coroutine_impl/NtyCo/NtyCo/core/nty_schedule.c:313-352 nty_schedule_run *)
Definition round (s : sched) : res sched :=
  s ← expired_loop (S quantum) s;
  s ← ready_loop (length (ready s)) s (default 0 (last (ready s)));
  '(s, evs) ← nty_schedule_epoll s;
  event_loop s (reverse evs).

(** At most [n] rounds. *)
(* src: 5.2coroutine_impl/NtyCo/NtyCo/core/nty_schedule.c:306-358 nty_schedule_run *)
Fixpoint nty_schedule_run (n : nat) (s : sched) : res sched :=
  if nty_schedule_isdone s then Ok s
  else match n with O => Err OutOfFuel | S n => s ← round s; nty_schedule_run n s end.

End scheduler.

(** ** Bits *)

Lemma has_testbit st b : has st b = Z.testbit st (num b).
Proof.
  unfold has, BIT. assert (0 ≤ num b) as Hb by by destruct b. rewrite Z.shiftl_1_l.
  destruct (Z.testbit st (num b)) eqn:E.
  - apply negb_true_iff, Z.eqb_neq. intros H. assert (Z.testbit (Z.land st (2 ^ num b)) (num b) = true) as H'.
    { by rewrite Z.land_spec, E, Z.pow2_bits_true. }
    by rewrite H, Z.bits_0 in H'.
  - apply negb_false_iff, Z.eqb_eq. apply Z.bits_inj'. intros m Hm. rewrite Z.land_spec, Z.bits_0, Z.pow2_bits_eqb by done.
    destruct (Z.eqb_spec (num b) m) as [<-|]; [by rewrite E|by rewrite andb_false_r].
Qed.

Lemma has_set st b b' : has (set_bit st b) b' = has st b' || (num b =? num b').
Proof.
  rewrite !has_testbit. unfold set_bit, BIT. assert (0 ≤ num b) as Hb by by destruct b.
  by rewrite Z.lor_spec, Z.shiftl_1_l, Z.pow2_bits_eqb.
Qed.

(** The status of a coroutine that may be run, as far as the scheduler looks at it. *)
Definition fresh (st : Z) : Prop :=
  has st WAIT_READ = false ∧ has st WAIT_WRITE = false ∧ has st EXITED = false ∧ has st FDEOF = false.

Lemma fresh_set st b : fresh st → b ≠ WAIT_READ → b ≠ WAIT_WRITE → b ≠ EXITED → b ≠ FDEOF → fresh (set_bit st b).
Proof. intros (H1 & H2 & H3 & H4) ????. unfold fresh. rewrite !has_set, H1, H2, H3, H4. by destruct b. Qed.

(** ** Trees *)

Section trees.
Context {code : Type} (key : nty_coroutine code → Z).
Implicit Types (s : nty_schedule code).

Definition keyof s (x : Z) : Z := match cos s !! x with Some n => key n | None => 0 end.
Definition ordered s : list Z → Prop := StronglySorted (λ x y, keyof s x < keyof s y).
Definition live s (l : list Z) : Prop := ∀ x, x ∈ l → x ≠ 0 ∧ is_Some (cos s !! x).

Lemma rd_co s x n : x ≠ 0 → cos s !! x = Some n → rd s x = Ok n.
Proof. intros H0 Hx. unfold rd. by rewrite (proj2 (Z.eqb_neq _ _)), Hx. Qed.

Lemma wr_co s x n f : x ≠ 0 → cos s !! x = Some n → wr s x f = Ok (with_cos (<[x := f n]> (cos s)) s).
Proof. intros H0 Hx. unfold wr. by rewrite (rd_co s x n). Qed.

Lemma rd_live s l x : live s l → x ∈ l → ∃ n, rd s x = Ok n ∧ key n = keyof s x.
Proof. intros Hl Hx. destruct (Hl x Hx) as [H0 [n Hn]]. exists n. rewrite (rd_co s x n) by done. split; [done|]. unfold keyof. by rewrite Hn. Qed.

Lemma rb_find_none s k l : live s l → (∀ y, y ∈ l → keyof s y ≠ k) → rb_find key s k l = Ok None.
Proof.
  induction l as [|y l IH]; intros Hl Hk; simpl; [done|]. destruct (rd_live s (y :: l) y Hl) as (n & -> & Hn); [left|]. rewrite ok_bind, Hn.
  rewrite (proj2 (Z.eqb_neq _ _)) by (apply not_eq_sym, Hk; left). destruct (k <? _); [done|].
  apply IH; intros z Hz; [apply Hl|apply Hk]; by right.
Qed.

Lemma rb_find_some s x l : live s l → ordered s l → x ∈ l → rb_find key s (keyof s x) l = Ok (Some x).
Proof.
  intros Hl Ho Hx. induction Ho as [|y l Ho IH HF]; [by apply elem_of_nil in Hx|]. simpl.
  destruct (rd_live s (y :: l) y Hl) as (n & -> & Hn); [left|]. rewrite ok_bind, Hn. rewrite Forall_forall in HF.
  apply elem_of_cons in Hx as [->|Hx]; [by rewrite Z.eqb_refl|]. specialize (HF x Hx).
  rewrite (proj2 (Z.eqb_neq _ _)), (proj2 (Z.ltb_ge _ _)) by lia. apply IH; [|done]. intros z Hz. apply Hl. by right.
Qed.

Lemma rb_insert_spec s x k l : live s l → ordered s l → ∃ r, rb_insert key s x k l = Ok r ∧
  ((∃ y, r = (Some y, l) ∧ y ∈ l ∧ keyof s y = k) ∨
   (∃ l1 l2, r = (None, l1 ++ x :: l2) ∧ l = l1 ++ l2 ∧ (∀ y, y ∈ l1 → keyof s y < k) ∧ (∀ y, y ∈ l2 → k < keyof s y))).
Proof.
  intros Hl Ho. induction Ho as [|y l Ho IH HF].
  - eexists. split; [done|]. right. exists [], []. split; [done|]. split; [done|]. split; by intros y ?%elem_of_nil.
  - cbn [rb_insert]. destruct (rd_live s (y :: l) y Hl) as (n & -> & Hn); [left|]. rewrite ok_bind, Hn. rewrite Forall_forall in HF.
    destruct (Z.eqb_spec k (keyof s y)) as [->|Hne]; [|destruct (Z.ltb_spec k (keyof s y))].
    + eexists. split; [done|]. left. exists y. split; [done|]. split; [left|done].
    + eexists. split; [done|]. right. exists [], (y :: l). split; [done|]. split; [done|]. split; [by intros z ?%elem_of_nil|].
      intros z [->|Hz]%elem_of_cons; [done|]. specialize (HF z Hz). lia.
    + destruct IH as (r & -> & IH); [intros z Hz; apply Hl; by right|]. rewrite ok_bind.
      destruct IH as [(z & -> & Hz & Hk)|(l1 & l2 & -> & -> & H1 & H2)]; eexists; (split; [done|]).
      * left. exists z. split; [done|]. split; [by right|done].
      * right. exists (y :: l1), l2. split; [done|]. split; [done|]. split; [|done].
        intros z [->|Hz]%elem_of_cons; [lia|by apply H1].
Qed.

Lemma ordered_ext s s' l : (∀ x, x ∈ l → keyof s' x = keyof s x) → ordered s l → ordered s' l.
Proof.
  intros He Ho. induction Ho as [|y l Ho IH HF]; constructor; [apply IH; intros; apply He; by right|].
  rewrite Forall_forall in *. intros x Hx. rewrite !He by ((by left) || by right). by apply HF.
Qed.

Lemma ordered_middle s l1 x l2 : ordered s (l1 ++ l2) → (∀ y, y ∈ l1 → keyof s y < keyof s x) →
  (∀ y, y ∈ l2 → keyof s x < keyof s y) → ordered s (l1 ++ x :: l2).
Proof.
  induction l1 as [|y l1 IH]; intros Ho H1 H2; simpl in *.
  - constructor; [done|]. by apply Forall_forall.
  - apply StronglySorted_cons in Ho as [HF Ho]. constructor; [apply IH; [done| |done]; intros z Hz; apply H1; by right|].
    rewrite Forall_forall in *. intros z [Hz|[->|Hz]%elem_of_cons]%elem_of_app; [apply HF; set_solver|apply H1; left|apply HF; set_solver].
Qed.

Lemma ordered_filter s (P : Z → Prop) `{∀ x, Decision (P x)} l : ordered s l → ordered s (filter P l).
Proof.
  induction 1 as [|y l Ho IH HF]; [constructor|]. rewrite filter_cons. case_decide; [|done]. constructor; [done|].
  rewrite Forall_forall in *. intros x [_ Hx]%list_elem_of_filter. by apply HF.
Qed.

Lemma rb_remove_ok x l : x ∈ l → rb_remove x l = Ok (filter (λ y, y ≠ x) l).
Proof. intros Hx. unfold rb_remove. by rewrite bool_decide_eq_true_2. Qed.

End trees.

(** ** The invariant of the scheduler *)

Section invariant.
Context {code : Type}.
Implicit Types (s : nty_schedule code) (n : nty_coroutine code).

(** Every coroutine in memory is in the ready queue, or waits for one descriptor in [nty_poll_inner], each once; those of
    [X] are running.  Nobody sleeps.  Only descriptors that are waited for are registered. *)
Record inv (X : list Z) s : Prop := Inv {
  inv_nodup : NoDup (X ++ ready s ++ waiting s);
  inv_dom x : x ∈ X ++ ready s ++ waiting s ↔ is_Some (cos s !! x);
  inv_null : cos s !! 0 = None;
  inv_ready x : x ∈ ready s → ∃ n c, cos s !! x = Some n ∧ resume_at n = Run c ∧ fresh (status n);
  inv_waiting x : x ∈ waiting s → ∃ n c ev, cos s !! x = Some n ∧ resume_at n = Polled [(fd n, ev)] c ∧
    has (status n) EXITED = false;
  inv_order : ordered fd s (waiting s);
  inv_sleeping : sleeping s = [];
  inv_epoll f : is_Some (epoll s !! f) → ∃ x, x ∈ waiting s ∧ keyof fd s x = f;
  inv_spawned : spawned_coroutines s = Z.of_nat (size (cos s))
}.

Lemma inv_same X s s' : inv X s → cos s' = cos s → ready s' = ready s → waiting s' = waiting s → sleeping s' = sleeping s →
  epoll s' = epoll s → spawned_coroutines s' = spawned_coroutines s → inv X s'.
Proof.
  intros [H1 H2 H3 H4 H5 H6 H7 H8 H9] Ec Er Ew Es Ee En. split; try (rewrite ?Ec, ?Er, ?Ew, ?Es, ?En; assumption).
  - rewrite Ew. eapply ordered_ext; [|exact H6]. intros x _. unfold keyof. by rewrite Ec.
  - intros f Hf. rewrite Ee in Hf. rewrite Ew. unfold keyof. rewrite Ec. by apply H8.
Qed.

Lemma inv_nonnull X s x : inv X s → is_Some (cos s !! x) → x ≠ 0.
Proof. intros HI [n Hn] ->. by rewrite (inv_null _ _ HI) in Hn. Qed.

Lemma inv_live X s : inv X s → live s (waiting s).
Proof.
  intros HI x Hx. assert (is_Some (cos s !! x)) as Hs by (apply (inv_dom _ _ HI); set_solver).
  split; [by eapply inv_nonnull|done].
Qed.

Lemma inv_X X s x : inv X s → x ∈ X → x ∉ ready s ∧ x ∉ waiting s.
Proof. intros HI Hx. pose proof (inv_nodup _ _ HI) as (_ & Hd & _)%NoDup_app. specialize (Hd x Hx). set_solver. Qed.

(** A running coroutine may be changed at will. *)
Lemma inv_upd X s co n n' : inv X s → co ∈ X → cos s !! co = Some n → inv X (with_cos (<[co := n']> (cos s)) s).
Proof.
  intros HI Hco Hn. destruct (inv_X _ _ _ HI Hco) as [Hr Hw]. destruct HI as [H1 H2 H3 H4 H5 H6 H7 H8 H9].
  assert (∀ x, x ∈ waiting s → keyof fd (with_cos (<[co := n']> (cos s)) s) x = keyof fd s x) as Hk.
  { intros x Hx. unfold keyof. simpl. rewrite lookup_insert_ne; [done|]. by intros ->. }
  split; simpl; [done| | | | | |done| |].
  - intros x. rewrite H2. destruct (decide (x = co)) as [->|]; [rewrite lookup_insert_eq, Hn|by rewrite lookup_insert_ne]. split; eauto.
  - rewrite lookup_insert_ne; [done|]. intros ->. by rewrite H3 in Hn.
  - intros x Hx. rewrite lookup_insert_ne; [by apply H4|]. by intros ->.
  - intros x Hx. rewrite lookup_insert_ne; [by apply H5|]. by intros ->.
  - by eapply ordered_ext.
  - intros f Hf. destruct (H8 f Hf) as (x & Hx & E). exists x. by rewrite Hk.
  - rewrite H9, map_size_insert_Some; [done|]. by exists n.
Qed.

(** A waiting one only in its status. *)
Lemma inv_upd_waiting X s co n n' : inv X s → co ∈ waiting s → cos s !! co = Some n → resume_at n' = resume_at n → fd n' = fd n →
  has (status n') EXITED = false → inv X (with_cos (<[co := n']> (cos s)) s).
Proof.
  intros HI Hco Hn Er Ef Hx1. assert (co ∉ ready s) as Hr.
  { pose proof (inv_nodup _ _ HI) as (_ & _ & (_ & Hd & _)%NoDup_app)%NoDup_app. intros Hr. by apply (Hd co). }
  destruct HI as [H1 H2 H3 H4 H5 H6 H7 H8 H9].
  assert (∀ x, x ∈ waiting s → keyof fd (with_cos (<[co := n']> (cos s)) s) x = keyof fd s x) as Hk.
  { intros x Hx. unfold keyof. simpl. destruct (decide (x = co)) as [->|]; [by rewrite lookup_insert_eq, Hn|by rewrite lookup_insert_ne]. }
  split; simpl; [done| | | | | |done| |].
  - intros x. rewrite H2. destruct (decide (x = co)) as [->|]; [rewrite lookup_insert_eq, Hn|by rewrite lookup_insert_ne]. split; eauto.
  - rewrite lookup_insert_ne; [done|]. intros ->. by rewrite H3 in Hn.
  - intros x Hx. rewrite lookup_insert_ne; [by apply H4|]. by intros ->.
  - intros x Hx. destruct (decide (x = co)) as [->|]; [|rewrite lookup_insert_ne by done; by apply H5].
    destruct (H5 co Hx) as (m & c & ev & Hm & Hc & _). rewrite Hn in Hm. injection Hm as <-. rewrite lookup_insert_eq.
    exists n', c, ev. by rewrite Er, Ef.
  - by eapply ordered_ext.
  - intros f Hf. destruct (H8 f Hf) as (x & Hx & E). exists x. by rewrite Hk.
  - rewrite H9, map_size_insert_Some; [done|]. by exists n.
Qed.

(** The running coroutine goes to the ready queue, into the tree, or is freed. *)
Lemma inv_push s co n c : inv [co] s → cos s !! co = Some n → resume_at n = Run c → fresh (status n) →
  inv [] (with_ready (ready s ++ [co]) s).
Proof.
  intros [H1 H2 H3 H4 H5 H6 H7 H8 H9] Hn Hc Hf. split; simpl; [| |done| |done|by eapply ordered_ext|done|done|done].
  - by rewrite (Permutation_app_comm (ready s)).
  - intros x. rewrite <-H2. set_solver.
  - intros x [Hx|Hx]%elem_of_app; [by apply H4|]. apply list_elem_of_singleton in Hx as ->. by exists n, c.
Qed.

Lemma inv_wait s co n c ev l1 l2 : inv [co] s → cos s !! co = Some n → resume_at n = Polled [(fd n, ev)] c →
  has (status n) EXITED = false → waiting s = l1 ++ l2 → (∀ y, y ∈ l1 → keyof fd s y < fd n) → (∀ y, y ∈ l2 → fd n < keyof fd s y) →
  ∀ e, inv [] (with_waiting (l1 ++ co :: l2) (with_epoll (match e with Some v => <[fd n := v]> (epoll s) | None => epoll s end) s)).
Proof.
  intros [H1 H2 H3 H4 H5 H6 H7 H8 H9] Hn Hc Hx1 Ew Hl Hr e. rewrite Ew in *.
  assert (keyof fd s co = fd n) as Hk by (unfold keyof; by rewrite Hn).
  split; simpl; [| |done|done| | |done| |done].
  - by rewrite <-!Permutation_middle.
  - intros x. rewrite <-H2. set_solver.
  - intros x Hx. destruct (decide (x = co)) as [->|]; [by exists n, c, ev|]. apply H5. set_solver.
  - apply (ordered_ext fd s); [done|]. apply ordered_middle; [done| |]; intros y Hy; rewrite Hk; auto.
  - intros f Hf. assert (f = fd n ∨ is_Some (epoll s !! f)) as [->|Hf'].
    { destruct e; [|by right]. destruct (decide (f = fd n)) as [->|]; [by left|right]. by rewrite lookup_insert_ne in Hf. }
    + exists co. split; [set_solver|]. exact Hk.
    + destruct (H8 f Hf') as (x & Hx & E). exists x. split; [set_solver|]. exact E.
Qed.

Lemma inv_free s co n : inv [co] s → cos s !! co = Some n →
  inv [] (with_cos (delete co (cos s)) (with_spawned (spawned_coroutines s - 1) s)).
Proof.
  intros HI Hn. destruct (inv_X _ _ co HI ltac:(left)) as [Hr Hw]. destruct HI as [H1 H2 H3 H4 H5 H6 H7 H8 H9].
  assert (∀ x, x ∈ waiting s → keyof fd (with_cos (delete co (cos s)) (with_spawned (spawned_coroutines s - 1) s)) x = keyof fd s x) as Hk.
  { intros x Hx. unfold keyof. simpl. rewrite lookup_delete_ne; [done|]. by intros ->. }
  split; simpl in *.
  - by apply NoDup_cons in H1 as [_ ?].
  - intros x. destruct (decide (x = co)) as [->|Hne]; [rewrite lookup_delete_eq; split; [set_solver|by intros []]|].
    rewrite lookup_delete_ne, <-H2 by done. set_solver.
  - rewrite lookup_delete_ne; [done|]. intros ->. by rewrite H3 in Hn.
  - intros x Hx. rewrite lookup_delete_ne; [by apply H4|]. by intros ->.
  - intros x Hx. rewrite lookup_delete_ne; [by apply H5|]. by intros ->.
  - by eapply ordered_ext.
  - done.
  - intros f Hf. destruct (H8 f Hf) as (x & Hx & E). exists x. by rewrite Hk.
  - rewrite H9, map_size_delete_Some by by exists n. assert (0 < size (cos s))%nat; [|lia].
    destruct (size (cos s)) eqn:E; [|lia]. apply map_size_empty_inv in E. by rewrite E, lookup_empty in Hn.
Qed.

(** It leaves the ready queue, or the tree together with its descriptor. *)
Lemma inv_pop s co l : inv [] s → ready s = co :: l → inv [co] (with_ready l s).
Proof.
  intros [H1 H2 H3 H4 H5 H6 H7 H8 H9] Er. simpl in *. rewrite Er in *. split; simpl; [exact H1|exact H2|done| |done|by eapply ordered_ext|done|done|done].
  intros x Hx. apply H4. by right.
Qed.

Lemma inv_leave s co n : inv [] s → co ∈ waiting s → cos s !! co = Some n →
  inv [co] (with_waiting (filter (λ y, y ≠ co) (waiting s)) (with_epoll (delete (fd n) (epoll s)) s)).
Proof.
  intros [H1 H2 H3 H4 H5 H6 H7 H8 H9] Hco Hn. simpl in *.
  assert (waiting s ≡ₚ co :: filter (λ y, y ≠ co) (waiting s)) as HP.
  { apply NoDup_app in H1 as (_ & _ & H1). clear - H1 Hco. induction (waiting s) as [|y l IH]; [by apply elem_of_nil in Hco|].
    apply NoDup_cons in H1 as [Hy H1]. rewrite filter_cons. case_decide as Hd.
    - apply elem_of_cons in Hco as [->|Hco]; [done|]. rewrite (IH H1 Hco) at 1. apply perm_swap.
    - assert (y = co) as -> by (by destruct (decide (y = co))). f_equiv. rewrite filter_keeps_all; [done|]. intros x Hx ->. done. }
  assert (keyof fd s co = fd n) as Hk by (unfold keyof; by rewrite Hn).
  split; simpl; [| |done|done| | |done| |done].
  - rewrite HP in H1. by rewrite <-Permutation_middle in H1.
  - intros x. rewrite <-H2, elem_of_cons, !elem_of_app, list_elem_of_filter. destruct (decide (x = co)) as [->|]; tauto.
  - intros x [_ Hx]%list_elem_of_filter. by apply H5.
  - eapply ordered_ext; [|by apply ordered_filter]. by intros.
  - intros f [v Hv]. destruct (decide (f = fd n)) as [->|Hne]; [by rewrite lookup_delete_eq in Hv|]. rewrite lookup_delete_ne in Hv by done.
    destruct (H8 f ltac:(by exists v)) as (x & Hx & E). exists x. split; [|done]. apply list_elem_of_filter. split; [|done].
    intros ->. unfold keyof in *. rewrite Hn in E. congruence.
Qed.

End invariant.

(** ** What a coroutine does between two switches *)

Section running.
Context {code : Type} (next : code → act code) (quantum : nat).
Context (clock : nat → Z) (epoll_wait : nat → Z → gmap Z Z → list (Z * Z)).
Context (calloc : gmap Z (nty_coroutine code) → Z) (memalign : gmap Z (nty_coroutine code) → bool).
(** [calloc] answers null or the address of storage that is not in use. *)
Context (calloc_fresh : ∀ h, calloc h ≠ 0 → h !! calloc h = None).
(** Whether there is any polling or asserting; without it nothing can go wrong. *)
Context (polls : Prop).
Implicit Types (s : nty_schedule code) (n : nty_coroutine code).

(** What the functions of nty_socket.c do, which poll one descriptor with timeout 1; no sleeping for a time. *)
Definition tame (a : act code) : Prop :=
  match a with
  | Poll fds timeout _ => polls ∧ timeout = 1 ∧ ∃ f ev, fds = [(f, ev)] ∧ (Z.land ev POLLIN ≠ 0 ∨ Z.land ev POLLOUT ≠ 0)
  | Sleep msecs _ => msecs = 0
  | Abort => polls
  | _ => True
  end.

(** The code yields after fewer than [k] calls. *)
Fixpoint yields (k : nat) (c : code) : Prop :=
  match k with
  | O => False
  | S k =>
      match next c with
      | Return | Poll _ _ _ | Sleep _ _ | Abort => True
      | Create _ c | Renice c | Detach c | Close _ c | Call c => yields k c
      end
  end.

Context (tame_next : ∀ c, tame (next c)).

(** No fault but that of [assert]. *)
Definition safe {A} (m : res A) (P : A → Prop) : Prop := match m with Ok a => P a | Err e => polls ∧ e = AssertFailed end.

Lemma safe_bind {A B} (m : res A) (k : A → res B) P Q : safe m P → (∀ a, P a → safe (k a) Q) → safe (m ≫= k) Q.
Proof. destruct m as [a|e]; simpl; [|done]. intros HP HQ. by apply HQ. Qed.

Lemma safe_impl {A} (m : res A) (P Q : A → Prop) : safe m P → (∀ a, P a → Q a) → safe m Q.
Proof. destruct m; simpl; auto. Qed.

Lemma safe_eq {A} (m : res A) (P : A → Prop) : safe m P → safe m (λ a, m = Ok a ∧ P a).
Proof. by destruct m. Qed.

(** The ready queue grows at its end, no other coroutine stops waiting or is changed. *)
Record moves (co : Z) s s' : Prop := Moves {
  mv_ready : ∃ A, ready s' = ready s ++ A;
  mv_waiting x : x ∈ waiting s → x ≠ co → x ∈ waiting s';
  mv_others x n : x ≠ co → cos s !! x = Some n → cos s' !! x = Some n;
  mv_waits : waits s' = waits s;
  mv_log : resumed s' = resumed s
}.

Lemma moves_trans co s1 s2 s3 : moves co s1 s2 → moves co s2 s3 → moves co s1 s3.
Proof.
  intros [[A HA] H2 H3 H4 H5] [[B HB] I2 I3 I4 I5]. split; [|auto|auto|congruence|congruence].
  exists (A ++ B). by rewrite HB, HA, <-app_assoc.
Qed.

Lemma moves_refl co s : moves co s s.
Proof. split; auto. exists []. by rewrite app_nil_r. Qed.

Lemma moves_upd co s v : moves co s (with_cos (<[co := v]> (cos s)) s).
Proof. split; simpl; [by exists []; rewrite app_nil_r|done| |done|done]. intros x n Hne Hn. by rewrite lookup_insert_ne. Qed.

(** The running coroutine [co], with record [n]. *)
Definition runs (co : Z) s n : Prop := inv [co] s ∧ cos s !! co = Some n.

Lemma runs_wr co s n f : runs co s n → ∃ s', wr s co f = Ok s' ∧ s' = with_cos (<[co := f n]> (cos s)) s ∧
  runs co s' (f n) ∧ moves co s s'.
Proof.
  intros [HI Hn]. exists (with_cos (<[co := f n]> (cos s)) s). split.
  { apply wr_co; [|done]. eapply inv_nonnull; [exact HI|by exists n]. }
  split; [done|]. split; [|apply moves_upd]. split; [by eapply inv_upd; [..|left|]|]. simpl. apply lookup_insert_eq.
Qed.

Lemma inv_create X s func : inv X s → inv X (nty_coroutine_create calloc memalign s func) ∧
  (∀ co, moves co s (nty_coroutine_create calloc memalign s func)) ∧
  ∀ x n, cos s !! x = Some n → cos (nty_coroutine_create calloc memalign s func) !! x = Some n.
Proof using calloc_fresh.
  clear tame_next next quantum clock epoll_wait. intros HI. unfold nty_coroutine_create.
  destruct (Z.eqb_spec (calloc (cos s)) 0); [split; [done|split; [intros; apply moves_refl|done]]|].
  destruct (memalign (cos s)); [|split; [done|split; [intros; apply moves_refl|done]]]. set (a := calloc (cos s)) in *.
  assert (cos s !! a = None) as Ha by by apply calloc_fresh.
  assert (∀ x, is_Some (cos s !! x) → a ≠ x) as Hne by (intros x [m Hm] <-; congruence).
  destruct HI as [H1 H2 H3 H4 H5 H6 H7 H8 H9].
  assert (a ∉ X ++ ready s ++ waiting s) as Hout by (rewrite H2, Ha; by intros []).
  assert (∀ x, x ∈ ready s ∨ x ∈ waiting s → a ≠ x) as Hne' by (intros x Hx; apply Hne, H2; set_solver).
  split; [|split].
  - split; simpl; [| |by rewrite lookup_insert_ne| | | |done| |].
    + assert (X ++ (ready s ++ [a]) ++ waiting s ≡ₚ a :: X ++ ready s ++ waiting s) as -> by solve_Permutation.
      by apply NoDup_cons.
    + intros x. destruct (decide (x = a)) as [->|Hx]; [rewrite lookup_insert_eq; split; [eauto|set_solver]|].
      rewrite lookup_insert_ne, <-H2 by done. set_solver.
    + intros x [Hx|Hx]%elem_of_app.
      * rewrite lookup_insert_ne by auto. by apply H4.
      * apply list_elem_of_singleton in Hx as ->. rewrite lookup_insert_eq. eexists _, func. split; [done|]. split; done.
    + intros x Hx. rewrite lookup_insert_ne by auto. by apply H5.
    + eapply ordered_ext; [|exact H6]. intros x Hx. unfold keyof. simpl. by rewrite lookup_insert_ne by auto.
    + intros f Hf. destruct (H8 f Hf) as (x & Hx & E). exists x. split; [done|]. unfold keyof in *. simpl. by rewrite lookup_insert_ne by auto.
    + rewrite H9, map_size_insert_None by done. lia.
  - intros co. split; simpl; [by eexists|done| |done|done]. intros x m _ Hm. rewrite lookup_insert_ne; [done|]. apply Hne. by exists m.
  - intros x m Hm. simpl. rewrite lookup_insert_ne; [done|]. apply Hne. by exists m.
Qed.

Lemma runs_create co s n func : runs co s n → runs co (nty_coroutine_create calloc memalign s func) n ∧
  moves co s (nty_coroutine_create calloc memalign s func).
Proof. intros [HI Hn]. destruct (inv_create _ _ func HI) as (HI' & HM & Hc). split; [split; [done|by apply Hc]|apply HM]. Qed.

Lemma runs_close co s n f : runs co s n → runs co (with_epoll (delete f (epoll s)) s) n ∧ moves co s (with_epoll (delete f (epoll s)) s).
Proof.
  intros [HI Hn]. split; [|split; simpl; [by exists []; rewrite app_nil_r|done..]]. split; [|done].
  destruct HI as [H1 H2 H3 H4 H5 H6 H7 H8 H9]. split; simpl; try done.
  intros g [v Hv]. apply lookup_delete_Some in Hv as [_ Hv]. apply (H8 g). by exists v.
Qed.

(** A yield into the ready queue. *)
Lemma runs_push co s n c : runs co s n → fresh (status n) → ∃ s', nty_coroutine_yield (with_ready (ready s ++ [co]) s) co (Run c) = Ok s' ∧
  inv [] s' ∧ moves co s s' ∧ ∃ n', cos s' !! co = Some n' ∧ has (status n') EXITED = false.
Proof.
  intros HR Hf. destruct (runs_wr _ _ _ (with_ops 0) HR) as (s1 & _ & -> & H1 & M1).
  destruct (runs_wr _ _ _ (with_cont (Run c)) H1) as (s2 & _ & -> & H2 & M2).
  pose proof (inv_push _ _ _ c (proj1 H2) (proj2 H2) eq_refl Hf) as HI.
  assert (co ≠ 0) as H0 by (eapply inv_nonnull; [apply HR|exists n; apply HR]).
  unfold nty_coroutine_yield. rewrite (wr_co _ _ n) by (done || apply HR). rewrite ok_bind.
  rewrite (wr_co _ _ (with_ops 0 n)) by (done || apply lookup_insert_eq). eexists. split; [done|]. split; [exact HI|].
  pose proof (moves_trans _ _ _ _ M1 M2) as [_ HM2 HM3 HM4 HM5]. split; [split; simpl; [by eexists|exact HM2|exact HM3|exact HM4|exact HM5]|].
  simpl. rewrite lookup_insert_eq. eexists. split; [done|]. simpl. apply Hf.
Qed.

Lemma runs_exit co s n : runs co s n → ∃ s', exec_end s co = Ok s' ∧ inv [co] s' ∧ moves co s s' ∧
  ∃ n', cos s' !! co = Some n' ∧ has (status n') EXITED = true ∧ has (status n') DETACH = true.
Proof.
  intros HR. unfold exec_end, nty_coroutine_yield.
  destruct (runs_wr _ _ _ (λ n, with_status (set_bit (set_bit (set_bit (status n) EXITED) FDEOF) DETACH) n) HR) as (s1 & -> & _ & H1 & M1).
  rewrite ok_bind. destruct (runs_wr _ _ _ (with_ops 0) H1) as (s2 & -> & _ & H2 & M2). rewrite ok_bind.
  destruct (runs_wr _ _ _ (with_cont Dead) H2) as (s3 & -> & _ & H3 & M3). exists s3. split; [done|]. split; [apply H3|].
  split; [eapply moves_trans; [exact M1|]; by eapply moves_trans|]. eexists. split; [apply H3|]. simpl. rewrite !has_set.
  by rewrite !orb_true_r.
Qed.

(** The writes of [nty_schedule_sched_wait] to the coroutine. *)
Lemma sched_wait_ok s co n f ev : co ≠ 0 → cos s !! co = Some n → fresh (status n) → (Z.land ev POLLIN ≠ 0 ∨ Z.land ev POLLOUT ≠ 0) →
  ∃ st, has st EXITED = false ∧ nty_schedule_sched_wait clock s co f ev 1 =
    ('(o, l) ← rb_insert fd (with_cos (<[co := with_events ev (with_fd f (with_status st n))]> (cos s)) s) co f (waiting s);
     match o with
     | Some _ => Err AssertFailed
     | None => Ok (with_waiting l (with_cos (<[co := with_events ev (with_fd f (with_status st n))]> (cos s)) s))
     end).
Proof.
  intros H0 Hn (Hr & Hw & Hx & _) Hev. unfold nty_schedule_sched_wait. rewrite (rd_co s co n) by done. rewrite ok_bind, Hr, Hw.
  simpl (_ || _). cbn iota.
  assert (∀ st, (s0 ← wr s co (λ n, with_status (Z.lor (status n) st) n); s0 ← wr s0 co (with_fd f); wr s0 co (with_events ev)) =
    Ok (with_cos (<[co := with_events ev (with_fd f (with_status (Z.lor (status n) st) n))]> (cos s)) s)) as Hgo.
  { intros st. rewrite (wr_co s co n) by done. rewrite ok_bind.
    rewrite (wr_co _ co (with_status (Z.lor (status n) st) n)) by (done || apply lookup_insert_eq). rewrite ok_bind. simpl.
    rewrite insert_insert_eq. rewrite (wr_co _ co (with_fd f (with_status (Z.lor (status n) st) n))) by (done || apply lookup_insert_eq).
    simpl. by rewrite insert_insert_eq. }
  destruct (Z.eqb_spec (Z.land ev POLLIN) 0) as [E|E]; simpl (negb _); cbn iota.
  - destruct (Z.eqb_spec (Z.land ev POLLOUT) 0) as [E'|E']; [by destruct Hev|]. simpl (negb _). cbn iota.
    exists (Z.lor (status n) (num WAIT_WRITE)). split; [rewrite has_testbit in *; by rewrite Z.lor_spec, Hx|].
    specialize (Hgo (num WAIT_WRITE)). apply bind_ok in Hgo as (s1 & -> & Hgo). apply bind_ok in Hgo as (s2 & Hf & Hgo).
    by rewrite ok_bind, Hf, ok_bind, Hgo, ok_bind.
  - exists (Z.lor (status n) (num WAIT_READ)). split; [rewrite has_testbit in *; by rewrite Z.lor_spec, Hx|].
    specialize (Hgo (num WAIT_READ)). apply bind_ok in Hgo as (s1 & -> & Hgo). apply bind_ok in Hgo as (s2 & Hf & Hgo).
    by rewrite ok_bind, Hf, ok_bind, Hgo, ok_bind.
Qed.

Lemma runs_poll co s n f ev c : polls → runs co s n → fresh (status n) → (Z.land ev POLLIN ≠ 0 ∨ Z.land ev POLLOUT ≠ 0) →
  safe (s ← poll_enter clock s co [(f, ev)] 1; nty_coroutine_yield s co (Polled [(f, ev)] c))
    (λ s', inv [] s' ∧ moves co s s' ∧ ∃ n', cos s' !! co = Some n' ∧ has (status n') EXITED = false).
Proof.
  intros Hpo HR Hf Hev. assert (co ≠ 0) as H0 by (eapply inv_nonnull; [apply HR|exists n; apply HR]).
  pose proof HR as [HI Hn]. destruct (inv_X _ _ co HI ltac:(left)) as [_ Hnw]. cbn [poll_enter].
  set (E := match epoll s !! f with Some _ => _ | None => _ end). rewrite (wr_co (with_epoll E s) co n) by done. rewrite ok_bind.
  destruct (sched_wait_ok (with_cos (<[co := with_events ev n]> (cos (with_epoll E s))) (with_epoll E s)) co (with_events ev n) f ev)
    as (st & Hx & ->); [done|apply lookup_insert_eq|done|done|]. simpl (cos _). rewrite insert_insert_eq.
  set (n1 := with_events ev (with_fd f (with_status st (with_events ev n)))).
  destruct (runs_wr _ _ _ (λ _, with_cont (Polled [(f, ev)] c) (with_ops 0 n1)) HR) as (s1 & _ & -> & HR1 & M1).
  destruct (rb_insert_spec fd (with_cos (<[co := n1]> (cos s)) (with_epoll E s)) co f (waiting s)) as (r & Hri & Hr).
  { intros x Hx'. destruct (inv_live _ _ HI x Hx') as [Hx0 Hxs]. split; [done|]. simpl. rewrite lookup_insert_ne; [done|]. by intros ->. }
  { eapply ordered_ext; [|apply (inv_order _ _ HI)]. intros x Hx'. unfold keyof. simpl. rewrite lookup_insert_ne; [done|]. by intros ->. }
  assert (∀ x, x ∈ waiting s → keyof fd (with_cos (<[co := n1]> (cos s)) (with_epoll E s)) x = keyof fd s x) as Hk.
  { intros x Hx'. unfold keyof. simpl. rewrite lookup_insert_ne; [done|]. by intros ->. }
  assert (∀ v x, x ∈ waiting s → keyof fd (with_cos (<[co := v]> (cos s)) s) x = keyof fd s x) as Hk'.
  { intros v x Hx'. unfold keyof. simpl. rewrite lookup_insert_ne; [done|]. by intros ->. }
  change (with_cos _ (with_cos _ ?x)) with (with_cos (<[co := n1]> (cos s)) (with_epoll E s)). simpl (waiting _). rewrite Hri, ok_bind.
  destruct Hr as [(y & -> & _)|(l1 & l2 & -> & Ew & Hl1 & Hl2)]; [done|]. rewrite !ok_bind. unfold nty_coroutine_yield.
  rewrite (wr_co _ co n1) by (done || apply lookup_insert_eq). rewrite ok_bind.
  rewrite (wr_co _ co (with_ops 0 n1)) by (done || apply lookup_insert_eq). simpl (cos _). rewrite !insert_insert_eq.
  simpl (safe _ _). split; [|split].
  - pose proof (inv_wait _ co _ c ev l1 l2 (proj1 HR1) (proj2 HR1) eq_refl Hx Ew) as HW.
    assert (∃ e, E = match e with Some v => <[f := v]> (epoll s) | None => epoll s end) as [e He].
    { unfold E. destruct (epoll s !! f); [by exists None|by eexists (Some _)]. }
    eapply inv_same; [apply (HW) with (e := e)|..]; try done; intros y Hy; simpl; rewrite Hk' by (rewrite Ew; set_solver);
      rewrite <-Hk by (rewrite Ew; set_solver); [by apply Hl1|by apply Hl2].
  - split; simpl; [by exists []; rewrite app_nil_r| | |done|done].
    + intros x Hx' Hne. rewrite Ew in Hx'. set_solver.
    + intros x m Hne Hm. by rewrite lookup_insert_ne.
  - simpl. rewrite lookup_insert_eq. eexists. by split.
Qed.

(** The coroutine has yielded: it is queued or waits, or its function has returned. *)
Definition yielded (co : Z) s' : Prop :=
  (inv [] s' ∧ ∃ n, cos s' !! co = Some n ∧ has (status n) EXITED = false) ∨
  (inv [co] s' ∧ ∃ n, cos s' !! co = Some n ∧ has (status n) EXITED = true ∧ has (status n) DETACH = true).

Lemma run_spec co fuel : ∀ s c n, runs co s n → fresh (status n) → yields fuel c →
  safe (run_code next clock calloc memalign fuel s co c) (λ s', moves co s s' ∧ yielded co s').
Proof.
  induction fuel as [|fuel IH]; intros s c n HR Hf Hy; [done|]. cbn [run_code yields] in *. pose proof (tame_next c) as Ht.
  assert (∀ s1 c1 n1, moves co s s1 → runs co s1 n1 → fresh (status n1) → yields fuel c1 →
    safe (run_code next clock calloc memalign fuel s1 co c1) (λ s', moves co s s' ∧ yielded co s')) as Hgo.
  { intros s1 c1 n1 HM HR1 Hf1 Hy1. eapply safe_impl; [by eapply IH|]. intros s' [HM' H']. split; [by eapply moves_trans|done]. }
  destruct (next c) as [|fds timeout k|msecs k|func k|k|k|f k|k|]; simpl in Ht.
  - destruct (runs_exit _ _ _ HR) as (s' & -> & HI & HM & Hx). split; [done|]. by right.
  - destruct Ht as (Hpo & -> & f & ev & -> & Hev). simpl (1 =? 0). simpl (1 <? 0). cbn iota.
    eapply safe_impl; [by eapply runs_poll|]. intros s' (HI & HM & Hx). split; [done|]. by left.
  - subst msecs. simpl (0 =? 0). cbn iota. destruct (runs_push _ _ _ k HR Hf) as (s' & -> & HI & HM & Hx). split; [done|]. by left.
  - destruct (runs_create _ _ _ func HR) as [HR1 HM]. by eapply Hgo.
  - destruct (runs_wr _ _ _ (λ n, with_ops (ops n + 1) n) HR) as (s1 & -> & _ & HR1 & HM). rewrite ok_bind.
    assert (co ≠ 0) as H0 by (eapply inv_nonnull; [apply HR|exists n; apply HR]).
    rewrite (rd_co s1 co _ H0 (proj2 HR1)), ok_bind. destruct (_ <? 5); [by eapply Hgo|].
    destruct (runs_push _ _ _ k HR1 Hf) as (s' & -> & HI & HM' & Hx). split; [by eapply moves_trans|]. by left.
  - destruct (runs_wr _ _ _ (λ n, with_status (set_bit (status n) DETACH) n) HR) as (s1 & -> & _ & HR1 & HM). rewrite ok_bind.
    eapply Hgo; [exact HM|exact HR1| |done]. simpl. by apply fresh_set.
  - destruct (runs_close _ _ _ f HR) as [HR1 HM]. by eapply Hgo.
  - eapply Hgo; [apply moves_refl|exact HR|done|done].
  - by split.
Qed.

(** ** Switching to a coroutine *)

Context (yields_all : ∀ c, yields quantum c).

(** What a turn of [co] does to the others. *)
Record turn (co : Z) s s' : Prop := Turn {
  tn_ready : ∃ A, ready s' = ready s ++ A;
  tn_waiting x : x ∈ waiting s → x ≠ co → x ∈ waiting s';
  tn_others x n : x ≠ co → cos s !! x = Some n → cos s' !! x = Some n;
  tn_waits : waits s' = waits s;
  tn_log : resumed s' = resumed s ++ [co]
}.

(** Behind the switch. *)
Lemma resume_end co s s' : moves co (log co (with_curr co s)) s' → yielded co s' →
  safe (let s := with_curr 0 s' in n ← rd s co;
        if has (status n) EXITED && has (status n) DETACH then nty_coroutine_free s co else Ok s)
    (λ s', inv [] s' ∧ turn co s s').
Proof.
  intros [HM1 HM2 HM3 HM4 HM5] Hy. cbv zeta.
  assert (∀ X, inv X s' → inv X (with_curr 0 s')) as Hc by (intros X HI; by eapply inv_same).
  destruct Hy as [(HI & n & Hn & Hx)|(HI & n & Hn & Hx & Hd)]; apply Hc in HI.
  - assert (co ≠ 0) as H0 by (eapply inv_nonnull; [exact HI|by exists n]). rewrite (rd_co (with_curr 0 s') co n H0 Hn), ok_bind, Hx. simpl.
    split; [done|]. by split.
  - assert (co ≠ 0) as H0 by (eapply inv_nonnull; [exact HI|by exists n]).
    rewrite (rd_co (with_curr 0 s') co n H0 Hn), ok_bind, Hx, Hd. simpl (_ && _). cbn iota.
    unfold nty_coroutine_free. rewrite (proj2 (Z.eqb_neq _ _) H0), (rd_co (with_curr 0 s') co n H0 Hn), ok_bind. simpl (safe _ _).
    split; [by eapply (inv_free (with_curr 0 s'))|]. split; simpl; [done|done| |done|done].
    intros x m Hne Hm. rewrite lookup_delete_ne by done. by apply HM3.
Qed.

(** A coroutine from the ready queue. *)
Lemma resume_ready co s n c : inv [co] s → cos s !! co = Some n → resume_at n = Run c → fresh (status n) →
  safe (nty_coroutine_resume next quantum clock calloc memalign s co) (λ s', inv [] s' ∧ turn co s s').
Proof.
  intros HI Hn Hc Hf. assert (co ≠ 0) as H0 by (eapply inv_nonnull; [exact HI|by exists n]).
  unfold nty_coroutine_resume. rewrite (rd_co s co n H0 Hn), ok_bind.
  assert (∃ s1 n1, (if has (status n) NEW then nty_coroutine_init s co else Ok s) = Ok s1 ∧ runs co s1 n1 ∧
    moves co s s1 ∧ resume_at n1 = Run c ∧ fresh (status n1)) as (s1 & n1 & -> & HR1 & HM & Hc1 & Hf1).
  { destruct (has (status n) NEW).
    - destruct (runs_wr co s n (with_status (BIT READY)) (conj HI Hn)) as (s1 & E & _ & HR & HM). exists s1, (with_status (BIT READY) n).
      split; [exact E|]. split; [done|]. split; [done|]. by split.
    - exists s, n. split; [done|]. split; [done|]. split; [apply moves_refl|done]. }
  rewrite ok_bind. unfold switch. set (s2 := log co (with_curr co s1)).
  assert (runs co s2 n1) as HR2 by (split; [eapply inv_same; [apply HR1|done..]|apply HR1]).
  rewrite (rd_co s2 co n1 H0 (proj2 HR2)), ok_bind, Hc1.
  eapply safe_bind; [by eapply run_spec|]. intros s' [HM' Hy].
  eapply safe_impl; [by apply (resume_end co s1)|]. intros s'' [HI' HT]. split; [done|].
  destruct HM as [[A HA] HM2 HM3 HM4 HM5], HT as [[B HB] HT2 HT3 HT4 HT5]. split; [|auto|auto|congruence|congruence].
  exists (A ++ B). by rewrite HB, HA, <-app_assoc.
Qed.

(** A coroutine whose descriptor is ready; [st] is the status that the event gives it. *)
Lemma resume_waiting co s n st : inv [] s → co ∈ waiting s → cos s !! co = Some n → has st EXITED = false → has st NEW = false →
  safe (nty_coroutine_resume next quantum clock calloc memalign (with_cos (<[co := with_status st n]> (cos s)) s) co)
    (λ s', inv [] s' ∧ turn co s s').
Proof.
  intros HI Hco Hn Hx Hw. assert (co ≠ 0) as H0 by (eapply inv_nonnull; [exact HI|by exists n]).
  destruct (inv_waiting _ _ HI co Hco) as (n' & c & ev & Hn' & Hc & _). rewrite Hn in Hn'. injection Hn' as <-.
  set (s1 := with_cos (<[co := with_status st n]> (cos s)) s).
  assert (inv [] s1) as HI1 by (by eapply inv_upd_waiting). assert (cos s1 !! co = Some (with_status st n)) as Hn1 by apply lookup_insert_eq.
  unfold nty_coroutine_resume. rewrite (rd_co s1 co _ H0 Hn1), ok_bind. simpl (has _ NEW). rewrite Hw, ok_bind.
  unfold switch. set (s2 := log co (with_curr co s1)). rewrite (rd_co s2 co _ H0 Hn1), ok_bind. simpl (resume_at _). rewrite Hc.
  cbn [poll_leave]. unfold nty_schedule_desched_wait. simpl (waiting _).
  assert (inv [] s2) as HI2 by (by eapply inv_same).
  set (s3 := with_epoll (delete (fd n) (epoll s2)) s2).
  assert (rb_find fd s3 (fd n) (waiting s2) = Ok (Some co)) as Hfind.
  { pose proof (rb_find_some fd s3 co (waiting s2) (inv_live _ _ HI2) (inv_order _ _ HI2) Hco) as E.
    unfold keyof in E. change (cos s3 !! co) with (cos s1 !! co) in E. rewrite Hn1 in E. exact E. }
  change (waiting s) with (waiting s2). rewrite Hfind, ok_bind, (rb_remove_ok co (waiting s2) Hco), ok_bind.
  pose proof (inv_leave s2 co _ HI2 Hco Hn1) as HI3. simpl (fd _) in HI3.
  set (s4 := with_waiting (filter (λ y, y ≠ co) (waiting s2)) s3).
  assert (runs co s4 (with_status st n)) as HR4 by (split; [exact HI3|exact Hn1]).
  destruct (runs_wr _ _ _ (with_status 0) HR4) as (s5 & -> & _ & HR5 & HM5). rewrite ok_bind.
  unfold nty_schedule_desched_sleepdown. rewrite (rd_co s5 co _ H0 (proj2 HR5)), ok_bind. change (has _ SLEEPING) with false. cbn iota. rewrite ?ok_bind.
  eapply safe_bind; [eapply run_spec; [exact HR5|done|done]|]. intros s' [HM' Hy].
  assert (moves co s2 s4) as HM4.
  { split; simpl; [by exists []; rewrite app_nil_r| |done|done|done]. intros x Hx' Hne. by apply list_elem_of_filter. }
  eapply safe_impl; [apply (resume_end co s1); [eapply moves_trans; [exact HM4|by eapply moves_trans]|done]|].
  intros s'' [HI' [T1 T2 T3 T4 T5]]. split; [done|]. split; [exact T1|exact T2| |exact T4|exact T5].
  intros x m Hne Hm. apply T3; [done|]. simpl. by rewrite lookup_insert_ne.
Qed.

(** ** The loops of the scheduler *)

(** A coroutine that only ever yields. *)
Definition spins s (x : Z) (c : code) : Prop := next c = Sleep 0 c ∧ ∃ n, cos s !! x = Some n ∧ resume_at n = Run c.

Lemma resume_spin co s c : spins s co c → co ≠ 0 → (∃ n, cos s !! co = Some n ∧ fresh (status n)) → (0 < quantum)%nat → ∃ s',
  nty_coroutine_resume next quantum clock calloc memalign s co = Ok s' ∧ ready s' = ready s ++ [co] ∧ spins s' co c.
Proof.
  intros (Hn & n & Hco & Hc) H0 (n' & Hn' & Hf) Hq. rewrite Hco in Hn'. injection Hn' as <-. destruct quantum as [|q]; [lia|].
  unfold nty_coroutine_resume. rewrite (rd_co s co n H0 Hco), ok_bind.
  assert (∃ s1 n1, (if has (status n) NEW then nty_coroutine_init s co else Ok s) = Ok s1 ∧ cos s1 !! co = Some n1 ∧
    resume_at n1 = Run c ∧ fresh (status n1) ∧ ready s1 = ready s) as (s1 & n1 & -> & Hn1 & Hc1 & Hf1 & Er).
  { destruct (has (status n) NEW).
    - exists (with_cos (<[co := with_status (BIT READY) n]> (cos s)) s), (with_status (BIT READY) n).
      split; [by apply wr_co|]. split; [apply lookup_insert_eq|]. done.
    - by exists s, n. }
  rewrite ok_bind. unfold switch. rewrite (rd_co (log co (with_curr co s1)) co n1 H0 Hn1), ok_bind, Hc1. cbn [run_code]. rewrite Hn.
  simpl (0 =? 0). cbn iota. unfold nty_coroutine_yield.
  rewrite (wr_co _ co n1) by done. rewrite ok_bind. rewrite (wr_co _ co (with_ops 0 n1)) by (done || apply lookup_insert_eq). rewrite !ok_bind.
  simpl (cos _). rewrite insert_insert_eq. erewrite rd_co; [|done|apply lookup_insert_eq]. rewrite ok_bind. simpl (status _).
  destruct Hf1 as (_ & _ & -> & _). simpl (_ && _). cbn iota. eexists. split; [done|]. simpl. split; [by rewrite Er|].
  split; [done|]. simpl. rewrite lookup_insert_eq. by eexists.
Qed.

Lemma default_last {A} (x d : A) l : default d (last (x :: l)) = match l with [] => x | _ => default d (last l) end.
Proof. by destruct l. Qed.

Lemma default_last_elem {A} (x d : A) l : default d (last (x :: l)) ∈ x :: l.
Proof.
  revert x. induction l as [|y l IH]; intros x; [left|]. rewrite default_last. right. apply IH.
Qed.

(** The waiting coroutines stay as they are, and those that only yield stay ready. *)
Record kept s s' : Prop := Kept {
  kp_waiting x : x ∈ waiting s → x ∈ waiting s' ∧ cos s' !! x = cos s !! x;
  kp_spins x c : x ∈ ready s → spins s x c → x ∈ ready s' ∧ spins s' x c
}.

Lemma kept_trans s1 s2 s3 : kept s1 s2 → kept s2 s3 → kept s1 s3.
Proof.
  intros [W1 S1] [W2 S2]. split.
  - intros x Hx. destruct (W1 x Hx) as [Hx' E]. destruct (W2 x Hx'). split; [done|congruence].
  - intros x c Hx Hs. destruct (S1 x c Hx Hs). by apply S2.
Qed.

Lemma kept_same s s' : ready s' = ready s → waiting s' = waiting s → cos s' = cos s → kept s s'.
Proof.
  intros Er Ew Ec. split; [intros x Hx; by rewrite Ew, Ec|]. intros x c Hx [Hn Hs]. rewrite Er. split; [done|]. split; [done|]. by rewrite Ec.
Qed.

Lemma quantum_pos s x : inv [] s → x ∈ ready s → (0 < quantum)%nat.
Proof.
  intros HI Hx. destruct (inv_ready _ _ HI x Hx) as (n & c & _ & _ & _). pose proof (yields_all c) as Hy. destruct quantum; [done|lia].
Qed.

(** The first coroutine of the queue has its turn. *)
Lemma ready_turn co R s : inv [] s → ready s = co :: R → ∃ n, rd (with_ready R s) co = Ok n ∧ has (status n) FDEOF = false ∧
  safe (nty_coroutine_resume next quantum clock calloc memalign (with_ready R s) co)
    (λ s', inv [] s' ∧ (∃ A, ready s' = R ++ A) ∧ resumed s' = resumed s ++ [co] ∧ waits s' = waits s ∧ kept s s').
Proof.
  intros HI Er. assert (co ∈ ready s) as Hco by (rewrite Er; left). destruct (inv_ready _ _ HI co Hco) as (n & c & Hn & Hc & Hf).
  assert (co ≠ 0) as H0 by (eapply inv_nonnull; [exact HI|by exists n]). exists n.
  split; [by apply rd_co|]. split; [apply Hf|]. pose proof (inv_pop _ _ _ HI Er) as HI1.
  destruct (inv_X _ _ co HI1 ltac:(left)) as [Hnr Hnw]. simpl in Hnr, Hnw.
  eapply safe_impl; [eapply safe_eq, (resume_ready co _ n c HI1 Hn Hc Hf)|].
  intros s2 (Erun & HI2 & [[A HA] HT2 HT3 HT4 HT5]). split; [done|]. split; [by exists A|]. split; [done|]. split; [done|]. split.
  - intros x Hx. split; [apply HT2; [done|by intros ->]|].
    destruct (inv_waiting _ _ HI x Hx) as (m & _ & _ & Hm & _). rewrite Hm. apply HT3; [by intros ->|done].
  - intros x c' Hx Hs. destruct (decide (x = co)) as [->|Hne].
    + destruct (resume_spin co (with_ready R s) c') as (s2' & Erun' & Er2 & Hs2); [exact Hs|done|by exists n|exact (quantum_pos s co HI Hco)|].
      rewrite Erun in Erun'. injection Erun' as <-. split; [|done]. rewrite Er2. apply elem_of_app. right. left.
    + rewrite Er in Hx. apply elem_of_cons in Hx as [->|Hx]; [done|]. split; [rewrite HA; apply elem_of_app; by left|].
      destruct Hs as (Hnx & m & Hm & Hcm). split; [done|]. exists m. split; [by apply HT3|done].
Qed.

Lemma ready_loop_spec : ∀ R co A s, inv [] s → ready s = co :: R ++ A →
  safe (ready_loop next quantum clock calloc memalign (S (length R)) s (default 0 (last (co :: R))))
    (λ s', inv [] s' ∧ resumed s' = resumed s ++ co :: R ∧ waits s' = waits s ∧ kept s s').
Proof.
  induction R as [|co' R IH]; intros co A s HI Er; cbn [ready_loop app length] in *;
    destruct (ready_turn co _ s HI Er) as (n & Hrd & Hf & Hrun); rewrite Er, Hrd, ok_bind, Hf;
    (eapply safe_bind; [exact Hrun|]); intros s2 (HI2 & [A1 HA1] & Hlog & Hwt & HK).
  - simpl (default _ _). rewrite Z.eqb_refl. done.
  - rewrite default_last. assert ((co =? default 0 (last (co' :: R))) = false) as ->.
    { apply Z.eqb_neq. intros E. pose proof (inv_nodup _ _ HI) as Hd. simpl in Hd. rewrite Er in Hd. simpl in Hd.
      apply NoDup_cons in Hd as [Hd _]. apply Hd. rewrite E, !app_comm_cons. apply elem_of_app. left. apply elem_of_app. left.
      apply default_last_elem. }
    eapply safe_impl; [apply (IH co' (A ++ A1) s2 HI2); rewrite HA1; simpl; by rewrite <-app_assoc|].
    intros s' (HI' & Hlog' & Hwt' & HK'). split; [done|]. split; [rewrite Hlog', Hlog; by rewrite <-app_assoc|].
    split; [congruence|]. by eapply kept_trans.
Qed.

(** The coroutines that wait for the descriptors of some events, in that order. *)
Definition waiters s (evs : list (Z * Z)) (xs : list Z) : Prop := Forall2 (λ e x, x ∈ waiting s ∧ keyof fd s x = e.1) evs xs.

Lemma event_loop_spec : ∀ evs s xs, inv [] s → NoDup evs.*1 → waiters s evs xs →
  safe (event_loop next quantum clock calloc memalign s evs)
    (λ s', inv [] s' ∧ resumed s' = resumed s ++ xs ∧ waits s' = waits s).
Proof.
  induction evs as [|[f ev] evs IH]; intros s xs HI Hnd HW; inversion HW as [|e co evs' xs' [Hco Hk] HW']; subst; cbn [event_loop].
  { simpl. by rewrite app_nil_r. }
  destruct (inv_waiting _ _ HI co Hco) as (n & c & ev' & Hn & _ & _). simpl in Hk.
  assert (co ≠ 0) as H0 by (eapply inv_nonnull; [exact HI|by exists n]). unfold nty_schedule_search_wait. rewrite <-Hk.
  rewrite (rb_find_some fd s co (waiting s) (inv_live _ _ HI) (inv_order _ _ HI) Hco), ok_bind, (wr_co s co n) by done. rewrite !ok_bind.
  assert (∃ st, (if Z.land ev EPOLLHUP =? 0 then Ok (with_cos (<[co := with_status 0 n]> (cos s)) s)
     else wr (with_cos (<[co := with_status 0 n]> (cos s)) s) co (λ n, with_status (set_bit (status n) FDEOF) n)) =
     Ok (with_cos (<[co := with_status st n]> (cos s)) s) ∧ has st EXITED = false ∧ has st NEW = false) as (st & -> & Hx & Hw).
  { destruct (_ =? 0); [by exists 0|]. exists (set_bit 0 FDEOF). split; [|done].
    rewrite (wr_co _ co (with_status 0 n)) by (done || apply lookup_insert_eq). simpl (cos _). by rewrite insert_insert_eq. }
  rewrite ok_bind. eapply safe_bind; [by apply resume_waiting|]. intros s1 (HI1 & [_ T2 T3 T4 T5]).
  simpl in Hnd. apply NoDup_cons in Hnd as [Hf Hnd].
  eapply safe_impl; [apply (IH s1 xs' HI1 Hnd)|].
  - apply (Forall2_impl_in _ _ _ _ HW'). intros e x He [Hx' Hkx].
    assert (x ≠ co) as Hne by (intros ->; apply Hf; rewrite <-Hk, Hkx; by apply list_elem_of_fmap_2).
    destruct (inv_waiting _ _ HI x Hx') as (m & _ & _ & Hm & _). split; [by apply T2|]. unfold keyof in *.
    rewrite (T3 x m Hne Hm). by rewrite Hm in Hkx.
  - intros s' (HI' & Hlog & Hwt). split; [done|]. split; [rewrite Hlog, T5; simpl; by rewrite <-app_assoc|congruence].
Qed.

Notation round := (round next quantum clock epoll_wait calloc memalign).
Notation run := (nty_schedule_run next quantum clock epoll_wait calloc memalign).

(** [epoll_wait] reports registered descriptors, each once. *)
Context (epoll_ok : ∀ i ms E, NoDup (epoll_wait i ms E).*1 ∧ ∀ f, f ∈ (epoll_wait i ms E).*1 → is_Some (E !! f)).

Lemma ready_phase s : inv [] s →
  safe (ready_loop next quantum clock calloc memalign (length (ready s)) s (default 0 (last (ready s))))
    (λ s', inv [] s' ∧ resumed s' = resumed s ++ ready s ∧ waits s' = waits s ∧ kept s s').
Proof.
  intros HI. destruct (ready s) as [|co R] eqn:Er.
  - cbn [ready_loop length]. rewrite Er. simpl. rewrite app_nil_r. split; [done|]. split; [done|]. split; [done|]. by apply kept_same.
  - apply (ready_loop_spec R co [] s HI). by rewrite app_nil_r.
Qed.

(** The events a round sees: none while a coroutine is ready. *)
Definition events_of s : list (Z * Z) :=
  match ready s with
  | [] => if default_timeout s =? 0 then [] else epoll_wait (waits s) (epoll_msecs (default_timeout s)) (epoll s)
  | _ => []
  end.

Lemma waiters_exist s evs : inv [] s → (∀ f, f ∈ evs.*1 → is_Some (epoll s !! f)) → ∃ xs, waiters s evs xs.
Proof.
  intros HI. induction evs as [|[f ev] evs IH]; intros Hf; [by exists []; constructor|].
  destruct IH as [xs Hxs]; [intros g Hg; apply Hf; by right|].
  destruct (inv_epoll _ _ HI f) as (x & Hx & E); [apply Hf; left|]. exists (x :: xs). by constructor.
Qed.

Lemma epoll_phase s : inv [] s → ∃ s', nty_schedule_epoll clock epoll_wait s = Ok (s', events_of s) ∧ inv [] s' ∧ (kept s s' ∧ cos s' = cos s ∧ waiting s' = waiting s) ∧
  resumed s' = resumed s ∧ (ready s ≠ [] → waits s' = waits s) ∧ ready s' = ready s ∧
  ∃ xs, waiters s (reverse (events_of s)) xs ∧ waiters s' (reverse (events_of s)) xs ∧ NoDup (reverse (events_of s)).*1.
Proof.
  intros HI. unfold nty_schedule_epoll, nty_schedule_min_timeout. simpl (sleeping _). rewrite (inv_sleeping _ _ HI).
  change (rb_min [] =? 0) with true. cbn iota. rewrite ok_bind. simpl (ready _). simpl (default_timeout _).
  assert (∀ s', s' = tick s ∨ s' = tock (tick s) → inv [] s' ∧ (kept s s' ∧ cos s' = cos s ∧ waiting s' = waiting s) ∧ resumed s' = resumed s ∧ ready s' = ready s) as Hs.
  { intros s' [-> | ->]; (split; [by eapply inv_same|]; split; [split; [by apply kept_same|done]|done]). }
  assert (∀ s', s' = tick s ∨ s' = tock (tick s) →
    ∃ xs, waiters s (reverse (events_of s)) xs ∧ waiters s' (reverse (events_of s)) xs ∧ NoDup (reverse (events_of s)).*1) as Hx.
  { intros s' Hs'. destruct (Hs s' Hs') as (HI' & _). assert (epoll s' = epoll s) as Ee by by destruct Hs' as [-> | ->].
    assert (NoDup (events_of s).*1 ∧ ∀ f, f ∈ (events_of s).*1 → is_Some (epoll s' !! f)) as [Hnd Hf].
    { rewrite Ee. unfold events_of. destruct (ready s); [|by split; [constructor|intros f ?%elem_of_nil]].
      destruct (_ =? 0); [by split; [constructor|intros f ?%elem_of_nil]|apply epoll_ok]. }
    destruct (waiters_exist s' (reverse (events_of s)) HI') as [xs Hxs].
    - intros f Hin. apply Hf. rewrite fmap_reverse in Hin. by rewrite elem_of_reverse in Hin.
    - exists xs. split; [by destruct Hs' as [-> | ->]|]. split; [done|]. rewrite fmap_reverse, reverse_Permutation. done. }
  unfold events_of at 1. destruct (ready s) eqn:Er.
  - destruct (_ =? 0).
    + exists (tick s). split; [done|]. destruct (Hs (tick s)) as (? & ? & ? & Hrs); [by left|]. repeat (split; [done|]). apply Hx. by left.
    + exists (tock (tick s)). split; [done|]. destruct (Hs (tock (tick s))) as (? & ? & ? & Hrs); [by right|].
      repeat (split; [done|]). apply Hx. by right.
  - exists (tick s). split; [done|]. destruct (Hs (tick s)) as (? & ? & ? & Hrs); [by left|]. repeat (split; [done|]). apply Hx. by left.
Qed.

(** A round: first every coroutine that was ready, in order, then those with events. *)
Lemma round_spec s : inv [] s → safe (round s) (λ s', inv [] s' ∧ ∃ s1 xs,
  ready_loop next quantum clock calloc memalign (length (ready s)) (tick s) (default 0 (last (ready s))) = Ok s1 ∧
  kept s s1 ∧ waiters s1 (reverse (events_of s1)) xs ∧ resumed s' = resumed s ++ ready s ++ xs ∧
  (ready s1 ≠ [] → waits s' = waits s ∧ kept s s' )).
Proof.
  intros HI. unfold NtyCo.round. cbn [expired_loop]. unfold nty_schedule_expired. simpl (sleeping _). rewrite (inv_sleeping _ _ HI).
  change (rb_min [] =? 0) with true. cbn iota. rewrite ok_bind. simpl (0 =? 0). cbn iota. rewrite ok_bind.
  assert (inv [] (tick s)) as HI0 by (by eapply inv_same). pose proof (kept_same s (tick s) eq_refl eq_refl eq_refl) as HK0.
  eapply safe_bind; [by apply safe_eq, ready_phase|]. intros s1 (Erun & HI1 & Hlog & Hwt & HK1).
  assert (kept s s1) as HKs by (by eapply kept_trans).
  destruct (epoll_phase s1 HI1) as (s2 & -> & HI2 & [HK2 _] & Hlog2 & Hwt2 & Er2 & xs & Hxs1 & Hxs & Hnd). rewrite ok_bind.
  destruct (decide (ready s1 = [])) as [He|Hne].
  - eapply safe_impl; [by apply (event_loop_spec _ s2 xs HI2)|]. intros s' (HI' & Hlog' & _). split; [done|].
    exists s1, xs. split; [done|]. split; [done|]. split; [done|]. split; [rewrite Hlog', Hlog2, Hlog; simpl; by rewrite <-app_assoc|done].
  - assert (events_of s1 = []) as Ee by (unfold events_of; by destruct (ready s1)). rewrite Ee in *. simpl. split; [done|].
    inversion Hxs1; subst. exists s1, []. split; [done|]. split; [done|]. rewrite Ee. split; [constructor|]. rewrite app_nil_r.
    split; [by rewrite Hlog2, Hlog|]. intros _. split; [rewrite Hwt2, Hwt; done|by eapply kept_trans].
Qed.

Lemma inv_empty s : inv [] s → nty_schedule_isdone s = true ↔ cos s = ∅.
Proof.
  intros HI. unfold nty_schedule_isdone. rewrite (inv_sleeping _ _ HI). split.
  - intros Hd. destruct (waiting s) eqn:Ew, (ready s) eqn:Er; try done. apply map_empty. intros x.
    destruct (cos s !! x) eqn:E; [|done]. assert (x ∈ [] ++ ready s ++ waiting s) as Hx by (apply (inv_dom _ _ HI); by eexists).
    rewrite Er, Ew in Hx. by apply elem_of_nil in Hx.
  - intros E. assert (∀ x, x ∉ [] ++ ready s ++ waiting s) as Hx by (intros x; rewrite (inv_dom _ _ HI), E, lookup_empty; by intros []).
    destruct (waiting s) as [|x l] eqn:Ew; [|exfalso; apply (Hx x); simpl; apply elem_of_app; right; left].
    destruct (ready s) as [|x l] eqn:Er; [done|]. exfalso. apply (Hx x). simpl. left.
Qed.

(** What may come of a run: it goes on, an assertion has stopped it, or every coroutine has returned and
    has been freed. *)
Definition run_outcome (m : res (nty_schedule code)) : Prop :=
  match m with
  | Ok s' => cos s' = ∅ ∧ spawned_coroutines s' = 0 ∧ epoll s' = ∅
  | Err e => e = OutOfFuel ∨ polls ∧ e = AssertFailed
  end.

Lemma run_outcome_inv (i : nat) : ∀ s, inv [] s → run_outcome (run i s).
Proof.
  assert (∀ s, inv [] s → nty_schedule_isdone s = true → run_outcome (Ok s)) as Hdone.
  { intros s HI Hd. apply (inv_empty s HI) in Hd as Ec. split; [done|]. split; [by rewrite (inv_spawned _ _ HI), Ec|].
    apply map_empty. intros f. destruct (epoll s !! f) eqn:E; [|done]. destruct (inv_epoll _ _ HI f) as (x & Hx & _); [by eexists|].
    unfold nty_schedule_isdone in Hd. destruct (waiting s); [by apply elem_of_nil in Hx|done]. }
  induction i as [|i IH]; intros s HI; cbn [nty_schedule_run]; (destruct (nty_schedule_isdone s) eqn:Hd; [by apply Hdone|]); [by left|].
  pose proof (round_spec s HI) as Hr. destruct (round s) as [s'|e]; rewrite ?ok_bind; simpl in Hr.
  - apply IH, Hr.
  - by right.
Qed.

(** [k] rounds in a row. *)
Fixpoint rounds (k : nat) s : res (nty_schedule code) :=
  match k with O => Ok s | S k => s ← round s; rounds k s end.

Lemma starving x c k : ∀ s, inv [] s → x ∈ ready s → spins s x c →
  safe (rounds k s) (λ s', waits s' = waits s ∧ kept s s').
Proof.
  induction k as [|k IH]; intros s HI Hx Hs; cbn [rounds]; [split; [done|by apply kept_same]|].
  eapply safe_bind; [by apply round_spec|]. intros s1 (HI1 & s0 & xs & _ & HK & _ & _ & Hne).
  destruct (kp_spins _ _ HK x c Hx Hs) as [Hx0 Hs0]. destruct Hne as [Hw HK1]; [by destruct (ready s0); [apply elem_of_nil in Hx0|]|].
  destruct (kp_spins _ _ HK1 x c Hx Hs) as [Hx1 Hs1].
  eapply safe_impl; [by apply (IH s1)|]. intros s' [Hw' HK']. split; [congruence|]. by eapply kept_trans.
Qed.

Lemma inv_spawns funcs : ∀ s, inv [] s → inv [] (foldl (nty_coroutine_create calloc memalign) s funcs).
Proof using calloc_fresh. induction funcs as [|func funcs IH]; intros s HI; simpl; [done|]. apply IH. by apply inv_create. Qed.

Lemma spawns_waiting funcs : ∀ s, waiting (foldl (nty_coroutine_create calloc memalign) s funcs) = waiting s.
Proof.
  induction funcs as [|func funcs IH]; intros s; simpl; [done|]. rewrite IH. unfold nty_coroutine_create.
  destruct (_ =? 0); [done|]. by destruct (memalign _).
Qed.

Lemma created_waiting addr fd s : nty_schedule_create clock addr fd = Some s → waiting s = [].
Proof. unfold nty_schedule_create. destruct (addr =? 0); [done|]. destruct (fd =? -1); [done|]. by intros [= <-]. Qed.

Lemma create_inv addr fd s : nty_schedule_create clock addr fd = Some s → inv [] s.
Proof.
  unfold nty_schedule_create. destruct (addr =? 0); [done|]. destruct (fd =? -1); [done|]. intros [= <-]. split; simpl; try done.
  - constructor.
  - intros x. rewrite lookup_empty. split; [by intros ?%elem_of_nil|by intros []].
  - by intros x ?%elem_of_nil.
  - by intros x ?%elem_of_nil.
  - constructor.
  - intros f. rewrite lookup_empty. by intros [].
Qed.

(** ** Termination *)

Section measure.
(** A bound on what a coroutine has left to do, for code that does not wait for descriptors. *)
Context (weight : code → nat) (no_polls : ¬ polls).
Context (lighter : ∀ c, match next c with
  | Return | Abort => True
  | Create f k => (weight f + weight k < weight c)%nat
  | Poll _ _ k | Sleep _ k | Renice k | Detach k | Close _ k | Call k => (weight k < weight c)%nat
  end).

Definition burden n : nat := match resume_at n with Run c | Polled _ c => S (weight c) | Dead => 0 end.
Definition load (h : gmap Z (nty_coroutine code)) : nat := map_fold (λ _ n a, burden n + a)%nat 0%nat h.

Lemma load_new h x n : h !! x = None → load (<[x := n]> h) = (burden n + load h)%nat.
Proof. intros Hx. unfold load. rewrite map_fold_insert_L; [done| |done]. intros; lia. Qed.

Lemma load_delete h x n : h !! x = Some n → load h = (burden n + load (delete x h))%nat.
Proof. intros Hx. rewrite <-(insert_delete_id h x n) at 1 by done. apply load_new. apply lookup_delete_eq. Qed.

Lemma load_upd h x n n' : h !! x = Some n → (load (<[x := n']> h) + burden n = load h + burden n')%nat.
Proof.
  intros Hx. rewrite <-insert_delete_eq, load_new by apply lookup_delete_eq. rewrite (load_delete h x n Hx). lia.
Qed.

Lemma safe_ok {A} (r : res A) P : safe r P → ∃ a, r = Ok a ∧ P a.
Proof. destruct r as [a|e]; simpl; [eauto|]. by intros [? _]. Qed.

(** What a coroutine does takes from its burden, also for the coroutines it creates. *)
Lemma run_light co fuel : ∀ s c n, runs co s n → yields fuel c → ∃ s',
  run_code next clock calloc memalign fuel s co c = Ok s' ∧ waiting s' = waiting s ∧
  (load (cos s') + burden n ≤ load (cos s) + weight c)%nat.
Proof.
  induction fuel as [|fuel IH]; intros s c n HR Hy; [done|]. cbn [run_code yields] in *. pose proof (tame_next c) as Ht.
  pose proof (lighter c) as Hw. assert (co ≠ 0) as H0 by (eapply inv_nonnull; [apply HR|exists n; apply HR]).
  assert (∀ s1 n1 c1, runs co s1 n1 → yields fuel c1 → waiting s1 = waiting s →
    (load (cos s1) + burden n + weight c1 ≤ load (cos s) + weight c + burden n1)%nat → ∃ s',
    run_code next clock calloc memalign fuel s1 co c1 = Ok s' ∧ waiting s' = waiting s ∧
    (load (cos s') + burden n ≤ load (cos s) + weight c)%nat) as Hgo.
  { intros s1 n1 c1 HR1 Hy1 Ew Hl. destruct (IH s1 c1 n1 HR1 Hy1) as (s' & E & Ew' & Hl'). exists s'. split; [done|].
    split; [congruence|lia]. }
  assert (∀ v, burden v = burden n → (load (<[co := v]> (cos s)) = load (cos s))%nat) as Hsame.
  { intros v Hv. pose proof (load_upd (cos s) co n v (proj2 HR)). lia. }
  assert (∀ k, (weight k < weight c)%nat → ∃ s', nty_coroutine_yield (with_ready (ready s ++ [co]) s) co (Run k) = Ok s' ∧
    waiting s' = waiting s ∧ (load (cos s') + burden n ≤ load (cos s) + weight c)%nat) as Hpush.
  { intros k Hk. unfold nty_coroutine_yield. rewrite (wr_co _ co n) by (done || apply HR). rewrite ok_bind.
    rewrite (wr_co _ co (with_ops 0 n)) by (done || apply lookup_insert_eq). eexists. split; [done|]. split; [done|].
    simpl (cos _). rewrite insert_insert_eq. pose proof (load_upd (cos s) co n (with_cont (Run k) (with_ops 0 n)) (proj2 HR)) as Hl.
    change (burden (with_cont _ _)) with (S (weight k)) in Hl. lia. }
  destruct (next c) as [|fds timeout k|msecs k|func k|k|k|f k|k|]; simpl in Ht.
  - unfold exec_end, nty_coroutine_yield. rewrite (wr_co s co n) by (done || apply HR). rewrite ok_bind.
    erewrite wr_co; [|done|apply lookup_insert_eq]. rewrite ok_bind. simpl (cos _). rewrite insert_insert_eq.
    erewrite wr_co; [|done|apply lookup_insert_eq]. simpl (cos _). rewrite insert_insert_eq. eexists. split; [done|]. split; [done|].
    simpl (cos _). match goal with |- context [<[co := ?v]> _] => pose proof (load_upd (cos s) co n v (proj2 HR)) as Hl end.
    change (burden (with_cont _ _)) with 0%nat in Hl. lia.
  - by destruct Ht.
  - subst msecs. simpl (0 =? 0). cbn iota. by apply Hpush.
  - destruct (runs_create _ _ _ func HR) as [HR1 _]. eapply (Hgo _ n); [exact HR1|done| |].
    + unfold nty_coroutine_create. destruct (_ =? 0); [done|]. by destruct (memalign _).
    + assert ((load (cos (nty_coroutine_create calloc memalign s func)) ≤ S (weight func) + load (cos s))%nat); [|lia].
      unfold nty_coroutine_create. destruct (Z.eqb_spec (calloc (cos s)) 0); [lia|]. destruct (memalign _); [|lia]. simpl (cos _).
      rewrite load_new by (by apply calloc_fresh). unfold burden. simpl. lia.
  - rewrite (wr_co s co n) by (done || apply HR). rewrite ok_bind.
    destruct (runs_wr co s n (λ n, with_ops (ops n + 1) n) HR) as (s1 & _ & -> & HR1 & _).
    rewrite (rd_co _ co _ H0 (proj2 HR1)), ok_bind. destruct (_ <? 5).
    + eapply Hgo; [exact HR1|done|done|]. simpl (cos _). rewrite Hsame by done. unfold burden. simpl. lia.
    + unfold nty_coroutine_yield. erewrite wr_co; [|done|apply lookup_insert_eq]. rewrite ok_bind. simpl (cos _). rewrite insert_insert_eq.
      erewrite wr_co; [|done|apply lookup_insert_eq]. simpl (cos _). rewrite insert_insert_eq. eexists. split; [done|]. split; [done|].
      simpl (cos _). match goal with |- context [<[co := ?v]> _] => pose proof (load_upd (cos s) co n v (proj2 HR)) as Hl end.
      change (burden (with_cont _ _)) with (S (weight k)) in Hl. lia.
  - rewrite (wr_co s co n) by (done || apply HR). rewrite ok_bind.
    destruct (runs_wr co s n (λ n, with_status (set_bit (status n) DETACH) n) HR) as (s1 & _ & -> & HR1 & _).
    eapply Hgo; [exact HR1|done|done|]. simpl (cos _). rewrite Hsame by done. unfold burden. simpl. lia.
  - destruct (runs_close _ _ _ f HR) as [HR1 _]. eapply Hgo; [exact HR1|done|done|]. simpl (cos _). lia.
  - eapply Hgo; [exact HR|done|done|lia].
  - by destruct no_polls.
Qed.

Lemma resume_light co s n c s' : inv [co] s → cos s !! co = Some n → resume_at n = Run c → fresh (status n) →
  nty_coroutine_resume next quantum clock calloc memalign s co = Ok s' → waiting s' = waiting s ∧ (load (cos s') < load (cos s))%nat.
Proof.
  intros HI Hn Hc Hf. assert (co ≠ 0) as H0 by (eapply inv_nonnull; [exact HI|by exists n]).
  unfold nty_coroutine_resume. rewrite (rd_co s co n H0 Hn), ok_bind.
  assert (∃ s1 n1, (if has (status n) NEW then nty_coroutine_init s co else Ok s) = Ok s1 ∧ runs co s1 n1 ∧ resume_at n1 = Run c ∧
    waiting s1 = waiting s ∧ load (cos s1) = load (cos s)) as (s1 & n1 & -> & HR1 & Hc1 & Ew & El).
  { destruct (has (status n) NEW); [|by exists s, n]. unfold nty_coroutine_init. rewrite (wr_co s co n _ H0 Hn).
    destruct (runs_wr co s n (with_status (BIT READY)) (conj HI Hn)) as (s1 & _ & -> & HR & _).
    eexists _, _. split; [done|]. split; [exact HR|]. split; [done|]. split; [done|]. simpl (cos _).
    pose proof (load_upd (cos s) co n (with_status (BIT READY) n) Hn) as Hl. unfold burden in Hl. simpl in Hl. lia. }
  rewrite ok_bind. unfold switch. set (s2 := log co (with_curr co s1)).
  assert (runs co s2 n1) as HR2 by (split; [eapply inv_same; [apply HR1|done..]|apply HR1]).
  rewrite (rd_co s2 co n1 H0 (proj2 HR2)), ok_bind, Hc1.
  destruct (run_light co quantum s2 c n1 HR2 (yields_all c)) as (s3 & -> & Ew3 & Hl3). rewrite ok_bind.
  assert (burden n1 = S (weight c)) as Hb by (unfold burden; by rewrite Hc1). change (load (cos s2)) with (load (cos s1)) in Hl3.
  destruct (rd (with_curr 0 s3) co) as [n3|] eqn:Hrd; [|done]. rewrite ok_bind. destruct (_ && _).
  - unfold nty_coroutine_free. rewrite (proj2 (Z.eqb_neq _ _) H0), Hrd, ok_bind. intros [= <-]. split; [by etransitivity|].
    simpl (cos _). unfold rd in Hrd. rewrite (proj2 (Z.eqb_neq _ _) H0) in Hrd. apply get_or_ok in Hrd. simpl in Hrd.
    pose proof (load_delete _ _ _ Hrd). lia.
  - intros [= <-]. split; [by etransitivity|]. simpl (cos _). lia.
Qed.

Lemma ready_loop_light : ∀ R co A s s', inv [] s → ready s = co :: R ++ A →
  ready_loop next quantum clock calloc memalign (S (length R)) s (default 0 (last (co :: R))) = Ok s' →
  waiting s' = waiting s ∧ (load (cos s') < load (cos s))%nat.
Proof.
  induction R as [|co' R IH]; intros co A s s' HI Er; cbn [ready_loop app length] in *;
    destruct (ready_turn co _ s HI Er) as (n & Hrd & Hf & Hrun); rewrite Er, Hrd, ok_bind, Hf;
    destruct (safe_ok _ _ Hrun) as (s2 & E2 & HI2 & [A1 HA1] & _); rewrite E2, ok_bind.
  all: destruct (inv_ready _ _ HI co) as (n' & c & Hn' & Hc & Hfr); [rewrite Er; left|].
  all: destruct (resume_light co _ n' c s2 (inv_pop _ _ _ HI Er) Hn' Hc Hfr E2) as [Ew Hl]; simpl in Ew, Hl.
  - simpl (default _ _). rewrite Z.eqb_refl. by intros [= <-].
  - rewrite default_last. destruct (co =? _); [by intros [= <-]|]. intros Hgo.
    destruct (IH co' (A ++ A1) s2 s' HI2) as [Ew' Hl']; [rewrite HA1; simpl; by rewrite <-app_assoc|exact Hgo|].
    split; [congruence|lia].
Qed.

Lemma run_ends_inv : ∀ i s, inv [] s → waiting s = [] → (load (cos s) ≤ i)%nat → ∃ s', run i s = Ok s' ∧ cos s' = ∅.
Proof.
  assert (∀ s, inv [] s → waiting s = [] → nty_schedule_isdone s = false → ∃ s', round s = Ok s' ∧ waiting s' = [] ∧ inv [] s' ∧
    (load (cos s') < load (cos s))%nat) as Hstep.
  { intros s HI Hw Hd. destruct (safe_ok _ _ (round_spec s HI)) as (s' & E & HI' & _). exists s'. split; [done|].
    revert E. unfold NtyCo.round. cbn [expired_loop]. unfold nty_schedule_expired. simpl (sleeping _). rewrite (inv_sleeping _ _ HI).
    change (rb_min [] =? 0) with true. cbn iota. rewrite ok_bind. simpl (0 =? 0). cbn iota. rewrite ok_bind.
    assert (inv [] (tick s)) as HI0 by (eapply inv_same; [exact HI|done..]).
    destruct (ready s) as [|co R] eqn:Er.
    { unfold nty_schedule_isdone in Hd. by rewrite Hw, (inv_sleeping _ _ HI), Er in Hd. }
    destruct (safe_ok _ _ (ready_phase (tick s) HI0)) as (s1 & E1 & HI1 & _ & _ & _).
    change (ready (tick s)) with (ready s) in E1 |- *. rewrite Er in E1 |- *. rewrite E1, ok_bind.
    destruct (ready_loop_light R co [] (tick s) s1 HI0) as [Ew Hl]; [simpl; by rewrite app_nil_r|exact E1|]. simpl in Ew, Hl.
    destruct (epoll_phase s1 HI1) as (s2 & -> & _ & (_ & Ec & Ew2) & _ & _ & _ & xs & Hxs & _). rewrite ok_bind.
    inversion Hxs as [He|e x evs xs' [Hx _]]; [|exfalso; rewrite Ew, Hw in Hx; by apply elem_of_nil in Hx].
    intros [= <-]. split; [congruence|]. split; [done|]. by rewrite Ec. }
  induction i as [|i IH]; intros s HI Hw Hl; cbn [nty_schedule_run]; destruct (nty_schedule_isdone s) eqn:Hd;
    try (exists s; split; [done|by apply inv_empty]); destruct (Hstep s HI Hw Hd) as (s' & Hr & Hw' & HI' & Hl'); [lia|].
  rewrite Hr, ok_bind. apply IH; [done|done|lia].
Qed.

End measure.

End running.

(** ** A small client *)

(** Code that yields a number of times, waits for a descriptor, starts another coroutine, or never
    stops yielding. *)
Inductive sample : Type :=
  | Again (n : nat)
  | Spin
  | Wait (f : Z) (k : sample)
  | Serve (f : Z).

Definition sample_next (c : sample) : act sample :=
  match c with
  | Again O => Return
  | Again (S n) => Sleep 0 (Again n)
  | Spin => Sleep 0 Spin
  | Wait f k => Poll [(f, POLLIN)] 1 k
  | Serve f => Create (Wait f (Again 1)) (Again 2)
  end.

(** Two places for coroutines, and a descriptor that is always readable. *)
Definition two_cells {code : Type} (h : gmap Z (nty_coroutine code)) : Z :=
  match h !! 100 with None => 100 | Some _ => match h !! 200 with None => 200 | Some _ => 0 end end.
Definition seven_readable (_ : nat) (_ : Z) (E : gmap Z Z) : list (Z * Z) :=
  match E !! 7 with Some _ => [(7, POLLIN)] | None => [] end.

Lemma two_cells_fresh {code : Type} (h : gmap Z (nty_coroutine code)) : two_cells h ≠ 0 → h !! two_cells h = None.
Proof. unfold two_cells. destruct (h !! 100) eqn:E; [|done]. by destruct (h !! 200) eqn:E'. Qed.

Lemma seven_readable_ok i ms E : NoDup (seven_readable i ms E).*1 ∧ ∀ f, f ∈ (seven_readable i ms E).*1 → is_Some (E !! f).
Proof.
  unfold seven_readable. destruct (E !! 7) eqn:E7; simpl; (split; [repeat constructor; by intros ?%elem_of_nil|]).
  - intros f Hf. apply list_elem_of_singleton in Hf as ->. by exists z.
  - by intros f ?%elem_of_nil.
Qed.

Lemma sample_tame c : tame True (sample_next c).
Proof. destruct c as [[|n]| |f k|f]; simpl; try done. split; [done|]. split; [done|]. exists f, POLLIN. by split; [|left]. Qed.

Lemma sample_yields c : yields sample_next 2 c.
Proof. by destruct c as [[|n]| |f k|f]. Qed.

(** ** What the scheduler does *)

Section claims.
Context {code : Type} (next : code → act code) (quantum : nat).
Context (clock : nat → Z) (epoll_wait : nat → Z → gmap Z Z → list (Z * Z)).
Context (calloc : gmap Z (nty_coroutine code) → Z) (memalign : gmap Z (nty_coroutine code) → bool).
Context (calloc_fresh : ∀ h, calloc h ≠ 0 → h !! calloc h = None).
Context (yields_all : ∀ c, yields next quantum c).
Context (epoll_ok : ∀ i ms E, NoDup (epoll_wait i ms E).*1 ∧ ∀ f, f ∈ (epoll_wait i ms E).*1 → is_Some (E !! f)).

Notation round := (round next quantum clock epoll_wait calloc memalign).
Notation run := (nty_schedule_run next quantum clock epoll_wait calloc memalign).
Notation spawn := (nty_coroutine_create calloc memalign).

(** C22: One round of nty_schedule_run (nty_schedule.c), for clients that use the socket calls of nty_socket.c, which poll one
    descriptor without a timeout, sleep for no time, and yield or return after a bounded number of calls: the coroutines that were ready when the round began are
    switched to, each once and in the order of the queue; if none is ready after that, then epoll_wait is called, and
    the coroutines that wait for the descriptors it reports are switched to, from the last event to the first.  The
    queue, the tree of waiting coroutines, epoll's set and the memory agree again afterwards; the only fault
    possible is an assertion: that against two coroutines waiting for one descriptor, or one of a client's call. *)
Theorem nty_round_correct (tame_next : ∀ c, tame True (next c)) s : inv [] s →
  match round s with
  | Ok s' => inv [] s' ∧ ∃ s1 xs,
      ready_loop next quantum clock calloc memalign (length (ready s)) (tick s) (default 0 (last (ready s))) = Ok s1 ∧
      waiters s1 (reverse (events_of epoll_wait s1)) xs ∧
      resumed s' = resumed s ++ ready s ++ xs
  | Err e => e = AssertFailed
  end.
Proof.
  intros HI. pose proof (round_spec next quantum clock epoll_wait calloc memalign calloc_fresh True tame_next yields_all epoll_ok s HI) as Hr.
  destruct (round s) as [s'|e]; [|apply Hr]. destruct Hr as (HI' & s1 & xs & E & _ & Hx & Hlog & _). split; [done|]. by exists s1, xs.
Qed.

(** C23: From nty_schedule_create on, with any number of coroutines created before nty_schedule_run is called, for clients
    that wait as the socket calls of nty_socket.c do: they poll one descriptor at a time with timeout 1, sleep only for
    no time at all, and yield or return after a bounded number of calls.  No coroutine is ever
    read, resumed or freed once it has been freed, no queue or tree is damaged, and if the
    scheduler returns then every coroutine has returned from its function and been freed, the count of coroutines is zero
    and no descriptor is registered.  The only fault possible is an assertion: that against two coroutines waiting for one
    descriptor, or one of a client's call. *)
Theorem nty_run_frees_all (tame_next : ∀ c, tame True (next c)) addr fd s0 funcs i :
  nty_schedule_create clock addr fd = Some s0 →
  match run i (foldl spawn s0 funcs) with
  | Ok s' => cos s' = ∅ ∧ spawned_coroutines s' = 0 ∧ epoll s' = ∅
  | Err e => e = OutOfFuel ∨ e = AssertFailed
  end.
Proof.
  intros H0. apply create_inv in H0.
  pose proof (run_outcome_inv next quantum clock epoll_wait calloc memalign calloc_fresh True tame_next yields_all epoll_ok i
    (foldl spawn s0 funcs) (inv_spawns calloc memalign calloc_fresh funcs s0 H0)) as Hr.
  destruct (run i _); simpl in Hr; tauto.
Qed.

(** C24: Clients that only yield and start coroutines, each with a finite amount of work: nty_schedule_run returns, after at most
    as many rounds as there is work, without a fault, and every coroutine has been run to its end and freed. *)
Theorem nty_run_ends (tame_next : ∀ c, tame False (next c)) (weight : code → nat)
    (lighter : ∀ c, match next c with
      | Return | Abort => True
      | Create f k => (weight f + weight k < weight c)%nat
      | Poll _ _ k | Sleep _ k | Renice k | Detach k | Close _ k | Call k => (weight k < weight c)%nat
      end) addr fd s0 funcs i :
  nty_schedule_create clock addr fd = Some s0 →
  (load weight (cos (foldl spawn s0 funcs)) ≤ i)%nat →
  ∃ s', run i (foldl spawn s0 funcs) = Ok s' ∧ cos s' = ∅ ∧ spawned_coroutines s' = 0.
Proof.
  intros H0 Hi. pose proof (create_inv _ _ _ _ H0) as HI.
  pose proof (inv_spawns calloc memalign calloc_fresh funcs s0 HI) as HI1.
  destruct (run_ends_inv next quantum clock epoll_wait calloc memalign calloc_fresh False tame_next yields_all epoll_ok
    weight (λ F, F) lighter i (foldl spawn s0 funcs) HI1) as (s' & E & Ec); [|done|].
  { by rewrite (spawns_waiting calloc memalign funcs s0), (created_waiting _ _ _ _ H0). }
  exists s'. split; [done|]. split; [done|].
  pose proof (run_outcome_inv next quantum clock epoll_wait calloc memalign calloc_fresh False tame_next yields_all epoll_ok i _ HI1) as Hr.
  rewrite E in Hr. apply Hr.
Qed.

(** A coroutine that keeps yielding with nty_coroutine_sleep(0) starves those that wait for a descriptor: however many rounds
    pass, epoll_wait is not called once (nty_schedule_epoll returns while the ready queue has a member), and every
    waiting coroutine still waits, as it was. *)
Theorem ready_starves_waiters (tame_next : ∀ c, tame True (next c)) s x c k : inv [] s →
  x ∈ ready s → spins next s x c →
  match rounds next quantum clock epoll_wait calloc memalign k s with
  | Ok s' => waits s' = waits s ∧ ∀ y, y ∈ waiting s → y ∈ waiting s' ∧ cos s' !! y = cos s !! y
  | Err e => e = AssertFailed
  end.
Proof.
  intros HI Hx Hs.
  pose proof (starving next quantum clock epoll_wait calloc memalign calloc_fresh True tame_next yields_all epoll_ok x c k s HI Hx Hs) as Hr.
  destruct (rounds _ _ _ _ _ _ _ _) as [s'|e]; [|apply Hr]. destruct Hr as [Hw HK]. split; [done|]. intros y Hy. by apply (kp_waiting _ _ _ HK).
Qed.

End claims.

(** nty_coroutine_sleep with a time does not yield: a coroutine that calls it and returns is freed while it is in the
    tree of sleeping coroutines, and the same round reads it there. *)
Theorem sleep_then_return_dangles {code} (next : code → act code) quantum clock epoll_wait calloc memalign s co n c k msecs : inv [] s → ready s = [co] → cos s !! co = Some n → resume_at n = Run c →
  next c = Sleep msecs k → msecs ≠ 0 → next k = Return → (1 < quantum)%nat →
  round next quantum clock epoll_wait calloc memalign s = Err UseAfterFree.
Proof.
  intros HI Er Hn Hc Hnext Hm Hk Hq. unfold round. cbn [expired_loop]. unfold nty_schedule_expired. simpl (sleeping _).
  rewrite (inv_sleeping _ _ HI). change (rb_min [] =? 0) with true. cbn iota. rewrite ok_bind. simpl (0 =? 0). cbn iota. rewrite ok_bind.
  simpl (ready _). rewrite Er. cbn [ready_loop length]. simpl (ready _). rewrite Er.
  assert (co ≠ 0) as H0 by (eapply inv_nonnull; [exact HI|by exists n]).
  destruct (inv_ready _ _ HI co) as (n' & c' & Hn' & _ & Hf); [rewrite Er; left|]. rewrite Hn in Hn'. injection Hn' as <-.
  erewrite rd_co by done. rewrite ok_bind. destruct Hf as (Hf1 & Hf2 & Hf3 & ->).
  unfold nty_coroutine_resume. erewrite rd_co by done. rewrite ok_bind.
  assert (∃ st, (if has (status n) NEW then nty_coroutine_init (with_ready [] (tick s)) co else Ok (with_ready [] (tick s))) =
    Ok (with_cos (<[co := with_status st n]> (cos s)) (with_ready [] (tick s)))) as (st & ->).
  { destruct (has (status n) NEW); [exists (BIT READY); unfold nty_coroutine_init; by rewrite (wr_co _ co n)|]. exists (status n). f_equal. unfold with_cos. simpl. f_equal.
    rewrite insert_id; [done|]. rewrite Hn. by destruct n. }
  rewrite ok_bind. unfold switch. erewrite rd_co; [|done|apply lookup_insert_eq]. rewrite ok_bind. simpl (resume_at _). rewrite Hc.
  destruct quantum as [|[|q]]; [lia..|]. cbn [run_code]. rewrite Hnext, (proj2 (Z.eqb_neq _ _) Hm).
  unfold nty_schedule_sched_sleepdown. erewrite rd_co; [|done|apply lookup_insert_eq]. rewrite ok_bind. simpl (sleeping _).
  rewrite (inv_sleeping _ _ HI). cbn [rb_find]. rewrite !ok_bind.
  erewrite wr_co; [|done|apply lookup_insert_eq]. rewrite ok_bind, (proj2 (Z.eqb_neq _ _) Hm). simpl (sleeping _). rewrite (inv_sleeping _ _ HI). cbn [length sleep_loop].
  erewrite rd_co; [|done|apply lookup_insert_eq]. rewrite ok_bind. simpl (sleeping _). rewrite (inv_sleeping _ _ HI). cbn [rb_insert]. rewrite ok_bind.
  erewrite wr_co; [|done|apply lookup_insert_eq]. rewrite ok_bind. cbn [run_code]. rewrite Hk. unfold exec_end, nty_coroutine_yield.
  erewrite wr_co; [|done|apply lookup_insert_eq]. rewrite ok_bind. erewrite wr_co; [|done|apply lookup_insert_eq]. rewrite ok_bind.
  erewrite wr_co; [|done|apply lookup_insert_eq]. rewrite ok_bind. erewrite rd_co; [|done|apply lookup_insert_eq]. rewrite ok_bind.
  simpl (status _). rewrite !has_set. change (num EXITED) with 4. change (num DETACH) with 9. change (num FDEOF) with 8.
  simpl (_ =? _). rewrite !orb_true_r. simpl (_ && _). cbn iota. unfold nty_coroutine_free. rewrite (proj2 (Z.eqb_neq _ _) H0).
  erewrite rd_co; [|done|apply lookup_insert_eq]. rewrite !ok_bind. simpl (default _ _). rewrite Z.eqb_refl, ok_bind.
  unfold nty_schedule_epoll, nty_schedule_min_timeout. simpl (sleeping _). change (rb_min [co]) with co.
  rewrite (proj2 (Z.eqb_neq _ _) H0). unfold rd. rewrite (proj2 (Z.eqb_neq _ _) H0). simpl (cos _). by rewrite lookup_delete_eq.
Qed.

(** ** Sleeping *)

Section sleepdown.
Context {code : Type} (clock : nat → Z).
Implicit Types (s : nty_schedule code).
Notation key := (keyof sleep_usecs).

(** The keys in the tree, and those from [k] on. *)
Definition keys s : list Z := key s <$> sleeping s.
Definition from (k : Z) (l : list Z) : list Z := filter (λ z, k ≤ z) l.

Lemma from_next k l : k ∈ l → (length (from (k + 1) l) < length (from k l))%nat.
Proof.
  intros Hk. assert (from (k + 1) l = filter (λ z, k + 1 ≤ z) (from k l)) as ->.
  { unfold from. rewrite list_filter_filter. apply list_filter_iff. intros z. lia. }
  apply (length_filter_lt _ _ k); [by apply list_elem_of_filter|lia].
Qed.

Lemma keys_upd s co n : co ∉ sleeping s → keys (with_cos (<[co := n]> (cos s)) s) = keys s.
Proof.
  intros Hco. unfold keys. simpl. apply list_fmap_ext. intros i x Hx. apply list_elem_of_lookup_2 in Hx.
  unfold keyof. simpl. rewrite lookup_insert_ne; [done|]. by intros ->.
Qed.

(** What a search from key [k] on does. *)
Definition placed co s k s' : Prop := ∃ n' l1 l2,
  cos s' = <[co := n']> (cos s) ∧ has (status n') SLEEPING = true ∧
  k ≤ sleep_usecs n' ∧ (∀ i, k ≤ i < sleep_usecs n' → i ∈ keys s) ∧
  sleeping s = l1 ++ l2 ∧ sleeping s' = l1 ++ co :: l2 ∧ ordered sleep_usecs s' (sleeping s') ∧ times s' = times s.

Lemma sleep_loop_ok co : ∀ fuel s n, cos s !! co = Some n → co ≠ 0 → co ∉ sleeping s → live s (sleeping s) → ordered sleep_usecs s (sleeping s) →
  (length (from (sleep_usecs n) (keys s)) < fuel)%nat → 0 ≤ sleep_usecs n →
  sleep_usecs n + Z.of_nat (length (from (sleep_usecs n) (keys s))) < 2 ^ 64 →
  ∃ s', sleep_loop fuel s co = Ok s' ∧ placed co s (sleep_usecs n) s'.
Proof.
  induction fuel as [|fuel IH]; intros s n Hn H0 Hco Hl Ho Hfuel Hpos Hbnd; [lia|]. cbn [sleep_loop].
  rewrite (rd_co s co n) by done. rewrite ok_bind.
  assert (∀ n1 x, x ∈ sleeping s → key (with_cos (<[co := n1]> (cos s)) s) x = key s x) as Hkey.
  { intros n1 x Hx. unfold keyof. simpl. rewrite lookup_insert_ne; [done|]. by intros ->. }
  destruct (rb_insert_spec sleep_usecs s co (sleep_usecs n) (sleeping s) Hl Ho) as (r & -> & [(y & -> & Hy & Hk)|(l1 & l2 & -> & El & H1 & H2)]);
    rewrite ok_bind.
  - rewrite (wr_co s co n) by done. rewrite ok_bind.
    assert (sleep_usecs n ∈ keys s) as Hin by (rewrite <-Hk; by apply list_elem_of_fmap_2).
    pose proof (from_next _ _ Hin) as Hlt. set (n1 := with_sleep _ n).
    assert (sleep_usecs n1 = sleep_usecs n + 1) as Hn1 by (apply u64_small; lia).
    destruct (IH (with_cos (<[co := n1]> (cos s)) s) n1) as (s' & E & n' & l1 & l2 & Ec & Hs & Hge & Hall & El & Es & Ho' & Et);
      rewrite ?keys_upd, ?Hn1 in * by done; [apply lookup_insert_eq|done|done| | |lia|lia|lia|].
    + intros x Hx. destruct (Hl x Hx) as [? Hx']. split; [done|]. simpl. rewrite lookup_insert_ne; [done|]. by intros ->.
    + eapply ordered_ext; [|exact Ho]. intros x Hx. by apply Hkey.
    + exists s'. split; [exact E|]. exists n', l1, l2. simpl in Ec. rewrite insert_insert_eq in Ec. repeat (split; [done || lia|]).
      split; [|done]. intros i Hi. destruct (decide (i = sleep_usecs n)) as [->|]; [done|]. apply Hall. lia.
  - rewrite (wr_co _ co n) by done. eexists. split; [done|]. eexists _, l1, l2. split; [done|]. split; [simpl (status _); by rewrite has_set, orb_true_r|].
    split; [simpl; lia|]. split; [simpl; lia|]. split; [done|]. split; [done|]. split; [|done]. simpl (sleeping _).
    assert (∀ x, x ∈ l1 ++ l2 → x ∈ sleeping s) as Hsub by (by rewrite El).
    set (n1 := with_status _ n). set (s1 := with_cos _ _).
    assert (key s1 co = sleep_usecs n) as Hkc by (unfold keyof; simpl; by rewrite lookup_insert_eq).
    apply ordered_middle; [|intros x Hx|intros x Hx].
    + eapply ordered_ext; [|rewrite <-El; exact Ho]. intros x Hx. apply (Hkey n1). by apply Hsub.
    + rewrite Hkc. change (key s1 x) with (key (with_cos (<[co := n1]> (cos s)) s) x). rewrite Hkey by (apply Hsub, elem_of_app; by left). by apply H1.
    + rewrite Hkc. change (key s1 x) with (key (with_cos (<[co := n1]> (cos s)) s) x). rewrite Hkey by (apply Hsub, elem_of_app; by right). by apply H2.
Qed.

(** nty_schedule_sched_sleepdown with a time, in nty_schedule.c: whether the coroutine is in the tree of sleeping coroutines
    already or not, the loop that looks for a free key ends, and the coroutine is in the tree once, in its place,
    with the first key free from the time since [birth] and its own time on; the others keep their places. *)
Theorem sleepdown_correct s co n msecs (k := u64 (u64 (clock (times s) - birth s) + u64 (msecs * 1000))) :
  cos s !! co = Some n → co ≠ 0 → live s (sleeping s) → ordered sleep_usecs s (sleeping s) →
  (co ∈ sleeping s ∨ sleep_usecs n ∉ keys s) → msecs ≠ 0 → k + Z.of_nat (length (sleeping s)) < 2 ^ 64 →
  ∃ s', nty_schedule_sched_sleepdown clock s co msecs = Ok s' ∧
    placed co (with_sleeping (filter (λ y, y ≠ co) (sleeping s)) (tick s)) k s'.
Proof.
  intros Hn H0 Hl Ho Hin Hm Hbnd. unfold nty_schedule_sched_sleepdown. rewrite (rd_co s co n) by done. rewrite ok_bind.
  set (s1 := with_sleeping (filter (λ y, y ≠ co) (sleeping s)) s).
  assert (∃ o, rb_find sleep_usecs s (sleep_usecs n) (sleeping s) = Ok o ∧
    match o with Some co_tmp => l ← rb_remove co_tmp (sleeping s); Ok (with_sleeping l s) | None => Ok s end = Ok s1) as (o & -> & E).
  { destruct (decide (co ∈ sleeping s)) as [Hc|Hc].
    - exists (Some co). assert (key s co = sleep_usecs n) as <- by (unfold keyof; by rewrite Hn).
      split; [by apply rb_find_some|]. by rewrite rb_remove_ok, ok_bind.
    - destruct Hin as [?|Hk]; [done|]. exists None. split; [apply rb_find_none; [done|]|].
      + intros y Hy E. apply Hk. rewrite <-E. by apply list_elem_of_fmap_2.
      + unfold s1. rewrite filter_keeps_all; [by destruct s|]. intros y Hy ->. done. }
  rewrite ok_bind, E, ok_bind. rewrite (wr_co _ co n) by done. rewrite ok_bind, (proj2 (Z.eqb_neq _ _) Hm).
  set (n1 := with_sleep _ n). set (s2 := with_cos _ _).
  assert (co ∉ sleeping s1) as Hc by (intros [? _]%list_elem_of_filter; done).
  assert (sleep_usecs n1 = k) as Hk by done. assert (0 ≤ k < 2 ^ 64) as Hkr by apply u64_range.
  assert (∀ x, x ∈ sleeping s1 → x ≠ co ∧ x ∈ sleeping s) as Hsub by (by intros x Hx%list_elem_of_filter).
  assert (keys s2 = keys s1) as Hkeys by (by apply (keys_upd s1 co n1)).
  assert (length (from k (keys s1)) ≤ length (sleeping s))%nat as Hlen.
  { unfold from, keys. etransitivity; [apply length_filter|]. rewrite length_fmap. apply length_filter. }
  destruct (sleep_loop_ok co (S (length (sleeping s2))) s2 n1) as (s' & E' & n' & l1 & l2 & Ec & Hp); rewrite ?Hk, ?Hkeys.
  - apply lookup_insert_eq.
  - done.
  - done.
  - intros x Hx. destruct (Hsub x Hx) as [Hne Hx']. destruct (Hl x Hx') as [? ?]. split; [done|]. simpl. by rewrite lookup_insert_ne.
  - apply (ordered_ext _ s); [|by apply ordered_filter]. intros x Hx. destruct (Hsub x Hx) as [Hne _].
    unfold keyof. simpl. by rewrite lookup_insert_ne.
  - unfold from, keys. eapply Nat.le_lt_trans; [apply length_filter|]. rewrite length_fmap. apply Nat.lt_succ_diag_r.
  - lia.
  - lia.
  - exists s'. split; [exact E'|]. rewrite Hk, Hkeys in Hp. exists n', l1, l2. split; [|exact Hp]. rewrite Ec. simpl. by rewrite insert_insert_eq.
Qed.

End sleepdown.

(** The wait of a coroutine ends without its sleep: nty_schedule_desched_wait clears the whole status before
    nty_schedule_desched_sleepdown looks at it. *)
Lemma desched_wait_keeps_sleeping {code} (s s' : nty_schedule code) f :
  nty_schedule_desched_wait s f = Ok s' → sleeping s' = sleeping s.
Proof.
  unfold nty_schedule_desched_wait. destruct (rb_find fd s f (waiting s)) as [[co|]|]; rewrite ?ok_bind; try done.
  destruct (rb_remove co (waiting s)) as [l|]; [|done]. rewrite ok_bind. unfold wr. destruct (rd _ co) as [n|] eqn:Hr; [|done]. rewrite !ok_bind.
  unfold nty_schedule_desched_sleepdown, rd in *. destruct (co =? 0); [done|]. simpl (cos _). rewrite lookup_insert_eq. simpl.
  by intros [= <-].
Qed.

(** A second coroutine that waits for the same descriptor is stopped by the assertion. *)
Lemma second_waiter_asserts {code} (clock : nat → Z) (s : nty_schedule code) x co n f ev : inv [co] s → x ∈ waiting s → keyof fd s x = f →
  cos s !! co = Some n → fresh (status n) → (Z.land ev POLLIN ≠ 0 ∨ Z.land ev POLLOUT ≠ 0) →
  nty_schedule_sched_wait clock s co f ev 1 = Err AssertFailed.
Proof.
  intros HI Hx Hk Hn Hf Hev. assert (co ≠ 0) as H0 by (eapply inv_nonnull; [exact HI|by exists n]).
  destruct (sched_wait_ok clock s co n f ev H0 Hn Hf Hev) as (st & _ & ->). set (n' := with_events ev _).
  assert (inv [co] (with_cos (<[co := n']> (cos s)) s)) as HI' by (by eapply inv_upd; [exact HI|left|]).
  destruct (rb_insert_spec fd _ co f (waiting s) (inv_live _ _ HI') (inv_order _ _ HI')) as (r & -> & [(y & -> & _)|(l1 & l2 & -> & El & H1 & H2)]);
    rewrite ok_bind; [done|]. exfalso.
  assert (x ≠ co) as Hne by (intros ->; by destruct (inv_X _ _ co HI ltac:(left))).
  assert (keyof fd (with_cos (<[co := n']> (cos s)) s) x = f) as Hk' by (rewrite <-Hk; unfold keyof; simpl; by rewrite lookup_insert_ne).
  rewrite El in Hx. apply elem_of_app in Hx as [Hx|Hx]; [specialize (H1 x Hx)|specialize (H2 x Hx)]; lia.
Qed.

(** ** Witnesses *)

(** The scheduler of the samples, with some coroutines created. *)
Definition new_sched {code} : nty_schedule code := Sched ∅ [] [] [] 0 0 0 3000000 ∅ 1 0 [].
Definition start (funcs : list sample) : nty_schedule sample :=
  foldl (nty_coroutine_create two_cells (λ _, true)) new_sched funcs.
Notation sample_round := (round sample_next 2 Z.of_nat seven_readable two_cells (λ _, true)).
Notation sample_run := (nty_schedule_run sample_next 2 Z.of_nat seven_readable two_cells (λ _, true)).

Lemma start_inv funcs : inv [] (start funcs).
Proof.
  apply (inv_spawns two_cells (λ _, true) two_cells_fresh).
  by apply (create_inv Z.of_nat 1 3).
Qed.

Lemma nty_round_correct_witness :
  resumed <$> (match sample_round (start [Wait 7 (Again 1)]) with Ok s' => Some s' | Err _ => None end) = Some [100; 100] ∧
  match sample_round (start [Wait 7 (Again 1)]) with
  | Ok s' => inv [] s' ∧ ∃ s1 xs,
      ready_loop sample_next 2 Z.of_nat two_cells (λ _, true) 1 (tick (start [Wait 7 (Again 1)])) 100 = Ok s1 ∧
      waiters s1 (reverse (events_of seven_readable s1)) xs ∧ resumed s' = [100] ++ xs
  | Err e => e = AssertFailed
  end.
Proof.
  split; [vm_compute; reflexivity|].
  exact (nty_round_correct sample_next 2 Z.of_nat seven_readable two_cells (λ _, true) two_cells_fresh sample_yields
    seven_readable_ok sample_tame (start [Wait 7 (Again 1)]) (start_inv _)).
Defined.

Lemma nty_run_frees_all_witness :
  spawned_coroutines <$> (match sample_run 4 (start [Serve 7]) with Ok s' => Some s' | Err _ => None end) = Some 0 ∧
  match sample_run 4 (start [Serve 7]) with
  | Ok s' => cos s' = ∅ ∧ spawned_coroutines s' = 0 ∧ epoll s' = ∅
  | Err e => e = OutOfFuel ∨ e = AssertFailed
  end.
Proof.
  split; [vm_compute; reflexivity|].
  exact (nty_run_frees_all sample_next 2 Z.of_nat seven_readable two_cells (λ _, true) two_cells_fresh sample_yields
    seven_readable_ok sample_tame 4096 3 new_sched [Serve 7] 4 eq_refl).
Defined.

(** Code that yields a number of times, or starts other such code first. *)
Definition count_next (c : nat) : act nat :=
  match c with
  | O => Return
  | 5%nat => Create 1%nat 2%nat
  | S n => Sleep 0 n
  end.

Lemma nty_run_ends_witness : ∃ s',
  nty_schedule_run count_next 2 Z.of_nat seven_readable two_cells (λ _, true) 9
    (foldl (nty_coroutine_create two_cells (λ _, true)) new_sched [5%nat; 2%nat]) = Ok s' ∧ cos s' = ∅ ∧ spawned_coroutines s' = 0.
Proof.
  apply (nty_run_ends count_next 2 Z.of_nat seven_readable two_cells (λ _, true) two_cells_fresh) with (weight := λ n, n) (addr := 4096) (fd := 3).
  - intros c. do 6 (destruct c as [|c]; [exact I|]). exact I.
  - exact seven_readable_ok.
  - intros c. do 6 (destruct c as [|c]; [done|]). done.
  - intros c. do 6 (destruct c as [|c]; [simpl; lia|]). simpl; lia.
  - reflexivity.
  - vm_compute. lia.
Defined.

(** After one round, one coroutine spins and the other waits. *)
Definition spinning : nty_schedule sample :=
  match sample_round (start [Wait 7 (Again 1); Spin]) with Ok s => s | Err _ => new_sched end.

Lemma ready_starves_waiters_witness :
  (ready spinning = [200] ∧ waiting spinning = [100] ∧ waits spinning = 0%nat) ∧
  match rounds sample_next 2 Z.of_nat seven_readable two_cells (λ _, true) 10 spinning with
  | Ok s' => waits s' = waits spinning ∧ ∀ y, y ∈ waiting spinning → y ∈ waiting s' ∧ cos s' !! y = cos spinning !! y
  | Err e => e = AssertFailed
  end.
Proof.
  split; [vm_compute; done|].
  apply (ready_starves_waiters sample_next 2 Z.of_nat seven_readable two_cells (λ _, true) two_cells_fresh sample_yields
    seven_readable_ok sample_tame spinning 200 Spin 10).
  - pose proof (round_spec sample_next 2 Z.of_nat seven_readable two_cells (λ _, true) two_cells_fresh True sample_tame sample_yields
      seven_readable_ok _ (start_inv [Wait 7 (Again 1); Spin])) as H. unfold spinning.
    destruct (sample_round (start [Wait 7 (Again 1); Spin])) as [s|e] eqn:E; [apply H|]. by vm_compute in E.
  - vm_compute. left.
  - split; [reflexivity|]. eexists. split; vm_compute; reflexivity.
Defined.

(** One coroutine in the queue, that sleeps for 10 ms and returns. *)
Definition sleeper_next (c : bool) : act bool := if c then Sleep 10 false else Return.

Lemma sleep_then_return_dangles_witness :
  round sleeper_next 2 Z.of_nat seven_readable two_cells (λ _, true)
    (nty_coroutine_create two_cells (λ _, true) new_sched true) = Err UseAfterFree.
Proof.
  apply (sleep_then_return_dangles sleeper_next 2 Z.of_nat seven_readable two_cells (λ _, true) _ 100
    (Co (Run true) (BIT NEW) 0 (-1) 0 0 0) true false 10); try done; [|lia].
  apply (inv_create two_cells (λ _, true) two_cells_fresh). by apply (create_inv Z.of_nat 1 3).
Defined.

(** Two coroutines sleep for one millisecond and take the keys 1000 and 1001 apart; a third takes 1002. *)
Definition sleeping_sched : nty_schedule sample :=
  Sched {[ 100 := Co (Run Spin) (BIT READY) 0 (-1) 0 0 1007; 200 := Co (Run Spin) (BIT READY) 1 (-1) 0 0 1008;
           300 := Co (Run Spin) (BIT READY) 2 (-1) 0 0 0 ]} [] [100; 200] [] 3 300 0 3000000 ∅ 7 0 [].

Lemma sleepdown_correct_witness : ∃ s', nty_schedule_sched_sleepdown Z.of_nat sleeping_sched 300 1 = Ok s' ∧
  placed 300 (with_sleeping [100; 200] (tick sleeping_sched)) 1007 s'.
Proof.
  apply (sleepdown_correct Z.of_nat sleeping_sched 300 (Co (Run Spin) (BIT READY) 2 (-1) 0 0 0) 1); try (vm_compute; done).
  - intros x Hx. simpl in Hx. apply elem_of_cons in Hx as [->|Hx]; [|apply list_elem_of_singleton in Hx as ->];
      (split; [done|]; eexists; vm_compute; reflexivity).
  - repeat constructor; by vm_compute.
  - right. change (0 ∉ [1007; 1008]). intros Hx. apply elem_of_cons in Hx as [Hx|Hx%list_elem_of_singleton]; done.
Defined.

End NtyCo.
