(* ===== verification/NtySocket.v ===== *)
(** * The socket calls of 5.2coroutine_impl/NtyCo/NtyCo/core/nty_socket.c

    Every call is a loop of polls and system calls.  A coroutine that uses them stands at a point of one of them or in
    its own code; [next_socket] says which call of the scheduler comes next, so that the scheduler of NtyCo runs
    these coroutines, and what its theorems ask of a client is proved here once for all clients of the socket
    calls. *)

From S2P Require Import Prelude NtyCo.
Import NtyCo.

Module NtySocket.

(** ** Data *)

Inductive errno : Type := EAGAIN | EINPROGRESS | ECONNRESET | ECONNABORTED | EMFILE | EOTHER.
#[export] Instance errno_eq_dec : EqDecision errno.
Proof. solve_decision. Defined.

(** The answer of the kernel to a system call: its result, errno and the bytes received. *)
Record answer : Type := Answer { ret : Z; err : errno; bytes : list Z }.

(** What a client does next. *)
Inductive call (code : Type) : Type :=
  | CReturn
  | CSocket (k : Z → code)
  | CAccept (fd : Z) (k : Z → code)
  | CConnect (fd : Z) (k : Z → code)
  | CRecv (fd : Z) (k : Z → list Z → code)
  | CSend (fd : Z) (buf : list Z) (k : Z → code)
  | CSendto (fd : Z) (buf : list Z) (k : Z → code)
  | CRecvfrom (fd : Z) (k : Z → list Z → code)
  | CClose (fd : Z) (k : code)
  | CCreate (func k : code)
  | CYield (k : code).
Arguments CReturn {code}.
Arguments CSocket {code} _.
Arguments CAccept {code} _ _.
Arguments CConnect {code} _ _.
Arguments CRecv {code} _ _.
Arguments CSend {code} _ _ _.
Arguments CSendto {code} _ _ _.
Arguments CRecvfrom {code} _ _.
Arguments CClose {code} _ _.
Arguments CCreate {code} _ _.
Arguments CYield {code} _.

(** Where a coroutine stands: in its own code, or in a call behind [nty_poll_inner], in front of its system call. *)
Inductive point (code : Type) : Type :=
  | Client (c : code)
  | Accepting (fd : Z) (k : Z → code)
  | Connecting (fd : Z) (k : Z → code)
  | Receiving (fd : Z) (k : Z → list Z → code)
  | Sending (fd : Z) (buf : list Z) (sent : Z) (k : Z → code)
  | SendingTo (fd : Z) (buf : list Z) (sent : Z) (k : Z → code)
  | ReceivingFrom (fd : Z) (k : Z → list Z → code).
Arguments Client {code} _.
Arguments Accepting {code} _ _.
Arguments Connecting {code} _ _.
Arguments Receiving {code} _ _.
Arguments Sending {code} _ _ _ _.
Arguments SendingTo {code} _ _ _ _.
Arguments ReceivingFrom {code} _ _.

(** A coroutine: its point, the answers the kernel will give it, how many it has had, and the bytes it has sent, a
    chunk for each call of send. *)
Record coroutine (code : Type) : Type := Coroutine {
  at_ : point code;
  kernel : nat → answer;
  used : nat;
  outgoing : list (Z * list Z)
}.
Arguments Coroutine {code} _ _ _ _.
Arguments at_ {code} _.
Arguments kernel {code} _.
Arguments used {code} _.
Arguments outgoing {code} _.

Section calls.
Context {code : Type} (client : code → call code).
Implicit Types (w : coroutine code).

Definition goto (p : point code) w : coroutine code := Coroutine p (kernel w) (used w) (outgoing w).
Definition answered (p : point code) w : coroutine code := Coroutine p (kernel w) (S (used w)) (outgoing w).
Definition wrote (fd : Z) (b : list Z) w : coroutine code := Coroutine (at_ w) (kernel w) (used w) (outgoing w ++ [(fd, b)]).
Definition now w : answer := kernel w (used w).

(** Half of the answers to come are those of a new coroutine. *)
Definition child (c : code) w : coroutine code := Coroutine (Client c) (λ n, kernel w (used w + 2 * n)%nat) 0 [].
Definition parent (c : code) w : coroutine code := Coroutine (Client c) (λ n, kernel w (used w + 2 * n + 1)%nat) 0 (outgoing w).

Definition POLL_IN : Z := Z.lor POLLIN (Z.lor POLLERR POLLHUP).
Definition POLL_OUT : Z := Z.lor POLLOUT (Z.lor POLLERR POLLHUP).

(** Waiting for a descriptor, with timeout 1, and going on at [p]. *)
Definition wait (fd ev : Z) (p : point code) w : act (coroutine code) := Poll [(fd, ev)] 1 (goto p w).

(** ** The calls *)

(* src: 5.2coroutine_impl/NtyCo/NtyCo/core/nty_socket.c:120-136 nty_socket *)
Definition nty_socket (k : Z → code) w : act (coroutine code) :=
  let fd := ret (now w) in
  let w := answered (at_ w) w in
  if fd =? -1 then Call (goto (Client (k (-1))) w)
  else
    let r := ret (now w) in
    let w := answered (at_ w) w in
    if r =? -1 then Close r (goto (Client (k (-1))) w)
    else Call (goto (Client (k fd)) w).

(** Behind the poll; [fcntl] is a second system call. *)
(* src: 5.2coroutine_impl/NtyCo/NtyCo/core/nty_socket.c:141-177 nty_accept *)
Definition nty_accept (fd : Z) (k : Z → code) w : act (coroutine code) :=
  let a := now w in
  let sockfd := ret a in
  let w := answered (at_ w) w in
  if sockfd <? 0 then
    if decide (err a = EAGAIN) then wait fd POLL_IN (Accepting fd k) w
    else Call (goto (Client (k (-1))) w)
  else
    let r := ret (now w) in
    let w := answered (at_ w) w in
    if r =? -1 then Close sockfd (goto (Client (k (-1))) w)
    else Call (goto (Client (k sockfd)) w).

(* src: 5.2coroutine_impl/NtyCo/NtyCo/core/nty_socket.c:180-204 nty_connect *)
Definition nty_connect (fd : Z) (k : Z → code) w : act (coroutine code) :=
  let a := now w in
  let w := answered (at_ w) w in
  if ret a =? 0 then Call (goto (Client (k (ret a))) w)
  else if (ret a =? -1) && bool_decide (err a = EAGAIN ∨ err a = EINPROGRESS) then wait fd POLL_OUT (Connecting fd k) w
  else Call (goto (Client (k (ret a))) w).

(* src: 5.2coroutine_impl/NtyCo/NtyCo/core/nty_socket.c:209-225 nty_recv *)
Definition nty_recv (fd : Z) (k : Z → list Z → code) w : act (coroutine code) :=
  let a := now w in
  let w := answered (at_ w) w in
  if ret a <? 0 then
    if decide (err a = ECONNRESET) then Call (goto (Client (k (-1) [])) w) else Call (goto (Client (k (ret a) [])) w)
  else Call (goto (Client (k (ret a) (bytes a))) w).

(** What send answers when it is given [buf] from [sent] on, in the [int] that it is kept in: the kernel's answer, never
    more than it was given and never less than -1. *)
Definition accepted (buf : list Z) (sent : Z) (r : Z) : Z := i32 (Z.max (-1) (Z.min r (Z.of_nat (length buf) - sent))).
Definition chunk (buf : list Z) (sent r : Z) : list Z := take (Z.to_nat r) (drop (Z.to_nat sent) buf).

(** Behind the loop. *)
(* src: 5.2coroutine_impl/NtyCo/NtyCo/core/nty_socket.c:250-252 nty_send *)
Definition send_end (r sent : Z) : Z := if (r <=? 0) && (sent =? 0) then r else sent.

(** One test of the loop, which compares the [int] with a [size_t]: all is sent, or the next round waits. *)
(* src: 5.2coroutine_impl/NtyCo/NtyCo/core/nty_socket.c:236-241 nty_send *)
Definition send_loop (fd : Z) (buf : list Z) (r sent : Z) (k : Z → code) w : act (coroutine code) :=
  if u64 sent <? Z.of_nat (length buf) then wait fd POLL_OUT (Sending fd buf sent k) w
  else Call (goto (Client (k (send_end r sent))) w).

(** The first call of send, in front of the loop. *)
(* src: 5.2coroutine_impl/NtyCo/NtyCo/core/nty_socket.c:228-253 nty_send *)
Definition nty_send (fd : Z) (buf : list Z) (k : Z → code) w : act (coroutine code) :=
  let r := accepted buf 0 (ret (now w)) in
  let w := answered (at_ w) w in
  if r =? 0 then Call (goto (Client (k r)) w)
  else if 0 <? r then send_loop fd buf r r k (wrote fd (chunk buf 0 r) w)
  else send_loop fd buf r 0 k w.

(** A round of the loop, behind the poll. *)
(* src: 5.2coroutine_impl/NtyCo/NtyCo/core/nty_socket.c:242-248 nty_send *)
Definition send_again (fd : Z) (buf : list Z) (sent : Z) (k : Z → code) w : act (coroutine code) :=
  let r := accepted buf sent (ret (now w)) in
  let w := answered (at_ w) w in
  if r <=? 0 then Call (goto (Client (k (send_end r sent))) w)
  else send_loop fd buf r (i32 (sent + r)) k (wrote fd (chunk buf sent r) w).

(* src: 5.2coroutine_impl/NtyCo/NtyCo/core/nty_socket.c:256-281 nty_sendto *)
Definition nty_sendto (fd : Z) (buf : list Z) (sent : Z) (k : Z → code) w : act (coroutine code) :=
  if u64 sent <? Z.of_nat (length buf) then wait fd POLL_OUT (SendingTo fd buf sent k) w
  else Call (goto (Client (k sent)) w).

(** A round of its loop, behind the poll. *)
(* src: 5.2coroutine_impl/NtyCo/NtyCo/core/nty_socket.c:268-277 nty_sendto *)
Definition sendto_again (fd : Z) (buf : list Z) (sent : Z) (k : Z → code) w : act (coroutine code) :=
  let a := now w in
  let r := accepted buf sent (ret a) in
  let w := answered (at_ w) w in
  if r <=? 0 then
    if decide (err a = EAGAIN) then wait fd POLL_OUT (SendingTo fd buf sent k) w
    else if decide (err a = ECONNRESET) then Call (goto (Client (k r)) w)
    else Abort
  else nty_sendto fd buf (i32 (sent + r)) k (wrote fd (chunk buf sent r) w).

(* src: 5.2coroutine_impl/NtyCo/NtyCo/core/nty_socket.c:283-302 nty_recvfrom *)
Definition nty_recvfrom (fd : Z) (k : Z → list Z → code) w : act (coroutine code) :=
  let a := now w in
  let w := answered (at_ w) w in
  if ret a <? 0 then
    if decide (err a = EAGAIN) then Call (goto (Client (k (ret a) [])) w)
    else if decide (err a = ECONNRESET) then Call (goto (Client (k 0 [])) w)
    else Abort
  else Call (goto (Client (k (ret a) (bytes a))) w).

(** What comes next; most calls begin with the poll. *)
Definition next_socket (w : coroutine code) : act (coroutine code) :=
  match at_ w with
  | Client c =>
      match client c with
      | CReturn => Return
      | CSocket k => nty_socket k w
      | CAccept fd k => wait fd POLL_IN (Accepting fd k) w
      | CConnect fd k => wait fd POLL_OUT (Connecting fd k) w
      | CRecv fd k => wait fd POLL_IN (Receiving fd k) w
      | CSend fd buf k => nty_send fd buf k w
      | CSendto fd buf k => nty_sendto fd buf 0 k w
      | CRecvfrom fd k => wait fd POLL_IN (ReceivingFrom fd k) w
      | CClose fd k => Close fd (goto (Client k) w)
      | CCreate func k => Create (child func w) (parent k w)
      | CYield k => Sleep 0 (goto (Client k) w)
      end
  | Accepting fd k => nty_accept fd k w
  | Connecting fd k => nty_connect fd k w
  | Receiving fd k => nty_recv fd k w
  | Sending fd buf sent k => send_again fd buf sent k w
  | SendingTo fd buf sent k => sendto_again fd buf sent k w
  | ReceivingFrom fd k => nty_recvfrom fd k w
  end.

(** Every condition of the code in the goal. *)
Ltac cases := repeat match goal with |- context [if ?b then _ else _] => destruct b end.

(** ** Clients of the calls are clients of the scheduler *)

Lemma socket_tame w : tame True (next_socket w).
Proof.
  assert (∀ fd ev p w, Z.land ev POLLIN ≠ 0 ∨ Z.land ev POLLOUT ≠ 0 → tame True (wait fd ev p w)) as Hwait.
  { intros fd ev p w' Hev. split; [done|]. split; [done|]. by exists fd, ev. }
  assert (Z.land POLL_IN POLLIN ≠ 0 ∨ Z.land POLL_IN POLLOUT ≠ 0) as Hin by by left.
  assert (Z.land POLL_OUT POLLIN ≠ 0 ∨ Z.land POLL_OUT POLLOUT ≠ 0) as Hout by by right.
  unfold next_socket, nty_socket, nty_accept, nty_connect, nty_recv, nty_send, send_again, send_loop, sendto_again, nty_sendto, nty_recvfrom.
  destruct (at_ w) as [c|fd k|fd k|fd k|fd buf sent k|fd buf sent k|fd k]; [destruct (client c)|..]; cases; try done; by apply Hwait.
Qed.

(** The client yields, waits or returns after fewer than [k] of its calls, whatever they answer. *)
Fixpoint client_yields (k : nat) (c : code) : Prop :=
  match k with
  | O => False
  | S k =>
      match client c with
      | CReturn | CAccept _ _ | CConnect _ _ | CRecv _ _ | CRecvfrom _ _ | CYield _ => True
      | CSocket f | CSend _ _ f | CSendto _ _ f => ∀ r, client_yields k (f r)
      | CClose _ c | CCreate _ c => client_yields k c
      end
  end.

Lemma socket_yields q : (∀ c, client_yields q c) → ∀ w, yields next_socket (S q) w.
Proof.
  intros Hq. assert (∀ k w c, at_ w = Client c → client_yields k c → yields next_socket k w) as Hclient.
  { induction k as [|k IH]; intros w c Ew Hc; [done|]. cbn [yields client_yields] in *. unfold next_socket. rewrite Ew.
    destruct (client c) as [|f|fd f|fd f|fd f|fd buf f|fd buf f|fd f|fd c'|func c'|c']; try done; try by eapply IH.
    - unfold nty_socket. cases; (eapply IH; [done|apply Hc]).
    - unfold nty_send, send_loop. cases; try done; (eapply IH; [done|apply Hc]).
    - unfold nty_sendto. cases; [done|]. eapply IH; [done|apply Hc]. }
  intros w. destruct (at_ w) as [c|fd k|fd k|fd k|fd buf sent k|fd buf sent k|fd k] eqn:Ew.
  - apply (Hclient (S q) w c Ew). specialize (Hq c). clear -Hq. revert c Hq. generalize q. intros m.
    induction m as [|m IH]; intros c Hc; [done|]. cbn [client_yields] in *. destruct (client c); try done; try (intros r; exact (IH _ (Hc r))); exact (IH _ Hc).
  - cbn [yields]. unfold next_socket, nty_accept. rewrite Ew. cases; try done; (eapply Hclient; [done|apply Hq]).
  - cbn [yields]. unfold next_socket, nty_connect. rewrite Ew. cases; try done; (eapply Hclient; [done|apply Hq]).
  - cbn [yields]. unfold next_socket, nty_recv. rewrite Ew. cases; try done; (eapply Hclient; [done|apply Hq]).
  - cbn [yields]. unfold next_socket, send_again, send_loop. rewrite Ew. cases; try done; (eapply Hclient; [done|apply Hq]).
  - cbn [yields]. unfold next_socket, sendto_again, nty_sendto. rewrite Ew. cases; try done; (eapply Hclient; [done|apply Hq]).
  - cbn [yields]. unfold next_socket, nty_recvfrom. rewrite Ew. cases; try done; (eapply Hclient; [done|apply Hq]).
Qed.

(** ** Sending *)

(** The code goes on as if every wait ended: whether and when nty_poll_inner comes back is the matter of the scheduler
    and of the kernel. *)
Definition resumed_as (a : act (coroutine code)) : option (coroutine code) :=
  match a with Poll _ _ w | Call w | Close _ w => Some w | _ => None end.
Fixpoint drive (n : nat) w : option (coroutine code) :=
  match n with O => Some w | S n => w ← resumed_as (next_socket w); drive n w end.

Lemma drive_call w w' w'' n : next_socket w = Call w' ∨ (∃ fds t, next_socket w = Poll fds t w') → drive n w' = Some w'' → drive (S n) w = Some w''.
Proof. intros [E|(fds & t & E)] H; cbn [drive]; by rewrite E. Qed.

(** What a call of send has come to: [sent] bytes of the buffer are out, in order, from [from] on. *)
Definition sends (fd : Z) (buf : list Z) (k : Z → code) (from : Z) w w' : Prop :=
  ∃ r sent chunks, at_ w' = Client (k r) ∧ outgoing w' = outgoing w ++ ((λ b, (fd, b)) <$> chunks) ∧
    concat chunks = take (Z.to_nat (sent - from)) (drop (Z.to_nat from) buf) ∧
    from ≤ sent ≤ Z.of_nat (length buf) ∧ (if sent =? 0 then r ≤ 0 else r = sent) ∧
    ((∀ i, 0 < ret (kernel w i)) → sent = Z.of_nat (length buf)).

(** For a buffer whose length is an [int] nothing wraps. *)
Lemma accepted_small buf sent r : 0 ≤ sent ≤ Z.of_nat (length buf) → Z.of_nat (length buf) < 2 ^ 31 →
  accepted buf sent r = Z.max (-1) (Z.min r (Z.of_nat (length buf) - sent)).
Proof. intros. unfold accepted. apply i32_small. lia. Qed.

(** A chunk in front. *)
Lemma sends_chunk fd buf k from r w w1 w' : 0 ≤ from → 0 < r ≤ Z.of_nat (length buf) - from → kernel w1 = kernel w →
  outgoing w1 = outgoing w ++ [(fd, chunk buf from r)] → sends fd buf k (from + r) w1 w' → sends fd buf k from w w'.
Proof.
  intros H0 Hr Ek Eo (r' & sent & chunks & Hat & Ho & Hc & Hle & Hr' & Hall). exists r', sent, (chunk buf from r :: chunks).
  split; [done|]. split; [rewrite Ho, Eo; by rewrite <-app_assoc|]. split; [|split; [lia|split; [done|by rewrite <-Ek]]].
  simpl. rewrite Hc. unfold chunk. rewrite Z2Nat.inj_add, <-drop_drop by lia.
  rewrite take_take_drop. f_equal. lia.
Qed.

(** The end of the loop, or of the call. *)
Lemma sends_end fd buf k from r w w' : 0 ≤ from ≤ Z.of_nat (length buf) → at_ w' = Client (k r) → outgoing w' = outgoing w →
  (if from =? 0 then r ≤ 0 else r = from) → ((∀ i, 0 < ret (kernel w i)) → from = Z.of_nat (length buf)) → sends fd buf k from w w'.
Proof.
  intros H0 Hat Ho Hr Hall. exists r, from, []. split; [done|]. split; [by rewrite app_nil_r|]. split; [by rewrite Z.sub_diag|].
  split; [lia|done].
Qed.

Lemma sending_ends fd buf k : Z.of_nat (length buf) < 2 ^ 31 → ∀ m w from, (length buf - Z.to_nat from ≤ m)%nat → 0 ≤ from < Z.of_nat (length buf) → at_ w = Sending fd buf from k →
  ∃ n w', (n ≤ 2 * m)%nat ∧ drive n w = Some w' ∧ sends fd buf k from w w'.
Proof.
  intros Hsm. induction m as [|m IH]; intros w from Hm Hfrom Ew; [lia|].
  assert (next_socket w = send_again fd buf from k w) as E by (unfold next_socket; by rewrite Ew).
  unfold send_again in E. rewrite accepted_small in E by lia. set (r := Z.max (-1) (Z.min (ret (now w)) (Z.of_nat (length buf) - from))) in *.
  assert (-1 ≤ r ≤ Z.of_nat (length buf) - from) as Hr by (unfold r; lia).
  rewrite (i32_small (from + r)) in E by lia. destruct (Z.leb_spec r 0) as [Hneg|Hpos].
  - eexists 1%nat, _. split; [lia|]. split; [by eapply drive_call; [left; exact E|done]|]. apply sends_end with (r := send_end r from); [lia|done|done| |].
    + unfold send_end. rewrite (proj2 (Z.leb_le _ _) Hneg). simpl. by destruct (from =? 0).
    + intros Hall. specialize (Hall (used w)). unfold r, now in Hneg. lia.
  - unfold send_loop in E. rewrite u64_small in E by lia. destruct (Z.ltb_spec (from + r) (Z.of_nat (length buf))) as [Hlt|Hge].
    + destruct (IH (goto (Sending fd buf (from + r) k) (wrote fd (chunk buf from r) (answered (at_ w) w))) (from + r) ltac:(lia) ltac:(lia) eq_refl) as (n & w' & Hn & Hd & Hs).
      exists (S n), w'. split; [|split; [eapply drive_call; [right; eexists _, _; exact E|exact Hd]|]]; [lia|].
      eapply sends_chunk; [lia| | | |exact Hs]; [lia|done|done].
    + eexists 1%nat, _. split; [lia|]. split; [by eapply drive_call; [left; exact E|done]|].
      eapply (sends_chunk fd buf k from r w (wrote fd (chunk buf from r) (answered (at_ w) w))); [lia|lia|done|done|].
      apply sends_end with (r := send_end r (from + r)); [lia|done|done| |intros _; lia].
      unfold send_end. rewrite (proj2 (Z.leb_gt _ _)) by lia. simpl. by rewrite (proj2 (Z.eqb_neq _ _)) by lia.
Qed.

(** C25: nty_send of fewer than [2 ^ 31] bytes (its counts are int), whatever the kernel answers, provided that each
    of its waits for the descriptor in nty_poll_inner comes back: it returns after at most two steps for every byte, what has gone out is a
    prefix of the buffer, in order and without a gap, and the result is its length, or, if nothing has gone out, not
    positive.  When the kernel always takes something, everything goes out. *)
Theorem nty_send_correct w c fd buf k : at_ w = Client c → client c = CSend fd buf k → Z.of_nat (length buf) < 2 ^ 31 →
  ∃ n w', (n ≤ 2 * length buf + 1)%nat ∧ drive n w = Some w' ∧
    ∃ r sent chunks, at_ w' = Client (k r) ∧ outgoing w' = outgoing w ++ ((λ b, (fd, b)) <$> chunks) ∧
      concat chunks = take (Z.to_nat sent) buf ∧ 0 ≤ sent ≤ Z.of_nat (length buf) ∧
      (if sent =? 0 then r ≤ 0 else r = sent) ∧ ((∀ i, 0 < ret (kernel w i)) → sent = Z.of_nat (length buf)).
Proof.
  intros Ew Ec Hsm. assert (next_socket w = nty_send fd buf k w) as E by (unfold next_socket; by rewrite Ew, Ec).
  assert (∃ n w', (n ≤ 2 * length buf + 1)%nat ∧ drive n w = Some w' ∧ sends fd buf k 0 w w') as (n & w' & Hn & Hd & Hs).
  - unfold nty_send in E. rewrite accepted_small in E by lia. rewrite Z.sub_0_r in E.
    set (r := Z.max (-1) (Z.min (ret (now w)) (Z.of_nat (length buf)))) in *.
    assert (-1 ≤ r ≤ Z.of_nat (length buf)) as Hr by (unfold r; lia).
    assert ((∀ i, 0 < ret (kernel w i)) → r ≤ 0 → length buf = 0%nat) as Hpos.
    { intros Hall Hle. specialize (Hall (used w)). unfold r, now in Hle. lia. }
    destruct (Z.eqb_spec r 0) as [E0|Hne].
    + eexists 1%nat, _. split; [lia|]. split; [by eapply drive_call; [left; exact E|done]|]. apply sends_end with (r := r); [lia|done|done|simpl; lia|].
      intros Hall. rewrite Hpos; [done|done|lia].
    + destruct (Z.ltb_spec 0 r) as [Hgt|Hle]; unfold send_loop in E; rewrite u64_small in E by lia.
      * destruct (Z.ltb_spec r (Z.of_nat (length buf))) as [Hlt|Hge].
        -- destruct (sending_ends fd buf k Hsm (length buf - 1) (goto (Sending fd buf r k) (wrote fd (chunk buf 0 r) (answered (at_ w) w))) r)
             as (n & w' & Hn & Hd & Hs); [lia|lia|done|]. exists (S n), w'. split; [lia|].
           split; [eapply drive_call; [right; eexists _, _; exact E|exact Hd]|]. eapply (sends_chunk fd buf k 0 r w); [lia| | | |exact Hs]; [lia|done|done].
        -- eexists 1%nat, _. split; [lia|]. split; [by eapply drive_call; [left; exact E|done]|].
           eapply (sends_chunk fd buf k 0 r w (wrote fd (chunk buf 0 r) (answered (at_ w) w))); [lia|lia|done|done|].
           apply sends_end with (r := send_end r r); [lia|done|done| |intros _; lia].
           unfold send_end. rewrite (proj2 (Z.leb_gt _ _)) by lia. simpl. by rewrite (proj2 (Z.eqb_neq _ _)) by lia.
      * destruct (Z.ltb_spec 0 (Z.of_nat (length buf))) as [Hlt|Hge].
        -- destruct (sending_ends fd buf k Hsm (length buf) (goto (Sending fd buf 0 k) (answered (at_ w) w)) 0) as (n & w' & Hn & Hd & Hs); [lia|lia|done|].
           exists (S n), w'. split; [lia|]. split; [eapply drive_call; [right; eexists _, _; exact E|exact Hd]|exact Hs].
        -- eexists 1%nat, _. split; [lia|]. split; [by eapply drive_call; [left; exact E|done]|].
           apply sends_end with (r := send_end r 0); [lia|done|done| |intros _; lia]. unfold send_end. rewrite (proj2 (Z.leb_le _ _)) by lia. simpl. lia.
  - exists n, w'. split; [done|]. split; [done|]. destruct Hs as (r & sent & chunks & H1 & H2 & H3 & H4 & H5 & H6). exists r, sent, chunks.
    rewrite Z.sub_0_r in H3. by rewrite drop_0 in H3.
Qed.

(** Coroutines that use the socket calls of nty_socket.c, under the scheduler: provided that they wait, yield or return after
    a bounded number of calls, whatever the kernel answers and whenever their descriptors are ready, no coroutine is
    used after it has been freed, and when the scheduler returns all are freed and no descriptor is registered. *)
Theorem socket_clients_freed (q : nat) (yields_soon : ∀ c, client_yields q c) clock epoll_wait calloc memalign addr fd s0 funcs i
    (calloc_fresh : ∀ h : gmap Z (nty_coroutine (coroutine code)), calloc h ≠ 0 → h !! calloc h = None)
    (epoll_ok : ∀ i ms E, NoDup (epoll_wait i ms E).*1 ∧ ∀ f : Z, f ∈ (epoll_wait i ms E : list (Z * Z)).*1 → is_Some (E !! f)) :
  nty_schedule_create clock addr fd = Some s0 →
  match nty_schedule_run next_socket (S q) clock epoll_wait calloc memalign i (foldl (nty_coroutine_create calloc memalign) s0 funcs) with
  | Ok s' => cos s' = ∅ ∧ spawned_coroutines s' = 0 ∧ epoll s' = ∅
  | Err e => e = OutOfFuel ∨ e = AssertFailed
  end.
Proof.
  intros H0. apply create_inv in H0.
  pose proof (run_outcome_inv next_socket (S q) clock epoll_wait calloc memalign calloc_fresh True socket_tame
    (socket_yields q yields_soon) epoll_ok i _ (inv_spawns calloc memalign calloc_fresh funcs s0 H0)) as Hr.
  destruct (nty_schedule_run _ _ _ _ _ _ _ _); simpl in Hr; tauto.
Qed.

End calls.
(** ** An echo server for one connection *)

Inductive echo : Type := Once (fd : Z) | New (fd : Z) | Reader (fd : Z) | Got (fd r : Z) (buf : list Z) | Bye.

Definition echo_client (c : echo) : call echo :=
  match c with
  | Once fd => CAccept fd New
  | New fd => CCreate (Reader fd) Bye
  | Reader fd => CRecv fd (Got fd)
  | Got fd r buf => if 0 <? r then CSend fd buf (λ _, Reader fd) else CClose fd Bye
  | Bye => CReturn
  end.

Lemma echo_yields c : client_yields echo_client 2 c.
Proof. destruct c; simpl; try done. by destruct (0 <? r). Qed.

(** accept answers 7, recv three bytes and then the end of the stream. *)
Definition answers (n : nat) : answer :=
  match n with
  | 0%nat => Answer 7 EOTHER []
  | 2%nat => Answer 3 EOTHER [104; 105; 10]
  | 4%nat => Answer 3 EOTHER []
  | _ => Answer 0 EOTHER []
  end.
Definition server : coroutine echo := Coroutine (Client (Once 3)) answers 0 [].

(** Whatever is registered is ready. *)
Definition all_ready (_ : nat) (_ : Z) (E : gmap Z Z) : list (Z * Z) := map_to_list E.

Lemma all_ready_ok i ms E : NoDup (all_ready i ms E).*1 ∧ ∀ f, f ∈ (all_ready i ms E).*1 → is_Some (E !! f).
Proof.
  unfold all_ready. split; [apply NoDup_fst_map_to_list|]. intros f Hf. apply list_elem_of_fmap in Hf as ([f' ev] & -> & Hin).
  apply elem_of_map_to_list in Hin. by eexists.
Qed.

Lemma socket_clients_freed_witness :
  resumed <$> (match nty_schedule_run (next_socket echo_client) 3 Z.of_nat all_ready two_cells (λ _, true) 9
      (foldl (nty_coroutine_create two_cells (λ _, true)) new_sched [server]) with Ok s' => Some s' | Err _ => None end) =
    Some [100; 100; 200; 200; 200] ∧
  match nty_schedule_run (next_socket echo_client) 3 Z.of_nat all_ready two_cells (λ _, true) 9
      (foldl (nty_coroutine_create two_cells (λ _, true)) new_sched [server]) with
  | Ok s' => cos s' = ∅ ∧ spawned_coroutines s' = 0 ∧ epoll s' = ∅
  | Err e => e = OutOfFuel ∨ e = AssertFailed
  end.
Proof.
  split; [vm_compute; reflexivity|].
  exact (socket_clients_freed echo_client 2 echo_yields Z.of_nat all_ready two_cells (λ _, true) 4096 3 new_sched [server] 9
    two_cells_fresh all_ready_ok eq_refl).
Defined.

(** Three bytes, of which the kernel takes two and then one. *)
Definition sender : coroutine echo :=
  Coroutine (Client (Got 7 3 [104; 105; 10])) (λ n, match n with 0%nat => Answer 2 EOTHER [] | _ => Answer 5 EOTHER [] end) 0 [].

Lemma nty_send_correct_witness : outgoing <$> drive echo_client 2 sender = Some [(7, [104; 105]); (7, [10])] ∧
  ∃ n w', (n ≤ 7)%nat ∧ drive echo_client n sender = Some w' ∧
    ∃ r sent chunks, at_ w' = Client (Reader 7) ∧ outgoing w' = ((λ b, (7, b)) <$> chunks) ∧
      concat chunks = take (Z.to_nat sent) [104; 105; 10] ∧ 0 ≤ sent ≤ 3 ∧
      (if sent =? 0 then r ≤ 0 else r = sent) ∧ ((∀ i, 0 < ret (kernel sender i)) → sent = 3).
Proof.
  split; [vm_compute; reflexivity|].
  exact (nty_send_correct echo_client sender (Got 7 3 [104; 105; 10]) 7 [104; 105; 10] (λ _, Reader 7) eq_refl eq_refl eq_refl).
Defined.

End NtySocket.
