(* ===== verification/TryCatch.v ===== *)
(** * The exceptions of 7.1cas/trycatch_finally.c

    The macros [Try], [Catch], [Finally], [EndTry] and the function [ntyExceptionThrow], on the thread's stack of
    frames.  The code between the macros is a statement of a small language; [exec] runs it as the
    macros expand: [setjmp] is the place a [Jump] is caught at, [longjmp] a [Jump] to the frame of that
    place, and the chain of if and else is walked clause by clause.  [run] is what exceptions mean:
    no stack, no frames and no flag. *)

From S2P Require Import Prelude.

Module TryCatch.

(** ** Data *)

(** An exception is the address of its [ntyException]. *)
Notation exn := Z (only parsing).

(** [func], [file] and [line] together are [place]; [env] is the place that a [Jump] to the frame's address goes to. *)
(* src: 7.1cas/trycatch_finally.c:32-44 ntyExceptionFrame *)
Record ntyExceptionFrame : Type := Frame {
  place : Z;
  exception : exn;
  prev : Z;
  message : string
}.

(* src: 7.1cas/trycatch_finally.c:53-58 ExceptionEntered *)
Inductive flag : Type := ExceptionEntered | ExceptionThrown | ExceptionHandled | ExceptionFinalized.
#[export] Instance flag_eq_dec : EqDecision flag.
Proof. solve_decision. Defined.

(** What a thread prints: its own lines, and the report of an exception nobody catches, with the message or
    without. *)
Inductive event : Type :=
  | Line (m : string)
  | Report (e : exn) (cause : option string) (at_ : Z).

(** A thread: [ExceptionStack] (the top frame or null), the frames alive, the address of the next one, and the output. *)
Record thread_state : Type := Thread {
  ExceptionStack : Z;
  frames : gmap Z ntyExceptionFrame;
  next_frame : Z;
  output : list event
}.

Definition with_stack v s := Thread v (frames s) (next_frame s) (output s).
Definition with_frames v s := Thread (ExceptionStack s) v (next_frame s) (output s).
Definition with_next v s := Thread (ExceptionStack s) (frames s) v (output s).
Definition emit ev s := Thread (ExceptionStack s) (frames s) (next_frame s) (output s ++ [ev]).

(** Code between the macros.  [Return] leaves the function, [Call] is a call of one. *)
Inductive stmt : Type :=
  | Skip
  | Print (m : string)
  | Throw (e : exn) (cause : option string) (at_ : Z)
  | Seq (p q : stmt)
  | Return
  | Call (body : stmt)
  | Try (body : stmt) (rest : clauses)
with clauses : Type :=
  | Catch (e : exn) (handler : stmt) (rest : clauses)
  | Finally (last : stmt)
  | EndTry.

Scheme stmt_clauses_ind := Induction for stmt Sort Prop
  with clauses_stmt_ind := Induction for clauses Sort Prop.
Combined Scheme stmt_mut_ind from stmt_clauses_ind, clauses_stmt_ind.

(** One after the other. *)
Definition block : list stmt → stmt := foldr Seq Skip.

(** ** The library *)

Definition rd (s : thread_state) (a : Z) : res ntyExceptionFrame :=
  if a =? 0 then Err NullDeref else get_or UseAfterFree (frames s !! a).

(* src: 7.1cas/trycatch_finally.c:46-47 ntyExceptionPopStack *)
Definition ntyExceptionPopStack (s : thread_state) : res thread_state :=
  f ← rd s (ExceptionStack s); Ok (with_stack (prev f) s).

(** [vsnprintf] with 512 bytes, the last for the terminator. *)
Definition formatted (cause : string) : string := String.substring 0 511 cause.

(** How a statement ends: at its end, by a jump to a frame, or by a return. *)
Inductive outcome : Type := Norm | Jump (frame : Z) | Ret.

(* src: 7.1cas/trycatch_finally.c:101-139 ntyExceptionThrow *)
Definition ntyExceptionThrow (e : exn) (at_ : Z) (cause : option string) (s : thread_state) : res (outcome * thread_state) :=
  let frame := ExceptionStack s in
  if negb (frame =? 0) then
    f ← rd s frame;
    let f := Frame at_ e (prev f) (match cause with Some c => formatted c | None => message f end) in
    s ← ntyExceptionPopStack (with_frames (<[frame := f]> (frames s)) s);
    Ok (Jump frame, s)
  else Ok (Norm, emit (Report e (formatted <$> cause) at_) s).

(* src: 7.1cas/trycatch_finally.c:49-49 ReThrow *)
Definition ReThrow (frame : Z) (s : thread_state) : res (outcome * thread_state) :=
  f ← rd s frame; ntyExceptionThrow (exception f) (place f) None s.

(** Where the chain of if and else stands: in a block that has just been run, behind the block that was taken, or at a
    condition that has not been met yet. *)
Inductive mode : Type := Ran | Passed | Looking.

(** Macros that begin by closing the block before them. *)
Definition close (m : mode) (fl : flag) (s : thread_state) : res thread_state :=
  match m with Ran => if decide (fl = ExceptionEntered) then ntyExceptionPopStack s else Ok s | _ => Ok s end.

(** The end of the storage of [frame]. *)
Definition leave (frame : Z) (r : outcome * thread_state) : outcome * thread_state :=
  (r.1, with_frames (delete frame (frames r.2)) r.2).

(* src: 7.1cas/trycatch_finally.c:61-86 Try *)
Fixpoint exec (p : stmt) (s : thread_state) : res (outcome * thread_state) :=
  match p with
  | Skip => Ok (Norm, s)
  | Print m => Ok (Norm, emit (Line m) s)
  | Throw e cause at_ => ntyExceptionThrow e at_ cause s
  | Seq p q => '(o, s) ← exec p s; match o with Norm => exec q s | _ => Ok (o, s) end
  | Return => Ok (Ret, s)
  | Call body => '(o, s) ← exec body s; Ok (match o with Ret => Norm | _ => o end, s)
  | Try body rest =>
      let frame := next_frame s in
      let s := with_next (frame + 1) (with_frames (<[frame := Frame 0 0 (ExceptionStack s) ""]> (frames s)) s) in
      let s := with_stack frame s in
      '(o, s) ← exec body s;
      r ← match o with
          | Norm => exec_clauses rest Ran ExceptionEntered frame s
          | Jump a => if a =? frame then exec_clauses rest Looking ExceptionThrown frame s else Ok (o, s)
          | Ret => Ok (o, s)
          end;
      Ok (leave frame r)
  end
with exec_clauses (c : clauses) (m : mode) (fl : flag) (frame : Z) (s : thread_state) : res (outcome * thread_state) :=
  s ← close m fl s;
  match c with
  | Catch e handler rest =>
      match m with
      | Looking =>
          f ← rd s frame;
          if exception f =? e then
            '(o, s) ← exec handler s;
            match o with Norm => exec_clauses rest Ran ExceptionHandled frame s | _ => Ok (o, s) end
          else exec_clauses rest Looking fl frame s
      | _ => exec_clauses rest Passed fl frame s
      end
  | Finally last =>
      let fl := if decide (fl = ExceptionEntered) then ExceptionFinalized else fl in
      '(o, s) ← exec last s;
      match o with
      | Norm => s ← close Ran fl s; if decide (fl = ExceptionThrown) then ReThrow frame s else Ok (Norm, s)
      | _ => Ok (o, s)
      end
  | EndTry => if decide (fl = ExceptionThrown) then ReThrow frame s else Ok (Norm, s)
  end.

(** ** What exceptions mean *)

(** A statement ends, is left by an exception raised at a place, or by a return. *)
Inductive result : Type := Done | Raised (e : exn) (at_ : Z) | Returned.

(** Outside every [Try] an exception is reported, and the thread goes on. *)
Definition raise (inside : bool) (e : exn) (cause : option string) (at_ : Z) (out : list event) : result * list event :=
  if inside then (Raised e at_, out) else (Done, out ++ [Report e cause at_]).

(** At the end of a [Try]; an exception of a handler has been raised already. *)
Definition settle (inside caught : bool) (r : result) (out : list event) : result * list event :=
  match r with Raised e at_ => if caught then (r, out) else raise inside e None at_ out | _ => (r, out) end.

(** The first handler for the exception is run; what stands behind [Finally] is run however the rest has ended. *)
Fixpoint run (p : stmt) (inside : bool) (out : list event) : result * list event :=
  match p with
  | Skip => (Done, out)
  | Print m => (Done, out ++ [Line m])
  | Throw e cause at_ => raise inside e (formatted <$> cause) at_ out
  | Seq p q => let '(r, out) := run p inside out in match r with Done => run q inside out | _ => (r, out) end
  | Return => (Returned, out)
  | Call body => let '(r, out) := run body inside out in (match r with Returned => Done | _ => r end, out)
  | Try body rest => let '(r, out) := run body true out in run_clauses rest inside false r out
  end
with run_clauses (c : clauses) (inside caught : bool) (r : result) (out : list event) : result * list event :=
  match c with
  | Catch e handler rest =>
      match r, caught with
      | Raised e' _, false =>
          if e' =? e then let '(r, out) := run handler inside out in run_clauses rest inside true r out
          else run_clauses rest inside false r out
      | _, _ => run_clauses rest inside caught r out
      end
  | Finally last => let '(r', out) := run last inside out in match r' with Done => settle inside caught r out | _ => (r', out) end
  | EndTry => settle inside caught r out
  end.

(** The exceptions that may leave a statement, and [Try] when its body may raise those of [l]. *)
Fixpoint raises (p : stmt) : list exn :=
  match p with
  | Skip | Print _ | Return => []
  | Throw e _ _ => [e]
  | Seq p q => raises p ++ raises q
  | Call body => raises body
  | Try body rest => raises_clauses rest (raises body)
  end
with raises_clauses (c : clauses) (l : list exn) : list exn :=
  match c with
  | Catch e handler rest => raises handler ++ raises_clauses rest (filter (λ e', e' ≠ e) l)
  | Finally last => raises last ++ l
  | EndTry => l
  end.

(** Whether a statement may return from the function it stands in. *)
Fixpoint returns (p : stmt) : bool :=
  match p with
  | Return => true
  | Seq p q => returns p || returns q
  | Try body rest => returns body || returns_clauses rest
  | _ => false
  end
with returns_clauses (c : clauses) : bool :=
  match c with
  | Catch _ handler rest => returns handler || returns_clauses rest
  | Finally last => returns last
  | EndTry => false
  end.

Fixpoint has_finally (c : clauses) : bool :=
  match c with Catch _ _ rest => has_finally rest | Finally _ => true | EndTry => false end.

(** The use that the macros allow: no [return] out of the body of a [Try], and in front of [Finally] handlers that end
    at their end. *)
Fixpoint well (p : stmt) : bool :=
  match p with
  | Seq p q => well p && well q
  | Call body => well body
  | Try body rest => well body && negb (returns body) && well_clauses rest
  | _ => true
  end
with well_clauses (c : clauses) : bool :=
  match c with
  | Catch _ handler rest =>
      well handler && well_clauses rest &&
      (negb (has_finally rest) || negb (returns handler) && bool_decide (raises handler = []))
  | Finally last => well last
  | EndTry => true
  end.

(** ** The analysis is sound *)

Lemma run_raises_mut :
  (∀ p inside out e a o, run p inside out = (Raised e a, o) → e ∈ raises p) ∧
  (∀ c inside caught r out (l : list exn) e a o, (∀ e' a', r = Raised e' a' → caught = false → e' ∈ l) →
    run_clauses c inside caught r out = (Raised e a, o) → e ∈ raises_clauses c l ∨ caught = true ∧ ∃ a', r = Raised e a').
Proof.
  assert (∀ inside e c a out e' a' o, raise inside e c a out = (Raised e' a', o) → e' = e) as Hraise.
  { intros [] ????? ??; simpl; congruence. }
  assert (∀ inside caught r out (l : list exn) e a o, (∀ e' a', r = Raised e' a' → caught = false → e' ∈ l) →
    settle inside caught r out = (Raised e a, o) → e ∈ l ∨ caught = true ∧ ∃ a', r = Raised e a') as Hsettle.
  { intros inside caught [|e' a'|] out l e a o Hl; simpl; try done. destruct caught.
    - intros [= <- <- <-]. right. eauto.
    - intros ->%Hraise. left. by eapply Hl. }
  apply stmt_mut_ind; simpl; try done.
  - intros e cause at_ inside out e' a o ->%Hraise. left.
  - intros p IHp q IHq inside out e a o. destruct (run p inside out) as [[|e' a'|] out1] eqn:E; intros H; apply elem_of_app.
    + right. by eapply IHq.
    + injection H as <- <- <-. left. by eapply IHp.
    + done.
  - intros body IH inside out e a o. destruct (run body inside out) as [[|e' a'|] out1] eqn:E; intros [= <- <- <-]. by eapply IH.
  - intros body IHb rest IHc inside out e a o. destruct (run body true out) as [r out1] eqn:E. intros H.
    destruct (IHc inside false r out1 (raises body) e a o) as [?|[? _]]; [|done..]. intros e' a' -> _. by eapply IHb.
  - intros e h IHh rest IHc inside caught r out l e' a o Hl H. rewrite elem_of_app.
    assert (∀ r out, (∀ e1 a1, r = Raised e1 a1 → caught = false → e1 ∈ filter (λ e', e' ≠ e) l) → run_clauses rest inside caught r out = (Raised e' a, o) →
      (e' ∈ raises h ∨ e' ∈ raises_clauses rest (filter (λ e', e' ≠ e) l)) ∨ caught = true ∧ ∃ a', r = Raised e' a') as Hgo.
    { intros r1 out1 Hl1 H1. destruct (IHc _ _ _ _ _ _ _ _ Hl1 H1); auto. }
    destruct r as [|e1 a1|], caught; try (apply Hgo in H; [done|congruence]). destruct (Z.eqb_spec e1 e) as [->|Hne].
    + left. destruct (run h inside out) as [r1 out1] eqn:E.
      destruct (IHc inside true r1 out1 (filter (λ e', e' ≠ e) l) e' a o) as [?|(_ & a' & ->)]; [done|done|by right|]. left. by eapply IHh.
    + apply Hgo in H; [done|]. intros ? ? [= <- <-] _. apply list_elem_of_filter. split; [done|]. by eapply Hl.
  - intros last IH inside caught r out l e a o Hl. rewrite elem_of_app. destruct (run last inside out) as [[|e' a'|] out1] eqn:E.
    + intros H. destruct (Hsettle _ _ _ _ _ _ _ _ Hl H); auto.
    + intros [= <- <- <-]. left. left. by eapply IH.
    + done.
Qed.

Lemma run_returns_mut :
  (∀ p inside out o, run p inside out = (Returned, o) → returns p = true) ∧
  (∀ c inside caught r out o, run_clauses c inside caught r out = (Returned, o) → returns_clauses c = true ∨ r = Returned).
Proof.
  assert (∀ inside e c a out o, raise inside e c a out ≠ (Returned, o)) as Hraise by (intros [] *; simpl; congruence).
  assert (∀ inside caught r out o, settle inside caught r out = (Returned, o) → r = Returned) as Hsettle.
  { intros inside [] [|e a|] out o; simpl; try done. by intros ?%Hraise. }
  apply stmt_mut_ind; simpl; try done.
  - by intros e cause at_ inside out o ?%Hraise.
  - intros p IHp q IHq inside out o. destruct (run p inside out) as [[]] eqn:E; intros H; apply orb_true_iff; [right|done|left]; eauto.
  - intros body IH inside out o. by destruct (run body inside out) as [[]].
  - intros body IHb rest IHc inside out o. destruct (run body true out) as [r out1] eqn:E. intros H. apply orb_true_iff.
    destruct (IHc _ _ _ _ _ H) as [?| ->]; [by right|]. left. by eapply IHb.
  - intros e h IHh rest IHc inside caught r out o H. rewrite orb_true_iff.
    assert (∀ r out, run_clauses rest inside caught r out = (Returned, o) → (returns h = true ∨ returns_clauses rest = true) ∨ r = Returned) as Hgo.
    { intros r1 out1 H1. destruct (IHc _ _ _ _ _ H1); auto. }
    destruct r as [|e1 a1|], caught; try (by apply Hgo in H). destruct (e1 =? e); [|by apply Hgo in H].
    destruct (run h inside out) as [r1 out1] eqn:E. left. destruct (IHc _ _ _ _ _ H) as [?| ->]; [by right|]. left. by eapply IHh.
  - intros last IH inside caught r out o. destruct (run last inside out) as [[]] eqn:E; [|done|left; by eapply IH]. intros H. right. by eapply Hsettle.
  - intros inside caught r out o H. right. by eapply Hsettle.
Qed.

(** ** The stack of frames implements them *)

(** The top frame is alive, and the addresses given out lie below the next one. *)
Record good (s : thread_state) : Prop := Good {
  good_top : ExceptionStack s = 0 ∨ is_Some (frames s !! ExceptionStack s);
  good_next a : is_Some (frames s !! a) → 0 < a < next_frame s;
  good_pos : 0 < next_frame s
}.

Definition inside (s : thread_state) : bool := negb (ExceptionStack s =? 0).

(** The stack and the frames are as before; after an exception its frame is off the stack and holds it. *)
Definition agrees (s : thread_state) (r : result * list event) (m : res (outcome * thread_state)) : Prop :=
  ∃ o s', m = Ok (o, s') ∧ output s' = r.2 ∧ next_frame s ≤ next_frame s' ∧
  match r.1 with
  | Done => o = Norm ∧ ExceptionStack s' = ExceptionStack s ∧ frames s' = frames s
  | Returned => o = Ret ∧ ExceptionStack s' = ExceptionStack s ∧ frames s' = frames s
  | Raised e at_ => o = Jump (ExceptionStack s) ∧ ∃ f m, frames s !! ExceptionStack s = Some f ∧
      ExceptionStack s' = prev f ∧ frames s' = <[ExceptionStack s := Frame at_ e (prev f) m]> (frames s)
  end.

Lemma good_same s s' : good s → ExceptionStack s' = ExceptionStack s → frames s' = frames s → next_frame s ≤ next_frame s' → good s'.
Proof.
  intros [H1 H2 H3] Es Ef Hn. split; rewrite ?Es, ?Ef; [done| |lia]. intros a Ha. specialize (H2 a Ha). lia.
Qed.

Lemma rd_frame s a f : good s → frames s !! a = Some f → rd s a = Ok f.
Proof.
  intros HG Ha. unfold rd. destruct (good_next s HG a); [by eexists|]. by rewrite (proj2 (Z.eqb_neq _ _)), Ha by lia.
Qed.

(** From a state that differs in the output only. *)
Lemma agrees_from s s' r m : ExceptionStack s' = ExceptionStack s → frames s' = frames s → next_frame s ≤ next_frame s' → agrees s' r m → agrees s r m.
Proof.
  intros Es Ef Hn (o & s1 & E & Ho & Hn1 & H). exists o, s1. rewrite Es, Ef in H. split; [done|]. split; [done|]. split; [lia|done].
Qed.

Lemma throw_agrees s e cause at_ : good s →
  agrees s (raise (inside s) e (formatted <$> cause) at_ (output s)) (ntyExceptionThrow e at_ cause s).
Proof.
  intros HG. unfold ntyExceptionThrow, inside. destruct (Z.eqb_spec (ExceptionStack s) 0) as [E|Hne]; simpl.
  - eexists _, _. split; [done|]. split; [done|]. split; [simpl; lia|done].
  - destruct (good_top s HG) as [?|[f Hf]]; [done|]. rewrite (rd_frame s _ f HG Hf), ok_bind. unfold ntyExceptionPopStack.
    simpl (ExceptionStack _). unfold rd. rewrite (proj2 (Z.eqb_neq _ _) Hne). simpl (frames _). rewrite lookup_insert_eq. simpl (get_or _ _). rewrite !ok_bind.
    eexists _, _. split; [done|]. split; [done|]. split; [simpl; lia|]. split; [done|]. by eexists f, _.
Qed.

Lemma rethrow_agrees s frame f : good s → frames s !! frame = Some f →
  agrees s (raise (inside s) (exception f) None (place f) (output s)) (ReThrow frame s).
Proof. intros HG Hf. unfold ReThrow. rewrite (rd_frame s frame f HG Hf), ok_bind. by apply (throw_agrees s (exception f) None (place f)). Qed.

(** A block of the chain that has been run with the flag as it was set by [setjmp] takes its frame off the stack. *)
Lemma exec_ran c frame s : exec_clauses c Ran ExceptionEntered frame s =
  (s ← ntyExceptionPopStack s; exec_clauses c Passed ExceptionEntered frame s).
Proof. by destruct c; simpl; destruct (ntyExceptionPopStack s). Qed.

Lemma run_uncaught c inside r out : has_finally c = false → run_clauses c inside true r out = (r, out).
Proof. induction c as [e h rest IH|last|]; simpl; [|done|by destruct r]. intros H. by destruct r; apply IH. Qed.

(** The code after a statement that has ended at its end. *)
Lemma agrees_bind s r r' m k : good s → agrees s r m →
  (∀ s', good s' → ExceptionStack s' = ExceptionStack s → frames s' = frames s → output s' = r.2 → r.1 = Done → agrees s' r' (k (Norm, s'))) →
  (r.1 ≠ Done → r' = r ∧ ∀ o s', o ≠ Norm → k (o, s') = Ok (o, s')) →
  agrees s r' (m ≫= k).
Proof.
  intros HG (o & s' & -> & Ho & Hn & H) Hdone Helse. rewrite ok_bind. destruct r as [[|e at_|] out]; simpl in *.
  - destruct H as (-> & Es & Ef). eapply agrees_from; [exact Es|exact Ef|exact Hn|]. apply Hdone; try done. by eapply good_same.
  - destruct H as (-> & H). destruct Helse as [-> Hk]; [done|]. rewrite Hk by done. eexists _, _. split; [done|]. split; [done|]. by split.
  - destruct H as (-> & H). destruct Helse as [-> Hk]; [done|]. rewrite Hk by done. eexists _, _. split; [done|]. split; [done|]. by split.
Qed.

(** The beginning of a [Try]. *)
Definition pushed (s : thread_state) : thread_state :=
  with_stack (next_frame s) (with_next (next_frame s + 1) (with_frames (<[next_frame s := Frame 0 0 (ExceptionStack s) ""]> (frames s)) s)).

Lemma good_pushed s : good s → good (pushed s) ∧ inside (pushed s) = true ∧ frames s !! next_frame s = None ∧ ExceptionStack s ≠ next_frame s.
Proof.
  intros HG. pose proof (good_pos s HG) as Hpos. repeat split.
  - simpl. right. rewrite lookup_insert_eq. by eexists.
  - simpl in *. destruct (decide (a = next_frame s)) as [->|Hb']; [lia|]. rewrite lookup_insert_ne in H by done. by destruct (good_next s HG a H).
  - simpl in *. destruct (decide (a = next_frame s)) as [->|Hb']; [lia|]. rewrite lookup_insert_ne in H by done. destruct (good_next s HG a H). lia.
  - simpl. lia.
  - unfold inside. simpl. rewrite (proj2 (Z.eqb_neq _ _)); [done|lia].
  - destruct (frames s !! next_frame s) eqn:E; [|done]. destruct (good_next s HG (next_frame s)); [by eexists|lia].
  - intros E. destruct (good_top s HG) as [E0|Hf]; [lia|]. rewrite E in Hf. destruct (good_next s HG _ Hf). lia.
Qed.

(** The frame is off the stack again. *)
Lemma good_popped s s' f : good s → ExceptionStack s' = ExceptionStack s → frames s' = <[next_frame s := f]> (frames s) →
  next_frame s + 1 ≤ next_frame s' → good s'.
Proof.
  intros HG Es Ef Hn. destruct (good_pushed s HG) as (HG1 & _ & _ & Hne). pose proof (good_pos s HG). split; [|intros b Hx|lia].
  - rewrite Es, Ef, lookup_insert_ne by done. exact (good_top s HG).
  - destruct (good_next _ HG1 b); [|simpl in *; lia]. rewrite Ef in Hx. simpl. destruct (decide (b = next_frame s)) as [->|Hb'].
    + rewrite lookup_insert_eq. by eexists.
    + by rewrite lookup_insert_ne in Hx |- * by done.
Qed.

(** The end of a [Try], from a state in which its frame is off the stack. *)
Lemma agrees_leave s s' a f r m : good s → frames s !! a = None → ExceptionStack s ≠ a → ExceptionStack s' = ExceptionStack s →
  frames s' = <[a := f]> (frames s) → next_frame s ≤ next_frame s' → agrees s' r m → agrees s r (r ← m; Ok (leave a r)).
Proof.
  intros HG Ha Hne Es Ef Hn (o & s1 & -> & Ho & Hn1 & H). rewrite ok_bind. exists o, (with_frames (delete a (frames s1)) s1).
  split; [done|]. split; [done|]. split; [simpl; lia|]. destruct (r.1) as [|e at_|].
  - destruct H as (-> & E1 & E2). split; [done|]. split; [simpl; congruence|]. simpl. rewrite E2, Ef. by apply delete_insert_id.
  - destruct H as (-> & f1 & m1 & Hf1 & E1 & E2). rewrite Es in Hf1, E2 |- *. split; [done|]. exists f1, m1.
    rewrite Ef, lookup_insert_ne in Hf1 by done. split; [done|]. split; [done|]. simpl.
    rewrite E2, Ef, delete_insert_ne by done. by rewrite delete_insert_id.
  - destruct H as (-> & E1 & E2). split; [done|]. split; [simpl; congruence|]. simpl. rewrite E2, Ef. by apply delete_insert_id.
Qed.

Lemma exec_agrees_mut :
  (∀ p s, well p = true → good s → agrees s (run p (inside s) (output s)) (exec p s)) ∧
  (∀ c s frame f, well_clauses c = true → good s → frames s !! frame = Some f →
    agrees s (run_clauses c (inside s) false (Raised (exception f) (place f)) (output s)) (exec_clauses c Looking ExceptionThrown frame s) ∧
    ∀ m fl caught, m = Passed ∧ fl ≠ ExceptionThrown ∨ m = Ran ∧ fl = ExceptionHandled →
      agrees s (run_clauses c (inside s) caught Done (output s)) (exec_clauses c m fl frame s)).
Proof.
  assert (∀ s s', ExceptionStack s' = ExceptionStack s → inside s' = inside s) as Hin by (intros s s' E; unfold inside; by rewrite E).
  apply stmt_mut_ind; simpl.
  - intros s _ HG. eexists _, _. split; [done|]. split; [done|]. split; [lia|done].
  - intros m s _ HG. eexists _, _. split; [done|]. split; [done|]. split; [simpl; lia|done].
  - intros e cause at_ s _ HG. by apply throw_agrees.
  - intros p IHp q IHq s [Hp Hq]%andb_true_iff HG. destruct (run p (inside s) (output s)) as [r out] eqn:E.
    eapply agrees_bind; [done|by apply IHp| |].
    + intros s' HG' Es Ef Ho Hr. rewrite E in Ho, Hr. simpl in Ho, Hr. subst r. rewrite <-(Hin _ _ Es), <-Ho. by apply IHq.
    + rewrite E. simpl. intros Hr. split; [by destruct r|]. by intros [] s'.
  - intros s _ HG. eexists _, _. split; [done|]. split; [done|]. split; [lia|done].
  - intros body IH s Hb HG. destruct (IH s Hb HG) as (o & s' & -> & Ho & Hn & H). rewrite ok_bind.
    destruct (run body (inside s) (output s)) as [r out]. destruct r; simpl in *; (eexists _, _; split; [done|]; split; [done|]; split; [done|]).
    + by destruct H as (-> & ?).
    + by destruct H as (-> & ?).
    + by destruct H as (-> & ?).
  - intros body IHb rest IHc s [[Hb Hret]%andb_true_iff Hc]%andb_true_iff HG.
    destruct (good_pushed s HG) as (HG1 & Hin1 & Ha & Hne). pose proof (good_pos s HG) as Hpos.
    change (with_stack _ _) with (pushed s). set (a := next_frame s) in *. set (s1 := pushed s) in *.
    destruct (IHb s1 Hb HG1) as (o & s2 & -> & Ho & Hn & H). rewrite ok_bind. rewrite Hin1 in Ho, H. simpl (output s1) in Ho, H. simpl in Hn.
    destruct (run body true (output s)) as [r out] eqn:E. simpl in Ho, H. destruct r as [|e at_|].
    + destruct H as (-> & Es & Ef). rewrite exec_ran. unfold ntyExceptionPopStack. rewrite Es. change (ExceptionStack s1) with a.
      assert (good s2) as HG2 by (by eapply good_same; [exact HG1| | |simpl; lia]).
      rewrite (rd_frame s2 (next_frame s) _ HG2) by (rewrite Ef; apply lookup_insert_eq). rewrite !ok_bind. simpl (prev _).
      set (s3 := with_stack _ _).
      assert (good s3) as HG3 by (by eapply (good_popped s s3); [| |exact Ef|]).
      eapply (agrees_leave s s3 a _); [done|done|done|done|exact Ef|simpl; lia|].
      destruct (IHc s3 a (Frame 0 0 (ExceptionStack s) "") Hc HG3) as [_ Hr]; [simpl; rewrite Ef; apply lookup_insert_eq|].
      rewrite <-Ho. change (output s2) with (output s3). rewrite <-(Hin s s3) by done. apply Hr. by left.
    + destruct H as (-> & f & m & Hf & Es & Ef). change (ExceptionStack s1) with a in *. rewrite Z.eqb_refl.
      simpl in Hf, Ef. rewrite lookup_insert_eq in Hf. injection Hf as <-. simpl in Es, Ef. rewrite insert_insert_eq in Ef.
      assert (good s2) as HG2 by (by eapply (good_popped s s2); [| |exact Ef|]).
      eapply (agrees_leave s s2 a _); [done|done|done|done|exact Ef|lia|].
      destruct (IHc s2 a (Frame at_ e (ExceptionStack s) m) Hc HG2) as [Hr _]; [rewrite Ef; apply lookup_insert_eq|].
      rewrite <-Ho, <-(Hin s s2) by done. apply Hr.
    + apply run_returns_mut in E. by rewrite E in Hret.
  - intros e h IHh rest IHc s frame f [[Hh Hc]%andb_true_iff Hfin]%andb_true_iff HG Hf. split.
    + rewrite (rd_frame s frame f HG Hf), !ok_bind. destruct (exception f =? e).
      * destruct (run h (inside s) (output s)) as [r out] eqn:E. eapply agrees_bind; [done|by apply IHh| |].
        -- intros s' HG' Es Ef Ho Hr. rewrite E in Ho, Hr. simpl in Ho, Hr. subst r. rewrite <-(Hin _ _ Es), <-Ho.
           rewrite <-Ef in Hf. apply (IHc s' frame f Hc HG' Hf). by right.
        -- rewrite E. simpl. intros Hr. split; [|by intros [] s']. apply run_uncaught.
           destruct (has_finally rest); [|done]. simpl in Hfin. apply andb_true_iff in Hfin as [Hret Hra]. apply bool_decide_eq_true in Hra.
           destruct r as [|e' a'|]; [done| |].
           ++ apply run_raises_mut in E. rewrite Hra in E. by apply elem_of_nil in E.
           ++ apply run_returns_mut in E. by rewrite E in Hret.
      * by apply IHc.
    + intros m fl caught Hm. assert (close m fl s = Ok s) as -> by (destruct Hm as [[-> _]|[-> ->]]; done).
      rewrite ok_bind. destruct (IHc s frame f Hc HG Hf) as [_ H].
      destruct Hm as [[-> Hm]|[-> ->]]; apply H; left; done.
  - intros last IH s frame f Hl HG Hf. destruct (run last (inside s) (output s)) as [r out] eqn:E. split.
    + eapply agrees_bind; [done|by apply IH| |].
      * intros s' HG' Es Ef Ho Hr. rewrite E in Ho, Hr. simpl in Ho, Hr. subst r. rewrite <-(Hin _ _ Es), <-Ho.
        apply rethrow_agrees; [done|by rewrite Ef].
      * rewrite E. simpl. intros Hr. split; [by destruct r|]. by intros [] s'.
    + intros m fl caught Hm. assert (close m fl s = Ok s) as -> by (destruct Hm as [[-> _]|[-> ->]]; done).
      assert (fl ≠ ExceptionThrown) as Hfl by (destruct Hm as [[_ ?]|[_ ->]]; done).
      rewrite ok_bind. eapply agrees_bind; [done|by apply IH| |].
      * intros s' HG' Es Ef Ho Hr. rewrite E in Ho, Hr. simpl in Ho, Hr. subst r. rewrite <-Ho.
        destruct fl; [|done|..]; simpl; (eexists _, _; split; [done|]; split; [done|]; split; [lia|done]).
      * rewrite E. simpl. intros Hr. split; [by destruct r|]. by intros [] s'.
  - intros s frame f _ HG Hf. split.
    + by apply rethrow_agrees.
    + intros m fl caught Hm. assert (close m fl s = Ok s) as -> by (destruct Hm as [[-> _]|[-> ->]]; done).
      assert (fl ≠ ExceptionThrown) as Hfl by (destruct Hm as [[_ ?]|[_ ->]]; done). rewrite ok_bind, decide_False by done.
      eexists _, _. split; [done|]. split; [done|]. split; [lia|done].
Qed.

(** ** The program's own test *)

(** The numbers of the threads are left out of what they print. *)
Definition A : exn := 1.
Definition B : exn := 2.
Definition C : exn := 3.
Definition D : exn := 4.

(* src: 7.1cas/trycatch_finally.c:149-218 thread *)
Definition thread : stmt := block [
  Try (Throw A (Some "A") 155) (Catch A (Print "catch A") EndTry);
  Try (Throw B (Some "B") 165) (Catch B (Print "catch B") EndTry);
  Try (Throw C (Some "C") 175) (Catch C (Print "catch C") EndTry);
  Try (Throw D (Some "D") 185) (Catch D (Print "catch D") EndTry);
  Try (block [Throw A (Some "A Again") 195; Throw B (Some "B Again") 196; Throw C (Some "C Again") 197; Throw D (Some "D Again") 198])
    (Catch A (Print "catch A again") (Catch B (Print "catch B again") (Catch C (Print "catch C again") (Catch D (Print "catch B again") EndTry))))
].

(** The part before the threads are started; [ntyExceptionInit] leaves the stack empty. *)
(* src: 7.1cas/trycatch_finally.c:223-249 main *)
Definition main : stmt := block [
  Throw D None 227;
  Throw C (Some "null C") 229;
  Print "=> Test1: Try-Catch";
  Try (block [
      Try (Throw B (Some "recall B") 236) (Catch B (Print "recall B") EndTry);
      Throw A None 241
    ]) (Catch A (Print "Result: Ok") EndTry);
  Print "=> Test1: Ok"
].

(** A thread that has not thrown anything yet. *)
Definition fresh_thread : thread_state := Thread 0 ∅ 1 [].

Example main_output : output <$> (match exec main fresh_thread with Ok (Norm, s) => Some s | _ => None end) =
  Some [Report D None 227; Report C (Some "null C"%string) 229; Line "=> Test1: Try-Catch"; Line "recall B"; Line "Result: Ok"; Line "=> Test1: Ok"].
Proof. vm_compute. reflexivity. Qed.

Example thread_output : output <$> (match exec thread fresh_thread with Ok (Norm, s) => Some s | _ => None end) =
  Some [Line "catch A"; Line "catch B"; Line "catch C"; Line "catch D"; Line "catch A again"].
Proof. vm_compute. reflexivity. Qed.

(** ** What the macros guarantee *)

(** C26: The macros and ntyExceptionThrow implement exceptions: run on a thread's stack of frames with setjmp and longjmp, code that
    never returns out of a Try, and whose handlers in front of a Finally end at their end, prints exactly what the
    compositional meaning of try, catch and finally says, ends the same way, and leaves the stack of frames as it was; an exception
    that leaves the code arrives at the frame on top of the stack, which holds it and is off the stack. *)
Theorem exec_implements_exceptions p s : well p = true → good s →
  ∃ o s', exec p s = Ok (o, s') ∧ output s' = (run p (inside s) (output s)).2 ∧
    match (run p (inside s) (output s)).1 with
    | Done => o = Norm ∧ ExceptionStack s' = ExceptionStack s ∧ frames s' = frames s
    | Returned => o = Ret ∧ ExceptionStack s' = ExceptionStack s ∧ frames s' = frames s
    | Raised e at_ => o = Jump (ExceptionStack s) ∧ ∃ f m, frames s !! ExceptionStack s = Some f ∧
        ExceptionStack s' = prev f ∧ frames s' = <[ExceptionStack s := Frame at_ e (prev f) m]> (frames s)
    end.
Proof. intros Hp HG. destruct (proj1 exec_agrees_mut p s Hp HG) as (o & s' & E & Ho & _ & H). by exists o, s'. Qed.

(** C27: The exceptions that may leave a statement can be told from its text, as types tell, where no function, the
    statement's own or one that it calls, returns out of the body of a Try, and handlers in front of a Finally neither return nor let an
    exception out ([well]): whatever longjmp carries to an outer frame is one of those that [raises] lists, so such a statement for which the list
    is empty and that has no return of its own ends at its end. *)
Theorem raises_sound p s : well p = true → good s →
  ∃ o s', exec p s = Ok (o, s') ∧
    match o with
    | Norm => True
    | Jump a => a = ExceptionStack s ∧ ∃ f, frames s' !! a = Some f ∧ exception f ∈ raises p
    | Ret => returns p = true
    end.
Proof.
  intros Hp HG. destruct (proj1 exec_agrees_mut p s Hp HG) as (o & s' & E & _ & _ & H). exists o, s'. split; [done|].
  destruct (run p (inside s) (output s)) as [r out] eqn:Er. destruct r as [|e at_|]; simpl in H.
  - by destruct H as (-> & _).
  - destruct H as (-> & f & m & _ & _ & ->). split; [done|]. rewrite lookup_insert_eq. eexists. split; [done|]. simpl.
    by eapply (proj1 run_raises_mut).
  - destruct H as (-> & _). by eapply (proj1 run_returns_mut).
Qed.

(** C34: A return out of the body of a Try leaves its frame on the stack: when the Try is all that a function does and
    its caller's next statement throws an exception, this is stored into the frame of the function that has returned. *)
Theorem return_in_try_dangles body rest s e cause at_ out : well body = true → good s →
  run body true (output s) = (Returned, out) →
  exec (Seq (Call (Try body rest)) (Throw e cause at_)) s = Err UseAfterFree.
Proof.
  intros Hb HG E. destruct (good_pushed s HG) as (HG1 & Hin1 & Ha & Hne). pose proof (good_pos s HG) as Hpos. cbn [exec].
  change (with_stack _ _) with (pushed s). destruct (proj1 exec_agrees_mut body (pushed s) Hb HG1) as (o & s2 & -> & _ & _ & H).
  rewrite ok_bind, Hin1 in *. change (output (pushed s)) with (output s) in H. rewrite E in H. destruct H as (-> & Es & Ef). rewrite ok_bind. unfold leave. simpl (_.1). simpl (_.2). rewrite !ok_bind.
  unfold ntyExceptionThrow. simpl (ExceptionStack _). rewrite Es. change (ExceptionStack (pushed s)) with (next_frame s).
  rewrite (proj2 (Z.eqb_neq _ _)) by lia. simpl (negb _). cbn iota. unfold rd. rewrite (proj2 (Z.eqb_neq _ _)) by lia. simpl (frames _).
  by rewrite lookup_delete_eq.
Qed.

(** When a handler throws in turn, what stands behind Finally is not run, whatever it is: the exception goes to the
    outer frame at once. *)
Theorem handler_throw_skips_finally s e cause at_ h last e' at' out : well h = true → good s → inside s = true →
  run h true (output s) = (Raised e' at', out) →
  ∃ s', exec (Try (Throw e cause at_) (Catch e h (Finally last))) s = Ok (Jump (ExceptionStack s), s') ∧ output s' = out.
Proof.
  intros Hh HG Hin E. destruct (good_pushed s HG) as (HG1 & Hin1 & Ha & Hne). pose proof (good_pos s HG) as Hpos. cbn [exec].
  change (with_stack _ _) with (pushed s). pose proof (throw_agrees (pushed s) e cause at_ HG1) as (o & s2 & -> & Ho & Hn & H).
  rewrite ok_bind, Hin1 in *. destruct H as (-> & f & m & Hf & Es & Ef). change (ExceptionStack (pushed s)) with (next_frame s) in *.
  simpl in Hf, Ef. rewrite lookup_insert_eq in Hf. injection Hf as <-. simpl in Es, Ef, Ho. rewrite insert_insert_eq in Ef. rewrite Z.eqb_refl.
  assert (good s2) as HG2 by (by eapply (good_popped s s2); [| |exact Ef|]). cbn [exec_clauses close]. rewrite !ok_bind.
  rewrite (rd_frame s2 (next_frame s) (Frame at_ e (ExceptionStack s) m) HG2) by (rewrite Ef; apply lookup_insert_eq). rewrite ok_bind, Z.eqb_refl.
  destruct (proj1 exec_agrees_mut h s2 Hh HG2) as (o & s3 & -> & Ho3 & _ & H). unfold inside in *. rewrite Es, Hin, Ho, E in *.
  destruct H as (-> & _). rewrite !ok_bind. eexists. split; [done|exact Ho3].
Qed.

(** ** Witnesses *)

Lemma good_fresh : good fresh_thread.
Proof. split; simpl; [by left| |lia]. intros a. rewrite lookup_empty. by intros []. Qed.

(** A thread inside a [Try]. *)
Definition trying : thread_state := pushed fresh_thread.

Lemma exec_implements_exceptions_witness : well main = true ∧ ∃ o s', exec main fresh_thread = Ok (o, s') ∧
  output s' = (run main false []).2 ∧ o = Norm ∧ ExceptionStack s' = 0 ∧ frames s' = ∅.
Proof.
  split; [reflexivity|]. destruct (exec_implements_exceptions main fresh_thread eq_refl good_fresh) as (o & s' & E & Ho & H).
  exists o, s'. split; [exact E|]. split; [exact Ho|]. exact H.
Defined.

Lemma raises_sound_witness : raises (Seq (Print "x") (Try (Throw A None 1) (Catch B Skip EndTry))) = [A] ∧
  ∃ o s', exec (Seq (Print "x") (Try (Throw A None 1) (Catch B Skip EndTry))) trying = Ok (o, s') ∧
    match o with
    | Norm => True
    | Jump a => a = 1 ∧ ∃ f, frames s' !! a = Some f ∧ exception f ∈ [A]
    | Ret => false = true
    end.
Proof.
  split; [reflexivity|]. apply (raises_sound (Seq (Print "x") (Try (Throw A None 1) (Catch B Skip EndTry))) trying); [reflexivity|].
  apply good_pushed, good_fresh.
Defined.

Lemma return_in_try_dangles_witness : exec (Seq (Call (Try (Seq (Print "x") Return) EndTry)) (Throw A None 1)) fresh_thread = Err UseAfterFree.
Proof. apply (return_in_try_dangles (Seq (Print "x") Return) EndTry fresh_thread A None 1 [Line "x"]); [reflexivity|apply good_fresh|reflexivity]. Defined.

Lemma handler_throw_skips_finally_witness : ∃ s',
  exec (Try (Throw A None 1) (Catch A (Seq (Print "handling") (Throw B None 2)) (Finally (Print "finally")))) trying = Ok (Jump 1, s') ∧
  output s' = [Line "handling"].
Proof.
  apply (handler_throw_skips_finally trying A None 1 (Seq (Print "handling") (Throw B None 2)) (Print "finally") B 2 [Line "handling"]);
    [reflexivity|apply good_pushed, good_fresh|reflexivity|reflexivity].
Defined.

End TryCatch.
