(* ===== verification/LockFree.v ===== *)
(** * The array queue of 7.3cas_queue/cas_queue/cas_queue

    ArrayLockFreeQueue.h and ArrayLockFreeQueueImp.h.  Any number of threads enqueue and dequeue; a thread is the place
    it stands at in [enqueue] or [dequeue] with its local variables, and one step of it is one access
    to the shared memory: a read, a write or an atomic operation.  Memory is sequentially consistent. *)

From S2P Require Import Prelude.

Module LockFree.

(** ** Data *)

(* src: 7.3cas_queue/cas_queue/cas_queue/ArrayLockFreeQueue.h:14-41 ArrayLockFreeQueue *)
Record ArrayLockFreeQueue : Type := Queue {
  m_thequeue : list Z;
  m_count : Z;
  m_writeIndex : Z;
  m_readIndex : Z;
  m_maximumReadIndex : Z
}.

Definition with_thequeue v q := Queue v (m_count q) (m_writeIndex q) (m_readIndex q) (m_maximumReadIndex q).
Definition with_count v q := Queue (m_thequeue q) v (m_writeIndex q) (m_readIndex q) (m_maximumReadIndex q).
Definition with_writeIndex v q := Queue (m_thequeue q) (m_count q) v (m_readIndex q) (m_maximumReadIndex q).
Definition with_readIndex v q := Queue (m_thequeue q) (m_count q) (m_writeIndex q) v (m_maximumReadIndex q).
Definition with_maximumReadIndex v q := Queue (m_thequeue q) (m_count q) (m_writeIndex q) (m_readIndex q) v.

(** Where a thread stands: outside, or in front of the next access.  [EnqueueN] and [DequeueN] number the accesses of the
    functions in their order; [w] and [r] are [currentWriteIndex] and [currentReadIndex]. *)
Inductive place : Type :=
  | Outside
  | Enqueue1 (a_data : Z)            (* currentWriteIndex = m_writeIndex *)
  | Enqueue2 (a_data w : Z)          (* currentReadIndex = m_readIndex, and the test *)
  | Enqueue3 (a_data w : Z)          (* CAS of m_writeIndex *)
  | Enqueue4 (a_data w : Z)          (* the cell *)
  | Enqueue5 (a_data w : Z)          (* CAS of m_maximumReadIndex *)
  | Enqueue6 (a_data : Z)            (* AtomicAdd *)
  | Dequeue1                         (* currentReadIndex = m_readIndex *)
  | Dequeue2 (r : Z)                 (* currentMaximumReadIndex = m_maximumReadIndex, and the test *)
  | Dequeue3 (r : Z)                 (* the cell *)
  | Dequeue4 (r a_data : Z)          (* CAS of m_readIndex *)
  | Dequeue5 (a_data : Z).           (* AtomicSub *)

(** What can be seen of a step: an element becomes readable, an element is taken, a function returns. *)
Inductive label : Type :=
  | Quiet
  | Commit (x : Z)
  | Take (x : Z)
  | Enqueued (x : Z)
  | Full (x : Z)
  | Dequeued (x : Z)
  | Empty.

Section queue.
Context (Q_SIZE : Z).

(** ** Operations *)

(* src: 7.3cas_queue/cas_queue/cas_queue/ArrayLockFreeQueueImp.h:8-15 ArrayLockFreeQueue *)
Definition new_queue (storage : list Z) : ArrayLockFreeQueue := Queue storage 0 0 0 0.

(* src: 7.3cas_queue/cas_queue/cas_queue/ArrayLockFreeQueueImp.h:24-27 countToIndex *)
Definition countToIndex (a_count : Z) : Z := a_count mod Q_SIZE.

(** Of one state; the two reads of a running queue are apart. *)
(* src: 7.3cas_queue/cas_queue/cas_queue/ArrayLockFreeQueueImp.h:30-40 size *)
Definition size (q : ArrayLockFreeQueue) : Z :=
  let currentWriteIndex := m_writeIndex q in
  let currentReadIndex := m_readIndex q in
  if currentReadIndex <=? currentWriteIndex then u64 (currentWriteIndex - currentReadIndex)
  else u64 (Q_SIZE + currentWriteIndex - currentReadIndex).

(* src: 7.3cas_queue/cas_queue/cas_queue/ArrayLockFreeQueueImp.h:42-80 enqueue *)
Definition enqueue_step (q : ArrayLockFreeQueue) (p : place) : res (ArrayLockFreeQueue * place * label) :=
  match p with
  | Enqueue1 x => Ok (q, Enqueue2 x (m_writeIndex q), Quiet)
  | Enqueue2 x w =>
      if countToIndex (u64 (w + 1)) =? countToIndex (m_readIndex q) then Ok (q, Outside, Full x) else Ok (q, Enqueue3 x w, Quiet)
  | Enqueue3 x w =>
      if m_writeIndex q =? w then Ok (with_writeIndex (u64 (w + 1)) q, Enqueue4 x w, Quiet) else Ok (q, Enqueue1 x, Quiet)
  | Enqueue4 x w => a ← aset (m_thequeue q) (countToIndex w) x; Ok (with_thequeue a q, Enqueue5 x w, Quiet)
  | Enqueue5 x w =>
      if m_maximumReadIndex q =? w then Ok (with_maximumReadIndex (u64 (w + 1)) q, Enqueue6 x, Commit x) else Ok (q, p, Quiet)
  | Enqueue6 x => Ok (with_count (u64 (m_count q + 1)) q, Outside, Enqueued x)
  | _ => Ok (q, p, Quiet)
  end.

(** [try_dequeue] is the same function. *)
(* src: 7.3cas_queue/cas_queue/cas_queue/ArrayLockFreeQueueImp.h:82-126 dequeue *)
Definition dequeue_step (q : ArrayLockFreeQueue) (p : place) : res (ArrayLockFreeQueue * place * label) :=
  match p with
  | Dequeue1 => Ok (q, Dequeue2 (m_readIndex q), Quiet)
  | Dequeue2 r =>
      if countToIndex r =? countToIndex (m_maximumReadIndex q) then Ok (q, Outside, Empty) else Ok (q, Dequeue3 r, Quiet)
  | Dequeue3 r => x ← aget (m_thequeue q) (countToIndex r); Ok (q, Dequeue4 r x, Quiet)
  | Dequeue4 r x =>
      if m_readIndex q =? r then Ok (with_readIndex (u64 (r + 1)) q, Dequeue5 x, Take x) else Ok (q, Dequeue1, Quiet)
  | Dequeue5 x => Ok (with_count (u64 (m_count q - 1)) q, Outside, Dequeued x)
  | _ => Ok (q, p, Quiet)
  end.

(** ** Threads *)

(** The queue, the threads, and the elements committed and taken so far, in order. *)
Record system : Type := Sys {
  queue : ArrayLockFreeQueue;
  threads : list place;
  committed : list Z;
  taken : list Z
}.

Definition observe (l : label) (s : system) : system :=
  match l with
  | Commit x => Sys (queue s) (threads s) (committed s ++ [x]) (taken s)
  | Take x => Sys (queue s) (threads s) (committed s) (taken s ++ [x])
  | _ => s
  end.

Definition advance (q : ArrayLockFreeQueue) (p : place) : res (ArrayLockFreeQueue * place * label) :=
  match p with
  | Enqueue1 _ | Enqueue2 _ _ | Enqueue3 _ _ | Enqueue4 _ _ | Enqueue5 _ _ | Enqueue6 _ => enqueue_step q p
  | _ => dequeue_step q p
  end.

(** A thread calls a function, or goes on. *)
Inductive step (s : system) : label → res system → Prop :=
  | step_enqueue i x : threads s !! i = Some Outside →
      step s Quiet (Ok (Sys (queue s) (<[i := Enqueue1 x]> (threads s)) (committed s) (taken s)))
  | step_dequeue i : threads s !! i = Some Outside →
      step s Quiet (Ok (Sys (queue s) (<[i := Dequeue1]> (threads s)) (committed s) (taken s)))
  | step_advance i p q' p' l : threads s !! i = Some p → p ≠ Outside → advance (queue s) p = Ok (q', p', l) →
      step s l (Ok (observe l (Sys q' (<[i := p']> (threads s)) (committed s) (taken s))))
  | step_fault i p e : threads s !! i = Some p → p ≠ Outside → advance (queue s) p = Err e → step s Quiet (Err e).

(** Threads that start outside, and fewer than 2^64 enqueues: the indices do not wrap around. *)
Inductive reachable : system → Prop :=
  | reachable_start storage n : Z.of_nat (length storage) = Q_SIZE → reachable (Sys (new_queue storage) (replicate n Outside) [] [])
  | reachable_step s l s' : reachable s → m_writeIndex (queue s) < 2 ^ 64 - 1 → step s l (Ok s') → reachable s'.

(** ** The invariant *)

Context (Q_pos : 0 < Q_SIZE).
Implicit Types (q : ArrayLockFreeQueue) (s : system) (p : place).

Definition cell q (i : Z) : Z := default 0 (m_thequeue q !! Z.to_nat (countToIndex i)).

(** The elements that can be read, the oldest first. *)
Definition contents q : list Z := cell q <$> seqZ (m_readIndex q) (m_maximumReadIndex q - m_readIndex q).

(** The index a thread has reserved and not yet committed. *)
Definition owns p : option Z := match p with Enqueue4 _ w | Enqueue5 _ w => Some w | _ => None end.

(** What a thread knows where it stands: when an index it has read is still the current one, then so is what it
    has found out since. *)
Definition knows q p : Prop :=
  match p with
  | Enqueue2 _ w => 0 ≤ w ≤ m_writeIndex q
  | Enqueue3 _ w => 0 ≤ w ≤ m_writeIndex q ∧ (w = m_writeIndex q → w - m_readIndex q < Q_SIZE - 1)
  | Enqueue5 x w => cell q w = x
  | Dequeue2 r => 0 ≤ r ≤ m_readIndex q
  | Dequeue3 r => 0 ≤ r ≤ m_readIndex q ∧ (r = m_readIndex q → r < m_maximumReadIndex q)
  | Dequeue4 r x => 0 ≤ r ≤ m_readIndex q ∧ (r = m_readIndex q → r < m_maximumReadIndex q ∧ cell q r = x)
  | _ => True
  end.

Record inv s : Prop := Inv {
  inv_length : Z.of_nat (length (m_thequeue (queue s))) = Q_SIZE;
  inv_read : 0 ≤ m_readIndex (queue s) ≤ m_maximumReadIndex (queue s);
  inv_write : m_maximumReadIndex (queue s) ≤ m_writeIndex (queue s) < m_readIndex (queue s) + Q_SIZE;
  inv_width : m_writeIndex (queue s) < 2 ^ 64;
  inv_log : committed s = taken s ++ contents (queue s);
  inv_knows i p : threads s !! i = Some p → knows (queue s) p;
  inv_owned w : m_maximumReadIndex (queue s) ≤ w < m_writeIndex (queue s) ↔ ∃ i p, threads s !! i = Some p ∧ owns p = Some w;
  inv_unique i j p p' w : threads s !! i = Some p → threads s !! j = Some p' → owns p = Some w → owns p' = Some w → i = j
}.

Lemma countToIndex_range i : 0 ≤ countToIndex i < Q_SIZE.
Proof. apply Z.mod_pos_bound. lia. Qed.

Lemma countToIndex_inj i j : countToIndex i = countToIndex j → - Q_SIZE < i - j < Q_SIZE → i = j.
Proof.
  unfold countToIndex. intros E H. assert ((i - j) mod Q_SIZE = 0) as H0 by (rewrite Zminus_mod, E, Z.sub_diag; apply Zmod_0_l).
  apply Z.mod_divide in H0 as [k Hk]; [|lia].
  destruct (Z.lt_trichotomy k 0) as [?|[->|?]]; [nia|lia|nia].
Qed.

(** A cell is changed where no readable element and no other committed one is. *)
Lemma cell_store q a w x i : Z.of_nat (length (m_thequeue q)) = Q_SIZE → a = <[Z.to_nat (countToIndex w) := x]> (m_thequeue q) →
  cell (with_thequeue a q) i = if decide (countToIndex i = countToIndex w) then x else cell q i.
Proof.
  intros Hl ->. unfold cell. simpl. pose proof (countToIndex_range w). pose proof (countToIndex_range i). destruct (decide _) as [->|Hne].
  - by rewrite list_lookup_insert_eq by lia.
  - by rewrite list_lookup_insert_ne by lia.
Qed.

Lemma contents_commit q w : m_readIndex q ≤ m_maximumReadIndex q → w = m_maximumReadIndex q + 1 →
  contents (with_maximumReadIndex w q) = contents q ++ [cell q (m_maximumReadIndex q)].
Proof.
  intros Hle ->. unfold contents. simpl. replace (m_maximumReadIndex q + 1 - m_readIndex q) with (m_maximumReadIndex q - m_readIndex q + 1) by lia.
  rewrite seqZ_app by lia. rewrite fmap_app. f_equal. 
  by replace (m_readIndex q + (m_maximumReadIndex q - m_readIndex q)) with (m_maximumReadIndex q) by lia.
Qed.

Lemma contents_take q r : m_readIndex q < m_maximumReadIndex q → r = m_readIndex q + 1 →
  contents q = cell q (m_readIndex q) :: contents (with_readIndex r q).
Proof.
  intros Hlt ->. unfold contents. simpl. rewrite seqZ_cons by lia. simpl. f_equal. f_equal. f_equal; lia.
Qed.

Lemma contents_length q : m_readIndex q ≤ m_maximumReadIndex q → Z.of_nat (length (contents q)) = m_maximumReadIndex q - m_readIndex q.
Proof. intros H. unfold contents. rewrite length_fmap, length_seqZ. lia. Qed.

(** One thread goes on: the others still know what they knew, and the reserved indices change hands. *)
Lemma inv_move s i p q' p' com tak : inv s → threads s !! i = Some p →
  Z.of_nat (length (m_thequeue q')) = Q_SIZE → 0 ≤ m_readIndex q' ≤ m_maximumReadIndex q' →
  m_maximumReadIndex q' ≤ m_writeIndex q' < m_readIndex q' + Q_SIZE → m_writeIndex q' < 2 ^ 64 →
  com = tak ++ contents q' → knows q' p' →
  (∀ j pj, j ≠ i → threads s !! j = Some pj → knows q' pj) →
  (∀ w, m_maximumReadIndex q' ≤ w < m_writeIndex q' ↔
    m_maximumReadIndex (queue s) ≤ w < m_writeIndex (queue s) ∧ owns p ≠ Some w ∨ owns p' = Some w) →
  (∀ w, owns p' = Some w → owns p = Some w ∨ ¬ (m_maximumReadIndex (queue s) ≤ w < m_writeIndex (queue s))) →
  inv (Sys q' (<[i := p']> (threads s)) com tak).
Proof.
  intros HI Hi Hlen Hrd Hwr Hw64 Hlog Hk Hothers Hown Hnew.
  assert (i < length (threads s))%nat as Hlt by by eapply lookup_lt_Some.
  assert (∀ j pj, <[i := p']> (threads s) !! j = Some pj → j = i ∧ pj = p' ∨ j ≠ i ∧ threads s !! j = Some pj) as Hl.
  { intros j pj Hj. destruct (decide (j = i)) as [->|Hne]; [|rewrite list_lookup_insert_ne in Hj by done; auto].
    rewrite list_lookup_insert_eq in Hj by done. injection Hj as <-. auto. }
  assert (∀ j pj w, j ≠ i → threads s !! j = Some pj → owns pj = Some w → owns p' ≠ Some w) as Hdisj.
  { intros j pj w Hne Hj Hw Hw'. destruct (Hnew w Hw') as [Hp|Hout]; [apply Hne; by eapply (inv_unique s HI)|].
    apply Hout, (inv_owned s HI). eauto. }
  split; simpl; [done|done|done|done|done| | |].
  - intros j pj Hj. destruct (Hl j pj Hj) as [[-> ->]|[Hne Hj']]; [done|by eapply Hothers].
  - intros w. rewrite Hown. split.
    + intros [[Hw Hp]|Hw]; [|exists i, p'; split; [by apply list_lookup_insert_eq|done]].
      apply (inv_owned s HI) in Hw as (j & pj & Hj & Hw). exists j, pj. rewrite list_lookup_insert_ne; [done|]. intros <-. congruence.
    + intros (j & pj & Hj & Hw). destruct (Hl j pj Hj) as [[-> ->]|[Hne Hj']]; [by right|left]. split.
      * apply (inv_owned s HI). eauto.
      * intros Hp. apply Hne. by eapply (inv_unique s HI).
  - intros j k pj pk w Hj Hk' Hwj Hwk. destruct (Hl j pj Hj) as [[-> ->]|[Hne Hj']], (Hl k pk Hk') as [[-> ->]|[Hne' Hk'']]; try done.
    + by destruct (Hdisj k pk w).
    + by destruct (Hdisj j pj w).
    + by eapply (inv_unique s HI).
Qed.

(** The queue stays as it is. *)
Lemma inv_look s i p p' : inv s → threads s !! i = Some p → owns p' = owns p → knows (queue s) p' →
  inv (Sys (queue s) (<[i := p']> (threads s)) (committed s) (taken s)).
Proof.
  intros HI Hi Ho Hk. pose proof HI as [H1 H2 H3 H4 H5 H6 H7 H8]. apply (inv_move s i p); try done.
  - intros j pj _ Hj. by apply (H6 j).
  - intros w. rewrite Ho. split; [|intros [[? _]|Hw]; [done|apply H7; eauto]]. intros Hw.
    destruct (decide (owns p = Some w)); auto.
  - intros w Hw. left. congruence.
Qed.

(** An element of the abstract queue is added at the end or taken from the front, and there are never as many as cells. *)
Definition fifo (l : list Z) (a : label) (l' : list Z) : Prop :=
  match a with
  | Commit x => l' = l ++ [x] ∧ Z.of_nat (length l) < Q_SIZE - 1
  | Take x => l = x :: l'
  | _ => l' = l
  end.

Lemma enqueue_ok s i p : inv s → m_writeIndex (queue s) < 2 ^ 64 - 1 → threads s !! i = Some p →
  ∃ q' p' l, enqueue_step (queue s) p = Ok (q', p', l) ∧
    inv (observe l (Sys q' (<[i := p']> (threads s)) (committed s) (taken s))) ∧ fifo (contents (queue s)) l (contents q').
Proof.
  intros HI Hw64 Hi. pose proof (inv_knows s HI i p Hi) as Hk. pose proof HI as [H1 H2 H3 H4 H5 H6 H7 H8].
  assert (∀ p', owns p' = owns p → knows (queue s) p' → inv (Sys (queue s) (<[i := p']> (threads s)) (committed s) (taken s))) as Hlook
    by (intros p' ??; by apply (inv_look s i p)).
  destruct p as [|x|x w|x w|x w|x w|x| |r|r|r x|x]; cbn [enqueue_step]; try (eexists _, _, Quiet; split; [done|]; split; [by apply Hlook|done]).
  - eexists _, _, Quiet. split; [done|]. split; [|done]. apply Hlook; [done|]. simpl. lia.
  - simpl in Hk. destruct (Z.eqb_spec (countToIndex (u64 (w + 1))) (countToIndex (m_readIndex (queue s)))) as [E|Hne].
    + eexists _, _, (Full x). split; [done|]. split; [by apply Hlook|done].
    + eexists _, _, Quiet. split; [done|]. split; [|done]. apply Hlook; [done|]. simpl. split; [done|]. intros ->.
      rewrite u64_small in Hne by lia. destruct (decide (m_writeIndex (queue s) - m_readIndex (queue s) = Q_SIZE - 1)) as [E|?]; [|lia].
      exfalso. apply Hne. unfold countToIndex. replace (m_writeIndex (queue s) + 1) with (m_readIndex (queue s) + 1 * Q_SIZE) by lia.
      by apply Z_mod_plus_full.
  - simpl in Hk. destruct (Z.eqb_spec (m_writeIndex (queue s)) w) as [<-|Hne].
    + eexists _, _, Quiet. split; [done|]. rewrite u64_small by lia. split; [|done]. apply (inv_move s i (Enqueue3 x (m_writeIndex (queue s)))); simpl; try done.
      * lia.
      * lia.
      * intros j pj _ Hj. specialize (H6 j pj Hj). destruct pj; simpl in *; try done; lia.
      * intros w. split; [|intros [[? _]|[= <-]]; lia]. intros Hw. destruct (decide (w = m_writeIndex (queue s))) as [->|]; [by right|left].
        split; [lia|done].
      * intros w [= <-]. right. lia.
    + eexists _, _, Quiet. split; [done|]. split; [by apply Hlook|done].
  - assert (m_maximumReadIndex (queue s) ≤ w < m_writeIndex (queue s)) as Hw by (apply H7; eauto).
    pose proof (countToIndex_range w) as Hr. unfold aset. rewrite (proj2 (Z.leb_le _ _)), (proj2 (Z.ltb_lt _ _)) by lia. simpl (_ && _). cbn iota.
    rewrite ok_bind. set (a := <[_ := _]> _).
    assert (∀ v, - Q_SIZE < v - w < Q_SIZE → v ≠ w → cell (with_thequeue a (queue s)) v = cell (queue s) v) as Hcell.
    { intros v Hv Hne. rewrite (cell_store (queue s) a w x v H1 eq_refl). destruct (decide _) as [E|]; [|done]. by apply countToIndex_inj in E. }
    assert (contents (with_thequeue a (queue s)) = contents (queue s)) as Hc.
    { unfold contents. simpl. apply list_fmap_ext. intros k v Hv. apply list_elem_of_lookup_2, elem_of_seqZ in Hv. apply Hcell; lia. }
    eexists _, _, Quiet. split; [done|]. split; [|done]. apply (inv_move s i (Enqueue4 x w)); simpl; try done.
    + unfold a. by rewrite length_insert.
    + by rewrite Hc.
    + rewrite (cell_store (queue s) a w x w H1 eq_refl). by destruct (decide _).
    + intros j pj Hne Hj. specialize (H6 j pj Hj). destruct pj as [|y|y v|y v|y v|y v|y| |r|r|r y|y]; simpl in *; try done.
      * assert (m_maximumReadIndex (queue s) ≤ v < m_writeIndex (queue s)) as Hv by (apply H7; eauto). rewrite Hcell; [done|lia|].
        intros ->. apply Hne. by eapply H8.
      * split; [lia|]. intros E. destruct H6 as [_ [Hlt Hx]]; [done|]. split; [done|]. rewrite Hcell; [done|lia|lia].
    + intros v. split; [|intros [[? _]|[= <-]]; [done|lia]]. intros Hv. destruct (decide (v = w)) as [->|]; [by right|left]. split; [done|congruence].
    + intros v [= <-]. by left.
  - assert (m_maximumReadIndex (queue s) ≤ w < m_writeIndex (queue s)) as Hw by (apply H7; eauto). simpl in Hk.
    destruct (Z.eqb_spec (m_maximumReadIndex (queue s)) w) as [<-|Hne]; [|eexists _, _, Quiet; split; [done|]; split; [by apply Hlook|done]].
    rewrite u64_small by lia. assert (contents (with_maximumReadIndex (m_maximumReadIndex (queue s) + 1) (queue s)) = contents (queue s) ++ [x]) as Hc.
    { rewrite contents_commit by (done || lia). by rewrite Hk. }
    eexists _, _, (Commit x). split; [done|]. split; [|split; [done|rewrite contents_length by lia; lia]].
    apply (inv_move s i (Enqueue5 x (m_maximumReadIndex (queue s))) _ (Enqueue6 x) (committed s ++ [x]) (taken s)); simpl; try done.
    + lia.
    + lia.
    + by rewrite Hc, H5, <-app_assoc.
    + intros j pj _ Hj. specialize (H6 j pj Hj). destruct pj; simpl in *; try done; lia || idtac. destruct H6 as [? H6]. split; [done|].
      intros E. destruct (H6 E). split; [lia|done].
    + intros w. split; [|intros [[? Hne]|?]; [|done]].
      * intros Hv. left. split; [lia|]. intros [= E]. lia.
      * assert (w ≠ m_maximumReadIndex (queue s)) by congruence. lia.
  - eexists _, _, (Enqueued x). split; [done|]. split; [|done]. apply (inv_move s i (Enqueue6 x)); simpl; try done.
    + intros j pj _ Hj. by apply (H6 j).
    + intros w. split; [|intros [[? _]|?]; done]. intros Hv. by left.
Qed.

Lemma dequeue_ok s i p : inv s → threads s !! i = Some p →
  ∃ q' p' l, dequeue_step (queue s) p = Ok (q', p', l) ∧
    inv (observe l (Sys q' (<[i := p']> (threads s)) (committed s) (taken s))) ∧ fifo (contents (queue s)) l (contents q').
Proof.
  intros HI Hi. pose proof (inv_knows s HI i p Hi) as Hk. pose proof HI as [H1 H2 H3 H4 H5 H6 H7 H8].
  assert (∀ p', owns p' = owns p → knows (queue s) p' → inv (Sys (queue s) (<[i := p']> (threads s)) (committed s) (taken s))) as Hlook
    by (intros p' ??; by apply (inv_look s i p)).
  destruct p as [|x|x w|x w|x w|x w|x| |r|r|r x|x]; cbn [dequeue_step]; try (eexists _, _, Quiet; split; [done|]; split; [by apply Hlook|done]).
  - eexists _, _, Quiet. split; [done|]. split; [|done]. apply Hlook; [done|]. simpl. lia.
  - simpl in Hk. destruct (Z.eqb_spec (countToIndex r) (countToIndex (m_maximumReadIndex (queue s)))) as [E|Hne].
    + eexists _, _, Empty. split; [done|]. split; [by apply Hlook|done].
    + eexists _, _, Quiet. split; [done|]. split; [|done]. apply Hlook; [done|]. simpl. split; [done|]. intros ->.
      destruct (decide (m_readIndex (queue s) = m_maximumReadIndex (queue s))) as [E|?]; [by rewrite E in Hne|lia].
  - simpl in Hk. pose proof (countToIndex_range r) as Hr. unfold aget. rewrite (proj2 (Z.leb_le _ _)) by lia.
    destruct (lookup_lt_is_Some_2 (m_thequeue (queue s)) (Z.to_nat (countToIndex r))) as [x Hx]; [lia|]. rewrite Hx. simpl (get_or _ _). rewrite ok_bind.
    eexists _, _, Quiet. split; [done|]. split; [|done]. apply Hlook; [done|]. simpl. split; [lia|]. intros E. split; [by apply Hk|].
    unfold cell. by rewrite Hx.
  - simpl in Hk. destruct (Z.eqb_spec (m_readIndex (queue s)) r) as [<-|Hne].
    + destruct Hk as [_ [Hlt Hx]]; [done|]. rewrite u64_small by lia. pose proof (contents_take (queue s) _ Hlt eq_refl) as Hc. rewrite Hx in Hc.
      eexists _, _, (Take x). split; [done|]. split; [|exact Hc].
      apply (inv_move s i (Dequeue4 (m_readIndex (queue s)) x) _ (Dequeue5 x) (committed s) (taken s ++ [x])); simpl; try done.
      * lia.
      * lia.
      * by rewrite H5, Hc, <-app_assoc.
      * intros j pj _ Hj. specialize (H6 j pj Hj). destruct pj; simpl in *; try done; lia.
      * intros w. split; [|intros [[? _]|?]; done]. intros Hv. by left.
    + eexists _, _, Quiet. split; [done|]. split; [by apply Hlook|done].
  - eexists _, _, (Dequeued x). split; [done|]. split; [|done]. apply (inv_move s i (Dequeue5 x)); simpl; try done.
    + intros j pj _ Hj. by apply (H6 j).
    + intros w. split; [|intros [[? _]|?]; done]. intros Hv. by left.
Qed.

Lemma step_ok s l r : inv s → m_writeIndex (queue s) < 2 ^ 64 - 1 → step s l r →
  ∃ s', r = Ok s' ∧ inv s' ∧ fifo (contents (queue s)) l (contents (queue s')).
Proof.
  assert (∀ i p, inv s → m_writeIndex (queue s) < 2 ^ 64 - 1 → threads s !! i = Some p →
    ∃ q' p' l, advance (queue s) p = Ok (q', p', l) ∧
      inv (observe l (Sys q' (<[i := p']> (threads s)) (committed s) (taken s))) ∧ fifo (contents (queue s)) l (contents q')) as Hadv.
  { intros i p HI Hw Hi. destruct p; cbn [advance]; by apply enqueue_ok || by apply dequeue_ok. }
  intros HI Hw [i x Hi|i Hi|i p q' p' a Hi _ E|i p e Hi _ E].
  - eexists. split; [done|]. split; [|done]. by apply (inv_look s i Outside).
  - eexists. split; [done|]. split; [|done]. by apply (inv_look s i Outside).
  - destruct (Hadv i p HI Hw Hi) as (q1 & p1 & l1 & E1 & HI1 & Hf). rewrite E in E1. injection E1 as <- <- <-.
    eexists. split; [done|]. split; [done|]. by destruct a.
  - destruct (Hadv i p HI Hw Hi) as (q1 & p1 & l1 & E1 & _). congruence.
Qed.

Lemma reachable_knows s : reachable s → inv s.
Proof.
  induction 1 as [storage n Hs|s l s' _ IH Hw Hst].
  - split; simpl; [done|lia|lia|lia| | | |].
    + done.
    + intros i p Hi. apply lookup_replicate in Hi as [-> _]. done.
    + intros w. split; [lia|]. intros (i & p & Hi & Hp). apply lookup_replicate in Hi as [-> _]. done.
    + intros i j p p' w Hi _ Hp. apply lookup_replicate in Hi as [-> _]. done.
  - destruct (step_ok s l (Ok s') IH Hw Hst) as (s1 & [= <-] & HI & _). done.
Qed.

(** ** Schedules *)

(** What a thread is made to do. *)
Inductive act : Type := CallEnqueue (x : Z) | CallDequeue | Go.

Definition play1 s (i : nat) (a : act) : option system :=
  match threads s !! i with
  | None => None
  | Some p =>
      let goto p := Some (Sys (queue s) (<[i := p]> (threads s)) (committed s) (taken s)) in
      if decide (m_writeIndex (queue s) < 2 ^ 64 - 1) then
        match a, p with
        | CallEnqueue x, Outside => goto (Enqueue1 x)
        | CallDequeue, Outside => goto Dequeue1
        | CallEnqueue _, _ | CallDequeue, _ | Go, Outside => None
        | Go, _ => match advance (queue s) p with
                   | Ok (q', p', l) => Some (observe l (Sys q' (<[i := p']> (threads s)) (committed s) (taken s)))
                   | Err _ => None
                   end
        end
      else None
  end.

Fixpoint play s (schedule : list (nat * act)) : option system :=
  match schedule with [] => Some s | (i, a) :: rest => s ← play1 s i a; play s rest end.

Lemma play_reachable schedule : ∀ s s', reachable s → play s schedule = Some s' → reachable s'.
Proof.
  induction schedule as [|[i a] rest IH]; intros s s' Hs; cbn [play]; [by intros [= <-]|].
  destruct (play1 s i a) as [s1|] eqn:E; [|done]. apply IH. unfold play1 in E. destruct (threads s !! i) as [p|] eqn:Hi; [|done].
  destruct (decide _) as [Hw|]; [|done].
  assert (∀ q' p' l, p ≠ Outside → advance (queue s) p = Ok (q', p', l) →
    reachable (observe l (Sys q' (<[i := p']> (threads s)) (committed s) (taken s)))) as Hgo.
  { intros q' p' l Hp Ha. eapply reachable_step; [exact Hs|exact Hw|by eapply step_advance]. }
  destruct a, p; try done; try (injection E as <-; eapply reachable_step; [exact Hs|exact Hw|by constructor]).
  all: destruct (advance _ _) as [[[q' p'] l]|] eqn:Ha; [|done]; injection E as <-; by apply Hgo.
Qed.

(** ** What the queue promises *)

(** C16: Whatever any number of threads do, in any order: no access is outside the array, and the shared queue behaves as a
    bounded first-in, first-out queue of less than Q_SIZE elements.  An element is added when its
    thread's compare-and-swap of m_maximumReadIndex succeeds, the element taken when that of
    m_readIndex does is the oldest one, and no other step changes the queue. *)
Theorem queue_refines_fifo s l r : reachable s → m_writeIndex (queue s) < 2 ^ 64 - 1 → step s l r →
  ∃ s', r = Ok s' ∧ fifo (contents (queue s)) l (contents (queue s')).
Proof.
  intros Hs Hw Hst. destruct (step_ok s l r (reachable_knows s Hs) Hw Hst) as (s' & E & _ & Hf). by exists s'.
Qed.

(** Nothing is lost, taken twice or out of order: the elements taken so far, followed by those in the queue, are the
    elements committed so far, in their order. *)
Theorem taken_in_order s : reachable s →
  committed s = taken s ++ contents (queue s) ∧ Z.of_nat (length (contents (queue s))) < Q_SIZE.
Proof.
  intros Hs. pose proof (reachable_knows s Hs) as HI. split; [apply HI|]. pose proof (inv_read s HI). pose proof (inv_write s HI).
  rewrite contents_length by lia. lia.
Qed.

(** When enqueue and dequeue return false: enqueue finds Q_SIZE - 1 indices reserved and not yet taken, and dequeue finds nothing
    committed, or else the index read first has been moved on by another thread between the two reads. *)
Theorem false_when_full_or_empty s i p q' p' l : reachable s → m_writeIndex (queue s) < 2 ^ 64 - 1 → threads s !! i = Some p →
  advance (queue s) p = Ok (q', p', l) →
  match l with
  | Full _ => m_writeIndex (queue s) - m_readIndex (queue s) = Q_SIZE - 1 ∨
      ∃ x w, p = Enqueue2 x w ∧ w < m_writeIndex (queue s)
  | Empty => contents (queue s) = [] ∨ ∃ r, p = Dequeue2 r ∧ r < m_readIndex (queue s)
  | _ => True
  end.
Proof.
  intros Hs Hw64 Hi. pose proof (reachable_knows s Hs) as HI. pose proof (inv_knows s HI i p Hi) as Hk.
  pose proof (inv_read s HI). pose proof (inv_write s HI).
  destruct p as [|x|x w|x w|x w|x w|x| |r|r|r x|x]; cbn [advance enqueue_step dequeue_step]; simpl in Hk; try by intros [= <- <- <-].
  - destruct (Z.eqb_spec (countToIndex (u64 (w + 1))) (countToIndex (m_readIndex (queue s)))) as [E|_]; intros [= <- <- <-]; [|done].
    destruct (decide (w < m_writeIndex (queue s))); [right; eauto|left]. rewrite u64_small in E by lia.
    destruct (decide (m_writeIndex (queue s) - m_readIndex (queue s) = Q_SIZE - 1)); [done|]. apply countToIndex_inj in E; lia.
  - destruct (m_writeIndex (queue s) =? w); by intros [= <- <- <-].
  - destruct (aset _ _ _); rewrite ?ok_bind; by intros [= <- <- <-].
  - destruct (m_maximumReadIndex (queue s) =? w); by intros [= <- <- <-].
  - destruct (Z.eqb_spec (countToIndex r) (countToIndex (m_maximumReadIndex (queue s)))) as [E|_]; intros [= <- <- <-]; [|done].
    destruct (decide (r < m_readIndex (queue s))); [right; eauto|left]. assert (r = m_maximumReadIndex (queue s)) as Er.
    { apply countToIndex_inj in E; lia. }
    apply length_zero_iff_nil. pose proof (contents_length (queue s)). lia.
  - destruct (aget _ _); rewrite ?ok_bind; by intros [= <- <- <-].
  - destruct (m_readIndex (queue s) =? r); by intros [= <- <- <-].
Qed.

(** An index that has been reserved is never forgotten: while there is one, exactly one thread owns the next to be
    committed, and it commits it within its next two steps.  Until it does, however long it is
    stopped, no step of the others makes anything readable: the queue is not free of blocking, as its name says. *)
Theorem next_commit_owned s : reachable s → m_writeIndex (queue s) < 2 ^ 64 - 1 → m_maximumReadIndex (queue s) < m_writeIndex (queue s) →
  ∃ i p, threads s !! i = Some p ∧
    (∃ x, p = Enqueue5 x (m_maximumReadIndex (queue s)) ∨ p = Enqueue4 x (m_maximumReadIndex (queue s))) ∧
    (∃ q1 p1 q2 p2 l x, advance (queue s) p = Ok (q1, p1, l) ∧ (l = Commit x ∨ l = Quiet ∧ advance q1 p1 = Ok (q2, p2, Commit x))) ∧
    ∀ j pj q' p' l, j ≠ i → threads s !! j = Some pj → advance (queue s) pj = Ok (q', p', l) →
      m_maximumReadIndex q' = m_maximumReadIndex (queue s).
Proof.
  intros Hs Hw64 Hlt. pose proof (reachable_knows s Hs) as HI. pose proof (inv_length s HI) as Hlen.
  destruct (proj1 (inv_owned s HI (m_maximumReadIndex (queue s)))) as (i & p & Hi & Hp); [lia|]. exists i, p. split; [done|].
  split; [destruct p; try done; simpl in Hp; injection Hp as ->; eauto|]. split.
  - destruct p as [|x|x w|x w|x w|x w|x| |r|r|r x|x]; try done; simpl in Hp; injection Hp as ->; cbn [advance enqueue_step].
    + pose proof (countToIndex_range (m_maximumReadIndex (queue s))). unfold aset. rewrite (proj2 (Z.leb_le _ _)), (proj2 (Z.ltb_lt _ _)) by lia.
      simpl (_ && _). cbn iota. rewrite ok_bind. eexists _, _, _, _, Quiet, x. split; [done|]. right. split; [done|]. cbn [advance enqueue_step].
      simpl (m_maximumReadIndex _). rewrite Z.eqb_refl. done.
    + rewrite Z.eqb_refl. eexists _, _, (queue s), Outside, (Commit x), x. split; [done|]. by left.
  - intros j pj q' p' l Hne Hj.
    destruct pj as [|x|x w|x w|x w|x w|x| |r|r|r x|x]; cbn [advance enqueue_step dequeue_step]; try by intros [= <- <- <-].
    + destruct (_ =? _); by intros [= <- <- <-].
    + destruct (_ =? _); by intros [= <- <- <-].
    + destruct (aset _ _ _); rewrite ?ok_bind; by intros [= <- <- <-].
    + destruct (Z.eqb_spec (m_maximumReadIndex (queue s)) w) as [E|_]; [|by intros [= <- <- <-]]. exfalso. apply Hne.
      apply (inv_unique s HI j i (Enqueue5 x w) p w Hj Hi eq_refl). congruence.
    + destruct (_ =? _); by intros [= <- <- <-].
    + destruct (aget _ _); rewrite ?ok_bind; by intros [= <- <- <-].
    + destruct (_ =? _); by intros [= <- <- <-].
Qed.

End queue.
(** ** Particular schedules *)

(** A thread with nothing else going on. *)
Definition enqueue_alone (i : nat) (x : Z) : list (nat * act) := (i, CallEnqueue x) :: replicate 6 (i, Go).
Definition dequeue_alone (i : nat) : list (nat * act) := (i, CallDequeue) :: replicate 5 (i, Go).
Definition start (n : nat) (storage : list Z) : system := Sys (new_queue storage) (replicate n Outside) [] [].

(** dequeue may find the queue empty although it never was while it ran, from the read of m_maximumReadIndex on, nor before: a
    thread reads m_readIndex, and the others move both indices on by as many as there are cells in between. *)
Lemma empty_by_mistake : ∃ s q' p', reachable 2 s ∧ threads s !! 0%nat = Some (Dequeue2 0) ∧ contents 2 (queue s) = [8] ∧
  advance 2 (queue s) (Dequeue2 0) = Ok (q', p', Empty).
Proof.
  set (schedule := enqueue_alone 1 7 ++ [(0, CallDequeue); (0, Go)]%nat ++ dequeue_alone 1 ++ enqueue_alone 1 8).
  destruct (play 2 (start 2 [0; 0]) schedule) as [s|] eqn:E; [|by vm_compute in E].
  assert (reachable 2 s) as Hs by (eapply play_reachable; [by apply (reachable_start 2 [0; 0] 2)|exact E]).
  vm_compute in E. injection E as <-. eexists _, _, _. split; [exact Hs|]. split; [done|]. split; [done|]. vm_compute. done.
Qed.

(** The default size is 2^16 - 1, not 2^16: when the indices wrap around, two that follow each other have the same
    cell. *)
Lemma wrapped_index_collides : countToIndex 65535 (2 ^ 64 - 1) = countToIndex 65535 (u64 (2 ^ 64 - 1 + 1)).
Proof. done. Qed.

(** With a power of two they have not. *)
Lemma power_of_two_does_not : countToIndex 65536 (u64 (2 ^ 64 - 1 + 1)) = countToIndex 65536 (2 ^ 64 - 1 + 1).
Proof. done. Qed.

(** ** Witnesses *)

(** The state a schedule leads to, in an array of three cells with two threads. *)
Definition after (schedule : list (nat * act)) : system := default (start 2 [0; 0; 0]) (play 3 (start 2 [0; 0; 0]) schedule).

Lemma after_reachable schedule : reachable 3 (after schedule).
Proof.
  unfold after. pose proof (reachable_start 3 [0; 0; 0] 2 eq_refl) as H0. destruct (play 3 (start 2 [0; 0; 0]) schedule) as [s|] eqn:E; [|exact H0].
  eapply play_reachable; [exact H0|exact E].
Qed.

(** An element in the queue, and a second about to be committed. *)
Definition committing : system := after (enqueue_alone 0 7 ++ take 5 (enqueue_alone 1 8)).

Lemma queue_refines_fifo_witness : threads committing !! 1%nat = Some (Enqueue5 8 1) ∧ contents 3 (queue committing) = [7] ∧
  ∃ s', Ok (observe (Commit 8) (Sys (with_maximumReadIndex 2 (queue committing)) (<[1%nat := Enqueue6 8]> (threads committing)) (committed committing) (taken committing)))
    = Ok s' ∧ contents 3 (queue s') = [7; 8] ∧ 1 < 2.
Proof.
  split; [reflexivity|]. split; [reflexivity|].
  refine (queue_refines_fifo 3 eq_refl committing (Commit 8) _ (after_reachable _) eq_refl _).
  apply (step_advance 3 committing 1 (Enqueue5 8 1)); [reflexivity|done|reflexivity].
Defined.

Lemma taken_in_order_witness : taken (after (enqueue_alone 0 7 ++ enqueue_alone 1 8 ++ dequeue_alone 0)) = [7] ∧
  [7; 8] = [7] ++ contents 3 (queue (after (enqueue_alone 0 7 ++ enqueue_alone 1 8 ++ dequeue_alone 0))) ∧
  Z.of_nat (length (contents 3 (queue (after (enqueue_alone 0 7 ++ enqueue_alone 1 8 ++ dequeue_alone 0))))) < 3.
Proof.
  split; [reflexivity|]. exact (taken_in_order 3 eq_refl (after (enqueue_alone 0 7 ++ enqueue_alone 1 8 ++ dequeue_alone 0)) (after_reachable _)).
Defined.

(** Two elements in the queue, and a thread that is about to find it full. *)
Definition full : system := after (enqueue_alone 0 7 ++ enqueue_alone 1 8 ++ [(0, CallEnqueue 9); (0, Go)]%nat).

Lemma false_when_full_or_empty_witness : threads full !! 0%nat = Some (Enqueue2 9 2) ∧
  (m_writeIndex (queue full) - m_readIndex (queue full) = 3 - 1 ∨ ∃ x w, Enqueue2 9 2 = Enqueue2 x w ∧ w < m_writeIndex (queue full)).
Proof.
  split; [reflexivity|].
  exact (false_when_full_or_empty 3 eq_refl full 0 (Enqueue2 9 2) (queue full) Outside (Full 9) (after_reachable _) eq_refl eq_refl eq_refl).
Defined.

Lemma next_commit_owned_witness : ∃ i p, threads committing !! i = Some p ∧
  (∃ x, p = Enqueue5 x 1 ∨ p = Enqueue4 x 1) ∧
  (∃ q1 p1 q2 p2 l x, advance 3 (queue committing) p = Ok (q1, p1, l) ∧ (l = Commit x ∨ l = Quiet ∧ advance 3 q1 p1 = Ok (q2, p2, Commit x))) ∧
  ∀ j pj q' p' l, j ≠ i → threads committing !! j = Some pj → advance 3 (queue committing) pj = Ok (q', p', l) →
    m_maximumReadIndex q' = 1.
Proof.
  exact (next_commit_owned 3 eq_refl committing (after_reachable _) eq_refl eq_refl).
Defined.

End LockFree.
