(* ===== verification/RedisAdapter.v ===== *)
(** * The event loop of the Redis client, 6.4mysql_connect_pool/connect_pool/redis-async

    reactor.h and adapter.h, by which hiredis is told when a connection can be read and written.  hiredis itself is a
    library: which hooks it calls while it handles a connection is an argument. *)

From S2P Require Import Prelude.

Module RedisAdapter.

(** ** Data *)

Definition EPOLLIN : Z := 1.
Definition EPOLLOUT : Z := 4.
Definition EPOLLERR : Z := 8.
Definition EPOLLHUP : Z := 16.

(** A member of type [event_callback_fn]: null, one of the adapter's functions or another, or what malloc has left there. *)
Inductive event_callback_fn : Type := Null | redisReadHandler | redisWriteHandler | Other (f : Z) | Junk.

(* src: 6.4mysql_connect_pool/connect_pool/redis-async/reactor.h:37-43 event_t *)
Record event_t : Type := Event {
  fd : Z;
  read_fn : event_callback_fn;
  write_fn : event_callback_fn;
  accept_fn : event_callback_fn
}.

(* src: 6.4mysql_connect_pool/connect_pool/redis-async/adapter.h:8-12 redis_event_t *)
Record redis_event_t : Type := RedisEvent {
  e : event_t;
  mask : Z;
  ctx : Z
}.

(** Of a [redisAsyncContext]: the descriptor and [ev.data]. *)
Record redisAsyncContext : Type := Context { c_fd : Z; ev_data : Z }.

(** A callback that was called, with its event and the mask. *)
Inductive call : Type := Called (f : event_callback_fn) (ptr ev : Z).

(** The reactor, the events and contexts in memory, and the set registered with [epfd]: for a descriptor the events
    waited for and the pointer. *)
(* src: 6.4mysql_connect_pool/connect_pool/redis-async/reactor.h:14-19 reactor_t *)
Record world : Type := World {
  listenfd : Z;
  stop : bool;
  epoll : gmap Z (Z * Z);
  events : gmap Z redis_event_t;
  ctxs : gmap Z redisAsyncContext;
  calls : list call
}.

Definition with_stop v W := World (listenfd W) v (epoll W) (events W) (ctxs W) (calls W).
Definition with_epoll v W := World (listenfd W) (stop W) v (events W) (ctxs W) (calls W).
Definition with_events v W := World (listenfd W) (stop W) (epoll W) v (ctxs W) (calls W).
Definition with_ctxs v W := World (listenfd W) (stop W) (epoll W) (events W) v (calls W).
Definition log c W := World (listenfd W) (stop W) (epoll W) (events W) (ctxs W) (calls W ++ [c]).

Definition with_mask v re := RedisEvent (e re) v (ctx re).
Definition with_read v re := RedisEvent (Event (fd (e re)) v (write_fn (e re)) (accept_fn (e re))) (mask re) (ctx re).
Definition with_write v re := RedisEvent (Event (fd (e re)) (read_fn (e re)) v (accept_fn (e re))) (mask re) (ctx re).

Definition rd {A} (m : gmap Z A) (p : Z) : res A := if p =? 0 then Err NullDeref else get_or UseAfterFree (m !! p).
Definition wr (W : world) (p : Z) (f : redis_event_t → redis_event_t) : res world :=
  re ← rd (events W) p; Ok (with_events (<[p := f re]> (events W)) W).

(** The hooks that hiredis calls. *)
Inductive hook : Type := AddRead | DelRead | AddWrite | DelWrite | Cleanup.

(** ** The reactor *)

(** A new reactor; the address and the descriptor are the answers of malloc and epoll_create. *)
(* src: 6.4mysql_connect_pool/connect_pool/redis-async/reactor.h:21-28 create_reactor *)
Definition create_reactor (r : Z) : res world :=
  if r =? 0 then Err NullDeref else Ok (World 0 false ∅ ∅ ∅ []).

(** [epoll_ctl] refuses a descriptor that is registered already. *)
(* src: 6.4mysql_connect_pool/connect_pool/redis-async/reactor.h:46-54 add_event *)
Definition add_event (W : world) (fd ev privdata : Z) : world * Z :=
  match epoll W !! fd with Some _ => (W, 1) | None => (with_epoll (<[fd := (ev, privdata)]> (epoll W)) W, 0) end.

(* src: 6.4mysql_connect_pool/connect_pool/redis-async/reactor.h:56-58 del_event *)
Definition del_event (W : world) (fd : Z) : world := with_epoll (delete fd (epoll W)) W.

(* src: 6.4mysql_connect_pool/connect_pool/redis-async/reactor.h:60-68 enable_event *)
Definition enable_event (W : world) (fd privdata readable writeable : Z) : world * Z :=
  let ev := Z.lor (if readable =? 0 then 0 else EPOLLIN) (if writeable =? 0 then 0 else EPOLLOUT) in
  match epoll W !! fd with Some _ => (with_epoll (<[fd := (ev, privdata)]> (epoll W)) W, 0) | None => (W, 1) end.

(* src: 6.4mysql_connect_pool/connect_pool/redis-async/reactor.h:100-102 stop_eventloop *)
Definition stop_eventloop (W : world) : world := with_stop true W.

(** ** The adapter *)

(* src: 6.4mysql_connect_pool/connect_pool/redis-async/adapter.h:31-59 redisEventUpdate *)
Definition redisEventUpdate (W : world) (privdata flag remove : Z) : res world :=
  re ← rd (events W) privdata;
  let prevMask := mask re in
  let update mask' enable :=
    W ← wr W privdata (with_mask mask');
    c ← rd (ctxs W) (ctx re);
    if mask' =? 0 then Ok (del_event W (c_fd c))
    else if prevMask =? 0 then Ok (add_event W (c_fd c) mask' privdata).1
    else if negb (Z.land flag EPOLLIN =? 0) then Ok (enable_event W (c_fd c) privdata enable 0).1
    else if negb (Z.land flag EPOLLOUT =? 0) then Ok (enable_event W (c_fd c) privdata 0 enable).1
    else Ok W in
  if negb (remove =? 0) then
    if Z.land (mask re) flag =? 0 then Ok W else update (Z.land (mask re) (Z.lnot flag)) 0
  else
    if negb (Z.land (mask re) flag =? 0) then Ok W else update (Z.lor (mask re) flag) 1.

(* src: 6.4mysql_connect_pool/connect_pool/redis-async/adapter.h:61-65 redisAddRead *)
Definition redisAddRead (W : world) (privdata : Z) : res world :=
  W ← wr W privdata (with_read redisReadHandler); redisEventUpdate W privdata EPOLLIN 0.

(* src: 6.4mysql_connect_pool/connect_pool/redis-async/adapter.h:67-71 redisDelRead *)
Definition redisDelRead (W : world) (privdata : Z) : res world :=
  W ← wr W privdata (with_read Null); redisEventUpdate W privdata EPOLLIN 1.

(* src: 6.4mysql_connect_pool/connect_pool/redis-async/adapter.h:73-77 redisAddWrite *)
Definition redisAddWrite (W : world) (privdata : Z) : res world :=
  W ← wr W privdata (with_write redisWriteHandler); redisEventUpdate W privdata EPOLLOUT 0.

(* src: 6.4mysql_connect_pool/connect_pool/redis-async/adapter.h:79-83 redisDelWrite *)
Definition redisDelWrite (W : world) (privdata : Z) : res world :=
  W ← wr W privdata (with_write Null); redisEventUpdate W privdata EPOLLOUT 1.

(* src: 6.4mysql_connect_pool/connect_pool/redis-async/adapter.h:85-90 redisCleanup *)
Definition redisCleanup (W : world) (privdata : Z) : res world :=
  re ← rd (events W) privdata;
  c ← rd (ctxs W) (ctx re);
  Ok (with_events (delete privdata (events W)) (del_event W (c_fd c))).

(** [re] is the answer of hi_malloc, which leaves the callbacks as they are; -1 is REDIS_ERR. *)
(* src: 6.4mysql_connect_pool/connect_pool/redis-async/adapter.h:92-117 redisAttach *)
Definition redisAttach (W : world) (ac re : Z) : res (world * Z) :=
  c ← rd (ctxs W) ac;
  if negb (ev_data c =? 0) then Ok (W, -1)
  else if re =? 0 then Ok (W, -1)
  else
    let W := with_events (<[re := RedisEvent (Event (c_fd c) Junk Junk Junk) 0 ac]> (events W)) W in
    Ok (with_ctxs (<[ac := Context (c_fd c) re]> (ctxs W)) W, 0).

Definition run_hook (W : world) (ac : Z) (h : hook) : res world :=
  c ← rd (ctxs W) ac;
  match h with
  | AddRead => redisAddRead W (ev_data c)
  | DelRead => redisDelRead W (ev_data c)
  | AddWrite => redisAddWrite W (ev_data c)
  | DelWrite => redisDelWrite W (ev_data c)
  | Cleanup => redisCleanup W (ev_data c)
  end.

Fixpoint run_hooks (W : world) (ac : Z) (hs : list hook) : res world :=
  match hs with [] => Ok W | h :: hs => W ← run_hook W ac h; run_hooks W ac hs end.

Section loop.
(** What redisAsyncHandleRead and redisAsyncHandleWrite call, for a context and the calls made before. *)
Context (redisAsyncHandleRead redisAsyncHandleWrite : Z → list call → list hook).

(** The two handlers of the adapter; of another callback only the call is recorded.  A call through what malloc has left is
    an access to storage that nobody has written. *)
(* src: 6.4mysql_connect_pool/connect_pool/redis-async/adapter.h:15-29 redisReadHandler *)
Definition callback (W : world) (f : event_callback_fn) (ptr ev : Z) : res world :=
  match f with
  | Null => Ok W
  | Junk => Err UseAfterFree
  | Other _ => Ok (log (Called f ptr ev) W)
  | redisReadHandler => re ← rd (events W) ptr; run_hooks (log (Called f ptr ev) W) (ctx re) (redisAsyncHandleRead (ctx re) (calls W))
  | redisWriteHandler => re ← rd (events W) ptr; run_hooks (log (Called f ptr ev) W) (ctx re) (redisAsyncHandleWrite (ctx re) (calls W))
  end.

Definition mask_of (ev : Z) : Z :=
  let mask := 0 in
  let mask := if Z.land ev EPOLLIN =? 0 then mask else Z.lor mask EPOLLIN in
  let mask := if Z.land ev EPOLLOUT =? 0 then mask else Z.lor mask EPOLLOUT in
  let mask := if Z.land ev EPOLLERR =? 0 then mask else Z.lor mask (Z.lor EPOLLIN EPOLLOUT) in
  if Z.land ev EPOLLHUP =? 0 then mask else Z.lor mask (Z.lor EPOLLIN EPOLLOUT).

(** One event that epoll_wait reports: what has happened, and the pointer registered. *)
(* src: 6.4mysql_connect_pool/connect_pool/redis-async/reactor.h:75-97 eventloop_once *)
Definition dispatch (W : world) (ev ptr : Z) : res world :=
  let mask := mask_of ev in
  W ← (if Z.land mask EPOLLIN =? 0 then Ok W
       else et ← rd (events W) ptr;
            callback W (if fd (e et) =? listenfd W then accept_fn (e et) else read_fn (e et)) ptr mask);
  if Z.land mask EPOLLOUT =? 0 then Ok W
  else et ← rd (events W) ptr; callback W (write_fn (e et)) ptr mask.

(* src: 6.4mysql_connect_pool/connect_pool/redis-async/reactor.h:73-98 eventloop_once *)
Fixpoint eventloop_once (W : world) (evs : list (Z * Z)) : res world :=
  match evs with [] => Ok W | (ev, ptr) :: evs => W ← dispatch W ev ptr; eventloop_once W evs end.

(** [waits] are the answers of epoll_wait, one for each round. *)
(* src: 6.4mysql_connect_pool/connect_pool/redis-async/reactor.h:104-108 eventloop *)
Fixpoint eventloop (W : world) (waits : list (list (Z * Z))) : res world :=
  if stop W then Ok W
  else match waits with [] => Err OutOfFuel | evs :: waits => W ← eventloop_once W evs; eventloop W waits end.

End loop.

(** ** The interest registered *)

(** An attached context: the event [p] and its context are in memory and refer to each other. *)
Record attached (W : world) (p : Z) (re : redis_event_t) (c : redisAsyncContext) : Prop := Attached {
  at_event : events W !! p = Some re;
  at_ctx : ctxs W !! ctx re = Some c;
  at_data : ev_data c = p;
  at_p : p ≠ 0;
  at_c : ctx re ≠ 0;
  at_mask : mask re ∈ [0; EPOLLIN; EPOLLOUT; Z.lor EPOLLIN EPOLLOUT]
}.

Lemma rd_mem {A} (m : gmap Z A) p x : p ≠ 0 → m !! p = Some x → rd m p = Ok x.
Proof. intros H0 Hp. unfold rd. by rewrite (proj2 (Z.eqb_neq _ _)), Hp. Qed.

Lemma wr_live W p re f : p ≠ 0 → events W !! p = Some re → wr W p f = Ok (with_events (<[p := f re]> (events W)) W).
Proof. intros H0 Hp. unfold wr. by rewrite (rd_mem (events W) p re). Qed.

(** The mask that a hook asks for. *)
Definition wanted (m flag remove : Z) : Z := if remove =? 0 then Z.lor m flag else Z.land m (Z.lnot flag).

(** What is registered for the descriptor after a change of the mask from [m] to [m']. *)
Definition interest (old : option (Z * Z)) (p m m' flag remove : Z) : option (Z * Z) :=
  if m' =? m then old
  else if m' =? 0 then None
  else if m =? 0 then match old with None => Some (m', p) | Some _ => old end
  else match old with None => None | Some _ => Some (if remove =? 0 then flag else 0, p) end.

Lemma update_spec W p re c flag remove : attached W p re c → flag ∈ [EPOLLIN; EPOLLOUT] →
  ∃ W', redisEventUpdate W p flag remove = Ok W' ∧ attached W' p (with_mask (wanted (mask re) flag remove) re) c ∧
    epoll W' !! c_fd c = interest (epoll W !! c_fd c) p (mask re) (wanted (mask re) flag remove) flag remove ∧
    ctxs W' = ctxs W ∧ calls W' = calls W ∧ listenfd W' = listenfd W.
Proof.
  intros [Ha Hc Hd Hp Hx Hm] Hf. unfold redisEventUpdate, wanted, interest. rewrite (rd_mem (events W) p re) by done. rewrite ok_bind.
  assert (∀ m' : Z, m' ∈ [0; EPOLLIN; EPOLLOUT; Z.lor EPOLLIN EPOLLOUT] → ∀ W', events W' = <[p := with_mask m' re]> (events W) → ctxs W' = ctxs W →
    attached W' p (with_mask m' re) c) as Hatt.
  { intros m' Hm' W' Ee Ec. split; [rewrite Ee; apply lookup_insert_eq|by rewrite Ec|done|done|done|exact Hm']. }
  assert (with_mask (mask re) re = re) as Eid by by destruct re.
  rewrite !(wr_live W p re) by done. rewrite !ok_bind. simpl (ctxs _). rewrite !(rd_mem (ctxs W) (ctx re) c), !ok_bind by done.
  unfold add_event, enable_event, del_event. simpl (epoll _).
  assert (∀ x, x ∈ [0; EPOLLIN; EPOLLOUT; Z.lor EPOLLIN EPOLLOUT] ↔ x = 0 ∨ x = 1 ∨ x = 4 ∨ x = 5) as Hin.
  { intros x. rewrite !elem_of_cons, elem_of_nil. unfold EPOLLIN, EPOLLOUT. simpl. tauto. }
  rewrite Hin in Hm. assert (flag = 1 ∨ flag = 4) as Hf' by (rewrite !elem_of_cons, elem_of_nil in Hf; unfold EPOLLIN, EPOLLOUT in Hf; tauto).
  destruct (Z.eqb_spec remove 0) as [->|Hr]; simpl (negb _); cbn iota.
  all: destruct Hm as [E|[E|[E|E]]], Hf' as [-> | ->]; rewrite E; simpl;
    destruct (epoll W !! c_fd c) as [[??]|] eqn:Eo; simpl; (eexists; split; [reflexivity|]); (split; [|split; [|done]]);
    try (simpl; rewrite ?lookup_insert_eq, ?lookup_delete_eq, ?Eo; done);
    try (apply Hatt; [apply Hin; vm_compute; tauto|done|done]).
  all: match goal with |- attached _ _ ?r _ => replace r with re by (rewrite <-Eid at 1; by rewrite E) end; split; rewrite ?Hin, ?E; auto.
Qed.

(** The flag a hook sets or clears, and its argument [remove]. *)
Definition flag_of (h : hook) : Z := match h with AddRead | DelRead => EPOLLIN | _ => EPOLLOUT end.
Definition remove_of (h : hook) : Z := match h with DelRead | DelWrite => 1 | _ => 0 end.

Lemma attached_wr W p re c f : attached W p re c → mask (f re) = mask re → ctx (f re) = ctx re →
  ∃ W', wr W p f = Ok W' ∧ attached W' p (f re) c ∧ epoll W' = epoll W ∧ ctxs W' = ctxs W ∧ calls W' = calls W ∧ listenfd W' = listenfd W.
Proof.
  intros [Ha Hc Hd Hp Hx Hm] Em Ec. rewrite (wr_live W p re) by done. eexists. split; [done|]. split; [|done].
  split; rewrite ?Em, ?Ec; try done. apply lookup_insert_eq.
Qed.

Lemma hook_spec W p re c h : attached W p re c → h ≠ Cleanup →
  ∃ W' re', run_hook W (ctx re) h = Ok W' ∧ attached W' p re' c ∧ (ctx re' = ctx re ∧ fd (e re') = fd (e re) ∧ listenfd W' = listenfd W) ∧
    mask re' = wanted (mask re) (flag_of h) (remove_of h) ∧
    epoll W' !! c_fd c = interest (epoll W !! c_fd c) p (mask re) (mask re') (flag_of h) (remove_of h) ∧
    (match h with AddRead => read_fn (e re') = redisReadHandler | DelRead => read_fn (e re') = Null | _ => read_fn (e re') = read_fn (e re) end).
Proof.
  intros HA Hh. unfold run_hook. rewrite (rd_mem (ctxs W) (ctx re) c (at_c _ _ _ _ HA) (at_ctx _ _ _ _ HA)), ok_bind, (at_data _ _ _ _ HA).
  assert (∀ f flag remove, mask (f re) = mask re → ctx (f re) = ctx re → flag ∈ [EPOLLIN; EPOLLOUT] →
    ∃ W' : world, (W ← wr W p f; redisEventUpdate W p flag remove) = Ok W' ∧ attached W' p (with_mask (wanted (mask re) flag remove) (f re)) c ∧
      epoll W' !! c_fd c = interest (epoll W !! c_fd c) p (mask re) (wanted (mask re) flag remove) flag remove ∧ listenfd W' = listenfd W) as Hgo.
  { intros f flag remove Em Ec Hf. destruct (attached_wr W p re c f HA Em Ec) as (W1 & -> & HA1 & Ee & _ & _ & El). rewrite ok_bind.
    destruct (update_spec W1 p (f re) c flag remove HA1 Hf) as (W2 & -> & HA2 & Ee2 & _ & _ & El2). rewrite Em in *. exists W2.
    split; [done|]. split; [done|]. split; [by rewrite Ee2, Ee|by rewrite El2]. }
  destruct h; try done; simpl (flag_of _); simpl (remove_of _).
  - destruct (Hgo (with_read redisReadHandler) EPOLLIN 0) as (W' & E & HA' & Ee & El); [done|done|rewrite !elem_of_cons; auto|]. by eexists W', _.
  - destruct (Hgo (with_read Null) EPOLLIN 1) as (W' & E & HA' & Ee & El); [done|done|rewrite !elem_of_cons; auto|]. by eexists W', _.
  - destruct (Hgo (with_write redisWriteHandler) EPOLLOUT 0) as (W' & E & HA' & Ee & El); [done|done|rewrite !elem_of_cons; auto|]. by eexists W', _.
  - destruct (Hgo (with_write Null) EPOLLOUT 1) as (W' & E & HA' & Ee & El); [done|done|rewrite !elem_of_cons; auto|]. by eexists W', _.
Qed.

(** C35: Each hook of the adapter sets or clears its flag in [mask].  When epoll held exactly the mask before, it holds
    afterwards: the new mask, if that is what the mask was, or one of the two is empty; and otherwise, when one
    direction is added to or removed from the other, not the new mask but the hook's own flag alone after an addition, and an
    entry without any flag after a removal. *)
Theorem hook_interest W p re c h : attached W p re c → h ≠ Cleanup →
  epoll W !! c_fd c = (if mask re =? 0 then None else Some (mask re, p)) →
  ∃ W' re', run_hook W (ctx re) h = Ok W' ∧ attached W' p re' c ∧
    mask re' = wanted (mask re) (flag_of h) (remove_of h) ∧
    epoll W' !! c_fd c =
      if mask re' =? 0 then None
      else if (mask re =? 0) || (mask re' =? mask re) then Some (mask re', p)
      else Some (if remove_of h =? 0 then flag_of h else 0, p).
Proof.
  intros HA Hh E. destruct (hook_spec W p re c h HA Hh) as (W' & re' & H & HA' & _ & Em & Ee & _). exists W', re'.
  split; [done|]. split; [done|]. split; [done|]. rewrite Ee, E. unfold interest.
  destruct (Z.eqb_spec (mask re') (mask re)) as [->|Hne]; [destruct (mask re =? 0); done|].
  destruct (Z.eqb_spec (mask re') 0) as [E0|?]; [done|]. by destruct (mask re =? 0).
Qed.

(** What hiredis does for a command: it waits to write, and when it has written waits to read. *)
Lemma command_spec W p re c : attached W p re c →
  let m1 := wanted (mask re) EPOLLOUT 0 in let m2 := wanted m1 EPOLLOUT 1 in let m3 := wanted m2 EPOLLIN 0 in
  ∃ W' re', run_hooks W (ctx re) [AddWrite; DelWrite; AddRead] = Ok W' ∧ attached W' p re' c ∧ mask re' = m3 ∧
    epoll W' !! c_fd c = interest (interest (interest (epoll W !! c_fd c) p (mask re) m1 EPOLLOUT 0) p m1 m2 EPOLLOUT 1) p m2 m3 EPOLLIN 0.
Proof.
  intros HA m1 m2 m3. cbn [run_hooks].
  destruct (hook_spec W p re c AddWrite HA) as (W1 & r1 & -> & HA1 & [C1 _] & M1 & E1 & _); [done|]. rewrite ok_bind, <-C1.
  destruct (hook_spec W1 p r1 c DelWrite HA1) as (W2 & r2 & -> & HA2 & [C2 _] & M2 & E2 & _); [done|]. rewrite ok_bind, <-C2.
  destruct (hook_spec W2 p r2 c AddRead HA2) as (W3 & r3 & -> & HA3 & [C3 _] & M3 & E3 & _); [done|]. rewrite ok_bind.
  rewrite M1 in M2, E1, E2. rewrite M2 in M3, E2, E3. rewrite M3 in E3. exists W3, r3. split; [done|]. split; [done|]. split; [done|].
  by rewrite E3, E2, E1.
Qed.

(** hiredis, when it has written a command, clears the write flag and then sets the read flag.  With a connection that is
    waiting for a reply already, a further command ends with nothing registered, though the mask says that it waits to be
    readable: no reply is read any more. *)
Theorem later_command_hangs W p re c : attached W p re c → mask re = EPOLLIN → epoll W !! c_fd c = Some (EPOLLIN, p) →
  ∃ W' re', run_hooks W (ctx re) [AddWrite; DelWrite; AddRead] = Ok W' ∧ attached W' p re' c ∧ mask re' = EPOLLIN ∧
    epoll W' !! c_fd c = Some (0, p).
Proof.
  intros HA Em E. destruct (command_spec W p re c HA) as (W' & re' & H & HA' & M & Ee). rewrite Em, E in *. by exists W', re'.
Qed.

(** When nothing is waited for yet, the same hooks are right. *)
Lemma first_command_waits W p re c : attached W p re c → mask re = 0 → epoll W !! c_fd c = None →
  ∃ W' re', run_hooks W (ctx re) [AddWrite; DelWrite; AddRead] = Ok W' ∧ attached W' p re' c ∧ mask re' = EPOLLIN ∧
    epoll W' !! c_fd c = Some (EPOLLIN, p).
Proof.
  intros HA Em E. destruct (command_spec W p re c HA) as (W' & re' & H & HA' & M & Ee). rewrite Em, E in *. by exists W', re'.
Qed.

(** ** Callbacks *)

(** A connection that is refused is reported with EPOLLHUP, which counts as readable: if only the write hook has been
    called, the read callback called is what malloc has left in the event. *)
Theorem refused_calls_junk hread hwrite W ac re c W1 W2 : ctxs W !! ac = Some c → ac ≠ 0 → ev_data c = 0 → re ≠ 0 →
  c_fd c ≠ listenfd W → redisAttach W ac re = Ok (W1, 0) → run_hook W1 ac AddWrite = Ok W2 →
  dispatch hread hwrite W2 EPOLLHUP re = Err UseAfterFree.
Proof.
  intros Hc Ha Hd Hr Hl. unfold redisAttach. rewrite (rd_mem (ctxs W) ac c), ok_bind, Hd by done. simpl (negb _). cbn iota.
  rewrite (proj2 (Z.eqb_neq _ _) Hr). intros [= <-]. set (re0 := RedisEvent _ 0 ac). set (W1' := with_ctxs _ _).
  assert (attached W1' re re0 (Context (c_fd c) re)) as HA.
  { split; simpl; [apply lookup_insert_eq|apply lookup_insert_eq|done|done|done|left]. }
  destruct (hook_spec W1' re re0 _ AddWrite HA) as (W' & re' & E & HA' & (_ & Ef & El) & _ & _ & Ej); [done|].
  change (ctx re0) with ac in E. rewrite E. intros [= <-]. unfold dispatch. simpl (Z.land _ EPOLLIN =? 0). cbn iota.
  rewrite (rd_mem (events W') re re') by apply HA'. rewrite ok_bind, Ef, El. simpl (fd _). change (listenfd W1') with (listenfd W).
  rewrite (proj2 (Z.eqb_neq _ _) Hl), Ej. done.
Qed.

(** A read handler that cleans up the connection frees the event, and the loop goes on to look for its write callback. *)
Theorem cleanup_in_read_dangles hread hwrite W p re c ev : attached W p re c → fd (e re) ≠ listenfd W → read_fn (e re) = redisReadHandler →
  hread (ctx re) (calls W) = [Cleanup] → Z.land (mask_of ev) EPOLLIN ≠ 0 → Z.land (mask_of ev) EPOLLOUT ≠ 0 →
  dispatch hread hwrite W ev p = Err UseAfterFree.
Proof.
  intros [Ha Hc Hd Hp Hx Hm] Hfd Hr Hh H1 H2. unfold dispatch. rewrite (proj2 (Z.eqb_neq _ _) H1), (rd_mem (events W) p re), ok_bind by done.
  rewrite (proj2 (Z.eqb_neq _ _) Hfd), Hr. cbn [callback]. rewrite (rd_mem (events W) p re), ok_bind, Hh by done. cbn [run_hooks run_hook].
  unfold run_hook. rewrite (rd_mem _ (ctx re) c), ok_bind by done. unfold redisCleanup. rewrite Hd, (rd_mem _ p re), ok_bind by done.
  rewrite (rd_mem _ (ctx re) c), !ok_bind by done. rewrite (proj2 (Z.eqb_neq _ _) H2). unfold rd. rewrite (proj2 (Z.eqb_neq _ _) Hp).
  simpl (events _). by rewrite lookup_delete_eq.
Qed.

(** ** Witnesses *)

(** A connection with descriptor 5 that waits for replies. *)
Definition waiting : world :=
  World 0 false {[ 5 := (EPOLLIN, 200) ]} {[ 200 := RedisEvent (Event 5 redisReadHandler Null Null) EPOLLIN 100 ]} {[ 100 := Context 5 200 ]} [].

Lemma waiting_attached : attached waiting 200 (RedisEvent (Event 5 redisReadHandler Null Null) EPOLLIN 100) (Context 5 200).
Proof. split; try done. rewrite !elem_of_cons. auto. Qed.

Lemma hook_interest_witness : ∃ W' re', run_hook waiting 100 AddWrite = Ok W' ∧ attached W' 200 re' (Context 5 200) ∧
  mask re' = 5 ∧ epoll W' !! 5 = if mask re' =? 0 then None else if false || (mask re' =? EPOLLIN) then Some (mask re', 200) else Some (EPOLLOUT, 200).
Proof.
  exact (hook_interest waiting 200 (RedisEvent (Event 5 redisReadHandler Null Null) EPOLLIN 100) (Context 5 200) AddWrite
    waiting_attached ltac:(discriminate) eq_refl).
Defined.

Lemma later_command_hangs_witness : ∃ W' re', run_hooks waiting 100 [AddWrite; DelWrite; AddRead] = Ok W' ∧
  attached W' 200 re' (Context 5 200) ∧ mask re' = EPOLLIN ∧ epoll W' !! 5 = Some (0, 200).
Proof.
  exact (later_command_hangs waiting 200 (RedisEvent (Event 5 redisReadHandler Null Null) EPOLLIN 100) (Context 5 200)
    waiting_attached eq_refl eq_refl).
Defined.

Lemma refused_calls_junk_witness : ∃ W1 W2,
  redisAttach (World 0 false ∅ ∅ {[ 100 := Context 5 0 ]} []) 100 200 = Ok (W1, 0) ∧ run_hook W1 100 AddWrite = Ok W2 ∧
  dispatch (λ _ _, []) (λ _ _, []) W2 EPOLLHUP 200 = Err UseAfterFree.
Proof.
  eexists _, _. split; [reflexivity|]. split; [reflexivity|].
  eapply (refused_calls_junk (λ _ _, []) (λ _ _, []) (World 0 false ∅ ∅ {[ 100 := Context 5 0 ]} []) 100 200 (Context 5 0)); done.
Defined.

Lemma cleanup_in_read_dangles_witness : dispatch (λ _ _, [Cleanup]) (λ _ _, []) waiting EPOLLHUP 200 = Err UseAfterFree.
Proof.
  apply (cleanup_in_read_dangles _ _ waiting 200 (RedisEvent (Event 5 redisReadHandler Null Null) EPOLLIN 100) (Context 5 200) EPOLLHUP waiting_attached); done.
Defined.

End RedisAdapter.
