(* ===== verification/MemLeak.v ===== *)
(** * The leak detector of 7.5mem_leak_detect/memleak.c

    The hooks that are compiled, [malloc_hook] and [free_hook]: a file in the directory mem for every
    block that has been allocated and not freed, with the place it was allocated at.  The files are a map by
    the address they are named after; [malloc] and [fopen] are arguments. *)

From S2P Require Import Prelude.

Module MemLeak.

(** What a file says: file and line of the caller, and the size. *)
Record entry : Type := Entry { file : string; line : Z; size : Z }.

(** The blocks allocated, with their sizes, the files, and the addresses reported as freed twice. *)
Record world : Type := World { heap : gmap Z Z; files : gmap Z entry; reported : list Z }.

Section hooks.
(** [malloc] answers null or the address of a new block; [fopen] may fail. *)
Context (malloc : gmap Z Z → Z → Z) (fopen : world → bool).

(* src: 7.5mem_leak_detect/memleak.c:83-97 malloc_hook *)
Definition malloc_hook (W : world) (size : Z) (file : string) (line : Z) : res (world * Z) :=
  let p := malloc (heap W) size in
  let W := World (if p =? 0 then heap W else <[p := size]> (heap W)) (files W) (reported W) in
  if fopen W then Ok (World (heap W) (<[p := Entry file line size]> (files W)) (reported W), p)
  else Err NullDeref.

(** [unlink] fails when there is no such file; [free] of null does nothing. *)
(* src: 7.5mem_leak_detect/memleak.c:99-111 free_hook *)
Definition free_hook (W : world) (p : Z) (file : string) (line : Z) : res world :=
  match files W !! p with
  | None => Ok (World (heap W) (files W) (reported W ++ [p]))
  | Some _ =>
      let W := World (heap W) (delete p (files W)) (reported W) in
      if p =? 0 then Ok W
      else match heap W !! p with Some _ => Ok (World (delete p (heap W)) (files W) (reported W)) | None => Err UseAfterFree end
  end.

(** A program, as the calls it makes; an address is the number of the allocation it came from, or any other. *)
Inductive op : Type :=
  | Malloc (size : Z) (file : string) (line : Z)
  | Free (p : Z) (file : string) (line : Z).

Fixpoint run (W : world) (ops : list op) : res world :=
  match ops with
  | [] => Ok W
  | Malloc size file line :: ops => '(W, _) ← malloc_hook W size file line; run W ops
  | Free p file line :: ops => W ← free_hook W p file line; run W ops
  end.

(** ** The files are the leaks *)

Context (malloc_fresh : ∀ h n, malloc h n ≠ 0 → h !! malloc h n = None).
Context (fopen_works : ∀ W, fopen W = true).

(** The blocks of the heap are those that have a file; of the address null there may be a file, too. *)
Definition exact (W : world) : Prop := heap W = delete 0 (size <$> files W).

Lemma malloc_hook_exact W n f l : exact W → ∃ W' p, malloc_hook W n f l = Ok (W', p) ∧ exact W' ∧
  files W' = <[p := Entry f l n]> (files W) ∧ reported W' = reported W ∧ (p ≠ 0 → heap W !! p = None ∧ heap W' = <[p := n]> (heap W)).
Proof.
  unfold exact. intros HI. unfold malloc_hook. rewrite fopen_works. eexists _, _. split; [done|]. simpl.
  destruct (Z.eqb_spec (malloc (heap W) n) 0) as [->|Hne].
  - split; [|done]. rewrite fmap_insert, HI. by rewrite delete_insert_eq.
  - split; [|split; [done|split; [done|]]].
    + rewrite fmap_insert, delete_insert_ne by done. by rewrite <-HI.
    + intros _. split; [by apply malloc_fresh|done].
Qed.

(** A block is freed only when it is allocated; any other address is reported. *)
Lemma free_hook_exact W p f l : exact W → ∃ W', free_hook W p f l = Ok W' ∧ exact W' ∧
  match files W !! p with
  | Some _ => files W' = delete p (files W) ∧ heap W' = delete p (heap W) ∧ reported W' = reported W
  | None => files W' = files W ∧ heap W' = heap W ∧ reported W' = reported W ++ [p]
  end.
Proof.
  unfold exact. intros HI. unfold free_hook. destruct (files W !! p) as [en|] eqn:Hp; [|by eexists].
  destruct (Z.eqb_spec p 0) as [->|Hne].
  - eexists. split; [done|]. simpl. rewrite fmap_delete, HI, delete_delete_eq. done.
  - assert (heap W !! p = Some (size en)) as Hh by (by rewrite HI, lookup_delete_ne, lookup_fmap, Hp by done). cbn [heap]. rewrite Hh.
    eexists. split; [done|]. simpl. split; [|done]. rewrite fmap_delete, HI. by rewrite delete_delete.
Qed.

(** C37: Where the files can be opened, which takes the directory mem, and none is there at the start: whatever a program allocates
    and frees through the hooks, twice or not, it runs to its end, no block is freed that is not
    allocated, and when it ends there is a file for exactly the blocks that are still allocated, with their sizes (and perhaps one
    for the address null, which an allocation that failed has left). *)
Theorem leaks_exact ops : ∃ W, run (World ∅ ∅ []) ops = Ok W ∧ heap W = delete 0 (size <$> files W).
Proof.
  assert (∀ W, exact W → ∃ W', run W ops = Ok W' ∧ exact W') as H.
  { induction ops as [|[n f l|p f l] ops IH]; intros W HI; cbn [run]; [by exists W| |].
    - destruct (malloc_hook_exact W n f l HI) as (W1 & p & -> & HI1 & _). rewrite ok_bind. by apply IH.
    - destruct (free_hook_exact W p f l HI) as (W1 & -> & HI1 & _). rewrite ok_bind. by apply IH. }
  apply H. unfold exact. simpl. by rewrite fmap_empty, delete_empty.
Qed.

(** A block that was allocated without the hook is reported as freed twice, and stays allocated. *)
Lemma unhooked_block_leaks W p f l : files W !! p = None → free_hook W p f l = Ok (World (heap W) (files W) (reported W ++ [p])).
Proof. intros Hp. unfold free_hook. by rewrite Hp. Qed.

(** Where the file cannot be opened (there is no directory mem, say), the first allocation ends in a null pointer. *)
Lemma no_directory W n f l : fopen (World (if malloc (heap W) n =? 0 then heap W else <[malloc (heap W) n := n]> (heap W)) (files W) (reported W)) = false →
  malloc_hook W n f l = Err NullDeref.
Proof. intros H. unfold malloc_hook. by rewrite H. Qed.

End hooks.

(** Two places for blocks. *)
Definition two_blocks (h : gmap Z Z) (_ : Z) : Z := match h !! 16 with None => 16 | Some _ => match h !! 48 with None => 48 | Some _ => 0 end end.

Lemma leaks_exact_witness : ∃ W, run two_blocks (λ _, true) (World ∅ ∅ [])
    [Malloc 10 "m.c" 1; Malloc 20 "m.c" 2; Free 16 "m.c" 3; Free 16 "m.c" 4] = Ok W ∧ heap W = delete 0 (size <$> files W).
Proof.
  apply leaks_exact; [|done]. intros h n. unfold two_blocks. destruct (h !! 16) eqn:E; [|done]. by destruct (h !! 48) eqn:E'.
Defined.

Example leak_of_48 : match run two_blocks (λ _, true) (World ∅ ∅ [])
    [Malloc 10 "m.c" 1; Malloc 20 "m.c" 2; Free 16 "m.c" 3; Free 16 "m.c" 4] with
  | Ok W => map_to_list (files W) = [(48, Entry "m.c" 2 20)] ∧ reported W = [16]
  | Err _ => False
  end.
Proof. vm_compute. done. Qed.

End MemLeak.
