(* ===== verification/EpollKernel.v ===== *)
(** * The kernel, as the small reactors see it

    The kernel keeps the open descriptors and the epoll set; [accept] gives the lowest
    descriptor that is free, up to the process's limit; the answers of [recv] and
    [send] are lists consumed in order.  What the programs exchange with their clients
    is recorded. *)

From stdpp Require Import gmap.
From S2P Require Import Prelude CMem.

Module EpollKernel.

Definition EPOLLIN : Z := 1.
Definition EPOLLOUT : Z := 4.

(** What happens on the descriptors, the latest first in [log]. *)
Inductive entry : Type :=
  | Opened (f : Z) | Received (f : Z) (d : list Z) | Sent (f : Z) (d : list Z) | Closed (f : Z).

(** [epoll] maps a descriptor to the events asked for and the index of its record.
    An answer of [recv] is [None] for an error and empty when the peer has closed;
    an answer of [accept] tells whether a connection is waiting, and whether [fcntl]
    succeeds on it. *)
Record kernel : Type := Kernel {
  epoll : gmap Z (Z * Z);
  files : gset Z;
  nofile : Z;
  now : Z;
  recvs : list (option (list Z));
  sends : list Z;
  accepts : list (bool * bool);
  log : list entry
}.

Definition set_epoll K x := Kernel x (files K) (nofile K) (now K) (recvs K) (sends K) (accepts K) (log K).
Definition set_now K x := Kernel (epoll K) (files K) (nofile K) x (recvs K) (sends K) (accepts K) (log K).
Definition set_recvs K x := Kernel (epoll K) (files K) (nofile K) (now K) x (sends K) (accepts K) (log K).
Definition set_sends K x := Kernel (epoll K) (files K) (nofile K) (now K) (recvs K) x (accepts K) (log K).
Definition add_log K x := Kernel (epoll K) (files K) (nofile K) (now K) (recvs K) (sends K) (accepts K) (x :: log K).

(** [close]: the descriptor leaves the epoll set as well; an unknown one is refused. *)
Definition close (K : kernel) (f : Z) : kernel :=
  if decide (f ∈ files K)
  then Kernel (delete f (epoll K)) (files K ∖ {[f]}) (nofile K) (now K) (recvs K) (sends K) (accepts K)
         (Closed f :: log K)
  else K.

(** The lowest free descriptor. *)
Definition lowest (K : kernel) : option Z :=
  head (filter (λ f, f ∉ files K) (seqZ 0 (nofile K))).

(** [accept]: the new descriptor, if there is one, and whether [fcntl] succeeds. *)
Definition accept (K : kernel) : option (Z * bool) * kernel :=
  let '(w, nb, l) := match accepts K with [] => (false, false, []) | (w, nb) :: l => (w, nb, l) end in
  match w, lowest K with
  | true, Some c => (Some (c, nb), Kernel (epoll K) ({[c]} ∪ files K) (nofile K) (now K) (recvs K) (sends K) l
      (Opened c :: log K))
  | _, _ => (None, Kernel (epoll K) (files K) (nofile K) (now K) (recvs K) (sends K) l (log K))
  end.

(** [epoll_ctl] with [EPOLL_CTL_ADD] or, when [mod_] holds, [EPOLL_CTL_MOD]: it fails on a
    closed descriptor, on adding a known one and on changing an unknown one. *)
Definition epoll_ctl (K : kernel) (mod_ : bool) (f evts i : Z) : Z * kernel :=
  if Bool.eqb mod_ (bool_decide (is_Some (epoll K !! f))) && bool_decide (f ∈ files K)
  then (0, set_epoll K (<[f := (evts, i)]> (epoll K))) else (-1, K).

(** [epoll_wait] with room for [n] events, given the descriptors that have become ready and for what. *)
Definition epoll_wait (n : Z) (K : kernel) (ready : list (Z * Z)) : list (Z * Z) :=
  take (Z.to_nat n)
    (omap (λ r, match epoll K !! r.1 with
                | Some (evts, i) => let m := Z.land r.2 evts in if m =? 0 then None else Some (i, m)
                | None => None
                end) ready).

(** ** Facts *)

(** The bytes exchanged on [f] since it was opened. *)
Inductive io : Type := In (d : list Z) | Out (d : list Z).
Fixpoint session (f : Z) (l : list entry) : list io :=
  match l with
  | [] => []
  | Opened g :: l => if decide (g = f) then [] else session f l
  | Received g d :: l => if decide (g = f) then In d :: session f l else session f l
  | Sent g d :: l => if decide (g = f) then Out d :: session f l else session f l
  | Closed _ :: l => session f l
  end.

Lemma session_other f g x l : (match x with Opened h | Received h _ | Sent h _ | Closed h => h end) = f → g ≠ f →
  session g (x :: l) = session g l.
Proof. intros <- Hg. destruct x; simpl; rewrite ?decide_False by done; done. Qed.

Lemma lowest_free K c : lowest K = Some c → c ∉ files K ∧ 0 ≤ c < nofile K.
Proof.
  unfold lowest. destruct (filter _ _) as [|x l] eqn:Hl; [done|]. intros [= <-].
  assert (Hx : x ∈ filter (λ f, f ∉ files K) (seqZ 0 (nofile K))) by (rewrite Hl; left).
  apply list_elem_of_filter in Hx as (Hx & ?%elem_of_seqZ). split; [done|lia].
Qed.

Lemma land_pow2 r n : 0 ≤ n → Z.land r (2 ^ n) = if Z.testbit r n then 2 ^ n else 0.
Proof.
  intros Hn. apply Z.bits_inj'. intros k Hk. rewrite Z.land_spec, Z.pow2_bits_eqb by done.
  destruct (Z.eqb_spec n k) as [->|Hne].
  - rewrite andb_true_r. destruct (Z.testbit r k); [by rewrite Z.pow2_bits_true|by rewrite Z.bits_0].
  - rewrite andb_false_r. destruct (Z.testbit r n); [by rewrite Z.pow2_bits_false|by rewrite Z.bits_0].
Qed.

(** The events reported: each is about one descriptor, which is registered under its own number. *)
Definition reported (K : kernel) (r : Z * Z) : Prop :=
  ∃ evts x, epoll K !! r.1 = Some (evts, r.1) ∧ r.2 = Z.land x evts ∧ r.2 ≠ 0.
(** They stay reported while another descriptor is dealt with. *)
Lemma reported_rest i K K' evs : i ∉ map fst evs → (∀ j, j ≠ i → is_Some (epoll K !! j) → epoll K' !! j = epoll K !! j) →
  Forall (reported K) evs → Forall (reported K') evs.
Proof.
  intros Hi HK Hr. rewrite Forall_forall in Hr |- *. intros [j n] Hj. destruct (Hr _ Hj) as (evts & x & He & Hx).
  exists evts, x. split; [|done]. simpl in *. rewrite HK; [done| |by eexists]. intros ->. apply Hi.
  apply (list_elem_of_fmap_2 fst _ _ Hj).
Qed.
Lemma epoll_wait_reports n K ready : (∀ f evts i, epoll K !! f = Some (evts, i) → i = f) → NoDup (map fst ready) →
  NoDup (map fst (epoll_wait n K ready)) ∧ Forall (reported K) (epoll_wait n K ready) ∧
  ∀ i, i ∈ map fst (epoll_wait n K ready) → i ∈ map fst ready.
Proof.
  intros Hself Hnd. unfold epoll_wait. set (g := λ r : Z * Z, _). set (l := omap g ready).
  assert (Hl : NoDup (map fst l) ∧ Forall (reported K) l ∧ ∀ i, i ∈ map fst l → i ∈ map fst ready).
  { unfold l. clear l. induction ready as [|[f x] ready IH]; [by repeat constructor|].
    inversion Hnd as [|? ? Hf Hnd']; subst. destruct (IH Hnd') as (H1 & H2 & H3).
    destruct (g (f, x)) as [[i m]|] eqn:Hg; simpl; rewrite Hg; [|split_and!; [done|done|set_solver]].
    unfold g in Hg. simpl in Hg. destruct (epoll _ !! f) as [[evts j]|] eqn:Hep; [|done].
    destruct (Z.eqb_spec (Z.land x evts) 0) as [|Hm]; [done|]. injection Hg as <- <-.
    pose proof (Hself _ _ _ Hep) as ->. split_and!.
    - constructor; [|done]. intros Hin. apply Hf. by apply H3.
    - constructor; [|done]. by exists evts, x.
    - intros k. simpl. rewrite !elem_of_cons. naive_solver. }
  destruct Hl as (H1 & H2 & H3). split_and!.
  - rewrite <-(take_drop (Z.to_nat n) l), map_app in H1. by apply NoDup_app in H1 as (? & _).
  - by apply Forall_take.
  - intros i Hi. apply H3. change (i ∈ fst <$> take (Z.to_nat n) l) in Hi. change (i ∈ fst <$> l).
    rewrite <-(take_drop (Z.to_nat n) l), fmap_app. apply elem_of_app. by left.
Qed.

End EpollKernel.
