(* ===== verification/SweepReactor.v ===== *)
(** * The reactor with a table of events and a timeout (3.2reactor/reactor_singlecb.c)

    Events are an array of [MAX_EPOLL_EVENTS] records indexed by descriptor; the loop
    looks at a hundred of them before every [epoll_wait] and closes those idle for a minute.
    The client's bytes are sent back to it. *)

From stdpp Require Import gmap.
From S2P Require Import Prelude CMem EpollKernel.

Module SweepReactor.
Import EpollKernel.

(* src: 3.2reactor/reactor_singlecb.c:16-16 BUFFER_LENGTH *)
Definition BUFFER_LENGTH : Z := 4096.
(* src: 3.2reactor/reactor_singlecb.c:17-17 MAX_EPOLL_EVENTS *)
Definition MAX_EPOLL_EVENTS : Z := 1024.
#[global] Arguments BUFFER_LENGTH : simpl never.
#[global] Arguments MAX_EPOLL_EVENTS : simpl never.

(** ** State *)

(** The callbacks of the program. *)
Inductive NCALLBACK : Type := accept_cb_ | recv_cb_ | send_cb_.

(** [arg], always the reactor, is left out. *)
(* src: 3.2reactor/reactor_singlecb.c:48-58 ntyevent *)
Record ntyevent : Type := NtyEvent {
  fd : Z;
  events : Z;
  callback : option NCALLBACK;
  status : Z;
  buffer : list Z;
  length_ : Z;
  last_active : Z
}.

(* src: 3.2reactor/reactor_singlecb.c:62-65 ntyreactor *)
Record ntyreactor : Type := Reactor { epfd : Z; slots : option (list ntyevent) }.

Record world : Type := World { rx : ntyreactor; kn : kernel }.

Definition with_kn (W : world) (K : kernel) : world := World (rx W) K.

(** ** Events *)

(** The record with index [i]. *)
Definition ld (W : world) (i : Z) : res ntyevent := l ← get_or NullDeref (slots (rx W)); aget l i.
Definition st (W : world) (i : Z) (e : ntyevent) : res world :=
  l ← get_or NullDeref (slots (rx W)); l ← aset l i e; Ok (World (Reactor (epfd (rx W)) (Some l)) (kn W)).

(* src: 3.2reactor/reactor_singlecb.c:72-82 nty_event_set *)
Definition nty_event_set (W : world) (i f : Z) (cb : NCALLBACK) : res world :=
  e ← ld W i;
  st W i (NtyEvent f 0 (Some cb) (status e) (buffer e) (length_ e) (now (kn W))).

(* src: 3.2reactor/reactor_singlecb.c:85-105 nty_event_add *)
Definition nty_event_add (W : world) (evts i : Z) : res (Z * world) :=
  e ← ld W i;
  W ← st W i (NtyEvent (fd e) evts (callback e) 1 (buffer e) (length_ e) (last_active e));
  let '(r, K) := epoll_ctl (kn W) (status e =? 1) (fd e) evts i in
  Ok (r, with_kn W K).

(* src: 3.2reactor/reactor_singlecb.c:107-120 nty_event_del *)
Definition nty_event_del (W : world) (i : Z) : res (Z * world) :=
  e ← ld W i;
  if negb (status e =? 1) then Ok (-1, W)
  else
    W ← st W i (NtyEvent (fd e) (events e) (callback e) 0 (buffer e) (length_ e) (last_active e));
    Ok (0, with_kn W (set_epoll (kn W) (delete (fd e) (epoll (kn W))))).

(** ** Callbacks *)

Definition set_buffer (e : ntyevent) (b : list Z) (n : Z) : ntyevent :=
  NtyEvent (fd e) (events e) (callback e) (status e) b n (last_active e).

(* src: 3.2reactor/reactor_singlecb.c:122-154 recv_cb *)
Definition recv_cb (W : world) (f : Z) : res (Z * world) :=
  let '(ans, l) := match recvs (kn W) with [] => (None, []) | a :: l => (a, l) end in
  let data := take (Z.to_nat BUFFER_LENGTH) (default [] ans) in
  let len := match ans with Some _ => Z.of_nat (length data) | None => -1 end in
  let W := with_kn W (set_recvs (kn W) l) in
  e ← ld W f;
  b ← splice (buffer e) 0 data;
  W ← st W f (set_buffer e b (length_ e));
  '(_, W) ← nty_event_del W f;
  e ← ld W f;
  if 0 <? len then
    b ← aset (buffer e) len 0;
    W ← st W f (set_buffer e b len);
    W ← nty_event_set (with_kn W (add_log (kn W) (Received f data))) f f send_cb_;
    '(_, W) ← nty_event_add W EPOLLOUT f;
    Ok (len, W)
  else Ok (len, with_kn W (close (kn W) (fd e))).

(** [send] takes at most the bytes given; no answer left means that it fails. *)
(* src: 3.2reactor/reactor_singlecb.c:157-180 send_cb *)
Definition send_cb (W : world) (f : Z) : res (Z * world) :=
  e ← ld W f;
  data ← slice (buffer e) 0 (length_ e);
  let '(ans, l) := match sends (kn W) with [] => (-1, []) | a :: l => (a, l) end in
  let len := Z.min ans (length_ e) in
  let K := set_sends (kn W) l in
  if 0 <? len then
    '(_, W) ← nty_event_del (with_kn W (add_log K (Sent f (take (Z.to_nat len) data)))) f;
    W ← nty_event_set W f f recv_cb_;
    '(_, W) ← nty_event_add W EPOLLIN f;
    Ok (len, W)
  else
    '(_, W) ← nty_event_del (with_kn W (close K (fd e))) f;
    Ok (len, W).

(** [for (i = 3; i < MAX_EPOLL_EVENTS; i++)]: the first record that is not in use. *)
(* src: 3.2reactor/reactor_singlecb.c:203-207 accept_cb *)
Fixpoint find_slot (n : nat) (W : world) (i : Z) : res Z :=
  match n with
  | O => Ok i
  | S n => e ← ld W i; if status e =? 0 then Ok i else find_slot n W (i + 1)
  end.

(** The last line prints [last_active] of the record found. *)
(* src: 3.2reactor/reactor_singlecb.c:182-229 accept_cb *)
Definition accept_cb (W : world) (f : Z) : res (Z * world) :=
  let '(a, K) := accept (kn W) in
  let W := with_kn W K in
  match a with
  | None => Ok (-1, W)
  | Some (clientfd, nonblock) =>
      i ← find_slot (Z.to_nat (MAX_EPOLL_EVENTS - 3)) W 3;
      W ← (if i =? MAX_EPOLL_EVENTS then Ok W
           else if negb nonblock then Ok W
           else
             W ← nty_event_set W clientfd clientfd recv_cb_;
             '(_, W) ← nty_event_add W EPOLLIN clientfd;
             Ok W);
      _ ← ld W i;
      Ok (0, W)
  end.

Definition run_cb (c : option NCALLBACK) (W : world) (f : Z) : res world :=
  '(_, W) ← match c with
    | None => Err NullDeref
    | Some accept_cb_ => accept_cb W f
    | Some recv_cb_ => recv_cb W f
    | Some send_cb_ => send_cb W f
    end;
  Ok W.

(** ** The reactor *)

(** [ep] is the result of [epoll_create] and [heap] the storage [malloc] gives, if any,
    whatever it contains.  (The function does not return a value when it succeeds.) *)
(* src: 3.2reactor/reactor_singlecb.c:252-269 ntyreactor_init *)
Definition ntyreactor_init (K : kernel) (ep : Z) (heap : option (list ntyevent)) : option Z * world :=
  if ep <=? 0 then (Some (-2), World (Reactor ep None) K)
  else
    match heap with
    | None => (Some (-3), World (Reactor ep None) (close K ep))
    | Some l => (None, World (Reactor ep (Some l)) K)
    end.

(* src: 3.2reactor/reactor_singlecb.c:271-276 ntyreactor_destory *)
Definition ntyreactor_destory (W : world) : world :=
  World (Reactor (epfd (rx W)) None) (close (kn W) (epfd (rx W))).

(* src: 3.2reactor/reactor_singlecb.c:280-289 ntyreactor_addlistener *)
Definition ntyreactor_addlistener (W : world) (sockfd : Z) (acceptor : NCALLBACK) : res (Z * world) :=
  match slots (rx W) with
  | None => Ok (-1, W)
  | Some _ =>
      W ← nty_event_set W sockfd sockfd acceptor;
      '(_, W) ← nty_event_add W EPOLLIN sockfd;
      Ok (0, W)
  end.

(** The next [n] records from [checkpos] on. *)
(* src: 3.2reactor/reactor_singlecb.c:305-321 ntyreactor_run *)
Fixpoint sweep (n : nat) (t : Z) (W : world) (checkpos : Z) : res (world * Z) :=
  match n with
  | O => Ok (W, checkpos)
  | S n =>
      let checkpos := if checkpos =? MAX_EPOLL_EVENTS then 0 else checkpos in
      e ← ld W checkpos;
      W ← (if negb (status e =? 1) then Ok W
           else if 60 <=? t - last_active e then
             '(_, W) ← nty_event_del (with_kn W (close (kn W) (fd e))) checkpos; Ok W
           else Ok W);
      sweep n t W (checkpos + 1)
  end.

(** One event that [epoll_wait] reports. *)
(* src: 3.2reactor/reactor_singlecb.c:330-341 ntyreactor_run *)
Definition dispatch (W : world) (r : Z * Z) : res world :=
  let '(i, m) := r in
  e ← ld W i;
  W ← (if negb (Z.land m EPOLLIN =? 0) && negb (Z.land (events e) EPOLLIN =? 0)
       then run_cb (callback e) W (fd e) else Ok W);
  e ← ld W i;
  if negb (Z.land m EPOLLOUT =? 0) && negb (Z.land (events e) EPOLLOUT =? 0)
  then run_cb (callback e) W (fd e) else Ok W.

(* src: 3.2reactor/reactor_singlecb.c:330-341 ntyreactor_run *)
Fixpoint dispatch_all (rs : list (Z * Z)) (W : world) : res world :=
  match rs with
  | [] => Ok W
  | r :: rs => W ← dispatch W r; dispatch_all rs W
  end.

(** The time at the start of an iteration and, unless [epoll_wait] fails, the time it
    returns at and the descriptors that are ready then. *)
Record turn : Type := Turn { time : Z; waited : option (Z * list (Z * Z)) }.

(* src: 3.2reactor/reactor_singlecb.c:304-341 ntyreactor_run *)
Definition iteration (r : turn) (s : world * Z) : res (world * Z) :=
  let '(W, checkpos) := s in
  '(W, checkpos) ← sweep 100 (time r) (with_kn W (set_now (kn W) (time r))) checkpos;
  match waited r with
  | None => Ok (W, checkpos)
  | Some (t, ready) =>
      let W := with_kn W (set_now (kn W) t) in
      W ← dispatch_all (epoll_wait MAX_EPOLL_EVENTS (kn W) ready) W;
      Ok (W, checkpos)
  end.

(* src: 3.2reactor/reactor_singlecb.c:302-343 ntyreactor_run *)
Fixpoint iterations (rs : list turn) (s : world * Z) : res (world * Z) :=
  match rs with
  | [] => Ok s
  | r :: rs => s ← iteration r s; iterations rs s
  end.

(** The loop for as many iterations as [rs] has; it only returns when the reactor is
    not set up. *)
(* src: 3.2reactor/reactor_singlecb.c:293-344 ntyreactor_run *)
Definition ntyreactor_run (rs : list turn) (W : world) : res (option Z * world) :=
  if epfd (rx W) <? 0 then Ok (Some (-1), W)
  else
    match slots (rx W) with
    | None => Ok (Some (-1), W)
    | Some _ => '(W, _) ← iterations rs (W, 0); Ok (None, W)
    end.

(** [sockfd] is the result of [init_sock]. *)
(* src: 3.2reactor/reactor_singlecb.c:346-366 main *)
Definition main (K : kernel) (sockfd ep : Z) (heap : option (list ntyevent)) (rs : list turn) : res world :=
  let '(_, W) := ntyreactor_init K ep heap in
  '(_, W) ← ntyreactor_addlistener W sockfd accept_cb_;
  '(r, W) ← ntyreactor_run rs W;
  match r with
  | None => Ok W
  | Some _ => let W := ntyreactor_destory W in Ok (with_kn W (close (kn W) sockfd))
  end.

(** ** Records and what one step may touch *)

Definition event (W : world) (i : Z) : option ntyevent :=
  if 0 <=? i then l ← slots (rx W); l !! Z.to_nat i else None.
Definition upd (W : world) (i : Z) (e : ntyevent) : world :=
  World (Reactor (epfd (rx W)) (<[Z.to_nat i := e]> <$> slots (rx W))) (kn W).

Lemma ld_ok W i e : event W i = Some e → ld W i = Ok e.
Proof.
  unfold event, ld, aget. destruct (0 <=? i); [|done]. destruct (slots _) as [l|]; [|done]. simpl. by intros ->.
Qed.

Lemma ld_past W i : (∃ l, slots (rx W) = Some l ∧ Z.of_nat (length l) ≤ i) → ld W i = Err OutOfBounds.
Proof. intros (l & Hl & Hi). unfold ld. rewrite Hl. by apply aget_past. Qed.

Lemma st_ok W i e e' : event W i = Some e → st W i e' = Ok (upd W i e').
Proof.
  unfold event, st, upd, aset. destruct (0 <=? i) eqn:H0; [|done]. destruct (slots _) as [l|]; [|done]. simpl.
  intros Hl%lookup_lt_Some. by rewrite (proj2 (Z.ltb_lt _ _)) by (apply Z.leb_le in H0; lia).
Qed.

Lemma event_upd W i e e' : event W i = Some e → event (upd W i e') i = Some e'.
Proof.
  unfold event, upd. destruct (0 <=? i); [|done]. simpl. destruct (slots _) as [l|]; [|done]. simpl.
  intros ?%lookup_lt_Some. by rewrite list_lookup_insert_eq.
Qed.

Lemma event_upd_ne W i j e : i ≠ j → event (upd W i e) j = event W j ∨ j < 0 ∨ i < 0.
Proof.
  intros Hij. destruct (decide (i < 0)); [by right; right|]. unfold event, upd.
  destruct (Z.leb_spec 0 j); [|lia]. left. simpl. destruct (slots _) as [l|]; [|done]. simpl.
  by rewrite list_lookup_insert_ne by lia.
Qed.

Lemma upd_upd W i e e' : upd (upd W i e) i e' = upd W i e'.
Proof. unfold upd. simpl. destruct (slots _) as [l|]; [|done]. simpl. by rewrite list_insert_insert_eq. Qed.

Lemma event_kn W K i : event (with_kn W K) i = event W i.
Proof. done. Qed.

Lemma ld_upd W i e e' : event W i = Some e → ld (upd W i e') i = Ok e'.
Proof. intros H. by eapply ld_ok, event_upd. Qed.

Lemma st_upd W i e e1 e2 : event W i = Some e → st (upd W i e1) i e2 = Ok (upd W i e2).
Proof. intros H. by rewrite (st_ok _ _ e1), upd_upd by (by eapply event_upd). Qed.

(** A prefix of every message goes back before the next one is read. *)
Inductive echoed : list io → Prop :=
  | echoed_nil : echoed []
  | echoed_cons r s l : s ≠ [] → s `prefix_of` r → echoed l → echoed (Out s :: In r :: l).

(** The record of a descriptor is either unused, and then epoll does not know it, or it
    agrees with what epoll holds. *)
Record watched (K : kernel) (i : Z) (e : ntyevent) : Prop := {
  w_fd : fd e = i;
  w_open : i ∈ files K;
  w_epoll : epoll K !! i = Some (events e, i);
  w_cb : match callback e with
         | Some accept_cb_ => events e = EPOLLIN
         | Some recv_cb_ => events e = EPOLLIN ∧ echoed (session i (log K))
         | Some send_cb_ => events e = EPOLLOUT ∧ 0 < length_ e < BUFFER_LENGTH ∧
             ∃ l, session i (log K) = In (take (Z.to_nat (length_ e)) (buffer e)) :: l ∧ echoed l
         | None => False
         end
}.
Definition slot_ok (K : kernel) (i : Z) (e : ntyevent) : Prop :=
  length (buffer e) = Z.to_nat BUFFER_LENGTH ∧
  (status e = 1 ∧ watched K i e ∨ status e = 0 ∧ epoll K !! i = None).

(** [recv] never fills the buffer, and descriptors fit the table. *)
Definition short (a : option (list Z)) : Prop := ∀ d, a = Some d → (length d < Z.to_nat BUFFER_LENGTH)%nat.
Record good (W : world) : Prop := Good {
  g_slots : ∃ l, slots (rx W) = Some l ∧ length l = Z.to_nat MAX_EPOLL_EVENTS;
  g_ok : ∀ i e, event W i = Some e → slot_ok (kn W) i e;
  g_epoll : ∀ f, is_Some (epoll (kn W) !! f) → 0 ≤ f < MAX_EPOLL_EVENTS;
  g_nofile : nofile (kn W) ≤ MAX_EPOLL_EVENTS;
  g_short : Forall short (recvs (kn W));
  g_epfd : 3 ≤ epfd (rx W) < MAX_EPOLL_EVENTS ∧ epfd (rx W) ∈ files (kn W);
  g_free : status <$> event W (epfd (rx W)) = Some 0
}.

(** A step about descriptor [c]. *)
Record touches (c : Z) (W W' : world) : Prop := Touches {
  t_slots : ∃ e', event W' c = Some e' ∧ rx W' = rx (upd W c e') ∧ slot_ok (kn W') c e';
  t_epoll : ∀ f, f ≠ c → epoll (kn W') !! f = epoll (kn W) !! f;
  t_files : ∀ f, f ≠ c → (f ∈ files (kn W') ↔ f ∈ files (kn W));
  t_nofile : nofile (kn W') = nofile (kn W);
  t_recvs : Forall short (recvs (kn W)) → Forall short (recvs (kn W'));
  t_log : ∃ n, log (kn W') = n ++ log (kn W) ∧ ∀ f, f ≠ c → session f (log (kn W')) = session f (log (kn W))
}.

Lemma event_range W i e : good W → event W i = Some e → 0 ≤ i < MAX_EPOLL_EVENTS.
Proof.
  intros HG. destruct (g_slots _ HG) as (l & Hl & Hn). unfold event. destruct (Z.leb_spec 0 i); [|done].
  rewrite Hl. simpl. intros ?%lookup_lt_Some. lia.
Qed.

Lemma event_is_some W i : good W → 0 ≤ i < MAX_EPOLL_EVENTS → ∃ e, event W i = Some e.
Proof.
  intros HG Hi. destruct (g_slots _ HG) as (l & Hl & Hn). unfold event.
  destruct (Z.leb_spec 0 i); [|lia]. rewrite Hl. simpl. apply lookup_lt_is_Some_2. lia.
Qed.

Lemma touches_event c W W' i : touches c W W' → i ≠ c → event W' i = event W i.
Proof.
  intros [(e' & Hc & Hr & _)] Hi. unfold event in *. rewrite Hr. simpl. destruct (Z.leb_spec 0 c); [|done].
  destruct (Z.leb_spec 0 i); [|done]. destruct (slots (rx W)) as [l|]; [|done]. simpl.
  by rewrite list_lookup_insert_ne by lia.
Qed.

Lemma slot_ok_frame c W W' i e : touches c W W' → i ≠ c → slot_ok (kn W) i e → slot_ok (kn W') i e.
Proof.
  intros HT Hi (Hb & Hs). split; [done|]. destruct Hs as [(Hs & [H1 H2 H3 H4])|(Hs & He)].
  - left. split; [done|]. split; [done|by apply (t_files _ _ _ HT)|by rewrite (t_epoll _ _ _ HT)|].
    destruct (t_log _ _ _ HT) as (n & _ & Hn). by rewrite (Hn i Hi).
  - right. by rewrite (t_epoll _ _ _ HT).
Qed.

Lemma good_touch c W W' : good W → c ≠ epfd (rx W) → touches c W W' → good W'.
Proof.
  intros HG Hc HT. destruct (t_slots _ _ _ HT) as (e' & He' & Hr & Hok).
  assert (Hep : epfd (rx W') = epfd (rx W)) by (by rewrite Hr).
  assert (Hs : ∃ l, slots (rx W') = Some l ∧ length l = Z.to_nat MAX_EPOLL_EVENTS).
  { destruct (g_slots _ HG) as (l & Hl & Hn). rewrite Hr. simpl. rewrite Hl. eexists. split; [done|].
    by rewrite length_insert. }
  split; [done| | | | | |].
  - intros i e He. destruct (decide (i = c)) as [->|Hi]; [by simplify_eq|].
    eapply slot_ok_frame; [done..|]. apply (g_ok _ HG). by rewrite <-(touches_event c W W').
  - intros f Hf. destruct (decide (f = c)) as [->|Hi].
    + destruct Hs as (l & Hl & Hn). unfold event in He'. destruct (Z.leb_spec 0 c); [|done].
      rewrite Hl in He'. apply lookup_lt_Some in He'. lia.
    + rewrite (t_epoll _ _ _ HT) in Hf by done. by apply (g_epoll _ HG).
  - rewrite (t_nofile _ _ _ HT). apply HG.
  - apply (t_recvs _ _ _ HT), HG.
  - rewrite Hep. split; [apply HG|]. apply (t_files _ _ _ HT); [done|apply HG].
  - rewrite Hep, (touches_event c W W') by done. apply HG.
Qed.

(** ** The operations on an event *)

Lemma del_ok W i e : event W i = Some e → status e = 1 → nty_event_del W i = Ok (0,
  with_kn (upd W i (NtyEvent (fd e) (events e) (callback e) 0 (buffer e) (length_ e) (last_active e)))
    (set_epoll (kn W) (delete (fd e) (epoll (kn W))))).
Proof. intros He Hs. unfold nty_event_del. by rewrite (ld_ok _ _ _ He), ok_bind, Hs, (st_ok _ _ _ _ He). Qed.

(** A record that is not in use is set up for descriptor [f]. *)
Definition armed (W : world) (f : Z) (cb : NCALLBACK) (evts : Z) (e : ntyevent) : world :=
  with_kn (upd W f (NtyEvent f evts (Some cb) 1 (buffer e) (length_ e) (now (kn W))))
    (set_epoll (kn W) (<[f := (evts, f)]> (epoll (kn W)))).

Lemma arm_ok {A} W f cb evts e (k : world → res A) : event W f = Some e → status e = 0 →
  epoll (kn W) !! f = None → f ∈ files (kn W) →
  (W ← nty_event_set W f f cb; '(_, W) ← nty_event_add W evts f; k W) = k (armed W f cb evts e).
Proof.
  intros He Hs Hn Hf. unfold nty_event_set. rewrite (ld_ok _ _ _ He), ok_bind, (st_ok _ _ _ _ He), ok_bind.
  unfold nty_event_add. rewrite (ld_upd _ _ _ _ He), ok_bind, (st_upd _ _ _ _ _ He), ok_bind. cbn [status fd].
  unfold epoll_ctl. cbn [kn upd]. rewrite Hs, Hn, bool_decide_false by (by intros []).
  by rewrite bool_decide_true by done.
Qed.

Lemma slice_front (d b : list Z) n : n = Z.of_nat (length d) → slice (d ++ b) 0 n = Ok d.
Proof.
  intros ->. rewrite slice_ok; [|lia|lia|rewrite length_app; lia]. rewrite drop_0, Nat2Z.id.
  by rewrite take_app_length.
Qed.

(** What [recv_cb] does with data, and without. *)
Lemma recv_data W f e d l : event W f = Some e → status e = 1 → fd e = f → f ∈ files (kn W) →
  length (buffer e) = Z.to_nat BUFFER_LENGTH → recvs (kn W) = Some d :: l → d ≠ [] →
  (length d < Z.to_nat BUFFER_LENGTH)%nat → ∃ b, length (d ++ b) = Z.to_nat BUFFER_LENGTH ∧
  recv_cb W f = Ok (Z.of_nat (length d),
    with_kn (upd W f (NtyEvent f EPOLLOUT (Some send_cb_) 1 (d ++ b) (Z.of_nat (length d)) (now (kn W))))
      (add_log (set_epoll (set_recvs (kn W) l) (<[f := (EPOLLOUT, f)]> (epoll (kn W)))) (Received f d))).
Proof.
  intros He Hs Hf Hof Hb Hr Hd Hn. unfold recv_cb. rewrite Hr. cbn [default from_option id].
  rewrite take_ge by lia. set (W1 := with_kn W _).
  assert (He1 : event W1 f = Some e) by done. rewrite (ld_ok _ _ _ He1), ok_bind.
  rewrite splice_over, ok_bind by lia. rewrite (st_ok _ _ _ _ He1), ok_bind.
  erewrite del_ok; [|by eapply event_upd|done]. rewrite ok_bind. cbn [set_buffer fd events callback status buffer length_ last_active].
  assert (Hlt : 0 < Z.of_nat (length d)) by (destruct d; [done|simpl; lia]).
  set (W2 := with_kn _ _). assert (He2 : event W2 f = Some
    (NtyEvent (fd e) (events e) (callback e) 0 (d ++ drop (length d) (buffer e)) (length_ e) (last_active e))).
  { unfold W2. rewrite event_kn, upd_upd. by eapply event_upd. }
  rewrite (ld_ok _ _ _ He2), ok_bind, (proj2 (Z.ltb_lt _ _)) by done. cbn [buffer].
  destruct (drop (length d) (buffer e)) as [|x b] eqn:Hx.
  { apply (f_equal length) in Hx. rewrite length_drop in Hx. simpl in Hx. lia. }
  rewrite aset_mid, ok_bind by done. rewrite (st_ok _ _ _ _ He2), ok_bind.
  erewrite arm_ok; [|by eapply (event_upd W2)|done|by simpl; rewrite Hf, lookup_delete_eq|done].
  exists (0 :: b). split.
  { apply (f_equal length) in Hx. rewrite length_drop in Hx. rewrite length_app. simpl in *. lia. }
  unfold armed, W2, W1, with_kn, set_epoll, add_log, set_recvs. cbn [kn rx upd set_buffer buffer length_ now epoll files nofile recvs sends accepts log fd events callback status last_active].
  do 3 f_equal; [|by rewrite Hf, insert_delete_eq].
  unfold upd. cbn [rx epfd slots]. f_equal. destruct (slots (rx W)) as [s|]; [|done]. simpl.
  by rewrite !list_insert_insert_eq.
Qed.

(** A step that replaces the record of [f] and takes these liberties with the kernel. *)
Lemma touches_upd W f e e' K : event W f = Some e → slot_ok K f e' →
  (∀ g, g ≠ f → epoll K !! g = epoll (kn W) !! g) → (∀ g, g ≠ f → (g ∈ files K ↔ g ∈ files (kn W))) →
  nofile K = nofile (kn W) → (∃ n, recvs K = drop n (recvs (kn W))) →
  (∃ n, log K = n ++ log (kn W) ∧ ∀ g, g ≠ f → session g (log K) = session g (log (kn W))) →
  touches f W (with_kn (upd W f e') K).
Proof.
  intros He Hok H1 H2 H3 (n & H4) H5. split; try done.
  - exists e'. split_and!; [by eapply event_upd|done|done].
  - cbn [kn with_kn]. rewrite H4. apply Forall_drop.
Qed.

Lemma upd_self W f e K : event W f = Some e → with_kn (upd W f e) K = with_kn W K.
Proof.
  unfold event, upd, with_kn. destruct (rx W) as [ep [s|]], (0 <=? f); try done. simpl.
  intros ?. by rewrite list_insert_id.
Qed.

Lemma touches_refl W f e : event W f = Some e → slot_ok (kn W) f e → touches f W W.
Proof.
  intros He Hok. destruct W as [R K]. change (World R K) with (with_kn (World R K) K) at 2.
  rewrite <-(upd_self _ f e) by done. apply (touches_upd _ _ e); try done; [by exists 0%nat|exists []; done].
Qed.

Lemma recv_data_touches W f e d l b t : event W f = Some e → status e = 1 → slot_ok (kn W) f e →
  callback e = Some recv_cb_ → recvs (kn W) = Some d :: l → d ≠ [] →
  (length d < Z.to_nat BUFFER_LENGTH)%nat → length (d ++ b) = Z.to_nat BUFFER_LENGTH →
  touches f W (with_kn (upd W f (NtyEvent f EPOLLOUT (Some send_cb_) 1 (d ++ b) (Z.of_nat (length d)) t))
      (add_log (set_epoll (set_recvs (kn W) l) (<[f := (EPOLLOUT, f)]> (epoll (kn W)))) (Received f d))).
Proof.
  intros He Hs (_ & [(_ & [H1 H2 H3 H4])|(H0 & _)]) Hc Hr Hd Hn Hb; [|lia]. rewrite Hc in H4. destruct H4 as (H4 & H5).
  apply (touches_upd _ _ e); [done| | |done|done| |].
  - split; [done|]. left. split; [done|]. split; cbn [fd events callback epoll files log set_epoll add_log set_recvs buffer length_];
      [done|done|by rewrite lookup_insert_eq|]. split; [done|].
    split; [destruct d; [done|]; unfold BUFFER_LENGTH in *; simpl in *; lia|].
    exists (session f (log (kn W))). cbn [session]. rewrite decide_True by done. rewrite Nat2Z.id, take_app_length. done.
  - intros g Hg. simpl. by rewrite lookup_insert_ne.
  - exists 1%nat. simpl. by rewrite Hr.
  - exists [Received f d]. split; [done|]. intros g Hg. by apply (session_other f).
Qed.

(** The end of a connection. *)
Definition ended (W : world) (f : Z) (e : ntyevent) (K : kernel) : world :=
  with_kn (upd W f (NtyEvent (fd e) (events e) (callback e) 0 (buffer e) (length_ e) (last_active e)))
    (Kernel (delete f (epoll (kn W))) (files (kn W) ∖ {[f]}) (nofile (kn W)) (now (kn W)) (recvs K) (sends K)
       (accepts (kn W)) (Closed f :: log (kn W))).

Lemma ended_touches W f e K : event W f = Some e → slot_ok (kn W) f e →
  (∃ n, recvs K = drop n (recvs (kn W))) → touches f W (ended W f e K).
Proof.
  intros He (Hb & _) Hr. apply (touches_upd _ _ e); [done| | | |done|done|].
  - split; [done|]. right. split; [done|]. simpl. by rewrite lookup_delete_eq.
  - intros g Hg. simpl. by rewrite lookup_delete_ne.
  - intros g Hg. simpl. set_solver.
  - exists [Closed f]. done.
Qed.

Lemma recv_end W f e l : event W f = Some e → status e = 1 → fd e = f → f ∈ files (kn W) →
  recvs (kn W) = None :: l ∨ recvs (kn W) = Some [] :: l ∨ recvs (kn W) = [] ∧ l = [] →
  ∃ n, recv_cb W f = Ok (n, ended W f e (set_recvs (kn W) l)).
Proof.
  intros He Hs Hf Hof Hr. unfold recv_cb.
  assert (Hans : ∃ a, match recvs (kn W) with [] => (None, []) | a :: l => (a, l) end = (a, l) ∧
    default [] a = []) by (destruct Hr as [->|[->|(-> & ->)]]; eexists; done).
  destruct Hans as (a & -> & ->). rewrite take_nil. set (len := match a with Some _ => _ | None => -1 end).
  set (W1 := with_kn W _). assert (He1 : event W1 f = Some e) by done. rewrite (ld_ok _ _ _ He1), ok_bind.
  rewrite splice_over, ok_bind by (simpl; lia). rewrite (st_ok _ _ _ _ He1), ok_bind.
  erewrite del_ok; [|by eapply event_upd|done]. rewrite ok_bind.
  erewrite ld_ok; [|by rewrite event_kn, upd_upd; eapply event_upd]. rewrite ok_bind.
  rewrite (proj2 (Z.ltb_ge _ _)) by (unfold len; destruct a; simpl; lia). exists len. do 2 f_equal.
  rewrite upd_upd. unfold ended, with_kn, close. cbn [kn rx upd set_buffer fd events callback status buffer length_ last_active
    set_epoll set_recvs files epoll W1 with_kn].
  rewrite Hf, decide_True by done. f_equal. cbn [log accepts sends recvs now nofile]. by rewrite delete_delete_eq.
Qed.

Lemma send_some W f e n l : event W f = Some e → status e = 1 → fd e = f → f ∈ files (kn W) →
  length (buffer e) = Z.to_nat BUFFER_LENGTH → 0 < length_ e < BUFFER_LENGTH → sends (kn W) = n :: l → 0 < n →
  send_cb W f = Ok (Z.min n (length_ e),
    with_kn (upd W f (NtyEvent f EPOLLIN (Some recv_cb_) 1 (buffer e) (length_ e) (now (kn W))))
      (add_log (set_epoll (set_sends (kn W) l) (<[f := (EPOLLIN, f)]> (epoll (kn W))))
         (Sent f (take (Z.to_nat n) (take (Z.to_nat (length_ e)) (buffer e)))))).
Proof.
  intros He Hs Hf Hof Hb Hl Hr Hn. unfold send_cb. rewrite (ld_ok _ _ _ He), ok_bind.
  rewrite slice_ok, ok_bind, Hr, (proj2 (Z.ltb_lt _ _)) by (unfold BUFFER_LENGTH in *; lia). rewrite drop_0.
  erewrite del_ok; [|done|done]. rewrite ok_bind.
  erewrite arm_ok; [|rewrite event_kn; by eapply event_upd|done|by simpl; rewrite Hf, lookup_delete_eq|done].
  unfold armed, with_kn, set_epoll, add_log, set_sends.
  cbn [kn rx upd now epoll files nofile recvs sends accepts log fd events callback status buffer length_ last_active].
  do 3 f_equal.
  - unfold upd. cbn [rx epfd slots]. f_equal. destruct (slots (rx W)) as [s|]; [|done]. simpl.
    by rewrite !list_insert_insert_eq.
  - f_equal; [by rewrite Hf, insert_delete_eq|]. do 2 f_equal. rewrite !take_take. f_equal. lia.
Qed.

Lemma send_some_touches W f e n l t : event W f = Some e → status e = 1 → slot_ok (kn W) f e →
  callback e = Some send_cb_ → sends (kn W) = n :: l → 0 < n →
  touches f W (with_kn (upd W f (NtyEvent f EPOLLIN (Some recv_cb_) 1 (buffer e) (length_ e) t))
      (add_log (set_epoll (set_sends (kn W) l) (<[f := (EPOLLIN, f)]> (epoll (kn W))))
         (Sent f (take (Z.to_nat n) (take (Z.to_nat (length_ e)) (buffer e)))))).
Proof.
  intros He Hs (Hb & [(_ & [H1 H2 H3 H4])|(H0 & _)]) Hc Hr Hn; [|lia]. rewrite Hc in H4.
  destruct H4 as (H4 & Hl & io & Hio & Hec).
  apply (touches_upd _ _ e); [done| | |done|done| |].
  - split; [done|]. left. split; [done|]. split; cbn [fd events callback epoll files log set_epoll add_log set_sends buffer length_];
      [done|done|by rewrite lookup_insert_eq|]. split; [done|].
    cbn [session]. rewrite decide_True, Hio by done. constructor; [|apply prefix_take|done].
    intros Hx%(f_equal length). rewrite !length_take in Hx. unfold BUFFER_LENGTH in *. simpl in Hx. lia.
  - intros g Hg. simpl. by rewrite lookup_insert_ne.
  - by exists 0%nat.
  - eexists [_]. split; [done|]. intros g Hg. by apply (session_other f).
Qed.

Lemma send_end W f e : event W f = Some e → status e = 1 → fd e = f → f ∈ files (kn W) →
  length (buffer e) = Z.to_nat BUFFER_LENGTH → 0 < length_ e < BUFFER_LENGTH →
  match sends (kn W) with [] => True | n :: _ => n ≤ 0 end →
  ∃ n, send_cb W f = Ok (n, ended W f e (set_sends (kn W) (tail (sends (kn W))))).
Proof.
  intros He Hs Hf Hof Hb Hl Hn. unfold send_cb. rewrite (ld_ok _ _ _ He), ok_bind.
  rewrite slice_ok, ok_bind by (unfold BUFFER_LENGTH in *; lia).
  assert (Hans : ∃ a, match sends (kn W) with [] => (-1, []) | a :: l => (a, l) end = (a, tail (sends (kn W))) ∧
    a ≤ 0) by (destruct (sends (kn W)); eexists; (split; [done|lia])).
  destruct Hans as (a & -> & Ha). rewrite (proj2 (Z.ltb_ge _ _)) by lia.
  erewrite del_ok; [|done|done]. rewrite ok_bind. eexists. do 2 f_equal.
  unfold ended, with_kn, close. cbn [kn rx upd set_epoll set_sends files epoll with_kn].
  rewrite Hf, decide_True by done. f_equal. cbn [log accepts sends recvs now nofile files epoll set_epoll]. by rewrite delete_delete_eq.
Qed.

Lemma find_slot_ok W p n : ∀ i, (∀ j, i ≤ j ≤ p → ∃ e, event W j = Some e) → status <$> event W p = Some 0 →
  i ≤ p < i + Z.of_nat n → ∃ j, find_slot n W i = Ok j ∧ i ≤ j ≤ p.
Proof.
  induction n as [|n IH]; intros i Hev Hp Hi; [lia|]. cbn [find_slot].
  destruct (Hev i) as (e & He); [lia|]. rewrite (ld_ok _ _ _ He), ok_bind.
  destruct (Z.eqb_spec (status e) 0) as [H0|H0]; [exists i; split; [done|lia]|].
  destruct (decide (i = p)) as [->|Hne]; [rewrite He in Hp; simpl in Hp; congruence|].
  destruct (IH (i + 1)) as (j & -> & ?); [intros j ?; apply Hev; lia|done|lia|].
  exists j. split; [done|lia].
Qed.

Lemma good_not_epfd W i e : good W → event W i = Some e → status e = 1 → i ≠ epfd (rx W).
Proof. intros HG He Hs ->. pose proof (g_free _ HG) as Hf. rewrite He in Hf. simpl in Hf. congruence. Qed.

(** A closed descriptor has no record in use. *)
Lemma closed_unused W c e : good W → event W c = Some e → c ∉ files (kn W) →
  status e = 0 ∧ epoll (kn W) !! c = None.
Proof.
  intros HG He Hc. destruct (g_ok _ HG _ _ He) as (_ & [(_ & Hw)|?]); [|done]. by destruct Hc, Hw.
Qed.

Lemma accept_ok W f ef : good W → event W f = Some ef → status ef = 1 → ∃ n W' c,
  accept_cb W f = Ok (n, W') ∧ touches c W W' ∧ (c = f ∨ c ∉ files (kn W)) ∧ event W' f = Some ef.
Proof.
  intros HG Hef Hsf. unfold accept_cb, accept. set (q := match accepts (kn W) with [] => _ | _ => _ end).
  destruct q as [[w nb] l]. pose proof (g_ok _ HG _ _ Hef) as Hokf.
  assert (Hnone : touches f W (with_kn W (Kernel (epoll (kn W)) (files (kn W)) (nofile (kn W)) (now (kn W))
    (recvs (kn W)) (sends (kn W)) l (log (kn W))))).
  { rewrite <-(upd_self W f ef) by done. apply (touches_upd _ _ ef); try done; [|by exists 0%nat|exists []; done].
    destruct Hokf as (Hb & [(Hs & [])|(Hs & He)]); (split; [done|]); [left; by split|by right]. }
  destruct w; [|by eauto 10]. destruct (lowest (kn W)) as [c|] eqn:Hc; [|by eauto 10]. clear Hnone.
  apply lowest_free in Hc as (Hc & Hr). pose proof (g_nofile _ HG) as Hnf.
  destruct (event_is_some W c) as (e & He); [done|lia|]. destruct (closed_unused W c e HG He Hc) as (Hs & Hep).
  assert (Hcf : f ≠ c) by (intros ->; rewrite Hef in He; injection He as ->; lia).
  set (K' := Kernel (epoll (kn W)) _ _ _ _ _ _ _). destruct (g_epfd _ HG) as (Hepr & Hepf).
  destruct (find_slot_ok (with_kn W K') (epfd (rx W)) (Z.to_nat (MAX_EPOLL_EVENTS - 3)) 3) as (i & -> & Hi).
  { intros j Hj. apply (event_is_some W); [done|lia]. }
  { apply (g_free _ HG). }
  { lia. }
  rewrite ok_bind, (proj2 (Z.eqb_neq i _)) by lia. destruct (event_is_some W i) as (ei & Hei); [done|lia|].
  assert (Hb : length (buffer e) = Z.to_nat BUFFER_LENGTH) by apply (g_ok _ HG _ _ He).
  assert (Hlog : ∃ n, log K' = n ++ log (kn W) ∧ ∀ g, g ≠ c → session g (log K') = session g (log (kn W))).
  { exists [Opened c]. split; [done|]. intros g Hg. by apply (session_other c). }
  assert (Hfiles : ∀ g, g ≠ c → (g ∈ files K' ↔ g ∈ files (kn W))) by (intros g Hg; simpl; set_solver).
  destruct nb; cbn [negb].
  - erewrite (arm_ok (A:=world)); [|done|done|done|by simpl; set_solver]. rewrite ok_bind.
    set (W' := armed _ _ _ _ _). assert (HT : touches c W W').
    { change W' with (with_kn (upd W c (NtyEvent c EPOLLIN (Some recv_cb_) 1 (buffer e) (length_ e) (now (kn W))))
        (set_epoll K' (<[c := (EPOLLIN, c)]> (epoll (kn W))))). apply (touches_upd _ _ e); [done| | |done|done|by exists 0%nat|done].
      - split; [done|]. left. split; [done|]. split; [done|simpl; set_solver|by simpl; rewrite lookup_insert_eq|].
        cbn [callback]. split; [done|]. simpl. rewrite decide_True by done. constructor.
      - intros g Hg. simpl. by rewrite lookup_insert_ne. }
    assert (Hi' : ∃ e', event W' i = Some e').
    { destruct (decide (i = c)) as [->|]; [eexists; by eapply (event_upd (with_kn W K'))|].
      rewrite (touches_event c W) by done. eauto. }
    destruct Hi' as (e' & Hi'). rewrite (ld_ok _ _ _ Hi'), ok_bind. do 3 eexists. split_and!; [done|done|by right|].
    by rewrite (touches_event c W).
  - rewrite ok_bind. erewrite ld_ok, ok_bind by done. do 3 eexists. split_and!; [done| |by right|done].
    rewrite <-(upd_self W c e) by done. apply (touches_upd _ _ e); try done; [|by exists 0%nat].
    split; [done|]. by right.
Qed.

(** ** The loop *)

(** A callback is about its own descriptor or about a new one, and [accept_cb] leaves the
    listener's record alone. *)
Definition calls (W : world) (i : Z) (e : ntyevent) (r : res world) : Prop :=
  ∃ W' c, r = Ok W' ∧ touches c W W' ∧ (c = i ∨ c ∉ files (kn W)) ∧
    (callback e = Some accept_cb_ → event W' i = Some e).

Lemma run_cb_calls W i e : good W → event W i = Some e → status e = 1 → calls W i e (run_cb (callback e) W (fd e)).
Proof.
  intros HG He Hs. pose proof (g_ok _ HG _ _ He) as Hok. pose proof Hok as (Hb & [(_ & [H1 H2 H3 H4])|(H0 & _)]); [|lia].
  rewrite H1. unfold run_cb, calls. destruct (callback e) as [[]|] eqn:Hc; [| | |done].
  - destruct (accept_ok W i e) as (n & W' & c & -> & HT & Hcf & Hi); [done..|]. rewrite ok_bind. eauto 10.
  - pose proof (g_short _ HG) as Hsh. destruct (recvs (kn W)) as [|[[|x d]|] l] eqn:Hr.
    2: { destruct (recv_end W i e l) as (n & ->); [auto..|]. rewrite ok_bind. eexists _, i.
         split_and!; [done| |by left|done]. apply ended_touches; [done..|]. exists 1%nat. simpl. by rewrite Hr. }
    2: { pose proof (Forall_inv Hsh _ eq_refl) as Hd.
         destruct (recv_data W i e (x :: d) l) as (b & Hlb & ->); [done..|]. rewrite ok_bind. eexists _, i.
         split_and!; [done| |by left|done]. by eapply recv_data_touches. }
    all: destruct (recv_end W i e (tail (recvs (kn W)))) as (n & E); [rewrite ?Hr; auto..|];
      rewrite E, ok_bind; eexists _, i; (split_and!; [done| |by left|done]);
      apply ended_touches; [done..|]; simpl; rewrite Hr; by exists 1%nat.
  - destruct H4 as (H4 & Hl & _). assert (Hd : (∃ n l, sends (kn W) = n :: l ∧ 0 < n) ∨
      match sends (kn W) with [] => True | n :: _ => n ≤ 0 end).
    { destruct (sends (kn W)) as [|n l]; [by right|]. destruct (Z.le_gt_cases n 0); [by right|eauto]. }
    destruct Hd as [(n & l & Hr & Hn)|Hn].
    + erewrite send_some by done. rewrite ok_bind. eexists _, i. split_and!; [done| |by left|done].
      by eapply send_some_touches.
    + destruct (send_end W i e) as (n & ->); [done..|].
      rewrite ok_bind. eexists _, i. split_and!; [done| |by left|done].
      apply ended_touches; [done..|]. by exists 0%nat.
Qed.

Lemma watched_events K i e : watched K i e → events e = EPOLLIN ∨ events e = EPOLLOUT.
Proof. intros [_ _ _ H]. destruct (callback e) as [[]|]; naive_solver. Qed.

Lemma calls_good W i e r : good W → event W i = Some e → status e = 1 → calls W i e r → ∃ W', r = Ok W' ∧ good W'.
Proof.
  intros HG He Hs (W' & c & -> & HT & Hc & _). exists W'. split; [done|]. eapply good_touch; [done| |done].
  intros ->. destruct Hc as [Hc|Hc]; [|apply Hc, HG].
  by eapply (good_not_epfd W i).
Qed.

(** An event reported for what its record waits for leads to one call. *)
Lemma dispatch_ok W i e r : good W → event W i = Some e → status e = 1 → Z.land r (events e) ≠ 0 →
  calls W i e (dispatch W (i, Z.land r (events e))).
Proof.
  intros HG He Hs Hm. pose proof (g_ok _ HG _ _ He) as (_ & [(_ & Hw)|(H0 & _)]); [|lia].
  unfold dispatch. rewrite (ld_ok _ _ _ He), ok_bind.
  assert (Hcall := run_cb_calls W i e HG He Hs). destruct (watched_events _ _ _ Hw) as [Ev|Ev]; rewrite Ev in *.
  - assert (Z.land r EPOLLIN = 1) as ->.
    { pose proof (land_pow2 r 0 ltac:(lia)) as E. change (2 ^ 0) with EPOLLIN in E.
      destruct (Z.testbit r 0); [exact E|]. by destruct Hm. }
    change (negb (Z.land 1 EPOLLIN =? 0) && negb (Z.land EPOLLIN EPOLLIN =? 0)) with true. cbn [mbind].
    destruct (calls_good _ _ _ _ HG He Hs Hcall) as (W' & HW & HG'). rewrite HW in *. rewrite ok_bind.
    destruct (event_is_some W' i HG') as (e' & He'); [exact (event_range W i e HG He)|]. rewrite (ld_ok _ _ _ He'), ok_bind.
    done.
  - assert (Z.land r EPOLLOUT = 4) as ->.
    { pose proof (land_pow2 r 2 ltac:(lia)) as E. change (2 ^ 2) with EPOLLOUT in E.
      destruct (Z.testbit r 2); [exact E|]. by destruct Hm. }
    change (negb (Z.land 4 EPOLLIN =? 0) && negb (Z.land EPOLLOUT EPOLLIN =? 0)) with false.
    cbv iota. rewrite ok_bind, (ld_ok _ _ _ He), ok_bind, Ev. done.
Qed.

(** The events reported are about distinct records, and stay valid until their turn. *)
Definition pending (W : world) (r : Z * Z) : Prop :=
  ∃ e x, event W r.1 = Some e ∧ status e = 1 ∧ r.2 = Z.land x (events e) ∧ r.2 ≠ 0.

Lemma pending_touch W W' c i r : good W → touches c W W' → (c = i ∨ c ∉ files (kn W)) → r.1 ≠ i →
  pending W r → pending W' r.
Proof.
  intros HG HT Hc Hr (e & x & He & Hs & Hx). exists e, x. split; [|done].
  rewrite (touches_event c W); [done..|]. intros <-. destruct Hc as [Hc|Hc]; [done|].
  destruct (closed_unused _ _ _ HG He Hc). lia.
Qed.

Lemma epoll_wait_pending W ready : good W → NoDup (map fst ready) →
  NoDup (map fst (epoll_wait MAX_EPOLL_EVENTS (kn W) ready)) ∧ Forall (pending W) (epoll_wait MAX_EPOLL_EVENTS (kn W) ready) ∧
  ∀ i, i ∈ map fst (epoll_wait MAX_EPOLL_EVENTS (kn W) ready) → i ∈ map fst ready.
Proof.
  intros HG Hnd.
  assert (Hep : ∀ f evts i, epoll (kn W) !! f = Some (evts, i) → i = f ∧ ∃ e, event W f = Some e ∧ status e = 1 ∧ events e = evts).
  { intros f evts i Hf. destruct (event_is_some W f HG) as (e & He); [apply (g_epoll _ HG); eauto|].
    destruct (g_ok _ HG _ _ He) as (_ & [(Hs & [_ _ H _])|(_ & H)]); rewrite Hf in H; [|done].
    simplify_eq. eauto. }
  destruct (epoll_wait_reports MAX_EPOLL_EVENTS (kn W) ready) as (H1 & H2 & H3); [by intros f evts i (-> & _)%Hep|done|].
  split_and!; [done| |done]. eapply Forall_impl; [exact H2|]. intros r (evts & x & Hr & Hx & Hx0).
  destruct (Hep _ _ _ Hr) as (_ & e & He & Hs & <-). by exists e, x.
Qed.

Lemma touches_log c W W' : touches c W W' → log (kn W) `suffix_of` log (kn W').
Proof. intros HT. destruct (t_log _ _ _ HT) as (n & -> & _). by exists n. Qed.

(** A record that is in use and is not called keeps its value; so does the listener's. *)
Definition spared (l : list Z) (i : Z) (e : ntyevent) : Prop := callback e = Some accept_cb_ ∨ i ∉ l.

Lemma dispatch_all_ok rs : ∀ W, good W → NoDup (map fst rs) → Forall (pending W) rs →
  ∃ W', dispatch_all rs W = Ok W' ∧ good W' ∧ log (kn W) `suffix_of` log (kn W') ∧
  ∀ i e, event W i = Some e → status e = 1 → spared (map fst rs) i e → event W' i = Some e.
Proof.
  induction rs as [|[j m] rs IH]; intros W HG Hnd Hp; cbn [dispatch_all]; [by exists W|].
  apply NoDup_cons in Hnd as (Hj & Hnd'). apply Forall_cons in Hp as ((ej & x & Hej & Hsj & Hm & Hm0) & Hp').
  simpl in Hej, Hm, Hm0. subst m. pose proof (dispatch_ok W j ej x HG Hej Hsj Hm0) as Hc.
  destruct (calls_good _ _ _ _ HG Hej Hsj Hc) as (W1 & HW1 & HG1). destruct Hc as (W1' & c & E & HT & Hcj & Hacc).
  rewrite E in HW1. injection HW1 as ->. rewrite E, ok_bind.
  destruct (IH W1) as (W' & -> & HG' & Hlog & Hkeep); [done|done| |].
  { apply Forall_forall. intros r Hr. rewrite Forall_forall in Hp'. eapply (pending_touch W W1 c j); try done; [|by apply Hp'].
    intros Hrj. apply Hj. rewrite <-Hrj. by apply (list_elem_of_fmap_2 fst rs r). }
  exists W'. split; [done|]. split; [done|]. split; [etrans; [by eapply touches_log|done]|].
  intros i e He Hs Hsp. apply Hkeep; [|done|destruct Hsp; [by left|right; set_solver]].
  destruct (decide (i = j)) as [->|Hij].
  - simplify_eq. destruct Hsp as [Hsp|Hsp]; [by apply Hacc|simpl in Hsp; set_solver].
  - rewrite (touches_event c W); [done..|]. intros ->. destruct Hcj as [|Hcj]; [done|].
    destruct (closed_unused _ _ _ HG He Hcj). lia.
Qed.

Lemma good_now W t : good W → good (with_kn W (set_now (kn W) t)).
Proof.
  intros HG. split; try apply HG. intros i e He. destruct (g_ok _ HG _ _ He) as (Hb & [(Hs & [])|H]); split; try done.
  - left. by split.
  - by right.
Qed.

(** What the loop does with one record. *)
Definition visit (t : Z) (W : world) (i : Z) : world :=
  match event W i with
  | Some e => if (status e =? 1) && (60 <=? t - last_active e) then ended W i e (kn W) else W
  | None => W
  end.

Lemma sweep_step n t W c : good W → 0 ≤ c ≤ MAX_EPOLL_EVENTS → let c' := if c =? MAX_EPOLL_EVENTS then 0 else c in
  sweep (S n) t W c = sweep n t (visit t W c') (c' + 1).
Proof.
  intros HG Hc c'. cbn [sweep]. fold c'. assert (Hc' : 0 ≤ c' < MAX_EPOLL_EVENTS).
  { unfold c'. destruct (Z.eqb_spec c MAX_EPOLL_EVENTS); [done|lia]. }
  destruct (event_is_some W c' HG Hc') as (e & He). unfold visit. rewrite (ld_ok _ _ _ He), ok_bind, He.
  destruct (Z.eqb_spec (status e) 1) as [Hs|Hs]; cbn [negb andb]; [|done].
  destruct (60 <=? _); [|done]. destruct (g_ok _ HG _ _ He) as (_ & [(_ & [H1 H2 _ _])|(H0 & _)]); [|lia].
  erewrite del_ok by done. rewrite !ok_bind. f_equal.
  unfold ended, with_kn, close. cbn [kn rx upd]. rewrite H1, decide_True by done. f_equal. cbn. f_equal. by rewrite delete_delete_eq.
Qed.

Lemma visit_touches t W i : good W → 0 ≤ i < MAX_EPOLL_EVENTS → touches i W (visit t W i) ∧ good (visit t W i).
Proof.
  intros HG Hi. destruct (event_is_some W i HG Hi) as (e & He). unfold visit. rewrite He.
  pose proof (g_ok _ HG _ _ He) as Hok. destruct (Z.eqb_spec (status e) 1) as [Hs|Hs]; cbn [andb].
  - assert (Hne : i ≠ epfd (rx W)) by (by eapply good_not_epfd).
    destruct (60 <=? _).
    + assert (HT : touches i W (ended W i e (kn W))) by (apply ended_touches; [done..|by exists 0%nat]).
      split; [done|]. by eapply good_touch.
    + split; [by eapply touches_refl|done].
  - split; [by eapply touches_refl|done].
Qed.

(** Position [c] of the loop, and whether [n] steps from there reach record [i]. *)
Definition reached (c : Z) (n : nat) (i : Z) : Prop := (i - c) mod MAX_EPOLL_EVENTS < Z.of_nat n.
Definition idle (t : Z) (e : ntyevent) : Prop := status e = 1 ∧ 60 ≤ t - last_active e.
#[local] Instance reached_dec c n i : Decision (reached c n i). Proof. unfold reached. apply _. Defined.
#[local] Instance idle_dec t e : Decision (idle t e). Proof. unfold idle. apply _. Defined.

(** Record [i] is closed, or as it was. *)
Definition shut (W : world) (i : Z) : Prop :=
  status <$> event W i = Some 0 ∧ i ∉ files (kn W) ∧ epoll (kn W) !! i = None ∧ Closed i ∈ log (kn W).
Definition kept (W W' : world) (i : Z) : Prop :=
  event W' i = event W i ∧ epoll (kn W') !! i = epoll (kn W) !! i ∧ (i ∈ files (kn W') ↔ i ∈ files (kn W)).

Lemma kept_touches c W W' i : touches c W W' → i ≠ c → kept W W' i.
Proof.
  intros HT Hi. split_and!; [by eapply touches_event|by apply (t_epoll _ _ _ HT)|by apply (t_files _ _ _ HT)].
Qed.

Lemma shut_kept W W' i : kept W W' i → log (kn W) `suffix_of` log (kn W') → shut W i → shut W' i.
Proof.
  intros (H1 & H2 & H3) (n & Hn) (S1 & S2 & S3 & S4). split_and!; [by rewrite H1|by rewrite H3|by rewrite H2|].
  rewrite Hn. apply elem_of_app. by right.
Qed.

Lemma kept_then W1 W2 W3 i : kept W1 W2 i → kept W2 W3 i → kept W1 W3 i.
Proof. intros (A1 & A2 & A3) (B1 & B2 & B3). unfold kept. by rewrite B1, B2, B3. Qed.

(** A visit closes an idle record and leaves any other as it is. *)
Lemma visit_spec t W i e : good W → event W i = Some e →
  (idle t e → shut (visit t W i) i) ∧ (¬ idle t e → visit t W i = W).
Proof.
  intros HG He. unfold visit. rewrite He.
  assert ((status e =? 1) && (60 <=? t - last_active e) = bool_decide (idle t e)) as ->.
  { apply eq_true_iff_eq. rewrite andb_true_iff, bool_decide_eq_true, Z.eqb_eq, Z.leb_le. done. }
  case_bool_decide as Hd; (split; [intros Hi|done]); [|done].
  split_and!.
  - unfold ended. rewrite event_kn. by erewrite event_upd.
  - simpl. set_solver.
  - simpl. by rewrite lookup_delete_eq.
  - simpl. left.
Qed.

Lemma sweep_general t n : (n ≤ Z.to_nat MAX_EPOLL_EVENTS)%nat → ∀ W c, good W → 0 ≤ c ≤ MAX_EPOLL_EVENTS →
  ∃ W' c', sweep n t W c = Ok (W', c') ∧ good W' ∧ 0 ≤ c' ≤ MAX_EPOLL_EVENTS ∧
  c' mod MAX_EPOLL_EVENTS = (c + Z.of_nat n) mod MAX_EPOLL_EVENTS ∧
  log (kn W) `suffix_of` log (kn W') ∧
  ∀ i e, event W i = Some e → if decide (reached c n i ∧ idle t e) then shut W' i else kept W W' i.
Proof.
  induction n as [|n IH]; intros Hn W c HG Hc.
  { exists W, c. rewrite Z.add_0_r. split_and!; try done; try lia. intros i e He.
    rewrite decide_False; [done|]. unfold reached, MAX_EPOLL_EVENTS. intros (H & _). zdiv. }
  rewrite sweep_step by done. set (d := if _ =? _ then 0 else c).
  assert (Hd : 0 ≤ d < MAX_EPOLL_EVENTS ∧ d mod MAX_EPOLL_EVENTS = c mod MAX_EPOLL_EVENTS).
  { unfold d. destruct (Z.eqb_spec c MAX_EPOLL_EVENTS) as [->|]; unfold MAX_EPOLL_EVENTS in *; [done|lia]. }
  destruct Hd as (Hd & Hdc). destruct (visit_touches t W d HG Hd) as (HT & HG1).
  destruct (IH ltac:(lia) _ (d + 1) HG1) as (W' & c' & -> & HG' & Hc' & Hmod & Hlog & Hi); [lia|].
  exists W', c'. split_and!; [done|done|lia|lia| | |].
  - rewrite Hmod. clear -Hd Hdc. unfold MAX_EPOLL_EVENTS in *. zdiv.
  - etrans; [by eapply touches_log|done].
  - intros i e He. pose proof (event_range _ _ _ HG He) as Hir. destruct (decide (i = d)) as [->|Hid].
    + destruct (visit_spec t W d e HG He) as (V1 & V2).
      assert (Hr : reached c (S n) d) by (unfold reached; clear -Hd Hdc; unfold MAX_EPOLL_EVENTS in *; zdiv).
      assert (Hnr : ¬ reached (d + 1) n d) by (unfold reached; clear -Hd Hn; unfold MAX_EPOLL_EVENTS in *; zdiv).
      destruct (event_is_some _ d HG1 Hd) as (e1 & He1). specialize (Hi d e1 He1).
      rewrite decide_False in Hi by naive_solver. destruct (decide (idle t e)) as [Hdl|Hdl].
      * rewrite decide_True by done. by eapply shut_kept; [..|apply V1].
      * rewrite decide_False by naive_solver. by rewrite V2 in Hi.
    + assert (He1 : event (visit t W d) i = Some e) by (by rewrite (touches_event d W)).
      specialize (Hi i e He1). assert (Hr : reached (d + 1) n i ↔ reached c (S n) i).
      { unfold reached. clear -Hd Hdc Hir Hid. unfold MAX_EPOLL_EVENTS in *. zdiv. }
      destruct (decide (reached c (S n) i ∧ idle t e)) as [Hx|Hx].
      * by rewrite decide_True in Hi by naive_solver.
      * rewrite decide_False in Hi by naive_solver. eapply kept_then; [by eapply kept_touches|done].
Qed.

(** The descriptors ready in an iteration. *)
Definition ready_in (r : turn) : list Z := match waited r with Some (_, l) => map fst l | None => [] end.

Lemma iteration_ok r W c : good W → 0 ≤ c ≤ MAX_EPOLL_EVENTS → NoDup (ready_in r) →
  ∃ W' c', iteration r (W, c) = Ok (W', c') ∧ good W' ∧ 0 ≤ c' ≤ MAX_EPOLL_EVENTS ∧
  c' mod MAX_EPOLL_EVENTS = (c + 100) mod MAX_EPOLL_EVENTS ∧ log (kn W) `suffix_of` log (kn W') ∧
  ∀ i e, event W i = Some e → status e = 1 → spared (ready_in r) i e →
    if decide (reached c 100 i ∧ idle (time r) e) then Closed i ∈ log (kn W') else event W' i = Some e.
Proof.
  intros HG Hc Hnd. unfold iteration.
  destruct (sweep_general (time r) 100 ltac:(unfold MAX_EPOLL_EVENTS; lia) _ c (good_now W (time r) HG) Hc)
    as (W1 & c' & -> & HG1 & Hc' & Hmod & Hlog1 & Hi1).
  rewrite ok_bind. unfold ready_in in *. destruct (waited r) as [[t l]|].
  - pose proof (good_now W1 t HG1) as HG2. set (W2 := with_kn W1 _) in *.
    destruct (epoll_wait_pending W2 l HG2 Hnd) as (Hnd' & Hp & Hin).
    destruct (dispatch_all_ok _ W2 HG2 Hnd' Hp) as (W' & -> & HG' & Hlog & Hk).
    rewrite ok_bind. exists W', c'. split_and!; [done|done|lia|lia|done|by etrans|].
    intros i e He Hs Hsp. specialize (Hi1 i e He). destruct (decide _).
    + destruct Hlog as (n & ->). apply elem_of_app. right. apply Hi1.
    + apply Hk; [|done|destruct Hsp as [|Hsp]; [by left|right; auto]]. destruct Hi1 as (Hi1 & _).
      unfold W2. by rewrite event_kn, Hi1.
  - exists W1, c'. split_and!; [done|done|lia|lia|done|done|].
    intros i e He Hs Hsp. specialize (Hi1 i e He). destruct (decide _); [apply Hi1|].
    destruct Hi1 as (Hi1 & _). by rewrite Hi1.
Qed.

Lemma iterations_ok rs : ∀ W c, good W → 0 ≤ c ≤ MAX_EPOLL_EVENTS → Forall (λ r, NoDup (ready_in r)) rs →
  ∃ W' c', iterations rs (W, c) = Ok (W', c') ∧ good W' ∧ 0 ≤ c' ≤ MAX_EPOLL_EVENTS ∧
  log (kn W) `suffix_of` log (kn W') ∧
  ∀ i e, event W i = Some e → status e = 1 → Forall (λ r, spared (ready_in r) i e) rs →
    Closed i ∈ log (kn W') ∨ event W' i = Some e.
Proof.
  induction rs as [|r rs IH]; intros W c HG Hc Hrs; cbn [iterations].
  { exists W, c. split_and!; [done|done|lia|lia|done|]. intros i e He _ _. by right. }
  apply Forall_cons in Hrs as (Hr & Hrs).
  destruct (iteration_ok r W c HG Hc Hr) as (W1 & c1 & -> & HG1 & Hc1 & _ & Hlog & Hi). rewrite ok_bind.
  destruct (IH W1 c1 HG1 Hc1 Hrs) as (W' & c' & -> & HG' & Hc' & Hlog' & Hi').
  exists W', c'. split_and!; [done|done|lia|lia|by etrans|]. intros i e He Hs Hsp.
  apply Forall_cons in Hsp as (Hsp & Hsps). specialize (Hi i e He Hs Hsp). destruct (decide _); [|by apply Hi'].
  left. destruct Hlog' as (n & Hn). rewrite Hn. apply elem_of_app. by right.
Qed.

Lemma iterations_app rs rs' : ∀ s, iterations (rs ++ rs') s = (s' ← iterations rs s; iterations rs' s').
Proof. induction rs as [|r rs IH]; intros s; cbn [iterations app]; [done|].
  destruct (iteration r s) as [s'|x]; [|done]. by rewrite !ok_bind, IH.
Qed.

Lemma idle_closed rs i e : status e = 1 → ∀ W c, good W → 0 ≤ c ≤ MAX_EPOLL_EVENTS → event W i = Some e →
  Forall (λ r, NoDup (ready_in r) ∧ 60 ≤ time r - last_active e ∧ spared (ready_in r) i e) rs →
  (i - c) mod MAX_EPOLL_EVENTS < 100 * Z.of_nat (length rs) →
  ∃ W' c', iterations rs (W, c) = Ok (W', c') ∧ good W' ∧ Closed i ∈ log (kn W').
Proof.
  intros Hs. induction rs as [|r rs IH]; intros W c HG Hc He Hrs Hd; cbn [iterations].
  { unfold MAX_EPOLL_EVENTS in *. simpl in Hd. exfalso. zdiv. }
  apply Forall_cons in Hrs as ((Hnd & Ht & Hsp) & Hrs).
  destruct (iteration_ok r W c HG Hc Hnd) as (W1 & c1 & -> & HG1 & Hc1 & Hmod & _ & Hi). rewrite ok_bind.
  specialize (Hi i e He Hs Hsp). destruct (decide _) as [_|Hn].
  - destruct (iterations_ok rs W1 c1 HG1 Hc1) as (W' & c' & -> & HG' & _ & (n & Hlog) & _).
    { eapply Forall_impl; [exact Hrs|]. naive_solver. }
    exists W', c'. split; [done|]. split; [done|]. rewrite Hlog. apply elem_of_app. by right.
  - apply (IH W1 c1); [done|lia|done|done|]. assert (Hnr : ¬ reached c 100 i) by (intros ?; apply Hn; by split).
    unfold reached in Hnr. simpl length in Hd. clear -Hnr Hd Hmod. unfold MAX_EPOLL_EVENTS in *. zdiv.
Qed.

(** ** From main on *)

(** Storage in which no record is marked as in use. *)
Definition clean (l : list ntyevent) : Prop :=
  length l = Z.to_nat MAX_EPOLL_EVENTS ∧ Forall (λ e, status e = 0 ∧ length (buffer e) = Z.to_nat BUFFER_LENGTH) l.

(** The process before main has set the reactor up: the two descriptors are open, the
    limit on descriptors is at most the size of the table, and clients send less than a buffer at
    a time. *)
Record starting (K : kernel) (sockfd ep : Z) : Prop := Starting {
  s_sock : 0 ≤ sockfd < MAX_EPOLL_EVENTS ∧ sockfd ∈ files K;
  s_ep : 3 ≤ ep < MAX_EPOLL_EVENTS ∧ ep ∈ files K;
  s_ne : sockfd ≠ ep;
  s_epoll : epoll K = ∅;
  s_log : log K = [];
  s_nofile : nofile K ≤ MAX_EPOLL_EVENTS;
  s_short : Forall short (recvs K)
}.

Lemma init_good K ep sockfd l : starting K sockfd ep → clean l → good (World (Reactor ep (Some l)) K) ∧
  ∀ i e, event (World (Reactor ep (Some l)) K) i = Some e → status e = 0.
Proof.
  intros [H1 H2 H3 H4 H4' H5 H6] (Hl & Hc).
  assert (Hev : ∀ i e, event (World (Reactor ep (Some l)) K) i = Some e →
    status e = 0 ∧ length (buffer e) = Z.to_nat BUFFER_LENGTH).
  { intros i e. unfold event. destruct (_ <=? _); [|done]. simpl. intros He. rewrite Forall_lookup in Hc. by eapply Hc. }
  split; [|by intros; eapply Hev]. split; simpl; [eauto| | |done|done|done|].
  - intros i e He. destruct (Hev i e He). split; [done|]. right. by rewrite H4.
  - rewrite H4. intros f [x Hx]. by rewrite lookup_empty in Hx.
  - destruct (lookup_lt_is_Some_2 l (Z.to_nat ep)) as (e & He); [lia|].
    assert (E : event (World (Reactor ep (Some l)) K) ep = Some e).
    { unfold event. destruct (Z.leb_spec 0 ep); [done|lia]. }
    rewrite E. simpl. f_equal. by eapply Hev.
Qed.

Lemma listener_good K ep sockfd l : starting K sockfd ep → clean l → ∃ W e,
  ntyreactor_addlistener (World (Reactor ep (Some l)) K) sockfd accept_cb_ = Ok (0, W) ∧ good W ∧
  event W sockfd = Some e ∧ status e = 1 ∧ callback e = Some accept_cb_ ∧ last_active e = now K ∧ epfd (rx W) = ep.
Proof.
  intros HS Hc. destruct (init_good K ep sockfd l HS Hc) as (HG & H0). set (W0 := World _ K) in *.
  destruct HS as [H1 H2 H3 H4 H4' H5 H6]. destruct (event_is_some W0 sockfd HG ltac:(lia)) as (e & He).
  unfold ntyreactor_addlistener. simpl slots. cbn iota.
  rewrite (arm_ok W0 sockfd accept_cb_ EPOLLIN e); [|done|by eapply H0|by simpl; rewrite H4|apply H1].
  eexists _, _. split; [done|]. split.
  - apply (good_touch sockfd W0); [done|by simpl|].
    change (armed W0 sockfd accept_cb_ EPOLLIN e) with (with_kn (upd W0 sockfd
      (NtyEvent sockfd EPOLLIN (Some accept_cb_) 1 (buffer e) (length_ e) (now K)))
      (set_epoll K (<[sockfd := (EPOLLIN, sockfd)]> (epoll K)))).
    apply (touches_upd _ _ e); try done; [| |by exists 0%nat|by exists []].
    + split; [apply (g_ok _ HG _ _ He)|]. left. split; [done|]. split; [done|apply H1|by simpl; rewrite lookup_insert_eq|done].
    + intros g Hg. simpl. by rewrite lookup_insert_ne.
  - split; [by eapply (event_upd W0)|done].
Qed.

(** ** Main theorems *)

(** C17: When the descriptors of main are open, the process may have at most 1024 descriptors, the
    records in the storage of [malloc] are not marked as in use and every client sends less than 4096
    bytes at a time, no call faults from [main] on, in whatever order connections, messages, partial and
    failed sends and times come: the records in use are exactly the descriptors epoll watches, each
    with the callback that fits the events asked for; and on every connection a prefix of each message
    goes back before the next one is read, the message still to be answered being in the buffer. *)
Theorem reactor_stays_sound K sockfd ep l rs : starting K sockfd ep → clean l →
  Forall (λ r, NoDup (ready_in r)) rs → ∃ W, main K sockfd ep (Some l) rs = Ok W ∧
  (∀ f, is_Some (epoll (kn W) !! f) ↔ ∃ e, event W f = Some e ∧ status e = 1) ∧
  ∀ f e, event W f = Some e → status e = 1 → fd e = f ∧ f ∈ files (kn W) ∧
    epoll (kn W) !! f = Some (events e, f) ∧
    match callback e with
    | Some accept_cb_ => events e = EPOLLIN
    | Some recv_cb_ => events e = EPOLLIN ∧ echoed (session f (log (kn W)))
    | Some send_cb_ => events e = EPOLLOUT ∧
        ∃ io, session f (log (kn W)) = In (take (Z.to_nat (length_ e)) (buffer e)) :: io ∧ echoed io
    | None => False
    end.
Proof.
  intros HS Hc Hrs. destruct (listener_good K ep sockfd l HS Hc) as (W0 & e0 & HW0 & HG0 & _ & _ & _ & _ & Hep).
  unfold main, ntyreactor_init. destruct (s_ep _ _ _ HS) as (Hepr & _).
  rewrite (proj2 (Z.leb_gt _ _)) by lia. rewrite HW0, ok_bind. unfold ntyreactor_run.
  rewrite Hep, (proj2 (Z.ltb_ge _ _)) by lia. destruct (g_slots _ HG0) as (l0 & -> & _).
  destruct (iterations_ok rs W0 0 HG0) as (W & c & -> & HG & _); [unfold MAX_EPOLL_EVENTS; lia|done|].
  rewrite !ok_bind. exists W. split; [done|]. split.
  - intros f. split.
    + intros Hf. destruct (event_is_some W f HG (g_epoll _ HG f Hf)) as (e & He). exists e. split; [done|].
      destruct (g_ok _ HG _ _ He) as (_ & [(?&_)|(_ & Hn)]); [done|]. rewrite Hn in Hf. by destruct Hf.
    + intros (e & He & Hs). destruct (g_ok _ HG _ _ He) as (_ & [(_ & [])|(?&_)]); [eauto|lia].
  - intros f e He Hs. destruct (g_ok _ HG _ _ He) as (_ & [(_ & [? ? ? Hcb])|(?&_)]); [|lia].
    split_and!; try done. destruct (callback e) as [[]|]; naive_solver.
Qed.

(** The loop before [epoll_wait] closes exactly those of the hundred records from
    [checkpos] on, cyclically, that have been idle for a minute: their descriptors leave the
    epoll set, and every other record, descriptor and registration is as before. *)
Theorem sweep_closes_idle t W c : good W → 0 ≤ c ≤ MAX_EPOLL_EVENTS →
  ∃ W' c', sweep 100 t W c = Ok (W', c') ∧ good W' ∧ c' mod MAX_EPOLL_EVENTS = (c + 100) mod MAX_EPOLL_EVENTS ∧
  ∀ i e, event W i = Some e → if decide (reached c 100 i ∧ idle t e) then shut W' i else kept W W' i.
Proof.
  intros HG Hc. destruct (sweep_general t 100 ltac:(unfold MAX_EPOLL_EVENTS; lia) W c HG Hc)
    as (W' & c' & E & HG' & _ & Hmod & _ & Hi). by exists W', c'.
Qed.

(** A connection on which nothing happens is closed within eleven iterations once a minute
    has passed since its last event. *)
Theorem idle_times_out W c i e rs : good W → 0 ≤ c ≤ MAX_EPOLL_EVENTS → event W i = Some e → status e = 1 →
  (11 ≤ length rs)%nat → Forall (λ r, NoDup (ready_in r) ∧ 60 ≤ time r - last_active e ∧ i ∉ ready_in r) rs →
  ∃ W' c', iterations rs (W, c) = Ok (W', c') ∧ Closed i ∈ log (kn W').
Proof.
  intros HG Hc He Hs Hn Hrs. destruct (idle_closed rs i e Hs W c HG Hc He) as (W' & c' & E & _ & H); [|unfold MAX_EPOLL_EVENTS; zdiv|by exists W', c'].
  eapply Forall_impl; [exact Hrs|]. intros r (? & ? & ?). split_and!; [done|done|by right].
Qed.

(** The listening socket is closed like an idle connection: [accept_cb] does not renew the
    time of its record, so that eleven iterations later than a minute after the start, whatever
    connections have come in, the server accepts no more. *)
Theorem listener_times_out K sockfd ep l rs rs' : starting K sockfd ep → clean l →
  Forall (λ r, NoDup (ready_in r)) (rs ++ rs') → (11 ≤ length rs')%nat →
  Forall (λ r, now K + 60 ≤ time r) rs' →
  ∃ W, main K sockfd ep (Some l) (rs ++ rs') = Ok W ∧ Closed sockfd ∈ log (kn W).
Proof.
  intros HS Hc Hnd Hn Ht. destruct (listener_good K ep sockfd l HS Hc) as (W0 & e & HW0 & HG0 & He & Hs & Hcb & Hla & Hep).
  unfold main, ntyreactor_init. destruct (s_ep _ _ _ HS) as (Hepr & _).
  rewrite (proj2 (Z.leb_gt _ _)) by lia. rewrite HW0, ok_bind. unfold ntyreactor_run.
  rewrite Hep, (proj2 (Z.ltb_ge _ _)) by lia. destruct (g_slots _ HG0) as (l0 & -> & _).
  apply Forall_app in Hnd as (Hnd & Hnd'). rewrite iterations_app.
  destruct (iterations_ok rs W0 0 HG0) as (W1 & c1 & -> & HG1 & Hc1 & _ & Hi); [unfold MAX_EPOLL_EVENTS; lia|done|].
  rewrite ok_bind. destruct (Hi sockfd e He Hs) as [Hcl|He1].
  { apply Forall_forall. intros r _. by left. }
  - destruct (iterations_ok rs' W1 c1 HG1 Hc1 Hnd') as (W & c & -> & _ & _ & (n & Hlog) & _).
    rewrite !ok_bind. exists W. split; [done|]. rewrite Hlog. apply elem_of_app. by right.
  - destruct (idle_closed rs' sockfd e Hs W1 c1 HG1 Hc1 He1) as (W & c & -> & _ & H).
    + apply Forall_forall. intros r Hr. rewrite Forall_forall in Hnd', Ht. specialize (Ht r Hr).
      split_and!; [by apply Hnd'|lia|by left].
    + unfold MAX_EPOLL_EVENTS. zdiv.
    + rewrite !ok_bind. by exists W.
Qed.

(** ** Where the table and the buffer end *)

(** The limit is looked for among the records but the descriptor indexes the table: with a
    record free, a new descriptor past the table is stored outside it; with none free,
    the record after the last one is read. *)
Lemma accept_past_table W f s c l p : slots (rx W) = Some s → length s = Z.to_nat MAX_EPOLL_EVENTS →
  accepts (kn W) = (true, true) :: l → lowest (kn W) = Some c → MAX_EPOLL_EVENTS ≤ c →
  3 ≤ p < MAX_EPOLL_EVENTS → status <$> event W p = Some 0 → accept_cb W f = Err OutOfBounds.
Proof.
  intros Hs Hl Ha Hc Hcm Hp Hfree. unfold accept_cb, accept. rewrite Ha, Hc.
  destruct (find_slot_ok W p (Z.to_nat (MAX_EPOLL_EVENTS - 3)) 3) as (i & Hi & Hr); [|done|lia|].
  { intros j Hj. unfold event. rewrite (proj2 (Z.leb_le _ _)), Hs by lia. simpl. apply lookup_lt_is_Some_2. lia. }
  set (K' := Kernel _ _ _ _ _ _ _ _).
  assert (Hk : ∀ n i, find_slot n (with_kn W K') i = find_slot n W i).
  { intros n. induction n as [|n IH]; intros j; [done|]. cbn [find_slot].
    change (ld (with_kn W K') j) with (ld W j). destruct (ld W j) as [e|]; [|done]. by rewrite !ok_bind, IH. }
  rewrite Hk, Hi, ok_bind, (proj2 (Z.eqb_neq i _)) by lia. cbn [negb]. unfold nty_event_set.
  rewrite ld_past; [done|]. exists s. split; [done|lia].
Qed.

Lemma full_table_overread W f s c nb l : slots (rx W) = Some s → length s = Z.to_nat MAX_EPOLL_EVENTS →
  accepts (kn W) = (true, nb) :: l → lowest (kn W) = Some c →
  (∀ j, 3 ≤ j < MAX_EPOLL_EVENTS → ∃ e, event W j = Some e ∧ status e ≠ 0) → accept_cb W f = Err OutOfBounds.
Proof.
  intros Hs Hl Ha Hc Hfull. unfold accept_cb, accept. rewrite Ha, Hc. set (K' := Kernel _ _ _ _ _ _ _ _).
  assert (Hn : ∀ n i, 3 ≤ i → i + Z.of_nat n = MAX_EPOLL_EVENTS → find_slot n (with_kn W K') i = Ok MAX_EPOLL_EVENTS).
  { induction n as [|n IH]; intros i Hi Hin; simpl; [f_equal; lia|].
    destruct (Hfull i) as (e & He & H0); [lia|]. rewrite (ld_ok (with_kn W K') i e He), ok_bind.
    rewrite (proj2 (Z.eqb_neq _ _) H0). apply IH; lia. }
  rewrite Hn, ok_bind, Z.eqb_refl, ok_bind by (unfold MAX_EPOLL_EVENTS; lia).
  rewrite ld_past; [done|]. exists s. split; [done|rewrite Hl; unfold MAX_EPOLL_EVENTS; lia].
Qed.

(** A message that fills the buffer has its terminator stored behind it. *)
Lemma full_buffer_overruns W f e d l : event W f = Some e → status e = 1 →
  length (buffer e) = Z.to_nat BUFFER_LENGTH → recvs (kn W) = Some d :: l →
  (Z.to_nat BUFFER_LENGTH ≤ length d)%nat → recv_cb W f = Err OutOfBounds.
Proof.
  intros He Hs Hb Hr Hd. unfold recv_cb. rewrite Hr. cbn [default from_option id].
  set (x := take _ d). assert (Hx : length x = Z.to_nat BUFFER_LENGTH) by (unfold x; rewrite length_take; lia).
  set (W1 := with_kn W _). assert (He1 : event W1 f = Some e) by done. rewrite (ld_ok _ _ _ He1), ok_bind.
  rewrite splice_over, ok_bind by lia. rewrite (st_ok _ _ _ _ He1), ok_bind.
  erewrite del_ok; [|by eapply event_upd|done]. rewrite ok_bind.
  erewrite ld_ok; [|by rewrite event_kn, upd_upd; eapply event_upd]. rewrite ok_bind.
  rewrite (proj2 (Z.ltb_lt _ _)) by (rewrite Hx; unfold BUFFER_LENGTH; lia). cbn [buffer set_buffer].
  rewrite aset_past; [done|]. rewrite length_app, length_drop. lia.
Qed.

(** [ntyreactor_init] does not clear the table: a record that happens to be marked is changed
    in epoll, not added, and the listener is never watched. *)
Lemma marked_listener_unwatched W sockfd e : event W sockfd = Some e → status e = 1 → epoll (kn W) = ∅ →
  ∃ W', ntyreactor_addlistener W sockfd accept_cb_ = Ok (0, W') ∧ epoll (kn W') = ∅.
Proof.
  intros He Hs Hep. unfold ntyreactor_addlistener. destruct (slots (rx W)) as [s|] eqn:E.
  2: { unfold event in He. rewrite E in He. by destruct (_ <=? _). }
  unfold nty_event_set. rewrite (ld_ok _ _ _ He), ok_bind, (st_ok _ _ _ _ He), ok_bind.
  unfold nty_event_add. rewrite (ld_upd _ _ _ _ He), ok_bind, (st_upd _ _ _ _ _ He), ok_bind. cbn [status fd].
  unfold epoll_ctl. cbn [kn upd]. rewrite Hs, Hep, lookup_empty. eexists. split; [done|]. done.
Qed.

(** ** Concrete inputs *)

(** A client connects as descriptor 5, sends two bytes, gets them back, and leaves. *)
Definition kernel0 : kernel :=
  Kernel ∅ {[0; 1; 2; 3; 4]} 1024 100 [Some [104; 105]; Some []] [2] [(true, true)] [].
Definition heap0 : list ntyevent :=
  replicate (Z.to_nat MAX_EPOLL_EVENTS) (NtyEvent 0 0 None 0 (replicate (Z.to_nat BUFFER_LENGTH) 0) 0 0).
Definition turns0 : list turn :=
  [Turn 100 (Some (101, [(3, 1)])); Turn 101 (Some (102, [(5, 1)])); Turn 102 None;
   Turn 102 (Some (103, [(5, 4)])); Turn 103 (Some (104, [(5, 1)]))].

Example trace0 : (W ← main kernel0 3 4 (Some heap0) turns0; Ok (log (kn W))) =
  Ok [Closed 5; Sent 5 [104; 105]; Received 5 [104; 105]; Opened 5].
Proof. vm_compute. reflexivity. Qed.

Lemma kernel0_starting : starting kernel0 3 4.
Proof.
  split; unfold MAX_EPOLL_EVENTS; [simpl; split; [lia|set_solver]..|lia|done|done|simpl; lia|]. cbn [recvs kernel0].
  apply Forall_cons. split; [|apply Forall_cons; split; [|done]];
    intros d [= <-]; apply Nat2Z.inj_lt; vm_compute; done.
Qed.
Lemma heap0_clean : clean heap0.
Proof.
  split; [apply length_replicate|]. apply Forall_replicate. split; [done|]. apply length_replicate.
Qed.

Lemma reactor_stays_sound_witness : ∃ W, main kernel0 3 4 (Some heap0) turns0 = Ok W ∧
  ∀ f, is_Some (epoll (kn W) !! f) ↔ ∃ e, event W f = Some e ∧ status e = 1.
Proof.
  destruct (reactor_stays_sound kernel0 3 4 heap0 turns0 kernel0_starting heap0_clean) as (W & H1 & H2 & _).
  - repeat constructor; simpl; set_solver.
  - exists W. split; [exact H1|exact H2].
Defined.

(** The client connects at second 159 and the listener is gone at 160. *)
Lemma listener_times_out_witness : ∃ W,
  main kernel0 3 4 (Some heap0) ([Turn 158 (Some (159, [(3, 1)]))] ++ replicate 11 (Turn 160 None)) = Ok W ∧
  Closed 3 ∈ log (kn W).
Proof.
  apply (listener_times_out kernel0 3 4 heap0 [Turn 158 (Some (159, [(3, 1)]))] (replicate 11 (Turn 160 None))
    kernel0_starting heap0_clean).
  - repeat constructor; simpl; set_solver.
  - simpl. lia.
  - apply Forall_replicate. simpl. lia.
Defined.

End SweepReactor.
