(* ===== verification/MulReactor.v ===== *)
(** * The reactor with a callback per event (3.2reactor/reactor_mulcb.c)

    One reactor, made when it is first asked for, holds an array of [MAX_EPOLL_EVENT] items
    indexed by descriptor; each has callbacks for reading, writing and accepting.  The
    client's bytes are sent back to it.  What is printed, apart
    from the reading it needs, the argument [arg], always null, and the
    members that are never used are left out. *)

From stdpp Require Import gmap.
From S2P Require Import Prelude CMem EpollKernel.

Module MulReactor.
Import EpollKernel.

(* src: 3.2reactor/reactor_mulcb.c:18-26 BUFFER_LENGTH *)
Definition BUFFER_LENGTH : Z := 1024.
Definition POLL_SIZE : Z := 1024.
Definition MAX_EPOLL_EVENT : Z := 1024.
Definition NOSET_CB : Z := 0.
Definition READ_CB : Z := 1.
Definition WRITE_CB : Z := 2.
Definition ACCEPT_CB : Z := 3.
#[global] Arguments BUFFER_LENGTH : simpl never.
#[global] Arguments POLL_SIZE : simpl never.
#[global] Arguments MAX_EPOLL_EVENT : simpl never.

(** ** State *)

(** The callbacks of the program. *)
Inductive NCALLBACK : Type := read_callback_ | write_callback_ | accept_callback_.

(* src: 3.2reactor/reactor_mulcb.c:98-118 nitem *)
Record nitem : Type := Item {
  fd : Z; events : Z;
  readcb : option NCALLBACK; writecb : option NCALLBACK; acceptcb : option NCALLBACK;
  sbuffer : list Z; slength : Z; rbuffer : list Z
}.
(** [items] stands for [head->items]. *)
(* src: 3.2reactor/reactor_mulcb.c:127-132 reactor *)
Record reactor : Type := Reactor { epfd : Z; items : list nitem }.

(** The pointer [instance]: null, to storage that has been freed, or to the reactor. *)
Inductive pointer : Type := Null | Freed | At (r : reactor).
(** [heap] says of the coming calls of [malloc] whether they give storage; [ep] is the answer of
    [epoll_create]. *)
Record world : Type := World { instance : pointer; kn : kernel; heap : list bool; ep : Z }.
Definition with_kn (W : world) (K : kernel) : world := World (instance W) K (heap W) (ep W).
Definition with_instance (W : world) (p : pointer) : world := World p (kn W) (heap W) (ep W).
Definition malloc (W : world) : bool * world :=
  match heap W with [] => (false, W) | b :: l => (b, World (instance W) (kn W) l (ep W)) end.

(** An item of storage set to zero. *)
Definition zero_item : nitem :=
  Item 0 NOSET_CB None None None (replicate (Z.to_nat BUFFER_LENGTH) 0) 0 (replicate (Z.to_nat BUFFER_LENGTH) 0).

(** ** The reactor *)

(** The two allocations: [head] and the items; the result is the reactor, or an error. *)
(* src: 3.2reactor/reactor_mulcb.c:351-377 init_reactor *)
Definition init_reactor (W : world) : option reactor * world :=
  let epfd := ep W in
  let '(head, W) := malloc W in
  if negb head then (None, with_kn W (close (kn W) epfd))
  else
    let '(its, W) := malloc W in
    if negb its then (None, with_kn W (close (kn W) epfd))
    else (Some (Reactor epfd (replicate (Z.to_nat MAX_EPOLL_EVENT) zero_item)), W).

(** When it fails, [instance] keeps pointing to what is freed. *)
(* src: 3.2reactor/reactor_mulcb.c:143-161 getInstance *)
Definition getInstance (W : world) : pointer * world :=
  match instance W with
  | Null =>
      let '(m, W) := malloc W in
      if negb m then (Null, W)
      else
        let '(r, W) := init_reactor W in
        match r with
        | Some r => (At r, with_instance W (At r))
        | None => (Null, with_instance W Freed)
        end
  | p => (p, W)
  end.
Definition deref (p : pointer) : res reactor :=
  match p with Null => Err NullDeref | Freed => Err UseAfterFree | At r => Ok r end.

(** Storing item [f] of the reactor [r]. *)
Definition st (W : world) (r : reactor) (f : Z) (e : nitem) : res world :=
  l ← aset (items r) f e; Ok (with_instance W (At (Reactor (epfd r) l))).
Definition with_events (e : nitem) (ev : Z) : nitem :=
  Item (fd e) ev (readcb e) (writecb e) (acceptcb e) (sbuffer e) (slength e) (rbuffer e).
Definition with_buffers (e : nitem) (s : list Z) (n : Z) (r : list Z) : nitem :=
  Item (fd e) (events e) (readcb e) (writecb e) (acceptcb e) s n r.

(** [epoll_ctl] fails on a descriptor of epoll that is not open. *)
Definition ctl (W : world) (r : reactor) (mod_ : bool) (f mask : Z) : Z * kernel :=
  if decide (epfd r ∈ files (kn W)) then epoll_ctl (kn W) mod_ f mask f else (-1, kn W).

(* src: 3.2reactor/reactor_mulcb.c:165-212 nreactor_set_event *)
Definition nreactor_set_event (W : world) (f : Z) (cb : NCALLBACK) (event : Z) : res (Z * world) :=
  let '(p, W) := getInstance W in
  r ← deref p;
  e ← aget (items r) f;
  let '(e, mask) :=
    if event =? READ_CB then (Item f (events e) (Some cb) (writecb e) (acceptcb e) (sbuffer e) (slength e) (rbuffer e), EPOLLIN)
    else if event =? WRITE_CB then (Item f (events e) (readcb e) (Some cb) (acceptcb e) (sbuffer e) (slength e) (rbuffer e), EPOLLOUT)
    else if event =? ACCEPT_CB then (Item f (events e) (readcb e) (writecb e) (Some cb) (sbuffer e) (slength e) (rbuffer e), EPOLLIN)
    else (e, 0) in
  W ← st W r f e;
  if events e =? NOSET_CB then
    let '(rc, K) := ctl W r false f mask in
    if rc <? 0 then Ok (-1, with_kn W K) else W ← st (with_kn W K) r f (with_events e event); Ok (0, W)
  else if negb (events e =? event) then
    let '(rc, K) := ctl W r true f mask in
    if rc <? 0 then Ok (-1, with_kn W K) else W ← st (with_kn W K) r f (with_events e event); Ok (0, W)
  else Ok (0, W).

(* src: 3.2reactor/reactor_mulcb.c:214-225 nreactor_del_event *)
Definition nreactor_del_event (W : world) (f : Z) : res (Z * world) :=
  let '(p, W) := getInstance W in
  r ← deref p;
  let K := if decide (epfd r ∈ files (kn W)) then set_epoll (kn W) (delete f (epoll (kn W))) else kn W in
  e ← aget (items r) f;
  W ← st (with_kn W K) r f (with_events e 0);
  Ok (0, W).

(** ** Callbacks *)

(** [send] takes at most the bytes given; no answer left means that it fails. *)
(* src: 3.2reactor/reactor_mulcb.c:229-244 write_callback *)
Definition write_callback (W : world) (f : Z) : res world :=
  let '(p, W) := getInstance W in
  R ← deref p;
  e ← aget (items R) f;
  let length := slength e in
  data ← slice (sbuffer e) 0 length;
  let '(ans, l) := match sends (kn W) with [] => (-1, []) | a :: l => (a, l) end in
  let ret := Z.min ans length in
  let K := set_sends (kn W) l in
  let W := with_kn W (if 0 <? ret then add_log K (Sent f (take (Z.to_nat ret) data)) else K) in
  '(_, W) ← (if ret <? length then nreactor_set_event W f write_callback_ WRITE_CB
             else nreactor_set_event W f read_callback_ READ_CB);
  Ok W.

(** No answer left of [recv] means that it fails.  [printf] with [%s] reads the buffer up to a null byte. *)
(* src: 3.2reactor/reactor_mulcb.c:248-301 read_callback *)
Definition read_callback (W : world) (f : Z) : res world :=
  let '(p, W) := getInstance W in
  R ← deref p;
  e ← aget (items R) f;
  let '(ans, l) := match recvs (kn W) with [] => (None, []) | a :: l => (a, l) end in
  let data := take (Z.to_nat BUFFER_LENGTH) (default [] ans) in
  let ret := match ans with Some _ => Z.of_nat (length data) | None => -1 end in
  let W := with_kn W (set_recvs (kn W) l) in
  b ← splice (rbuffer e) 0 data;
  W ← st W R f (with_buffers e (sbuffer e) (slength e) b);
  if ret =? 0 then
    '(_, W) ← nreactor_del_event W f;
    Ok (with_kn W (close (kn W) f))
  else if 0 <? ret then
    s ← memcpy (sbuffer e) 0 b 0 ret;
    _ ← cstr s;
    W ← st (with_kn W (add_log (kn W) (Received f data))) R f (with_buffers e s ret b);
    '(_, W) ← nreactor_set_event W f write_callback_ WRITE_CB;
    Ok W
  else Ok W.

(* src: 3.2reactor/reactor_mulcb.c:306-318 accept_callback *)
Definition accept_callback (W : world) (f : Z) : res world :=
  let '(a, K) := accept (kn W) in
  let W := with_kn W K in
  match a with
  | None => Ok W
  | Some (connfd, _) => '(_, W) ← nreactor_set_event W connfd read_callback_ READ_CB; Ok W
  end.

Definition call (c : option NCALLBACK) (W : world) (f : Z) : res world :=
  match c with
  | None => Err NullDeref
  | Some read_callback_ => read_callback W f
  | Some write_callback_ => write_callback W f
  | Some accept_callback_ => accept_callback W f
  end.

(** ** The loop *)

(** The item that [data.ptr] of an event points to. *)
Definition item_at (W : world) (i : Z) : res nitem := r ← deref (instance W); aget (items r) i.

(** One event. (EPOLLERR and EPOLLHUP, which epoll reports as well, lead to no call of their own.) *)
(* src: 3.2reactor/reactor_mulcb.c:395-410 reactor_loop *)
Definition dispatch (listenfd : Z) (W : world) (ev : Z * Z) : res world :=
  let '(i, m) := ev in
  item ← item_at W i;
  let connfd := fd item in
  if connfd =? listenfd then call (acceptcb item) W listenfd
  else
    W ← (if negb (Z.land m EPOLLIN =? 0) then call (readcb item) W connfd else Ok W);
    item ← item_at W i;
    if negb (Z.land m EPOLLOUT =? 0) then call (writecb item) W connfd else Ok W.

(* src: 3.2reactor/reactor_mulcb.c:393-411 reactor_loop *)
Fixpoint dispatch_all (listenfd : Z) (evs : list (Z * Z)) (W : world) : res world :=
  match evs with [] => Ok W | ev :: evs => W ← dispatch listenfd W ev; dispatch_all listenfd evs W end.

(** What [epoll_wait] finds ready in each round, unless it fails; the loop never returns, and this is
    its state after the rounds given. *)
(* src: 3.2reactor/reactor_mulcb.c:380-416 reactor_loop *)
Fixpoint reactor_loop (listenfd : Z) (rounds : list (option (list (Z * Z)))) (W : world) : res world :=
  match rounds with
  | [] => Ok W
  | None :: rounds => reactor_loop listenfd rounds W
  | Some ready :: rounds =>
      W ← dispatch_all listenfd (epoll_wait POLL_SIZE (kn W) ready) W; reactor_loop listenfd rounds W
  end.

(** [listenfd] is the result of [init_server]. *)
(* src: 3.2reactor/reactor_mulcb.c:419-433 main *)
Definition main (K : kernel) (mallocs : list bool) (epoll_created listenfd : Z) (rounds : list (option (list (Z * Z)))) : res world :=
  '(_, W) ← nreactor_set_event (World Null K mallocs epoll_created) listenfd accept_callback_ ACCEPT_CB;
  let '(p, W) := getInstance W in
  _ ← deref p;
  reactor_loop listenfd rounds W.

(** ** The invariant *)

Definition mask_of (event : Z) : Z := if event =? WRITE_CB then EPOLLOUT else EPOLLIN.

(** The exchanges of a connection, the latest first: every message is answered by attempts
    that send a part of it, each from its start, and one that sends all of it. *)
Definition part (m s : list Z) : Prop := s `prefix_of` m ∧ s ≠ m.
Inductive served : list io → Prop :=
  | served_nil : served []
  | served_msg m tries l : Forall (part m) tries → served l → served (Out m :: (Out <$> tries) ++ In m :: l).

(** What an item that epoll watches is ready for. *)
Inductive role (listenfd : Z) (K : kernel) (i : Z) (e : nitem) : Prop :=
  | role_accept : events e = ACCEPT_CB → i = listenfd → acceptcb e = Some accept_callback_ → role listenfd K i e
  | role_read : events e = READ_CB → i ≠ listenfd → readcb e = Some read_callback_ →
      served (session i (log K)) → role listenfd K i e
  | role_write m b tries l : events e = WRITE_CB → i ≠ listenfd → writecb e = Some write_callback_ →
      sbuffer e = m ++ b → slength e = Z.of_nat (length m) → m ≠ [] →
      session i (log K) = (Out <$> tries) ++ In m :: l → Forall (part m) tries → served l → role listenfd K i e.

Record watched (listenfd : Z) (K : kernel) (i : Z) (e : nitem) : Prop := Watched {
  w_fd : fd e = i;
  w_open : i ∈ files K;
  w_epoll : epoll K !! i = Some (mask_of (events e), i);
  w_role : role listenfd K i e
}.
Record item_ok (listenfd : Z) (K : kernel) (i : Z) (e : nitem) : Prop := ItemOk {
  i_sbuffer : length (sbuffer e) = Z.to_nat BUFFER_LENGTH;
  i_rbuffer : length (rbuffer e) = Z.to_nat BUFFER_LENGTH;
  i_nul : sbuffer e !! Z.to_nat (BUFFER_LENGTH - 1) = Some 0;
  i_use : events e = NOSET_CB ∧ epoll K !! i = None ∨ watched listenfd K i e
}.

(** A message leaves room for a terminator. *)
Definition short (a : option (list Z)) : Prop := ∀ d, a = Some d → (length d < Z.to_nat BUFFER_LENGTH)%nat.

(** The reactor [r] with the kernel [K]. *)
Record sound (listenfd : Z) (r : reactor) (K : kernel) : Prop := Sound {
  s_items : length (items r) = Z.to_nat MAX_EPOLL_EVENT;
  s_ok : ∀ i e, 0 ≤ i → items r !! Z.to_nat i = Some e → item_ok listenfd K i e;
  s_epoll : ∀ f, is_Some (epoll K !! f) → 0 ≤ f < MAX_EPOLL_EVENT;
  s_nofile : nofile K ≤ MAX_EPOLL_EVENT;
  s_epfd : epfd r ∈ files K ∧ epoll K !! epfd r = None;
  s_listen : listenfd ∈ files K ∧ is_Some (epoll K !! listenfd);
  s_short : Forall short (recvs K)
}.
Definition good (listenfd : Z) (W : world) : Prop := ∃ r, instance W = At r ∧ sound listenfd r (kn W).

(** A step about descriptor [c] may change no other. *)
Record only (c : Z) (K K' : kernel) : Prop := Only {
  o_epoll : ∀ f, f ≠ c → epoll K' !! f = epoll K !! f;
  o_files : ∀ f, f ≠ c → f ∈ files K → f ∈ files K';
  o_session : ∀ f, f ≠ c → session f (log K') = session f (log K);
  o_nofile : nofile K' = nofile K;
  o_recvs : Forall short (recvs K) → Forall short (recvs K')
}.

Definition put (r : reactor) (f : Z) (e : nitem) : reactor := Reactor (epfd r) (<[Z.to_nat f := e]> (items r)).

Lemma put_put r f e e' : put (put r f e) f e' = put r f e'.
Proof. unfold put. simpl. by rewrite list_insert_insert_eq. Qed.

Lemma st_put W r f e : 0 ≤ f < Z.of_nat (length (items r)) → st W r f e = Ok (with_instance W (At (put r f e))).
Proof.
  intros Hf. unfold st, aset. by rewrite (proj2 (Z.leb_le _ _)), (proj2 (Z.ltb_lt _ _)) by lia.
Qed.


Lemma aget_at {A} (l : list A) i x : 0 ≤ i → l !! Z.to_nat i = Some x → aget l i = Ok x.
Proof. intros Hi Hx. rewrite <-(Z2Nat.id i) by done. by apply aget_ok. Qed.

Section invariant.
Context (listenfd : Z).

Lemma item_ok_frame c K K' i e : only c K K' → i ≠ c → item_ok listenfd K i e → item_ok listenfd K' i e.
Proof.
  intros HO Hi [H1 H2 H0 H3]. split; [done..|]. destruct H3 as [(H & Hn)|[Hf Ho He Hr]].
  - left. by rewrite (o_epoll _ _ _ HO).
  - right. split; [done|by apply (o_files _ _ _ HO)|by rewrite (o_epoll _ _ _ HO)|].
    destruct Hr; [by eapply role_accept|eapply role_read|eapply role_write]; rewrite ?(o_session _ _ _ HO); done.
Qed.

Lemma sound_put r K K' c e : sound listenfd r K → only c K K' → 0 ≤ c < MAX_EPOLL_EVENT → c ≠ epfd r →
  c ≠ listenfd → item_ok listenfd K' c e → sound listenfd (put r c e) K'.
Proof.
  intros [H1 H2 H3 H4 (H5 & H6) (H7 & H8) H9] HO Hc Hep Hl He. split; simpl.
  - by rewrite length_insert.
  - intros i x Hi Hx. destruct (decide (i = c)) as [->|Hne].
    + rewrite list_lookup_insert_eq in Hx by lia. by simplify_eq.
    + rewrite list_lookup_insert_ne in Hx by lia. eapply item_ok_frame; [done..|by apply H2].
  - intros f Hf. destruct (decide (f = c)) as [->|Hne]; [done|]. rewrite (o_epoll _ _ _ HO) in Hf by done. by apply H3.
  - by rewrite (o_nofile _ _ _ HO).
  - rewrite (o_epoll _ _ _ HO) by done. split; [by apply (o_files _ _ _ HO)|done].
  - rewrite (o_epoll _ _ _ HO) by done. split; [by apply (o_files _ _ _ HO)|done].
  - by apply (o_recvs _ _ _ HO).
Qed.

Lemma item_exists r K i : sound listenfd r K → 0 ≤ i < MAX_EPOLL_EVENT → ∃ e, items r !! Z.to_nat i = Some e.
Proof. intros HS Hi. apply lookup_lt_is_Some_2. rewrite (s_items _ _ _ HS). lia. Qed.

End invariant.

(** ** The operations on an item *)

(** The item after [nreactor_set_event] with [cb] for [event]. *)
Definition armed (e : nitem) (f : Z) (cb : NCALLBACK) (event : Z) : nitem :=
  Item f event (if event =? READ_CB then Some cb else readcb e) (if event =? WRITE_CB then Some cb else writecb e)
    (if event =? ACCEPT_CB then Some cb else acceptcb e) (sbuffer e) (slength e) (rbuffer e).

(** Whether the item's record of what it waits for agrees with what epoll holds. *)
Definition agrees (K : kernel) (f : Z) (e : nitem) : Prop :=
  epoll K !! f = if events e =? NOSET_CB then None else Some (mask_of (events e), f).

Lemma item_agrees listenfd K f e : item_ok listenfd K f e → agrees K f e.
Proof.
  intros [_ _ _ [(H & Hn)|[_ _ He Hr]]]; unfold agrees; [by rewrite H|].
  assert (H : events e ≠ NOSET_CB) by (destruct Hr as [-> | -> | ? ? ? ? ->]; done).
  by rewrite (proj2 (Z.eqb_neq _ _) H).
Qed.

Lemma set_event_ok K h ep r f e cb event : 0 ≤ f → items r !! Z.to_nat f = Some e → epfd r ∈ files K → f ∈ files K →
  event ∈ [READ_CB; WRITE_CB; ACCEPT_CB] → agrees K f e →
  nreactor_set_event (World (At r) K h ep) f cb event =
  Ok (0, World (At (put r f (armed e f cb event))) (set_epoll K (<[f := (mask_of event, f)]> (epoll K))) h ep).
Proof.
  intros Hf He Hep Hof Hev Ha. pose proof (lookup_lt_Some _ _ _ He) as Hlt. unfold nreactor_set_event.
  cbn [getInstance instance deref]. rewrite ok_bind, (aget_at _ _ _ Hf He), ok_bind.
  set (x := if event =? READ_CB then _ else _).
  assert (Hx : ∃ e1, x = (e1, mask_of event) ∧ events e1 = events e ∧ with_events e1 event = armed e f cb event).
  { unfold x, armed, mask_of. rewrite !elem_of_cons in Hev. destruct Hev as [->|[->|[->|Hev%not_elem_of_nil]]]; [by eexists..|done]. }
  destruct Hx as (e1 & -> & H1 & H2). rewrite st_put, ok_bind by lia. rewrite H1. unfold agrees in Ha.
  destruct (Z.eqb_spec (events e) NOSET_CB) as [H0|H0]; [|destruct (Z.eqb_spec (events e) event) as [H3|H3]]; cbn [negb].
  - unfold ctl, epoll_ctl. cbn [with_instance kn epfd put]. rewrite decide_True by done.
    rewrite Ha, bool_decide_false by (by intros []). rewrite bool_decide_true by done. cbn [Bool.eqb andb].
    cbn [Z.ltb Z.compare]. rewrite st_put, ok_bind, H2 by lia. done.
  - assert (E1 : e1 = armed e f cb event) by (rewrite <-H2, <-H3, <-H1; by destruct e1).
    assert (E2 : set_epoll K (<[f := (mask_of event, f)]> (epoll K)) = K).
    { destruct K; unfold set_epoll; simpl in *. by rewrite <-H3, insert_id. }
    by rewrite E1, E2.
  - unfold ctl, epoll_ctl. cbn [with_instance kn epfd put]. rewrite decide_True by done.
    rewrite Ha, bool_decide_true by (by eexists). rewrite bool_decide_true by done. cbn [Bool.eqb andb].
    cbn [Z.ltb Z.compare]. rewrite st_put, ok_bind, H2 by lia. done.
Qed.

(** ** The callbacks *)

Section callbacks.
Context (listenfd : Z).

(** The state [x] has item [c] replaced, and all else about [c] alone. *)
Definition replaced (c : Z) (r : reactor) (K : kernel) (h : list bool) (ep : Z) (x : res world) : Prop :=
  ∃ e K', x = Ok (World (At (put r c e)) K' h ep) ∧ 0 ≤ c < MAX_EPOLL_EVENT ∧ c ≠ epfd r ∧ only c K K' ∧
    c ≠ listenfd ∧ item_ok listenfd K' c e.

Lemma only_refl c K : only c K K.
Proof. by split. Qed.

Lemma watched_range r K i e : sound listenfd r K → watched listenfd K i e → 0 ≤ i < MAX_EPOLL_EVENT ∧ i ≠ epfd r.
Proof.
  intros HS [_ _ He _]. split; [apply (s_epoll _ _ _ HS); by eexists|].
  intros ->. by rewrite (proj2 (s_epfd _ _ _ HS)) in He.
Qed.

(** Arming [f] in a kernel [K1] that differs from [K] in what concerns [f]. *)
Lemma arm_replaced r K K1 h ep f e cb event : sound listenfd r K → 0 ≤ f < MAX_EPOLL_EVENT → f ≠ epfd r →
  only f K K1 → f ∈ files K1 → epfd r ∈ files K1 → f ≠ listenfd → event ∈ [READ_CB; WRITE_CB; ACCEPT_CB] →
  (∃ e0, items r !! Z.to_nat f = Some e0) → agrees K1 f e →
  length (sbuffer e) = Z.to_nat BUFFER_LENGTH → length (rbuffer e) = Z.to_nat BUFFER_LENGTH →
  sbuffer e !! Z.to_nat (BUFFER_LENGTH - 1) = Some 0 →
  role listenfd (set_epoll K1 (<[f := (mask_of event, f)]> (epoll K1))) f (armed e f cb event) →
  replaced f r K h ep ('(_, W) ← nreactor_set_event (World (At (put r f e)) K1 h ep) f cb event; Ok W).
Proof.
  intros HS Hf Hep HO Hof Hepf Hl Hev (e0 & He0) Ha Hs Hr Hnul Hrole. pose proof (lookup_lt_Some _ _ _ He0) as Hlt.
  rewrite (set_event_ok K1 h ep (put r f e) f e); [|lia|by simpl; apply list_lookup_insert_eq|done..].
  rewrite ok_bind, put_put. exists (armed e f cb event), (set_epoll K1 (<[f := (mask_of event, f)]> (epoll K1))).
  split_and!; [done|apply Hf|apply Hf|done| |done|].
  - split; simpl; [|apply HO..]. intros g Hg. rewrite lookup_insert_ne by done. by apply (o_epoll _ _ _ HO).
  - split; [done..|]. right. split; [done..| |done]. simpl. by rewrite lookup_insert_eq.
Qed.

Lemma put_self r f e : items r !! Z.to_nat f = Some e → put r f e = r.
Proof. intros He. unfold put. destruct r. simpl in *. by rewrite list_insert_id. Qed.

Lemma arm_same r K K1 h ep f e cb event : sound listenfd r K → items r !! Z.to_nat f = Some e →
  watched listenfd K f e → f ≠ listenfd → only f K K1 → epoll K1 = epoll K → files K1 = files K →
  event ∈ [READ_CB; WRITE_CB; ACCEPT_CB] →
  role listenfd (set_epoll K1 (<[f := (mask_of event, f)]> (epoll K1))) f (armed e f cb event) →
  replaced f r K h ep ('(_, W) ← nreactor_set_event (World (At r) K1 h ep) f cb event; Ok W).
Proof.
  intros HS He Hw Hne HO HK HF Hev Hrole. destruct (watched_range _ _ _ _ HS Hw) as (Hf & Hep).
  pose proof (s_ok _ _ _ HS f e ltac:(lia) He) as Hok.
  pose proof (arm_replaced r K K1 h ep f e cb event HS Hf Hep HO) as H. rewrite put_self in H by done.
  apply H; rewrite ?HF; try done; [apply Hw|apply HS|by eexists| |apply Hok|apply Hok|apply Hok].
  unfold agrees. rewrite HK. by eapply item_agrees.
Qed.

Lemma only_sends f K l d : only f K (set_sends K l) ∧ only f K (add_log (set_sends K l) (Sent f d)).
Proof.
  split; split; simpl; try done. intros g Hg. by rewrite decide_False by done.
Qed.

Lemma write_ok r K h ep f e : sound listenfd r K → items r !! Z.to_nat f = Some e → watched listenfd K f e →
  events e = WRITE_CB → replaced f r K h ep (write_callback (World (At r) K h ep) f).
Proof.
  intros HS He Hw Hev. destruct (watched_range _ _ _ _ HS Hw) as (Hf & Hep).
  destruct (w_role _ _ _ _ Hw) as [H|H|m b tries l _ Hne Hcb Hb Hn Hm Hse Ht Hl]; [by rewrite H in Hev..|].
  unfold write_callback. cbn [getInstance instance deref]. rewrite ok_bind, (aget_at _ _ e), ok_bind by (done || lia).
  rewrite Hb, slice_ok, ok_bind by (rewrite ?length_app; lia). rewrite drop_0, Hn, Nat2Z.id, take_app_length.
  cbn [kn]. set (al := match sends K with [] => _ | _ => _ end). destruct al as [ans s]. set (n := Z.min ans _).
  assert (Hn' : n ≤ Z.of_nat (length m)) by lia. clearbody n.
  destruct (only_sends f K s (take (Z.to_nat n) m)) as (HO1 & HO2).
  destruct (Z.ltb_spec n (Z.of_nat (length m))) as [Hlt|Hge].
  - destruct (Z.ltb_spec 0 n) as [H0|H0]; (apply (arm_same _ _ _ _ _ _ e); try done; [set_solver|]).
    + eapply (role_write _ _ _ _ m b (take (Z.to_nat n) m :: tries) l); try done.
      * simpl. by rewrite decide_True, Hse.
      * constructor; [|done]. split; [apply prefix_take|]. intros Hx%(f_equal length). rewrite length_take in Hx. lia.
    + by eapply (role_write _ _ _ _ m b tries l).
  - assert (H0 : 0 < n) by (destruct m; [done|simpl in *; lia]). rewrite (proj2 (Z.ltb_lt _ _) H0).
    apply (arm_same _ _ _ _ _ _ e); try done; [set_solver|].
    apply role_read; try done. simpl. rewrite decide_True, Hse, take_ge by (done || lia). by constructor.
Qed.

Lemma read_ok r K h ep f e : sound listenfd r K → items r !! Z.to_nat f = Some e → watched listenfd K f e →
  events e = READ_CB → replaced f r K h ep (read_callback (World (At r) K h ep) f).
Proof.
  intros HS He Hw Hev. destruct (watched_range _ _ _ _ HS Hw) as (Hf & Hep).
  destruct (s_ok _ _ _ HS f e ltac:(lia) He) as [Hs Hr Hnul _]. pose proof (lookup_lt_Some _ _ _ He) as Hlt.
  destruct (w_role _ _ _ _ Hw) as [H|_ Hne Hcb Hse|? ? ? ? H]; [by rewrite H in Hev| |by rewrite H in Hev].
  unfold read_callback. cbn [getInstance instance deref]. rewrite ok_bind, (aget_at _ _ e), ok_bind by (done || lia).
  cbn [kn]. set (al := match recvs K with [] => _ | _ => _ end). pose proof (s_short _ _ _ HS) as Hsh.
  assert (Hal : short al.1 ∧ Forall short al.2) by (unfold al; by destruct Hsh). destruct al as [ans l].
  destruct Hal as (Hans0 & Hl0). cbn [fst snd] in Hans0, Hl0.
  set (d := take _ _). assert (Hd : (length d < Z.to_nat BUFFER_LENGTH)%nat).
  { unfold d. rewrite length_take. destruct ans as [x|]; cbn [default from_option id length];
      [specialize (Hans0 x eq_refl)|unfold BUFFER_LENGTH]; lia. }
  rewrite splice_over, ok_bind by lia. rewrite st_put, ok_bind by lia.
  set (b := d ++ drop (length d) (rbuffer e)). set (e1 := with_buffers e _ _ b).
  assert (Hb : length b = Z.to_nat BUFFER_LENGTH) by (unfold b; rewrite length_app, length_drop; lia).
  assert (Hl : length (items (put r f e1)) = length (items r)) by apply length_insert.
  destruct (decide (ans = None)) as [->|Hans].
  { cbn [Z.eqb Z.ltb Z.compare]. exists e1, (set_recvs K l).
    split_and!; [done|apply Hf|apply Hf|done|by split|done|]. split; [done..|]. right.
    split; [apply Hw..|]. by apply role_read. }
  replace (match ans with Some _ => _ | None => _ end) with (Z.of_nat (length d)) by (by destruct ans).
  destruct (decide (length d = 0%nat)) as [H0|H0].
  - rewrite H0. cbn [Z.of_nat Z.eqb]. unfold nreactor_del_event. cbn [getInstance instance deref with_instance with_kn].
    rewrite ok_bind, (aget_at _ _ e1); [|lia|by apply list_lookup_insert_eq]. rewrite ok_bind.
    cbn [kn epfd put set_recvs files]. rewrite decide_True by apply HS. rewrite st_put, !ok_bind by lia.
    rewrite put_put. unfold close. cbn [kn with_kn with_instance set_epoll files]. rewrite decide_True by apply Hw.
    eexists _, _. split_and!; [done|apply Hf|apply Hf|done| | |].
    + split; simpl; [|set_solver|done..]. intros g Hg. by rewrite !lookup_delete_ne.
    + done.
    + split; [done..|]. left. split; [done|]. simpl. by rewrite lookup_delete_eq.
  - rewrite (proj2 (Z.eqb_neq _ _)), (proj2 (Z.ltb_lt 0 _)) by lia. unfold memcpy.
    assert (Hx : take (length d) b = d) by apply take_app_length.
    rewrite slice_ok, ok_bind by lia. rewrite drop_0, Nat2Z.id, Hx, splice_over, ok_bind by lia.
    assert (Hn2 : (d ++ drop (length d) (sbuffer e)) !! Z.to_nat (BUFFER_LENGTH - 1) = Some 0).
    { rewrite lookup_app_r, lookup_drop by lia. rewrite <-Hnul. f_equal. lia. }
    destruct (cstr_has_nul _ _ Hn2) as (str & Hstr). rewrite Hstr, ok_bind.
    cbn [with_kn with_instance instance kn heap MulReactor.ep]. rewrite st_put, ok_bind by lia.
    set (e2 := with_buffers e _ _ b). set (K1 := add_log _ _).
    assert (HO : only f K K1) by (split; simpl; try done; intros g Hg; by rewrite decide_False by done).
    apply (arm_replaced r K K1 h ep f e2); try done; [apply Hw|apply HS|set_solver|by eexists|..].
    + pose proof (item_agrees _ _ _ _ (s_ok _ _ _ HS f e ltac:(lia) He)) as Ha. exact Ha.
    + simpl. rewrite length_app, length_drop. lia.
    + apply (role_write _ _ _ _ d (drop (length d) (sbuffer e)) [] (session f (log K))); try done.
      * by intros ->.
      * simpl. by rewrite decide_True by done.
Qed.
Lemma accepting_ok r K h ep : sound listenfd r K →
  (∃ K', accept_callback (World (At r) K h ep) listenfd = Ok (World (At r) K' h ep) ∧
     sound listenfd r K' ∧ epoll K' = epoll K) ∨
  ∃ c, c ∉ files K ∧ replaced c r K h ep (accept_callback (World (At r) K h ep) listenfd).
Proof.
  intros HS. unfold accept_callback, accept. cbn [kn].
  set (al := match accepts K with [] => _ | _ => _ end). destruct al as [[w nb] l]. cbn [with_kn instance heap MulReactor.ep].
  destruct w; [destruct (lowest K) as [c|] eqn:Hlow|].
  2, 3: left; eexists; split_and!; [done| |done]; destruct HS; split; try done; intros i e Hi He;
    eapply (item_ok_frame _ (-1) K); [by split|lia|by eauto].
  right. apply lowest_free in Hlow as (Hc & Hcr). exists c. split; [done|].
  pose proof (s_nofile _ _ _ HS). destruct (s_listen _ _ _ HS) as (Hl & _).
  destruct (item_exists _ _ _ c HS) as (e & He); [lia|].
  pose proof (s_ok _ _ _ HS c e ltac:(lia) He) as [Hs Hr Hnul Hu].
  destruct Hu as [(Hev & Hep)|[_ Ho _ _]]; [|done].
  set (K1 := Kernel _ _ _ _ _ _ _ _).
  assert (HO : only c K K1).
  { split; simpl; [done|set_solver| |done|done]. intros g Hg. by rewrite decide_False by done. }
  pose proof (arm_replaced r K K1 h ep c e read_callback_ READ_CB HS) as H1. rewrite put_self in H1 by done.
  assert (Hne : c ≠ epfd r) by (intros ->; by apply Hc, HS).
  apply H1; try done; [lia|set_solver|pose proof (proj1 (s_epfd _ _ _ HS)); set_solver|by intros ->|set_solver|by eexists| |].
  - unfold agrees. by rewrite Hev.
  - apply role_read; try done; [by intros ->|]. simpl. rewrite decide_True by done. constructor.
Qed.

(** ** The loop *)

(** A step on descriptor [i] leaves the other registrations alone. *)
Definition stepped (i : Z) (K : kernel) (h : list bool) (ep : Z) (x : res world) : Prop :=
  ∃ r' K', x = Ok (World (At r') K' h ep) ∧ sound listenfd r' K' ∧
    ∀ j, j ≠ i → is_Some (epoll K !! j) → epoll K' !! j = epoll K !! j.

Lemma replaced_stepped c i r K h ep x : sound listenfd r K → replaced c r K h ep x → c = i ∨ epoll K !! c = None →
  stepped i K h ep x.
Proof.
  intros HS (e & K' & -> & Hc & Hep & HO & Hl & He) Hi. exists (put r c e), K'. split_and!; [done| |].
  - by eapply sound_put.
  - intros j Hj (y & Hy). apply (o_epoll _ _ _ HO). intros ->. destruct Hi as [->|Hn]; [done|]. by rewrite Hn in Hy.
Qed.

Lemma one_event_ok r K h ep i m : sound listenfd r K → reported K (i, m) →
  stepped i K h ep (dispatch listenfd (World (At r) K h ep) (i, m)).
Proof.
  intros HS (evts & x & Hi & Hm & H0). simpl in Hi, Hm, H0.
  destruct (item_exists _ _ _ i HS) as (e & He); [apply (s_epoll _ _ _ HS); by eexists|].
  assert (Hr : 0 ≤ i) by (apply (s_epoll _ _ _ HS); by eexists).
  destruct (i_use _ _ _ _ (s_ok _ _ _ HS i e Hr He)) as [(_ & Hn)|Hw]; [by rewrite Hn in Hi|].
  unfold dispatch, item_at. cbn [instance deref]. rewrite ok_bind, (aget_at _ _ _ Hr He), ok_bind, (w_fd _ _ _ _ Hw).
  pose proof (w_epoll _ _ _ _ Hw) as Hep. rewrite Hi in Hep. injection Hep as ->.
  assert (Hmm : m = mask_of (events e)).
  { assert (Hp : ∃ n, 0 ≤ n ∧ mask_of (events e) = 2 ^ n) by (unfold mask_of; destruct (_ =? _); [by exists 2|by exists 0]).
    destruct Hp as (n & Hn & Hp). rewrite Hp in *. rewrite land_pow2 in Hm by done. by destruct (Z.testbit x n). }
  clear Hm H0. subst m. destruct (w_role _ _ _ _ Hw) as [Hev -> Hcb|Hev Hne Hcb _|? ? ? ? Hev Hne Hcb ? ? ? ? ? ?].
  - rewrite Z.eqb_refl, Hcb. destruct (accepting_ok r K h ep HS) as [(K' & E & HS' & HK)|(c & Hc & HR)].
    + exists r, K'. split_and!; [done..|]. intros. by rewrite HK.
    + eapply replaced_stepped; [done..|]. right. destruct (epoll K !! c) as [y|] eqn:Hy; [|done]. exfalso.
      destruct (item_exists _ _ _ c HS) as (ec & Hec); [apply (s_epoll _ _ _ HS); by eexists|].
      destruct (s_ok _ _ _ HS c ec ltac:(apply (s_epoll _ _ _ HS); by eexists) Hec) as [_ _ _ [(_ & Hn)|[_ Ho _ _]]]; [|done].
      by rewrite Hn in Hy.
  - rewrite (proj2 (Z.eqb_neq _ _) Hne), Hev, Hcb. cbn [negb mask_of Z.land Z.eqb call].
    destruct (replaced_stepped i i r K h ep _ HS (read_ok r K h ep i e HS He Hw Hev)) as (r' & K' & E & HS' & HK); [by left|].
    change (Z.land (mask_of READ_CB) EPOLLIN =? 0) with false. change (Z.land (mask_of READ_CB) EPOLLOUT =? 0) with true.
    cbn [negb]. rewrite E, ok_bind. destruct (item_exists _ _ _ i HS') as (e' & He'); [apply (s_epoll _ _ _ HS); by eexists|].
    cbn [instance deref]. rewrite ok_bind, (aget_at _ _ _ Hr He'), ok_bind. by exists r', K'.
  - rewrite (proj2 (Z.eqb_neq _ _) Hne), Hev.
    change (Z.land (mask_of WRITE_CB) EPOLLIN =? 0) with true. change (Z.land (mask_of WRITE_CB) EPOLLOUT =? 0) with false.
    cbn [negb]. rewrite ok_bind. cbn [instance deref]. rewrite ok_bind, (aget_at _ _ _ Hr He), ok_bind, Hcb.
    apply (replaced_stepped i i r K h ep _ HS); [|by left]. by eapply write_ok.
Qed.

Lemma events_ok evs : ∀ r K h ep, sound listenfd r K → NoDup (map fst evs) → Forall (reported K) evs →
  ∃ r' K', dispatch_all listenfd evs (World (At r) K h ep) = Ok (World (At r') K' h ep) ∧ sound listenfd r' K'.
Proof.
  induction evs as [|[i m] evs IH]; intros r K h ep HS Hnd Hrep; [by exists r, K|].
  inversion Hrep as [|? ? H1 H2]; subst. inversion Hnd as [|? ? H3 H4]; subst. cbn [dispatch_all].
  destruct (one_event_ok r K h ep i m HS H1) as (r1 & K1 & -> & HS1 & Hk). rewrite ok_bind. apply IH; [done..|].
  by apply (reported_rest i K).
Qed.

Definition ready_in (o : option (list (Z * Z))) : list Z := map fst (default [] o).

Lemma loop_ok rounds : ∀ r K h ep, sound listenfd r K → Forall (λ o, NoDup (ready_in o)) rounds →
  ∃ r' K', reactor_loop listenfd rounds (World (At r) K h ep) = Ok (World (At r') K' h ep) ∧ sound listenfd r' K'.
Proof.
  induction rounds as [|[ready|] rounds IH]; intros r K h ep HS Hr; [by exists r, K| |]; inversion Hr; subst; cbn [reactor_loop].
  2: by apply IH.
  destruct (epoll_wait_reports POLL_SIZE K ready) as (H3 & H4 & _); [|done|].
  - intros f evts i Hf. assert (Hfr : 0 ≤ f < MAX_EPOLL_EVENT) by (apply (s_epoll _ _ _ HS); by eexists).
    destruct (item_exists _ _ _ f HS Hfr) as (e & He).
    destruct (i_use _ _ _ _ (s_ok _ _ _ HS f e ltac:(lia) He)) as [(_ & Hn)|Hw]; [by rewrite Hn in Hf|].
    rewrite (w_epoll _ _ _ _ Hw) in Hf. by injection Hf as _ <-.
  - destruct (events_ok (epoll_wait POLL_SIZE K ready) r K h ep HS H3 H4) as (r1 & K1 & E & HS1).
    cbn [kn]. rewrite E, ok_bind. by apply IH.
Qed.


End callbacks.

(** ** Main theorems *)

(** The process when [main] begins: the descriptors of epoll and of the listening socket are open, epoll is
    empty, the limit on descriptors is at most the size of the table, and every message is shorter than
    the buffer. *)
Record starting (K : kernel) (ep listenfd : Z) : Prop := Starting {
  b_listen : 0 ≤ listenfd < MAX_EPOLL_EVENT ∧ listenfd ∈ files K;
  b_ep : ep ∈ files K;
  b_ne : listenfd ≠ ep;
  b_epoll : epoll K = ∅;
  b_nofile : nofile K ≤ MAX_EPOLL_EVENT;
  b_short : Forall short (recvs K)
}.

Lemma main_starts K h ep listenfd rounds : starting K ep listenfd →
  ∃ r K', main K (true :: true :: true :: h) ep listenfd rounds = reactor_loop listenfd rounds (World (At r) K' h ep) ∧
  sound listenfd r K'.
Proof.
  intros [(Hl & Hlf) Hep Hne He Hn Hsh]. set (r0 := Reactor ep (replicate (Z.to_nat MAX_EPOLL_EVENT) zero_item)).
  assert (H0 : ∀ i, 0 ≤ i < MAX_EPOLL_EVENT → items r0 !! Z.to_nat i = Some zero_item).
  { intros i Hi. apply lookup_replicate_2. lia. }
  unfold main. change (nreactor_set_event (World Null K (true :: true :: true :: h) ep) listenfd accept_callback_ ACCEPT_CB)
    with (nreactor_set_event (World (At r0) K h ep) listenfd accept_callback_ ACCEPT_CB).
  rewrite (set_event_ok K h ep r0 listenfd zero_item); [|lia|by apply H0|done|done|set_solver|by unfold agrees; rewrite He].
  rewrite ok_bind. cbn [getInstance instance deref]. rewrite ok_bind. eexists _, _. split; [done|].
  rewrite He. split; cbn [items epfd epoll files nofile put r0 set_epoll]; [by rewrite length_insert, length_replicate| | |done| | |done].
  - intros i e Hi Hx. destruct (decide (i = listenfd)) as [->|Hi'].
    + rewrite list_lookup_insert_eq in Hx by (rewrite length_replicate; lia). simplify_eq.
      split; [apply length_replicate..|apply lookup_replicate_2; unfold BUFFER_LENGTH; lia|]. right. split; [done..|by simpl; rewrite lookup_insert_eq|by apply role_accept].
    + rewrite list_lookup_insert_ne in Hx by lia. apply lookup_replicate in Hx as (-> & _).
      split; [apply length_replicate..|apply lookup_replicate_2; unfold BUFFER_LENGTH; lia|]. left. split; [done|]. simpl. by rewrite lookup_insert_ne.
  - intros f (y & Hy%lookup_insert_Some). destruct Hy as [(<- & _)|(_ & Hy)]; [done|by rewrite lookup_empty in Hy].
  - by rewrite lookup_insert_ne.
  - rewrite lookup_insert_eq. by split; [|eexists].
Qed.

(** C18: When its three allocations succeed, its descriptors are open, the process may have at
    most 1024 descriptors and every message is shorter than the buffer of 1024 bytes, no call faults from
    [main] on, in whatever order connections, messages, partial and failed sends come: each
    descriptor that epoll watches is open and registered with its own item, whose callback is the one
    for the events asked for; the listening socket stays watched; and on every connection each
    message is answered in full before the next one is read, by attempts of which each begins at its start,
    the one still to be answered being at the start of the buffer. *)
Theorem answers_every_message K h ep listenfd rounds : starting K ep listenfd →
  Forall (λ o, NoDup (ready_in o)) rounds → ∃ W r, main K (true :: true :: true :: h) ep listenfd rounds = Ok W ∧
  instance W = At r ∧ is_Some (epoll (kn W) !! listenfd) ∧
  ∀ f, is_Some (epoll (kn W) !! f) → ∃ e, items r !! Z.to_nat f = Some e ∧ watched listenfd (kn W) f e.
Proof.
  intros HS Hr. destruct (main_starts K h ep listenfd rounds HS) as (r0 & K0 & -> & HS0).
  destruct (loop_ok listenfd rounds r0 K0 h ep HS0 Hr) as (r & K' & -> & HS').
  eexists _, r. split_and!; [done|done|apply HS'|]. intros f Hf. cbn [kn] in *.
  pose proof (s_epoll _ _ _ HS' f Hf) as Hfr. destruct (item_exists _ _ _ f HS' Hfr) as (e & He). exists e. split; [done|].
  destruct (i_use _ _ _ _ (s_ok _ _ _ HS' f e ltac:(lia) He)) as [(_ & Hn)|Hw]; [|done].
  rewrite Hn in Hf. by destruct Hf.
Qed.

(** ** What goes wrong *)

(** A connection on which [send] fails is armed for writing as before, and not closed: as long as [send]
    fails nothing changes but the answers that are used up. *)
Lemma failed_send_rearms listenfd r K h ep f e a l : sound listenfd r K → items r !! Z.to_nat f = Some e →
  watched listenfd K f e → events e = WRITE_CB → sends K = a :: l → a ≤ 0 →
  write_callback (World (At r) K h ep) f = Ok (World (At r) (set_sends K l) h ep).
Proof.
  intros HS He Hw Hev Hs Ha. destruct (watched_range _ _ _ _ _ HS Hw) as (Hf & Hep).
  pose proof (s_ok _ _ _ HS f e ltac:(lia) He) as Hok.
  destruct (w_role _ _ _ _ Hw) as [H|H|m b tries lg _ Hne Hcb Hb Hn Hm Hse Ht Hl]; [by rewrite H in Hev..|].
  unfold write_callback. cbn [getInstance instance deref]. rewrite ok_bind, (aget_at _ _ e), ok_bind by (done || lia).
  rewrite Hb, slice_ok, ok_bind by (rewrite ?length_app; lia). rewrite drop_0, Hn, Nat2Z.id, take_app_length.
  cbn [kn]. rewrite Hs. assert (H0 : 0 < Z.of_nat (length m)) by (destruct m; [done|simpl; lia]).
  rewrite (proj2 (Z.ltb_ge 0 _)), (proj2 (Z.ltb_lt _ (Z.of_nat (length m)))) by lia.
  change (with_kn _ (set_sends K l)) with (World (At r) (set_sends K l) h ep).
  rewrite (set_event_ok _ h ep r f e); [|lia|done|apply HS|apply Hw|set_solver|exact (item_agrees _ _ _ _ Hok)].
  rewrite ok_bind. cbn [set_sends epoll]. pose proof (w_epoll _ _ _ _ Hw) as Hepf. rewrite Hev in Hepf.
  do 3 f_equal.
  - apply put_self. rewrite He. f_equal. pose proof (w_fd _ _ _ _ Hw). destruct e. unfold armed. simpl in *. by subst.
  - unfold set_epoll. simpl. by rewrite insert_id.
Qed.

(** Without storage [main] uses the null pointer that [getInstance] returns. *)
Lemma main_out_of_memory K h ep listenfd rounds :
  (h = [] ∨ (∃ t, h = false :: t ∨ h = true :: false :: t ∨ h = true :: true :: false :: t)) →
  main K h ep listenfd rounds = Err NullDeref.
Proof. by intros [->|(t & [->|[->| ->]])]. Qed.

(** And the next call of [getInstance] would return what has been freed. *)
Lemma getInstance_dangles K h ep W p : getInstance (World Null K (true :: false :: h) ep) = (p, W) →
  p = Null ∧ fst (getInstance W) = Freed.
Proof. by intros [= <- <-]. Qed.

(** A message that fills the buffer and has no null byte is printed past the end of [sbuffer]. *)
Lemma full_message_overread r K h ep f e d l : 0 ≤ f → items r !! Z.to_nat f = Some e →
  length (sbuffer e) = Z.to_nat BUFFER_LENGTH → length (rbuffer e) = Z.to_nat BUFFER_LENGTH →
  recvs K = Some d :: l → length d = Z.to_nat BUFFER_LENGTH → Forall (λ x, x ≠ 0) d →
  read_callback (World (At r) K h ep) f = Err OutOfBounds.
Proof.
  intros Hf He Hs Hr Hk Hd H0. pose proof (lookup_lt_Some _ _ _ He) as Hlt. unfold read_callback.
  cbn [getInstance instance deref]. rewrite ok_bind, (aget_at _ _ e), ok_bind by done.
  cbn [kn]. rewrite Hk. cbn [default from_option id]. rewrite take_ge by lia.
  rewrite splice_over, drop_ge, app_nil_r, ok_bind by lia. rewrite st_put, ok_bind by lia.
  rewrite (proj2 (Z.eqb_neq _ _)), (proj2 (Z.ltb_lt 0 _)) by (rewrite Hd; unfold BUFFER_LENGTH; lia).
  unfold memcpy. rewrite slice_ok, ok_bind by lia. rewrite drop_0, Nat2Z.id, firstn_all, splice_over by lia.
  rewrite drop_ge, app_nil_r, ok_bind by lia. destruct (cstr d) as [str|x] eqn:Hc.
  - destruct (cstr_ok _ _ Hc) as (t & -> & _). apply Forall_app in H0 as (_ & H0). by inversion H0.
  - by rewrite (cstr_fault _ _ Hc).
Qed.

(** A descriptor past the table is stored outside it. *)
Lemma connection_past_items r K h ep f c nb l : accepts K = (true, nb) :: l → lowest K = Some c →
  Z.of_nat (length (items r)) ≤ c → accept_callback (World (At r) K h ep) f = Err OutOfBounds.
Proof.
  intros Ha Hc Hr. unfold accept_callback, accept. cbn [kn]. rewrite Ha, Hc. cbn [with_kn instance].
  unfold nreactor_set_event. cbn [getInstance instance deref with_kn kn]. by rewrite ok_bind, aget_past.
Qed.

(** ** Concrete inputs *)

(** A client connects as descriptor 5 and sends three bytes; [send] takes two of them, then fails
    once, and then takes all three. The next message is answered at once. *)
Definition kernel0 : kernel :=
  Kernel ∅ {[0; 1; 2; 3; 4]} 1024 0 [Some [104; 105; 33]; None; Some [111]; Some []] [2; -1; 3; 1] [(true, true)] [].
Definition rounds0 : list (option (list (Z * Z))) :=
  [Some [(3, 1)]; Some [(5, 5)]; None; Some [(5, 4)]; Some [(5, 4)]; Some [(5, 4)]; Some [(5, 1)]; Some [(5, 1)];
   Some [(5, 5)]; Some [(5, 1); (3, 1)]].

Example trace_mul : (W ← main kernel0 [true; true; true] 4 3 rounds0; Ok (log (kn W))) =
  Ok [Closed 5; Sent 5 [111]; Received 5 [111]; Sent 5 [104; 105; 33]; Sent 5 [104; 105]; Received 5 [104; 105; 33]; Opened 5].
Proof. vm_compute. reflexivity. Qed.

Lemma kernel0_begins : starting kernel0 4 3.
Proof.
  split; [split; [done|set_solver]|set_solver|done..|]. cbn [recvs kernel0].
  repeat (apply Forall_cons; split; [intros d [=]; subst d; apply Nat2Z.inj_lt; vm_compute; done|]). by apply Forall_nil.
Qed.

Lemma answers_every_message_witness : ∃ W r, main kernel0 [true; true; true] 4 3 rounds0 = Ok W ∧ instance W = At r ∧
  is_Some (epoll (kn W) !! 3).
Proof.
  destruct (answers_every_message kernel0 [] 4 3 rounds0 kernel0_begins) as (W & r & H1 & H2 & H3 & _).
  - repeat constructor; simpl; set_solver.
  - exists W, r. split; [exact H1|]. split; [exact H2|exact H3].
Defined.

End MulReactor.
