(* ===== verification/TcpServer.v ===== *)
(** * The echo server over epoll (3.1net_io/tcpserver.c)

    The branch that is compiled: one buffer, an epoll set without a table, and an answer right
    after every message.  Of [client_routine], the thread per client that no compiled code
    starts, the loop is here too. *)

From stdpp Require Import gmap.
From S2P Require Import Prelude CMem EpollKernel.

Module TcpServer.
Import EpollKernel.

(* src: 3.1net_io/tcpserver.c:42-44 MAXLNE *)
Definition MAXLNE : Z := 4096.
Definition POLL_SIZE : Z := 1024.
#[global] Arguments MAXLNE : simpl never.
#[global] Arguments POLL_SIZE : simpl never.

(** [epfd] and [listenfd] are main's variables, and [buff] its buffer. *)
Record server : Type := Server { epfd : Z; listenfd : Z; buff : list Z; kn : kernel }.
Definition with_kn (V : server) (K : kernel) : server := Server (epfd V) (listenfd V) (buff V) K.

(** ** Receiving and answering *)

(** [recv] into [b], the terminator, and [send]: the bytes received, or -1.  No answer left means that
    the call fails; what [send] returns is not looked at. *)
(* src: 3.1net_io/tcpserver.c:506-511 main *)
Definition echo (b : list Z) (K : kernel) (f : Z) : res (Z * list Z * kernel) :=
  let '(ans, l) := match recvs K with [] => (None, []) | a :: l => (a, l) end in
  let data := take (Z.to_nat MAXLNE) (default [] ans) in
  let n := match ans with Some _ => Z.of_nat (length data) | None => -1 end in
  let K := set_recvs K l in
  b ← splice b 0 data;
  if 0 <? n then
    b ← aset b n 0;
    data ← slice b 0 n;
    let '(ans, l) := match sends K with [] => (-1, []) | a :: l => (a, l) end in
    let ret := Z.min ans n in
    let K := add_log (set_sends K l) (Received f data) in
    Ok (n, b, if 0 <? ret then add_log K (Sent f (take (Z.to_nat ret) data)) else K)
  else Ok (n, b, K).

(** The routine of a thread, for at most [n] messages: whether it has ended. *)
(* src: 3.1net_io/tcpserver.c:48-70 client_routine *)
Fixpoint client_routine (n : nat) (connfd : Z) (b : list Z) (K : kernel) : res (bool * kernel) :=
  match n with
  | O => Ok (false, K)
  | S n =>
      '(r, b, K) ← echo b K connfd;
      if r =? 0 then Ok (true, close K connfd) else client_routine n connfd b K
  end.

(** ** The loop *)

Definition ctl (V : server) (f : Z) : server :=
  if decide (epfd V ∈ files (kn V)) then with_kn V (snd (epoll_ctl (kn V) false f EPOLLIN f)) else V.
Definition ctl_del (V : server) (f : Z) : server :=
  if decide (epfd V ∈ files (kn V)) then with_kn V (set_epoll (kn V) (delete f (epoll (kn V)))) else V.

(** One event; the flag tells whether [main] goes on. *)
(* src: 3.1net_io/tcpserver.c:489-524 main *)
Definition handle (V : server) (ev : Z * Z) : res (bool * server) :=
  let '(clientfd, m) := ev in
  if clientfd =? listenfd V then
    let '(a, K) := accept (kn V) in
    let V := with_kn V K in
    match a with
    | None => Ok (false, V)
    | Some (connfd, _) => Ok (true, ctl V connfd)
    end
  else if negb (Z.land m EPOLLIN =? 0) then
    '(n, b, K) ← echo (buff V) (kn V) clientfd;
    let V := Server (epfd V) (listenfd V) b K in
    if n =? 0 then let V := ctl_del V clientfd in Ok (true, with_kn V (close (kn V) clientfd))
    else Ok (true, V)
  else Ok (true, V).

(* src: 3.1net_io/tcpserver.c:487-526 main *)
Fixpoint handle_all (evs : list (Z * Z)) (V : server) : res (bool * server) :=
  match evs with
  | [] => Ok (true, V)
  | ev :: evs => '(go, V) ← handle V ev; if (go : bool) then handle_all evs V else Ok (false, V)
  end.

(** What [epoll_wait] finds ready in each round, unless it fails. *)
(* src: 3.1net_io/tcpserver.c:478-528 main *)
Fixpoint rounds (rs : list (option (list (Z * Z)))) (V : server) : res (bool * server) :=
  match rs with
  | [] => Ok (true, V)
  | None :: rs => rounds rs V
  | Some ready :: rs =>
      '(go, V) ← handle_all (epoll_wait POLL_SIZE (kn V) ready) V;
      if (go : bool) then rounds rs V else Ok (false, V)
  end.

(** From [epoll_create] on, whose answer is [ep]; [b] is what the stack holds. *)
(* src: 3.1net_io/tcpserver.c:469-528 main *)
Definition main (K : kernel) (listenfd ep : Z) (b : list Z) (rs : list (option (list (Z * Z)))) : res (bool * server) :=
  rounds rs (ctl (Server ep listenfd b K) listenfd).

(** ** The invariant *)

(** Every message is answered by a prefix of it, or not at all. *)
Inductive answered : list io → Prop :=
  | answered_nil : answered []
  | answered_lost r l : answered l → answered (In r :: l)
  | answered_back r s l : s `prefix_of` r → answered l → answered (Out s :: In r :: l).

Definition short (a : option (list Z)) : Prop := ∀ d, a = Some d → (length d < Z.to_nat MAXLNE)%nat.

Record sound (V : server) : Prop := Sound {
  s_buff : length (buff V) = Z.to_nat MAXLNE;
  s_epfd : epfd V ∈ files (kn V) ∧ epoll (kn V) !! epfd V = None;
  s_listen : listenfd V ∈ files (kn V) ∧ is_Some (epoll (kn V) !! listenfd V);
  s_epoll : ∀ f evts i, epoll (kn V) !! f = Some (evts, i) → evts = EPOLLIN ∧ i = f ∧ f ∈ files (kn V) ∧
    (f ≠ listenfd V → answered (session f (log (kn V))));
  s_short : Forall short (recvs (kn V))
}.

(** What a message does: with the kernel's first answer [d]. *)
Lemma echo_ok b K f : length b = Z.to_nat MAXLNE → Forall short (recvs K) → ∃ n b' s l m,
  echo b K f = Ok (n, b', Kernel (epoll K) (files K) (nofile K) (now K) (tail (recvs K)) s (accepts K) (m ++ log K)) ∧
  length b' = Z.to_nat MAXLNE ∧ Forall short (tail (recvs K)) ∧ session f m = l ∧
  (∀ g, session g (m ++ log K) = session g m ++ session g (log K)) ∧ (∀ g, g ≠ f → session g m = []) ∧
  (∀ t, answered t → answered (l ++ t)).
Proof.
  intros Hb Hs. unfold echo. set (al := match recvs K with [] => _ | _ => _ end).
  assert (Ha : al = (head (recvs K) ≫= id, tail (recvs K))) by (unfold al; by destruct (recvs K)).
  assert (Hsh : short (head (recvs K) ≫= id)) by (intros d; destruct Hs as [|[x|] ? Hx _]; simpl; [done|by intros [= <-]; apply Hx|done]).
  assert (Ht : Forall short (tail (recvs K))) by (by destruct Hs). rewrite Ha. clear al Ha.
  set (ans := head (recvs K) ≫= id) in *. set (d := default [] ans).
  assert (Hd : (length d < Z.to_nat MAXLNE)%nat) by (unfold d; destruct ans as [x|]; [by apply Hsh|simpl; unfold MAXLNE; lia]).
  rewrite take_ge, splice_over, ok_bind by lia.
  set (n := match ans with Some _ => _ | None => _ end).
  destruct (Z.ltb_spec 0 n) as [H0|H0].
  2: { exists n, (d ++ drop (length d) b), (sends K), [], []. split_and!; try done; [rewrite length_app, length_drop; lia]. }
  assert (Hn : n = Z.of_nat (length d)) by (unfold n, d in *; by destruct ans). rewrite Hn in *. clear n Hn.
  destruct (drop (length d) b) as [|x t] eqn:Hx.
  { apply (f_equal length) in Hx. rewrite length_drop in Hx. simpl in Hx. lia. }
  rewrite aset_mid, ok_bind by done. rewrite slice_ok, ok_bind by (rewrite ?length_app; simpl; lia).
  rewrite drop_0, Nat2Z.id, take_app_length. cbn [set_recvs sends].
  assert (Hl : length (d ++ 0 :: t) = Z.to_nat MAXLNE).
  { apply (f_equal length) in Hx. rewrite length_drop in Hx. rewrite length_app. simpl in *. lia. }
  destruct (match sends K with [] => _ | _ => _ end) as [a s]. set (r := Z.min a _).
  destruct (Z.ltb_spec 0 r) as [Hr|Hr].
  - eexists _, _, s, [Out (take (Z.to_nat r) d); In d], [Sent f (take (Z.to_nat r) d); Received f d].
    split_and!; [done..| | | |]; simpl.
    + by rewrite !decide_True by done.
    + intros g. by destruct (decide (f = g)).
    + intros g Hg. by rewrite !decide_False by done.
    + intros u Hu. apply answered_back; [apply prefix_take|done].
  - eexists _, _, s, [In d], [Received f d]. split_and!; [done..| | | |]; simpl.
    + by rewrite decide_True by done.
    + intros g. by destruct (decide (f = g)).
    + intros g Hg. by rewrite decide_False by done.
    + intros u Hu. by apply answered_lost.
Qed.

(** ** One event *)

Definition stepped (i : Z) (V : server) (x : res (bool * server)) : Prop :=
  ∃ go V', x = Ok (go, V') ∧ sound V' ∧ listenfd V' = listenfd V ∧
    ∀ j, j ≠ i → is_Some (epoll (kn V) !! j) → epoll (kn V') !! j = epoll (kn V) !! j.

Lemma accept_stepped V m : sound V → stepped (listenfd V) V (handle V (listenfd V, m)).
Proof.
  intros HS. unfold handle. rewrite Z.eqb_refl. unfold accept.
  set (al := match accepts (kn V) with [] => _ | _ => _ end). destruct al as [[w nb] l].
  assert (Hnone : stepped (listenfd V) V (Ok (false, with_kn V (Kernel (epoll (kn V)) (files (kn V)) (nofile (kn V))
    (now (kn V)) (recvs (kn V)) (sends (kn V)) l (log (kn V)))))).
  { eexists _, _. split; [done|]. split; [|done]. destruct HS. by split. }
  destruct w; [destruct (lowest (kn V)) as [c|] eqn:Hc; [|exact Hnone]|exact Hnone]. clear Hnone.
  apply lowest_free in Hc as (Hc & _). destruct HS as [H1 (H2 & H3) (H4 & H5) H6 H7].
  assert (Hcn : epoll (kn V) !! c = None).
  { destruct (epoll (kn V) !! c) as [[evts i]|] eqn:E; [|done]. destruct (H6 _ _ _ E) as (_ & _ & ? & _). done. }
  assert (Hcl : c ≠ listenfd V) by (by intros ->). assert (Hce : c ≠ epfd V) by (by intros ->).
  unfold ctl. cbn [with_kn kn epfd files]. rewrite decide_True by set_solver. unfold epoll_ctl. cbn [epoll files].
  rewrite Hcn, bool_decide_false by (by intros []). rewrite bool_decide_true by set_solver. cbn [Bool.eqb andb snd].
  eexists _, _. split; [done|]. split_and!; [|done|].
  2: { intros j _ (y & Hy). cbn [with_kn kn set_epoll epoll]. rewrite lookup_insert_ne; [done|]. intros ->. by rewrite Hcn in Hy. }
  split; cbn [with_kn buff kn epfd listenfd set_epoll epoll files recvs log]; [done| | | |done].
  - rewrite lookup_insert_ne by done. split; [set_solver|done].
  - rewrite lookup_insert_ne by done. split; [set_solver|done].
  - intros f evts i [(<- & [= <- <-])|(Hf & E)]%lookup_insert_Some.
    + split_and!; [done|done|set_solver|]. intros _. simpl. rewrite decide_True by done. constructor.
    + destruct (H6 _ _ _ E) as (? & ? & ? & Ha). split_and!; [done|done|set_solver|]. intros Hl. simpl.
      rewrite decide_False by done. by apply Ha.
Qed.

Lemma handle_ok V i m : sound V → reported (kn V) (i, m) → stepped i V (handle V (i, m)).
Proof.
  intros HS (evts & x & He & _). simpl in He. destruct (decide (i = listenfd V)) as [->|Hi]; [by apply accept_stepped|].
  destruct HS as [H1 (H2 & H3) (H4 & H5) H6 H7]. destruct (H6 _ _ _ He) as (-> & _ & Hof & Ha). specialize (Ha Hi).
  unfold handle. rewrite (proj2 (Z.eqb_neq _ _) Hi). destruct (negb _).
  2: { eexists _, _. split; [done|]. by split. }
  destruct (echo_ok (buff V) (kn V) i H1 H7) as (n & b & s & l & g & E & Hb & Ht & Hl & Hg & Hn & Hans). rewrite E, ok_bind.
  set (K1 := Kernel _ _ _ _ _ _ _ _). cbn [epfd].
  assert (Hie : i ≠ epfd V) by (intros ->; by rewrite H3 in He).
  assert (Hs1 : ∀ f, f ≠ i → session f (log K1) = session f (log (kn V))).
  { intros f Hf. simpl. by rewrite Hg, Hn. }
  assert (Hs2 : answered (session i (log K1))) by (simpl; rewrite Hg, Hl; by apply Hans).
  assert (HE : ∀ f evts j, epoll K1 !! f = Some (evts, j) → evts = EPOLLIN ∧ j = f ∧ f ∈ files K1 ∧
    (f ≠ listenfd V → answered (session f (log K1)))).
  { intros f evts j Hj. destruct (H6 _ _ _ Hj) as (? & ? & ? & Haf). split_and!; [done..|]. intros Hfl.
    destruct (decide (f = i)) as [->|Hfi]; [done|]. rewrite Hs1 by done. by apply Haf. }
  destruct (n =? 0).
  2: { eexists _, _. split; [done|]. split; [split; done|]. split; [done|]. intros j _ _. reflexivity. }
  unfold ctl_del, close. cbn [epfd kn]. rewrite decide_True by done. cbn [with_kn kn set_epoll files].
  rewrite decide_True by done. eexists _, _. split; [done|].
  split_and!; [|done|intros j Hj _; simpl; by rewrite !lookup_delete_ne].
  split; cbn [with_kn buff kn epfd listenfd set_epoll epoll files recvs log]; [done| | | |done].
  - rewrite !lookup_delete_ne by done. split; [set_solver|done].
  - rewrite !lookup_delete_ne by done. split; [set_solver|done].
  - intros f evts j [Hf [_ E']%lookup_delete_Some]%lookup_delete_Some. destruct (HE _ _ _ E') as (? & ? & ? & Hf2).
    split_and!; [done|done|set_solver|done].
Qed.

Lemma handle_all_ok evs : ∀ V, sound V → NoDup (map fst evs) → Forall (reported (kn V)) evs →
  ∃ go V', handle_all evs V = Ok (go, V') ∧ sound V'.
Proof.
  induction evs as [|[i m] evs IH]; intros V HS Hnd Hr; [by exists true, V|].
  inversion Hr as [|? ? H1 H2]; subst. inversion Hnd as [|? ? H3 H4]; subst. cbn [handle_all].
  destruct (handle_ok V i m HS H1) as (go & V1 & -> & HS1 & _ & Hk). rewrite ok_bind.
  destruct go; [|by exists false, V1]. apply IH; [done..|]. by eapply reported_rest.
Qed.

Definition ready_in (o : option (list (Z * Z))) : list Z := map fst (default [] o).

Lemma rounds_ok rs : ∀ V, sound V → Forall (λ o, NoDup (ready_in o)) rs → ∃ go V', rounds rs V = Ok (go, V') ∧ sound V'.
Proof.
  induction rs as [|[ready|] rs IH]; intros V HS Hr; [by exists true, V| |]; inversion Hr; subst; cbn [rounds].
  2: by apply IH.
  destruct (epoll_wait_reports POLL_SIZE (kn V) ready) as (H3 & H4 & _); [|done|].
  - intros f evts i Hf. by destruct (s_epoll _ HS _ _ _ Hf) as (_ & ? & _).
  - destruct (handle_all_ok _ V HS H3 H4) as (go & V1 & -> & HS1). rewrite ok_bind.
    destruct go; [by apply IH|by exists false, V1].
Qed.

(** ** Main theorems *)

(** When main enters the loop: its descriptors are open, epoll is empty, and clients send less
    than a buffer at a time. *)
Record starting (K : kernel) (listenfd ep : Z) : Prop := Starting {
  b_listen : listenfd ∈ files K;
  b_ep : ep ∈ files K;
  b_ne : listenfd ≠ ep;
  b_epoll : epoll K = ∅;
  b_short : Forall short (recvs K)
}.

(** No call of the server faults; the descriptors it watches are open, the listening socket is among them as
    long as it runs, and on each of the others every message is answered by a prefix of it, or not at all,
    before the next one is read. *)
Theorem echo_server_sound K listenfd ep b rs : starting K listenfd ep → length b = Z.to_nat MAXLNE →
  Forall (λ o, NoDup (ready_in o)) rs → ∃ go V, main K listenfd ep b rs = Ok (go, V) ∧
  is_Some (epoll (kn V) !! TcpServer.listenfd V) ∧
  ∀ f evts i, epoll (kn V) !! f = Some (evts, i) → i = f ∧ f ∈ files (kn V) ∧
    (f ≠ TcpServer.listenfd V → answered (session f (log (kn V)))).
Proof.
  intros [H1 H2 H3 H4 H5] Hb Hr. unfold main, ctl. cbn [epfd kn]. rewrite decide_True by done.
  unfold epoll_ctl. rewrite H4, lookup_empty, bool_decide_false by (by intros []). rewrite bool_decide_true by done.
  cbn [Bool.eqb andb snd with_kn]. set (V0 := with_kn _ _). assert (HS : sound V0).
  { split; cbn [V0 with_kn buff kn epfd TcpServer.listenfd set_epoll epoll files recvs log]; [done| | | |done].
    - by rewrite lookup_insert_ne.
    - rewrite lookup_insert_eq. by split; [|eexists].
    - intros f evts i [(<- & [= <- <-])|(_ & E)]%lookup_insert_Some; [done|by rewrite lookup_empty in E]. }
  destruct (rounds_ok rs V0 HS Hr) as (go & V & -> & HS'). exists go, V. split_and!; [done|apply HS'|].
  intros f evts i Hf. destruct (s_epoll _ HS' _ _ _ Hf) as (_ & ? & ? & ?). done.
Qed.

(** A thread answers in the same way; it ends once the client has closed. *)
Lemma client_routine_answers n : ∀ f b K, length b = Z.to_nat MAXLNE → Forall short (recvs K) →
  answered (session f (log K)) → ∃ ended K', client_routine n f b K = Ok (ended, K') ∧
  answered (session f (log K')) ∧ (ended = true → f ∉ files K').
Proof.
  induction n as [|n IH]; intros f b K Hb Hs Ha; [by eexists _, K|]. cbn [client_routine].
  destruct (echo_ok b K f Hb Hs) as (r & b' & s & l & g & -> & Hb' & Ht & Hl & Hg & Hn & Hans). rewrite ok_bind.
  set (K1 := Kernel _ _ _ _ _ _ _ _). assert (Ha1 : answered (session f (log K1))) by (simpl; rewrite Hg, Hl; by apply Hans).
  destruct (r =? 0); [|by apply IH]. exists true, (close K1 f). split; [done|]. unfold close.
  destruct (decide _); split; try done. simpl. set_solver.
Qed.

(** ** What goes wrong *)

(** The first connection that fails, or for which no descriptor is free, ends the server. *)
Lemma accept_failure_ends V m nb l : (accepts (kn V) = (false, nb) :: l ∨ lowest (kn V) = None) →
  ∃ V', handle V (listenfd V, m) = Ok (false, V').
Proof.
  intros Ha. unfold handle. rewrite Z.eqb_refl. unfold accept.
  destruct (accepts (kn V)) as [|[[] nb'] l']; [by eexists| |by eexists].
  destruct Ha as [[=]| ->]. by eexists.
Qed.

(** A message that fills the buffer has its terminator stored behind it. *)
Lemma full_message_overruns b K f d l : length b = Z.to_nat MAXLNE → recvs K = Some d :: l →
  (Z.to_nat MAXLNE ≤ length d)%nat → echo b K f = Err OutOfBounds.
Proof.
  intros Hb Hr Hd. unfold echo. rewrite Hr. cbn [default from_option id]. set (x := take _ d).
  assert (Hx : length x = Z.to_nat MAXLNE) by (unfold x; rewrite length_take; lia).
  rewrite splice_over, ok_bind by lia. rewrite (proj2 (Z.ltb_lt 0 _)) by (rewrite Hx; unfold MAXLNE; lia).
  rewrite aset_past; [done|]. rewrite length_app, length_drop. lia.
Qed.

(** A connection on which [recv] fails stays as it is: epoll reports it again, without end. *)
Lemma failed_recv_stays V f m l : f ≠ listenfd V → length (buff V) = Z.to_nat MAXLNE → recvs (kn V) = None :: l →
  handle V (f, m) = Ok (true, if Z.land m EPOLLIN =? 0 then V else with_kn V (set_recvs (kn V) l)).
Proof.
  intros Hf Hb Hr. unfold handle. rewrite (proj2 (Z.eqb_neq _ _) Hf). destruct (_ =? 0); [done|]. cbn [negb].
  unfold echo. rewrite Hr. cbn [default from_option]. rewrite take_nil, splice_over, ok_bind by (simpl; lia).
  cbn [Z.ltb Z.compare]. rewrite ok_bind. done.
Qed.

(** ** Concrete inputs *)

Definition kernel0 : kernel :=
  Kernel ∅ {[0; 1; 2; 3; 4]} 8 0 [Some [104; 105]; Some [111; 107]; Some []] [2; 1] [(true, true); (false, true)] [].
Definition rounds0 : list (option (list (Z * Z))) := [Some [(3, 1)]; None; Some [(5, 1)]; Some [(5, 1)]; Some [(5, 1); (3, 1)]; Some []].

(** The answer to the second message is cut, and the second connection fails. *)
Example trace_tcp : ('(go, V) ← main kernel0 3 4 (replicate (Z.to_nat MAXLNE) 7) rounds0; Ok (go, log (kn V))) =
  Ok (false, [Closed 5; Sent 5 [111]; Received 5 [111; 107]; Sent 5 [104; 105]; Received 5 [104; 105]; Opened 5]).
Proof. vm_compute. reflexivity. Qed.

Lemma echo_server_sound_witness : ∃ go V, main kernel0 3 4 (replicate (Z.to_nat MAXLNE) 7) rounds0 = Ok (go, V) ∧
  is_Some (epoll (kn V) !! listenfd V).
Proof.
  destruct (echo_server_sound kernel0 3 4 (replicate (Z.to_nat MAXLNE) 7) rounds0) as (go & V & H1 & H2 & _).
  - split; [set_solver|set_solver|done|done|]. cbn [recvs kernel0].
    repeat (apply Forall_cons; split; [intros d [= <-]; apply Nat2Z.inj_lt; vm_compute; done|]). apply Forall_nil. done.
  - apply length_replicate.
  - repeat constructor; simpl; set_solver.
  - exists go, V. split; [exact H1|exact H2].
Defined.

End TcpServer.
