(* ===== verification/Kcp.v ===== *)
(** * The reliable transport of 4.4udp/kcp-20211120/ikcp.c: its operations

    A connection end sends messages, cut into numbered segments, over datagrams that may be
    lost, repeated or reordered; the receiver acknowledges segments one by one (ACK) and all
    below a number ([una]).  This file translates ikcp.c; KcpWire holds the facts
    about the bytes, KcpLink the two ends together.

    The queues of segments are lists, an intrusive list being used for each in the code.
    The fields of [ikcpcb] are grouped by what uses them.  [malloc] succeeds (ikcp_send
    asserts it); logging and the user pointers are left out, and the datagrams given to
    the [output] callback are a result. *)

From S2P Require Import Prelude CMem.

Module Kcp.

(* src: 4.4udp/kcp-20211120/ikcp.c:25-46 IKCP_RTO_NDL *)
Definition IKCP_RTO_NDL : Z := 30.
Definition IKCP_RTO_MIN : Z := 100.
Definition IKCP_RTO_DEF : Z := 200.
Definition IKCP_RTO_MAX : Z := 60000.
Definition IKCP_CMD_PUSH : Z := 81.
Definition IKCP_CMD_ACK : Z := 82.
Definition IKCP_CMD_WASK : Z := 83.
Definition IKCP_CMD_WINS : Z := 84.
Definition IKCP_ASK_SEND : Z := 1.
Definition IKCP_ASK_TELL : Z := 2.
Definition IKCP_WND_SND : Z := 32.
Definition IKCP_WND_RCV : Z := 128.
Definition IKCP_MTU_DEF : Z := 1400.
Definition IKCP_INTERVAL : Z := 100.
Definition IKCP_OVERHEAD : Z := 24.
Definition IKCP_DEADLINK : Z := 20.
Definition IKCP_THRESH_INIT : Z := 2.
Definition IKCP_THRESH_MIN : Z := 2.
Definition IKCP_PROBE_INIT : Z := 7000.
Definition IKCP_PROBE_LIMIT : Z := 120000.
Definition IKCP_FASTACK_LIMIT : Z := 5.

(** ** State *)

(** The member [len] is the length of [data]. *)
(* src: 4.4udp/kcp-20211120/ikcp.h:266-282 IKCPSEG *)
Record IKCPSEG : Type := Seg {
  conv : Z; cmd : Z; frg : Z; wnd : Z; ts : Z; sn : Z; una : Z; data : list Z;
  resendts : Z; rto : Z; fastack : Z; xmit : Z
}.
Definition len (s : IKCPSEG) : Z := Z.of_nat (length (data s)).

Record config : Type := Config {
  kcp_conv : Z; mtu : Z; mss : Z; snd_wnd : Z; rcv_wnd : Z; rx_minrto : Z; interval : Z;
  nodelay : Z; fastresend : Z; fastlimit : Z; nocwnd : Z; stream : Z; dead_link : Z
}.
Record sender : Type := Sender {
  snd_una : Z; snd_nxt : Z; snd_queue : list IKCPSEG; snd_buf : list IKCPSEG; nsnd_que : Z; nsnd_buf : Z
}.
(** [acklist] holds the [ackcount] pairs of number and time stamp that are stored; [ackblock] is
    the capacity of its array. *)
Record receiver : Type := Receiver {
  rcv_nxt : Z; rcv_queue : list IKCPSEG; rcv_buf : list IKCPSEG; nrcv_que : Z; nrcv_buf : Z;
  acklist : list (Z * Z); ackblock : Z
}.
Record control : Type := Control {
  rmt_wnd : Z; cwnd : Z; incr : Z; ssthresh : Z; rx_srtt : Z; rx_rttval : Z; rx_rto : Z;
  probe : Z; ts_probe : Z; probe_wait : Z; kcp_xmit : Z; state : Z
}.
Record clock : Type := Clock { current : Z; ts_flush : Z; updated : Z }.

(* src: 4.4udp/kcp-20211120/ikcp.h:287-358 IKCPCB *)
Record ikcpcb : Type := Kcp { cf : config; tx : sender; rx : receiver; cc : control; ck : clock }.

Definition with_cf K x := Kcp x (tx K) (rx K) (cc K) (ck K).
Definition with_tx K x := Kcp (cf K) x (rx K) (cc K) (ck K).
Definition with_rx K x := Kcp (cf K) (tx K) x (cc K) (ck K).
Definition with_cc K x := Kcp (cf K) (tx K) (rx K) x (ck K).
Definition with_ck K x := Kcp (cf K) (tx K) (rx K) (cc K) x.

(** The array for outgoing datagrams has this size. *)
Definition buffer_size (c : config) : Z := (mtu c + IKCP_OVERHEAD) * 3.

(* src: 4.4udp/kcp-20211120/ikcp.c:231-292 ikcp_create *)
Definition ikcp_create (cv : Z) : ikcpcb :=
  Kcp (Config cv IKCP_MTU_DEF (IKCP_MTU_DEF - IKCP_OVERHEAD) IKCP_WND_SND IKCP_WND_RCV IKCP_RTO_MIN
         IKCP_INTERVAL 0 0 IKCP_FASTACK_LIMIT 0 0 IKCP_DEADLINK)
    (Sender 0 0 [] [] 0 0)
    (Receiver 0 [] [] 0 0 [] 0)
    (Control IKCP_WND_RCV 0 0 IKCP_THRESH_INIT 0 0 IKCP_RTO_DEF 0 0 0 0 0)
    (Clock 0 IKCP_INTERVAL 0).

(** ** Integers *)

(* src: 4.4udp/kcp-20211120/ikcp.c:123-125 _imin_ *)
Definition imin_ (a b : Z) : Z := if a <=? b then a else b.
(* src: 4.4udp/kcp-20211120/ikcp.c:127-129 _imax_ *)
Definition imax_ (a b : Z) : Z := if b <=? a then a else b.
(* src: 4.4udp/kcp-20211120/ikcp.c:131-134 _ibound_ *)
Definition ibound_ (lower middle upper : Z) : Z := imin_ (imax_ lower middle) upper.
(* src: 4.4udp/kcp-20211120/ikcp.c:136-139 _itimediff *)
Definition itimediff (later earlier : Z) : Z := i32 (later - earlier).
(** The result of arithmetic on [int]. *)
Definition int (z : Z) : res Z := if (- 2 ^ 31 <=? z) && (z <? 2 ^ 31) then Ok z else Err SignedOverflow.

(** ** Bytes (little-endian) *)

(* src: 4.4udp/kcp-20211120/ikcp.c:54-58 ikcp_encode8u *)
Definition ikcp_encode8u (c : Z) : list Z := [u8 c].
(* src: 4.4udp/kcp-20211120/ikcp.c:68-78 ikcp_encode16u *)
Definition ikcp_encode16u (w : Z) : list Z := [u8 w; u8 (Z.shiftr w 8)].
(* src: 4.4udp/kcp-20211120/ikcp.c:94-106 ikcp_encode32u *)
Definition ikcp_encode32u (l : Z) : list Z := [u8 l; u8 (Z.shiftr l 8); u8 (Z.shiftr l 16); u8 (Z.shiftr l 24)].
(** Decoding gives the value and the rest; reading past the end is a fault. *)
(* src: 4.4udp/kcp-20211120/ikcp.c:61-65 ikcp_decode8u *)
Definition ikcp_decode8u (p : list Z) : res (Z * list Z) :=
  match p with a :: p => Ok (a, p) | _ => Err OutOfBounds end.
(* src: 4.4udp/kcp-20211120/ikcp.c:81-91 ikcp_decode16u *)
Definition ikcp_decode16u (p : list Z) : res (Z * list Z) :=
  match p with a :: b :: p => Ok (a + Z.shiftl b 8, p) | _ => Err OutOfBounds end.
(* src: 4.4udp/kcp-20211120/ikcp.c:109-121 ikcp_decode32u *)
Definition ikcp_decode32u (p : list Z) : res (Z * list Z) :=
  match p with
  | a :: b :: c :: d :: p => Ok (a + Z.shiftl b 8 + Z.shiftl c 16 + Z.shiftl d 24, p)
  | _ => Err OutOfBounds
  end.

(* src: 4.4udp/kcp-20211120/ikcp.c:984-995 ikcp_encode_seg *)
Definition ikcp_encode_seg (s : IKCPSEG) : list Z :=
  ikcp_encode32u (conv s) ++ ikcp_encode8u (cmd s) ++ ikcp_encode8u (frg s) ++ ikcp_encode16u (wnd s) ++
  ikcp_encode32u (ts s) ++ ikcp_encode32u (sn s) ++ ikcp_encode32u (una s) ++ ikcp_encode32u (len s).

(* src: 4.4udp/kcp-20211120/ikcp.c:1397-1402 ikcp_getconv *)
Definition ikcp_getconv (p : list Z) : res Z := '(c, _) ← ikcp_decode32u p; Ok c.

(** ** Receiving *)

(** The bytes of the segments up to the first with [frg] zero. *)
Fixpoint message_size (q : list IKCPSEG) : Z :=
  match q with [] => 0 | s :: q => len s + (if frg s =? 0 then 0 else message_size q) end.

(* src: 4.4udp/kcp-20211120/ikcp.c:445-467 ikcp_peeksize *)
Definition ikcp_peeksize (K : ikcpcb) : Z :=
  match rcv_queue (rx K) with
  | [] => -1
  | s :: _ =>
      if frg s =? 0 then len s
      else if nrcv_que (rx K) <? u32 (frg s + 1) then -1
      else message_size (rcv_queue (rx K))
  end.

(** The segments of the first message joined, how many they are, and the segments left. *)
(* src: 4.4udp/kcp-20211120/ikcp.c:385-413 ikcp_recv *)
Fixpoint merge_fragments (q : list IKCPSEG) : list Z * Z * list IKCPSEG :=
  match q with
  | [] => ([], 0, [])
  | s :: q =>
      if frg s =? 0 then (data s, 1, q)
      else let '(d, n, q) := merge_fragments q in (data s ++ d, n + 1, q)
  end.

(** Segments in sequence go from the buffer to the queue while the window has room. *)
(* src: 4.4udp/kcp-20211120/ikcp.c:419-431 ikcp_recv *)
Fixpoint move_ready (w nxt nbuf nque : Z) (buf queue : list IKCPSEG) (al : list (Z * Z)) (ab : Z) : receiver :=
  match buf with
  | s :: buf' =>
      if (sn s =? nxt) && (nque <? w)
      then move_ready w (u32 (nxt + 1)) (u32 (nbuf - 1)) (u32 (nque + 1)) buf' (queue ++ [s]) al ab
      else Receiver nxt queue buf nque nbuf al ab
  | [] => Receiver nxt queue buf nque nbuf al ab
  end.
Definition move_available (c : config) (R : receiver) : receiver :=
  move_ready (rcv_wnd c) (rcv_nxt R) (nrcv_buf R) (nrcv_que R) (rcv_buf R) (rcv_queue R) (acklist R) (ackblock R).

(** [sz] is the argument [len]: the size of the caller's buffer, or minus that for a peek. *)
(* src: 4.4udp/kcp-20211120/ikcp.c:359-440 ikcp_recv *)
Definition ikcp_recv (K : ikcpcb) (sz : Z) : res (Z * list Z * ikcpcb) :=
  match rcv_queue (rx K) with
  | [] => Ok (-1, [], K)
  | _ :: _ =>
      let peeksize := ikcp_peeksize K in
      if peeksize <? 0 then Ok (-2, [], K)
      else if Z.abs sz <? peeksize then Ok (-3, [], K)
      else
        let recover := rcv_wnd (cf K) <=? nrcv_que (rx K) in
        let '(d, n, q) := merge_fragments (rcv_queue (rx K)) in
        if Z.abs sz <? Z.of_nat (length d) then Err OutOfBounds
        else if negb (Z.of_nat (length d) =? peeksize) then Err AssertFailed
        else
          let R := rx K in
          let R := if sz <? 0 then R
                   else Receiver (rcv_nxt R) q (rcv_buf R) (u32 (nrcv_que R - n)) (nrcv_buf R) (acklist R) (ackblock R) in
          let R := move_available (cf K) R in
          let C := cc K in
          let C := if (nrcv_que R <? rcv_wnd (cf K)) && recover
                   then Control (rmt_wnd C) (cwnd C) (incr C) (ssthresh C) (rx_srtt C) (rx_rttval C) (rx_rto C)
                          (Z.lor (probe C) IKCP_ASK_TELL) (ts_probe C) (probe_wait C) (kcp_xmit C) (state C)
                   else C in
          Ok (Z.of_nat (length d), d, with_cc (with_rx K R) C)
  end.

(** ** Sending *)

(** A segment as ikcp_send leaves it: the other members are set before they are read. *)
Definition new_seg (f : Z) (d : list Z) : IKCPSEG := Seg 0 0 f 0 0 0 0 d 0 0 0 0.

(** The loop over the fragments; [i] counts those to come. *)
(* src: 4.4udp/kcp-20211120/ikcp.c:540-559 ikcp_send *)
Fixpoint fragments (i : nat) (m strm : Z) (d : list Z) : list IKCPSEG :=
  match i with
  | O => []
  | S i =>
      let size := if m <? Z.of_nat (length d) then m else Z.of_nat (length d) in
      new_seg (if strm =? 0 then Z.of_nat i else 0) (take (Z.to_nat size) d) ::
        fragments i m strm (drop (Z.to_nat size) d)
  end.

(** In stream mode the last segment that waits is filled up first. *)
(* src: 4.4udp/kcp-20211120/ikcp.c:498-529 ikcp_send *)
Definition append_last (K : ikcpcb) (d : list Z) : ikcpcb * list Z :=
  match rev (snd_queue (tx K)) with
  | old :: q =>
      if len old <? mss (cf K) then
        let capacity := mss (cf K) - len old in
        let extend := if Z.of_nat (length d) <? capacity then Z.of_nat (length d) else capacity in
        let T := tx K in
        (with_tx K (Sender (snd_una T) (snd_nxt T)
           (rev q ++ [new_seg 0 (data old ++ take (Z.to_nat extend) d)]) (snd_buf T) (nsnd_que T) (nsnd_buf T)),
         drop (Z.to_nat extend) d)
      else (K, d)
  | [] => (K, d)
  end.

(** [d] is the caller's buffer. *)
(* src: 4.4udp/kcp-20211120/ikcp.c:488-562 ikcp_send *)
Definition ikcp_send (K : ikcpcb) (d : list Z) : res (Z * ikcpcb) :=
  if negb (0 <? mss (cf K)) then Err AssertFailed
  else
    let '(K, d) := if negb (stream (cf K) =? 0) then append_last K d else (K, d) in
    if negb (stream (cf K) =? 0) && (Z.of_nat (length d) <=? 0) then Ok (0, K)
    else
      let n := Z.of_nat (length d) in
      let count := if n <=? mss (cf K) then 1 else u32 (n + mss (cf K) - 1) / mss (cf K) in
      if IKCP_WND_RCV <=? count then Ok (-2, K)
      else
        let count := if count =? 0 then 1 else count in
        let T := tx K in
        Ok (0, with_tx K (Sender (snd_una T) (snd_nxt T)
          (snd_queue T ++ fragments (Z.to_nat count) (mss (cf K)) (stream (cf K)) d)
          (snd_buf T) (u32 (nsnd_que T + count)) (nsnd_buf T))).

(** ** Acknowledgements *)

(** The smoothed round-trip time and its variation. Division is C's: it rounds towards zero. *)
(* src: 4.4udp/kcp-20211120/ikcp.c:586-595 ikcp_update_ack *)
Definition estimate_rtt (C : control) (rtt : Z) : res (Z * Z) :=
  if rx_srtt C =? 0 then Ok (rtt, Z.quot rtt 2)
  else
    d ← int (rtt - rx_srtt C);
    let delta := if d <? 0 then - d else d in
    v ← int (3 * rx_rttval C);
    s7 ← int (7 * rx_srtt C);
    s ← int (s7 + rtt);
    let s := Z.quot s 8 in
    Ok (if s <? 1 then 1 else s, i32 (Z.quot (v + delta) 4)).

(* src: 4.4udp/kcp-20211120/ikcp.c:583-600 ikcp_update_ack *)
Definition ikcp_update_ack (c : config) (C : control) (rtt : Z) : res control :=
  '(srtt, rttval) ← estimate_rtt C rtt;
  v4 ← int (4 * rttval);
  let rto := i32 (u32 (u32 srtt + imax_ (interval c) (u32 v4))) in
  let rto := i32 (ibound_ (u32 (rx_minrto c)) (u32 rto) IKCP_RTO_MAX) in
  Ok (Control (rmt_wnd C) (cwnd C) (incr C) (ssthresh C) srtt rttval rto (probe C) (ts_probe C)
        (probe_wait C) (kcp_xmit C) (state C)).

(* src: 4.4udp/kcp-20211120/ikcp.c:603-613 ikcp_shrink_buf *)
Definition ikcp_shrink_buf (T : sender) : sender :=
  Sender (match snd_buf T with s :: _ => sn s | [] => snd_nxt T end)
    (snd_nxt T) (snd_queue T) (snd_buf T) (nsnd_que T) (nsnd_buf T).

(** Whether [n] is a number that may be acknowledged. *)
Definition unacked (T : sender) (n : Z) : bool :=
  negb ((itimediff n (snd_una T) <? 0) || (0 <=? itimediff n (snd_nxt T))).

(** The list without its segment number [n], and whether there is one. *)
Fixpoint take_sn (n : Z) (l : list IKCPSEG) : list IKCPSEG * bool :=
  match l with
  | [] => ([], false)
  | s :: l' =>
      if n =? sn s then (l', true)
      else if itimediff n (sn s) <? 0 then (l, false)
      else let '(l', b) := take_sn n l' in (s :: l', b)
  end.
(* src: 4.4udp/kcp-20211120/ikcp.c:615-636 ikcp_parse_ack *)
Definition ikcp_parse_ack (T : sender) (n : Z) : sender :=
  if unacked T n then
    let '(l, b) := take_sn n (snd_buf T) in
    Sender (snd_una T) (snd_nxt T) (snd_queue T) l (nsnd_que T) (if b then u32 (nsnd_buf T - 1) else nsnd_buf T)
  else T.

Fixpoint drop_una (u : Z) (l : list IKCPSEG) (n : Z) : list IKCPSEG * Z :=
  match l with
  | [] => ([], n)
  | s :: l' => if 0 <? itimediff u (sn s) then drop_una u l' (u32 (n - 1)) else (l, n)
  end.
(* src: 4.4udp/kcp-20211120/ikcp.c:640-655 ikcp_parse_una *)
Definition ikcp_parse_una (T : sender) (u : Z) : sender :=
  let '(l, n) := drop_una u (snd_buf T) (nsnd_buf T) in
  Sender (snd_una T) (snd_nxt T) (snd_queue T) l (nsnd_que T) n.

Definition with_fastack (s : IKCPSEG) (n : Z) : IKCPSEG :=
  Seg (conv s) (cmd s) (frg s) (wnd s) (ts s) (sn s) (una s) (data s) (resendts s) (rto s) n (xmit s).
Fixpoint skip_acks (n : Z) (l : list IKCPSEG) : list IKCPSEG :=
  match l with
  | [] => []
  | s :: l' =>
      if itimediff n (sn s) <? 0 then l
      else (if negb (n =? sn s) then with_fastack s (u32 (fastack s + 1)) else s) :: skip_acks n l'
  end.
(** [ts] is only used with IKCP_FASTACK_CONSERVE, which is not defined. *)
(* src: 4.4udp/kcp-20211120/ikcp.c:657-680 ikcp_parse_fastack *)
Definition ikcp_parse_fastack (T : sender) (n : Z) : sender :=
  if unacked T n
  then Sender (snd_una T) (snd_nxt T) (snd_queue T) (skip_acks n (snd_buf T)) (nsnd_que T) (nsnd_buf T)
  else T.

(** [for (newblock = 8; newblock < newsize; newblock <<= 1);] *)
Fixpoint ack_block (fuel : nat) (b n : Z) : res Z :=
  match fuel with
  | O => Err OutOfFuel
  | S fuel => if b <? n then ack_block fuel (u32 (Z.shiftl b 1)) n else Ok b
  end.
(** The pair is stored at index [ackcount]. *)
(* src: 4.4udp/kcp-20211120/ikcp.c:691-726 ikcp_ack_push *)
Definition ikcp_ack_push (R : receiver) (n t : Z) : res receiver :=
  let newsize := u32 (Z.of_nat (length (acklist R)) + 1) in
  block ← (if ackblock R <? newsize then ack_block 32 8 newsize else Ok (ackblock R));
  if Z.of_nat (length (acklist R)) <? block
  then Ok (Receiver (rcv_nxt R) (rcv_queue R) (rcv_buf R) (nrcv_que R) (nrcv_buf R) (acklist R ++ [(n, t)]) block)
  else Err OutOfBounds.

(** ** Data *)

(** The segment is put in its place from the end of the buffer on, given in reverse;
    nothing when one with its number is met. *)
(* src: 4.4udp/kcp-20211120/ikcp.c:755-775 ikcp_parse_data *)
Fixpoint insert_back (s : IKCPSEG) (l : list IKCPSEG) : option (list IKCPSEG) :=
  match l with
  | [] => Some [s]
  | x :: l' =>
      if sn x =? sn s then None
      else if 0 <? itimediff (sn s) (sn x) then Some (s :: l)
      else l' ← insert_back s l'; Some (x :: l')
  end.

(* src: 4.4udp/kcp-20211120/ikcp.c:742-802 ikcp_parse_data *)
Definition ikcp_parse_data (c : config) (R : receiver) (newseg : IKCPSEG) : receiver :=
  if (0 <=? itimediff (sn newseg) (u32 (rcv_nxt R + rcv_wnd c))) || (itimediff (sn newseg) (rcv_nxt R) <? 0)
  then R
  else
    let R := match insert_back newseg (rev (rcv_buf R)) with
             | Some l => Receiver (rcv_nxt R) (rcv_queue R) (rev l) (nrcv_que R) (u32 (nrcv_buf R + 1)) (acklist R) (ackblock R)
             | None => R
             end in
    move_available c R.

(** The members of the header on the wire. *)
Record header : Type := Header {
  h_conv : Z; h_cmd : Z; h_frg : Z; h_wnd : Z; h_ts : Z; h_sn : Z; h_una : Z; h_len : Z
}.
(* src: 4.4udp/kcp-20211120/ikcp.c:838-847 ikcp_input *)
Definition decode_header (p : list Z) : res (header * list Z) :=
  '(cv, p) ← ikcp_decode32u p;
  '(cm, p) ← ikcp_decode8u p;
  '(fr, p) ← ikcp_decode8u p;
  '(wn, p) ← ikcp_decode16u p;
  '(t, p) ← ikcp_decode32u p;
  '(n, p) ← ikcp_decode32u p;
  '(u, p) ← ikcp_decode32u p;
  '(l, p) ← ikcp_decode32u p;
  Ok (Header cv cm fr wn t n u l, p).

(** What is done with one segment of a datagram: [p] begins with its [len] bytes of data.
    [flag] is [maxack] once an ACK has been seen. *)
(* src: 4.4udp/kcp-20211120/ikcp.c:859-940 ikcp_input *)
Definition input_seg (K : ikcpcb) (h : header) (p : list Z) (flag : option Z) : res (ikcpcb * option Z) :=
  let C := cc K in
  let K := with_cc K (Control (h_wnd h) (cwnd C) (incr C) (ssthresh C) (rx_srtt C) (rx_rttval C) (rx_rto C)
                        (probe C) (ts_probe C) (probe_wait C) (kcp_xmit C) (state C)) in
  let K := with_tx K (ikcp_shrink_buf (ikcp_parse_una (tx K) (h_una h))) in
  if h_cmd h =? IKCP_CMD_ACK then
    let rtt := itimediff (current (ck K)) (h_ts h) in
    C ← (if 0 <=? rtt then ikcp_update_ack (cf K) (cc K) rtt else Ok (cc K));
    let T := ikcp_shrink_buf (ikcp_parse_ack (tx K) (h_sn h)) in
    let flag := match flag with
                | None => Some (h_sn h)
                | Some m => if 0 <? itimediff (h_sn h) m then Some (h_sn h) else Some m
                end in
    Ok (with_tx (with_cc K C) T, flag)
  else if h_cmd h =? IKCP_CMD_PUSH then
    if itimediff (h_sn h) (u32 (rcv_nxt (rx K) + rcv_wnd (cf K))) <? 0 then
      R ← ikcp_ack_push (rx K) (h_sn h) (h_ts h);
      if 0 <=? itimediff (h_sn h) (rcv_nxt R) then
        d ← slice p 0 (h_len h);
        Ok (with_rx K (ikcp_parse_data (cf K) R
              (Seg (h_conv h) (h_cmd h) (h_frg h) (h_wnd h) (h_ts h) (h_sn h) (h_una h) d 0 0 0 0)), flag)
      else Ok (with_rx K R, flag)
    else Ok (K, flag)
  else if h_cmd h =? IKCP_CMD_WASK then
    let C := cc K in
    Ok (with_cc K (Control (rmt_wnd C) (cwnd C) (incr C) (ssthresh C) (rx_srtt C) (rx_rttval C) (rx_rto C)
          (Z.lor (probe C) IKCP_ASK_TELL) (ts_probe C) (probe_wait C) (kcp_xmit C) (state C)), flag)
  else Ok (K, flag).

Definition known_cmd (c : Z) : bool :=
  (c =? IKCP_CMD_PUSH) || (c =? IKCP_CMD_ACK) || (c =? IKCP_CMD_WASK) || (c =? IKCP_CMD_WINS).

(** The loop over the segments of a datagram: [None] when it runs to the end, or the
    value the function returns at once. *)
(* src: 4.4udp/kcp-20211120/ikcp.c:829-944 ikcp_input *)
Fixpoint input_loop (fuel : nat) (K : ikcpcb) (p : list Z) (size : Z) (flag : option Z) :
    res (option Z * ikcpcb * option Z) :=
  match fuel with
  | O => Err OutOfFuel
  | S fuel =>
      if size <? IKCP_OVERHEAD then Ok (None, K, flag)
      else
        '(cv, _) ← ikcp_decode32u p;
        if negb (cv =? kcp_conv (cf K)) then Ok (Some (-1), K, flag)
        else
          '(h, p) ← decode_header p;
          let size := size - IKCP_OVERHEAD in
          if (size <? h_len h) || (i32 (h_len h) <? 0) then Ok (Some (-2), K, flag)
          else if negb (known_cmd (h_cmd h)) then Ok (Some (-3), K, flag)
          else
            '(K, flag) ← input_seg K h p flag;
            input_loop fuel K (drop (Z.to_nat (h_len h)) p) (size - h_len h) flag
  end.

(** The congestion window after new acknowledgements; dividing by [incr] it is not zero. *)
(* src: 4.4udp/kcp-20211120/ikcp.c:952-974 ikcp_input *)
Definition grow_cwnd (m : Z) (C : control) : control :=
  if cwnd C <? rmt_wnd C then
    let '(w, i) :=
      if cwnd C <? ssthresh C then (u32 (cwnd C + 1), u32 (incr C + m))
      else
        let i := if incr C <? m then m else incr C in
        let i := u32 (i + u32 (u32 (m * m) / i + m / 16)) in
        if u32 (u32 (cwnd C + 1) * m) <=? i then (u32 (u32 (i + m) - 1) / (if 0 <? m then m else 1), i) else (cwnd C, i) in
    let '(w, i) := if rmt_wnd C <? w then (rmt_wnd C, u32 (rmt_wnd C * m)) else (w, i) in
    Control (rmt_wnd C) w i (ssthresh C) (rx_srtt C) (rx_rttval C) (rx_rto C) (probe C) (ts_probe C) (probe_wait C)
      (kcp_xmit C) (state C)
  else C.

(** [size] is the argument, the number of bytes of [p] received. *)
(* src: 4.4udp/kcp-20211120/ikcp.c:815-978 ikcp_input *)
Definition ikcp_input (K : ikcpcb) (p : list Z) (size : Z) : res (Z * ikcpcb) :=
  let prev_una := snd_una (tx K) in
  if i32 size <? IKCP_OVERHEAD then Ok (-1, K)
  else
    '(r, K, flag) ← input_loop (S (Z.to_nat size)) K p size None;
    match r with
    | Some r => Ok (r, K)
    | None =>
        let K := match flag with Some maxack => with_tx K (ikcp_parse_fastack (tx K) maxack) | None => K end in
        let K := if 0 <? itimediff (snd_una (tx K)) prev_una then with_cc K (grow_cwnd (mss (cf K)) (cc K)) else K in
        Ok (0, K)
    end.

(** ** Output *)

(* src: 4.4udp/kcp-20211120/ikcp.c:997-1003 ikcp_wnd_unused *)
Definition ikcp_wnd_unused (K : ikcpcb) : Z :=
  if nrcv_que (rx K) <? rcv_wnd (cf K) then rcv_wnd (cf K) - nrcv_que (rx K) else 0.

(** The bytes written to [buffer] so far, and the datagrams given to [output], which is not
    called for an empty one. *)
Record outgoing : Type := Outgoing { ptr : list Z; outs : list (list Z) }.
(* src: 4.4udp/kcp-20211120/ikcp.c:203-212 ikcp_output *)
Definition ikcp_output (o : outgoing) : outgoing :=
  Outgoing [] (if Z.of_nat (length (ptr o)) =? 0 then outs o else outs o ++ [ptr o]).
(** A segment is appended, after sending what is there when both do not fit a datagram. *)
(* src: 4.4udp/kcp-20211120/ikcp.c:1186-1204 ikcp_flush *)
Definition put_seg (c : config) (s : IKCPSEG) (o : outgoing) : res outgoing :=
  let need := IKCP_OVERHEAD + len s in
  let o := if mtu c <? Z.of_nat (length (ptr o)) + need then ikcp_output o else o in
  let p := ptr o ++ ikcp_encode_seg s ++ data s in
  if buffer_size c <? Z.of_nat (length p) then Err OutOfBounds else Ok (Outgoing p (outs o)).

Fixpoint put_segs (c : config) (l : list IKCPSEG) (o : outgoing) : res outgoing :=
  match l with [] => Ok o | s :: l => o ← put_seg c s o; put_segs c l o end.

(** The segment without data that ikcp_flush fills in for acknowledgements and probes. *)
Definition bare_seg (K : ikcpcb) (cm n t : Z) : IKCPSEG :=
  Seg (kcp_conv (cf K)) cm 0 (ikcp_wnd_unused K) t n (rcv_nxt (rx K)) [] 0 0 0 0.

(** The timer of the window probe. *)
(* src: 4.4udp/kcp-20211120/ikcp.c:1070-1094 ikcp_flush *)
Definition probe_window (now : Z) (C : control) : control :=
  let '(wait, t, p) :=
    if rmt_wnd C =? 0 then
      if probe_wait C =? 0 then (IKCP_PROBE_INIT, u32 (now + IKCP_PROBE_INIT), probe C)
      else if 0 <=? itimediff now (ts_probe C) then
        let w := if probe_wait C <? IKCP_PROBE_INIT then IKCP_PROBE_INIT else probe_wait C in
        let w := u32 (w + w / 2) in
        let w := if IKCP_PROBE_LIMIT <? w then IKCP_PROBE_LIMIT else w in
        (w, u32 (now + w), Z.lor (probe C) IKCP_ASK_SEND)
      else (probe_wait C, ts_probe C, probe C)
    else (0, 0, probe C) in
  Control (rmt_wnd C) (cwnd C) (incr C) (ssthresh C) (rx_srtt C) (rx_rttval C) (rx_rto C) p t wait
    (kcp_xmit C) (state C).

(** Acknowledgements, then the probes asked for; they carry the number and time of the last
    acknowledgement. *)
(* src: 4.4udp/kcp-20211120/ikcp.c:1045-1119 ikcp_flush *)
Definition flush_control (K : ikcpcb) (C : control) : list IKCPSEG :=
  let '(n, t) := default (0, 0) (last (acklist (rx K))) in
  map (λ a, bare_seg K IKCP_CMD_ACK a.1 a.2) (acklist (rx K)) ++
  (if negb (Z.land (probe C) IKCP_ASK_SEND =? 0) then [bare_seg K IKCP_CMD_WASK n t] else []) ++
  (if negb (Z.land (probe C) IKCP_ASK_TELL =? 0) then [bare_seg K IKCP_CMD_WINS n t] else []).

(** Waiting segments get their numbers and go to the send buffer while the window has room. *)
(* src: 4.4udp/kcp-20211120/ikcp.c:1131-1153 ikcp_flush *)
Fixpoint move_queue (K : ikcpcb) (w : Z) (queue : list IKCPSEG) (T : sender) : sender :=
  match queue with
  | s :: queue' =>
      if itimediff (snd_nxt T) (u32 (snd_una T + w)) <? 0 then
        let now := current (ck K) in
        let s := Seg (kcp_conv (cf K)) IKCP_CMD_PUSH (frg s) (ikcp_wnd_unused K) now (snd_nxt T) (rcv_nxt (rx K))
                   (data s) now (rx_rto (cc K)) 0 0 in
        move_queue K w queue' (Sender (snd_una T) (u32 (snd_nxt T + 1)) queue' (snd_buf T ++ [s])
                                (u32 (nsnd_que T - 1)) (u32 (nsnd_buf T + 1)))
      else T
  | [] => T
  end.

(** Why a segment is sent. *)
Inductive sending : Type := First | Timeout | Fast | Held.
#[export] Instance sending_eq_dec : EqDecision sending.
Proof. solve_decision. Defined.
(* src: 4.4udp/kcp-20211120/ikcp.c:1164-1196 ikcp_flush *)
Definition schedule (K : ikcpcb) (resent rtomin : Z) (s : IKCPSEG) : sending * IKCPSEG :=
  let now := current (ck K) in
  let rx_rto := rx_rto (cc K) in
  let upd r rs fa x := Seg (conv s) (cmd s) (frg s) (wnd s) (ts s) (sn s) (una s) (data s) rs r fa x in
  if xmit s =? 0 then
    (First, upd (u32 rx_rto) (u32 (u32 (now + u32 rx_rto) + rtomin)) (fastack s) (u32 (xmit s + 1)))
  else if 0 <=? itimediff now (resendts s) then
    let r := if nodelay (cf K) =? 0 then u32 (rto s + imax_ (rto s) (u32 rx_rto))
             else let step := if nodelay (cf K) <? 2 then i32 (rto s) else rx_rto in u32 (rto s + Z.quot step 2) in
    (Timeout, upd r (u32 (now + r)) (fastack s) (u32 (xmit s + 1)))
  else if (resent <=? fastack s) && ((i32 (xmit s) <=? fastlimit (cf K)) || (fastlimit (cf K) <=? 0)) then
    (Fast, upd (rto s) (u32 (now + rto s)) 0 (u32 (xmit s + 1)))
  else (Held, s).
Definition stamp (K : ikcpcb) (s : IKCPSEG) : IKCPSEG :=
  Seg (conv s) (cmd s) (frg s) (ikcp_wnd_unused K) (current (ck K)) (sn s) (rcv_nxt (rx K)) (data s)
    (resendts s) (rto s) (fastack s) (xmit s).

(** The state of the loop over the send buffer: the output, [change], [lost], and the
    members [xmit] and [state] of the end. *)
Record flushing : Type := Flushing { fo : outgoing; change : Z; lost : bool; fx : Z; fs : Z }.
(* src: 4.4udp/kcp-20211120/ikcp.c:1161-1211 ikcp_flush *)
Fixpoint flush_data (K : ikcpcb) (resent rtomin : Z) (l : list IKCPSEG) (F : flushing) : res (list IKCPSEG * flushing) :=
  match l with
  | [] => Ok ([], F)
  | s :: l =>
      let '(w, s) := schedule K resent rtomin s in
      let F := match w with
               | Timeout => Flushing (fo F) (change F) true (u32 (fx F + 1)) (fs F)
               | Fast => Flushing (fo F) (change F + 1) (lost F) (fx F) (fs F)
               | _ => F
               end in
      '(s, F) ← match w with
        | Held => Ok (s, F)
        | _ =>
            let s := stamp K s in
            o ← put_seg (cf K) s (fo F);
            Ok (s, Flushing o (change F) (lost F) (fx F)
                     (if u32 (dead_link (cf K)) <=? xmit s then 2 ^ 32 - 1 else fs F))
        end;
      '(l, F) ← flush_data K resent rtomin l F;
      Ok (s :: l, F)
  end.

(** The congestion window after losses; [w] is the window used for this call. *)
(* src: 4.4udp/kcp-20211120/ikcp.c:1220-1242 ikcp_flush *)
Definition shrink_cwnd (K : ikcpcb) (w resent : Z) (changed lost : bool) (C : control) : control :=
  let m := mss (cf K) in
  let '(th, cw, i) := (ssthresh C, cwnd C, incr C) in
  let '(th, cw, i) := if changed then
      let th := imax_ (u32 (snd_nxt (tx K) - snd_una (tx K)) / 2) IKCP_THRESH_MIN in
      let cw := u32 (th + resent) in (th, cw, u32 (cw * m))
    else (th, cw, i) in
  let '(th, cw, i) := if lost then (imax_ (w / 2) IKCP_THRESH_MIN, 1, m) else (th, cw, i) in
  let '(cw, i) := if cw <? 1 then (1, m) else (cw, i) in
  Control (rmt_wnd C) cw i th (rx_srtt C) (rx_rttval C) (rx_rto C) (probe C) (ts_probe C) (probe_wait C)
    (kcp_xmit C) (state C).

Definition with_probe (C : control) (p : Z) : control :=
  Control (rmt_wnd C) (cwnd C) (incr C) (ssthresh C) (rx_srtt C) (rx_rttval C) (rx_rto C) p (ts_probe C)
    (probe_wait C) (kcp_xmit C) (state C).
Definition with_xmit (C : control) (x st : Z) : control :=
  Control (rmt_wnd C) (cwnd C) (incr C) (ssthresh C) (rx_srtt C) (rx_rttval C) (rx_rto C) (probe C) (ts_probe C)
    (probe_wait C) x st.

(** The window for this call. *)
(* src: 4.4udp/kcp-20211120/ikcp.c:1124-1127 ikcp_flush *)
Definition window (K : ikcpcb) : Z :=
  let w := imin_ (snd_wnd (cf K)) (rmt_wnd (cc K)) in
  if nocwnd (cf K) =? 0 then imin_ (cwnd (cc K)) w else w.

(* src: 4.4udp/kcp-20211120/ikcp.c:1026-1243 ikcp_flush *)
Definition ikcp_flush (K : ikcpcb) : res (list (list Z) * ikcpcb) :=
  if updated (ck K) =? 0 then Ok ([], K)
  else
    let C := probe_window (current (ck K)) (cc K) in
    o ← put_segs (cf K) (flush_control K C) (Outgoing [] []);
    let R := rx K in
    let R := Receiver (rcv_nxt R) (rcv_queue R) (rcv_buf R) (nrcv_que R) (nrcv_buf R) [] (ackblock R) in
    let K := with_cc (with_rx K R) (with_probe C 0) in
    let w := window K in
    let K := with_tx K (move_queue K w (snd_queue (tx K)) (tx K)) in
    let resent := if 0 <? fastresend (cf K) then fastresend (cf K) else 2 ^ 32 - 1 in
    let rtomin := if nodelay (cf K) =? 0 then Z.shiftr (rx_rto (cc K)) 3 else 0 in
    '(l, F) ← flush_data K resent rtomin (snd_buf (tx K)) (Flushing o 0 false (kcp_xmit (cc K)) (state (cc K)));
    let o := ikcp_output (fo F) in
    let T := tx K in
    let K := with_tx K (Sender (snd_una T) (snd_nxt T) (snd_queue T) l (nsnd_que T) (nsnd_buf T)) in
    Ok (outs o, with_cc K (shrink_cwnd K w resent (negb (change F =? 0)) (lost F) (with_xmit (cc K) (fx F) (fs F)))).

(** ** Time *)

(* src: 4.4udp/kcp-20211120/ikcp.c:1251-1276 ikcp_update *)
Definition ikcp_update (K : ikcpcb) (now : Z) : res (list (list Z) * ikcpcb) :=
  let flush := if updated (ck K) =? 0 then now else ts_flush (ck K) in
  let slap := itimediff now flush in
  let '(flush, slap) := if (10000 <=? slap) || (slap <? -10000) then (now, 0) else (flush, slap) in
  if 0 <=? slap then
    let flush := u32 (flush + interval (cf K)) in
    let flush := if 0 <=? itimediff now flush then u32 (now + interval (cf K)) else flush in
    ikcp_flush (with_ck K (Clock now flush 1))
  else Ok ([], with_ck K (Clock now flush 1)).

(** The loop over the send buffer: whether a segment is due, or the time until the first is. *)
Fixpoint next_resend (now : Z) (l : list IKCPSEG) (t : Z) : option Z :=
  match l with
  | [] => Some t
  | s :: l =>
      let diff := itimediff (resendts s) now in
      if diff <=? 0 then None else next_resend now l (if diff <? t then diff else t)
  end.
(* src: 4.4udp/kcp-20211120/ikcp.c:1288-1324 ikcp_check *)
Definition ikcp_check (K : ikcpcb) (now : Z) : Z :=
  if updated (ck K) =? 0 then now
  else
    let flush := ts_flush (ck K) in
    let flush := if (10000 <=? itimediff now flush) || (itimediff now flush <? -10000) then now else flush in
    if 0 <=? itimediff now flush then now
    else
      let tm_flush := itimediff flush now in
      match next_resend now (snd_buf (tx K)) (2 ^ 31 - 1) with
      | None => now
      | Some tm_packet =>
          let minimal := if tm_packet <? tm_flush then tm_packet else tm_flush in
          u32 (now + (if interval (cf K) <=? minimal then interval (cf K) else minimal))
      end.

(** ** Settings *)

(** [room] says whether [malloc] gives the new buffer. *)
(* src: 4.4udp/kcp-20211120/ikcp.c:1328-1341 ikcp_setmtu *)
Definition ikcp_setmtu (K : ikcpcb) (m : Z) (room : bool) : Z * ikcpcb :=
  if (m <? 50) || (m <? IKCP_OVERHEAD) then (-1, K)
  else if negb room then (-2, K)
  else
    let c := cf K in
    (0, with_cf K (Config (kcp_conv c) m (m - IKCP_OVERHEAD) (snd_wnd c) (rcv_wnd c) (rx_minrto c) (interval c)
           (nodelay c) (fastresend c) (fastlimit c) (nocwnd c) (stream c) (dead_link c))).

Definition clip_interval (i : Z) : Z := if 5000 <? i then 5000 else if i <? 10 then 10 else i.
(* src: 4.4udp/kcp-20211120/ikcp.c:1343-1349 ikcp_interval *)
Definition ikcp_interval (K : ikcpcb) (i : Z) : ikcpcb :=
  let c := cf K in
  with_cf K (Config (kcp_conv c) (mtu c) (mss c) (snd_wnd c) (rcv_wnd c) (rx_minrto c) (clip_interval i)
    (nodelay c) (fastresend c) (fastlimit c) (nocwnd c) (stream c) (dead_link c)).

(* src: 4.4udp/kcp-20211120/ikcp.c:1351-1374 ikcp_nodelay *)
Definition ikcp_nodelay (K : ikcpcb) (nd i re nc : Z) : ikcpcb :=
  let c := cf K in
  with_cf K (Config (kcp_conv c) (mtu c) (mss c) (snd_wnd c) (rcv_wnd c)
    (if 0 <=? nd then if nd =? 0 then IKCP_RTO_MIN else IKCP_RTO_NDL else rx_minrto c)
    (if 0 <=? i then clip_interval i else interval c)
    (if 0 <=? nd then nd else nodelay c) (if 0 <=? re then re else fastresend c) (fastlimit c)
    (if 0 <=? nc then nc else nocwnd c) (stream c) (dead_link c)).

(* src: 4.4udp/kcp-20211120/ikcp.c:1377-1388 ikcp_wndsize *)
Definition ikcp_wndsize (K : ikcpcb) (sndwnd rcvwnd : Z) : ikcpcb :=
  let c := cf K in
  with_cf K (Config (kcp_conv c) (mtu c) (mss c) (if 0 <? sndwnd then sndwnd else snd_wnd c)
    (if 0 <? rcvwnd then imax_ rcvwnd IKCP_WND_RCV else rcv_wnd c) (rx_minrto c) (interval c)
    (nodelay c) (fastresend c) (fastlimit c) (nocwnd c) (stream c) (dead_link c)).

(* src: 4.4udp/kcp-20211120/ikcp.c:1390-1393 ikcp_waitsnd *)
Definition ikcp_waitsnd (K : ikcpcb) : Z := i32 (u32 (nsnd_buf (tx K) + nsnd_que (tx K))).

End Kcp.
