(* ===== verification/KcpWire.v ===== *)
(** * The datagrams of ikcp.c

    Segments written by [ikcp_encode_seg] are read back by [ikcp_input]: a datagram is the
    concatenation of segments, and feeding it is feeding them in turn.  Whatever bytes arrive, reading
    stays inside the datagram; whatever waits to be sent, [ikcp_flush] keeps datagrams within
    the MTU and writes inside its buffer, as long as no segment is longer than [mss]. *)

From S2P Require Import Prelude CMem Kcp.

Module KcpWire.
Import Kcp.

(** ** Numbers *)

Lemma u8_range z : 0 ≤ u8 z < 2 ^ 8.
Proof. unfold u8. apply Z.mod_pos_bound. lia. Qed.

Lemma join8 a b n : 0 ≤ n → a + Z.shiftl b n = a + b * 2 ^ n.
Proof. intros. by rewrite Z.shiftl_mul_pow2. Qed.

Lemma decode16_encode w p : ikcp_decode16u (ikcp_encode16u w ++ p) = Ok (u16 w, p).
Proof.
  unfold ikcp_encode16u. cbn [app ikcp_decode16u]. rewrite join8, shiftr_div by lia. do 2 f_equal.
  unfold u8, u16. zdiv.
Qed.

Lemma decode32_encode l p : ikcp_decode32u (ikcp_encode32u l ++ p) = Ok (u32 l, p).
Proof.
  unfold ikcp_encode32u. cbn [app ikcp_decode32u]. rewrite !join8, !shiftr_div by lia. do 2 f_equal.
  unfold u8, u32. change (2 ^ 8) with 256. change (2 ^ 16) with 65536. change (2 ^ 24) with 16777216.
  change (2 ^ 32) with 4294967296. zdiv.
Qed.

Lemma decode8_encode c p : ikcp_decode8u (ikcp_encode8u c ++ p) = Ok (u8 c, p).
Proof. done. Qed.

(** ** Segments *)

Definition wire (s : IKCPSEG) : list Z := ikcp_encode_seg s ++ data s.
Definition header_of (s : IKCPSEG) : header :=
  Header (u32 (conv s)) (u8 (cmd s)) (u8 (frg s)) (u16 (wnd s)) (u32 (ts s)) (u32 (sn s)) (u32 (una s)) (u32 (len s)).

Lemma encode_seg_length s : length (ikcp_encode_seg s) = Z.to_nat IKCP_OVERHEAD.
Proof. done. Qed.

Lemma wire_length s : Z.of_nat (length (wire s)) = IKCP_OVERHEAD + len s.
Proof. unfold wire. rewrite length_app, encode_seg_length. unfold len, IKCP_OVERHEAD. lia. Qed.

Lemma decode_encode s p : decode_header (ikcp_encode_seg s ++ p) = Ok (header_of s, p).
Proof.
  unfold decode_header, ikcp_encode_seg. rewrite <-!app_assoc.
  rewrite decode32_encode, ok_bind, decode8_encode, ok_bind, decode8_encode, ok_bind, decode16_encode, ok_bind.
  by rewrite decode32_encode, ok_bind, decode32_encode, ok_bind, decode32_encode, ok_bind, decode32_encode, ok_bind.
Qed.

(** A segment that an end with number [c] may write: its members fit their fields. *)
Record valid_seg (c : Z) (s : IKCPSEG) : Prop := ValidSeg {
  v_conv : conv s = c ∧ 0 ≤ c < 2 ^ 32;
  v_cmd : known_cmd (cmd s) = true;
  v_frg : 0 ≤ frg s < 2 ^ 8;
  v_ts : 0 ≤ ts s < 2 ^ 32;
  v_sn : 0 ≤ sn s < 2 ^ 32;
  v_una : 0 ≤ una s < 2 ^ 32;
  v_len : len s < 2 ^ 31
}.

Lemma known_cmd_range c : known_cmd c = true → u8 c = c.
Proof.
  unfold known_cmd, IKCP_CMD_PUSH, IKCP_CMD_ACK, IKCP_CMD_WASK, IKCP_CMD_WINS. rewrite !orb_true_iff, !Z.eqb_eq.
  intros [[[H|H]|H]|H]; by rewrite H.
Qed.

Lemma valid_header c s : valid_seg c s → header_of s =
  Header c (cmd s) (frg s) (u16 (wnd s)) (ts s) (sn s) (una s) (len s).
Proof.
  intros [(H1 & H1') H2 H3 H4 H5 H6 H7]. unfold header_of. rewrite H1, known_cmd_range by done.
  rewrite !u32_small by (unfold len in *; lia). f_equal. unfold u8. by apply Z.mod_small.
Qed.

(** A datagram's segments, one after the other. *)
Fixpoint feed (K : ikcpcb) (l : list IKCPSEG) (flag : option Z) : res (ikcpcb * option Z) :=
  match l with
  | [] => Ok (K, flag)
  | s :: l => '(K, flag) ← input_seg K (header_of s) (data s) flag; feed K l flag
  end.

Lemma slice_prefix (d p : list Z) n : n = Z.of_nat (length d) → slice (d ++ p) 0 n = slice d 0 n.
Proof.
  intros ->. rewrite !slice_ok; try (rewrite ?length_app; lia). rewrite !drop_0, Nat2Z.id.
  by rewrite take_app_length, firstn_all.
Qed.

Lemma input_seg_prefix K s p flag c : valid_seg c s →
  input_seg K (header_of s) (data s ++ p) flag = input_seg K (header_of s) (data s) flag.
Proof.
  intros Hv. unfold input_seg. rewrite (slice_prefix (data s)); [done|].
  rewrite (valid_header c s Hv). done.
Qed.

(** What a segment leaves of the number of the connection. *)
Lemma input_seg_cf K h p flag K' flag' : input_seg K h p flag = Ok (K', flag') → cf K' = cf K ∧ ck K' = ck K.
Proof.
  unfold input_seg. destruct (h_cmd h =? IKCP_CMD_ACK).
  { intros H. inv_ok. done. }
  destruct (h_cmd h =? IKCP_CMD_PUSH).
  { destruct (_ <? 0); [|intros H; inv_ok; done]. intros H. inv_ok. destruct (0 <=? _); inv_ok; done. }
  destruct (_ =? _); intros H; inv_ok; done.
Qed.

Lemma wire_nonempty s : wire s ≠ [].
Proof. done. Qed.

(** The loop of [ikcp_input] on a datagram. *)
Lemma input_loop_feed c l : Forall (valid_seg c) l → ∀ fuel K flag, kcp_conv (cf K) = c →
  (length l < fuel)%nat →
  input_loop fuel K (concat (map wire l)) (Z.of_nat (length (concat (map wire l)))) flag =
    ('(K, flag) ← feed K l flag; Ok (None, K, flag)).
Proof.
  induction 1 as [|s l Hv _ IH]; intros fuel K flag Hc Hf; (destruct fuel as [|fuel]; [simpl in Hf; lia|]); [done|].
  cbn [map concat feed]. cbn [input_loop]. rewrite length_app, Nat2Z.inj_add, wire_length.
  rewrite (proj2 (Z.ltb_ge _ _)) by (unfold len, IKCP_OVERHEAD; lia).
  change (wire s) with (ikcp_encode_seg s ++ data s). rewrite <-!app_assoc, decode_encode.
  change (ikcp_encode_seg s) with (ikcp_encode32u (conv s) ++ drop 4 (ikcp_encode_seg s)).
  rewrite <-!app_assoc, decode32_encode, !ok_bind. destruct (v_conv _ _ Hv) as (Hcv & Hcr).
  rewrite Hcv, u32_small, Hc, Z.eqb_refl by done. cbn [negb].
  assert (Hh := valid_header c s Hv).
  assert (h_len (header_of s) = len s ∧ h_cmd (header_of s) = cmd s) as (Hl & Hcm) by (by rewrite Hh).
  rewrite Hl, Hcm, (v_cmd _ _ Hv). cbn [negb].
  rewrite (proj2 (Z.ltb_ge _ _)) by (unfold len; lia).
  rewrite (proj2 (Z.ltb_ge (i32 (len s)) 0)); cbn [orb].
  2: { pose proof (v_len _ _ Hv). rewrite i32_small; unfold len in *; lia. }
  rewrite (input_seg_prefix K s _ flag c Hv).
  destruct (input_seg K (header_of s) (data s) flag) as [[K' flag']|x] eqn:E; [|done]. rewrite !ok_bind.
  rewrite drop_app_length' by (unfold len; lia).
  replace (IKCP_OVERHEAD + len s + Z.of_nat (length (concat (map wire l))) - IKCP_OVERHEAD - len s)
    with (Z.of_nat (length (concat (map wire l)))) by lia.
  apply IH; [|simpl in Hf; lia]. apply input_seg_cf in E as (-> & _). done.
Qed.

(** ** Arbitrary datagrams *)

Definition byte (x : Z) : Prop := 0 ≤ x < 2 ^ 8.

Lemma decode32_ok p : Forall byte p → (4 ≤ length p)%nat → ∃ v, ikcp_decode32u p = Ok (v, drop 4 p) ∧ 0 ≤ v < 2 ^ 32.
Proof.
  destruct p as [|a [|b [|c [|d p]]]]; simpl; try lia. rewrite !Forall_cons. intros (Ha & Hb & Hc & Hd & _) _.
  eexists. split; [done|]. unfold byte in *. rewrite !join8 by lia. lia.
Qed.

Lemma decode8_ok p : (1 ≤ length p)%nat → ∃ v, ikcp_decode8u p = Ok (v, drop 1 p).
Proof. destruct p as [|a p]; simpl; [lia|]. eauto. Qed.
Lemma decode16_ok p : (2 ≤ length p)%nat → ∃ v, ikcp_decode16u p = Ok (v, drop 2 p).
Proof. destruct p as [|a [|b p]]; simpl; try lia. eauto. Qed.

Lemma decode_header_ok p : Forall byte p → (Z.to_nat IKCP_OVERHEAD ≤ length p)%nat →
  ∃ h, decode_header p = Ok (h, drop (Z.to_nat IKCP_OVERHEAD) p) ∧ 0 ≤ h_len h < 2 ^ 32.
Proof.
  intros Hb Hl. change (Z.to_nat IKCP_OVERHEAD) with 24%nat in *. unfold decode_header.
  assert (H32 : ∀ n, (n ≤ 20)%nat → ∃ v, ikcp_decode32u (drop n p) = Ok (v, drop (n + 4) p) ∧ 0 ≤ v < 2 ^ 32).
  { intros n Hn. destruct (decode32_ok (drop n p)) as (v & -> & Hv); [by apply Forall_drop|rewrite length_drop; lia|].
    exists v. by rewrite drop_drop. }
  destruct (H32 0%nat) as (v1 & E1 & _); [lia|]. rewrite drop_0 in E1.
  change (0 + 4)%nat with 4%nat in E1. rewrite E1, ok_bind.
  destruct (decode8_ok (drop 4 p)) as (v2 & E2); [rewrite length_drop; lia|]. rewrite E2, ok_bind, drop_drop.
  destruct (decode8_ok (drop (4 + 1) p)) as (v3 & E3); [rewrite length_drop; lia|]. rewrite E3, ok_bind, drop_drop.
  destruct (decode16_ok (drop (4 + 1 + 1) p)) as (v4 & E4); [rewrite length_drop; lia|]. rewrite E4, ok_bind, drop_drop.
  destruct (H32 8%nat) as (v5 & E5 & _); [lia|]. change (4 + 1 + 1 + 2)%nat with 8%nat. rewrite E5, ok_bind.
  destruct (H32 12%nat) as (v6 & E6 & _); [lia|]. change (8 + 4)%nat with 12%nat. rewrite E6, ok_bind.
  destruct (H32 16%nat) as (v7 & E7 & _); [lia|]. change (12 + 4)%nat with 16%nat. rewrite E7, ok_bind.
  destruct (H32 20%nat) as (v8 & E8 & H8); [lia|]. change (16 + 4)%nat with 20%nat. rewrite E8, ok_bind.
  eauto.
Qed.

Lemma ack_block_ok n : n ≤ 2 ^ 31 → ∀ fuel b, 0 < b → n ≤ b * 2 ^ Z.of_nat fuel →
  ∃ b', ack_block (S fuel) b n = Ok b' ∧ n ≤ b'.
Proof.
  intros Hn. induction fuel as [|fuel IH]; intros b Hb Hf; cbn [ack_block].
  - rewrite (proj2 (Z.ltb_ge _ _)) by lia. exists b. split; [done|lia].
  - destruct (Z.ltb_spec b n); [|eauto]. rewrite Z.shiftl_mul_pow2 by lia. change (2 ^ 1) with 2.
    rewrite u32_small by lia. apply IH; [lia|]. rewrite Nat2Z.inj_succ, Z.pow_succ_r in Hf by lia. lia.
Qed.

Lemma ack_push_ok R n t : Z.of_nat (length (acklist R)) < 2 ^ 31 → ∃ b, ikcp_ack_push R n t =
  Ok (Receiver (rcv_nxt R) (rcv_queue R) (rcv_buf R) (nrcv_que R) (nrcv_buf R) (acklist R ++ [(n, t)]) b).
Proof.
  intros Hl. unfold ikcp_ack_push. rewrite u32_small by lia.
  assert (∃ b, (if ackblock R <? Z.of_nat (length (acklist R)) + 1 then ack_block 32 8 (Z.of_nat (length (acklist R)) + 1)
    else Ok (ackblock R)) = Ok b ∧ Z.of_nat (length (acklist R)) < b) as (b & -> & Hb).
  { destruct (Z.ltb_spec (ackblock R) (Z.of_nat (length (acklist R)) + 1)) as [H|H]; [|eexists; split; [done|lia]].
    destruct (ack_block_ok (Z.of_nat (length (acklist R)) + 1) ltac:(lia) 31 8) as (b & -> & Hb);
      [lia|change (2 ^ Z.of_nat 31) with (2 ^ 31); lia|]. exists b. split; [done|lia]. }
  rewrite ok_bind, (proj2 (Z.ltb_lt _ _)) by done. eauto.
Qed.

Lemma int_fault z x : int z = Err x → x = SignedOverflow.
Proof. unfold int. destruct (_ && _); [done|]. by intros [= <-]. Qed.

Lemma update_ack_fault c C rtt x : ikcp_update_ack c C rtt = Err x → x = SignedOverflow.
Proof.
  assert (Hb : ∀ A (z : Z) (k : Z → res A) y, (z ← int z; k z) = Err y → y = SignedOverflow ∨ ∃ z, k z = Err y).
  { intros A z k y. destruct (int z) as [a|e] eqn:E; [rewrite ok_bind; eauto|]. intros [= ->]. left. by eapply int_fault. }
  assert (He : ∀ y, estimate_rtt C rtt = Err y → y = SignedOverflow).
  { intros y. unfold estimate_rtt. destruct (rx_srtt C =? 0); [done|]. intros E.
    apply Hb in E as [E|(z1 & E)]; [done|]. apply Hb in E as [E|(z2 & E)]; [done|].
    apply Hb in E as [E|(z3 & E)]; [done|]. apply Hb in E as [E|(z4 & E)]; [done|discriminate]. }
  unfold ikcp_update_ack. destruct (estimate_rtt C rtt) as [[a b]|e]; [|intros [= <-]; by apply He].
  rewrite ok_bind. intros [H|(z & H)]%Hb; [done|discriminate].
Qed.

Lemma move_ready_acks w al ab buf : ∀ nxt nbuf nque queue,
  acklist (move_ready w nxt nbuf nque buf queue al ab) = al ∧ ackblock (move_ready w nxt nbuf nque buf queue al ab) = ab.
Proof. induction buf as [|s buf IH]; intros; simpl; [done|]. destruct (_ && _); [apply IH|done]. Qed.

Lemma parse_data_acks c R s : acklist (ikcp_parse_data c R s) = acklist R.
Proof.
  unfold ikcp_parse_data, move_available. destruct (_ || _); [done|].
  destruct (insert_back _ _); apply move_ready_acks.
Qed.

(** One segment: the only fault is the overflow of the round-trip time, and at most one
    acknowledgement is added. *)
Lemma input_seg_safe K h p flag : 0 ≤ h_len h ≤ Z.of_nat (length p) → Z.of_nat (length (acklist (rx K))) < 2 ^ 31 →
  match input_seg K h p flag with
  | Err x => x = SignedOverflow
  | Ok (K', _) => (length (acklist (rx K')) ≤ S (length (acklist (rx K))))%nat
  end.
Proof.
  intros Hl Ha. unfold input_seg. destruct (h_cmd h =? IKCP_CMD_ACK).
  { destruct (0 <=? _); [|rewrite ok_bind; simpl; lia].
    destruct (ikcp_update_ack _ _ _) as [C|x] eqn:E; [rewrite ok_bind; simpl; lia|]. by eapply update_ack_fault. }
  destruct (h_cmd h =? IKCP_CMD_PUSH).
  { cbn [rx with_tx with_cc cf]. destruct (_ <? 0); [|simpl; lia].
    destruct (ack_push_ok (rx K) (h_sn h) (h_ts h) Ha) as (b & ->). rewrite ok_bind.
    destruct (0 <=? _); [|simpl; rewrite length_app; simpl; lia].
    rewrite slice_ok, ok_bind by lia. cbn [rx with_rx]. rewrite parse_data_acks. simpl. rewrite length_app. simpl. lia. }
  destruct (_ =? _); simpl; lia.
Qed.

Lemma input_loop_safe fuel : ∀ K p size flag, Forall byte p → size ≤ Z.of_nat (length p) →
  Z.of_nat (length (acklist (rx K))) + size < 2 ^ 31 → size < Z.of_nat fuel → (0 < fuel)%nat →
  ∀ x, input_loop fuel K p size flag = Err x → x = SignedOverflow.
Proof.
  induction fuel as [|fuel IH]; intros K p size flag Hb Hs Ha Hf Hf0 x; [lia|]. cbn [input_loop].
  destruct (Z.ltb_spec size IKCP_OVERHEAD) as [|Hsz]; [done|]. unfold IKCP_OVERHEAD in Hsz.
  destruct (decode32_ok p Hb) as (v & -> & _); [lia|]. rewrite ok_bind. destruct (negb _); [done|].
  destruct (decode_header_ok p Hb) as (h & -> & Hh); [unfold IKCP_OVERHEAD; lia|]. rewrite ok_bind.
  change (Z.to_nat IKCP_OVERHEAD) with 24%nat. unfold IKCP_OVERHEAD.
  destruct (Z.ltb_spec (size - 24) (h_len h)); [done|]. destruct (_ <? 0); [done|]. cbn [orb].
  destruct (negb _); [done|].
  pose proof (input_seg_safe K h (drop 24 p) flag) as Hseg. rewrite length_drop in Hseg.
  specialize (Hseg ltac:(lia) ltac:(lia)).
  destruct (input_seg K h (drop 24 p) flag) as [[K' flag']|y]; [|by intros [= <-]]. rewrite ok_bind.
  apply IH; [by do 2 apply Forall_drop|rewrite !length_drop; lia|lia|lia|lia].
Qed.

(** ** Output *)

Definition datagram (g : list IKCPSEG) : list Z := concat (map wire g).
Definition size_of (g : list IKCPSEG) : Z := Z.of_nat (length (datagram g)).

Lemma datagram_app g h : datagram (g ++ h) = datagram g ++ datagram h.
Proof. unfold datagram. by rewrite map_app, concat_app. Qed.
Lemma datagram_one s : datagram [s] = wire s.
Proof. unfold datagram. simpl. by rewrite app_nil_r. Qed.

(** The segments [l] have been written: whole datagrams, none empty or longer than the
    MTU, and the one in the making. *)
Definition framed (c : config) (o : outgoing) (l : list IKCPSEG) : Prop :=
  ∃ gs cur, outs o = map datagram gs ∧ ptr o = datagram cur ∧ concat gs ++ cur = l ∧
    Forall (λ g, g ≠ [] ∧ size_of g ≤ mtu c) gs ∧ size_of cur ≤ mtu c.

Lemma datagram_nil g : datagram g = [] → g = [].
Proof. destruct g; [done|]. discriminate. Qed.

Lemma output_framed c o l : 0 ≤ mtu c → framed c o l → framed c (ikcp_output o) l ∧ ptr (ikcp_output o) = [].
Proof.
  intros Hm (gs & cur & Ho & Hp & Hl & Hgs & Hcur). unfold ikcp_output. split; [|done].
  destruct (Z.eqb_spec (Z.of_nat (length (ptr o))) 0) as [H0|H0].
  - exists gs, []. assert (Hpn : ptr o = []) by (apply length_zero_iff_nil; lia). rewrite Hp in Hpn.
    apply datagram_nil in Hpn as ->. done.
  - exists (gs ++ [cur]), []. cbn [outs ptr]. rewrite Ho, Hp, map_app, concat_app, app_nil_r. cbn [concat].
    rewrite app_nil_r. split_and!; try done. apply Forall_app. split; [done|]. constructor; [|done].
    split; [|done]. intros ->. rewrite Hp in H0. done.
Qed.

Lemma datagram_length g : g ≠ [] → (length g ≤ length (datagram g) ∧ Z.to_nat IKCP_OVERHEAD ≤ length (datagram g))%nat.
Proof.
  intros Hg. split.
  - clear Hg. induction g as [|s g IH]; [done|]. unfold datagram in *. cbn [map concat length]. rewrite length_app. simpl. lia.
  - destruct g as [|s g]; [done|]. unfold datagram. cbn [map concat]. rewrite length_app.
    pose proof (wire_length s). unfold len, IKCP_OVERHEAD in *. lia.
Qed.

Lemma put_seg_framed c s o l : framed c o l → IKCP_OVERHEAD + len s ≤ mtu c →
  ∃ o', put_seg c s o = Ok o' ∧ framed c o' (l ++ [s]).
Proof.
  intros Hf Hs. unfold put_seg. assert (H24 : 0 ≤ mtu c) by (unfold IKCP_OVERHEAD, len in *; lia).
  set (o1 := if mtu c <? _ then _ else o).
  assert (Ho1 : framed c o1 l ∧ Z.of_nat (length (ptr o1)) + (IKCP_OVERHEAD + len s) ≤ mtu c).
  { unfold o1. destruct (Z.ltb_spec (mtu c) (Z.of_nat (length (ptr o)) + (IKCP_OVERHEAD + len s))); [|by split].
    destruct (output_framed c o l H24 Hf) as (? & ->). split; [done|simpl; lia]. }
  destruct Ho1 as (Hf1 & Hfit). clearbody o1. rewrite <-wire_length in Hfit. fold (wire s).
  rewrite (proj2 (Z.ltb_ge _ _)).
  2: { rewrite length_app. unfold buffer_size, IKCP_OVERHEAD. lia. }
  eexists. split; [done|]. destruct Hf1 as (gs & cur & Ho & Hp & Hl & Hgs & Hcur). exists gs, (cur ++ [s]).
  cbn [outs ptr]. rewrite datagram_app, datagram_one, app_assoc, Hl, <-Hp. split_and!; try done.
  unfold size_of. rewrite datagram_app, datagram_one, <-Hp, length_app. lia.
Qed.

Lemma put_segs_framed c l : ∀ o l0, framed c o l0 → Forall (λ s, IKCP_OVERHEAD + len s ≤ mtu c) l →
  ∃ o', put_segs c l o = Ok o' ∧ framed c o' (l0 ++ l).
Proof.
  induction l as [|s l IH]; intros o l0 Hf Hl; cbn [put_segs]; [exists o; by rewrite app_nil_r|].
  apply Forall_cons in Hl as (Hs & Hl). destruct (put_seg_framed c s o l0 Hf Hs) as (o1 & -> & Hf1).
  rewrite ok_bind. destruct (IH o1 (l0 ++ [s]) Hf1 Hl) as (o' & -> & Hf'). exists o'.
  by rewrite <-app_assoc in Hf'.
Qed.

(** A segment of the send buffer before and after a call of [ikcp_flush]. *)
Definition same_seg (s s' : IKCPSEG) : Prop :=
  conv s' = conv s ∧ cmd s' = cmd s ∧ frg s' = frg s ∧ sn s' = sn s ∧ data s' = data s.
(** A segment as it is sent. *)
Definition stamped (K : ikcpcb) (s : IKCPSEG) : Prop :=
  wnd s = ikcp_wnd_unused K ∧ ts s = current (ck K) ∧ una s = rcv_nxt (rx K).

Lemma schedule_same K r m s : same_seg s (schedule K r m s).2 ∧
  ((schedule K r m s).1 = Held → (schedule K r m s).2 = s).
Proof.
  unfold schedule. destruct (xmit s =? 0); [done|]. destruct (0 <=? _); [done|]. destruct (_ && _); done.
Qed.

(** Every segment that is new or whose time has come is sent again. *)
Lemma flush_data_ok K r m l : ∀ F l0, Forall (λ s, IKCP_OVERHEAD + len s ≤ mtu (cf K)) l →
  framed (cf K) (fo F) l0 → ∃ l' F' sent, flush_data K r m l F = Ok (l', F') ∧ framed (cf K) (fo F') (l0 ++ sent) ∧
  Forall2 same_seg l l' ∧ Forall (λ s, s ∈ l' ∧ stamped K s) sent ∧
  Forall2 (λ s s', (schedule K r m s).1 ≠ Held → s' ∈ sent) l l'.
Proof.
  induction l as [|s l IH]; intros F l0 Hl Hf; cbn [flush_data].
  { exists [], F, []. rewrite app_nil_r. repeat split; try done; constructor. }
  apply Forall_cons in Hl as (Hs & Hl). destruct (schedule_same K r m s) as (Hsame & Hheld).
  destruct (schedule K r m s) as [w s1] eqn:Hsch. cbn [fst snd] in *.
  set (F1 := match w with Timeout => _ | Fast => _ | _ => F end).
  assert (Hf1 : framed (cf K) (fo F1) l0) by (unfold F1; by destruct w).
  destruct (decide (w = Held)) as [->|Hw].
  - rewrite ok_bind. destruct (IH F1 l0 Hl Hf1) as (l' & F' & sent & -> & H1 & H2 & H3 & H4).
    rewrite ok_bind. exists (s1 :: l'), F', sent. rewrite (Hheld eq_refl) in *. split_and!; [done|done|by constructor| |constructor; [by rewrite Hsch|done]].
    eapply Forall_impl; [exact H3|]. intros x (? & ?). split; [by right|done].
  - set (s2 := stamp K s1). assert (Hs2 : IKCP_OVERHEAD + len s2 ≤ mtu (cf K)).
    { destruct Hsame as (_ & _ & _ & _ & Hd). unfold len in *. simpl. by rewrite Hd. }
    destruct (put_seg_framed (cf K) s2 (fo F1) l0 Hf1 Hs2) as (o & Ho & Hfo).
    set (F2 := Flushing o (change F1) (lost F1) (fx F1) (if u32 (dead_link (cf K)) <=? xmit s2 then 2 ^ 32 - 1 else fs F1)).
    assert (E : (match w with
      | Held => Ok (s1, F1)
      | _ => o ← put_seg (cf K) s2 (fo F1); Ok (s2, Flushing o (change F1) (lost F1) (fx F1)
               (if u32 (dead_link (cf K)) <=? xmit s2 then 2 ^ 32 - 1 else fs F1))
      end) = Ok (s2, F2)) by (rewrite Ho; by destruct w).
    fold s2. rewrite E, ok_bind. destruct (IH F2 (l0 ++ [s2]) Hl Hfo) as (l' & F' & sent & -> & H1 & H2 & H3 & H4).
    rewrite ok_bind. exists (s2 :: l'), F', (s2 :: sent). rewrite <-app_assoc in H1. split_and!; [done|done|by constructor| |].
    + constructor; [split; [left|done]|]. eapply Forall_impl; [exact H3|]. intros x (? & ?). split; [by right|done].
    + constructor; [intros _; left|]. eapply Forall2_impl; [exact H4|]. intros x y Hxy Hx. right. by apply Hxy.
Qed.

(** [ikcp_flush] after the acknowledgements and probes, and the sender when what the window
    lets pass has been numbered. *)
Definition acked_out (K : ikcpcb) : ikcpcb :=
  let R := rx K in
  with_cc (with_rx K (Receiver (rcv_nxt R) (rcv_queue R) (rcv_buf R) (nrcv_que R) (nrcv_buf R) [] (ackblock R)))
    (with_probe (probe_window (current (ck K)) (cc K)) 0).
Definition numbered (K : ikcpcb) : sender :=
  move_queue (acked_out K) (window (acked_out K)) (snd_queue (tx K)) (tx K).

(** A segment not yet sent, or whose time to be sent again has come. *)
Definition due (now : Z) (s : IKCPSEG) : Prop := xmit s = 0 ∨ 0 ≤ itimediff now (resendts s).
Lemma due_scheduled K r m s : due (current (ck K)) s → (schedule K r m s).1 ≠ Held.
Proof.
  unfold due, schedule. destruct (Z.eqb_spec (xmit s) 0); [done|]. intros [?|H]; [done|].
  by rewrite (proj2 (Z.leb_le _ _) H).
Qed.

(** The estimates of the round-trip time and the remote window. *)
Definition times (C : control) : Z * Z * Z * Z := (rx_srtt C, rx_rttval C, rx_rto C, rmt_wnd C).
Lemma shrink_cwnd_times K w r a b C : times (shrink_cwnd K w r a b C) = times C.
Proof. unfold shrink_cwnd. by destruct a, b; try destruct (_ <? 1). Qed.
Lemma probe_window_times now C : times (probe_window now C) = times C.
Proof.
  unfold probe_window. destruct (rmt_wnd C =? 0); [|done]. destruct (probe_wait C =? 0); [done|].
  by destruct (0 <=? _).
Qed.

Record flushed (K : ikcpcb) (ds : list (list Z)) (K' : ikcpcb) : Prop := Flushed {
  f_cf : cf K' = cf K;
  f_ck : ck K' = ck K;
  f_rx : rx K' = Receiver (rcv_nxt (rx K)) (rcv_queue (rx K)) (rcv_buf (rx K)) (nrcv_que (rx K)) (nrcv_buf (rx K)) []
           (ackblock (rx K));
  f_tx : ∃ l, tx K' = Sender (snd_una (numbered K)) (snd_nxt (numbered K)) (snd_queue (numbered K)) l
           (nsnd_que (numbered K)) (nsnd_buf (numbered K)) ∧ Forall2 same_seg (snd_buf (numbered K)) l;
  f_cc : times (cc K') = times (cc K);
  f_out : ∃ gs sent, ds = map datagram gs ∧ Forall (λ g, g ≠ [] ∧ size_of g ≤ mtu (cf K)) gs ∧
            concat gs = flush_control K (probe_window (current (ck K)) (cc K)) ++ sent ∧
            Forall (λ s, s ∈ snd_buf (tx K') ∧ stamped K s) sent ∧
            Forall2 (λ s s', due (current (ck K)) s → s' ∈ sent) (snd_buf (numbered K)) (snd_buf (tx K'))
}.

Lemma bare_len K cm n t : len (bare_seg K cm n t) = 0.
Proof. done. Qed.

Lemma move_queue_lens K w q : ∀ T P, Forall (λ s, P (len s)) q → Forall (λ s, P (len s)) (snd_buf T) →
  Forall (λ s, P (len s)) (snd_buf (move_queue K w q T)).
Proof.
  induction q as [|s q IH]; intros T P Hq Hb; cbn [move_queue]; [done|]. destruct (_ <? 0); [|done].
  apply Forall_cons in Hq as (Hs & Hq). apply IH; [done|]. cbn [snd_buf]. apply Forall_app. split; [done|].
  by constructor.
Qed.

Lemma flush_ok K : mtu (cf K) = mss (cf K) + IKCP_OVERHEAD → 0 ≤ mss (cf K) → updated (ck K) ≠ 0 →
  Forall (λ s, len s ≤ mss (cf K)) (snd_queue (tx K)) → Forall (λ s, len s ≤ mss (cf K)) (snd_buf (tx K)) →
  ∃ ds K', ikcp_flush K = Ok (ds, K') ∧ flushed K ds K'.
Proof.
  intros Hm Hm0 Hu Hq Hb. unfold ikcp_flush. rewrite (proj2 (Z.eqb_neq _ _) Hu).
  set (C := probe_window _ _).
  destruct (put_segs_framed (cf K) (flush_control K C) (Outgoing [] []) []) as (o & -> & Ho).
  { exists [], []. split_and!; try done. unfold size_of. simpl. unfold IKCP_OVERHEAD in *. lia. }
  { unfold flush_control. destruct (default _ _) as [n t]. rewrite !Forall_app. split_and!.
    - apply Forall_map, Forall_forall. intros a _. rewrite bare_len. lia.
    - destruct (negb _); repeat constructor. rewrite bare_len. lia.
    - destruct (negb _); repeat constructor. rewrite bare_len. lia. }
  rewrite ok_bind. change (with_cc (with_rx K _) (with_probe C 0)) with (acked_out K).
  change (move_queue (acked_out K) _ _ _) with (numbered K). set (K1 := with_tx (acked_out K) (numbered K)).
  set (r := if _ <? _ then _ else _). set (m := if _ =? _ then _ else _).
  destruct (flush_data_ok K1 r m (snd_buf (numbered K)) (Flushing o 0 false (kcp_xmit (cc K1)) (state (cc K1))) _
    ltac:(apply (move_queue_lens _ _ _ _ (λ n, IKCP_OVERHEAD + n ≤ mtu (cf K)));
          (eapply Forall_impl; [eassumption|]); simpl; lia) Ho)
    as (l & F & sent & E & HF & Hl & Hsent & Hdue).
  change (snd_buf (tx K1)) with (snd_buf (numbered K)). rewrite E, ok_bind.
  destruct (output_framed (cf K) (fo F) _ ltac:(unfold IKCP_OVERHEAD in *; lia) HF) as ((gs & cur & Hgo & Hgp & Hgl & Hgs & _) & Hnil).
  rewrite Hnil in Hgp. symmetry in Hgp. apply datagram_nil in Hgp as ->. rewrite app_nil_r in Hgl.
  eexists _, _. split; [done|]. split; try done.
  - exists l. done.
  - cbn [cc with_cc]. rewrite shrink_cwnd_times. apply (probe_window_times (current (ck K)) (cc K)).
  - exists gs, sent. split_and!; [done..|]. eapply Forall2_impl; [exact Hdue|]. intros s s' Hs Hd. apply Hs. by apply due_scheduled.
Qed.

(** ** Time *)

Lemma next_resend_pos now l : ∀ t r, 0 < t → next_resend now l t = Some r → 0 < r.
Proof.
  induction l as [|s l IH]; intros t r Ht; cbn [next_resend]; [by intros [= <-]|].
  destruct (Z.leb_spec (itimediff (resendts s) now) 0); [done|]. apply IH. destruct (_ <? t); lia.
Qed.

(** Until the time [ikcp_check] gives, [ikcp_update] has nothing to do. *)
Lemma check_waits K now t : updated (ck K) ≠ 0 → 0 ≤ now < 2 ^ 30 → 0 ≤ ts_flush (ck K) < 2 ^ 30 →
  0 ≤ interval (cf K) < 2 ^ 30 → now ≤ t < ikcp_check K now →
  ikcp_update K t = Ok ([], with_ck K (Clock t (ts_flush (ck K)) 1)).
Proof.
  intros Hu Hn Hf Hiv. unfold ikcp_check, ikcp_update. rewrite (proj2 (Z.eqb_neq _ _) Hu).
  assert (Hdiff : ∀ x y, 0 ≤ x < 2 ^ 31 → 0 ≤ y < 2 ^ 31 → itimediff x y = x - y).
  { intros x y Hx Hy. unfold itimediff. apply i32_small. lia. }
  rewrite (Hdiff now (ts_flush (ck K))) by lia.
  destruct (Z.leb_spec 10000 (now - ts_flush (ck K))); cbn [orb].
  { rewrite Hdiff, Z.sub_diag by lia. cbn. intros; lia. }
  destruct (Z.ltb_spec (now - ts_flush (ck K)) (-10000)).
  { rewrite Hdiff, Z.sub_diag by lia. cbn. intros; lia. }
  rewrite !Hdiff by lia. destruct (Z.leb_spec 0 (now - ts_flush (ck K))); [intros; lia|].
  destruct (next_resend _ _ _) as [tp|] eqn:Htp; [|intros; lia]. apply next_resend_pos in Htp; [|done].
  set (mn := if _ <? _ then tp else _). set (x := if _ <=? _ then _ else mn).
  assert (Hx : 0 ≤ x ≤ ts_flush (ck K) - now).
  { unfold x, mn. destruct (Z.ltb_spec tp (ts_flush (ck K) - now)).
    - destruct (Z.leb_spec (interval (cf K)) tp); lia.
    - destruct (Z.leb_spec (interval (cf K)) (ts_flush (ck K) - now)); lia. }
  clearbody x. intros (Ht & Htx). rewrite u32_small in Htx by lia. rewrite Hdiff by lia.
  rewrite (proj2 (Z.leb_gt 10000 _)), (proj2 (Z.ltb_ge _ (-10000))) by lia. cbn [orb].
  by rewrite (proj2 (Z.leb_gt 0 _)) by lia.
Qed.

(** ** Main theorems *)

(** C10: Whatever bytes arrive, [ikcp_input] reads and stores inside the datagram and its own arrays: it
    returns, or the estimate of the round-trip time overflows. *)
Theorem input_reads_inside K p : Forall byte p →
  Z.of_nat (length (acklist (rx K))) + Z.of_nat (length p) < 2 ^ 31 →
  match ikcp_input K p (Z.of_nat (length p)) with Ok _ => True | Err x => x = SignedOverflow end.
Proof.
  intros Hb Ha. unfold ikcp_input. destruct (_ <? IKCP_OVERHEAD); [done|].
  destruct (input_loop _ K p _ None) as [[[r K'] flag]|x] eqn:E; [by destruct r|].
  eapply input_loop_safe; [..|exact E]; [done|lia|lia|lia|lia].
Qed.

(** What is written is what is read: a datagram made of segments is taken apart into them,
    each with its number, its times, its kind and its data. *)
Theorem datagram_roundtrip K g : g ≠ [] → Forall (valid_seg (kcp_conv (cf K))) g → Z.of_nat (length (datagram g)) < 2 ^ 31 →
  ikcp_input K (datagram g) (Z.of_nat (length (datagram g))) =
    ('(K', flag) ← feed K g None;
     let K' := match flag with Some m => with_tx K' (ikcp_parse_fastack (tx K') m) | None => K' end in
     Ok (0, if 0 <? itimediff (snd_una (tx K')) (snd_una (tx K)) then with_cc K' (grow_cwnd (mss (cf K')) (cc K')) else K')) ∧
  Forall (λ s, decode_header (wire s) = Ok (Header (conv s) (cmd s) (frg s) (u16 (wnd s)) (ts s) (sn s) (una s) (len s), data s)) g.
Proof.
  intros Hg Hv Hl. split.
  - unfold ikcp_input.
    assert (Hlen : (length g ≤ length (datagram g) ∧ Z.to_nat IKCP_OVERHEAD ≤ length (datagram g))%nat) by (by apply datagram_length).
    rewrite i32_small, (proj2 (Z.ltb_ge _ _)) by (unfold IKCP_OVERHEAD in *; lia).
    unfold datagram in *. rewrite Nat2Z.id, (input_loop_feed (kcp_conv (cf K))) by (done || lia).
    destruct (feed K g None) as [[K' flag]|x]; [|done]. rewrite !ok_bind. done.
  - eapply Forall_impl; [exact Hv|]. intros s Hs. unfold wire. rewrite decode_encode, (valid_header _ _ Hs).
    destruct Hs as [(-> & _)]. done.
Qed.

(** C28: Every datagram [ikcp_flush] sends has something in it and at most [mtu] bytes, and it never
    writes outside its buffer, as long as no segment is longer than [mss]. *)
Theorem flush_fits K : mtu (cf K) = mss (cf K) + IKCP_OVERHEAD → 0 ≤ mss (cf K) →
  Forall (λ s, len s ≤ mss (cf K)) (snd_queue (tx K)) → Forall (λ s, len s ≤ mss (cf K)) (snd_buf (tx K)) →
  ∃ ds K', ikcp_flush K = Ok (ds, K') ∧ Forall (λ d, 0 < Z.of_nat (length d) ≤ mtu (cf K)) ds.
Proof.
  intros Hm Hm0 Hq Hb. destruct (decide (updated (ck K) = 0)) as [Hu|Hu].
  { exists [], K. unfold ikcp_flush. by rewrite Hu. }
  destruct (flush_ok K Hm Hm0 Hu Hq Hb) as (ds & K' & -> & [_ _ _ _ _ (gs & sent & -> & Hgs & _)]).
  eexists _, _. split; [done|]. apply Forall_map. eapply Forall_impl; [exact Hgs|]. intros g (Hne & Hs).
  destruct (datagram_length g Hne). unfold size_of, IKCP_OVERHEAD in *. lia.
Qed.

(** ** Where it goes wrong *)

(** A segment that was cut for a larger MTU is written past the end of the buffer that
    [ikcp_setmtu] has allocated for the smaller one. *)
Lemma long_segment_overruns c s o : buffer_size c < IKCP_OVERHEAD + len s → put_seg c s o = Err OutOfBounds.
Proof.
  intros Hs. unfold put_seg. fold (wire s). rewrite (proj2 (Z.ltb_lt (buffer_size c) _)); [done|].
  rewrite length_app, Nat2Z.inj_add, wire_length. lia.
Qed.
Example shrunk_mtu_overruns :
  ('(_, K) ← ikcp_send (ikcp_create 1) (replicate 1000 0);
   let '(_, K) := ikcp_setmtu K 50 true in
   '(_, K) ← ikcp_update K 100; ikcp_update K 200) = Err OutOfBounds.
Proof. vm_compute. reflexivity. Qed.

(** The time stamp of an acknowledgement is believed: one far in the past overflows the
    estimate. *)
Example forged_ack_overflows :
  let p := wire (Seg 1 IKCP_CMD_ACK 0 32 (2 ^ 32 - 2 ^ 30) 0 0 [] 0 0 0 0) in
  ikcp_input (ikcp_create 1) p (Z.of_nat (length p)) = Err SignedOverflow.
Proof. vm_compute. reflexivity. Qed.

(** The window travels in 16 bits: one of 65536 segments is announced as none. *)
Example wide_window_hidden : h_wnd (header_of (bare_seg (ikcp_wndsize (ikcp_create 1) 0 65536) IKCP_CMD_WINS 0 0)) = 0.
Proof. reflexivity. Qed.

(** In stream mode [ikcp_send] may refuse a message of which it has queued the beginning. *)
Definition streaming : ikcpcb :=
  let K := (ikcp_setmtu (ikcp_create 1) 50 true).2 in
  let c := cf K in
  with_cf K (Config (kcp_conv c) (mtu c) (mss c) (snd_wnd c) (rcv_wnd c) (rx_minrto c) (interval c)
    (nodelay c) (fastresend c) (fastlimit c) (nocwnd c) 1 (dead_link c)).
Example refused_but_queued :
  ('(_, K) ← ikcp_send streaming [7]; '(r, K) ← ikcp_send K (replicate 3400 8);
   Ok (r, map (λ s, take 2 (data s)) (snd_queue (tx K)))) = Ok (-2, [[7; 8]]).
Proof. vm_compute. reflexivity. Qed.

(** ** Concrete inputs *)

Lemma input_reads_inside_witness :
  match ikcp_input (ikcp_create 1) (replicate 30 255) 30 with Ok _ => True | Err x => x = SignedOverflow end.
Proof.
  apply (input_reads_inside (ikcp_create 1) (replicate 30 255)).
  - apply Forall_replicate. unfold byte. lia.
  - simpl. lia.
Defined.

Definition two_segs : list IKCPSEG :=
  [Seg 1 IKCP_CMD_ACK 0 128 5 0 0 [] 0 0 0 0; Seg 1 IKCP_CMD_PUSH 0 128 9 0 0 [104; 105] 0 0 0 0].
Lemma datagram_roundtrip_witness : Forall (valid_seg 1) two_segs ∧ ∃ r,
  ikcp_input (ikcp_create 1) (datagram two_segs) 50 = ('(K', flag) ← feed (ikcp_create 1) two_segs None;
     let K' := match flag with Some m => with_tx K' (ikcp_parse_fastack (tx K') m) | None => K' end in
     Ok (0, if 0 <? itimediff (snd_una (tx K')) 0 then with_cc K' (grow_cwnd (mss (cf K')) (cc K')) else K')) ∧
  ikcp_input (ikcp_create 1) (datagram two_segs) 50 = Ok r ∧ map data (rcv_queue (rx r.2)) = [[104; 105]].
Proof.
  assert (Hv : Forall (valid_seg 1) two_segs).
  { repeat constructor; simpl; unfold len; simpl; lia. }
  split; [exact Hv|]. eexists. split; [|split; [vm_compute; reflexivity|reflexivity]].
  apply (datagram_roundtrip (ikcp_create 1) two_segs); [discriminate|exact Hv|vm_compute; reflexivity].
Defined.

Lemma flush_fits_witness :
  let K := with_ck (with_tx (ikcp_create 1) (Sender 0 1 [] [Seg 1 IKCP_CMD_PUSH 0 128 9 0 0 [104; 105] 0 0 0 0] 0 1)) (Clock 0 0 1) in
  ∃ ds K', ikcp_flush K = Ok (ds, K') ∧ Forall (λ d, 0 < Z.of_nat (length d) ≤ 1400) ds.
Proof.
  apply (flush_fits (with_ck (with_tx (ikcp_create 1)
    (Sender 0 1 [] [Seg 1 IKCP_CMD_PUSH 0 128 9 0 0 [104; 105] 0 0 0 0] 0 1)) (Clock 0 0 1))).
  - reflexivity.
  - vm_compute. discriminate.
  - constructor.
  - constructor; [vm_compute; discriminate|constructor].
Defined.

End KcpWire.
