(* ===== verification/KcpLink.v ===== *)
(** * Two ends of a KCP connection

    Two ends run ikcp.c over a network that keeps every datagram ever sent and delivers any
    of them, any number of times and in any order.  [N] lists what a sender has numbered:
    the content of segment [k] is its [k]-th member. *)

From S2P Require Import Prelude CMem Kcp KcpWire.

Module KcpLink.
Import Kcp KcpWire.

(** Fewer segments than this are sent in a connection: numbers do not wrap around. *)
Definition limit : Z := 2 ^ 30.

Lemma itimediff_small a b : - 2 ^ 31 ≤ a - b < 2 ^ 31 → itimediff a b = a - b.
Proof. apply i32_small. Qed.

(** ** Sorted lists *)

Lemma StronglySorted_snoc {A} (R : A → A → Prop) l x :
  StronglySorted R l → Forall (λ y, R y x) l → StronglySorted R (l ++ [x]).
Proof.
  induction 1 as [|y l _ IH Hy]; intros Hx; simpl; [by repeat constructor|].
  apply Forall_cons in Hx as (Hyx & Hx). constructor; [by apply IH|]. apply Forall_app. split; [done|by constructor].
Qed.

Lemma StronglySorted_rev {A} (R : A → A → Prop) l : StronglySorted R l → StronglySorted (flip R) (rev l).
Proof.
  induction 1 as [|x l _ IH Hx]; simpl; [constructor|]. apply StronglySorted_snoc; [done|].
  apply Forall_forall. intros y Hy. rewrite Forall_forall in Hx. apply Hx. by apply list_elem_of_In, in_rev, list_elem_of_In.
Qed.

(** ** Contents of segments *)

Notation part := (Z * list Z)%type.
Definition part_of (s : IKCPSEG) : part := (frg s, data s).

Definition numbers (l : list IKCPSEG) : list Z := map sn l.
(** The segments [l] carry what is numbered [lo] and up, in order. *)
Record carries (N : list part) (lo : Z) (l : list IKCPSEG) : Prop := Carries {
  c_sorted : StronglySorted Z.lt (numbers l);
  c_parts : Forall (λ s, lo ≤ sn s < Z.of_nat (length N) ∧ N !! Z.to_nat (sn s) = Some (part_of s)) l
}.

Lemma carries_tail N lo s l : carries N lo (s :: l) → carries N lo l ∧ Forall (λ s', sn s < sn s') l ∧
  lo ≤ sn s < Z.of_nat (length N) ∧ N !! Z.to_nat (sn s) = Some (part_of s).
Proof.
  intros [H1 H2]. apply Forall_cons in H2 as (Hs & H2). inversion H1 as [|? ? Hl Hx]; subst.
  split_and!; [by split| |apply Hs|apply Hs|apply Hs]. exact (proj1 (Forall_map _ _ _) Hx).
Qed.

Lemma carries_app N N' lo l : carries N lo l → carries (N ++ N') lo l.
Proof.
  intros [H1 H2]. split; [done|]. eapply Forall_impl; [exact H2|]. intros s (Hs & Hp). split.
  - rewrite length_app. lia.
  - by apply lookup_app_l_Some.
Qed.

Lemma carries_lo N lo lo' l : carries N lo l → Forall (λ s, lo' ≤ sn s) l → carries N lo' l.
Proof.
  intros [H1 H2] Hl. split; [done|]. rewrite Forall_forall in *. intros s Hs. split; [|by apply H2].
  split; [by apply Hl|apply H2; done].
Qed.

(** ** Receiving *)

Record rcv_ok (N D : list part) (R : receiver) : Prop := RcvOk {
  r_nxt : 0 ≤ rcv_nxt R ≤ Z.of_nat (length N);
  r_queue : take (Z.to_nat (rcv_nxt R)) N = D ++ map part_of (rcv_queue R);
  r_nque : nrcv_que R = Z.of_nat (length (rcv_queue R));
  r_buf : carries N (rcv_nxt R) (rcv_buf R)
}.
Definition rcvd (R : receiver) (k : Z) : Prop := k < rcv_nxt R ∨ k ∈ numbers (rcv_buf R).
(** [R'] has what [R] has. *)
Definition keeps (R R' : receiver) : Prop := rcv_nxt R ≤ rcv_nxt R' ∧ ∀ k, rcvd R k → rcvd R' k.

Lemma keeps_refl R : keeps R R.
Proof. split; [lia|done]. Qed.
Lemma keeps_then R1 R2 R3 : keeps R1 R2 → keeps R2 R3 → keeps R1 R3.
Proof. intros (H1 & H2) (H3 & H4). split; [lia|auto]. Qed.

Lemma rcv_ok_app N N' D R : rcv_ok N D R → rcv_ok (N ++ N') D R.
Proof.
  intros [H1 H2 H3 H4]. split; [rewrite length_app; lia| |done|by apply carries_app].
  by rewrite take_app_le by lia.
Qed.

Lemma rcv_que_short N D R : rcv_ok N D R → Z.of_nat (length (rcv_queue R)) ≤ rcv_nxt R.
Proof.
  intros [H1 H2 _ _]. apply (f_equal length) in H2. rewrite length_take, length_app, length_map in H2. lia.
Qed.

Lemma move_ready_ok N D w al ab buf : Z.of_nat (length N) ≤ limit → ∀ nxt nbuf nque queue,
  rcv_ok N D (Receiver nxt queue buf nque nbuf al ab) →
  rcv_ok N D (move_ready w nxt nbuf nque buf queue al ab) ∧
  keeps (Receiver nxt queue buf nque nbuf al ab) (move_ready w nxt nbuf nque buf queue al ab).
Proof.
  intros HN. unfold limit in HN. induction buf as [|s buf IH]; intros nxt nbuf nque queue HR; cbn [move_ready]; [by split; [|apply keeps_refl]|].
  destruct (Z.eqb_spec (sn s) nxt) as [Hs|Hs]; [|by split; [|apply keeps_refl]].
  destruct (nque <? w); [|by split; [|apply keeps_refl]]. cbn [andb].
  pose proof (rcv_que_short _ _ _ HR) as Hq. destruct HR as [H1 H2 H3 H4]. cbn [rcv_nxt rcv_queue rcv_buf nrcv_que] in *.
  apply carries_tail in H4 as (Hbuf & Hgt & Hr & Hp).
  rewrite (u32_small (nxt + 1)), (u32_small (nque + 1)) by lia.
  destruct (IH (nxt + 1) (u32 (nbuf - 1)) (nque + 1) (queue ++ [s])) as (HR' & Hn & Hk).
  - split; cbn [rcv_nxt rcv_queue rcv_buf nrcv_que]; [lia| |rewrite length_app; simpl; lia|].
    + replace (Z.to_nat (nxt + 1)) with (S (Z.to_nat nxt)) by lia. rewrite Hs in Hp.
      rewrite (take_S_r _ _ _ Hp), H2, map_app, app_assoc. done.
    + eapply carries_lo; [done|]. eapply Forall_impl; [exact Hgt|]. simpl. lia.
  - split; [done|]. split; cbn [rcv_nxt] in *; [lia|]. intros k Hkk. apply Hk.
    destruct Hkk as [Hkk|Hkk]; cbn [rcv_nxt rcv_buf] in *; [left; simpl; lia|].
    unfold numbers in Hkk. simpl in Hkk. apply elem_of_cons in Hkk as [->|Hkk]; [left; simpl; lia|by right].
Qed.

Lemma move_available_ok N D c R : Z.of_nat (length N) ≤ limit → rcv_ok N D R →
  rcv_ok N D (move_available c R) ∧ keeps R (move_available c R) ∧ acklist (move_available c R) = acklist R.
Proof.
  intros HN HR. unfold move_available. destruct R as [nxt queue buf nque nbuf al ab]. simpl.
  destruct (move_ready_ok N D (rcv_wnd c) al ab buf HN nxt nbuf nque queue HR) as (H1 & H2).
  split_and!; [done|done|]. apply move_ready_acks.
Qed.

(** Insertion from the end keeps a decreasing list decreasing, and refuses only numbers that are there. *)
Lemma insert_back_ok s l : StronglySorted (flip Z.lt) (numbers l) →
  Forall (λ x, - 2 ^ 31 ≤ sn s - sn x < 2 ^ 31) l →
  match insert_back s l with
  | None => sn s ∈ numbers l
  | Some l' => StronglySorted (flip Z.lt) (numbers l') ∧ l' ≡ₚ s :: l
  end.
Proof.
  induction l as [|x l IH]; intros Hs Hr; simpl; [by split; repeat constructor|].
  apply Forall_cons in Hr as (Hx & Hr). unfold numbers in Hs. cbn [map] in Hs. inversion Hs as [|? ? Hl Hf]; subst.
  destruct (Z.eqb_spec (sn x) (sn s)) as [->|Hne]; [left|]. rewrite itimediff_small by done.
  destruct (Z.ltb_spec 0 (sn s - sn x)) as [Hlt|Hge].
  - split; [|done]. unfold numbers. cbn [map]. constructor; [done|]. constructor; [unfold flip; lia|].
    eapply Forall_impl; [exact Hf|]. unfold flip. simpl. lia.
  - specialize (IH Hl Hr). destruct (insert_back s l) as [l'|]; simpl; [|by right]. destruct IH as (H1 & H2). split.
    + unfold numbers. cbn [map]. constructor; [done|]. apply Forall_map. rewrite H2. constructor; [simpl; unfold flip; lia|].
      exact (proj1 (Forall_map _ _ _) Hf).
    + rewrite H2. apply perm_swap.
Qed.

Lemma parse_data_ok N D c R s : Z.of_nat (length N) ≤ limit → 0 ≤ rcv_wnd c ≤ limit → rcv_ok N D R →
  0 ≤ sn s < Z.of_nat (length N) → N !! Z.to_nat (sn s) = Some (part_of s) →
  rcv_ok N D (ikcp_parse_data c R s) ∧ keeps R (ikcp_parse_data c R s) ∧
  (sn s < rcv_nxt R + rcv_wnd c → rcvd (ikcp_parse_data c R s) (sn s)) ∧
  acklist (ikcp_parse_data c R s) = acklist R.
Proof.
  intros HN Hw HR Hs Hp. unfold limit in *. pose proof HR as [H1 H2 H3 [H4 H5]]. unfold ikcp_parse_data.
  rewrite u32_small, !itimediff_small by lia.
  destruct (Z.leb_spec 0 (sn s - (rcv_nxt R + rcv_wnd c))); cbn [orb].
  { split_and!; [done|apply keeps_refl|lia|done]. }
  destruct (Z.ltb_spec (sn s - rcv_nxt R) 0).
  { split_and!; [done|apply keeps_refl|intros _; left; lia|done]. }
  pose proof (insert_back_ok s (rev (rcv_buf R))) as Hi.
  assert (Hsort : StronglySorted (flip Z.lt) (numbers (rev (rcv_buf R)))).
  { unfold numbers. rewrite map_rev. by apply StronglySorted_rev. }
  assert (Hrange : Forall (λ x, - 2 ^ 31 ≤ sn s - sn x < 2 ^ 31) (rev (rcv_buf R))).
  { apply Forall_rev. eapply Forall_impl; [exact H5|]. intros x (? & _). lia. }
  specialize (Hi Hsort Hrange). destruct (insert_back s (rev (rcv_buf R))) as [l|].
  - destruct Hi as (Hl & Hperm). set (R1 := Receiver _ _ _ _ _ _ _).
    assert (Hpl : rev l ≡ₚ s :: rcv_buf R) by (by rewrite <-Permutation_rev, Hperm, <-Permutation_rev).
    assert (HR1 : rcv_ok N D R1).
    { split; cbn [rcv_nxt rcv_queue rcv_buf nrcv_que R1]; try done. split.
      - unfold numbers in *. rewrite map_rev. apply StronglySorted_rev in Hl. by unfold flip in Hl.
      - rewrite Hpl. constructor; [split; [lia|done]|done]. }
    assert (Hin : ∀ k, k ∈ numbers (rev l) ↔ k = sn s ∨ k ∈ numbers (rcv_buf R)).
    { intros k. unfold numbers. change (map sn ?x) with (sn <$> x). rewrite Hpl. simpl. by rewrite elem_of_cons. }
    destruct (move_available_ok N D c R1 HN HR1) as (HR2 & (Hn & Hk) & Ha).
    split_and!; [done| | |done].
    + split; [done|]. intros k [Hkk|Hkk]; apply Hk; [by left|right; apply Hin; by right].
    + intros _. apply Hk. right. apply Hin. by left.
  - destruct (move_available_ok N D c R HN HR) as (HR2 & (Hn & Hk) & Ha).
    split_and!; [done|by split| |done]. intros _. apply Hk. right.
    unfold numbers in *. rewrite map_rev in Hi. by apply list_elem_of_In, in_rev, list_elem_of_In.
Qed.

(** ** Sending *)

(** A segment that fits its header and a datagram. *)
Definition fits (m : Z) (p : part) : Prop := 0 ≤ p.1 < 2 ^ 8 ∧ Z.of_nat (length p.2) ≤ m.
Record snd_ok (N : list part) (c m : Z) (T : sender) : Prop := SndOk {
  s_nxt : snd_nxt T = Z.of_nat (length N);
  s_buf : carries N 0 (snd_buf T);
  s_push : Forall (λ s, conv s = c ∧ cmd s = IKCP_CMD_PUSH) (snd_buf T);
  s_fits : Forall (fits m) N ∧ Forall (λ s, fits m (part_of s)) (snd_queue T)
}.
(** What is numbered and not received is still held by the sender. *)
Definition covers (N : list part) (R : receiver) (T : sender) : Prop :=
  ∀ k, 0 ≤ k < Z.of_nat (length N) → rcvd R k ∨ k ∈ numbers (snd_buf T).

Lemma covers_keeps N R R' T : keeps R R' → covers N R T → covers N R' T.
Proof. intros (_ & Hk) Hc k Hr. destruct (Hc k Hr); [left; by apply Hk|by right]. Qed.

(** The send buffer [l'] is [l] without segments that have been received. *)
Definition releases (R : receiver) (l l' : list IKCPSEG) : Prop :=
  l' `sublist_of` l ∧ ∀ k, k ∈ numbers l → rcvd R k ∨ k ∈ numbers l'.

Lemma releases_refl R l : releases R l l.
Proof. split; [done|]. by right. Qed.
Lemma releases_then R l1 l2 l3 : releases R l1 l2 → releases R l2 l3 → releases R l1 l3.
Proof.
  intros (H1 & H2) (H3 & H4). split; [by etrans|]. intros k Hk. destruct (H2 k Hk) as [|Hk']; [by left|]. by apply H4.
Qed.

Lemma Forall_sub {A} (P : A → Prop) l l' : l' `sublist_of` l → Forall P l → Forall P l'.
Proof.
  induction 1 as [|x l' l Hl IH|x l' l Hl IH]; intros HP; [done| |]; apply Forall_cons in HP as (Hx & HP);
    [constructor; [done|]|]; by apply IH.
Qed.

Lemma sorted_sublist {A} (R : A → A → Prop) l l' : l' `sublist_of` l → StronglySorted R l → StronglySorted R l'.
Proof.
  induction 1 as [|x l' l Hl IH|x l' l Hl IH]; intros Hs; inversion Hs as [|? ? Hs' Hx]; subst; [done| |by apply IH].
  constructor; [by apply IH|]. by eapply Forall_sub.
Qed.

Lemma carries_sublist N lo l l' : l' `sublist_of` l → carries N lo l → carries N lo l'.
Proof.
  intros Hl [H1 H2]. split; [|by eapply Forall_sub]. eapply sorted_sublist; [|exact H1].
  clear -Hl. unfold numbers. induction Hl; simpl; by constructor.
Qed.

(** Taking received segments out of the buffer does no harm. *)
Lemma snd_release N c m R T l' u nb : snd_ok N c m T → covers N R T → releases R (snd_buf T) l' →
  let T' := Sender u (snd_nxt T) (snd_queue T) l' (nsnd_que T) nb in snd_ok N c m T' ∧ covers N R T'.
Proof.
  intros [H1 H2 H3 H4] Hc (Hl & Hr). split; [split|]; cbn [snd_nxt snd_buf snd_queue]; try done.
  - by eapply carries_sublist.
  - by eapply Forall_sub.
  - intros k Hk. destruct (Hc k Hk) as [|Hkb]; [by left|]. by apply Hr.
Qed.

Lemma drop_una_release N R u l : 0 ≤ u ≤ rcv_nxt R → rcv_nxt R ≤ Z.of_nat (length N) ≤ limit → carries N 0 l →
  ∀ n, releases R l (drop_una u l n).1.
Proof.
  unfold limit. intros Hu HN. induction l as [|s l IH]; intros Hl n; cbn [drop_una]; [apply releases_refl|].
  apply carries_tail in Hl as (Hl & _ & Hs & _). rewrite itimediff_small by lia.
  destruct (Z.ltb_spec 0 (u - sn s)) as [Hlt|]; [|apply releases_refl].
  eapply releases_then; [|by apply IH]. split; [by apply sublist_cons|].
  intros k. unfold numbers. cbn [map]. rewrite elem_of_cons. intros [->|Hk]; [left; left; lia|by right].
Qed.

Lemma take_sn_release R n l : rcvd R n → releases R l (take_sn n l).1.
Proof.
  intros Hn. induction l as [|s l IH]; cbn [take_sn]; [apply releases_refl|].
  destruct (Z.eqb_spec n (sn s)) as [->|Hne].
  - split; [by apply sublist_cons|]. intros k. unfold numbers. cbn [map]. rewrite elem_of_cons. intros [->|Hk]; [by left|by right].
  - destruct (_ <? 0); [apply releases_refl|]. destruct (take_sn n l) as [l' b]. destruct IH as (H1 & H2). cbn [fst] in *.
    split; [by apply sublist_skip|]. intros k. unfold numbers in *. cbn [map]. rewrite !elem_of_cons.
    intros [->|Hk]; [by right; left|]. destruct (H2 k Hk); [by left|by right; right].
Qed.

Lemma shrink_ok N c m R T : snd_ok N c m T → covers N R T → snd_ok N c m (ikcp_shrink_buf T) ∧ covers N R (ikcp_shrink_buf T).
Proof. intros HT Hc. apply (snd_release N c m R T (snd_buf T)); [done..|apply releases_refl]. Qed.

Lemma parse_una_ok N c m R T u : 0 ≤ u ≤ rcv_nxt R → rcv_nxt R ≤ Z.of_nat (length N) ≤ limit →
  snd_ok N c m T → covers N R T → snd_ok N c m (ikcp_parse_una T u) ∧ covers N R (ikcp_parse_una T u).
Proof.
  intros Hu HN HT Hc. unfold ikcp_parse_una.
  pose proof (drop_una_release N R u (snd_buf T) Hu HN (s_buf _ _ _ _ HT) (nsnd_buf T)) as Hr.
  destruct (drop_una u (snd_buf T) (nsnd_buf T)) as [l n]. by apply (snd_release N c m R T l).
Qed.

Lemma parse_ack_ok N c m R T n : rcvd R n →
  snd_ok N c m T → covers N R T → snd_ok N c m (ikcp_parse_ack T n) ∧ covers N R (ikcp_parse_ack T n).
Proof.
  intros Hn HT Hc. unfold ikcp_parse_ack. destruct (unacked T n); [|done].
  pose proof (take_sn_release R n (snd_buf T) Hn) as Hr. destruct (take_sn n (snd_buf T)) as [l b].
  by apply (snd_release N c m R T l).
Qed.

(** Only what is not sent may change in the buffer. *)
Lemma same_numbers l l' : Forall2 same_seg l l' → numbers l' = numbers l.
Proof. induction 1 as [|s s' l l' (_ & _ & _ & Hs & _) _ IH]; [done|]. unfold numbers in *. simpl. by rewrite Hs, IH. Qed.

Lemma same_carries N lo l l' : Forall2 same_seg l l' → carries N lo l → carries N lo l'.
Proof.
  intros Hl [H1 H2]. split; [by rewrite (same_numbers _ _ Hl)|]. clear H1.
  induction Hl as [|s s' l l' (_ & _ & Hf & Hs & Hd) _ IH]; [done|].
  apply Forall_cons in H2 as (Hp & H2). constructor; [|by apply IH]. unfold part_of. by rewrite Hs, Hf, Hd.
Qed.

Lemma snd_same N c m R T T' : Forall2 same_seg (snd_buf T) (snd_buf T') → snd_nxt T' = snd_nxt T →
  snd_queue T' = snd_queue T → snd_ok N c m T → covers N R T → snd_ok N c m T' ∧ covers N R T'.
Proof.
  intros Hl Hn Hq [H1 H2 H3 H4] Hc. split; [split|].
  - by rewrite Hn.
  - by eapply same_carries.
  - clear -Hl H3. induction Hl as [|s s' l l' (Hcv & Hcm & _) _ IH]; [done|].
    apply Forall_cons in H3 as ((? & ?) & H3). constructor; [by rewrite Hcv, Hcm|by apply IH].
  - by rewrite Hq.
  - intros k Hk. rewrite (same_numbers _ _ Hl). by apply Hc.
Qed.

Lemma skip_acks_same n l : Forall2 same_seg l (skip_acks n l).
Proof.
  induction l as [|s l IH]; cbn [skip_acks]; [constructor|].
  assert (Hrefl : ∀ l, Forall2 same_seg l l) by (intros l0; induction l0; by constructor).
  destruct (_ <? 0); [apply Hrefl|]. constructor; [by destruct (negb _)|done].
Qed.

Lemma parse_fastack_ok N c m R T n :
  snd_ok N c m T → covers N R T → snd_ok N c m (ikcp_parse_fastack T n) ∧ covers N R (ikcp_parse_fastack T n).
Proof.
  intros HT Hc. unfold ikcp_parse_fastack. destruct (unacked T n); [|done].
  by eapply (snd_same N c m R T); [apply skip_acks_same|..].
Qed.

(** Numbering segments: the list of contents grows by what leaves the queue. *)
Lemma move_queue_ok K w m q : ∀ N R T, Z.of_nat (length N) + Z.of_nat (length q) ≤ limit → q = snd_queue T →
  snd_ok N (kcp_conv (cf K)) m T → covers N R T →
  let T' := move_queue K w q T in
  ∃ N', snd_ok (N ++ N') (kcp_conv (cf K)) m T' ∧ covers (N ++ N') R T' ∧
    N' ++ map part_of (snd_queue T') = map part_of q.
Proof.
  unfold limit. induction q as [|s q IH]; intros N R T HN Hq HT Hc; cbn [move_queue].
  { exists []. rewrite app_nil_r, <-Hq. done. }
  destruct (_ <? 0); [|exists []; rewrite app_nil_r, <-Hq; done].
  destruct HT as [H1 H2 H3 [H4 H5]]. rewrite <-Hq in H5. apply Forall_cons in H5 as (Hs & H5).
  simpl length in HN. rewrite H1, u32_small by lia. set (s' := Seg _ _ _ _ _ _ _ _ _ _ _ _).
  assert (Hlen : Z.of_nat (length (N ++ [part_of s])) = Z.of_nat (length N) + 1) by (rewrite length_app; simpl; lia).
  set (T1 := Sender _ _ _ _ _ _). destruct (IH (N ++ [part_of s]) R T1) as (N' & HT' & Hc' & Hq').
  - lia.
  - done.
  - split; cbn [snd_nxt snd_buf snd_queue T1].
    + lia.
    + destruct (carries_app N [part_of s] 0 (snd_buf T) H2) as [Ha Hb]. split.
      * unfold numbers. rewrite map_app. apply StronglySorted_snoc; [done|]. apply Forall_map. simpl.
        destruct H2 as [_ H2]. eapply Forall_impl; [exact H2|]. simpl. lia.
      * apply Forall_app. split; [done|]. constructor; [|done]. cbn [sn s']. split; [lia|].
        by rewrite Nat2Z.id, list_lookup_middle.
    + apply Forall_app. split; [done|]. by constructor.
    + split; [|done]. apply Forall_app. split; [done|]. by constructor.
  - intros k Hk. unfold numbers. cbn [snd_buf T1]. rewrite map_app. rewrite elem_of_app. cbn [map sn s'].
    destruct (decide (k = Z.of_nat (length N))) as [->|Hne]; [right; right; left|].
    destruct (Hc k ltac:(lia)) as [Hkb|Hkb]; [by left|by right; left].
  - rewrite <-app_assoc in HT', Hc'. exists (part_of s :: N'). split_and!; [exact HT'|exact Hc'|].
    simpl. by rewrite Hq'.
Qed.

(** ** Messages *)

Definition count_of (m n : Z) : Z := if n <=? m then 1 else u32 (n + m - 1) / m.
(** The contents of the segments of a message, and the messages that are accepted. *)
Definition pieces (m : Z) (d : list Z) : list part :=
  map part_of (fragments (Z.to_nat (count_of m (Z.of_nat (length d)))) m 0 d).
Definition accepted (m : Z) (d : list Z) : Prop :=
  Z.of_nat (length d) < 2 ^ 31 ∧ count_of m (Z.of_nat (length d)) < IKCP_WND_RCV.

Lemma fragments_length i m strm : ∀ d, length (fragments i m strm d) = i.
Proof. induction i as [|i IH]; intros d; simpl; [done|]. by rewrite IH. Qed.

Lemma fragments_fit i m : 0 < m → ∀ d, (i ≤ 256)%nat → Forall (λ s, fits m (part_of s)) (fragments i m 0 d).
Proof.
  intros Hm. induction i as [|i IH]; intros d Hi; cbn [fragments]; [done|]. constructor; [|apply IH; lia].
  split; [simpl; lia|]. cbn [part_of new_seg frg data snd]. rewrite length_take.
  destruct (Z.ltb_spec m (Z.of_nat (length d))); lia.
Qed.

Lemma count_of_bounds m (d : list Z) : 0 < m < 2 ^ 30 → Z.of_nat (length d) < 2 ^ 31 →
  1 ≤ count_of m (Z.of_nat (length d)) ∧ Z.of_nat (length d) ≤ count_of m (Z.of_nat (length d)) * m.
Proof.
  intros Hm Hd. unfold count_of. destruct (Z.leb_spec (Z.of_nat (length d)) m); [lia|].
  rewrite u32_small by lia. pose proof (Z.div_mod (Z.of_nat (length d) + m - 1) m ltac:(lia)) as E.
  pose proof (Z.mod_pos_bound (Z.of_nat (length d) + m - 1) m ltac:(lia)). split.
  - apply Z.div_le_lower_bound; lia.
  - lia.
Qed.

(** Segments with the contents of a message's fragments are merged into that message. *)
Lemma merge_ok m i : 0 < m → ∀ d q rest, Z.of_nat (length d) ≤ Z.of_nat (S i) * m →
  map part_of q = map part_of (fragments (S i) m 0 d) ++ rest →
  merge_fragments q = (d, Z.of_nat (S i), drop (S i) q) ∧ message_size q = Z.of_nat (length d) ∧
  (∃ s q', q = s :: q' ∧ frg s = Z.of_nat i).
Proof.
  intros Hm. induction i as [|i IH]; intros d q rest Hd Hq; (destruct q as [|s q]; [done|]);
    cbn [fragments map app] in Hq; injection Hq as Hf Hdat Hq; cbn [part_of new_seg frg data] in *; cbn [merge_fragments message_size].
  - rewrite Hf. change (Z.of_nat 0 =? 0) with true. cbv iota. rewrite (proj2 (Z.ltb_ge m (Z.of_nat (length d)))) in Hdat by lia.
    rewrite Nat2Z.id, firstn_all in Hdat. unfold len. rewrite Hdat. split_and!; [done|lia|eauto].
  - rewrite Hf. change (if 0 =? 0 then Z.of_nat (S i) else 0) with (Z.of_nat (S i)).
    rewrite (proj2 (Z.eqb_neq _ _)) by lia. set (n := Z.to_nat _) in *.
    assert (Hn : Z.of_nat (length (drop n d)) ≤ Z.of_nat (S i) * m ∧ take n d ++ drop n d = d).
    { split; [|apply take_drop]. rewrite length_drop. unfold n. destruct (Z.ltb_spec m (Z.of_nat (length d))); lia. }
    destruct (IH (drop n d) q rest (proj1 Hn) Hq) as (E1 & E2 & _). rewrite E1, E2. unfold len. rewrite Hdat.
    split_and!; [|rewrite <-Nat2Z.inj_add, <-length_app; by rewrite (proj2 Hn)|eauto].
    rewrite (proj2 Hn). f_equal. f_equal. lia.
Qed.

Lemma app_take_eq {A} (a x b y : list A) : a ++ x = b ++ y → (length b ≤ length a)%nat → a = b ++ drop (length b) a.
Proof.
  intros E Hl. rewrite <-(take_drop (length b) a) at 1. f_equal.
  apply (f_equal (take (length b))) in E. by rewrite take_app_le, take_app_length in E.
Qed.

Definition keeps_but_rx (K K' : ikcpcb) : Prop :=
  cf K' = cf K ∧ tx K' = tx K ∧ ck K' = ck K ∧ times (cc K') = times (cc K).

(** [ikcp_recv] gives the next message that was sent, or nothing. *)
Lemma recv_ok K N Q D m sent got sz : 0 < m < 2 ^ 30 → Z.of_nat (length N) ≤ limit → rcv_ok N D (rx K) →
  N ++ Q = concat (map (pieces m) sent) → got `prefix_of` sent → D = concat (map (pieces m) got) →
  Forall (accepted m) sent →
  ∃ r d K', ikcp_recv K sz = Ok (r, d, K') ∧
  (r < 0 ∧ K' = K ∨
   r = Z.of_nat (length d) ∧ sent !! length got = Some d ∧ keeps_but_rx K K' ∧ keeps (rx K) (rx K') ∧
   acklist (rx K') = acklist (rx K) ∧ rcv_ok N (if sz <? 0 then D else D ++ pieces m d) (rx K')).
Proof.
  intros Hm HN HR HNQ (msgs & ->) HD Hacc. unfold ikcp_recv.
  destruct (rcv_queue (rx K)) as [|s q] eqn:Hq; [eexists _, _, _; split; [done|left; split; [lia|done]]|].
  pose proof HR as [H1 H2 H3 H4]. rewrite Hq in H2.
  assert (Hrest : map part_of (s :: q) ++ drop (Z.to_nat (rcv_nxt (rx K))) N ++ Q = concat (map (pieces m) msgs)).
  { apply (app_inv_head D). rewrite app_assoc, <-H2, app_assoc, take_drop, HNQ, map_app, concat_app. by rewrite HD. }
  destruct msgs as [|d msgs]; [done|]. apply Forall_app in Hacc as (_ & Hacc). apply Forall_cons in Hacc as ((Hd & Hcnt) & _).
  destruct (count_of_bounds m d Hm Hd) as (Hc1 & Hc2). cbn [map concat] in Hrest. unfold pieces at 1 in Hrest.
  set (cnt := count_of m (Z.of_nat (length d))) in *. unfold IKCP_WND_RCV in Hcnt.
  destruct (Z.to_nat cnt) as [|i] eqn:Hi; [lia|].
  assert (Hfrg : frg s = Z.of_nat i) by (cbn [fragments map app] in Hrest; by injection Hrest).
  assert (Hfull : (S i ≤ length (s :: q))%nat → ∃ rest, map part_of (s :: q) = map part_of (fragments (S i) m 0 d) ++ rest).
  { intros Hl. eexists. eapply app_take_eq; [exact Hrest|]. by rewrite !length_map, fragments_length. }
  assert (Hpk : ikcp_peeksize K = Z.of_nat (length d) ∧ (S i ≤ length (s :: q))%nat ∨ ikcp_peeksize K = -1).
  { unfold ikcp_peeksize. rewrite Hq, Hfrg, H3, Hq, u32_small by lia. destruct (Z.eqb_spec (Z.of_nat i) 0) as [Hi0|Hi0].
    - left. assert (i = O) as -> by lia. split; [|simpl; lia]. destruct Hfull as (rest & E); [simpl; lia|].
      destruct (merge_ok m 0 (proj1 Hm) d (s :: q) rest) as (_ & E2 & _); [lia|done|].
      cbn [message_size] in E2. rewrite Hfrg in E2. simpl in E2. lia.
    - destruct (Z.ltb_spec (Z.of_nat (length (s :: q))) (Z.of_nat i + 1)); [by right|]. left. split; [|lia].
      destruct Hfull as (rest & E); [lia|]. by destruct (merge_ok m i (proj1 Hm) d (s :: q) rest) as (_ & E2 & _); [lia|done|]. }
  destruct Hpk as [(Hpk & Hl)| ->]; [|eexists _, _, _; split; [done|left; split; [lia|done]]].
  rewrite Hpk, (proj2 (Z.ltb_ge _ _)) by lia.
  destruct (Z.ltb_spec (Z.abs sz) (Z.of_nat (length d))) as [|Hsz]; [eexists _, _, _; split; [done|left; split; [lia|done]]|].
  destruct (Hfull Hl) as (rest & E). destruct (merge_ok m i (proj1 Hm) d (s :: q) rest) as (-> & _ & _); [lia|done|].
  rewrite (proj2 (Z.ltb_ge (Z.abs sz) _)), Z.eqb_refl by lia. cbn [negb].
  set (R := if sz <? 0 then rx K else _).
  assert (HR1 : rcv_ok N (if sz <? 0 then D else D ++ pieces m d) R ∧ keeps (rx K) R ∧ acklist R = acklist (rx K)).
  { unfold R. destruct (sz <? 0); [split_and!; [done|apply keeps_refl|done]|].
    split_and!; [split; cbn [rcv_nxt rcv_queue rcv_buf nrcv_que]; [done| | |done]|split; [simpl; lia|done]|done].
    - rewrite H2, E, <-app_assoc. unfold pieces. fold cnt. rewrite Hi. f_equal. f_equal.
      apply (f_equal (drop (S i))) in E. rewrite drop_app_length' in E by (by rewrite length_map, fragments_length).
      rewrite <-E. change (map part_of ?x) with (part_of <$> x). by rewrite fmap_drop.
    - pose proof (rcv_que_short _ _ _ HR) as Hsh. rewrite Hq in Hsh. unfold limit in HN.
      rewrite H3, Hq, length_drop, u32_small by lia. lia. }
  destruct HR1 as (HR1 & Hk1 & Ha1). destruct (move_available_ok N _ (cf K) R HN HR1) as (HR2 & Hk2 & Ha2).
  eexists _, d, _. split; [done|]. right. cbn [rx tx cf ck cc with_rx with_cc].
  split_and!; [done| | |by eapply keeps_then|by rewrite Ha2|done].
  - by rewrite list_lookup_middle.
  - unfold keeps_but_rx. cbn [rx tx cf ck cc with_rx with_cc]. by destruct (_ && _).
Qed.

(** ** One end *)

(** Connections last fewer milliseconds than this (about three days). *)
Definition time_limit : Z := 2 ^ 28.

(** The clock of an end shows milliseconds modulo 2^32.  Times are counted from [o], which it
    shows at some moment before the connection; an end whose clock has never been read has no time. *)
Definition elapsed (o t : Z) : Z := u32 (t - o).
Definition time_of (o : Z) (K : ikcpcb) : Z := if updated (ck K) =? 0 then -1 else elapsed o (current (ck K)).
Definition past (o now t : Z) : Prop := 0 ≤ t < 2 ^ 32 ∧ elapsed o t ≤ now.

Lemma elapsed_range o t : 0 ≤ elapsed o t < 2 ^ 32.
Proof. apply u32_range. Qed.
Lemma past_later o now now' t : now ≤ now' → past o now t → past o now' t.
Proof. intros Hn (H1 & H2). split; [done|lia]. Qed.

(** A clock that has passed [2^32] tells the time that has passed all the same. *)
Lemma past_diff o K t : time_of o K < time_limit → past o (time_of o K) t →
  updated (ck K) ≠ 0 ∧ 0 ≤ itimediff (current (ck K)) t < time_limit.
Proof.
  unfold past, time_of, elapsed, itimediff, i32, u32, time_limit. intros Hl (Ht & Hp).
  destruct (Z.eqb_spec (updated (ck K)) 0) as [|Hu]; [zdiv|]. split; [done|zdiv].
Qed.

Definition times_ok (C : control) : Prop := 0 ≤ rx_srtt C < time_limit ∧ 0 ≤ rx_rttval C < time_limit.

Lemma int_ok z : - 2 ^ 31 ≤ z < 2 ^ 31 → int z = Ok z.
Proof. intros. unfold int. by rewrite (proj2 (Z.leb_le _ _)), (proj2 (Z.ltb_lt _ _)) by lia. Qed.

Lemma update_ack_ok c C rtt : 0 ≤ rtt < time_limit → times_ok C →
  ∃ C', ikcp_update_ack c C rtt = Ok C' ∧ times_ok C'.
Proof.
  unfold times_ok, time_limit. intros Hr (Hs & Hv). unfold ikcp_update_ack.
  assert (∃ s v, estimate_rtt C rtt = Ok (s, v) ∧ 0 ≤ s < 2 ^ 28 ∧ 0 ≤ v < 2 ^ 28)
    as (s & v & -> & Hs' & Hv').
  { unfold estimate_rtt. destruct (rx_srtt C =? 0); [do 2 eexists; split; [done|]; rewrite Z.quot_div_nonneg by lia; zdiv|].
    rewrite (int_ok (rtt - _)), ok_bind by lia. cbv zeta. set (delta := if _ <? 0 then _ else _).
    assert (Hd : 0 ≤ delta < 2 ^ 28) by (unfold delta; destruct (Z.ltb_spec (rtt - rx_srtt C) 0); lia). clearbody delta.
    rewrite (int_ok (3 * _)), ok_bind, (int_ok (7 * _)), ok_bind, int_ok, ok_bind by lia. cbv zeta. do 2 eexists. split; [done|].
    rewrite !Z.quot_div_nonneg by lia. rewrite i32_small by zdiv. split; [|zdiv].
    destruct (Z.ltb_spec ((7 * rx_srtt C + rtt) / 8) 1); [lia|zdiv]. }
  rewrite ok_bind, int_ok, ok_bind by lia. eexists. split; [done|]. done.
Qed.

(** The settings of an end; the connection has number [c]. *)
Record settings_ok (c : Z) (K : ikcpcb) : Prop := SettingsOk {
  o_conv : kcp_conv (cf K) = c ∧ 0 ≤ c < 2 ^ 32;
  o_mtu : mtu (cf K) = mss (cf K) + IKCP_OVERHEAD ∧ 0 < mss (cf K) < 2 ^ 30;
  o_stream : stream (cf K) = 0;
  o_wnd : 0 ≤ rcv_wnd (cf K) ≤ limit
}.

Lemma settings_same c K K' : cf K' = cf K → settings_ok c K → settings_ok c K'.
Proof. intros E [H1 H2 H3 H4]. by split; rewrite E. Qed.

(** An end [K] that sends what [N] lists to an end whose receiver is [Ry], and gets
    what [N'] lists, of which [D'] has been taken, from an end at time [now]; [o] and [o'] are
    the origins of their clocks. *)
Record end_ok (c o o' : Z) (N : list part) (Ry : receiver) (N' D' : list part) (now : Z) (K : ikcpcb) : Prop := EndOk {
  e_settings : settings_ok c K;
  e_time : (0 ≤ current (ck K) < 2 ^ 32 ∧ time_of o K < time_limit) ∧ times_ok (cc K);
  e_snd : snd_ok N c (mss (cf K)) (tx K);
  e_cover : covers N Ry (tx K);
  e_rcv : rcv_ok N' D' (rx K);
  e_acks : Forall (λ a : Z * Z, rcvd (rx K) a.1 ∧ 0 ≤ a.1 ≤ limit ∧ past o' now a.2) (acklist (rx K))
}.

(** What a segment on the network says is true: data is what its number stands for, and
    what is acknowledged has been received. *)
Definition sent_ok (N : list part) (o now : Z) (s : IKCPSEG) : Prop :=
  cmd s = IKCP_CMD_PUSH → 0 ≤ sn s < Z.of_nat (length N) ∧ N !! Z.to_nat (sn s) = Some (part_of s) ∧ past o now (ts s).
Definition acked_ok (R : receiver) (o now : Z) (s : IKCPSEG) : Prop :=
  0 ≤ una s ≤ rcv_nxt R ∧ (cmd s = IKCP_CMD_ACK → rcvd R (sn s) ∧ past o now (ts s)).
Definition packet (c : Z) (P : IKCPSEG → Prop) (p : list Z) : Prop :=
  ∃ g, p = datagram g ∧ g ≠ [] ∧ Forall (λ s, valid_seg c s ∧ P s) g.

Lemma acks_keep R R' o now now' l : keeps R R' → now ≤ now' →
  Forall (λ a : Z * Z, rcvd R a.1 ∧ 0 ≤ a.1 ≤ limit ∧ past o now a.2) l →
  Forall (λ a : Z * Z, rcvd R' a.1 ∧ 0 ≤ a.1 ≤ limit ∧ past o now' a.2) l.
Proof.
  intros (_ & Hk) Hn Hl. eapply Forall_impl; [exact Hl|]. intros a (H1 & H2 & H3). split_and!; [by apply Hk|lia..|by eapply past_later].
Qed.

(** A segment from the other end. *)
Lemma input_seg_ok c o o' N Ry N' D' now K s flag : Z.of_nat (length N) ≤ limit → Z.of_nat (length N') ≤ limit →
  0 ≤ rcv_nxt Ry ≤ Z.of_nat (length N) →
  end_ok c o o' N Ry N' D' now K → valid_seg c s → sent_ok N' o' now s → acked_ok Ry o (time_of o K) s →
  Z.of_nat (length (acklist (rx K))) < 2 ^ 31 →
  ∃ K' flag', input_seg K (header_of s) (data s) flag = Ok (K', flag') ∧ end_ok c o o' N Ry N' D' now K' ∧
    keeps (rx K) (rx K') ∧ snd_queue (tx K') = snd_queue (tx K) ∧ cf K' = cf K ∧ ck K' = ck K ∧
    (length (acklist (rx K')) ≤ S (length (acklist (rx K))))%nat ∧
    (cmd s = IKCP_CMD_PUSH → sn s < rcv_nxt (rx K) + rcv_wnd (cf K) → rcvd (rx K') (sn s)).
Proof.
  intros HN HN' HRy [E1 (E2 & E2') E3 E4 E5 E6] Hv Hs (Hu & Ha) Hal.
  rewrite (valid_header c s Hv). unfold input_seg. cbn [h_wnd h_una h_cmd h_ts h_sn h_len h_conv h_frg].
  set (K1 := with_tx (with_cc K _) _).
  destruct (parse_una_ok N c (mss (cf K)) Ry (tx K) (una s) Hu ltac:(lia) E3 E4) as (S1 & C1).
  destruct (shrink_ok N c (mss (cf K)) Ry _ S1 C1) as (S2 & C2).
  assert (Hq : snd_queue (tx K1) = snd_queue (tx K)).
  { simpl. unfold ikcp_parse_una. by destruct (drop_una _ _ _). }
  assert (HK1 : end_ok c o o' N Ry N' D' now K1) by (split; [by apply (settings_same c K)|done..]).
  assert (Hsame : (cmd s = IKCP_CMD_PUSH → rcv_nxt (rx K) + rcv_wnd (cf K) ≤ sn s) →
    ∃ K' flag', Ok (K1, flag) = Ok (K', flag') ∧ end_ok c o o' N Ry N' D' now K' ∧
    keeps (rx K) (rx K') ∧ snd_queue (tx K') = snd_queue (tx K) ∧ cf K' = cf K ∧ ck K' = ck K ∧
    (length (acklist (rx K')) ≤ S (length (acklist (rx K))))%nat ∧
    (cmd s = IKCP_CMD_PUSH → sn s < rcv_nxt (rx K) + rcv_wnd (cf K) → rcvd (rx K') (sn s))).
  { intros Hout. exists K1, flag.
    split_and!; [done|done|apply keeps_refl|done|done|done|simpl; lia|intros Hp Hin; specialize (Hout Hp); lia]. }
  destruct (Z.eqb_spec (cmd s) IKCP_CMD_ACK) as [Hc|Hc].
  { destruct (Ha Hc) as (Hr & Ht). destruct (past_diff o K (ts s) (proj2 E2) Ht) as (_ & Hrtt).
    change (ck K1) with (ck K). rewrite (proj2 (Z.leb_le 0 _)) by lia.
    destruct (update_ack_ok (cf K1) (cc K1) (itimediff (current (ck K)) (ts s))) as (C & -> & HC); [done|done|].
    rewrite ok_bind. destruct (parse_ack_ok N c (mss (cf K)) Ry _ (sn s) Hr S2 C2) as (S3 & C3).
    destruct (shrink_ok N c (mss (cf K)) Ry _ S3 C3) as (S4 & C4). do 2 eexists. split; [done|].
    split_and!; [split; [by apply (settings_same c K)|done..]|apply keeps_refl| |done|done|simpl; lia|by rewrite Hc].
    rewrite <-Hq. simpl. unfold ikcp_parse_ack. destruct (unacked _ _); [|done]. by destruct (take_sn _ _). }
  destruct (Z.eqb_spec (cmd s) IKCP_CMD_PUSH) as [Hp|Hp].
  { destruct (Hs Hp) as (Hsn & Hpart & Ht). destruct (o_wnd _ _ E1) as (Hw0 & Hw). pose proof (r_nxt _ _ _ E5) as Hn.
    unfold limit in *. cbn [rx cf with_tx with_cc K1]. rewrite u32_small, itimediff_small by lia.
    destruct (Z.ltb_spec (sn s - (rcv_nxt (rx K) + rcv_wnd (cf K))) 0) as [Hin|]; [|apply Hsame; lia].
    destruct (ack_push_ok (rx K) (sn s) (ts s) Hal) as (b & ->). rewrite ok_bind. cbn [rcv_nxt].
    set (R1 := Receiver _ _ _ _ _ _ _). rewrite itimediff_small by lia.
    assert (HR1 : rcv_ok N' D' R1) by (split; apply E5).
    destruct (Z.leb_spec 0 (sn s - rcv_nxt (rx K))) as [Hge|Hlt].
    - rewrite slice_ok, ok_bind by (unfold len; lia). rewrite drop_0. unfold len. rewrite Nat2Z.id, firstn_all.
      set (s' := Seg _ _ _ _ _ _ _ _ _ _ _ _).
      destruct (parse_data_ok N' D' (cf K) R1 s') as (HR2 & Hk & Hin' & Hacks); [done|done|done|done|done|].
      do 2 eexists. split; [done|].
      split_and!; [|done|done|done|done|cbn [rx with_rx]; rewrite Hacks; simpl; rewrite length_app; simpl; lia|by intros _].
      split; try done; [by apply (settings_same c K)|]. cbn [rx with_rx]. rewrite Hacks. cbn [acklist R1]. apply Forall_app. split.
      + by eapply (acks_keep R1); [done|reflexivity|].
      + constructor; [|done]. cbn [fst snd]. unfold limit. split_and!; [apply Hin'; simpl; lia|lia|lia|apply Ht..].
    - do 2 eexists. split; [done|].
      split_and!; [|split; [simpl; lia|done]|done|done|done|simpl; rewrite length_app; simpl; lia|left; simpl; lia].
      split; try done; [by apply (settings_same c K)|]. cbn [rx with_rx acklist R1]. apply Forall_app. split; [done|].
      constructor; [|done]. cbn [fst snd]. unfold limit. split_and!; [left; simpl; lia|lia|lia|apply Ht..]. }
  destruct (_ =? IKCP_CMD_WASK); [|by apply Hsame].
  do 2 eexists. split; [done|]. split_and!; [split; [by apply (settings_same c K)|done..]|apply keeps_refl|done|done|done|simpl; lia|done].
Qed.

Section input.
Context (c o o' : Z) (N : list part) (Ry : receiver) (N' D' : list part) (now : Z).
Context (HN : Z.of_nat (length N) ≤ limit) (HN' : Z.of_nat (length N') ≤ limit).
Context (HRy : 0 ≤ rcv_nxt Ry ≤ Z.of_nat (length N)).

(** What input changes of an end. *)
Definition fed (K K' : ikcpcb) : Prop :=
  end_ok c o o' N Ry N' D' now K' ∧ keeps (rx K) (rx K') ∧ snd_queue (tx K') = snd_queue (tx K) ∧
  cf K' = cf K ∧ ck K' = ck K.

Lemma feed_ok l : ∀ K flag, end_ok c o o' N Ry N' D' now K →
  Forall (λ s, valid_seg c s ∧ sent_ok N' o' now s ∧ acked_ok Ry o (time_of o K) s) l →
  Z.of_nat (length (acklist (rx K))) + Z.of_nat (length l) < 2 ^ 31 →
  ∃ K' flag', feed K l flag = Ok (K', flag') ∧ fed K K' ∧
    Forall (λ s, cmd s = IKCP_CMD_PUSH → sn s < rcv_nxt (rx K) + rcv_wnd (cf K) → rcvd (rx K') (sn s)) l.
Proof.
  induction l as [|s l IH]; intros K flag HK Hl Ha; cbn [feed].
  { exists K, flag. split; [done|]. split; [|done]. split_and!; [done|apply keeps_refl|done..]. }
  apply Forall_cons in Hl as ((Hv & Hs & Hak) & Hl). simpl length in Ha.
  destruct (input_seg_ok c o o' N Ry N' D' now K s flag HN HN' HRy HK Hv Hs Hak ltac:(lia))
    as (K1 & flag1 & -> & HK1 & Hk1 & Hq1 & Hcf1 & Hck1 & Ha1 & Hin1).
  rewrite ok_bind. destruct (IH K1 flag1 HK1) as (K' & flag' & -> & (HK' & Hk' & Hq' & Hcf' & Hck') & Hin'); [by unfold time_of; rewrite Hck1|lia|].
  exists K', flag'. split; [done|]. split.
  - split_and!; [done|by eapply keeps_then|by rewrite Hq'|by rewrite Hcf'|by rewrite Hck'].
  - constructor; [intros; by apply Hk', Hin1|]. eapply Forall_impl; [exact Hin'|]. intros x Hx Hp Hr. apply Hx; [done|].
    rewrite Hcf1. destruct Hk1. lia.
Qed.

Lemma grow_cwnd_times m C : rx_srtt (grow_cwnd m C) = rx_srtt C ∧ rx_rttval (grow_cwnd m C) = rx_rttval C.
Proof.
  unfold grow_cwnd. destruct (cwnd C <? rmt_wnd C); [|done]. destruct (if cwnd C <? ssthresh C then _ else _) as [w i].
  by destruct (rmt_wnd C <? w).
Qed.

(** A datagram from the other end: [ikcp_input] takes it without a fault, and the data in it
    that fits the window has been received then. *)
Lemma input_segs_ok K g : end_ok c o o' N Ry N' D' now K → g ≠ [] →
  Forall (λ s, valid_seg c s ∧ sent_ok N' o' now s ∧ acked_ok Ry o (time_of o K) s) g →
  Z.of_nat (length (acklist (rx K))) + Z.of_nat (length (datagram g)) < 2 ^ 31 →
  ∃ r K', ikcp_input K (datagram g) (Z.of_nat (length (datagram g))) = Ok (r, K') ∧ fed K K' ∧
    Forall (λ s, cmd s = IKCP_CMD_PUSH → sn s < rcv_nxt (rx K) + rcv_wnd (cf K) → rcvd (rx K') (sn s)) g.
Proof.
  intros HK Hg Hl Ha. unfold ikcp_input.
  pose proof (datagram_length g Hg) as Hlen.
  rewrite i32_small, (proj2 (Z.ltb_ge _ _)) by (unfold IKCP_OVERHEAD in *; lia).
  unfold datagram in *. rewrite Nat2Z.id, (input_loop_feed c).
  2: { eapply Forall_impl; [exact Hl|]. by intros s (? & _). }
  2: { apply (e_settings _ _ _ _ _ _ _ _ _ HK). }
  2: { lia. }
  destruct (feed_ok g K None HK Hl ltac:(lia)) as (K1 & flag & -> & (HK1 & Hk1 & Hq1 & Hcf1 & Hck1) & Hin).
  rewrite !ok_bind. set (K2 := match flag with Some m => _ | None => K1 end).
  assert (HK2 : fed K K2 ∧ rx K2 = rx K1).
  { unfold K2. destruct flag as [m|]; [|done]. destruct HK1 as [E1 E2 E3 E4 E5 E6].
    destruct (parse_fastack_ok N c (mss (cf K1)) Ry (tx K1) m E3 E4) as (S & C). split; [|done].
    split_and!; [split; [by apply (settings_same c K1)|done..]|done| |done|done].
    rewrite <-Hq1. simpl. unfold ikcp_parse_fastack. by destruct (unacked _ _). }
  clearbody K2. destruct HK2 as ((HK2 & Hk2 & Hq2 & Hcf2 & Hck2) & Hrx). eexists 0, _. split; [done|].
  destruct (0 <? _); [|by rewrite Hrx]. cbn [rx with_cc]. rewrite Hrx. split; [|done].
  destruct HK2 as [E1 (E2 & E2') E3 E4 E5 E6].
  split_and!; [|done|done|done|done]. split; [by apply (settings_same c K2)| |done..].
  split; [done|]. unfold times_ok. simpl. destruct (grow_cwnd_times (mss (cf K2)) (cc K2)) as (-> & ->). done.
Qed.

End input.

(** ** Time passes: [ikcp_update] *)

Lemma packet_impl c (P Q : IKCPSEG → Prop) p : (∀ s, P s → Q s) → packet c P p → packet c Q p.
Proof.
  intros HPQ (g & Hp & Hg & Hl). exists g. split_and!; [done|done|]. eapply Forall_impl; [exact Hl|]. naive_solver.
Qed.

Lemma carries_part N lo l s : carries N lo l → s ∈ l → lo ≤ sn s < Z.of_nat (length N) ∧ N !! Z.to_nat (sn s) = Some (part_of s).
Proof. intros [_ H] Hs. rewrite Forall_forall in H. by apply H. Qed.

Lemma fits_part N c m T s : snd_ok N c m T → s ∈ snd_buf T → fits m (part_of s).
Proof.
  intros [_ Hb _ (Hf & _)] Hs. destruct (carries_part _ _ _ _ Hb Hs) as (_ & Hp). by eapply Forall_lookup_1.
Qed.

(** The segments ikcp_flush makes up carry a number and a time to be acknowledged, or zeros. *)
Lemma control_segs K C s : s ∈ flush_control K C → ∃ cm a, s = bare_seg K cm a.1 a.2 ∧ known_cmd cm = true ∧
  cm ≠ IKCP_CMD_PUSH ∧ (a ∈ acklist (rx K) ∨ a = (0, 0) ∧ cm ≠ IKCP_CMD_ACK).
Proof.
  unfold flush_control. set (lst := default (0, 0) (last (acklist (rx K)))).
  assert (Hlast : lst ∈ acklist (rx K) ∨ lst = (0, 0)).
  { unfold lst. destruct (last (acklist (rx K))) as [a|] eqn:E; [left|by right]. simpl.
    by apply last_Some_elem_of in E. }
  destruct lst as [n t]. rewrite !elem_of_app. intros [Hs|[Hs|Hs]].
  - apply list_elem_of_In, in_map_iff in Hs as (a & <- & Ha). exists IKCP_CMD_ACK, a. split_and!; try done.
    left. by apply list_elem_of_In.
  - destruct (negb _); [|by apply elem_of_nil in Hs]. apply list_elem_of_singleton in Hs as ->.
    exists IKCP_CMD_WASK, (n, t). split_and!; try done. destruct Hlast; [by left|by right].
  - destruct (negb _); [|by apply elem_of_nil in Hs]. apply list_elem_of_singleton in Hs as ->.
    exists IKCP_CMD_WINS, (n, t). split_and!; try done. destruct Hlast; [by left|by right].
Qed.

Lemma control_ok c K C s N o o' t now : 0 ≤ c < 2 ^ 32 → kcp_conv (cf K) = c → 0 ≤ rcv_nxt (rx K) < 2 ^ 32 →
  Forall (λ a : Z * Z, rcvd (rx K) a.1 ∧ 0 ≤ a.1 ≤ limit ∧ past o' now a.2) (acklist (rx K)) →
  s ∈ flush_control K C → valid_seg c s ∧ sent_ok N o t s ∧ acked_ok (rx K) o' now s.
Proof.
  intros Hc Hcv Hr Ha Hs. destruct (control_segs K C s Hs) as (cm & a & -> & Hcm & Hpush & Hack).
  rewrite Forall_forall in Ha. assert (Hrange : 0 ≤ a.1 < 2 ^ 32 ∧ 0 ≤ a.2 < 2 ^ 32).
  { destruct Hack as [Hin|(-> & _)]; [|done]. destruct (Ha a Hin) as (_ & ? & (? & _)). unfold limit in *. lia. }
  split_and!.
  - split; simpl; try done; try lia.
  - intros ?. done.
  - split; [simpl; lia|]. intros E. simpl in E. destruct Hack as [Hin|(_ & ?)]; [|done].
    destruct (Ha a Hin) as (? & _ & ?). done.
Qed.

(** Whether [ikcp_update] calls [ikcp_flush]. *)
Definition flushes (K : ikcpcb) (t : Z) : Prop := updated (ck K) = 0 ∨ 0 ≤ itimediff t (ts_flush (ck K)).

Lemma move_queue_buf K w q : ∀ T, snd_buf T `prefix_of` snd_buf (move_queue K w q T).
Proof.
  induction q as [|s q IH]; intros T; cbn [move_queue]; [done|]. destruct (_ <? 0); [|done].
  etrans; [|apply IH]. cbn [snd_buf]. by apply prefix_app_r.
Qed.

Section output.
Context (c o o' : Z) (N : list part) (Ry : receiver) (N' D' : list part) (now : Z).

(** A segment of the send buffer says what the sender has numbered, and when it goes out. *)
Lemma data_seg_ok M K T s : 0 ≤ c < 2 ^ 32 → snd_ok M c (mss (cf K)) T → Z.of_nat (length M) ≤ limit →
  0 ≤ rcv_nxt (rx K) < 2 ^ 32 → mss (cf K) < 2 ^ 30 → 0 ≤ current (ck K) < 2 ^ 32 →
  s ∈ snd_buf T → stamped K s →
  valid_seg c s ∧ sent_ok M o (elapsed o (current (ck K))) s ∧ acked_ok (rx K) o' now s.
Proof.
  intros Hc HT HM Hn Hm Hcur Hb (Hw & Hts & Hu).
  destruct (carries_part _ _ _ _ (s_buf _ _ _ _ HT) Hb) as (Hsn & Hp).
  destruct (fits_part _ _ _ _ _ HT Hb) as (Hfr & Hlen). pose proof (s_push _ _ _ _ HT) as Hpush.
  rewrite Forall_forall in Hpush. destruct (Hpush s Hb) as (Hcs & Hcm). unfold limit in *. simpl in Hlen. split_and!.
  - split; [done|by rewrite Hcm|done|lia|lia|lia|]. unfold len. lia.
  - intros _. split_and!; [lia|lia|done|]. rewrite Hts. done.
  - split; [lia|]. rewrite Hcm. done.
Qed.

(** What a flush sends of an end in order. *)
Definition sends (K : ikcpcb) (Nn : list part) (ds : list (list Z)) : Prop := ∃ gs, ds = map datagram gs ∧
  Forall (λ g, g ≠ [] ∧ size_of g ≤ mtu (cf K) ∧
    Forall (λ s, valid_seg c s ∧ sent_ok (N ++ Nn) o (elapsed o (current (ck K))) s ∧ acked_ok (rx K) o' now s) g) gs ∧
  (∀ s, s ∈ snd_buf (tx K) → due (current (ck K)) s → ∃ g s', g ∈ gs ∧ s' ∈ g ∧ sn s' = sn s ∧ cmd s' = IKCP_CMD_PUSH).

Lemma flush_end_ok K : Z.of_nat (length N) + Z.of_nat (length (snd_queue (tx K))) ≤ limit →
  Z.of_nat (length N') ≤ limit → end_ok c o o' N Ry N' D' now K → updated (ck K) ≠ 0 →
  ∃ ds K' Nn, ikcp_flush K = Ok (ds, K') ∧ end_ok c o o' (N ++ Nn) Ry N' D' now K' ∧ keeps (rx K) (rx K') ∧
    Nn ++ map part_of (snd_queue (tx K')) = map part_of (snd_queue (tx K)) ∧
    cf K' = cf K ∧ ck K' = ck K ∧ sends K Nn ds.
Proof.
  intros HN HN' HK Hu. pose proof HK as [[Cv Cm Cs Cw] ((Hcur & E2) & E2') E3 E4 E5 E6].
  destruct (flush_ok K) as (ds & K' & -> & HF).
  { apply Cm. } { destruct Cm. lia. } { done. }
  { destruct E3 as [_ _ _ (_ & Hq)]. eapply Forall_impl; [exact Hq|]. by intros s (_ & ?). }
  { apply Forall_forall. intros s Hs. by destruct (fits_part _ _ _ _ _ E3 Hs). }
  destruct HF as [Fcf Fck Frx (l & Ftx & Fsame) Fcc (gs & sent & -> & Fgs & Fcat & Fsent & Fdue)].
  destruct (move_queue_ok (acked_out K) (window (acked_out K)) (mss (cf K)) (snd_queue (tx K)) N Ry (tx K)) as (Nn & S1 & C1 & Hq1).
  { done. } { done. } { simpl. destruct Cv as (-> & _). done. } { done. }
  change (move_queue (acked_out K) (window (acked_out K)) (snd_queue (tx K)) (tx K)) with (numbered K) in *.
  change (kcp_conv (cf (acked_out K))) with (kcp_conv (cf K)) in S1. destruct Cv as (Cv & Cvr). rewrite Cv in S1.
  destruct (snd_same (N ++ Nn) c (mss (cf K)) Ry (numbered K) (tx K')) as (S2 & C2);
    [by rewrite Ftx|by rewrite Ftx|by rewrite Ftx|done|done|].
  assert (Hlim : Z.of_nat (length (N ++ Nn)) ≤ limit).
  { apply (f_equal length) in Hq1. rewrite length_app, !length_map in Hq1. rewrite length_app. lia. }
  exists (map datagram gs), K', Nn. split; [done|]. split_and!; [|by rewrite Frx|by rewrite Ftx|done|done|].
  - split; [by apply (settings_same c K); [|split]| |by rewrite Fcf|done|rewrite Frx; split; apply E5|rewrite Frx; constructor].
    unfold time_of. rewrite Fck. split; [by split|]. unfold times in Fcc. injection Fcc as F1 F2 F3 F4. unfold times_ok. by rewrite F1, F2.
  - exists gs. split; [done|]. split.
    + apply Forall_forall. intros g Hg. rewrite Forall_forall in Fgs. destruct (Fgs g Hg) as (Hne & Hsz).
      split_and!; [done|done|]. apply Forall_forall. intros s Hs.
      assert (Hcat : s ∈ concat gs) by (apply elem_of_concat; eauto). rewrite Fcat in Hcat. clear Hs.
      pose proof (r_nxt _ _ _ E5) as Hn. unfold limit in *. apply elem_of_app in Hcat as [Hs|Hs].
      * apply (control_ok c K (probe_window (current (ck K)) (cc K)) s); try done. lia.
      * rewrite Forall_forall in Fsent. destruct (Fsent s Hs) as (Hb & Hst).
        apply (data_seg_ok _ _ (tx K')); try done; [lia|apply Cm].
    + intros s Hs Hd. destruct (move_queue_buf (acked_out K) (window (acked_out K)) (snd_queue (tx K)) (tx K)) as (new & Hnew).
      change (move_queue (acked_out K) (window (acked_out K)) (snd_queue (tx K)) (tx K)) with (numbered K) in Hnew.
      apply list_elem_of_lookup in Hs as (i & Hi). assert (Hin : snd_buf (numbered K) !! i = Some s).
      { rewrite Hnew. by apply lookup_app_l_Some. }
      destruct (Forall2_lookup_l _ _ _ _ _ Fdue Hin) as (s' & Hs' & Hsent). specialize (Hsent Hd).
      rewrite Ftx in Hs'. destruct (Forall2_lookup_lr _ _ _ _ _ _ Fsame Hin Hs') as (_ & Hcm & _ & Hsn & _).
      assert (Hcat : s' ∈ concat gs) by (rewrite Fcat; apply elem_of_app; by right).
      apply elem_of_concat in Hcat as (g & Hs'g & Hg). exists g, s'. split_and!; [done|done|done|].
      rewrite Hcm. pose proof (s_push _ _ _ _ S1) as Hpush. rewrite Forall_forall in Hpush. apply Hpush.
      by eapply list_elem_of_lookup_2.
Qed.

Lemma update_ok K t : Z.of_nat (length N) + Z.of_nat (length (snd_queue (tx K))) ≤ limit →
  Z.of_nat (length N') ≤ limit → end_ok c o o' N Ry N' D' now K → 0 ≤ t < 2 ^ 32 → elapsed o t < time_limit →
  ∃ ds K' Nn, ikcp_update K t = Ok (ds, K') ∧ end_ok c o o' (N ++ Nn) Ry N' D' now K' ∧ keeps (rx K) (rx K') ∧
    Nn ++ map part_of (snd_queue (tx K')) = map part_of (snd_queue (tx K)) ∧
    cf K' = cf K ∧ time_of o K' = elapsed o t ∧
    ∃ f u, sends (with_ck K (Clock t f u)) Nn ds ∨ ds = [] ∧ ¬ flushes K t.
Proof.
  intros HN HN' HK Ht Hel. pose proof HK as [E1 (E2 & E2') E3 E4 E5 E6]. unfold ikcp_update.
  set (slap := itimediff t _).
  destruct (if (10000 <=? slap) || (slap <? -10000) then _ else _) as [fl sl] eqn:Hsl.
  assert (Hfl : flushes K t → 0 ≤ sl).
  { intros Hf. assert (0 ≤ slap) as H0.
    { unfold slap. destruct (Z.eqb_spec (updated (ck K)) 0); [by unfold itimediff; rewrite Z.sub_diag|].
      by destruct Hf. }
    destruct (_ || _); by injection Hsl as _ <-. }
  assert (HK' : ∀ f, end_ok c o o' N Ry N' D' now (with_ck K (Clock t f 1))).
  { intros f. split; [by apply (settings_same c K)|split; [by split|done]|done..]. }
  destruct (Z.leb_spec 0 sl) as [_|Hneg].
  2: { eexists [], _, []. split; [done|]. rewrite app_nil_r.
       split_and!; [apply HK'|apply keeps_refl|done..|]. exists 0, 0. right. split; [done|]. intros Hf. specialize (Hfl Hf). lia. }
  cbv zeta. set (f := if 0 <=? _ then _ else _).
  destruct (flush_end_ok (with_ck K (Clock t f 1))) as (ds & K' & Nn & -> & HK'' & Hk & Hq & Hcf & Hck & Hs); [done|done|apply HK'|done|].
  exists ds, K', Nn. split_and!; try done; [by unfold time_of; rewrite Hck|]. exists f, 1. by left.
Qed.

End output.

(** ** Two ends *)

(** An end, the origin of its clock, the messages it has been given to send, those it has handed
    out, and every datagram it has sent. *)
Record peer : Type := Peer {
  kcp : ikcpcb; origin : Z; sent : list (list Z); got : list (list Z); out : list (list Z)
}.
Definition now_of (x : peer) : Z := time_of (origin x) (kcp x).

(** What one end does.  It takes any datagram the other has ever sent; messages are sent as
    long as the connection stays below [limit] segments; its clock does not run
    backwards and the connection ends before [time_limit]; and fewer than 2^31 acknowledgements are
    pending. *)
Inductive step (me other : peer) : peer → Prop :=
  | step_send d r K' : ikcp_send (kcp me) d = Ok (r, K') → Z.of_nat (length d) < 2 ^ 31 →
      snd_nxt (tx K') + Z.of_nat (length (snd_queue (tx K'))) ≤ limit →
      step me other (Peer K' (origin me) (if r =? 0 then sent me ++ [d] else sent me) (got me) (out me))
  | step_recv sz r d K' : ikcp_recv (kcp me) sz = Ok (r, d, K') →
      step me other (Peer K' (origin me) (sent me) (if (0 <=? r) && (0 <=? sz) then got me ++ [d] else got me) (out me))
  | step_update t ds K' : 0 ≤ t < 2 ^ 32 → now_of me ≤ elapsed (origin me) t < time_limit →
      ikcp_update (kcp me) t = Ok (ds, K') →
      step me other (Peer K' (origin me) (sent me) (got me) (out me ++ ds))
  | step_flush ds K' : ikcp_flush (kcp me) = Ok (ds, K') →
      step me other (Peer K' (origin me) (sent me) (got me) (out me ++ ds))
  | step_input p r K' : p ∈ out other → Z.of_nat (length (acklist (rx (kcp me)))) + Z.of_nat (length p) < 2 ^ 31 →
      ikcp_input (kcp me) p (Z.of_nat (length p)) = Ok (r, K') →
      step me other (Peer K' (origin me) (sent me) (got me) (out me))
  | step_tune nd i re nc sw rw : rw ≤ limit →
      step me other (Peer (ikcp_wndsize (ikcp_nodelay (kcp me) nd i re nc) sw rw) (origin me) (sent me) (got me) (out me)).

Inductive link_step : peer * peer → peer * peer → Prop :=
  | step_left a b a' : step a b a' → link_step (a, b) (a', b)
  | step_right a b b' : step b a b' → link_step (a, b) (a, b').
Definition start (c oa ob : Z) : peer * peer := (Peer (ikcp_create c) oa [] [] [], Peer (ikcp_create c) ob [] [] []).
Definition reachable (c : Z) (ab : peer * peer) : Prop := ∃ oa ob, rtc link_step (start c oa ob) ab.

(** *** The invariant *)

Lemma prefix_snoc {A} (l k : list A) x : l `prefix_of` k → k !! length l = Some x → l ++ [x] `prefix_of` k.
Proof.
  intros (r & ->) Hx. destruct r as [|y r]; [rewrite app_nil_r, lookup_ge_None_2 in Hx by lia; done|].
  rewrite list_lookup_middle in Hx by done. injection Hx as ->. exists r. by rewrite <-app_assoc.
Qed.

Definition mss_of (x : peer) : Z := mss (cf (kcp x)).

(** Messages from [x] to [y]: [N] is numbered and [D] has been taken. *)
Record talk (N D : list part) (x y : peer) : Prop := Talk {
  t_msgs : N ++ map part_of (snd_queue (tx (kcp x))) = concat (map (pieces (mss_of x)) (sent x));
  t_got : got y `prefix_of` sent x;
  t_taken : D = concat (map (pieces (mss_of x)) (got y));
  t_accepted : Forall (accepted (mss_of x)) (sent x);
  t_limit : Z.of_nat (length N) + Z.of_nat (length (snd_queue (tx (kcp x)))) ≤ limit
}.
Definition net (c : Z) (N : list part) (x y : peer) : Prop :=
  Forall (packet c (λ s, sent_ok N (origin x) (now_of x) s ∧ acked_ok (rx (kcp x)) (origin y) (now_of y) s)) (out x).
Definition half (c : Z) (N N' D' : list part) (x y : peer) : Prop :=
  end_ok c (origin x) (origin y) N (rx (kcp y)) N' D' (now_of y) (kcp x) ∧ talk N' D' y x ∧ net c N x y.
Definition inv (c : Z) (a b : peer) : Prop := ∃ N D N' D', half c N N' D' a b ∧ half c N' N D b a.

Lemma inv_sym c a b : inv c a b → inv c b a.
Proof. intros (N & D & N' & D' & H1 & H2). by exists N', D', N, D. Qed.

Lemma create_end c o o' : 0 ≤ c < 2 ^ 32 → end_ok c o o' [] (rx (ikcp_create c)) [] [] (-1) (ikcp_create c).
Proof.
  intros Hc. split; cbn.
  - split; cbn; unfold limit, IKCP_MTU_DEF, IKCP_WND_RCV, IKCP_OVERHEAD; lia.
  - unfold times_ok, time_limit, time_of. simpl. lia.
  - split; cbn; try done. split; constructor.
  - intros k Hk. simpl in Hk. lia.
  - split; cbn; try done. split; constructor.
  - constructor.
Qed.

Lemma start_linked c oa ob : 0 ≤ c < 2 ^ 32 → inv c (start c oa ob).1 (start c oa ob).2.
Proof.
  intros Hc. exists [], [], [], []. split; (split; [by apply create_end|split; [|constructor]]); by split.
Qed.

Lemma net_impl c N N' x x' y y' : out x' = out x → origin x' = origin x → origin y' = origin y → (∃ Nn, N' = N ++ Nn) → now_of x ≤ now_of x' → now_of y ≤ now_of y' →
  keeps (rx (kcp x)) (rx (kcp x')) → net c N x y → net c N' x' y'.
Proof.
  intros Ho Hox Hoy (Nn & ->) Hx Hy (Hn & Hk) HN. unfold net in *. rewrite Ho, Hox, Hoy. eapply Forall_impl; [exact HN|].
  intros p. apply packet_impl. intros s (H1 & H2 & H3). split_and!.
  - intros Hp. destruct (H1 Hp) as (A & B & C). split_and!; [lia|rewrite length_app; lia|by apply lookup_app_l_Some|by eapply past_later].
  - split; [lia|]. intros Hp. destruct (H3 Hp) as (A & B). split; [by apply Hk|by eapply past_later].
Qed.

Lemma end_other c o o' N Nn R R' N' D' now now' K : keeps R R' → now ≤ now' →
  end_ok c o o' N R N' D' now K → end_ok c o o' N R' (N' ++ Nn) D' now' K.
Proof.
  intros Hk Hn [E1 E2 E3 E4 E5 E6]. split; [done|done|done| | |].
  - by eapply covers_keeps.
  - by apply rcv_ok_app.
  - eapply acks_keep; [apply keeps_refl|exact Hn|done].
Qed.

Lemma end_keeps c o o' N R R' N' D' now now' K : keeps R R' → now ≤ now' →
  end_ok c o o' N R N' D' now K → end_ok c o o' N R' N' D' now' K.
Proof. intros Hk Hn HK. rewrite <-(app_nil_r N'). by eapply end_other. Qed.

Lemma end_now c o o' N R N' D' now K : end_ok c o o' N R N' D' now K → time_of o K < time_limit.
Proof. intros HK. apply HK. Qed.

(** Every operation keeps the invariant. *)
Lemma send_inv c a b d r K' : inv c a b → ikcp_send (kcp a) d = Ok (r, K') → Z.of_nat (length d) < 2 ^ 31 →
  snd_nxt (tx K') + Z.of_nat (length (snd_queue (tx K'))) ≤ limit →
  inv c (Peer K' (origin a) (if r =? 0 then sent a ++ [d] else sent a) (got a) (out a)) b.
Proof.
  intros (N & D & N' & D' & (Ea & Ta & Na) & (Eb & Tb & Nb)) Hs Hd Hlim.
  pose proof Ea as [E1 E2 E3 E4 E5 E6]. destruct E1 as [Cv Cm Cs Cw]. unfold ikcp_send in Hs.
  rewrite (proj2 (Z.ltb_lt _ _)), Cs in Hs by lia. cbn [negb andb Z.eqb] in Hs.
  rewrite ?Cs in Hs. cbn [negb andb Z.eqb] in Hs.
  fold (count_of (mss (cf (kcp a))) (Z.of_nat (length d))) in Hs. fold (mss_of a) in *.
  destruct (Z.leb_spec IKCP_WND_RCV (count_of (mss_of a) (Z.of_nat (length d)))) as [Hc|Hc].
  { injection Hs as <- <-. destruct a. exists N, D, N', D'. split; by split. }
  destruct (count_of_bounds (mss_of a) d (proj2 Cm) Hd) as (Hc1 & Hc2).
  rewrite (proj2 (Z.eqb_neq _ 0)) in Hs by lia. injection Hs as <- <-. cbn [Z.eqb]. cbn [tx with_tx snd_queue snd_nxt] in Hlim.
  rewrite (s_nxt _ _ _ _ E3), length_app, fragments_length in Hlim.
  assert (Hf : Forall (λ s, fits (mss_of a) (part_of s)) (fragments (Z.to_nat (count_of (mss_of a) (Z.of_nat (length d)))) (mss_of a) 0 d)).
  { apply fragments_fit; [apply Cm|]. unfold IKCP_WND_RCV in Hc. lia. }
  exists N, D, N', D'. split; (split; [|split]).
  - split; try done. destruct E3 as [S1 S2 S3 [S4 S5]]. split; try done. cbn [tx with_tx snd_queue kcp]. split; [done|].
    apply Forall_app. by split.
  - destruct Ta. by split.
  - done.
  - done.
  - destruct Tb as [T1 T2 T3 T4 T5]. split; cbn [kcp tx with_tx snd_queue sent mss_of cf].
    + rewrite map_app, app_assoc, T1, map_app, concat_app. cbn [map concat]. rewrite app_nil_r. done.
    + by apply prefix_app_r.
    + done.
    + apply Forall_app. split; [done|]. constructor; [|done]. by split.
    + rewrite length_app, fragments_length. lia.
  - done.
Qed.

Lemma recv_inv c a b sz : inv c a b → ∃ r d K', ikcp_recv (kcp a) sz = Ok (r, d, K') ∧
  inv c (Peer K' (origin a) (sent a) (if (0 <=? r) && (0 <=? sz) then got a ++ [d] else got a) (out a)) b.
Proof.
  intros (N & D & N' & D' & (Ea & Ta & Na) & (Eb & Tb & Nb)).
  pose proof Ea as [E1 E2 E3 E4 E5 E6]. pose proof Ta as [T1 T2 T3 T4 T5]. pose proof (e_settings _ _ _ _ _ _ _ _ _ Eb) as [_ Cm _ _].
  destruct (recv_ok (kcp a) N' _ D' (mss_of b) (sent b) (got a) sz (proj2 Cm) ltac:(lia) E5 T1 T2 T3 T4)
    as (r & d & K' & -> & Hcase). exists r, d, K'. split; [done|]. destruct Hcase as [(Hr & ->)|Hcase].
  { rewrite (proj2 (Z.leb_gt 0 r)) by lia. destruct a. exists N, D, N', D'. split; by split. }
  destruct Hcase as (-> & Hd & (Kcf & Ktx & Kck & Kcc) & Hk & Hacks & HR). rewrite (proj2 (Z.leb_le 0 _)) by lia. cbn [andb].
  unfold times in Kcc. injection Kcc as F1 F2 F3 F4.
  exists N, D, N', (if sz <? 0 then D' else D' ++ pieces (mss_of b) d). split; (split; [|split]).
  - split; cbn [kcp].
    + by apply (settings_same c (kcp a)).
    + unfold time_of, times_ok. by rewrite Kck, F1, F2.
    + by rewrite Kcf, Ktx.
    + by rewrite Ktx.
    + done.
    + rewrite Hacks. by eapply acks_keep.
  - split; cbn [got]; try done.
    + destruct (Z.leb_spec 0 sz); [|done]. by apply prefix_snoc.
    + destruct (Z.leb_spec 0 sz); [rewrite (proj2 (Z.ltb_ge _ _)) by lia|by rewrite (proj2 (Z.ltb_lt _ _)) by lia].
      rewrite map_app, concat_app, T3. cbn [map concat]. by rewrite app_nil_r.
  - apply (net_impl c N N a _ b b);
      [done|done|done|exists []; by rewrite app_nil_r|unfold now_of, time_of; simpl; rewrite Kck; lia|lia|done|done].
  - apply (end_keeps c (origin b) (origin a) N' (rx (kcp a)) _ N D (now_of a)); [done|unfold now_of, time_of; simpl; rewrite Kck; lia|done].
  - destruct Tb as [B1 B2 B3 B4 B5]. split; unfold mss_of in *; cbn [kcp sent]; by rewrite ?Kcf, ?Ktx.
  - apply (net_impl c N' N' b b a);
      [done|done|done|exists []; by rewrite app_nil_r|lia|unfold now_of, time_of; simpl; rewrite Kck; lia|apply keeps_refl|done].
Qed.

Lemma input_inv c a b p : inv c a b → p ∈ out b →
  Z.of_nat (length (acklist (rx (kcp a)))) + Z.of_nat (length p) < 2 ^ 31 →
  ∃ r K', ikcp_input (kcp a) p (Z.of_nat (length p)) = Ok (r, K') ∧ inv c (Peer K' (origin a) (sent a) (got a) (out a)) b.
Proof.
  intros (N & D & N' & D' & (Ea & Ta & Na) & (Eb & Tb & Nb)) Hp Ha. unfold net in Nb. rewrite Forall_forall in Nb.
  destruct (Nb p Hp) as (g & -> & Hg & Hl). pose proof Ta as [T1 T2 T3 T4 T5]. pose proof Tb as [B1 B2 B3 B4 B5].
  pose proof (r_nxt _ _ _ (e_rcv _ _ _ _ _ _ _ _ _ Eb)) as Hr. pose proof (end_now _ _ _ _ _ _ _ _ _ Eb) as Hnow.
  destruct (input_segs_ok c (origin a) (origin b) N (rx (kcp b)) N' D' (now_of b) ltac:(lia) ltac:(lia) ltac:(lia)
    (kcp a) g Ea Hg Hl Ha) as (r & K' & E & (HK' & Hk & Hq & Hcf & Hck) & _).
  exists r, K'. split; [done|]. exists N, D, N', D'. split; (split; [|split]).
  - done.
  - by split.
  - apply (net_impl c N N a _ b b);
      [done|done|done|exists []; by rewrite app_nil_r|unfold now_of, time_of; simpl; rewrite Hck; lia|lia|done|done].
  - apply (end_keeps c (origin b) (origin a) N' (rx (kcp a)) _ N D (now_of a)); [done|unfold now_of, time_of; simpl; rewrite Hck; lia|done].
  - split; unfold mss_of in *; cbn [kcp sent]; by rewrite ?Hcf, ?Hq.
  - apply (net_impl c N' N' b b a);
      [done|done|done|exists []; by rewrite app_nil_r|lia|unfold now_of, time_of; simpl; rewrite Hck; lia|apply keeps_refl|].
    unfold net. by rewrite Forall_forall.
Qed.

(** The lengths of datagrams. *)
Definition sized (m : Z) (p : list Z) : Prop := 0 < Z.of_nat (length p) ≤ m.

(** After a flush, or an update that does not flush. *)
Lemma output_inv c a b N N' D D' Nn K' ds t : half c N N' D' a b → half c N' N D b a →
  end_ok c (origin a) (origin b) (N ++ Nn) (rx (kcp b)) N' D' (now_of b) K' → keeps (rx (kcp a)) (rx K') →
  Nn ++ map part_of (snd_queue (tx K')) = map part_of (snd_queue (tx (kcp a))) → cf K' = cf (kcp a) →
  now_of a ≤ time_of (origin a) K' → time_of (origin a) K' = t →
  Forall (packet c (λ s, sent_ok (N ++ Nn) (origin a) t s ∧ acked_ok (rx (kcp a)) (origin b) (now_of b) s)) ds →
  inv c (Peer K' (origin a) (sent a) (got a) (out a ++ ds)) b.
Proof.
  intros (Ea & Ta & Na) (Eb & Tb & Nb) HK' Hk Hq Hcf Hna <- Hds.
  pose proof Ta as [T1 T2 T3 T4 T5]. pose proof Tb as [B1 B2 B3 B4 B5]. exists (N ++ Nn), D, N', D'.
  set (a' := Peer K' (origin a) (sent a) (got a) (out a ++ ds)). split; (split; [|split]).
  - done.
  - by split.
  - unfold net. apply Forall_app. split.
    + apply (net_impl c N (N ++ Nn) a (Peer K' (origin a) (sent a) (got a) (out a)) b b); [done|done|done|by exists Nn|done|done|done|done].
    + eapply Forall_impl; [exact Hds|]. intros p. apply packet_impl. intros s (H1 & H2 & H3). split; [done|].
      destruct Hk as (Hk1 & Hk2). split; [simpl; lia|]. intros Hp. destruct (H3 Hp). split; [by apply Hk2|done].
  - by apply (end_other c (origin b) (origin a) N' Nn (rx (kcp a)) _ N D (now_of a)).
  - split; unfold mss_of in *; change (kcp a') with K'; cbn [sent a']; rewrite ?Hcf; try done.
    + by rewrite <-app_assoc, Hq.
    + apply (f_equal length) in Hq. rewrite length_app, !length_map in Hq. rewrite length_app. lia.
  - apply (net_impl c N' N' b b a);
      [done|done|done|exists []; by rewrite app_nil_r|lia|done|apply keeps_refl|done].
Qed.

Lemma sends_packets c o o' N Nn now K ds : sends c o o' N now K Nn ds →
  Forall (packet c (λ s, sent_ok (N ++ Nn) o (elapsed o (current (ck K))) s ∧ acked_ok (rx K) o' now s)) ds.
Proof.
  intros (gs & -> & Hgs & _). apply Forall_map. eapply Forall_impl; [exact Hgs|]. intros g (Hne & _ & Hl).
  exists g. by split_and!.
Qed.

Lemma sends_sized c o o' N Nn now K ds : sends c o o' N now K Nn ds → Forall (sized (mtu (cf K))) ds.
Proof.
  intros (gs & -> & Hgs & _). apply Forall_map. eapply Forall_impl; [exact Hgs|]. intros g (Hne & Hsz & _).
  unfold sized. simpl. destruct (datagram_length g Hne) as (_ & H). unfold size_of, IKCP_OVERHEAD in *. lia.
Qed.

Lemma flush_inv c a b : inv c a b →
  ∃ ds K', ikcp_flush (kcp a) = Ok (ds, K') ∧ inv c (Peer K' (origin a) (sent a) (got a) (out a ++ ds)) b ∧
    cf K' = cf (kcp a) ∧ Forall (sized (mtu (cf (kcp a)))) ds.
Proof.
  intros (N & D & N' & D' & Ha & Hb). pose proof Ha as (Ea & [T1 T2 T3 T4 T5] & _). pose proof Hb as (Eb & [B1 B2 B3 B4 B5] & _).
  destruct (decide (updated (ck (kcp a)) = 0)) as [Hu|Hu].
  { exists [], (kcp a). unfold ikcp_flush. rewrite Hu. split; [done|]. rewrite app_nil_r. destruct a.
    split; [by exists N, D, N', D'|by split]. }
  destruct (flush_end_ok c (origin a) (origin b) N (rx (kcp b)) N' D' (now_of b) (kcp a))
    as (ds & K' & Nn & E & HK' & Hk & Hq & Hcf & Hck & Hs); [lia|lia|done|done|].
  exists ds, K'. split; [done|]. split; [|by split; [|by eapply sends_sized]]. apply sends_packets in Hs.
  eapply (output_inv c a b N N' D D' Nn); try done; [unfold now_of, time_of; by rewrite Hck|].
  unfold time_of. rewrite Hck. by rewrite (proj2 (Z.eqb_neq _ 0) Hu).
Qed.

Lemma update_inv c a b t : inv c a b → 0 ≤ t < 2 ^ 32 → now_of a ≤ elapsed (origin a) t < time_limit →
  ∃ ds K', ikcp_update (kcp a) t = Ok (ds, K') ∧ inv c (Peer K' (origin a) (sent a) (got a) (out a ++ ds)) b ∧
    cf K' = cf (kcp a) ∧ Forall (sized (mtu (cf (kcp a)))) ds.
Proof.
  intros (N & D & N' & D' & Ha & Hb) Ht Hel. pose proof Ha as (Ea & [T1 T2 T3 T4 T5] & _). pose proof Hb as (Eb & [B1 B2 B3 B4 B5] & _).
  destruct (update_ok c (origin a) (origin b) N (rx (kcp b)) N' D' (now_of b) (kcp a) t)
    as (ds & K' & Nn & E & HK' & Hk & Hq & Hcf & Htime & f & u & Hs); [lia|lia|done|done|lia|].
  exists ds, K'. split; [done|]. split; [|split; [done|]].
  2: { destruct Hs as [Hs|(-> & _)]; [by apply sends_sized in Hs|constructor]. }
  apply (output_inv c a b N N' D D' Nn K' ds (elapsed (origin a) t)); try done; [by rewrite Htime; apply Hel|].
  destruct Hs as [Hs|(-> & _)]; [|constructor]. by apply sends_packets in Hs.
Qed.

Lemma tune_inv c a b nd i re nc sw rw : inv c a b → rw ≤ limit →
  inv c (Peer (ikcp_wndsize (ikcp_nodelay (kcp a) nd i re nc) sw rw) (origin a) (sent a) (got a) (out a)) b.
Proof.
  intros (N & D & N' & D' & (Ea & Ta & Na) & (Eb & Tb & Nb)) Hrw. exists N, D, N', D'. split; (split; [|split]).
  - destruct Ea as [[Cv Cm Cs Cw] E2 E3 E4 E5 E6]. split; try done. split; try done. cbn.
    destruct (Z.ltb_spec 0 rw); [|done]. unfold imax_. destruct (Z.leb_spec IKCP_WND_RCV rw); unfold IKCP_WND_RCV, limit in *; lia.
  - destruct Ta. by split.
  - done.
  - done.
  - destruct Tb. by split.
  - done.
Qed.

Lemma step_inv c a b a' : inv c a b → step a b a' → inv c a' b.
Proof.
  intros HI Hs. destruct Hs as [d r K' E Hd Hlim|sz r d K' E|t ds K' Ht Hel E|ds K' E|p r K' Hp Ha E|nd i re nc sw rw Hrw].
  - by eapply send_inv.
  - destruct (recv_inv c a b sz HI) as (r' & d' & K'' & E' & HI'). rewrite E in E'. by injection E' as <- <- <-.
  - destruct (update_inv c a b t HI Ht Hel) as (ds' & K'' & E' & HI' & _). rewrite E in E'. by injection E' as <- <-.
  - destruct (flush_inv c a b HI) as (ds' & K'' & E' & HI' & _). rewrite E in E'. by injection E' as <- <-.
  - destruct (input_inv c a b p HI Hp Ha) as (r' & K'' & E' & HI'). rewrite E in E'. by injection E' as <- <-.
  - by apply tune_inv.
Qed.

Lemma steps_inv c ab ab' : inv c ab.1 ab.2 → rtc link_step ab ab' → inv c ab'.1 ab'.2.
Proof.
  intros HI. revert ab'. apply (rtc_ind_r (R := link_step) (λ ab, inv c ab.1 ab.2)); [done|].
  intros x y _ Hs Hx. destruct Hs as [a b a' Hs|a b b' Hs]; [by eapply step_inv|].
  apply inv_sym. eapply step_inv; [by apply inv_sym|done].
Qed.

Lemma reachable_linked c ab : 0 ≤ c < 2 ^ 32 → reachable c ab → inv c ab.1 ab.2.
Proof. intros Hc (oa & ob & Hs). eapply steps_inv; [|exact Hs]. by apply start_linked. Qed.

(** ** Main theorems *)

(** C7: Whatever the network loses, repeats or reorders, the messages an end hands out are the
    first of those the other end was given, in order and each once. *)
Theorem delivers_in_order c a b : 0 ≤ c < 2 ^ 32 → reachable c (a, b) →
  got b `prefix_of` sent a ∧ got a `prefix_of` sent b.
Proof.
  intros Hc Hr. destruct (reachable_linked c _ Hc Hr) as (N & D & N' & D' & (_ & Ta & _) & (_ & Tb & _)). simpl in *.
  split; [apply Tb|apply Ta].
Qed.

Lemma pieces_nonempty m d : 0 < m < 2 ^ 30 → accepted m d → pieces m d ≠ [].
Proof.
  intros Hm (Hd & _) E. destruct (count_of_bounds m d Hm Hd). apply (f_equal length) in E.
  unfold pieces in E. rewrite length_map, fragments_length in E. simpl in E. lia.
Qed.

(** C8: No data is lost: every segment that has been numbered has been received or is still in the
    sender's buffer.  So when nothing waits at either end, all messages have been handed out. *)
Theorem nothing_lost c a b : 0 ≤ c < 2 ^ 32 → reachable c (a, b) →
  (∀ k, 0 ≤ k < snd_nxt (tx (kcp a)) →
     k < rcv_nxt (rx (kcp b)) ∨ k ∈ map sn (rcv_buf (rx (kcp b))) ∨ k ∈ map sn (snd_buf (tx (kcp a)))) ∧
  (snd_queue (tx (kcp a)) = [] → snd_buf (tx (kcp a)) = [] → rcv_buf (rx (kcp b)) = [] → rcv_queue (rx (kcp b)) = [] →
     got b = sent a).
Proof.
  intros Hc Hr. destruct (reachable_linked c _ Hc Hr) as (N & D & N' & D' & (Ea & _ & _) & (Eb & Tb & _)). simpl in *.
  pose proof Ea as [Eset _ Esnd Ecov _ _]. pose proof (s_nxt _ _ _ _ Esnd) as Hn. split.
  - intros k Hk. rewrite Hn in Hk. destruct (Ecov k Hk) as [[H|H]|H]; [by left|by right; left|by right; right].
  - intros Hq Hb Hrb Hrq. pose proof (e_rcv _ _ _ _ _ _ _ _ _ Eb) as [R1 R2 R3 R4].
    destruct Tb as [T1 T2 T3 T4 T5]. destruct T2 as (rest & Hrest). rewrite Hrest in *.
    assert (Hall : rcv_nxt (rx (kcp b)) = Z.of_nat (length N)).
    { destruct (decide (rcv_nxt (rx (kcp b)) = Z.of_nat (length N))); [done|].
      destruct (Ecov (rcv_nxt (rx (kcp b)))) as [[H|H]|H]; [lia|lia| |].
      - rewrite Hrb in H. by apply elem_of_nil in H.
      - rewrite Hb in H. by apply elem_of_nil in H. }
    rewrite Hall, Nat2Z.id, firstn_all, Hrq, app_nil_r in R2. rewrite Hq, app_nil_r, map_app, concat_app in T1.
    rewrite R2, T3 in T1. rewrite <-(app_nil_r (concat _)) in T1 at 1. apply app_inv_head in T1.
    destruct rest as [|d rest]; [by rewrite app_nil_r|]. exfalso. apply Forall_app in T4 as (_ & T4).
    apply Forall_cons in T4 as (Hd & _). destruct (o_mtu _ _ Eset) as (_ & Hm). apply (pieces_nonempty (mss_of a) d Hm Hd).
    cbn [map concat] in T1. symmetry in T1. by apply app_eq_nil in T1 as (? & _).
Qed.

(** In every reachable state every operation returns: no array is left, no assertion fails and no
    sum overflows. *)
Theorem link_no_fault c a b : 0 ≤ c < 2 ^ 32 → reachable c (a, b) →
  (∀ d, ∃ r, ikcp_send (kcp a) d = Ok r) ∧ (∀ sz, ∃ r, ikcp_recv (kcp a) sz = Ok r) ∧
  (∀ t, 0 ≤ t < 2 ^ 32 → now_of a ≤ elapsed (origin a) t < time_limit → ∃ r, ikcp_update (kcp a) t = Ok r) ∧
  (∃ r, ikcp_flush (kcp a) = Ok r) ∧
  (∀ p, p ∈ out b → Z.of_nat (length (acklist (rx (kcp a)))) + Z.of_nat (length p) < 2 ^ 31 →
     ∃ r, ikcp_input (kcp a) p (Z.of_nat (length p)) = Ok r).
Proof.
  intros Hc Hr. pose proof (reachable_linked c _ Hc Hr) as HI. simpl in HI. split_and!.
  - intros d. destruct HI as (N & D & N' & D' & (Ea & _) & _). destruct (o_mtu _ _ (e_settings _ _ _ _ _ _ _ _ _ Ea)) as (_ & Hm).
    unfold ikcp_send. rewrite (proj2 (Z.ltb_lt _ _)) by lia. cbn [negb].
    destruct (if negb _ then _ else _) as [K d']. destruct (_ && _); [eauto|]. destruct (_ <=? _); eauto.
  - intros sz. destruct (recv_inv c a b sz HI) as (r & d & K' & E & _). eauto.
  - intros t Ht Hel. destruct (update_inv c a b t HI Ht Hel) as (ds & K' & E & _). eauto.
  - destruct (flush_inv c a b HI) as (ds & K' & E & _). eauto.
  - intros p Hp Ha. destruct (input_inv c a b p HI Hp Ha) as (r & K' & E & _). eauto.
Qed.

(** C9: What has not been received is sent until it is: when a segment in the buffer is new or its
    time has come, the next flush puts it into a datagram, and if that one arrives and the
    receiver's window covers it, it has been received. *)
Theorem resent_until_received c a b s t : 0 ≤ c < 2 ^ 32 → reachable c (a, b) →
  s ∈ snd_buf (tx (kcp a)) → flushes (kcp a) t → due t s →
  0 ≤ t < 2 ^ 32 → now_of a ≤ elapsed (origin a) t < time_limit →
  sn s < rcv_nxt (rx (kcp b)) + rcv_wnd (cf (kcp b)) →
  Z.of_nat (length (acklist (rx (kcp b)))) + mtu (cf (kcp a)) < 2 ^ 31 →
  ∃ ds Ka p r Kb, ikcp_update (kcp a) t = Ok (ds, Ka) ∧ p ∈ ds ∧
    ikcp_input (kcp b) p (Z.of_nat (length p)) = Ok (r, Kb) ∧ rcvd (rx Kb) (sn s).
Proof.
  intros Hc Hr Hs Hfl Hd Ht Hel Hw Ha.
  destruct (reachable_linked c _ Hc Hr) as (N & D & N' & D' & (Ea & Ta & _) & (Eb & Tb & _)).
  simpl in *. pose proof Ta as [T1 T2 T3 T4 T5]. pose proof Tb as [B1 B2 B3 B4 B5].
  destruct (update_ok c (origin a) (origin b) N (rx (kcp b)) N' D' (now_of b) (kcp a) t)
    as (ds & Ka & Nn & E & HK' & Hk & Hq & Hcf & Htime & f & u & Hsent); [lia|lia|done|done|lia|].
  destruct Hsent as [(gs & -> & Hgs & Hdue)|(_ & ?)]; [|done].
  destruct (Hdue s Hs Hd) as (g & s' & Hg & Hs' & Hsn & Hcm). rewrite Forall_forall in Hgs.
  destruct (Hgs g Hg) as (Hne & Hsz & Hl). unfold size_of in Hsz. cbn [cf rx ck with_ck current] in Hsz, Hl.
  assert (Hlen : Z.of_nat (length (N ++ Nn)) ≤ limit).
  { apply (f_equal length) in Hq. rewrite length_app, !length_map in Hq. rewrite length_app. lia. }
  assert (Eb' : end_ok c (origin b) (origin a) N' (rx (kcp a)) (N ++ Nn) D (elapsed (origin a) t) (kcp b)).
  { eapply (end_other c _ _ N' Nn (rx (kcp a)) (rx (kcp a)) N D (now_of a)); [apply keeps_refl|apply Hel|done]. }
  destruct (input_segs_ok c (origin b) (origin a) N' (rx (kcp a)) (N ++ Nn) D (elapsed (origin a) t) ltac:(lia) Hlen
    (r_nxt _ _ _ (e_rcv _ _ _ _ _ _ _ _ _ Ea)) (kcp b) g Eb' Hne Hl ltac:(lia)) as (r & Kb & Ein & _ & Hin).
  exists (map datagram gs), Ka, (datagram g), r, Kb. split_and!; [done| |done|].
  - apply list_elem_of_In, in_map, list_elem_of_In. done.
  - rewrite Forall_forall in Hin. rewrite <-Hsn. apply (Hin s'); [done..|]. by rewrite Hsn.
Qed.

(** ** Concrete inputs *)

(** The first update opens the congestion window, the second one sends; the datagram may be
    lost and sent again, or arrive, be read and acknowledged.  The clock of the first end starts
    150 milliseconds before it passes 2^32. *)
Ltac compute_ok := vm_compute; reflexivity.
Ltac compute_le := vm_compute; intuition discriminate.
Ltac next_left := eapply rtc_l; [apply step_left|].
Ltac next_right := eapply rtc_l; [apply step_right|].
Definition late : Z := 2 ^ 32 - 150.

Lemma sent_once : ∃ a b, reachable 7 (a, b) ∧ out b = [] ∧ length (out a) = 1%nat ∧ kcp b = ikcp_create 7 ∧
  match snd_buf (tx (kcp a)) with
  | [s] => sn s = 0 ∧ due 350 s ∧ flushes (kcp a) 350
  | _ => False
  end ∧ now_of a = 200 ∧ origin a = late ∧ mtu (cf (kcp a)) = 1400.
Proof.
  eexists _, _. split.
  { exists late, 5. unfold start.
    next_left; [eapply (step_send _ _ [1; 2; 3]); [compute_ok|compute_le|compute_le]|].
    next_left; [eapply (step_update _ _ (2 ^ 32 - 50)); [compute_le|compute_le|compute_ok]|].
    next_left; [eapply (step_update _ _ 50); [compute_le|compute_le|compute_ok]|].
    apply rtc_refl. }
  split_and!; try reflexivity. cbn. split_and!; [reflexivity|right; compute_le|right; compute_le].
Qed.

Lemma delivered_once : ∃ a b, reachable 7 (a, b) ∧ got b = [[1; 2; 3]] ∧ snd_queue (tx (kcp a)) = [] ∧
  snd_buf (tx (kcp a)) = [] ∧ rcv_buf (rx (kcp b)) = [] ∧ rcv_queue (rx (kcp b)) = [] ∧ origin a = late ∧ now_of a = 200.
Proof.
  eexists _, _. split.
  { exists late, 5. unfold start.
    next_left; [eapply (step_send _ _ [1; 2; 3]); [compute_ok|compute_le|compute_le]|].
    next_left; [eapply (step_update _ _ (2 ^ 32 - 50)); [compute_le|compute_le|compute_ok]|].
    next_left; [eapply (step_update _ _ 50); [compute_le|compute_le|compute_ok]|].
    next_right; [eapply step_input; [left|compute_le|compute_ok]|].
    next_right; [eapply (step_recv _ _ 10); compute_ok|].
    next_right; [eapply (step_update _ _ 90); [compute_le|compute_le|compute_ok]|].
    next_left; [eapply step_input; [left|compute_le|compute_ok]|].
    apply rtc_refl. }
  split_and!; reflexivity.
Qed.

Lemma delivers_in_order_witness : ∃ a b, reachable 7 (a, b) ∧ got b = [[1; 2; 3]] ∧
  got b `prefix_of` sent a ∧ got a `prefix_of` sent b.
Proof.
  destruct delivered_once as (a & b & Hr & Hg & _). exists a, b. split; [exact Hr|]. split; [exact Hg|].
  apply (delivers_in_order 7 a b); [lia|exact Hr].
Defined.

Lemma nothing_lost_witness : ∃ a b, reachable 7 (a, b) ∧ got b = [[1; 2; 3]] ∧ got b = sent a.
Proof.
  destruct delivered_once as (a & b & Hr & Hg & H1 & H2 & H3 & H4 & _). exists a, b. split; [exact Hr|]. split; [exact Hg|].
  apply (nothing_lost 7 a b ltac:(lia) Hr); [exact H1|exact H2|exact H3|exact H4].
Defined.

Lemma link_no_fault_witness : ∃ a b, reachable 7 (a, b) ∧ ∃ r, ikcp_update (kcp a) 1000 = Ok r.
Proof.
  destruct delivered_once as (a & b & Hr & _ & _ & _ & _ & _ & Ho & Ht). exists a, b. split; [exact Hr|].
  apply (link_no_fault 7 a b ltac:(lia) Hr); [lia|]. rewrite Ho, Ht. compute_le.
Defined.

Lemma resent_until_received_witness : ∃ a b ds Ka p r Kb, reachable 7 (a, b) ∧ ikcp_update (kcp a) 350 = Ok (ds, Ka) ∧
  p ∈ ds ∧ ikcp_input (kcp b) p (Z.of_nat (length p)) = Ok (r, Kb) ∧ rcvd (rx Kb) 0.
Proof.
  destruct sent_once as (a & b & Hr & _ & _ & Hb' & Hs & Ht & Ho & Hm). exists a, b.
  destruct (snd_buf (tx (kcp a))) as [|s [|]] eqn:Hb; [done| |done]. destruct Hs as (Hsn & Hd & Hf).
  destruct (resent_until_received 7 a b s 350) as (ds & Ka & p & r & Kb & E1 & E2 & E3 & E4);
    [lia|exact Hr|rewrite Hb; left|exact Hf|exact Hd|lia|rewrite Ht, Ho; compute_le|rewrite Hsn, Hb'; reflexivity
    |rewrite Hm, Hb'; reflexivity|].
  rewrite Hsn in E4. exists ds, Ka, p, r, Kb. split_and!; assumption.
Defined.

End KcpLink.
