(* ===== verification/KcpEcho.v ===== *)
(** * The KCP sample programs: 4.4udp/kcp-20211120/server.c, client.c and delay.c

    The client stamps objects with a number and the time, sends each as a message and waits for
    the messages to come back; the server sends back what it gets.  Both are written with
    the operations of Kcp over the network of KcpLink, as programs over a peer.  Standard output
    and the addresses are left out; there is one client.  A reading of gettimeofday is an argument
    wherever the clock is read, and so is the datagram that [recvfrom] returns, if any. *)

From S2P Require Import Prelude CMem Kcp KcpWire KcpLink.

Module KcpEcho.
Import Kcp KcpWire KcpLink.

(** ** Time: delay.c *)

(** Seconds and microseconds. *)
Definition timeval : Type := Z * Z.

(* src: 4.4udp/kcp-20211120/delay.c:41-48 iclock64 *)
Definition iclock64 (tv : timeval) : Z := tv.1 * 1000 + Z.quot tv.2 1000.
(* src: 4.4udp/kcp-20211120/delay.c:50-53 iclock *)
Definition iclock (tv : timeval) : Z := Z.land (iclock64 tv) (2 ^ 32 - 1).

(** ** Objects

    A [t_delay_obj] is its bytes, little-endian: [seqno] is at 0, [send_time] at 8, [recv_time]
    at 16 and [body] at 24; four bytes of padding follow. *)

Definition DELAY_BODY_SIZE : Z := 1300.
(* src: 4.4udp/kcp-20211120/delay.h:7-14 t_delay_obj *)
Definition obj_size : Z := 24 + DELAY_BODY_SIZE + 4.

(** The [n] bytes of an integer, and the integer some bytes stand for. *)
Fixpoint le (n : nat) (v : Z) : list Z := match n with O => [] | S n => u8 v :: le n (Z.shiftr v 8) end.
Fixpoint un_le (l : list Z) : Z := match l with [] => 0 | x :: l => x + 256 * un_le l end.
Definition i64 (z : Z) : Z := (z + 2 ^ 63) mod 2 ^ 64 - 2 ^ 63.

(* src: 4.4udp/kcp-20211120/delay.c:70-73 delay_set_seqno_send_time *)
Definition delay_set_seqno_send_time (obj : list Z) (seqno : Z) (tv : timeval) : res (list Z) :=
  obj ← splice obj 0 (le 2 seqno); splice obj 8 (le 8 (iclock64 tv)).
(* src: 4.4udp/kcp-20211120/delay.c:79-81 delay_set_recv_time *)
Definition delay_set_recv_time (obj : list Z) (tv : timeval) : res (list Z) := splice obj 16 (le 8 (iclock64 tv)).

Definition seqno_of (obj : list Z) : res Z := b ← slice obj 0 2; Ok (un_le b).
Definition send_time_of (obj : list Z) : res Z := b ← slice obj 8 8; Ok (i64 (un_le b)).
Definition recv_time_of (obj : list Z) : res Z := b ← slice obj 16 8; Ok (i64 (un_le b)).
Definition long (z : Z) : res Z := if (- 2 ^ 63 <=? z) && (z <? 2 ^ 63) then Ok z else Err SignedOverflow.

(** A printed row: the number and the round-trip time. *)
Definition print_row (obj : list Z) : res (Z * Z) :=
  n ← seqno_of obj; r ← recv_time_of obj; s ← send_time_of obj; d ← long (r - s); Ok (n, d).
(* src: 4.4udp/kcp-20211120/delay.c:83-90 delay_print_rtt_time *)
Fixpoint delay_print_rtt_time (objs : list (list Z)) (num : nat) : res (list (Z * Z)) :=
  match num with
  | O => Ok []
  | S num => l ← delay_print_rtt_time objs num; o ← aget objs (Z.of_nat num); r ← print_row o; Ok (l ++ [r])
  end.

(** ** Programs over an end *)

(** What a program does to its end; the messages and datagrams are recorded in the peer. *)
Definition M (A : Type) : Type := peer → res (A * peer).
#[export] Instance M_ret : MRet M := λ A a x, Ok (a, x).
#[export] Instance M_bind : MBind M := λ A B f m x, match m x with Ok (a, x) => f a x | Err e => Err e end.
Definition lift {A} (m : res A) : M A := λ x, a ← m; Ok (a, x).

Definition do_send (d : list Z) : M Z := λ x,
  '(r, K) ← ikcp_send (kcp x) d;
  Ok (r, Peer K (origin x) (if r =? 0 then sent x ++ [d] else sent x) (got x) (out x)).
Definition do_recv (sz : Z) : M (Z * list Z) := λ x,
  '(r, d, K) ← ikcp_recv (kcp x) sz;
  Ok ((r, d), Peer K (origin x) (sent x) (if (0 <=? r) && (0 <=? sz) then got x ++ [d] else got x) (out x)).
Definition do_input (p : list Z) : M Z := λ x,
  '(r, K) ← ikcp_input (kcp x) p (Z.of_nat (length p)); Ok (r, Peer K (origin x) (sent x) (got x) (out x)).
Definition do_update (t : Z) : M () := λ x,
  '(ds, K) ← ikcp_update (kcp x) t; Ok ((), Peer K (origin x) (sent x) (got x) (out x ++ ds)).
Definition do_flush : M () := λ x,
  '(ds, K) ← ikcp_flush (kcp x); Ok ((), Peer K (origin x) (sent x) (got x) (out x ++ ds)).

(* src: 4.4udp/kcp-20211120/server.c:14-14 RECV_BUF *)
Definition RECV_BUF : nat := 1500.

(** ** The server *)

(** [room] says whether [malloc] gives [ikcp_setmtu] its buffer. *)
(* src: 4.4udp/kcp-20211120/server.c:229-233 main *)
Definition server_kcp (room : bool) : ikcpcb :=
  ikcp_wndsize (ikcp_nodelay (ikcp_setmtu (ikcp_create 1) 1400 room).2 0 10 0 0) 128 128.

(** Before the loop. *)
(* src: 4.4udp/kcp-20211120/server.c:159-162 loop *)
Definition server_begin (tv : timeval) : M () := do_update (iclock tv).

(** One round of the loop; the result says whether it goes on. *)
(* src: 4.4udp/kcp-20211120/server.c:166-208 loop *)
Definition server_turn (tv : timeval) (dg : option (list Z)) : M bool :=
  do_update (iclock tv) ≫= λ _,
  match dg with
  | Some d =>
      let buf := take RECV_BUF d in
      if 0 <? Z.of_nat (length buf) then
        do_input buf ≫= λ ret,
        if ret <? 0 then mret true
        else
          do_recv (Z.of_nat (length buf)) ≫= λ '(ret, m),
          if ret <? 0 then mret true
          else do_send m ≫= λ _, do_flush ≫= λ _, mret true
      else mret false
  | None => mret true
  end.

(** ** The client *)

(* src: 4.4udp/kcp-20211120/client.c:228-232 main *)
Definition client_kcp (room : bool) : ikcpcb :=
  (ikcp_setmtu (ikcp_wndsize (ikcp_nodelay (ikcp_create 1) 0 10 0 0) 128 128) 1400 room).2.

(** Where [delay_test2] is: in its first loop, in its second one, at its end, or after an
    error. *)
Inductive phase : Type := Sending | Waiting | Finished | Failed.
#[export] Instance phase_eq_dec : EqDecision phase.
Proof. solve_decision. Defined.

(** The variables of [delay_test2], and, for the theorems, the times stamped on the objects, the
    times the replies were taken and the values of [i] then. *)
Record client : Type := Client {
  objs : list (list Z); recv_objs : nat; idx : nat; at_ : phase;
  stamps : list Z; takes : list Z; slots : list nat
}.
Definition go (C : client) (i : nat) (p : phase) : client :=
  Client (objs C) (recv_objs C) i p (stamps C) (takes C) (slots C).

(** A datagram, if there is one, is given to the engine and a message is read into [objs[i]]: the
    end of the bodies of both loops, of which the second repeats lines 120 to 145.  [next] is where to go on when nothing has been read. *)
(* src: 4.4udp/kcp-20211120/client.c:120-145 delay_test2 *)
Definition take_reply (tv : timeval) (dg : option (list Z)) (C next : client) : M client :=
  match dg with
  | None => mret next
  | Some d =>
      do_input (take RECV_BUF d) ≫= λ ret,
      if ret <? 0 then mret next
      else
        do_recv obj_size ≫= λ '(ret, m),
        if ret <? 0 then mret next
        else
          lift (o ← aget (objs C) (Z.of_nat (idx C)); o ← splice o 0 m; l ← aset (objs C) (Z.of_nat (idx C)) o;
                o ← aget l (Z.of_nat (recv_objs C)); o ← delay_set_recv_time o tv;
                aset l (Z.of_nat (recv_objs C)) o) ≫= λ l,
          mret (Client l (S (recv_objs C)) (S (idx C)) (if ret =? obj_size then at_ C else Failed)
                  (stamps C) (takes C ++ [iclock64 tv]) (slots C ++ [idx C]))
  end.

(** The number of objects. *)
(* src: 4.4udp/kcp-20211120/client.c:17-17 DELAY_TEST2_N *)
Definition DELAY_TEST2_N : nat := 1.

(** One round of a loop of [delay_test2] with [n] objects. *)
(* src: 4.4udp/kcp-20211120/client.c:108-187 delay_test2 *)
Definition client_turn (n : nat) (tv0 tv1 tv2 : timeval) (dg : option (list Z)) (C : client) : M client :=
  match at_ C with
  | Sending =>
      if decide (idx C < n)%nat then
        lift (o ← aget (objs C) (Z.of_nat (idx C)); delay_set_seqno_send_time o (Z.of_nat (idx C)) tv0) ≫= λ o,
        lift (aset (objs C) (Z.of_nat (idx C)) o) ≫= λ l,
        let C := Client l (recv_objs C) (idx C) Sending (stamps C ++ [iclock64 tv0]) (takes C) (slots C) in
        do_send o ≫= λ ret,
        if ret <? 0 then mret (go C (idx C) Failed)
        else do_update (iclock tv1) ≫= λ _, take_reply tv2 dg C (go C (S (idx C)) Sending)
      else mret (go C (recv_objs C) Waiting)
  | Waiting =>
      if decide (idx C < n)%nat then do_update (iclock tv1) ≫= λ _, take_reply tv2 dg C C
      else do_flush ≫= λ _, mret (go C (idx C) Finished)
  | _ => mret C
  end.

(** [mem] is the array that [malloc] gives. *)
(* src: 4.4udp/kcp-20211120/client.c:96-105 delay_test2 *)
Definition client_start (mem : list (list Z)) : client := Client mem 0 0 Sending [] [] [].
(** Before the loops. *)
(* src: 4.4udp/kcp-20211120/client.c:107-107 delay_test2 *)
Definition client_begin (tv : timeval) : M () := do_update (iclock tv).

(** ** Both *)

Record sys : Type := Sys {
  cl : client; ca : peer; sb : peer; up : bool;
  to_server : list nat; to_client : list nat   (* the datagrams delivered, by their places in [out] *)
}.
(** A turn of a program; the last argument is the place of the datagram it gets. *)
Inductive event : Type :=
  | Client_turn (tv0 tv1 tv2 : timeval) (dg : option nat)
  | Server_turn (tv : timeval) (dg : option nat).

Definition deliver (x : peer) (dg : option nat) : option (list Z) := k ← dg; out x !! k.
Definition turn (n : nat) (e : event) (s : sys) : res sys :=
  match e with
  | Client_turn tv0 tv1 tv2 dg =>
      '(C, a) ← client_turn n tv0 tv1 tv2 (deliver (sb s) dg) (cl s) (ca s);
      Ok (Sys C a (sb s) (up s) (to_server s) (to_client s ++ option_list dg))
  | Server_turn tv dg =>
      if up s then
        '(u, b) ← server_turn tv (deliver (ca s) dg) (sb s);
        Ok (Sys (cl s) (ca s) b u (to_server s ++ option_list dg) (to_client s))
      else Ok s
  end.

(** What is assumed of a turn: the clock of the end that runs does not go back and the connection is
    not older than three days, the clock is not beyond the year 10000, and less than 2^30
    acknowledgements are pending. *)
Definition timely (x : peer) (tv : timeval) : bool :=
  (now_of x <=? elapsed (origin x) (iclock tv)) && (elapsed (origin x) (iclock tv) <? time_limit) &&
  (Z.of_nat (length (acklist (rx (kcp x)))) <? 2 ^ 30).
Definition sane (tv : timeval) : bool := (0 <=? iclock64 tv) && (iclock64 tv <? 2 ^ 48).
Definition allowed (e : event) (s : sys) : bool :=
  match e with
  | Client_turn tv0 tv1 tv2 dg =>
      timely (ca s) tv1 && sane tv0 && sane tv2 && bool_decide (dg = None ∨ is_Some (deliver (sb s) dg))
  | Server_turn tv dg => timely (sb s) tv && bool_decide (dg = None ∨ is_Some (deliver (ca s) dg))
  end.

(** From the starts of both programs on. *)
Definition begins (mem : list (list Z)) (oa ob : Z) (ta tb : timeval) : res sys :=
  '(_, b) ← server_begin tb (Peer (server_kcp true) ob [] [] []);
  '(_, a) ← client_begin ta (Peer (client_kcp true) oa [] [] []);
  Ok (Sys (client_start mem) a b true [] []).
Definition sys_step (n : nat) (s s' : sys) : Prop := ∃ e, allowed e s = true ∧ turn n e s = Ok s'.
Definition runs (n : nat) (s : sys) : Prop := ∃ mem oa ob ta tb s0,
  length mem = n ∧ Forall (λ o : list Z, Z.of_nat (length o) = obj_size) mem ∧ Z.of_nat n ≤ 2 ^ 16 ∧
  elapsed oa (iclock ta) < time_limit ∧ elapsed ob (iclock tb) < time_limit ∧
  begins mem oa ob ta tb = Ok s0 ∧ rtc (sys_step n) s0 s.

(** A sequence of turns, all of them allowed. *)
Fixpoint run (n : nat) (l : list event) (s : sys) : res sys :=
  match l with
  | [] => Ok s
  | e :: l => if allowed e s then s ← turn n e s; run n l s else Err AssertFailed
  end.

(** ** Running programs *)

(** From [x], [m] returns, and [Q] holds of what it returns and of the end it leaves. *)
Definition wp {A} (m : M A) (Q : A → peer → Prop) (x : peer) : Prop := ∃ a x', m x = Ok (a, x') ∧ Q a x'.

Lemma wp_ret {A} (a : A) Q x : Q a x → wp (mret a) Q x.
Proof. intros H. by exists a, x. Qed.
Lemma wp_bind {A B} (m : M A) (f : A → M B) P Q x : wp m P x → (∀ a y, P a y → wp (f a) Q y) → wp (m ≫= f) Q x.
Proof.
  intros (a & y & E & HP) Hf. destruct (Hf a y HP) as (b & z & E' & HQ). exists b, z. split; [|done].
  change (match m x with Ok (a, x) => f a x | Err e => Err e end = Ok (b, z)). by rewrite E.
Qed.
Lemma wp_lift {A} (m : res A) a Q x : m = Ok a → Q a x → wp (lift m) Q x.
Proof. intros -> H. by exists a, x. Qed.
Lemma wp_mono {A} (m : M A) (P Q : A → peer → Prop) x : wp m P x → (∀ a y, P a y → Q a y) → wp m Q x.
Proof. intros (a & y & E & HP) H. exists a, y. auto. Qed.

(** ** Two ends with the settings of the samples *)

Definition settings : config := cf (client_kcp true).
Lemma server_settings r r' : server_kcp r = client_kcp r'.
Proof. by destruct r, r'. Qed.

(** Messages that fit one segment. *)
Definition small (d : list Z) : Prop := Z.of_nat (length d) ≤ 1376.
Record linked (a b : peer) : Prop := Linked {
  l_inv : inv 1 a b;
  l_cf : cf (kcp a) = settings ∧ cf (kcp b) = settings;
  l_small : Forall small (sent a) ∧ Forall small (sent b);
  l_out : Forall (sized 1400) (out a) ∧ Forall (sized 1400) (out b)
}.
Lemma linked_sym a b : linked a b → linked b a.
Proof. intros [H1 (H2 & H2') (H3 & H3') (H4 & H4')]. split; try done. by apply inv_sym. Qed.

Lemma linked_got a b : linked a b → got a `prefix_of` sent b.
Proof. intros [(N & D & N' & D' & (_ & Ta & _) & _) _ _ _]. apply Ta. Qed.

Lemma pieces_small d : small d → length (pieces 1376 d) = 1%nat.
Proof.
  intros Hd. unfold pieces. rewrite length_map, fragments_length. unfold count_of, small in *.
  by rewrite (proj2 (Z.leb_le _ _)) by lia.
Qed.
Lemma pieces_total l : Forall small l → length (concat (map (pieces 1376) l)) = length l.
Proof. induction 1 as [|d l Hd _ IH]; [done|]. cbn [map concat]. rewrite length_app, pieces_small by done. simpl. lia. Qed.

(** Every message is one segment, so numbers count messages. *)
Lemma linked_numbers a b : linked a b → snd_nxt (tx (kcp a)) + Z.of_nat (length (snd_queue (tx (kcp a)))) = Z.of_nat (length (sent a)).
Proof.
  intros [(N & D & N' & D' & (Ea & _ & _) & (_ & Tb & _)) (Hc & _) (Hs & _) _].
  rewrite (s_nxt _ _ _ _ (e_snd _ _ _ _ _ _ _ _ _ Ea)). pose proof (t_msgs _ _ _ _ Tb) as E.
  assert (Hm : mss_of a = 1376) by (unfold mss_of; by rewrite Hc). rewrite Hm in E.
  apply (f_equal length) in E. rewrite length_app, length_map, (pieces_total _ Hs) in E. lia.
Qed.

Lemma prefix_snoc_lookup {A} (l k : list A) x : l ++ [x] `prefix_of` k → k !! length l = Some x.
Proof. intros (r & ->). rewrite <-app_assoc. by apply list_lookup_middle. Qed.

(** What operations leave unchanged. *)
Lemma flush_acks K ds K' : ikcp_flush K = Ok (ds, K') → (length (acklist (rx K')) ≤ length (acklist (rx K)))%nat.
Proof.
  unfold ikcp_flush. destruct (updated (ck K) =? 0); [by intros [= <- <-]|]. intros H. inv_ok.
  repeat match goal with x : _ * _ |- _ => destruct x end. inv_ok. simpl. lia.
Qed.
Lemma update_acks K t ds K' : ikcp_update K t = Ok (ds, K') → (length (acklist (rx K')) ≤ length (acklist (rx K)))%nat.
Proof.
  unfold ikcp_update. destruct (if _ || _ then _ else _) as [f sl]. destruct (0 <=? sl); [|by intros [= <- <-]].
  intros H. by apply flush_acks in H.
Qed.
Lemma recv_result K sz r d K' : ikcp_recv K sz = Ok (r, d, K') →
  cf K' = cf K ∧ ck K' = ck K ∧ (r < 0 ∨ r = Z.of_nat (length d) ∧ r ≤ Z.abs sz).
Proof.
  unfold ikcp_recv. destruct (rcv_queue (rx K)); [intros [= <- <- <-]; split_and!; [done|done|left; lia]|].
  destruct (_ <? 0); [intros [= <- <- <-]; split_and!; [done|done|left; lia]|].
  destruct (Z.abs sz <? _); [intros [= <- <- <-]; split_and!; [done|done|left; lia]|].
  destruct (merge_fragments _) as [[m k] q]. destruct (Z.ltb_spec (Z.abs sz) (Z.of_nat (length m))); [done|].
  destruct (negb _); [done|]. intros [= <- <- <-]. split_and!; [done|done|right; lia].
Qed.
Lemma input_loop_cf f K p n flag r K' flag' : input_loop f K p n flag = Ok (r, K', flag') → cf K' = cf K ∧ ck K' = ck K.
Proof.
  revert K p n flag. induction f as [|f IH]; intros K p n flag; cbn [input_loop]; [done|].
  destruct (n <? IKCP_OVERHEAD); [by intros [= _ <- _]|]. intros H. inv_ok.
  repeat match goal with x : _ * _ |- _ => destruct x end. destruct (negb _); [inv_ok; done|]. inv_ok.
  repeat match goal with x : _ * _ |- _ => destruct x end. destruct (_ || _); [inv_ok; done|].
  destruct (negb _); [inv_ok; done|]. inv_ok. repeat match goal with x : _ * _ |- _ => destruct x end.
  match goal with H : input_loop _ _ _ _ _ = _ |- _ => apply IH in H as (-> & ->) end.
  match goal with H : input_seg _ _ _ _ = _ |- _ => apply input_seg_cf in H as (-> & ->) end. done.
Qed.
Lemma input_cf K p n r K' : ikcp_input K p n = Ok (r, K') → cf K' = cf K ∧ ck K' = ck K.
Proof.
  unfold ikcp_input. destruct (_ <? IKCP_OVERHEAD); [by intros [= _ <-]|]. intros H. inv_ok.
  repeat match goal with x : _ * _ |- _ => destruct x end.
  match goal with H : input_loop _ _ _ _ _ = _ |- _ => apply input_loop_cf in H as (Hc & Hk) end.
  match goal with |- context [cf K] => destruct o0; inv_ok; [done|] end. by destruct o, (0 <? _).
Qed.

Section rules.
Context (a b : peer) (L : linked a b).

Lemma do_update_ok t : 0 ≤ t < 2 ^ 32 → now_of a ≤ elapsed (origin a) t < time_limit →
  wp (do_update t) (λ _ a', linked a' b ∧ sent a' = sent a ∧ got a' = got a ∧
    (length (acklist (rx (kcp a'))) ≤ length (acklist (rx (kcp a))))%nat) a.
Proof.
  intros Ht Hel. destruct L as [HI (Hc & Hc') Hs (Ho & Ho')].
  destruct (update_inv 1 a b t HI Ht Hel) as (ds & K' & E & HI' & Hcf & Hds).
  eexists (), _. unfold do_update. rewrite E. split; [done|]. split_and!; [|done|done|].
  - split; cbn [kcp sent out]; [done|by rewrite Hcf|done|]. split; [|done]. apply Forall_app. split; [done|].
    rewrite Hc in Hds. exact Hds.
  - cbn [kcp]. by apply update_acks in E.
Qed.

Lemma do_flush_ok : wp do_flush (λ _ a', linked a' b ∧ sent a' = sent a ∧ got a' = got a) a.
Proof.
  destruct L as [HI (Hc & Hc') Hs (Ho & Ho')]. destruct (flush_inv 1 a b HI) as (ds & K' & E & HI' & Hcf & Hds).
  eexists (), _. unfold do_flush. rewrite E. split; [done|]. split_and!; [|done|done].
  split; cbn [kcp sent out]; [done|by rewrite Hcf|done|]. split; [|done]. apply Forall_app. split; [done|].
  rewrite Hc in Hds. exact Hds.
Qed.

Lemma do_input_ok p : p ∈ out b → Z.of_nat (length (acklist (rx (kcp a)))) < 2 ^ 30 →
  wp (do_input p) (λ _ a', linked a' b ∧ sent a' = sent a ∧ got a' = got a) a.
Proof.
  intros Hp Ha. destruct L as [HI (Hc & Hc') Hs (Ho & Ho')].
  assert (Hsz : sized 1400 p) by (rewrite Forall_forall in Ho'; by apply Ho').
  destruct (input_inv 1 a b p HI Hp) as (r & K' & E & HI'); [unfold sized in Hsz; lia|].
  eexists r, _. unfold do_input. rewrite E. split; [done|]. split_and!; [|done|done].
  split; cbn [kcp sent out]; try done. by rewrite (proj1 (input_cf _ _ _ _ _ E)).
Qed.

Lemma do_recv_ok sz : 0 ≤ sz → wp (do_recv sz) (λ '(r, d) a', linked a' b ∧ sent a' = sent a ∧
  (r < 0 ∧ got a' = got a ∨ r = Z.of_nat (length d) ∧ got a' = got a ++ [d] ∧ sent b !! length (got a) = Some d)) a.
Proof.
  intros Hsz. destruct L as [HI (Hc & Hc') Hs Ho]. destruct (recv_inv 1 a b sz HI) as (r & d & K' & E & HI').
  destruct (recv_result _ _ _ _ _ E) as (Hcf & Hck & Hr). rewrite (proj2 (Z.leb_le 0 sz) Hsz), andb_true_r in HI'.
  eexists (r, d), _. unfold do_recv. rewrite E. split; [done|]. rewrite (proj2 (Z.leb_le 0 sz) Hsz), andb_true_r.
  assert (HL : linked (Peer K' (origin a) (sent a) (if 0 <=? r then got a ++ [d] else got a) (out a)) b)
    by (split; [done|by rewrite <-Hc, <-Hcf in *|done|done]).
  split_and!; [exact HL|done|]. cbn [got]. destruct Hr as [Hr|(-> & _)]; [left; rewrite (proj2 (Z.leb_gt 0 r)) by lia; by split|].
  right. rewrite (proj2 (Z.leb_le 0 _)) in * by lia. split_and!; [done|done|].
  apply linked_got in HL. cbn [got] in HL. by apply prefix_snoc_lookup.
Qed.

Lemma do_send_ok d : small d → Z.of_nat (length (sent a)) < 2 ^ 16 → wp (do_send d) (λ r a', r = 0 ∧ linked a' b ∧
  sent a' = sent a ++ [d] ∧ got a' = got a ∧ origin a' = origin a ∧ ck (kcp a') = ck (kcp a) ∧ rx (kcp a') = rx (kcp a)) a.
Proof.
  intros Hd Hn. pose proof (linked_numbers a b L) as Hnum. destruct L as [HI (Hc & Hc') (Hs & Hs') Ho].
  assert (E : ∃ K', ikcp_send (kcp a) d = Ok (0, K') ∧ cf K' = cf (kcp a) ∧ ck K' = ck (kcp a) ∧ rx K' = rx (kcp a) ∧
    snd_nxt (tx K') = snd_nxt (tx (kcp a)) ∧ length (snd_queue (tx K')) = S (length (snd_queue (tx (kcp a))))).
  { unfold ikcp_send. rewrite Hc. change (stream settings) with 0. change (mss settings) with 1376. 
    change (negb (0 <? 1376)) with false. change (negb (0 =? 0)) with false. cbv iota. rewrite !Hc.
    change (stream settings) with 0. change (mss settings) with 1376. cbn [Z.eqb negb andb].
    unfold small in Hd. rewrite (proj2 (Z.leb_le _ 1376)) by lia. eexists. split; [done|]. split_and!; try done.
    simpl. rewrite length_app. simpl. lia. }
  destruct E as (K' & E & Hcf & Hck & Hrx & Hnxt & Hq).
  pose proof (send_inv 1 a b d 0 K' HI E) as HI'. cbn [Z.eqb] in HI'.
  eexists 0, _. unfold do_send. rewrite E. split; [done|]. cbn [Z.eqb]. split_and!; try done.
  split; cbn [kcp sent out]; [|by rewrite Hcf| |done].
  - apply HI'; unfold small, limit in *; [lia|]. rewrite Hnxt, Hq. lia.
  - split; [|done]. apply Forall_app. by split; [|repeat constructor].
Qed.
End rules.

(** ** The server *)

Lemma timely_ok x tv : timely x tv = true → now_of x ≤ elapsed (origin x) (iclock tv) < time_limit ∧
  Z.of_nat (length (acklist (rx (kcp x)))) < 2 ^ 30.
Proof. unfold timely. rewrite !andb_true_iff, !Z.ltb_lt, Z.leb_le. tauto. Qed.
Lemma iclock_range tv : 0 ≤ iclock tv < 2 ^ 32.
Proof. unfold iclock. rewrite (land_mask _ 32) by done. by apply Z.mod_pos_bound. Qed.

Lemma take_buf b p : Forall (sized 1400) (out b) → p ∈ out b → take RECV_BUF p = p ∧ 0 < Z.of_nat (length p).
Proof.
  intros Ho Hp. rewrite Forall_forall in Ho. specialize (Ho p Hp). unfold sized, RECV_BUF in *.
  split; [|lia]. apply firstn_all2. lia.
Qed.

Lemma deliver_ok x dg p : deliver x dg = Some p → p ∈ out x.
Proof. unfold deliver. destruct dg as [k|]; [|done]. apply list_elem_of_lookup_2. Qed.

(** The server answers every message it gets with the same message, and goes on. *)
Lemma server_turn_ok a b tv dg : linked b a → sent b = got b → Z.of_nat (length (sent a)) ≤ 2 ^ 16 →
  timely b tv = true → (∀ p, dg = Some p → p ∈ out a) →
  wp (server_turn tv dg) (λ u b', u = true ∧ linked b' a ∧ sent b' = got b') b.
Proof.
  intros L Hsg Hn (Ht & Ha)%timely_ok Hdg. unfold server_turn.
  eapply wp_bind; [apply (do_update_ok b a L); [apply iclock_range|done]|].
  intros _ b1 (L1 & Hs1 & Hg1 & Ha1). destruct dg as [p|].
  2: { apply wp_ret. by rewrite Hs1, Hg1. }
  specialize (Hdg p eq_refl). destruct (take_buf a p (proj2 (l_out _ _ L)) Hdg) as (-> & Hlen).
  rewrite (proj2 (Z.ltb_lt _ _) Hlen). eapply wp_bind; [apply (do_input_ok b1 a L1); [done|lia]|].
  intros r b2 (L2 & Hs2 & Hg2). destruct (r <? 0); [apply wp_ret; by rewrite Hs2, Hg2, Hs1, Hg1|].
  eapply wp_bind; [apply (do_recv_ok b2 a L2); lia|].
  intros [r' m] b3 (L3 & Hs3 & Hg3). destruct (Z.ltb_spec r' 0).
  { apply wp_ret. destruct Hg3 as [(_ & Hg3)|(-> & _)]; [|lia]. by rewrite Hs3, Hg3, Hs2, Hg2, Hs1, Hg1. }
  destruct Hg3 as [(? & _)|(-> & Hg3 & Hm)]; [lia|].
  assert (Hsm : small m).
  { pose proof (proj2 (l_small _ _ L3)) as Hsm. rewrite Forall_forall in Hsm. apply Hsm. by eapply list_elem_of_lookup_2. }
  assert (Hlt : Z.of_nat (length (sent b3)) < 2 ^ 16).
  { apply lookup_lt_Some in Hm. rewrite Hs3, Hs2, Hs1, Hsg. rewrite Hg2, Hg1 in Hm. lia. }
  eapply wp_bind; [by apply (do_send_ok b3 a L3)|]. intros _ b4 (_ & L4 & Hs4 & Hg4 & _).
  eapply wp_bind; [apply (do_flush_ok b4 a L4)|]. intros _ b5 (L5 & Hs5 & Hg5). apply wp_ret.
  split_and!; [done|done|]. by rewrite Hs5, Hg5, Hs4, Hg4, Hg3, Hs3, Hs2, Hs1, Hsg, Hg2, Hg1.
Qed.

(** ** Objects *)

Lemma le_length n : ∀ v, length (le n v) = n.
Proof. induction n as [|n IH]; intros v; simpl; [done|]. by rewrite IH. Qed.
Lemma un_le_le n : ∀ v, un_le (le n v) = v mod 2 ^ (8 * Z.of_nat n).
Proof.
  induction n as [|n IH]; intros v; cbn [le un_le]; [by rewrite Z.mod_1_r|].
  rewrite IH. unfold u8. rewrite Z.shiftr_div_pow2 by done.
  replace (8 * Z.of_nat (S n)) with (8 + 8 * Z.of_nat n) by lia. rewrite Z.pow_add_r by lia.
  rewrite Z.rem_mul_r by lia. change (2 ^ 8) with 256. lia.
Qed.

(** Reading bytes that have been stored, and others. *)
Lemma splice_lookup d off s d' p : splice d off s = Ok d' →
  d' !! p = if decide (off ≤ Z.of_nat p < off + Z.of_nat (length s)) then s !! Z.to_nat (Z.of_nat p - off) else d !! p.
Proof.
  unfold splice. destruct (Z.leb_spec 0 off); [|done]. destruct (Z.leb_spec (off + Z.of_nat (length s)) (Z.of_nat (length d))); [|done].
  intros [= <-]. destruct (decide _) as [Hin|Hout].
  - rewrite lookup_app_r, length_take, lookup_app_l by (rewrite ?length_take; lia). f_equal. lia.
  - destruct (decide (Z.of_nat p < off)).
    + rewrite lookup_app_l, lookup_take_lt by (rewrite ?length_take; lia). done.
    + rewrite lookup_app_r, length_take, lookup_app_r, lookup_drop by (rewrite ?length_take; lia). f_equal. lia.
Qed.
Lemma slice_splice_same d off s d' : splice d off s = Ok d' → slice d' off (Z.of_nat (length s)) = Ok s.
Proof.
  intros E. pose proof (splice_length _ _ _ _ E) as Hl. unfold splice in E.
  destruct (Z.leb_spec 0 off); [|done]. destruct (Z.leb_spec (off + Z.of_nat (length s)) (Z.of_nat (length d))); [|done].
  injection E as <-. rewrite slice_ok by lia. rewrite Nat2Z.id, drop_app_length' by (rewrite length_take; lia).
  by rewrite take_app_length.
Qed.
Lemma slice_splice_other d off s d' o n : splice d off s = Ok d' → o + n ≤ off ∨ off + Z.of_nat (length s) ≤ o →
  slice d' o n = slice d o n.
Proof.
  intros E Ho. pose proof (splice_length _ _ _ _ E) as Hl. unfold slice. rewrite Hl.
  destruct (Z.leb_spec 0 o), (Z.leb_spec 0 n), (Z.leb_spec (o + n) (Z.of_nat (length d))); cbn [andb]; try done.
  f_equal. apply list_eq. intros i. destruct (decide (i < Z.to_nat n)%nat).
  - rewrite !lookup_take_lt, !lookup_drop by done. rewrite (splice_lookup _ _ _ _ _ E), decide_False by lia. done.
  - by rewrite !lookup_take_ge by lia.
Qed.

Definition is_obj (o : list Z) : Prop := Z.of_nat (length o) = obj_size.
Lemma splice_some d off s : 0 ≤ off → off + Z.of_nat (length s) ≤ Z.of_nat (length d) → ∃ d', splice d off s = Ok d'.
Proof. intros. unfold splice. rewrite !(proj2 (Z.leb_le _ _)) by lia. cbn [andb]. eauto. Qed.
Lemma splice_obj d off s d' : is_obj d → splice d off s = Ok d' → is_obj d'.
Proof. unfold is_obj. intros Hd E. by rewrite (splice_length _ _ _ _ E). Qed.
Lemma splice_all d s : length s = length d → splice d 0 s = Ok s.
Proof. intros Hl. rewrite splice_over by lia. by rewrite drop_ge, app_nil_r by lia. Qed.

Lemma i64_small z : - 2 ^ 63 ≤ z < 2 ^ 63 → i64 z = z.
Proof. intros. unfold i64. rewrite Z.mod_small; lia. Qed.
Lemma i64_le t : 0 ≤ t < 2 ^ 48 → i64 (un_le (le 8 t)) = t.
Proof. intros Ht. rewrite un_le_le. change (8 * Z.of_nat 8) with 64. rewrite Z.mod_small by lia. apply i64_small. lia. Qed.

Lemma stamp_ok o (i : nat) tv : is_obj o → Z.of_nat i < 2 ^ 16 → sane tv = true → ∃ d,
  delay_set_seqno_send_time o (Z.of_nat i) tv = Ok d ∧ is_obj d ∧
  seqno_of d = Ok (Z.of_nat i) ∧ send_time_of d = Ok (iclock64 tv).
Proof.
  intros Ho Hi Ht. unfold sane in Ht. rewrite andb_true_iff, Z.leb_le, Z.ltb_lt in Ht.
  destruct (splice_some o 0 (le 2 (Z.of_nat i))) as (o1 & E1); [lia|by rewrite le_length; rewrite Ho|].
  destruct (splice_some o1 8 (le 8 (iclock64 tv))) as (d & E2);
    [lia|rewrite le_length, (splice_length _ _ _ _ E1), Ho; unfold obj_size, DELAY_BODY_SIZE; lia|].
  exists d. unfold delay_set_seqno_send_time. rewrite E1, ok_bind. split; [done|]. split; [by eapply splice_obj, E2; eapply splice_obj, E1|].
  unfold seqno_of, send_time_of. split.
  - rewrite (slice_splice_other _ _ _ _ 0 2 E2) by lia. apply slice_splice_same in E1. rewrite le_length in E1.
    change (Z.of_nat 2) with 2 in E1. rewrite E1, ok_bind, un_le_le. f_equal. apply Z.mod_small. simpl Z.of_nat. lia.
  - apply slice_splice_same in E2. rewrite le_length in E2. change (Z.of_nat 8) with 8 in E2.
    by rewrite E2, ok_bind, i64_le.
Qed.

Lemma recv_time_ok d t : is_obj d → 0 ≤ t < 2 ^ 48 → ∃ o, splice d 16 (le 8 t) = Ok o ∧ is_obj o ∧
  seqno_of o = seqno_of d ∧ send_time_of o = send_time_of d ∧ recv_time_of o = Ok t.
Proof.
  intros Hd Ht. destruct (splice_some d 16 (le 8 t)) as (o & E);
    [lia|rewrite le_length, Hd; unfold obj_size, DELAY_BODY_SIZE; lia|].
  exists o. split; [done|]. split; [by eapply splice_obj|]. unfold seqno_of, send_time_of, recv_time_of.
  rewrite !(slice_splice_other _ _ _ _ _ _ E) by (rewrite ?le_length; lia). split_and!; [done|done|].
  apply slice_splice_same in E. rewrite le_length in E. change (Z.of_nat 8) with 8 in E. by rewrite E, ok_bind, i64_le.
Qed.

(** ** The client *)

(** What has been read and sent fits where [delay_test2] is. *)
Definition place_ok (n : nat) (C : client) (nsent : nat) : Prop :=
  match at_ C with
  | Sending => nsent = idx C ∧ (idx C ≤ n ∧ recv_objs C ≤ idx C)%nat
  | Waiting => nsent = n ∧ idx C = recv_objs C ∧ (idx C ≤ n)%nat
  | Finished => nsent = n ∧ recv_objs C = n
  | Failed => False
  end.
Record client_ok (n : nat) (C : client) (a : peer) : Prop := ClientOk {
  c_objs : length (objs C) = n ∧ Forall is_obj (objs C);
  c_sent : Forall is_obj (sent a);
  c_stamps : length (stamps C) = length (sent a) ∧ ∀ j d t, sent a !! j = Some d → stamps C !! j = Some t →
    0 ≤ t < 2 ^ 48 ∧ seqno_of d = Ok (Z.of_nat j) ∧ send_time_of d = Ok t;
  c_takes : length (takes C) = recv_objs C ∧ Forall (λ t, 0 ≤ t < 2 ^ 48) (takes C);
  c_slots : length (slots C) = recv_objs C ∧ ∀ j i, slots C !! j = Some i → (j ≤ i < n)%nat;
  c_got : length (got a) = recv_objs C;
  c_place : place_ok n C (length (sent a));
  c_rows : ∀ j d t, slots C !! j = Some j → sent a !! j = Some d → takes C !! j = Some t →
    ∃ o, objs C !! j = Some o ∧ splice d 16 (le 8 t) = Ok o
}.

Lemma client_ok_same n C a a' : sent a' = sent a → got a' = got a → client_ok n C a → client_ok n C a'.
Proof. intros Hs Hg [H1 H2 H3 H4 H5 H6 H7 H8]. split; rewrite ?Hs, ?Hg; done. Qed.

(** A reply is the object with the next number. *)
Lemma reply_obj a b d : linked a b → sent b = got b → sent b !! length (got a) = Some d → sent a !! length (got a) = Some d.
Proof.
  intros L Hsg Hd. pose proof (linked_got b a (linked_sym _ _ L)) as (r & Hr).
  rewrite Hr, <-Hsg. by apply lookup_app_l_Some.
Qed.

(** Storing the next reply, [m]. *)
Lemma store_reply n C i p a m tv : let next := go C i p in
  client_ok n next a → (recv_objs C ≤ idx C < n)%nat → at_ C = p → i = idx C ∧ idx C = recv_objs C ∧ p = Waiting ∨ i = S (idx C) ∧ p = Sending →
  sane tv = true → sent a !! recv_objs C = Some m → ∃ l,
  (o ← aget (objs C) (Z.of_nat (idx C)); o ← splice o 0 m; l ← aset (objs C) (Z.of_nat (idx C)) o;
   o ← aget l (Z.of_nat (recv_objs C)); o ← delay_set_recv_time o tv;
   aset l (Z.of_nat (recv_objs C)) o) = Ok l ∧
  ∀ a', sent a' = sent a → got a' = got a ++ [m] →
    client_ok n (Client l (S (recv_objs C)) (S (idx C)) (at_ C) (stamps C) (takes C ++ [iclock64 tv]) (slots C ++ [idx C])) a'.
Proof.
  intros next [(H1 & H1') H2 H3 (H4 & H4') (H5 & H5') H6 H7 H8] Hi Hp Hnext Ht Hm. subst next. cbn [go objs recv_objs idx at_ stamps takes slots] in *.
  unfold sane in Ht. rewrite andb_true_iff, Z.leb_le, Z.ltb_lt in Ht.
  assert (Hmo : is_obj m) by (rewrite Forall_forall in H2; eapply H2, list_elem_of_lookup_2, Hm).
  destruct (lookup_lt_is_Some_2 (objs C) (idx C)) as (o & Ho); [lia|].
  assert (Hoo : is_obj o) by (rewrite Forall_forall in H1'; eapply H1', list_elem_of_lookup_2, Ho).
  rewrite (aget_ok _ _ _ Ho), ok_bind, splice_all, ok_bind by (unfold is_obj in *; lia).
  rewrite aset_nat, ok_bind by lia. set (l := <[idx C := m]> (objs C)).
  assert (Hl : length l = n) by (unfold l; by rewrite length_insert).
  assert (Hlo : Forall is_obj l) by (by apply Forall_insert).
  destruct (lookup_lt_is_Some_2 l (recv_objs C)) as (o1 & Ho1); [lia|].
  rewrite (aget_ok _ _ _ Ho1), ok_bind.
  assert (Ho1o : is_obj o1) by (rewrite Forall_forall in Hlo; eapply Hlo, list_elem_of_lookup_2, Ho1).
  destruct (recv_time_ok o1 (iclock64 tv) Ho1o Ht) as (o2 & Eo2 & Ho2 & _). unfold delay_set_recv_time. rewrite Eo2, ok_bind.
  rewrite aset_nat by lia. eexists. split; [done|]. intros a' Hs Hg.
  split; cbn [objs recv_objs idx at_ stamps takes slots]; rewrite ?Hs, ?Hg, ?length_app; try done.
  - rewrite length_insert. split; [done|]. by apply Forall_insert.
  - split; [simpl; lia|]. apply Forall_app. split; [done|by constructor].
  - split; [simpl; lia|]. intros j i' Hj. apply lookup_app_Some in Hj as [Hj|(Hj & Hj')]; [by apply H5'|].
    apply list_lookup_singleton_Some in Hj' as (? & <-). lia.
  - simpl. lia.
  - unfold place_ok in *. cbn [go at_ idx recv_objs] in *. destruct Hnext as [(-> & ? & ->)|(-> & ->)]; rewrite Hp; lia.
  - intros j d t Hj Hd Htk. assert (j ≤ recv_objs C)%nat as Hle.
    { apply lookup_lt_Some in Hj. rewrite length_app in Hj. simpl in Hj. lia. }
    destruct (decide (j = recv_objs C)) as [->|Hne].
    + rewrite lookup_app_r, H5, Nat.sub_diag in Hj by lia. rewrite lookup_app_r, H4, Nat.sub_diag in Htk by lia.
      injection Hj as Hj. injection Htk as <-. rewrite Hm in Hd. injection Hd as <-. exists o2.
      rewrite list_lookup_insert_eq by lia. split; [done|]. unfold l in Ho1. rewrite Hj in Ho1.
      rewrite list_lookup_insert_eq in Ho1 by lia. by injection Ho1 as <-.
    + rewrite lookup_app_l in Hj by lia. rewrite lookup_app_l in Htk by lia.
      destruct (H8 j d t Hj Hd Htk) as (o' & Ho' & E'). exists o'. split; [|done].
      unfold l. by rewrite !list_lookup_insert_ne by lia.
Qed.

Lemma take_reply_ok n C i p a b tv dg : let next := go C i p in
  linked a b → sent b = got b → client_ok n next a → (recv_objs C ≤ idx C < n)%nat → at_ C = p →
  i = idx C ∧ idx C = recv_objs C ∧ p = Waiting ∨ i = S (idx C) ∧ p = Sending →
  sane tv = true → Z.of_nat (length (acklist (rx (kcp a)))) < 2 ^ 30 → (∀ d, dg = Some d → d ∈ out b) →
  wp (take_reply tv dg C next) (λ C' a', linked a' b ∧ sent a' = sent a ∧ client_ok n C' a') a.
Proof.
  intros next L Hsg HC Hi Hp Hnext Ht Ha Hdg. destruct dg as [d|]; [|by apply wp_ret]. unfold take_reply.
  specialize (Hdg d eq_refl). destruct (take_buf b d (proj2 (l_out _ _ L)) Hdg) as (-> & _).
  eapply wp_bind; [by apply (do_input_ok a b L)|]. intros r a1 (L1 & Hs1 & Hg1).
  destruct (r <? 0). { apply wp_ret. split_and!; [done|done|]. by apply (client_ok_same n next a). }
  eapply wp_bind; [by apply (do_recv_ok a1 b L1)|]. intros [r' m] a2 (L2 & Hs2 & Hg2).
  assert (Hs : sent a2 = sent a) by (by rewrite Hs2). destruct (Z.ltb_spec r' 0).
  { apply wp_ret. split_and!; [done|done|]. apply (client_ok_same n next a); [done| |done].
    destruct Hg2 as [(_ & ->)|(-> & _)]; [done|lia]. }
  destruct Hg2 as [(? & _)|(-> & Hg2 & Hm)]; [lia|]. rewrite Hg1 in Hm, Hg2.
  assert (Hmine : sent a !! recv_objs C = Some m).
  { rewrite <-(c_got _ _ _ HC : length (got a) = recv_objs C). by apply (reply_obj a b). }
  destruct (store_reply n C i p a m tv HC Hi Hp Hnext Ht Hmine) as (l & El & Hl).
  eapply wp_bind; [by apply (wp_lift _ _ (λ l' x, l' = l ∧ x = a2) _ El)|]. intros _ _ (-> & ->). apply wp_ret.
  assert (Hmo : is_obj m).
  { pose proof (c_sent _ _ _ HC) as Hall. rewrite Forall_forall in Hall. eapply Hall, list_elem_of_lookup_2, Hmine. }
  rewrite Hmo, Z.eqb_refl. split_and!; [done|done|]. by apply Hl.
Qed.

(** Sending the next object, [d]. *)
Definition stamped_client (C : client) (d : list Z) (t : Z) : client :=
  Client (<[idx C := d]> (objs C)) (recv_objs C) (idx C) Sending (stamps C ++ [t]) (takes C) (slots C).
Lemma send_object n C a a' d t : at_ C = Sending → client_ok n C a → (idx C < n)%nat → is_obj d →
  seqno_of d = Ok (Z.of_nat (idx C)) → send_time_of d = Ok t → 0 ≤ t < 2 ^ 48 →
  sent a' = sent a ++ [d] → got a' = got a → client_ok n (go (stamped_client C d t) (S (idx C)) Sending) a'.
Proof.
  intros Hat [(K1 & K1') K2 (K3 & K3') K4 (K5 & K5') K6 K7 K8] Hi Hd Hdn Hdt Ht Hs Hg. unfold place_ok in K7. rewrite Hat in K7.
  destruct K7 as (Hp1 & Hp2 & Hp3).
  split; cbn [stamped_client go objs recv_objs idx at_ stamps takes slots]; rewrite ?Hs, ?Hg, ?length_app; try done.
  - rewrite length_insert. split; [done|]. by apply Forall_insert.
  - apply Forall_app. split; [done|by constructor].
  - simpl. split; [lia|]. intros j e x He Hj. destruct (decide (j = length (sent a))) as [->|Hne].
    + rewrite lookup_app_r, Nat.sub_diag in He by lia. rewrite lookup_app_r, K3, Nat.sub_diag in Hj by lia.
      injection He as <-. injection Hj as <-. by rewrite Hp1.
    + apply lookup_app_Some in He as [He|(? & [? _]%list_lookup_singleton_Some)]; [|lia].
      pose proof (lookup_lt_Some _ _ _ He). rewrite lookup_app_l in Hj by lia. by apply K3'.
  - unfold place_ok. simpl. lia.
  - intros j e x Hj He Hjt. pose proof (lookup_lt_Some _ _ _ Hj). rewrite lookup_app_l in He by lia.
    destruct (K8 j e x Hj He Hjt) as (o' & Ho' & E'). exists o'. split; [|done]. by rewrite list_lookup_insert_ne by lia.
Qed.

Lemma go_place n C a i p : client_ok n C a → place_ok n (go C i p) (length (sent a)) → client_ok n (go C i p) a.
Proof. intros [H1 H2 H3 H4 H5 H6 H7 H8] Hp. by split. Qed.

(** Rounds of the two loops of [delay_test2]. *)
Section client_turns.
Context (n : nat) (C : client) (a b : peer) (tv0 tv1 tv2 : timeval) (dg : option (list Z)).
Context (L : linked a b) (Hsg : sent b = got b) (HC : client_ok n C a) (Hn : Z.of_nat n ≤ 2 ^ 16).
Context (Ht : timely a tv1 = true) (H0 : sane tv0 = true) (H2 : sane tv2 = true) (Hdg : ∀ d, dg = Some d → d ∈ out b).

Definition client_post (C' : client) (a' : peer) : Prop :=
  linked a' b ∧ sent a `prefix_of` sent a' ∧ client_ok n C' a'.

Lemma sending_turn_ok : at_ C = Sending → (idx C < n)%nat → wp (client_turn n tv0 tv1 tv2 dg C) client_post a.
Proof.
  intros Hat Hi. pose proof (c_place _ _ _ HC) as Hp. destruct (timely_ok _ _ Ht) as (Hel & Ha).
  unfold client_turn, place_ok in *. rewrite Hat in *. rewrite decide_True by done. destruct Hp as (Hp1 & Hp2 & Hp3).
  destruct (c_objs _ _ _ HC) as (Hl & Hlo). destruct (lookup_lt_is_Some_2 (objs C) (idx C)) as (o & Ho); [lia|].
  assert (Hoo : is_obj o) by (rewrite Forall_forall in Hlo; eapply Hlo, list_elem_of_lookup_2, Ho).
  destruct (stamp_ok o (idx C) tv0 Hoo) as (d & Ed & Hd & Hdn & Hdt); [lia|done|].
  eapply wp_bind; [apply (wp_lift _ d (λ d' x, d' = d ∧ x = a)); [by rewrite (aget_ok _ _ _ Ho), ok_bind|done]|].
  intros _ _ (-> & ->). eapply wp_bind; [apply (wp_lift _ (<[idx C := d]> (objs C)) (λ l x, l = <[idx C := d]> (objs C) ∧ x = a));
    [by rewrite aset_nat by lia|done]|]. intros _ _ (-> & ->).
  eapply wp_bind; [apply (do_send_ok a b L); [unfold small, is_obj, obj_size, DELAY_BODY_SIZE in *; lia|lia]|].
  intros _ a1 (-> & L1 & Hs1 & Hg1 & Ho1 & Hck1 & Hrx1). change (0 <? 0) with false. cbv iota.
  eapply wp_bind; [apply (do_update_ok a1 b L1); [apply iclock_range|unfold now_of, time_of in *; by rewrite Hck1, Ho1]|].
  intros _ a2 (L2 & Hs2 & Hg2 & Ha2). rewrite Hrx1 in Ha2. unfold sane in H0. rewrite andb_true_iff, Z.leb_le, Z.ltb_lt in H0.
  assert (HC2 : client_ok n (go (stamped_client C d (iclock64 tv0)) (S (idx C)) Sending) a2).
  { apply (send_object n C a a2); try done; [by rewrite Hs2, Hs1|by rewrite Hg2, Hg1]. }
  eapply wp_mono; [apply (take_reply_ok n (stamped_client C d (iclock64 tv0)) (S (idx C)) Sending a2 b tv2 dg L2 Hsg HC2);
    [simpl; lia|done|by right|done|lia|done]|].
  intros C' a' (L' & Hs' & HC'). split_and!; [done| |done]. rewrite Hs', Hs2, Hs1. by apply prefix_app_r.
Qed.

Lemma waiting_turn_ok : at_ C = Waiting → (idx C < n)%nat → wp (client_turn n tv0 tv1 tv2 dg C) client_post a.
Proof.
  intros Hat Hi. pose proof (c_place _ _ _ HC) as Hp. destruct (timely_ok _ _ Ht) as (Hel & Ha).
  unfold client_turn, place_ok in *. rewrite Hat in *. rewrite decide_True by done.
  eapply wp_bind; [apply (do_update_ok a b L); [apply iclock_range|done]|]. intros _ a1 (L1 & Hs1 & Hg1 & Ha1).
  assert (Eg : go C (idx C) Waiting = C) by (unfold go; rewrite <-Hat; by destruct C).
  assert (HC1 : client_ok n (go C (idx C) Waiting) a1) by (rewrite Eg; by apply (client_ok_same n _ a)).
  rewrite <-Eg at 2. eapply wp_mono;
    [apply (take_reply_ok n C (idx C) Waiting a1 b tv2 dg L1 Hsg HC1); [lia|done|left; tauto|done|lia|done]|].
  intros C' a' (L' & Hs' & HC'). split_and!; [done| |done]. by rewrite Hs', Hs1.
Qed.

Lemma client_turn_ok : wp (client_turn n tv0 tv1 tv2 dg C) client_post a.
Proof.
  pose proof (c_place _ _ _ HC) as Hp. unfold place_ok in Hp. destruct (at_ C) eqn:Hat; [| | |done].
  - destruct (decide (idx C < n)%nat) as [Hi|Hi]; [by apply sending_turn_ok|].
    unfold client_turn. rewrite Hat, decide_False by done. apply wp_ret. split_and!; [done|done|].
    apply go_place; [done|]. unfold place_ok. simpl. lia.
  - destruct (decide (idx C < n)%nat) as [Hi|Hi]; [by apply waiting_turn_ok|].
    unfold client_turn. rewrite Hat, decide_False by done.
    eapply wp_bind; [apply (do_flush_ok a b L)|]. intros _ a1 (L1 & Hs1 & Hg1). apply wp_ret.
    split_and!; [done|by rewrite Hs1|]. apply (client_ok_same n _ a); [done|done|].
    apply go_place; [done|]. unfold place_ok. simpl. lia.
  - unfold client_turn. rewrite Hat. by apply wp_ret.
Qed.
End client_turns.

(** ** The system *)

Record sys_ok (n : nat) (s : sys) : Prop := SysOk {
  k_linked : linked (ca s) (sb s);
  k_echo : sent (sb s) = got (sb s);
  k_client : client_ok n (cl s) (ca s);
  k_up : up s = true
}.

Lemma linked_start oa ob : linked (Peer (client_kcp true) oa [] [] []) (Peer (server_kcp true) ob [] [] []).
Proof.
  pose proof (start_linked 1 oa ob ltac:(lia)) as HI. simpl in HI.
  apply (tune_inv 1 _ _ 0 10 0 0 128 128) in HI; [|unfold limit; lia].
  apply inv_sym, (tune_inv 1 _ _ 0 10 0 0 128 128), inv_sym in HI; [|unfold limit; lia].
  split; [exact HI|done..].
Qed.

Lemma now_of_start K o : updated (ck K) = 0 → now_of (Peer K o [] [] []) = -1.
Proof. intros Hu. unfold now_of, time_of. simpl. by rewrite Hu. Qed.

Lemma begins_ok mem oa ob ta tb : Forall is_obj mem →
  elapsed oa (iclock ta) < time_limit → elapsed ob (iclock tb) < time_limit →
  ∃ s, begins mem oa ob ta tb = Ok s ∧ sys_ok (length mem) s.
Proof.
  intros Hmem Ha Hb. pose proof (elapsed_range oa (iclock ta)). pose proof (elapsed_range ob (iclock tb)).
  pose proof (linked_start oa ob) as L. unfold begins, server_begin, client_begin.
  destruct (do_update_ok _ _ (linked_sym _ _ L) (iclock tb)) as ([] & b & -> & Lb & Hs & Hg & _);
    [apply iclock_range|rewrite now_of_start by done; cbn [origin]; lia|].
  rewrite ok_bind.
  destruct (do_update_ok _ _ (linked_sym _ _ Lb) (iclock ta)) as ([] & a & -> & La & Hs' & Hg' & _);
    [apply iclock_range|rewrite now_of_start by done; cbn [origin]; lia|].
  rewrite ok_bind. eexists. split; [done|]. cbn [sent got] in *.
  split; cbn [ca sb cl up]; [done|by rewrite Hs, Hg| |done].
  split; cbn [client_start objs recv_objs idx at_ stamps takes slots]; rewrite ?Hs', ?Hg'; try done.
  unfold place_ok. simpl. lia.
Qed.

Lemma turn_ok n s e : sys_ok n s → Z.of_nat n ≤ 2 ^ 16 → allowed e s = true → ∃ s', turn n e s = Ok s' ∧ sys_ok n s'.
Proof.
  intros [L Hsg HC Hup] Hn. destruct e as [tv0 tv1 tv2 dg|tv dg]; unfold allowed, turn; rewrite ?andb_true_iff.
  - intros (((Ht & H0) & H2) & _).
    destruct (client_turn_ok n (cl s) (ca s) (sb s) tv0 tv1 tv2 (deliver (sb s) dg) L Hsg HC Hn Ht H0 H2) as (C' & a' & -> & L' & Hpre & HC').
    { intros d Hd. by eapply deliver_ok. }
    rewrite ok_bind. eexists. split; [done|]. by split.
  - intros (Ht & _). rewrite Hup.
    assert (Hsn : Z.of_nat (length (sent (ca s))) ≤ 2 ^ 16).
    { pose proof (c_place _ _ _ HC) as Hp. unfold place_ok in Hp. destruct (at_ (cl s)); [lia..|done]. }
    destruct (server_turn_ok (ca s) (sb s) tv (deliver (ca s) dg) (linked_sym _ _ L) Hsg Hsn Ht) as (u & b' & -> & -> & L' & Hsg').
    { intros d Hd. by eapply deliver_ok. }
    rewrite ok_bind. eexists. split; [done|]. split; [by apply linked_sym|done| |done].
    exact HC.
Qed.

Lemma runs_ok n s : runs n s → Z.of_nat n ≤ 2 ^ 16 ∧ sys_ok n s.
Proof.
  intros (mem & oa & ob & ta & tb & s0 & <- & Hmem & Hn & Ha & Hb & Hs0 & Hs). split; [done|].
  destruct (begins_ok mem oa ob ta tb) as (s0' & E & HS); [done..|]. rewrite Hs0 in E. injection E as <-.
  clear Hs0. induction Hs as [s|s s1 s' (e & Hal & He) _ IH]; [done|]. apply IH.
  destruct (turn_ok (length mem) s e HS Hn Hal) as (s1' & E & HS'). rewrite He in E. by injection E as <-.
Qed.

(** ** Main theorems *)

(** C29: Whatever the network loses, repeats or reorders, and whenever the programs run: the client
    gets back the first of the objects it sent, in order and each once, and the server has sent
    back exactly what it was given. *)
Theorem replies_in_order n s : runs n s →
  got (ca s) `prefix_of` sent (ca s) ∧ sent (sb s) = got (sb s) ∧ got (sb s) `prefix_of` sent (ca s) ∧
  ∀ j d, sent (ca s) !! j = Some d → seqno_of d = Ok (Z.of_nat j).
Proof.
  intros Hr. destruct (runs_ok n s Hr) as (_ & [L Hsg HC Hup]).
  pose proof (linked_got _ _ (linked_sym _ _ L)) as Hb. pose proof (linked_got _ _ L) as Ha. rewrite Hsg in Ha.
  split_and!; [by etrans|done|done|]. intros j d Hd. destruct (c_stamps _ _ _ HC) as (Hl & Hst).
  destruct (lookup_lt_is_Some_2 (stamps (cl s)) j) as (t & Ht); [apply lookup_lt_Some in Hd; lia|].
  by destruct (Hst j d t Hd Ht) as (_ & ? & _).
Qed.

(** Every turn of either program returns, without a fault; the client never takes one of the exits
    for errors, and the server goes on. *)
Theorem turns_return n s e : runs n s → allowed e s = true →
  ∃ s', turn n e s = Ok s' ∧ at_ (cl s') ≠ Failed ∧ up s' = true.
Proof.
  intros Hr Hal. destruct (runs_ok n s Hr) as (Hn & HS). destruct (turn_ok n s e HS Hn Hal) as (s' & E & [_ _ HC Hup]).
  exists s'. split_and!; [done| |done]. intros Hf. pose proof (c_place _ _ _ HC) as Hp. unfold place_ok in Hp. by rewrite Hf in Hp.
Qed.

Lemma row_printed n s j : sys_ok n s → slots (cl s) !! j = Some j → ∃ o t t', objs (cl s) !! j = Some o ∧
  stamps (cl s) !! j = Some t ∧ takes (cl s) !! j = Some t' ∧ print_row o = Ok (Z.of_nat j, t' - t).
Proof.
  intros [L Hsg HC _] Hj. destruct HC as [C1 C2 (C3 & C3') (C4 & C4') (C5 & C5') C6 C7 C8].
  assert (Hlt : (j < recv_objs (cl s))%nat) by (apply lookup_lt_Some in Hj; lia).
  destruct (lookup_lt_is_Some_2 (takes (cl s)) j) as (t' & Ht'); [lia|].
  assert (Hd : is_Some (sent (ca s) !! j)).
  { pose proof (linked_got _ _ L) as (r & E). rewrite Hsg in E. pose proof (linked_got _ _ (linked_sym _ _ L)) as (r' & E').
    apply lookup_lt_is_Some_2. rewrite E', E, !length_app. lia. }
  destruct Hd as (d & Hd). destruct (lookup_lt_is_Some_2 (stamps (cl s)) j) as (t & Ht); [apply lookup_lt_Some in Hd; lia|].
  destruct (C3' j d t Hd Ht) as (Ht0 & Hn & Hst). destruct (C8 j d t' Hj Hd Ht') as (o & Ho & E).
  assert (Ht'0 : 0 ≤ t' < 2 ^ 48) by (rewrite Forall_forall in C4'; eapply C4', list_elem_of_lookup_2, Ht').
  assert (Hdo : is_obj d) by (rewrite Forall_forall in C2; eapply C2, list_elem_of_lookup_2, Hd).
  destruct (recv_time_ok d t' Hdo Ht'0) as (o' & E' & _ & H1 & H2 & H3). rewrite E in E'. injection E' as <-.
  exists o, t, t'. split_and!; [done..|]. unfold print_row. rewrite H1, Hn, ok_bind, H3, ok_bind, H2, Hst, ok_bind.
  unfold long. by rewrite (proj2 (Z.leb_le _ _)), (proj2 (Z.ltb_lt _ _)) by lia.
Qed.

(** C30: When the reply to an object was taken in the round with the object's own number, its row says
    its number and the time from its stamp to its reply.  So with one object, as compiled, what
    [delay_print_rtt_time] prints is right. *)
Theorem rtt_measured n s : runs n s →
  (∀ j, slots (cl s) !! j = Some j → ∃ o t t', objs (cl s) !! j = Some o ∧
     stamps (cl s) !! j = Some t ∧ takes (cl s) !! j = Some t' ∧ print_row o = Ok (Z.of_nat j, t' - t)) ∧
  (n = DELAY_TEST2_N → at_ (cl s) = Finished → ∃ t t', stamps (cl s) = [t] ∧ takes (cl s) = [t'] ∧
     delay_print_rtt_time (objs (cl s)) n = Ok [(0, t' - t)]).
Proof.
  intros Hr. destruct (runs_ok n s Hr) as (_ & HS). split; [intros j; by apply row_printed with n|].
  unfold DELAY_TEST2_N. intros -> Hf. pose proof (k_client _ _ HS) as [C1 C2 (C3 & C3') (C4 & C4') (C5 & C5') C6 C7 C8].
  unfold place_ok in C7. rewrite Hf in C7. destruct C7 as (Hn & Hrec). rewrite Hn in C3. rewrite Hrec in *.
  assert (Hj : slots (cl s) !! 0%nat = Some 0%nat).
  { destruct (slots (cl s)) as [|i l] eqn:E; [done|]. specialize (C5' 0%nat i eq_refl). simpl. f_equal. lia. }
  destruct (row_printed 1 s 0 HS Hj) as (o & t & t' & Ho & Ht & Ht' & E). exists t, t'.
  destruct (stamps (cl s)) as [|? [|]], (takes (cl s)) as [|? [|]]; try done. injection Ht as ->. injection Ht' as ->.
  split_and!; [done|done|]. cbn [delay_print_rtt_time]. by rewrite ok_bind, (aget_ok _ 0 _ Ho), ok_bind, E.
Qed.

(** ** Silence *)

(** An end with nothing to send, to acknowledge or to ask. *)
Definition quiet (K : ikcpcb) : bool :=
  match snd_queue (tx K), snd_buf (tx K), acklist (rx K) with
  | [], [], [] => (probe (cc K) =? 0) && negb (rmt_wnd (cc K) =? 0)
  | _, _, _ => false
  end.

Lemma quiet_control K t : quiet K = true → flush_control K (probe_window t (cc K)) = [].
Proof.
  unfold quiet, flush_control, probe_window. destruct (snd_queue (tx K)), (snd_buf (tx K)), (acklist (rx K)); try done.
  rewrite andb_true_iff, Z.eqb_eq, negb_true_iff. intros (Hp & ->). cbn [last default]. cbv iota. cbn [probe]. by rewrite Hp.
Qed.

Lemma quiet_flush K : quiet K = true → ∃ K', ikcp_flush K = Ok ([], K') ∧ quiet K' = true.
Proof.
  intros HQ. unfold ikcp_flush. destruct (updated (ck K) =? 0); [eauto|]. rewrite quiet_control by done. cbn [put_segs]. rewrite ok_bind.
  unfold quiet in HQ. destruct K as [c [una nxt q buf nq nb] R C k]. cbn [tx rx cc ck cf snd_queue snd_buf] in *.
  destruct q; [|done]. destruct buf; [|done]. destruct (acklist R); [|done].
  cbv zeta. cbn [tx with_cc with_rx with_tx snd_buf snd_queue move_queue flush_data cc]. rewrite ok_bind. cbv beta iota.
  eexists. split; [reflexivity|]. unfold quiet, shrink_cwnd. cbn [tx rx cc with_cc with_tx with_rx snd_queue snd_buf acklist lost change negb Z.eqb].
  assert (Hw : rmt_wnd (probe_window (current k) C) = rmt_wnd C).
  { pose proof (probe_window_times (current k) C) as Ht. unfold times in Ht. by injection Ht. }
  cbv iota. destruct (if cwnd _ <? 1 then _ else _) as [cw i]. cbn [probe rmt_wnd with_xmit with_probe Z.eqb andb].
  rewrite Hw. by apply andb_true_iff in HQ as (_ & ->).
Qed.

Lemma quiet_update K t : quiet K = true → ∃ K', ikcp_update K t = Ok ([], K') ∧ quiet K' = true.
Proof.
  intros HQ. unfold ikcp_update. destruct (if _ || _ then _ else _) as [f sl]. destruct (0 <=? sl); [|eauto].
  by apply quiet_flush.
Qed.

(** Turns of programs to which no datagram comes. *)
Definition undelivered (n : nat) (s s' : sys) : Prop :=
  (∃ tv0 tv1 tv2, turn n (Client_turn tv0 tv1 tv2 None) s = Ok s') ∨ (∃ tv, turn n (Server_turn tv None) s = Ok s').
Definition stuck (n : nat) (s : sys) : bool :=
  quiet (kcp (ca s)) && quiet (kcp (sb s)) && bool_decide (at_ (cl s) = Waiting) && bool_decide (idx (cl s) < n)%nat.

Lemma quiet_turn x t : quiet (kcp x) = true → ∃ K', do_update t x = Ok ((), Peer K' (origin x) (sent x) (got x) (out x)) ∧ quiet K' = true.
Proof.
  intros HQ. destruct (quiet_update (kcp x) t HQ) as (K' & E & HQ'). exists K'. unfold do_update. rewrite E. cbn. by rewrite app_nil_r.
Qed.

Lemma stuck_step n s s' : stuck n s = true → undelivered n s s' →
  stuck n s' = true ∧ cl s' = cl s ∧ out (ca s') = out (ca s) ∧ out (sb s') = out (sb s).
Proof.
  unfold stuck. rewrite !andb_true_iff, !bool_decide_eq_true. intros (((Ha & Hb) & Hat) & Hi) [(tv0 & tv1 & tv2 & E)|(tv & E)].
  - unfold turn, client_turn in E. rewrite Hat, decide_True in E by done. cbn [deliver] in E.
    destruct (quiet_turn (ca s) (iclock tv1) Ha) as (K' & E' & HQ). unfold mbind at 2, M_bind in E. cbn in E.
    rewrite E' in E. cbn in E. injection E as <-. by split_and!.
  - unfold turn, server_turn in E. destruct (up s); [|injection E as <-; by split_and!]. cbn [deliver] in E.
    destruct (quiet_turn (sb s) (iclock tv) Hb) as (K' & E' & HQ). unfold mbind at 2, M_bind in E. cbn in E.
    rewrite E' in E. cbn in E. injection E as <-. by split_and!.
Qed.

Lemma stuck_forever n s s' : stuck n s = true → rtc (undelivered n) s s' →
  at_ (cl s') = Waiting ∧ cl s' = cl s ∧ out (ca s') = out (ca s) ∧ out (sb s') = out (sb s).
Proof.
  intros HS Hs. induction Hs as [s|s s1 s' H1 _ IH].
  - unfold stuck in HS. rewrite !andb_true_iff, !bool_decide_eq_true in HS. split_and!; [apply HS|done..].
  - destruct (stuck_step n s s1 HS H1) as (HS1 & Ec & Ea & Eb). destruct (IH HS1) as (H & H2 & H3 & H4).
    by rewrite H2, Ec, H3, Ea, H4, Eb in *.
Qed.

(** ** Concrete runs *)

Lemma run_sys_steps n l : ∀ s s', run n l s = Ok s' → rtc (sys_step n) s s'.
Proof.
  induction l as [|e l IH]; intros s s'; cbn [run]; [intros [= ->]; apply rtc_refl|].
  destruct (allowed e s) eqn:Ha; [|done]. intros (s1 & E & Hr)%bind_ok. eapply rtc_l; [by exists e|by apply IH].
Qed.

(** Milliseconds after a moment in 2021, on both clocks; the memory is full of zeros. *)
Definition at_ms (ms : Z) : timeval := (1638000000 + ms / 1000, ms mod 1000 * 1000).
Definition zeros : list Z := replicate (Z.to_nat obj_size) 0.
Definition C_ (ms : Z) (dg : option nat) : event := Client_turn (at_ms ms) (at_ms ms) (at_ms ms) dg.
Definition S_ (ms : Z) (dg : option nat) : event := Server_turn (at_ms ms) dg.
Definition sample (n : nat) (l : list event) : res sys :=
  s ← begins (replicate n zeros) (iclock (at_ms 0)) (iclock (at_ms 0)) (at_ms 0) (at_ms 0); run n l s.

Lemma begins_runs n mem oa ob ta tb l s : length mem = n → Forall is_obj mem → Z.of_nat n ≤ 2 ^ 16 →
  elapsed oa (iclock ta) < time_limit → elapsed ob (iclock tb) < time_limit →
  (s0 ← begins mem oa ob ta tb; run n l s0) = Ok s → runs n s.
Proof.
  intros Hl Hmem Hn Ha Hb (s0 & E & Hr)%bind_ok. exists mem, oa, ob, ta, tb, s0. split_and!; try done.
  by eapply run_sys_steps.
Qed.
Lemma sample_runs n l s : Z.of_nat n ≤ 2 ^ 16 → sample n l = Ok s → runs n s.
Proof.
  intros Hn. apply begins_runs; [apply length_replicate| |exact Hn|vm_compute; reflexivity|vm_compute; reflexivity].
  apply Forall_replicate. unfold is_obj, zeros. rewrite length_replicate. reflexivity.
Qed.

Definition both (P : sys → bool) (r : res sys) : bool := match r with Ok s => P s | Err _ => false end.
Lemma sample_check n l P : Z.of_nat n ≤ 2 ^ 16 → both P (sample n l) = true → ∃ s, runs n s ∧ P s = true.
Proof. intros Hn H. destruct (sample n l) as [s|] eqn:E; [|done]. exists s. split; [by eapply sample_runs|done]. Qed.

(** One object, as compiled. *)
Definition one_object : list event :=
  [C_ 10 None; C_ 20 None; C_ 30 None; S_ 40 (Some 0%nat); C_ 50 (Some 0%nat); C_ 60 None].
Definition object_back (s : sys) : bool :=
  bool_decide (at_ (cl s) = Finished) && bool_decide (length (got (ca s)) = 1%nat) && allowed (S_ 70 (Some 1%nat)) s.
Lemma one_object_done : ∃ s, runs 1 s ∧ object_back s = true.
Proof. apply (sample_check 1 one_object object_back ltac:(lia)). vm_cast_no_check (eq_refl true). Qed.

Lemma replies_in_order_witness : ∃ s, runs 1 s ∧ length (got (ca s)) = 1%nat ∧ got (ca s) `prefix_of` sent (ca s).
Proof.
  destruct one_object_done as (s & Hr & H). unfold object_back in H. rewrite !andb_true_iff, !bool_decide_eq_true in H.
  destruct H as ((_ & Hg) & _). exists s. split; [exact Hr|]. split; [exact Hg|]. apply (replies_in_order 1 s Hr).
Defined.
Lemma turns_return_witness : ∃ s s', runs 1 s ∧ turn 1 (S_ 70 (Some 1%nat)) s = Ok s' ∧ up s' = true.
Proof.
  destruct one_object_done as (s & Hr & H). unfold object_back in H. rewrite !andb_true_iff in H. destruct H as (_ & Ha).
  destruct (turns_return 1 s _ Hr Ha) as (s' & E & _ & Hu). exists s, s'. split; [exact Hr|]. split; [exact E|exact Hu].
Defined.
Lemma rtt_measured_witness : ∃ s t t', runs DELAY_TEST2_N s ∧ delay_print_rtt_time (objs (cl s)) DELAY_TEST2_N = Ok [(0, t' - t)].
Proof.
  destruct one_object_done as (s & Hr & H). unfold object_back in H. rewrite !andb_true_iff, !bool_decide_eq_true in H. destruct H as ((Hf & _) & _).
  destruct (rtt_measured DELAY_TEST2_N s Hr) as (_ & Hp). destruct (Hp eq_refl Hf) as (t & t' & _ & _ & E).
  exists s, t, t'. split; [exact Hr|exact E].
Defined.

(** With more objects a reply that comes while later ones are sent is read into a later one, and the
    receipt of the next reply is noted in it: the second row says number 0 and 50 ms, the time from
    the first stamp to the second reply. *)
Definition four_objects : list event :=
  [C_ 10 None; S_ 20 (Some 0%nat); C_ 30 (Some 0%nat); C_ 40 None; S_ 50 (Some 1%nat); C_ 60 (Some 1%nat); C_ 70 None;
   S_ 80 (Some 2%nat); C_ 80 (Some 2%nat); C_ 81 None; S_ 90 (Some 3%nat); C_ 95 (Some 3%nat); C_ 96 None].
Definition mixed_up (s : sys) : bool :=
  bool_decide (at_ (cl s) = Finished) && bool_decide (to_server s = [0; 1; 2; 3]%nat) &&
  bool_decide (to_client s = [0; 1; 2; 3]%nat) && bool_decide (stamps (cl s) !! 1%nat = Some (iclock64 (at_ms 30))) &&
  bool_decide (takes (cl s) !! 1%nat = Some (iclock64 (at_ms 60))) &&
  match delay_print_rtt_time (objs (cl s)) 4 with Ok l => bool_decide (l = [(0, 20); (0, 50); (2, 40); (3, 35)]) | Err _ => false end.
Lemma four_objects_mixed : ∃ s, runs 4 s ∧ mixed_up s = true.
Proof. apply (sample_check 4 four_objects mixed_up ltac:(lia)). vm_cast_no_check (eq_refl true). Qed.
Theorem rows_mixed_up : ∃ s, runs 4 s ∧ at_ (cl s) = Finished ∧ to_server s = [0; 1; 2; 3]%nat ∧ to_client s = [0; 1; 2; 3]%nat ∧
  stamps (cl s) !! 1%nat = Some (iclock64 (at_ms 30)) ∧ takes (cl s) !! 1%nat = Some (iclock64 (at_ms 60)) ∧
  delay_print_rtt_time (objs (cl s)) 4 = Ok [(0, 20); (0, 50); (2, 40); (3, 35)].
Proof.
  destruct four_objects_mixed as (s & Hr & H). unfold mixed_up in H.
  rewrite !andb_true_iff, !bool_decide_eq_true in H. destruct H as (((((H1 & H2) & H3) & H4) & H5) & H6). exists s.
  split_and!; [done..|]. destruct (delay_print_rtt_time _ _); [|done]. apply bool_decide_eq_true in H6. by f_equal.
Qed.

Definition overtaken (s : sys) : bool :=
  bool_decide (to_server s = [0; 2; 1; 3]%nat) && bool_decide (length (out (ca s)) = 4%nat) &&
  bool_decide (to_client s = [0; 1; 2]%nat) && bool_decide (length (out (sb s)) = 3%nat) && bool_decide (recv_objs (cl s) = 2%nat) &&
  stuck 3 s.
Definition overtaking : list event :=
  [C_ 10 None; C_ 20 None; S_ 30 (Some 0%nat); C_ 40 (Some 0%nat); C_ 50 None; C_ 60 None; S_ 70 (Some 2%nat); S_ 80 (Some 1%nat);
   S_ 90 None; C_ 90 (Some 1%nat); C_ 91 (Some 2%nat); C_ 100 None; C_ 101 None; S_ 120 (Some 3%nat)].
Lemma objects_overtake : ∃ s, runs 3 s ∧ overtaken s = true.
Proof. apply (sample_check 3 overtaking overtaken ltac:(lia)). vm_cast_no_check (eq_refl true). Qed.

(** When two objects overtake each other on the way to the server, the client waits forever,
    though every datagram is delivered exactly once: on the second one the server reads only one of the two
    messages, and the acknowledgements that follow, shorter than the message that waits, never let it read the
    other. *)
Theorem reply_never_comes : ∃ s, runs 3 s ∧
  to_server s = [0; 2; 1; 3]%nat ∧ length (out (ca s)) = 4%nat ∧ to_client s = [0; 1; 2]%nat ∧ length (out (sb s)) = 3%nat ∧
  ∀ s', rtc (undelivered 3) s s' → at_ (cl s') = Waiting ∧ recv_objs (cl s') = 2%nat ∧
    out (ca s') = out (ca s) ∧ out (sb s') = out (sb s).
Proof.
  destruct objects_overtake as (s & Hr & H). unfold overtaken in H.
  rewrite !andb_true_iff, !bool_decide_eq_true in H. destruct H as (((((H1 & H2) & H3) & H4) & H5) & H6). exists s.
  split_and!; [done..|]. intros s' Hs. destruct (stuck_forever 3 s s' H6 Hs) as (Ha & Hc & Hoa & Hob). by rewrite Hc in *.
Qed.

End KcpEcho.
